(* ===== verification/_CoqProject ===== *)
-Q . S2P
Prelude.v
JsNumber.v
JsNumberFacts.v
JsString.v
JsRegex.v
JsValue.v
JsonFacts.v
JsonRoundtrip.v
Host.v
HttpStatusRules.v
StatusCodeGuard.v
BillingExpr.v
BillingSplit.v
BillingRules.v
BillingTiers.v
TierExpr.v
Currency.v
Format.v
Pricing.v
PricingFacts.v
ModelMetadata.v
Playground.v
PlaygroundThink.v
PlaygroundChat.v
Channels.v
ChannelsFacts.v
ChannelModels.v
ParamOverride.v
ParamEditor.v
ParamInvariant.v
ParamRoundtrip.v
ParamDrafts.v
ChannelForm.v
ChannelFormFacts.v
Time.v
Dashboard.v
DashboardFacts.v
DashboardUsers.v
TieredEditor.v
TieredEditorFacts.v
PricingSheet.v
PricingSheetFacts.v
PriceSettings.v
PriceSettingsFacts.v
ExpressionFlow.v
UpstreamSync.v
UpstreamSyncFacts.v
Encoding.v
UsageLogs.v
UsageLogsFacts.v
GroupSettings.v
GroupSettingsFacts.v
Navigation.v
NavigationFacts.v
PlaygroundPage.v
PlaygroundPageFacts.v
ChatLinks.v
Notifications.v
SettingsForm.v
SettingsFormFacts.v
NavModules.v
NavModulesFacts.v
Wallet.v
WalletPage.v
WalletFacts.v
AccountForms.v
CatalogForms.v
FormsFacts.v
Canvas.v
CanvasPage.v
CanvasFacts.v
