(* ===== verification/Prelude.v ===== *)
(** * Love API web console: a verification development

    Love API is a gateway to model providers.  Its web console (the TypeScript
    under src/web/default/src) shows prices, edits billing rules, manages
    channels (upstream providers with their keys and models), charts usage,
    holds conversations with models and takes payments; a second console
    (src/web/classic/src) is a copy of it, most of the files below byte for byte,
    with a canvas for generated images of its own.  The server behind them is
    written in Go and is not modelled; what the consoles read from it enters as
    arbitrary input.  File names below are relative to src/web/default/src unless
    they say otherwise.

    ** The program and the files of this library

    The language.
    - Prelude.v: tactics, hint databases, first occurrences ([new Set]), the
      stable sort of a comparator, joining, code that may throw ([outcome]).
    - JsNumber.v, JsNumberFacts.v: numbers as IEEE doubles ([spec_float] with
      precision 53), rounding, conversion to and from text; facts about safe
      integers and dyadic fractions.
    - JsString.v: strings as lists of UTF-16 code units, searching, splitting,
      trimming, conversion to numbers.
    - JsRegex.v: regular expressions, a backtracking matcher that returns the
      match the language specifies, and its relational semantics [Mr] with
      soundness and completeness.
    - JsValue.v: values, objects as own properties in insertion order, JSON.
      JsonFacts.v: the fuel of the JSON parser is enough.  JsonRoundtrip.v: what
      was printed is parsed back.
    - Host.v: what comes from outside the repository (number and date formats,
      [Math.pow], [localeCompare], dayjs) as the fields of the class [Host];
      the law [Collation] that [localeCompare] is an order is a separate class,
      and [plain_host] shows that both can be had.
    - Encoding.v: base64, UTF-8 and the escapes of addresses, written out.
    - Time.v: lib/time.ts, with the class [Calendar] for the local calendar and
      [utc_calendar] as an instance.

    Prices and billing.
    - BillingExpr.v: features/pricing/lib/billing-expr.ts, the text form of
      tiered prices and of request rules, their readers and printers.
      BillingSplit.v: the splitting at top level and the removal of outer
      parentheses.  BillingRules.v: reading what was printed.  BillingTiers.v:
      tiers, their conditions and their coefficients.
    - TierExpr.v: features/pricing/lib/tier-expr.ts, the visual tier editor.
    - Currency.v: stores/system-config-store.ts and lib/currency.ts.  Format.v:
      lib/format.ts.
    - Pricing.v, PricingFacts.v: features/pricing (constants.ts, types.ts,
      lib/price.ts, dynamic-price.ts, filters.ts, model-helpers.ts), which use
      the billing reader and the currency functions.
    - ModelMetadata.v: features/pricing/lib/seed.ts and model-metadata.ts.

    Price settings (features/system-settings/models).
    - TieredEditor.v, TieredEditorFacts.v: tiered-pricing-editor.tsx.  The state
      is the record [Editor]; a [commit] is one rendering with its effects, and
      an event is its handler followed by the commits that settle it.
    - PricingSheet.v, PricingSheetFacts.v: model-pricing-sheet.tsx, the panel
      that edits the price of one model; [Panel] is its state, [dispatch] runs
      the handler of an [Event] where its control is enabled.
    - PriceSettings.v, PriceSettingsFacts.v: model-ratio-visual-editor.tsx,
      ratio-settings-card.tsx, utils.ts and utils/json-parser.ts, the table of
      all models over ten JSON texts.
    - ExpressionFlow.v: table, sheet and tiered editor together; [open_model] is
      the click on a row, with the editor that is already mounted, if any.
    - UpstreamSync.v, UpstreamSyncFacts.v: upstream-ratio-sync.tsx with its
      table, columns and helpers; [sync_step] is one event of the page, [reach]
      what the page can come to.
    - GroupSettings.v, GroupSettingsFacts.v: group-ratio-form.tsx,
      group-ratio-visual-editor.tsx and group-special-usable-editor.tsx, the
      settings of user groups; [GroupEditor] is the form with the visual editor
      while it is shown, [group_step] one event.

    Channels.
    - HttpStatusRules.v: lib/http-status-code-rules.ts.  StatusCodeGuard.v:
      features/channels/lib/status-code-risk-guard.ts.
    - Channels.v, ChannelsFacts.v: features/channels (constants.ts, types.ts,
      lib/channel-utils.ts, lib/multi-key-utils.ts).
    - ChannelModels.v: features/channels/lib/model-mapping-validation.ts,
      upstream-update-utils.ts and ollama-utils.ts.
    - ChannelForm.v, ChannelFormFacts.v: features/channels/lib/channel-form.ts,
      from a stored channel to the form and back to a request.
    - ParamOverride.v, ParamEditor.v: the dialog that edits parameter overrides
      (features/channels/components/dialogs/param-override-editor-dialog.tsx),
      its data and its handlers on the record [Editor].  ParamInvariant.v: what
      holds in every reachable state.  ParamRoundtrip.v: saving and opening
      again.  ParamDrafts.v: the drafts inside an operation.

    Dashboard.
    - Dashboard.v: features/dashboard/lib (charts, filters, preferences,
      statistics).  DashboardFacts.v: totals.  DashboardUsers.v: users, tooltips
      and stored preferences, which live in a model of local storage.

    Conversations.
    - Playground.v: features/playground (types.ts, constants.ts,
      lib/message-utils.ts, lib/payload-builder.ts, hooks/use-stream-request.ts,
      hooks/use-chat-handler.ts).  The state of the hooks is the record
      [ChatState]; each listener and handler is a function on it, and
      [chat_step] composes them the way the hooks are wired.
      PlaygroundThink.v: thinking tags.  PlaygroundChat.v: streaming, stopping,
      failing and reloading.
    - PlaygroundPage.v, PlaygroundPageFacts.v: lib/storage.ts,
      hooks/use-playground-state.ts, hooks/use-message-action-guard.ts, index.tsx,
      api.ts and the state of the components; [page_step] is one event of the
      page, [session] an orderly sequence of them.
    - ChatLinks.v: features/chat/lib/chat-links.ts, links that carry the address
      and the key into a chat program.
    - Canvas.v, CanvasPage.v, CanvasFacts.v: src/web/classic/src/features/canvas
      (constants.ts, types.ts, api.ts, index.tsx).  [step] is one event of the page:
      an edit, a click, an answer of the server, in any order; a [Run] is a
      generation under way, with the values of the page when it was started.

    Usage logs.
    - UsageLogs.v, UsageLogsFacts.v: features/usage-logs (constants.ts, api.ts
      and lib): filters, the requests they become, and the display of a log.

    Settings, navigation and accounts.
    - SettingsForm.v, SettingsFormFacts.v: features/system-settings/hooks and the
      sections of general: the options of the server, the form of a section, and
      the requests that saving becomes.
    - NavModules.v, NavModulesFacts.v: which pages the header and the sidebar offer
      (features/system-settings/maintenance, hooks/use-top-nav-links.ts,
      lib/nav-modules.ts, the guards of the routes).  Navigation.v,
      NavigationFacts.v: hooks/use-sidebar-config.ts, use-sidebar-data.ts and
      use-table-url-state.ts.
    - Notifications.v: stores/notification-store.ts and hooks/use-notifications.ts.
    - Wallet.v, WalletPage.v, WalletFacts.v: features/wallet (lib, hooks,
      index.tsx); [wallet_step] is one event of the page, with answers of the
      server in any order.
    - AccountForms.v: the forms of keys, users and redemption codes.
      CatalogForms.v: those of subscription plans and models.  FormsFacts.v: they
      give back what was sent.

    Definitions keep the names of the source.  A function with early returns is
    a chain of conditionals; a loop over an array is a fold with the loop's
    variables as accumulator; an object that is mutated in place is passed and
    returned; exceptions are [Throw]; an absent value is [None], or [JUndef]
    and [JNull] where the code tells them apart.  Translations ([t]), clocks and
    fresh identifiers are parameters.

    ** What the theorems show

    - Billing rules of plain conditions ([group_ok]) that the editor prints are
      read back as the same rules, and a balanced price expression that is no rule,
      combined with them, is split into the same two parts, but for its own outer
      parentheses ([rule_expr_roundtrip], [combine_split_roundtrip]); splitting at
      top level inverts joining, and no removable outer parentheses are left.  A rule that
      compares a request parameter with a number is lost when it is read back
      ([param_comparison_lost]): a defect.
    - The two tiers read from a condition never both apply and one always does;
      tier bodies give each variable its first coefficient; the visual editor
      only keeps expressions it can regenerate.
    - The tiered editor settles unless a reader throws on a text it has to read,
      and then the sheet holds the price it shows, in visual mode also the rules,
      in expression mode the parts of the text last typed ([editor_settles]);
      switching a settled editor from visual mode to the expression and back
      loses nothing where tiers and rules are of the kind that is read back
      ([mode_roundtrip]); presets are applied once the editor is initialised
      ([preset_applied]).
    - The ratios a sheet saves are the quotients of the prices it shows, rounded
      to five digits after the point ([ratios_follow_prices]), lanes that are off
      are omitted, the price fields accept decimal numbers ([draft_is_decimal]),
      and saving is refused exactly when a warning is shown.
    - Saving, copying and deleting models refine updates of a table, through the
      JSON texts ([table_refines]); opening and saving a model without an
      expression changes nothing ([resave_unchanged]), one whose expression is
      shown visually is stored as the editor prints it
      ([look_and_save_keeps_tiers]), one whose expression cannot be shown becomes
      free ([look_and_save_makes_free]), and turning from one expression to another
      and saving overwrites the second with the first ([next_row_takes_price]): defects, like
      the switch to prices per token that is not saved while the price per request
      stays ([switch_to_tokens_ignored]) and the ratios that an input price erases
      ([input_price_erases_ratios]).
    - Synchronising with upstream prices keeps the choices consistent
      ([choices_consistent]), writes them, removes the other kind of price where a
      price or ratio was chosen, and changes nothing else ([sync_refines]), and
      asks before it deletes where no model has both kinds ([sync_asks_first]).
    - The table of the group editor agrees in every state with the two records of
      the form: it lists them, or it is what was written to them
      ([group_editor_invariant]); its dialogs are updates of finite maps
      ([overrides_refine]); rules and rows are read back from the texts they are
      written to ([rules_read_back], [rows_read_back]); a new group gets the
      first free name ([new_group_named]).
    - The billing expression of a log is decoded character by character
      ([log_expression_roundtrip]) and the tier shown is the one billed
      ([log_shows_billed_tier]); a log page asks for exactly what its filters
      say ([request_follows_filters]), and a user's own request goes to their own
      path and names no user, for common logs no channel either
      ([own_request_scoped]).
    - Status code rules have a unique normal form, which covers exactly the
      codes that were written; the guard reports exactly the risky redirects.
    - Prices: the list shows exactly the models that pass the filters, sorted
      permutations; the least group ratio is least; missing prices show as a
      dash; trailing zeros are removed and nothing else; a damaged currency
      configuration is repaired.
    - Generated metadata never indexes outside its tables, whatever the seed;
      colors are in range under 32-bit wrap-around.
    - Channels grouped by tag in place are the groups folded one by one, and a
      row shows what its channels share; duplicate keys are removed exactly;
      model lists round-trip; the repairs offered for a mapping are complete.  A
      saved channel is read back into the form ([saved_channel_read_back]) and
      its settings are exactly those of its type ([settings_exact]).
    - The parameter override dialog is well-formed in every reachable state
      ([reachable_well_formed]), reopens what it saved ([save_reopen_save]) and
      can always be saved after a reset; [handlers_throw] says which of its
      handlers can throw, and [rule_edits_ignored] that edits of the rules of a
      prune operation have no effect.
    - Dashboard: charts, ranking and cards add up to the records
      ([charts_conserve], [calls_conserved]), users are ranked by their quota,
      preferences are read back.
    - Conversations: the text of a streamed answer does not depend on how it
      was cut into chunks; after its end no event changes it; no event touches
      another message; a reload repairs the last unfinished message; a request
      carries the enabled parameters and the valid messages.  In an orderly session
      only the last message is ever unfinished and the conversation can always
      settle ([conversation_settles]), and a reload at any moment brings it back
      from storage ([reload_restores]); outside it answers mix
      ([suggestion_mixes_answers]).  Settings are restored ([settings_restored]) and
      the chosen model and group are offered ([choice_offered]).  A link hands over
      exactly the address and the key where both are Latin-1 and its template asks
      for one configuration ([link_config_arrives]).
    - The canvas: every run ends, whatever is answered, and leaves the page idle
      ([generation_ends]); requests stay within the bounds of sizes, and of counts
      where loaded drafts and settings do ([requests_bounded]); looking at earlier
      settings gives the editor back ([preview_returns]); a generated image stays in
      the history until it is cleared or restored, or other runs save theirs
      ([images_kept]); what a regular user sees does not depend on records without
      an owner ([legacy_hidden]).
    - Settings: the quota section sends only options that changed, and all of them
      unless a request is rejected ([changes_sent]); the currency section shows what
      was saved ([saved_options_shown]); names with dots and the tree of a form hold
      the same ([dot_paths_roundtrip]).
    - Navigation: links, guards and settings follow the saved modules alike
      ([header_nav_respected], [sidebar_switches_respected]); the sidebar shows what
      the administrator has on and the user has not switched off
      ([sidebar_layers]); pages and filters of a table are read
      back from the address ([filters_read_back], [page_in_range]); what was read
      stays read ([announcements_stay_read]).
    - The wallet: with answers in order the price belongs to the amount
      ([price_follows_amount]) and the dialog confirms what is paid
      ([confirmed_price]); past payments shown are those of the page asked for
      ([history_current]).
    - Forms of keys, plans and models give back what was sent
      ([api_key_roundtrip], [plan_resave], [model_form_roundtrip]); the creation of
      several keys stops at the first failure ([creation_stops]); a code is expired
      from the date of its form on ([expiry_follows_form]).

    Lemmas that are no such claim document defects and divergences from the
    comments of the source: [rule_reader_throws],
    [single_tier_rounds_cache_price], [token_display_abbreviated],
    [use_time_sixty_seconds], [stale_reasoning], [sanitize_leaves_second],
    [tag_row_priority_sentinel], [mask_shows_short_keys],
    [upstream_meta_throws], [extra_parts_ignored],
    [quoted_number_becomes_number], [typed_space_lost],
    [advanced_mode_refused], [sync_type_without_key], [settings_throw],
    [padding_hides_usage], [first_preset_loses_price],
    [first_raw_edit_leaves_mode], [price_drifts], [blank_name_saved],
    [both_kinds_unasked], [tiered_model_keeps_mode], [cleared_ratio_free],
    [reloaded_rules_overwritten], [infinite_ratio_null], [search_text_stale],
    [wide_address_throws], [opened_tab_unread], [refused_update_kept],
    [old_defaults_shown], [list_sent_by_element], [readers_disagree],
    [stale_price_shown], [below_minimum_paid], [silent_failure],
    [unchecked_link_opened], [stale_history_shown], [no_choice_hangs],
    [stopped_answer_hidden], [edit_text_lost], [limits_reenabled],
    [millis_never_expire], [duration_truncated], [custom_size_lost],
    [cleared_history_returns], [committed_settings_not_saved],
    [stored_count_unchecked], [later_images_dropped],
    [own_drawing_names_channel].

    ** Bounds and fuel

    Loops that are not structural carry fuel that grows with the input:
    [json_parse] twice the length and two, and [json_fuel_enough] shows that
    more makes no difference; the repetition of a regular expression the length
    of the rest, which [rmatch_complete] shows to be enough; [unwrap_loop] the length of the text (each round
    removes two units), for which [unwrap_outer_parens_done] shows that nothing
    is left to do; [think_loop] the length and one, for which [think_tags_spec]
    gives the full result on every text; [settle] five commits, which
    [editor_settles] shows to be enough from any state; [free_name] the number of rows, which
    [new_group_named] shows to be enough.  Numbers are doubles throughout, with
    32-bit wrap-around where the source uses bitwise operators.

    ** Conventions and what is not modelled

    Property reads see own properties only; [toLowerCase] changes ASCII and
    Latin-1 letters; ToString of an object is its default; texts of settings
    hold JSON objects where the source declares records.  The layout of
    components, styles and translations, the generated tree of routes, and the
    requests themselves are not modelled: they are presentation, or input and
    output without logic of their own; so are authentication (redirects, WebAuthn),
    server calls with messages (channel-actions.ts, model-actions.ts), copying,
    uploads and downloads.  A storage that refuses to write is not modelled.  The
    sample statistics of the price page (mock-stats.ts) are random data on top of
    the modelled generator.  Of the large drawers (channel-mutate-drawer.tsx,
    model-mutate-drawer.tsx, the payment settings) the conversions of their forms
    are modelled where they live in lib, the wiring of fields to the form library
    is not.  The Go server and the desktop shell are other programs. *)

From stdpp Require Export base numbers list option decidable sets.
From stdpp Require Export sorting strings.
From Stdlib Require Export ZArith Lia ZifyBool ZifyN ZifyNat.

(** ** Notations and automation *)

Declare Scope js_scope.
Delimit Scope js_scope with jsx.

Create HintDb jshints discriminated.
Create Rewrite HintDb jsrw.

(** [case_bool] splits on the boolean scrutinee of an [if] or of a [match]
    in the goal and keeps the equation. *)
Ltac case_bool :=
  match goal with
  | |- context [if ?b then _ else _] => destruct b eqn:?
  | H : context [if ?b then _ else _] |- _ => destruct b eqn:?
  end.

(** [case_all] splits on every [match]/[if] of the goal, then closes what is
    contradictory. *)
Ltac case_all :=
  repeat (case_match; simplify_eq/=; try done).

(** ** [Array.from(new Set(l))]: first occurrences, in order *)

Section SetOfList.
Context {A : Type} `{EqDecision A}.
Implicit Types (x y : A) (l : list A).

Fixpoint set_of_list l : list A :=
  match l with
  | [] => []
  | x :: l => x :: filter (λ y, y ≠ x) (set_of_list l)
  end.

Lemma elem_of_set_of_list x l : x ∈ set_of_list l ↔ x ∈ l.
Proof.
  induction l as [|y l IH]; simpl; [done|].
  rewrite !elem_of_cons, list_elem_of_filter, IH.
  destruct (decide (x = y)); naive_solver.
Qed.

Lemma NoDup_set_of_list l : NoDup (set_of_list l).
Proof.
  induction l as [|y l IH]; simpl; constructor.
  - rewrite list_elem_of_filter. naive_solver.
  - by apply NoDup_filter.
Qed.

Lemma set_of_list_NoDup l : NoDup l → set_of_list l = l.
Proof.
  induction 1 as [|x l Hx Hl IH]; simpl; [done|]. f_equal. rewrite IH.
  clear IH Hl. induction l as [|y l IH]; [done|].
  rewrite filter_cons_True by (intros ->; apply Hx; set_solver).
  f_equal. apply IH. set_solver.
Qed.

Lemma set_of_list_idemp l : set_of_list (set_of_list l) = set_of_list l.
Proof. apply set_of_list_NoDup, NoDup_set_of_list. Qed.

Lemma set_of_list_sublist l : sublist (set_of_list l) l.
Proof.
  induction l as [|x l IH]; simpl; [constructor|].
  apply sublist_skip. etransitivity; [apply sublist_filter|done].
Qed.
Lemma set_of_list_snoc l x :
  set_of_list (l ++ [x]) = if decide (x ∈ l) then set_of_list l else set_of_list l ++ [x].
Proof.
  induction l as [|y l IH]; [done|]. cbn [app set_of_list]. rewrite IH.
  destruct (decide (x = y)) as [->|Hxy].
  - rewrite (decide_True (P := y ∈ y :: l)) by set_solver. case_decide; [done|].
    rewrite filter_app. rewrite (filter_cons_False _ y) by naive_solver. by rewrite app_nil_r.
  - destruct (decide (x ∈ l)) as [Hx|Hx].
    + by rewrite decide_True by set_solver.
    + rewrite decide_False by set_solver. by rewrite filter_app, filter_cons_True.
Qed.
End SetOfList.

(** ** [Array.prototype.sort]: the stable sort of a comparator

    [before a b] is the comparator's verdict [cmp(a, b) < 0].  The language
    fixes the result for a consistent comparator: the stable arrangement. *)

Section StableSort.
Context {A : Type} (before : A → A → bool).
Implicit Types (x y : A) (l : list A).

Fixpoint insert_stable x l : list A :=
  match l with
  | [] => [x]
  | y :: l' => if before y x then y :: insert_stable x l' else x :: l
  end.

Fixpoint sort_stable l : list A :=
  match l with
  | [] => []
  | x :: l => insert_stable x (sort_stable l)
  end.

Lemma insert_stable_perm x l : insert_stable x l ≡ₚ x :: l.
Proof.
  induction l as [|y l IH]; simpl; [done|].
  destruct (before y x); [|done]. rewrite IH. constructor.
Qed.

Lemma sort_stable_perm l : sort_stable l ≡ₚ l.
Proof.
  induction l as [|x l IH]; simpl; [done|]. by rewrite insert_stable_perm, IH.
Qed.

Lemma length_sort_stable l : length (sort_stable l) = length l.
Proof. by rewrite sort_stable_perm. Qed.

Lemma elem_of_sort_stable x l : x ∈ sort_stable l ↔ x ∈ l.
Proof. by rewrite sort_stable_perm. Qed.

(** The comparator is a strict weak order. *)
Class StrictWeak : Prop := {
  before_asym x y : before x y = true → before y x = false;
  before_negtrans x y z : before y x = false → before z y = false → before z x = false
}.

Context `{!StrictWeak}.

Let not_after x y : Prop := before y x = false.

Lemma insert_stable_sorted x l :
  StronglySorted not_after l → StronglySorted not_after (insert_stable x l).
Proof.
  induction 1 as [|y l Hl IH Hy]; simpl; [by repeat constructor|].
  destruct (before y x) eqn:Hyx.
  - constructor; [done|]. rewrite insert_stable_perm.
    constructor; [by apply before_asym|done].
  - constructor; [by constructor|]. constructor; [done|].
    eapply Forall_impl; [exact Hy|]. unfold not_after.
    intros z Hzy. by eapply before_negtrans.
Qed.

(** After sorting no element stands before one the comparator puts ahead. *)
Lemma sort_stable_sorted l : StronglySorted not_after (sort_stable l).
Proof.
  induction l as [|x l IH]; simpl; [constructor|]. by apply insert_stable_sorted.
Qed.

(** Sorting a sorted array changes nothing. *)
Lemma sort_stable_id l : StronglySorted not_after l → sort_stable l = l.
Proof.
  induction 1 as [|x l Hl IH Hx]; simpl; [done|]. rewrite IH.
  destruct l as [|y l]; [done|]. simpl.
  apply Forall_cons in Hx as [Hyx _]. unfold not_after in Hyx. by rewrite Hyx.
Qed.
End StableSort.

Arguments StrictWeak {A} before.

(** Sorting commutes with a map that respects the comparators. *)
Lemma sort_stable_map {A B} (f : A → B) (before : A → A → bool) (before' : B → B → bool) l :
  (∀ x y, x ∈ l → y ∈ l → before' (f x) (f y) = before x y) →
  sort_stable before' (map f l) = map f (sort_stable before l).
Proof.
  assert (Hins : ∀ x l, (∀ y, y ∈ l → before' (f y) (f x) = before y x) →
    insert_stable before' (f x) (map f l) = map f (insert_stable before x l)).
  { clear. intros x l. induction l as [|y l IH]; intros H; simpl; [done|].
    rewrite H by set_solver. destruct (before y x); simpl; [|done].
    f_equal. apply IH. set_solver. }
  induction l as [|x l IH]; intros H; simpl; [done|].
  rewrite IH by set_solver. apply Hins. intros y Hy%elem_of_sort_stable. apply H; set_solver.
Qed.

(** Sorting by an integer key in ascending order. *)
#[export] Instance strict_weak_key {A} (key : A → Z) :
  StrictWeak (λ x y, (key x <? key y)%Z).
Proof. split; intros; lia. Qed.

(** ** [Array.prototype.join] *)

Fixpoint join {A} (sep : list A) (parts : list (list A)) : list A :=
  match parts with
  | [] => []
  | [p] => p
  | p :: parts => p ++ sep ++ join sep parts
  end.

Lemma pair_parts {A B} (a c : A) (b d : B) : (a, b) = (c, d) → a = c ∧ b = d.
Proof. by intros [= -> ->]. Qed.

Lemma join_cons {A} (sep : list A) p q parts :
  join sep (p :: q :: parts) = p ++ sep ++ join sep (q :: parts).
Proof. done. Qed.

(** ** Lists *)

Lemma fold_left_map {A B D} (f : D → B → D) (g : A → B) l acc :
  fold_left f (map g l) acc = fold_left (λ a x, f a (g x)) l acc.
Proof. revert acc. induction l; simpl; auto. Qed.

Lemma filter_id {A} (P : A → Prop) `{∀ x, Decision (P x)} (l : list A) :
  Forall P l → filter P l = l.
Proof.
  induction 1; [done|]. rewrite filter_cons_True by done. by f_equal.
Qed.

Lemma filter_none {A} (P : A → Prop) `{∀ x, Decision (P x)} (l : list A) :
  Forall (λ x, ¬ P x) l → filter P l = [].
Proof. induction 1; [done|]. by rewrite filter_cons_False. Qed.

(** ** Code that may throw *)

Inductive outcome (A : Type) :=
  | Ret (x : A)
  | Throw.
Arguments Ret {A}.
Arguments Throw {A}.

#[export] Instance outcome_ret : MRet outcome := @Ret.
#[export] Instance outcome_bind : MBind outcome :=
  λ A B f o, match o with Ret x => f x | Throw => Throw end.

#[export] Hint Rewrite @elem_of_set_of_list @elem_of_sort_stable : jsrw.
