(* ===== verification/JsNumber.v ===== *)
(** * The numbers of the language

    A JavaScript number is an IEEE 754 binary64 value, [spec_float] at
    precision 53 and maximal exponent 1024 from the Standard Library's
    executable specification.  On top of its arithmetic this file defines what
    the source uses of [Number] and [Math]: comparisons, rounding, remainder,
    the 32-bit conversions, decimal input ([Number(text)], [parseFloat],
    [parseInt]) and decimal output ([toString], [toFixed]).  Text is a list of
    UTF-16 code units. *)

From S2P Require Import Prelude.
From Stdlib Require Export SpecFloat.

Open Scope Z_scope.

Abbreviation num := spec_float.
Abbreviation jstr := (list N).

Definition prec : Z := 53.
Definition emax : Z := 1024.

(** ** Arithmetic and comparison *)

Definition n_add : num → num → num := SFadd prec emax.
Definition n_sub : num → num → num := SFsub prec emax.
Definition n_mul : num → num → num := SFmul prec emax.
Definition n_div : num → num → num := SFdiv prec emax.
Definition n_neg : num → num := SFopp.
Definition n_abs : num → num := SFabs.

(** [a < b], [a <= b], [a === b] (all false on NaN; [0 === -0]). *)
Definition n_lt (a b : num) : bool := SFltb a b.
Definition n_le (a b : num) : bool := SFleb a b.
Definition n_eq (a b : num) : bool := SFeqb a b.
Definition n_gt (a b : num) : bool := n_lt b a.
Definition n_ge (a b : num) : bool := n_le b a.

Definition NaN : num := S754_nan.
Definition Infinity : num := S754_infinity false.

(** The number closest to an integer (ties to even). *)
Definition of_Z (z : Z) : num := binary_normalize prec emax z 0 false.

Definition isNaN (x : num) : bool := match x with S754_nan => true | _ => false end.

Definition isFinite (x : num) : bool :=
  match x with S754_nan | S754_infinity _ => false | _ => true end.

Definition is_zero (x : num) : bool := match x with S754_zero _ => true | _ => false end.

(** ToBoolean: zeros and NaN are falsy. *)
Definition num_truthy (x : num) : bool := negb (is_zero x || isNaN x).

(** [x || d] on numbers. *)
Definition num_or (x d : num) : num := if num_truthy x then x else d.

#[export] Instance num_eq_dec : EqDecision num.
Proof. solve_decision. Defined.

(** ** Rounding to integers *)

Definition signed (s : bool) (z : Z) : Z := if s then - z else z.

(** floor(v * 2^e) *)
Definition floor2 (v e : Z) : Z := if 0 <=? e then v * 2 ^ e else v / 2 ^ (- e).

(** floor(v * 2^e + 1/2) *)
Definition round2 (v e : Z) : Z :=
  if 0 <=? e then v * 2 ^ e else (2 * v + 2 ^ (- e)) / (2 * 2 ^ (- e)).

(** An integer result, which keeps the sign of the argument on zero. *)
Definition of_Z_signed (s : bool) (z : Z) : num :=
  if z =? 0 then S754_zero s else of_Z z.

Definition math_floor (x : num) : num :=
  match x with
  | S754_finite s m e => of_Z (floor2 (signed s (Zpos m)) e)
  | _ => x
  end.

Definition math_ceil (x : num) : num :=
  match x with
  | S754_finite s m e => of_Z_signed s (- floor2 (- signed s (Zpos m)) e)
  | _ => x
  end.

Definition math_round (x : num) : num :=
  match x with
  | S754_finite s m e => of_Z_signed s (round2 (signed s (Zpos m)) e)
  | _ => x
  end.

(** The integer part of a finite number. *)
Definition trunc_Z (x : num) : Z :=
  match x with
  | S754_finite s m e => signed s (floor2 (Zpos m) e)
  | _ => 0
  end.

Definition isInteger (x : num) : bool :=
  match x with
  | S754_zero _ => true
  | S754_finite _ _ e as y => n_eq y (of_Z (trunc_Z y))
  | _ => false
  end.

Definition math_max (a b : num) : num :=
  if isNaN a || isNaN b then NaN
  else if n_lt a b then b else if n_lt b a then a
  else match a, b with S754_zero true, _ => b | _, _ => a end.

Definition math_min (a b : num) : num :=
  if isNaN a || isNaN b then NaN
  else if n_lt a b then a else if n_lt b a then b
  else match a, b with S754_zero false, _ => b | _, _ => a end.

(** [a % b]: exact remainder with the sign of the dividend. *)
Definition n_rem (a b : num) : num :=
  match a, b with
  | S754_nan, _ | _, S754_nan | S754_infinity _, _ | _, S754_zero _ => NaN
  | S754_zero _, _ | _, S754_infinity _ => a
  | S754_finite s m e, S754_finite _ m' e' =>
      let d := Z.min e e' in
      let r := (Zpos m * 2 ^ (e - d)) mod (Zpos m' * 2 ^ (e' - d)) in
      binary_normalize prec emax (signed s r) d s
  end.

(** ** 32-bit conversions *)

Definition wrap32 (z : Z) : Z :=
  let r := z mod 2 ^ 32 in if r <? 2 ^ 31 then r else r - 2 ^ 32.

Definition to_int32 (x : num) : Z := wrap32 (trunc_Z x).
Definition to_uint32 (x : num) : Z := trunc_Z x mod 2 ^ 32.

(** ** Decimal digits *)

Definition digit (d : N) : N := (if d <? 10 then 48 + d else 87 + d)%N.

Fixpoint digits_fuel (base : N) (fuel : nat) (n : N) (acc : jstr) : jstr :=
  match fuel with
  | O => acc
  | S fuel =>
      let acc := digit (n mod base) :: acc in
      if (n <? base)%N then acc else digits_fuel base fuel (n / base) acc
  end.

(** The digits of a natural number; its bit length bounds their number. *)
Definition digits_base (base n : N) : jstr := digits_fuel base (S (N.size_nat n)) n [].
Definition digits (n : N) : jstr := digits_base 10 n.

Definition is_digit (c : N) : bool := ((48 <=? c) && (c <=? 57))%N.

Fixpoint undigits_acc (acc : N) (s : jstr) : N :=
  match s with [] => acc | c :: s => undigits_acc (10 * acc + (c - 48))%N s end.
Definition undigits (s : jstr) : N := undigits_acc 0%N s.

Definition zeros (n : nat) : jstr := replicate n 48%N.

(** ** Decimal input *)

(** The number closest to m * 10^e.  Beyond the clamps the result is known
    without computing the power: 10^310 overflows and 10^(-400) underflows. *)
Definition of_decimal (s : bool) (m : N) (e : Z) : num :=
  match m with
  | N0 => S754_zero s
  | Npos p =>
      if 310 <=? e then S754_infinity s
      else if Z.of_nat (length (digits m)) + e <=? -400 then S754_zero s
      else if 0 <=? e then binary_normalize prec emax (signed s (Zpos p * 10 ^ e)) 0 s
      else
        let '(q, e', l) := SFdiv_core_binary prec emax (Zpos p) 0 (10 ^ (- e)) 0 in
        binary_round_aux prec emax s q e' l
  end.

Fixpoint span {A} (f : A → bool) (s : list A) : list A * list A :=
  match s with
  | [] => ([], [])
  | c :: s' => if f c then let '(a, b) := span f s' in (c :: a, b) else ([], s)
  end.

(** An optional sign. *)
Definition scan_sign (s : jstr) : bool * jstr :=
  match s with
  | 43%N :: s => (false, s)
  | 45%N :: s => (true, s)
  | _ => (false, s)
  end.

(** An optional exponent part; without digits it is not consumed. *)
Definition scan_exponent (s : jstr) : Z * jstr :=
  match s with
  | c :: s' =>
      if (c =? 101)%N || (c =? 69)%N then
        let '(neg, t) := scan_sign s' in
        match span is_digit t with
        | ([], _) => (0, s)
        | (ds, rest) => (signed neg (Z.of_N (undigits ds)), rest)
        end
      else (0, s)
  | [] => (0, s)
  end.

(** StrDecimalLiteral at the head of a text, with what follows it. *)
Definition scan_decimal (s : jstr) : option (num * jstr) :=
  let '(neg, t) := scan_sign s in
  let '(int, t1) := span is_digit t in
  let '(frac, t2) :=
    match t1 with
    | 46%N :: t' => let '(f, t'') := span is_digit t' in
                  match int, f with [], [] => ([], t1) | _, _ => (f, t'') end
    | _ => ([], t1)
    end in
  match int, frac with
  | [], [] => None
  | _, _ =>
      let '(e, rest) := scan_exponent t2 in
      Some (of_decimal neg (undigits (int ++ frac)) (e - Z.of_nat (length frac)), rest)
  end.

(** ** Decimal output *)

(** The value of a positive finite number as a fraction. *)
Definition numer (m : positive) (e : Z) : Z := Zpos m * 2 ^ Z.max e 0.
Definition denom (e : Z) : Z := 2 ^ Z.max (- e) 0.

(** The number of digits before the point: 10^(n-1) <= p/q < 10^n. *)
Fixpoint leading_zeros (fuel : nat) (p q : Z) : Z :=
  match fuel with
  | O => 0
  | S fuel => if q <=? 10 * p then 0 else 1 + leading_zeros fuel (10 * p) q
  end.

Definition magnitude (p q : Z) : Z :=
  if q <=? p then Z.of_nat (length (digits (Z.to_N (p / q))))
  else - leading_zeros 400 p q.

(** floor(p/q * 10^k) and whether it is exact. *)
Definition scaled (p q k : Z) : Z * bool :=
  let p' := p * 10 ^ Z.max k 0 in let q' := q * 10 ^ Z.max (- k) 0 in
  (p' / q', p' mod q' =? 0).

(** Whether the scaled fraction is nearer to its ceiling. *)
Definition nearer_up (p q k : Z) : bool :=
  let p' := p * 10 ^ Z.max k 0 in let q' := q * 10 ^ Z.max (- k) 0 in
  q' <? 2 * (p' mod q').

(** The shortest decimal s * 10^(n-k) that reads back as [x]; among those of
    that length the closest to [x].  Seventeen digits always suffice. *)
Fixpoint shortest (x : num) (p q n : Z) (fuel : nat) (k : Z) : N * Z :=
  match fuel with
  | O => (Z.to_N (fst (scaled p q (k - n))), n - k)
  | S fuel =>
      let lo := Z.to_N (fst (scaled p q (k - n))) in
      let hi := if snd (scaled p q (k - n)) then lo else N.succ lo in
      let '(a, b) := if nearer_up p q (k - n) then (hi, lo) else (lo, hi) in
      if n_eq (of_decimal false a (n - k)) x then (a, n - k)
      else if n_eq (of_decimal false b (n - k)) x then (b, n - k)
      else shortest x p q n fuel (k + 1)
  end.

(** Drop the factor ten a candidate may carry. *)
Fixpoint strip_tens (fuel : nat) (s : N) (e : Z) : N * Z :=
  match fuel with
  | O => (s, e)
  | S fuel => if (s mod 10 =? 0)%N then strip_tens fuel (s / 10)%N (e + 1) else (s, e)
  end.

(** Number::toString on s * 10^e, s without trailing zeros. *)
Definition layout_decimal (s : N) (e : Z) : jstr :=
  let ds := digits s in
  let k := Z.of_nat (length ds) in
  let n := k + e in
  if (k <=? n) && (n <=? 21) then ds ++ zeros (Z.to_nat (n - k))
  else if (0 <? n) && (n <=? 21) then
    take (Z.to_nat n) ds ++ 46%N :: drop (Z.to_nat n) ds
  else if (-6 <? n) && (n <=? 0) then [48; 46]%N ++ zeros (Z.to_nat (- n)) ++ ds
  else
    let x := n - 1 in
    let ex := (if 0 <=? x then 43%N else 45%N) :: digits (Z.to_N (Z.abs x)) in
    match ds with
    | [d] => [d; 101%N] ++ ex
    | d :: ds => [d; 46%N] ++ ds ++ 101%N :: ex
    | [] => []
    end.

Definition text_NaN : jstr := [78; 97; 78]%N.
Definition text_Infinity : jstr := [73; 110; 102; 105; 110; 105; 116; 121]%N.

Definition num_to_string (x : num) : jstr :=
  match x with
  | S754_nan => text_NaN
  | S754_zero _ => [48%N]
  | S754_infinity s => (if s then [45%N] else []) ++ text_Infinity
  | S754_finite s m e =>
      let p := numer m e in let q := denom e in let n := magnitude p q in
      let '(d, t) := shortest (S754_finite false m e) p q n 16 1 in
      let '(d, t) := strip_tens 25 d t in
      (if s then [45%N] else []) ++ layout_decimal d t
  end.

(** [x.toFixed(f)]: the nearest multiple of 10^(-f), the larger one on a tie,
    of the absolute value. *)
Definition fixed_digits (f : nat) (n : N) : jstr :=
  let ds := digits n in
  match f with
  | O => ds
  | S _ =>
      let ds := zeros (S f - length ds) ++ ds in
      take (length ds - f) ds ++ 46%N :: drop (length ds - f) ds
  end.

Definition fixed_scaled (m : positive) (e : Z) (f : nat) : N :=
  let p := numer m e * 10 ^ Z.of_nat f in let q := denom e in
  Z.to_N ((2 * p + q) / (2 * q)).

Definition toFixed (x : num) (f : nat) : jstr :=
  match x with
  | S754_zero _ => fixed_digits f 0
  | S754_finite s m e =>
      if n_le (of_decimal false 1 21) (S754_finite false m e) then num_to_string x
      else (if s then [45%N] else []) ++ fixed_digits f (fixed_scaled m e f)
  | _ => num_to_string x
  end.

(** [n.toString(36)] on an integer. *)
Definition int_to_string (base : N) (z : Z) : jstr :=
  (if z <? 0 then [45%N] else []) ++ digits_base base (Z.to_N (Z.abs z)).
