(* ===== verification/JsNumberFacts.v ===== *)
(** * Safe integers

    Integers of absolute value below 2^53 are represented exactly: [of_Z] is
    injective on them, comparisons agree with those of [Z], and sums and
    differences that stay in range are exact. *)

From S2P Require Import Prelude JsNumber.

Open Scope Z_scope.

Definition safe (z : Z) : Prop := Z.abs z < 2 ^ 53.

#[export] Instance safe_dec z : Decision (safe z).
Proof. unfold safe. apply _. Defined.

(** ** Binary digits *)

Lemma digits2_bounds p :
  2 ^ (Zpos (digits2_pos p) - 1) <= Zpos p < 2 ^ Zpos (digits2_pos p).
Proof.
  induction p as [p IH|p IH|]; simpl digits2_pos.
  1, 2: rewrite Pos2Z.inj_succ;
    replace (Z.succ (Zpos (digits2_pos p)) - 1) with (Z.succ (Zpos (digits2_pos p) - 1)) by lia;
    rewrite !Z.pow_succ_r by lia; lia.
  simpl. lia.
Qed.

Lemma digits2_unique p d : 0 < d → 2 ^ (d - 1) <= Zpos p < 2 ^ d → Zpos (digits2_pos p) = d.
Proof.
  intros Hd [H1 H2]. pose proof (digits2_bounds p) as [H3 H4].
  destruct (Z.lt_trichotomy (Zpos (digits2_pos p)) d) as [H|[H|H]]; [|done|].
  - assert (2 ^ Zpos (digits2_pos p) <= 2 ^ (d - 1)) by (apply Z.pow_le_mono_r; lia). lia.
  - assert (2 ^ d <= 2 ^ (Zpos (digits2_pos p) - 1)) by (apply Z.pow_le_mono_r; lia). lia.
Qed.

Lemma digits2_mono p q : Zpos (digits2_pos p) < Zpos (digits2_pos q) → Zpos p < Zpos q.
Proof.
  intros H. pose proof (digits2_bounds p) as [_ H2]. pose proof (digits2_bounds q) as [H3 _].
  assert (2 ^ Zpos (digits2_pos p) <= 2 ^ (Zpos (digits2_pos q) - 1))
    by (apply Z.pow_le_mono_r; lia). lia.
Qed.

Lemma digits2_safe p : Zpos p < 2 ^ 53 → Zpos (digits2_pos p) <= 53.
Proof.
  intros H. destruct (Z.le_gt_cases (Zpos (digits2_pos p)) 53) as [|Hd]; [done|].
  pose proof (digits2_bounds p) as [H1 _].
  assert (2 ^ 53 <= 2 ^ (Zpos (digits2_pos p) - 1)) by (apply Z.pow_le_mono_r; lia). lia.
Qed.

(** ** Shifts *)

(** m * 2^k as a positive. *)
Definition shiftp (m : positive) (k : Z) : positive := Z.to_pos (Zpos m * 2 ^ k).

Lemma shiftp_spec m k : 0 <= k → Zpos (shiftp m k) = Zpos m * 2 ^ k.
Proof. intros. unfold shiftp. rewrite Z2Pos.id; [done|]. assert (0 < 2 ^ k) by lia. nia. Qed.

Lemma shiftp_0 m : shiftp m 0 = m.
Proof. apply Pos2Z.inj. rewrite shiftp_spec by lia. lia. Qed.

Lemma digits2_shiftp m k : 0 <= k →
  Zpos (digits2_pos (shiftp m k)) = Zpos (digits2_pos m) + k.
Proof.
  intros Hk. apply digits2_unique; [lia|]. rewrite shiftp_spec by done.
  pose proof (digits2_bounds m) as [H1 H2].
  replace (Zpos (digits2_pos m) + k - 1) with ((Zpos (digits2_pos m) - 1) + k) by lia.
  rewrite !Z.pow_add_r by lia. assert (0 < 2 ^ k) by lia. nia.
Qed.

Lemma iter_xO m d : Pos.iter xO m d = shiftp m (Zpos d).
Proof.
  apply Pos2Z.inj. rewrite shiftp_spec by lia.
  induction d as [|d IH] using Pos.peano_ind; [simpl; lia|].
  rewrite Pos.iter_succ, Pos2Z.inj_succ, Z.pow_succ_r by lia.
  change (Zpos (Pos.iter xO m d)~0) with (2 * Zpos (Pos.iter xO m d)). lia.
Qed.

Lemma iter_pos_succ {A} (f : A → A) n x : iter_pos f (Pos.succ n) x = f (iter_pos f n x).
Proof.
  assert (Hcomm : ∀ n x, iter_pos f n (f x) = f (iter_pos f n x)).
  { clear. induction n as [n IH|n IH|]; intros x; simpl; [|by rewrite !IH|done].
    by rewrite !IH. }
  revert x. induction n as [n IH|n IH|]; intros x; simpl; [|by rewrite !Hcomm|done].
  by rewrite !IH, !Hcomm.
Qed.

Definition exact_rec (m : Z) : shr_record := Build_shr_record m false false.

Lemma shr_exact m n : iter_pos shr_1 n (exact_rec (Zpos (shiftp m (Zpos n)))) = exact_rec (Zpos m).
Proof.
  assert (H : ∀ j, iter_pos shr_1 n (exact_rec (Zpos (shiftp m (Zpos n + Z.of_nat j))))
    = exact_rec (Zpos (shiftp m (Z.of_nat j)))); [|specialize (H O); change (Z.of_nat 0) with 0 in H; by rewrite Z.add_0_r, shiftp_0 in H].
  assert (Hone : ∀ k, 0 <= k → shr_1 (exact_rec (Zpos (shiftp m (k + 1)))) = exact_rec (Zpos (shiftp m k))).
  { intros k Hk. replace (shiftp m (k + 1)) with (xO (shiftp m k)); [done|].
    apply Pos2Z.inj. rewrite shiftp_spec by lia.
    change (Zpos (shiftp m k)~0) with (2 * Zpos (shiftp m k)).
    rewrite shiftp_spec, Z.pow_add_r by lia. lia. }
  induction n as [|n IH] using Pos.peano_ind; intros j.
  - simpl iter_pos. rewrite (Z.add_comm 1). apply Hone. lia.
  - rewrite iter_pos_succ, Pos2Z.inj_succ.
    replace (Z.succ (Zpos n) + Z.of_nat j) with (Zpos n + Z.of_nat (S j)) by lia.
    rewrite IH, Nat2Z.inj_succ. replace (Z.succ (Z.of_nat j)) with (Z.of_nat j + 1) by lia. apply Hone. lia.
Qed.

(** ** Exact rounding *)

Lemma fexp_small d e : d + e >= -1021 → fexp prec emax (d + e) = d + e - 53.
Proof. intros H. unfold fexp, emin, prec, emax. lia. Qed.

(** A mantissa of 53 digits needs no rounding. *)
Lemma round_aux_canonical s m e :
  Zpos (digits2_pos m) = 53 → -1074 <= e <= 971 →
  binary_round_aux prec emax s (Zpos m) e loc_Exact = S754_finite s m e.
Proof.
  intros Hd He. unfold binary_round_aux, shr_fexp.
  assert (Hs : fexp prec emax (Zdigits2 (Zpos m) + e) - e = 0).
  { simpl Zdigits2. rewrite Hd, fexp_small by lia. lia. }
  rewrite Hs. simpl shr. cbn [shr shr_record_of_loc shr_m loc_of_shr_record round_nearest_even].
  rewrite Hs. cbn [shr shr_record_of_loc shr_m].
  replace (e <=? emax - prec) with true; [done|]. unfold emax, prec. lia.
Qed.

(** Rounding q * 2^j, q of at most 53 digits, is exact. *)
Lemma binary_round_exact s q p e :
  Zpos (digits2_pos q) <= 53 → -1021 <= e + 1 → e <= 0 →
  p = shiftp q (- e) →
  binary_round prec emax s p e =
    S754_finite s (shiftp q (53 - Zpos (digits2_pos q))) (Zpos (digits2_pos q) - 53).
Proof.
  intros Hd He1 He2 ->. set (d := Zpos (digits2_pos q)) in *. unfold binary_round.
  rewrite digits2_shiftp by lia. fold d.
  replace (d + - e + e) with (d + 0) by lia. rewrite fexp_small by lia.
  replace (d + 0 - 53) with (d - 53) by lia. unfold shl_align.
  destruct (d - 53 - e) as [|n|n] eqn:En.
  - replace (- e) with (53 - d) by lia. replace e with (d - 53) by lia.
    apply round_aux_canonical; [|lia]. rewrite digits2_shiftp by lia. lia.
  - unfold binary_round_aux at 1, shr_fexp. simpl Zdigits2.
    rewrite digits2_shiftp by lia. fold d. replace (d + - e + e) with (d + 0) by lia.
    rewrite fexp_small by lia. replace (d + 0 - 53 - e) with (Zpos n) by lia. unfold shr.
    change (shr_record_of_loc (Zpos (shiftp q (- e))) loc_Exact)
      with (exact_rec (Zpos (shiftp q (- e)))).
    replace (shiftp q (- e)) with (shiftp (shiftp q (53 - d)) (Zpos n)).
    2: { apply Pos2Z.inj. rewrite !shiftp_spec by lia.
         replace (- e) with ((53 - d) + Zpos n) by lia. rewrite Z.pow_add_r by lia. lia. }
    rewrite shr_exact. cbn [shr_m loc_of_shr_record exact_rec round_nearest_even].
    replace (e + Zpos n) with (d - 53) by lia.
    assert (Hs : fexp prec emax (Zdigits2 (Zpos (shiftp q (53 - d))) + (d - 53)) - (d - 53) = 0).
    { simpl Zdigits2. rewrite digits2_shiftp by lia. fold d.
      replace (d + (53 - d) + (d - 53)) with (d + 0) by lia. rewrite fexp_small by lia. lia. }
    rewrite Hs. cbn [shr shr_record_of_loc shr_m].
    replace (d - 53 <=? emax - prec) with true; [done|]. unfold emax, prec. lia.
  - rewrite iter_xO. replace (shiftp (shiftp q (- e)) (Zpos n)) with (shiftp q (53 - d)).
    2: { apply Pos2Z.inj. rewrite !shiftp_spec by lia.
         replace (53 - d) with (- e + Zpos n) by lia. rewrite Z.pow_add_r by lia. lia. }
    apply round_aux_canonical; [|lia]. rewrite digits2_shiftp by lia. lia.
Qed.

(** ** The representation of a safe integer *)

Definition rep (s : bool) (p : positive) : num :=
  S754_finite s (shiftp p (53 - Zpos (digits2_pos p))) (Zpos (digits2_pos p) - 53).

Lemma of_Z_pos p : safe (Zpos p) → of_Z (Zpos p) = rep false p.
Proof.
  intros H. unfold safe in H. simpl in H. apply binary_round_exact; [by apply digits2_safe|lia|lia|].
  by rewrite shiftp_0.
Qed.

Lemma of_Z_neg p : safe (Zneg p) → of_Z (Zneg p) = rep true p.
Proof.
  intros H. unfold safe in H. simpl in H. apply binary_round_exact; [by apply digits2_safe|lia|lia|].
  by rewrite shiftp_0.
Qed.

Lemma of_Z_0 : of_Z 0 = S754_zero false.
Proof. done. Qed.

Lemma compare_rep p q :
  Zpos p < 2 ^ 53 → Zpos q < 2 ^ 53 →
  (match Zpos (digits2_pos p) - 53 ?= Zpos (digits2_pos q) - 53 with
   | Lt => Lt | Gt => Gt
   | Eq => Pos.compare_cont Eq (shiftp p (53 - Zpos (digits2_pos p)))
             (shiftp q (53 - Zpos (digits2_pos q))) end) = (Zpos p ?= Zpos q).
Proof.
  intros Hp Hq.
  destruct (Z.compare_spec (Zpos (digits2_pos p) - 53) (Zpos (digits2_pos q) - 53)) as [H|H|H].
  - change (Pos.compare_cont Eq ?a ?b) with (Zpos a ?= Zpos b).
    pose proof (digits2_safe p Hp). pose proof (digits2_safe q Hq).
    rewrite !shiftp_spec by lia.
    replace (Zpos (digits2_pos q)) with (Zpos (digits2_pos p)) by lia.
    assert (0 < 2 ^ (53 - Zpos (digits2_pos p))) by lia.
    by rewrite <- Zmult_compare_compat_r by lia.
  - symmetry. apply Z.compare_lt_iff, digits2_mono. lia.
  - symmetry. apply Z.compare_gt_iff, digits2_mono. lia.
Qed.

Lemma compare_of_Z a b : safe a → safe b → SFcompare (of_Z a) (of_Z b) = Some (a ?= b).
Proof.
  intros Ha Hb. destruct a as [|p|p], b as [|q|q];
    rewrite ?of_Z_pos, ?of_Z_neg, ?of_Z_0 by done; unfold safe in *; simpl Z.abs in *; simpl;
    try done; f_equal.
  - apply compare_rep; lia.
  - transitivity (CompOpp (Zpos p ?= Zpos q)); [|done].
    rewrite <- (compare_rep p q) by lia. by destruct (_ ?= _).
Qed.

Lemma n_lt_of_Z a b : safe a → safe b → n_lt (of_Z a) (of_Z b) = (a <? b).
Proof. intros. unfold n_lt, SFltb. rewrite compare_of_Z by done. unfold Z.ltb. by destruct (a ?= b). Qed.

Lemma n_le_of_Z a b : safe a → safe b → n_le (of_Z a) (of_Z b) = (a <=? b).
Proof. intros. unfold n_le, SFleb. rewrite compare_of_Z by done. unfold Z.leb. by destruct (a ?= b). Qed.

Lemma n_eq_of_Z a b : safe a → safe b → n_eq (of_Z a) (of_Z b) = (a =? b).
Proof.
  intros. unfold n_eq, SFeqb. rewrite compare_of_Z by done.
  destruct (Z.compare_spec a b); lia.
Qed.

Lemma of_Z_finite a : safe a → isFinite (of_Z a) = true.
Proof. intros H. destruct a; rewrite ?of_Z_pos, ?of_Z_neg by done; done. Qed.

Lemma of_Z_not_nan a : safe a → isNaN (of_Z a) = false.
Proof. intros H. destruct a; rewrite ?of_Z_pos, ?of_Z_neg by done; done. Qed.

Lemma of_Z_inj a b : safe a → safe b → of_Z a = of_Z b → a = b.
Proof.
  intros Ha Hb E. pose proof (compare_of_Z a b Ha Hb) as H. rewrite E in H.
  rewrite compare_of_Z in H by done. rewrite Z.compare_refl in H.
  injection H as H. by symmetry in H; apply Z.compare_eq in H.
Qed.

Lemma math_max_of_Z a b : safe a → safe b → math_max (of_Z a) (of_Z b) = of_Z (Z.max a b).
Proof.
  intros Ha Hb. unfold math_max. rewrite !of_Z_not_nan by done. simpl.
  rewrite !n_lt_of_Z by done.
  destruct (Z.ltb_spec a b); [by rewrite Z.max_r by lia|].
  destruct (Z.ltb_spec b a); [by rewrite Z.max_l by lia|].
  assert (a = b) as -> by lia. rewrite Z.max_id. destruct (of_Z b) as [[]| | |] eqn:E; done.
Qed.

(** ** Exact sums *)

(** Normalising z * 2^(-e) at exponent e gives z. *)
Lemma normalize_exact z e : safe z → -1022 <= e <= 0 →
  binary_normalize prec emax (z * 2 ^ (- e)) e false = of_Z z.
Proof.
  intros Hz He. assert (0 < 2 ^ (- e)) by lia. destruct z as [|p|p]; [done| |].
  - rewrite of_Z_pos by done. unfold safe in Hz. simpl in Hz.
    rewrite <- shiftp_spec by lia. simpl.
    apply (binary_round_exact false p); [by apply digits2_safe|lia|lia|done].
  - rewrite of_Z_neg by done. unfold safe in Hz. simpl in Hz.
    change (Zneg p) with (- Zpos p). rewrite Z.mul_opp_l, <- shiftp_spec by lia. simpl.
    apply (binary_round_exact true p); [by apply digits2_safe|lia|lia|done].
Qed.

Lemma shl_align_rep p e :
  Zpos p < 2 ^ 53 → e <= Zpos (digits2_pos p) - 53 →
  Zpos (fst (shl_align (shiftp p (53 - Zpos (digits2_pos p))) (Zpos (digits2_pos p) - 53) e))
    = Zpos p * 2 ^ (- e).
Proof.
  intros Hp He. pose proof (digits2_safe p Hp). set (d := Zpos (digits2_pos p)) in *.
  unfold shl_align. destruct (e - (d - 53)) as [|n|n] eqn:En; cbn [fst]; [|lia|].
  - rewrite shiftp_spec by lia. do 2 f_equal. lia.
  - rewrite iter_xO, !shiftp_spec by lia. replace (- e) with ((53 - d) + Zpos n) by lia.
    rewrite Z.pow_add_r by lia. lia.
Qed.

(** A nonzero safe integer, its sign and its magnitude. *)
Lemma safe_rep z : safe z → z ≠ 0 →
  ∃ s p, z = cond_Zopp s (Zpos p) ∧ of_Z z = rep s p ∧ Zpos p < 2 ^ 53.
Proof.
  intros H Hz. destruct z as [|p|p]; [done|exists false, p|exists true, p];
    rewrite ?of_Z_pos, ?of_Z_neg by done; unfold safe in H; simpl in H; split; eauto.
Qed.

Lemma cond_Zopp_mul s a k : cond_Zopp s (a * k) = cond_Zopp s a * k.
Proof. destruct s; simpl; lia. Qed.

Lemma n_add_of_Z a b : safe a → safe b → safe (a + b) → n_add (of_Z a) (of_Z b) = of_Z (a + b).
Proof.
  intros Ha Hb Hab.
  destruct (decide (a = 0)) as [->|Ha0].
  { rewrite of_Z_0, Z.add_0_l. destruct (decide (b = 0)) as [->|Hb0]; [done|].
    destruct (safe_rep b Hb Hb0) as (s & p & -> & -> & _). done. }
  destruct (decide (b = 0)) as [->|Hb0].
  { rewrite of_Z_0, Z.add_0_r. destruct (safe_rep a Ha Ha0) as (s & p & -> & -> & _). done. }
  destruct (safe_rep a Ha Ha0) as (s & p & Ea & -> & Hp).
  destruct (safe_rep b Hb Hb0) as (t & q & Eb & -> & Hq).
  unfold n_add, rep, SFadd.
  set (e := Z.min (Zpos (digits2_pos p) - 53) (Zpos (digits2_pos q) - 53)).
  pose proof (digits2_safe p Hp). pose proof (digits2_safe q Hq).
  rewrite !shl_align_rep, !cond_Zopp_mul by (done || lia).
  rewrite <- Z.mul_add_distr_r, <- Ea, <- Eb. apply normalize_exact; [done|lia].
Qed.

Lemma n_sub_of_Z a b : safe a → safe b → safe (a - b) → n_sub (of_Z a) (of_Z b) = of_Z (a - b).
Proof.
  intros Ha Hb Hab.
  destruct (decide (b = 0)) as [->|Hb0].
  { rewrite of_Z_0, Z.sub_0_r. destruct (decide (a = 0)) as [->|Ha0]; [done|].
    destruct (safe_rep a Ha Ha0) as (s & p & -> & -> & _). done. }
  destruct (safe_rep b Hb Hb0) as (t & q & Eb & -> & Hq).
  destruct (decide (a = 0)) as [->|Ha0].
  { rewrite of_Z_0, Z.sub_0_l, Eb. destruct t; cbn [cond_Zopp].
    - change (- - Zpos q) with (Zpos q). by rewrite of_Z_pos by (unfold safe; lia).
    - change (- Zpos q) with (Zneg q). by rewrite of_Z_neg by (unfold safe; lia). }
  destruct (safe_rep a Ha Ha0) as (s & p & Ea & -> & Hp).
  unfold n_sub, rep, SFsub.
  set (e := Z.min (Zpos (digits2_pos p) - 53) (Zpos (digits2_pos q) - 53)).
  pose proof (digits2_safe p Hp). pose proof (digits2_safe q Hq).
  rewrite !shl_align_rep, !cond_Zopp_mul by (done || lia).
  rewrite <- Z.mul_sub_distr_r, <- Ea, <- Eb. apply normalize_exact; [done|lia].
Qed.

(** Beyond the safe range the exponent of the rounded integer is positive. *)
Lemma of_Z_large p : 54 <= Zpos (digits2_pos p) →
  match of_Z (Zpos p) with S754_finite s m e => s = false ∧ 1 <= e | _ => True end.
Proof.
  intros Hd. unfold of_Z, binary_normalize, binary_round.
  rewrite fexp_small by lia. unfold shl_align. destruct (Zpos (digits2_pos p) + 0 - 53 - 0) as [|n|n] eqn:En; [lia| |lia].
  unfold binary_round_aux, shr_fexp. simpl Zdigits2.
  rewrite (fexp_small (Zpos (digits2_pos p))), En by lia.
  unfold shr at 1. set (m1 := round_nearest_even _ _).
  destruct (shr (shr_record_of_loc m1 loc_Exact) (0 + Zpos n)
    (fexp prec emax (Zdigits2 m1 + (0 + Zpos n)) - (0 + Zpos n))) as [m2 e2] eqn:Esh.
  assert (1 <= e2) by (unfold shr in Esh; case_match; simplify_eq; lia).
  destruct (shr_m m2); [done| |done]. by case_bool.
Qed.

#[export] Hint Rewrite n_lt_of_Z n_le_of_Z n_eq_of_Z of_Z_finite of_Z_not_nan
  math_max_of_Z n_add_of_Z n_sub_of_Z using (unfold safe in *; lia) : jsrw.

(** ** Rounding leaves safe integers alone *)

Lemma floor2_rep s p : Zpos p < 2 ^ 53 →
  let d := Zpos (digits2_pos p) in
  floor2 (signed s (Zpos (shiftp p (53 - d)))) (d - 53) = signed s (Zpos p) ∧
  round2 (signed s (Zpos (shiftp p (53 - d)))) (d - 53) = signed s (Zpos p).
Proof.
  intros Hp d. pose proof (digits2_safe p Hp) as Hd. fold d in Hd.
  rewrite shiftp_spec by lia. set (k := 53 - d). assert (0 <= k) as Hk by (unfold k; lia).
  replace (d - 53) with (- k) by (unfold k; lia).
  assert (signed s (Zpos p * 2 ^ k) = signed s (Zpos p) * 2 ^ k) as -> by (destruct s; simpl; lia).
  assert (0 < 2 ^ k) by (apply Z.pow_pos_nonneg; lia).
  unfold floor2, round2. destruct (Z.leb_spec 0 (- k)) as [Hz|Hz].
  - assert (k = 0) as -> by lia. simpl. lia.
  - rewrite Z.opp_involutive. split; [by apply Z.div_mul; lia|].
    symmetry. apply Z.div_unique with (r := 2 ^ k); lia.
Qed.

Lemma math_round_of_Z z : safe z → math_round (of_Z z) = of_Z z.
Proof.
  intros H. destruct (decide (z = 0)) as [->|Hz]; [done|].
  destruct (safe_rep z H Hz) as (s & p & E & Er & Hp). rewrite Er at 1. unfold rep. cbn [math_round].
  destruct (floor2_rep s p Hp) as [_ ->].
  assert (signed s (Zpos p) = z) as -> by (rewrite E; by destruct s).
  unfold of_Z_signed. by destruct (Z.eqb_spec z 0).
Qed.

Lemma math_floor_of_Z z : safe z → math_floor (of_Z z) = of_Z z.
Proof.
  intros H. destruct (decide (z = 0)) as [->|Hz]; [done|].
  destruct (safe_rep z H Hz) as (s & p & E & Er & Hp). rewrite Er at 1. unfold rep. cbn [math_floor].
  destruct (floor2_rep s p Hp) as [-> _].
  assert (signed s (Zpos p) = z) as -> by (rewrite E; by destruct s). done.
Qed.

Lemma trunc_Z_of_Z z : safe z → trunc_Z (of_Z z) = z.
Proof.
  intros H. destruct (decide (z = 0)) as [->|Hz]; [done|].
  destruct (safe_rep z H Hz) as (s & p & E & Er & Hp). rewrite Er. unfold rep. cbn [trunc_Z].
  destruct (floor2_rep false p Hp) as [Hf _]. cbn [signed] in Hf. rewrite Hf, E. by destruct s.
Qed.
(** Comparing the other way around. *)
Lemma SFcompare_swap x y : SFcompare y x = option_map CompOpp (SFcompare x y).
Proof.
  destruct x as [[]|[]| |[] m e], y as [[]|[]| |[] m' e']; try done; simpl;
    rewrite ?(Z.compare_antisym e e'); destruct (e ?= e')%Z eqn:E; simpl; try done;
    rewrite ?(Pos.compare_antisym m m'), ?(Pos.compare_cont_antisym m m'); try done.
Qed.

Lemma n_lt_le a b : n_lt a b = true → n_le a b = true.
Proof. unfold n_lt, n_le, SFltb, SFleb. by destruct (SFcompare a b) as [[]|]. Qed.

(** Of two numbers, one is less or equal. *)
Lemma n_lt_total a b : isNaN a = false → isNaN b = false → n_lt b a = false → n_le a b = true.
Proof.
  intros Ha Hb. unfold n_lt, n_le, SFltb, SFleb. rewrite (SFcompare_swap a b).
  destruct (SFcompare a b) as [[]|] eqn:E; try done. destruct a as [[]|[]| |[] m e], b as [[]|[]| |[] m' e']; done.
Qed.

(** An integer of any size is rounded to a number, never to NaN. *)
Lemma iter_pos_keeps {A} (P : A → Prop) (f : A → A) n : (∀ x, P x → P (f x)) → ∀ x, P x → P (iter_pos f n x).
Proof. intros Hf. induction n as [n IH|n IH|]; intros x Hx; cbn; auto. Qed.

Lemma shr_1_nonneg r : 0 <= shr_m r → 0 <= shr_m (shr_1 r).
Proof. destruct r as [[|[p|p|]|p] r s]; cbn; lia. Qed.

Lemma shr_nonneg r e n : 0 <= shr_m r → 0 <= shr_m (fst (shr r e n)).
Proof. intros H. unfold shr. destruct n; cbn; [done| |done]. by apply (iter_pos_keeps (λ r, 0 <= shr_m r)); [apply shr_1_nonneg|]. Qed.

Lemma round_even_nonneg m l : 0 <= m → 0 <= round_nearest_even m l.
Proof. intros H. destruct l as [|[]]; cbn; try lia. destruct (Z.even m); lia. Qed.

Lemma binary_round_not_nan s m e : isNaN (binary_round prec emax s m e) = false.
Proof.
  unfold binary_round. destruct (shl_align _ _ _) as [mz ez]. unfold binary_round_aux, shr_fexp.
  destruct (shr (shr_record_of_loc (Zpos mz) loc_Exact) ez _) as [r1 e1] eqn:E1.
  destruct (shr (shr_record_of_loc (round_nearest_even (shr_m r1) (loc_of_shr_record r1)) loc_Exact) e1 _) as [r2 e2] eqn:E2.
  assert (0 <= shr_m r1) as H1.
  { pose proof (f_equal fst E1) as E. cbn [fst] in E. rewrite <- E. by apply shr_nonneg. }
  assert (0 <= shr_m r2) as H2.
  { pose proof (f_equal fst E2) as E. cbn [fst] in E. rewrite <- E. apply shr_nonneg. by apply round_even_nonneg. }
  destruct (shr_m r2) eqn:E; [done| |lia]. by destruct (Z.leb _ _).
Qed.

Lemma of_Z_nan z : isNaN (of_Z z) = false.
Proof. destruct z; [done|apply binary_round_not_nan..]. Qed.

(** A whole number is not changed by [|| 0]. *)
Lemma num_or_whole z : safe z → num_or (of_Z z) (of_Z 0) = of_Z z.
Proof.
  intros Hz. unfold num_or. destruct (num_truthy (of_Z z)) eqn:E; [done|].
  unfold num_truthy in E. rewrite of_Z_not_nan, orb_false_r in E by done.
  apply negb_false_iff in E. destruct (decide (z = 0)) as [->|Hne]; [done|].
  exfalso. assert (n_eq (of_Z z) (of_Z 0) = true) as E' by (destruct (of_Z z); done || (by rewrite of_Z_0)).
  rewrite n_eq_of_Z in E' by (done || unfold safe; lia). lia.
Qed.

#[export] Hint Rewrite math_round_of_Z math_floor_of_Z trunc_Z_of_Z using assumption : jsrw.

(** ** Dyadic fractions

    The value q / 2^k for a safe q, in the representation of doubles. *)
Definition dyadic (s : bool) (q : positive) (k : Z) : num :=
  S754_finite s (shiftp q (53 - Zpos (digits2_pos q))) (Zpos (digits2_pos q) - 53 - k).

Lemma dyadic_0 s q : dyadic s q 0 = rep s q.
Proof. unfold dyadic, rep. by rewrite Z.sub_0_r. Qed.

(** Rounding a long mantissa whose low digits are zero is exact. *)
Lemma round_aux_dyadic s q j k :
  Zpos q < 2 ^ 53 → 53 <= Zpos (digits2_pos q) + j → 0 <= k <= 900 →
  binary_round_aux prec emax s (Zpos (shiftp q j)) (- k - j) loc_Exact = dyadic s q k.
Proof.
  intros Hq Hj Hk. pose proof (digits2_safe q Hq) as Hd. set (d := Zpos (digits2_pos q)) in *.
  assert (1 <= d) by (unfold d; lia).
  set (j' := j - (53 - d)). assert (0 <= j') as Hj' by (unfold j'; lia).
  assert (Esh : shiftp q j = shiftp (shiftp q (53 - d)) j').
  { apply Pos2Z.inj. rewrite !shiftp_spec by lia. replace j with ((53 - d) + j') by (unfold j'; lia).
    rewrite Z.pow_add_r by lia. lia. }
  assert (Hdig : Zpos (digits2_pos (shiftp q (53 - d))) = 53) by (rewrite digits2_shiftp by lia; fold d; lia).
  unfold dyadic. fold d. destruct (decide (j' = 0)) as [E0|E0].
  { rewrite Esh, E0, shiftp_0. replace (- k - j) with (d - 53 - k) by (unfold j' in E0; lia).
    apply round_aux_canonical; [done|lia]. }
  destruct j' as [|n|n] eqn:En; [done| |lia].
  unfold binary_round_aux at 1, shr_fexp. simpl Zdigits2. rewrite Esh.
  rewrite digits2_shiftp by lia. rewrite Hdig.
  replace (53 + Zpos n + (- k - j)) with ((d - k) + 0) by (unfold j' in En; lia).
  rewrite fexp_small by lia. replace (d - k + 0 - 53 - (- k - j)) with (Zpos n) by (unfold j' in En; lia).
  unfold shr. change (shr_record_of_loc (Zpos (shiftp (shiftp q (53 - d)) (Zpos n))) loc_Exact)
    with (exact_rec (Zpos (shiftp (shiftp q (53 - d)) (Zpos n)))).
  rewrite shr_exact. cbn [shr_m loc_of_shr_record exact_rec round_nearest_even].
  replace (- k - j + Zpos n) with (d - 53 - k) by (unfold j' in En; lia).
  assert (Hs : fexp prec emax (Zdigits2 (Zpos (shiftp q (53 - d))) + (d - 53 - k)) - (d - 53 - k) = 0).
  { simpl Zdigits2. rewrite Hdig. replace (53 + (d - 53 - k)) with (d - k + 0) by lia.
    rewrite fexp_small by lia. lia. }
  rewrite Hs. cbn [shr shr_record_of_loc shr_m].
  replace (d - 53 - k <=? emax - prec) with true; [done|]. unfold emax, prec. lia.
Qed.

Lemma shiftp_mul p q i j : 0 <= i → 0 <= j → (shiftp p i * shiftp q j)%positive = shiftp (p * q) (i + j).
Proof.
  intros Hi Hj. apply Pos2Z.inj. rewrite Pos2Z.inj_mul, !shiftp_spec by lia.
  rewrite Pos2Z.inj_mul, Z.pow_add_r by lia. lia.
Qed.

Lemma digits2_mul p q : Zpos (digits2_pos p) + Zpos (digits2_pos q) - 1 <= Zpos (digits2_pos (p * q)).
Proof.
  pose proof (digits2_bounds p) as [Hp _]. pose proof (digits2_bounds q) as [Hq _].
  pose proof (digits2_bounds (p * q)) as [_ Hpq]. rewrite Pos2Z.inj_mul in Hpq.
  set (a := Zpos (digits2_pos p)) in *. set (b := Zpos (digits2_pos q)) in *.
  set (c := Zpos (digits2_pos (p * q))) in *.
  assert (1 <= a ∧ 1 <= b ∧ 1 <= c) by (unfold a, b, c; lia).
  destruct (Z.le_gt_cases (a + b - 1) c) as [|Hlt]; [done|].
  assert (2 ^ (a - 1) * 2 ^ (b - 1) <= Zpos p * Zpos q) by (apply Z.mul_le_mono_nonneg; lia).
  rewrite <- Z.pow_add_r in H0 by lia.
  assert (2 ^ c <= 2 ^ (a - 1 + (b - 1))) by (apply Z.pow_le_mono_r; lia). lia.
Qed.

Lemma n_mul_dyadic s t p q k l : Zpos p < 2 ^ 53 → Zpos q < 2 ^ 53 → Zpos (p * q) < 2 ^ 53 →
  0 <= k → 0 <= l → k + l <= 900 →
  n_mul (dyadic s p k) (dyadic t q l) = dyadic (xorb s t) (p * q) (k + l).
Proof.
  intros Hp Hq Hpq Hk Hl Hkl. unfold n_mul, dyadic at 1 2, SFmul.
  pose proof (digits2_safe p Hp). pose proof (digits2_safe q Hq). pose proof (digits2_mul p q).
  set (dp := Zpos (digits2_pos p)) in *. set (dq := Zpos (digits2_pos q)) in *.
  rewrite shiftp_mul by lia.
  replace (dp - 53 - k + (dq - 53 - l)) with (- (k + l) - (53 - dp + (53 - dq))) by lia.
  apply round_aux_dyadic; [done|lia|lia].
Qed.

Lemma n_mul_of_Z a b : safe a → safe b → safe (a * b) → a ≠ 0 → b ≠ 0 → n_mul (of_Z a) (of_Z b) = of_Z (a * b).
Proof.
  intros Ha Hb Hab Ha0 Hb0. destruct (safe_rep a Ha Ha0) as (s & p & Ea & -> & Hp).
  destruct (safe_rep b Hb Hb0) as (t & q & Eb & -> & Hq).
  assert (Hpq : Zpos (p * q) < 2 ^ 53).
  { unfold safe in Hab. rewrite Ea, Eb in Hab. destruct s, t; simpl in Hab; lia. }
  rewrite <- !dyadic_0, n_mul_dyadic by (done || lia). rewrite dyadic_0.
  destruct (safe_rep (a * b) Hab) as (u & r & Er & -> & _); [nia|].
  assert (u = xorb s t ∧ r = (p * q)%positive) as [-> ->]; [|done].
  rewrite Ea, Eb in Er. destruct s, t, u; simpl in Er |- *; split; try done; lia.
Qed.

(** Dividing a safe integer by 2^32 is exact. *)
Lemma n_div_2_32 p : Zpos p < 2 ^ 53 → n_div (rep false p) (of_Z 4294967296) = dyadic false p 32.
Proof.
  intros Hp. pose proof (digits2_safe p Hp) as Hd. set (d := Zpos (digits2_pos p)) in *.
  change (of_Z 4294967296) with (S754_finite false 4503599627370496 (-20)).
  unfold n_div, rep, SFdiv, SFdiv_core_binary. fold d.
  assert (Hdig : Zpos (digits2_pos (shiftp p (53 - d))) = 53) by (rewrite digits2_shiftp by lia; fold d; lia).
  cbn [Zdigits2]. rewrite Hdig. change (Zpos (digits2_pos 4503599627370496)) with 53.
  replace (53 + (d - 53) - (53 + -20)) with (d - 33 + 0) by lia. rewrite fexp_small by lia.
  replace (Z.min (d - 33 + 0 - 53) (d - 53 - -20)) with (d - 86) by lia.
  replace (d - 53 - -20 - (d - 86)) with 53 by lia.
  change (match 53 with Zpos _ => _ | Z0 => _ | Zneg _ => _ end) with
    (Z.shiftl (Zpos (shiftp p (53 - d))) 53).
  rewrite Z.shiftl_mul_pow2, shiftp_spec by lia.
  assert (E : Zpos p * 2 ^ (53 - d) * 2 ^ 53 = Zpos (shiftp p (53 - d + 1)) * 4503599627370496 + 0).
  { rewrite shiftp_spec, Z.pow_add_r by lia. lia. }
  assert (Z.div_eucl (Zpos p * 2 ^ (53 - d) * 2 ^ 53) 4503599627370496 =
    (Zpos (shiftp p (53 - d + 1)), 0)) as ->.
  { pose proof (Z.div_mod (Zpos p * 2 ^ (53 - d) * 2 ^ 53) 4503599627370496 ltac:(lia)) as H1.
    assert (H2 : (Zpos p * 2 ^ (53 - d) * 2 ^ 53) mod 4503599627370496 = 0)
      by (rewrite E, Z.add_0_r; apply Z.mod_mul; lia).
    unfold Z.modulo in H2. unfold Z.div, Z.modulo in H1.
    destruct (Z.div_eucl _ _) as [q r]. f_equal; lia. }
  replace (d - 86) with (- 32 - (53 - d + 1)) by lia.
  change (new_location 4503599627370496 0) with loc_Exact.
  apply (round_aux_dyadic false p (53 - d + 1) 32); [done|lia|lia].
Qed.

Lemma math_floor_dyadic p k : Zpos p < 2 ^ 53 → 0 <= k → math_floor (dyadic false p k) = of_Z (Zpos p / 2 ^ k).
Proof.
  intros Hp Hk. pose proof (digits2_safe p Hp). unfold dyadic, math_floor. cbn [signed].
  set (d := Zpos (digits2_pos p)) in *. rewrite shiftp_spec by lia. f_equal. unfold floor2.
  assert (0 < 2 ^ k) by (apply Z.pow_pos_nonneg; lia).
  assert (0 < 2 ^ (53 - d)) by (apply Z.pow_pos_nonneg; lia).
  destruct (Z.leb_spec 0 (d - 53 - k)).
  - replace (53 - d) with 0 by lia. replace (d - 53 - k) with 0 by lia. replace k with 0 by lia.
    by rewrite Z.mul_1_r, Z.mul_1_r, Z.div_1_r.
  - replace (- (d - 53 - k)) with ((53 - d) + k) by lia. rewrite Z.pow_add_r by lia.
    rewrite (Z.mul_comm (Zpos p)). apply Z.div_mul_cancel_l; lia.
Qed.

Lemma math_round_dyadic p k : Zpos p < 2 ^ 53 → 0 <= k →
  math_round (dyadic false p k) = of_Z ((2 * Zpos p + 2 ^ k) / (2 * 2 ^ k)).
Proof.
  intros Hp Hk. pose proof (digits2_safe p Hp). unfold dyadic, math_round. cbn [signed].
  set (d := Zpos (digits2_pos p)) in *. rewrite shiftp_spec by lia.
  assert (0 < 2 ^ k) by (apply Z.pow_pos_nonneg; lia).
  assert (0 < 2 ^ (53 - d)) by (apply Z.pow_pos_nonneg; lia).
  assert (Hr : round2 (Zpos p * 2 ^ (53 - d)) (d - 53 - k) = (2 * Zpos p + 2 ^ k) / (2 * 2 ^ k)).
  { unfold round2. destruct (Z.leb_spec 0 (d - 53 - k)).
    - replace (53 - d) with 0 by lia. replace (d - 53 - k) with 0 by lia. replace k with 0 by lia.
      rewrite !Z.pow_0_r, !Z.mul_1_r. apply Z.div_unique with (r := 1); lia.
    - replace (- (d - 53 - k)) with ((53 - d) + k) by lia. rewrite Z.pow_add_r by lia.
      replace (2 * (Zpos p * 2 ^ (53 - d)) + 2 ^ (53 - d) * 2 ^ k)
        with (2 ^ (53 - d) * (2 * Zpos p + 2 ^ k)) by lia.
      replace (2 * (2 ^ (53 - d) * 2 ^ k)) with (2 ^ (53 - d) * (2 * 2 ^ k)) by lia.
      apply Z.div_mul_cancel_l; lia. }
  rewrite Hr. unfold of_Z_signed. by destruct (Z.eqb_spec ((2 * Zpos p + 2 ^ k) / (2 * 2 ^ k)) 0) as [->|].
Qed.

(** ** Decimal digits *)

Lemma undigits_digits_fuel f n acc : (n < 10 ^ N.of_nat f)%N → (0 < f)%nat →
  undigits_acc 0 (digits_fuel 10 f n acc) = undigits_acc n acc.
Proof.
  revert n acc. induction f as [|f IH]; intros n acc Hn Hf; [lia|]. cbn [digits_fuel].
  rewrite Nat2N.inj_succ, N.pow_succ_r' in Hn. destruct (N.ltb_spec n 10) as [Hlt|Hge].
  - cbn [undigits_acc]. f_equal. unfold digit. rewrite N.mod_small by done. case_match; lia.
  - pose proof (N.mod_lt n 10 ltac:(done)) as Hm. pose proof (N.div_mod n 10 ltac:(done)) as Hd. rewrite IH.
    + cbn [undigits_acc]. f_equal. unfold digit. case_match; lia.
    + apply N.Div0.div_lt_upper_bound. done.
    + destruct f; [cbn in Hn; lia|lia].
Qed.

Lemma size_nat_size n : N.of_nat (N.size_nat n) = N.size n.
Proof. destruct n as [|p]; [done|]. induction p as [p IH|p IH|]; cbn in *; lia. Qed.

Lemma undigits_digits n : undigits (digits n) = n.
Proof.
  unfold undigits, digits, digits_base. rewrite undigits_digits_fuel; [done| |lia].
  apply N.lt_le_trans with (2 ^ N.of_nat (S (N.size_nat n)))%N.
  - rewrite Nat2N.inj_succ, N.pow_succ_r', size_nat_size. pose proof (N.size_gt n). lia.
  - apply N.pow_le_mono_l. lia.
Qed.

Lemma digits_are_digits f n acc : Forall (λ c, is_digit c = true) acc → Forall (λ c, is_digit c = true) (digits_fuel 10 f n acc).
Proof.
  revert n acc. induction f as [|f IH]; intros n acc Ha; [done|]. cbn [digits_fuel].
  assert (Forall (λ c, is_digit c = true) (digit (n mod 10) :: acc)) as H.
  { constructor; [|done]. pose proof (N.mod_lt n 10 ltac:(done)). unfold digit, is_digit. case_match; lia. }
  case_match; [done|]. by apply IH.
Qed.

Lemma digits_inj n m : digits n = digits m → n = m.
Proof. intros H. by rewrite <- (undigits_digits n), H, undigits_digits. Qed.
