(* ===== verification/JsString.v ===== *)
(** * The strings of the language

    A JavaScript string is its sequence of UTF-16 code units, [list N].
    [js "..."] reads a literal (the source text of this development is UTF-8).
    The file defines what the source uses of [String.prototype]: slicing,
    searching, [split], [trim], [toLowerCase], the code-unit order, and proves
    the laws the components share.  [toLowerCase] maps the letters of the
    Basic Latin and Latin-1 blocks and leaves other code units alone. *)

From S2P Require Import Prelude JsNumber.
From Stdlib Require Import Ascii.

Open Scope N_scope.

(** ** Literals *)

Definition utf16 (c : N) : jstr :=
  if c <? 65536 then [c]
  else [55296 + (c - 65536) / 1024; 56320 + (c - 65536) mod 1024].

Fixpoint utf8_decode (l : list N) : jstr :=
  match l with
  | [] => []
  | a :: l =>
      if a <? 128 then a :: utf8_decode l
      else match l with
      | [] => []
      | b :: l =>
          if a <? 224 then utf16 ((a - 192) * 64 + (b - 128)) ++ utf8_decode l
          else match l with
          | [] => []
          | c :: l =>
              if a <? 240 then
                utf16 (((a - 224) * 64 + (b - 128)) * 64 + (c - 128)) ++ utf8_decode l
              else match l with
              | [] => []
              | d :: l =>
                  utf16 ((((a - 240) * 64 + (b - 128)) * 64 + (c - 128)) * 64 + (d - 128))
                    ++ utf8_decode l
              end
          end
      end
  end.

Fixpoint string_bytes (s : string) : list N :=
  match s with
  | String.EmptyString => []
  | String.String a s => N_of_ascii a :: string_bytes s
  end.

Definition js_of_string (s : string) : jstr := utf8_decode (string_bytes s).

Notation "'js' s" := (js_of_string s) (at level 9, s at level 8) : js_scope.
Open Scope js_scope.

(** A one-character literal. *)
Definition chr (s : string) : N := hd 0 (js_of_string s).

(** A literal with its quotation marks written as apostrophes. *)
Definition quoted (s : string) : jstr := map (λ c, if c =? 39 then 34 else c) (js_of_string s).

Arguments js_of_string !_%_string_scope /.

(** ** Comparison *)

Definition str_eqb (s t : jstr) : bool := bool_decide (s = t).

Lemma str_eqb_eq s t : str_eqb s t = true ↔ s = t.
Proof. apply bool_decide_eq_true. Qed.

Lemma str_eqb_refl s : str_eqb s s = true.
Proof. by apply str_eqb_eq. Qed.

(** ToBoolean: the empty string is falsy. *)
Definition str_truthy (s : jstr) : bool := match s with [] => false | _ => true end.

(** [s || d] on strings. *)
Definition str_or (s d : jstr) : jstr := match s with [] => d | _ => s end.

(** The default order of [sort()]: by code units. *)
Fixpoint str_lt (s t : jstr) : bool :=
  match s, t with
  | [], [] => false
  | [], _ :: _ => true
  | _ :: _, [] => false
  | a :: s, b :: t => (a <? b) || ((a =? b) && str_lt s t)
  end.

#[export] Instance str_lt_strict_weak : StrictWeak str_lt.
Proof.
  split.
  - induction x as [|a x IH]; intros [|b y]; simpl; try done.
    rewrite !orb_true_iff, andb_true_iff, orb_false_iff, andb_false_iff.
    intros [?|[? ?]]; [lia|]. split; [lia|]. right. by apply IH.
  - induction x as [|a x IH]; intros [|b y] [|c z]; simpl; try done.
    rewrite !orb_false_iff, !andb_false_iff.
    intros [? [?|Hxy]] [? [?|Hyz]]; (split; [lia|]); try (left; lia).
    destruct (decide (a = c)) as [->|]; [|left; lia]. right. eauto.
Qed.

Lemma str_lt_total s t : str_lt s t = false → str_lt t s = false → s = t.
Proof.
  revert t. induction s as [|a s IH]; intros [|b t]; simpl; try done.
  rewrite !orb_false_iff, !andb_false_iff. intros [? H1] [? H2].
  assert (a = b) as -> by lia. f_equal. apply IH.
  - destruct H1; [lia|done].
  - destruct H2; [lia|done].
Qed.

(** ** Slicing and searching *)

Definition is_nonempty (s : jstr) : Prop := s ≠ [].
#[export] Instance is_nonempty_dec s : Decision (is_nonempty s).
Proof. unfold is_nonempty. apply _. Defined.

(** A relative index of [slice]. *)
Definition rel_index (len i : Z) : nat :=
  Z.to_nat (if (i <? 0)%Z then Z.max (len + i) 0 else Z.min i len).

Definition slice (s : jstr) (i j : Z) : jstr :=
  let len := Z.of_nat (length s) in
  let a := rel_index len i in let b := rel_index len j in
  take (b - a)%nat (drop a s).

Definition slice_from (s : jstr) (i : Z) : jstr := slice s i (Z.of_nat (length s)).

(** [substring] on in-range, ordered indices. *)
Definition substring (s : jstr) (i j : nat) : jstr := take (j - i)%nat (drop i s).

Fixpoint strip_prefix (p s : jstr) : option jstr :=
  match p, s with
  | [], _ => Some s
  | a :: p, b :: s => if a =? b then strip_prefix p s else None
  | _ :: _, [] => None
  end.

Definition startsWith (s p : jstr) : bool :=
  match strip_prefix p s with Some _ => true | None => false end.

Definition endsWith (s p : jstr) : bool := startsWith (rev s) (rev p).

(** Index of the first occurrence. *)
Fixpoint index_of (s p : jstr) : option nat :=
  if startsWith s p then Some O
  else match s with
       | [] => None
       | _ :: s => option_map S (index_of s p)
       end.

(** [s.indexOf(p, from)] *)
Definition indexOf (s p : jstr) (from : nat) : option nat :=
  option_map (Nat.add from) (index_of (drop from s) p).

Definition includes (s p : jstr) : bool :=
  match index_of s p with Some _ => true | None => false end.

(** ** [split] with a separator of at least one code unit *)

Definition cons_head (c : N) (l : list jstr) : list jstr :=
  match l with [] => [[c]] | h :: t => (c :: h) :: t end.

Fixpoint split_skip (sep : jstr) (skip : nat) (s : jstr) : list jstr :=
  match s with
  | [] => [[]]
  | c :: s' =>
      match skip with
      | S k => split_skip sep k s'
      | O => if startsWith s sep then [] :: split_skip sep (length sep - 1)%nat s'
             else cons_head c (split_skip sep O s')
      end
  end.

Definition split (s sep : jstr) : list jstr := split_skip sep O s.

(** ** White space *)

(** WhiteSpace and LineTerminator: what [trim] removes and [\s] matches. *)
Definition is_space (c : N) : bool :=
  ((9 <=? c) && (c <=? 13)) || (c =? 32) || (c =? 160) || (c =? 5760)
  || ((8192 <=? c) && (c <=? 8202)) || (c =? 8232) || (c =? 8233) || (c =? 8239)
  || (c =? 8287) || (c =? 12288) || (c =? 65279).

Fixpoint drop_while {A} (f : A → bool) (s : list A) : list A :=
  match s with
  | [] => []
  | c :: s' => if f c then drop_while f s' else s
  end.

Definition trim_start (s : jstr) : jstr := drop_while is_space s.
Definition trim_end (s : jstr) : jstr := rev (drop_while is_space (rev s)).
Definition trim (s : jstr) : jstr := trim_end (trim_start s).

(** [s.replace(/[class]/g, r)]: every unit of a class becomes [r]. *)
Definition replace_units (f : N → bool) (r s : jstr) : jstr :=
  concat (map (λ c, if f c then r else [c]) s).

(** ** Case mapping *)

Definition lower_unit (c : N) : N :=
  if ((65 <=? c) && (c <=? 90)) || ((192 <=? c) && (c <=? 222) && negb (c =? 215))
  then c + 32 else c.

Definition toLowerCase (s : jstr) : jstr := map lower_unit s.

(** Upper case of ASCII and Latin-1 letters, and of the two other letters whose
    upper case is in ASCII. *)
Definition upper_units (c : N) : jstr :=
  if ((97 <=? c) && (c <=? 122)) || ((224 <=? c) && (c <=? 254) && negb (c =? 247)) then [c - 32]
  else if c =? 223 then [83; 83]
  else if c =? 255 then [376]
  else if c =? 181 then [924]
  else if c =? 305 then [73]
  else if c =? 383 then [83]
  else [c].

Definition toUpperCase (s : jstr) : jstr := concat (map upper_units s).

(** ** Numbers from text *)

(** [Number(s)] on a string: white space around a decimal literal, Infinity,
    or a radix-prefixed integer; the empty string is zero. *)
Definition hex_value (c : N) : option N :=
  if is_digit c then Some (c - 48)
  else if (97 <=? c) && (c <=? 102) then Some (c - 87)
  else if (65 <=? c) && (c <=? 70) then Some (c - 55)
  else None.

Fixpoint radix_value (base acc : N) (s : jstr) : option N :=
  match s with
  | [] => Some acc
  | c :: s =>
      match hex_value c with
      | Some d => if d <? base then radix_value base (base * acc + d) s else None
      | None => None
      end
  end.

Definition radix_literal (s : jstr) : option num :=
  match s with
  | 48 :: x :: ((_ :: _) as t) =>
      let base := if (x =? 120) || (x =? 88) then 16
                  else if (x =? 111) || (x =? 79) then 8
                  else if (x =? 98) || (x =? 66) then 2 else 0 in
      if base =? 0 then None
      else option_map (λ n, of_Z (Z.of_N n)) (radix_value base 0 t)
  | _ => None
  end.

Definition string_to_number (s : jstr) : num :=
  let t := trim s in
  match t with
  | [] => S754_zero false
  | _ =>
      match radix_literal t with
      | Some x => x
      | None =>
          let '(neg, u) := scan_sign t in
          if str_eqb u text_Infinity then S754_infinity neg
          else match scan_decimal t with Some (x, []) => x | _ => NaN end
      end
  end.

Definition parseFloat (s : jstr) : num :=
  let t := trim_start s in
  let '(neg, u) := scan_sign t in
  if startsWith u text_Infinity then S754_infinity neg
  else match scan_decimal t with Some (x, _) => x | None => NaN end.

(** [Number.parseInt(s, 10)] *)
Definition parseInt (s : jstr) : num :=
  let '(neg, u) := scan_sign (trim_start s) in
  match span is_digit u with
  | ([], _) => NaN
  | (ds, _) => match undigits ds with
               | N0 => S754_zero neg
               | Npos p => of_Z (signed neg (Zpos p))
               end
  end.

(** ** Laws *)

Lemma drop_while_app_false {A} (f : A → bool) s c t :
  Forall (λ c, f c = true) s → f c = false → drop_while f (s ++ c :: t) = c :: t.
Proof. induction 1 as [|d s Hd _ IH]; simpl; intros Hc; [by rewrite Hc|]. rewrite Hd. auto. Qed.

Lemma drop_while_suffix {A} (f : A → bool) s : ∃ p, s = p ++ drop_while f s ∧ Forall (λ c, f c = true) p.
Proof.
  induction s as [|c s (p & Hp & Hf)]; simpl; [by exists []|].
  destruct (f c) eqn:Hc; [|by exists []].
  exists (c :: p). split; [simpl; by f_equal|by constructor].
Qed.

Lemma drop_while_head {A} (f : A → bool) s c t : drop_while f s = c :: t → f c = false.
Proof.
  induction s as [|d s IH]; simpl; [done|]. destruct (f d) eqn:Hd; [done|].
  intros [= -> ->]. done.
Qed.

Lemma drop_while_id {A} (f : A → bool) s : (∀ c t, s = c :: t → f c = false) → drop_while f s = s.
Proof. destruct s as [|c s]; simpl; [done|]. intros H. by rewrite (H c s). Qed.

Lemma drop_while_idemp {A} (f : A → bool) s : drop_while f (drop_while f s) = drop_while f s.
Proof. apply drop_while_id. intros c t H. by apply drop_while_head in H. Qed.

(** A string without white space at either end. *)
Definition trimmed (s : jstr) : Prop :=
  (∀ c t, s = c :: t → is_space c = false) ∧ (∀ c t, s = t ++ [c] → is_space c = false).

Lemma trim_id s : trimmed s → trim s = s.
Proof.
  intros [H1 H2]. unfold trim, trim_end, trim_start.
  rewrite (drop_while_id _ s) by done.
  rewrite drop_while_id; [apply rev_involutive|].
  intros c t E. apply (H2 c (rev t)). by rewrite <- (rev_involutive s), E.
Qed.

Lemma trim_trimmed s : trimmed (trim s).
Proof.
  unfold trim, trim_end, trim_start.
  set (u := drop_while is_space s).
  destruct (drop_while_suffix is_space (rev u)) as (p & Hp & _).
  set (v := drop_while is_space (rev u)) in *.
  assert (Hu : u = rev v ++ rev p).
  { rewrite <- rev_app_distr, <- Hp. by rewrite rev_involutive. }
  split.
  - intros c t E. destruct (rev v) as [|d w] eqn:Ev; [done|]. injection E as -> ->.
    apply (drop_while_head is_space s c (t ++ rev p)). fold u. by rewrite Hu.
  - intros c t E. apply (drop_while_head is_space (rev u) c (rev t)).
    fold v. by rewrite <- (rev_involutive v), E, rev_app_distr.
Qed.

Lemma trim_idemp s : trim (trim s) = trim s.
Proof. apply trim_id, trim_trimmed. Qed.

Lemma drop_while_nil {A} (f : A → bool) s : drop_while f s = [] ↔ Forall (λ c, f c = true) s.
Proof.
  induction s as [|c s IH]; simpl; [by split|]. rewrite Forall_cons. destruct (f c); naive_solver.
Qed.

Lemma elem_of_reverse_rev {A} (x : A) l : x ∈ l → x ∈ rev l.
Proof. intros H. rewrite rev_alt. change (x ∈ reverse l). by apply elem_of_reverse. Qed.

Lemma trim_nil s : trim s = [] ↔ Forall (λ c, is_space c = true) s.
Proof.
  unfold trim, trim_end, trim_start. split.
  - intros H. apply (f_equal (@rev N)) in H. rewrite rev_involutive in H. apply drop_while_nil in H.
    destruct (drop_while_suffix is_space s) as (p & Hs & Hp). rewrite Hs. apply Forall_app. split; [done|].
    rewrite Forall_forall in H |- *. intros x Hx. apply H. by apply elem_of_reverse_rev.
  - intros H. apply drop_while_nil in H. by rewrite H.
Qed.

(** A text that starts with something is not blank. *)
Lemma trim_not_blank c s : is_space c = false → trim (c :: s) ≠ [].
Proof. intros Hc E. apply trim_nil, Forall_cons in E as [E _]. congruence. Qed.

Lemma trimmed_nil : trimmed [].
Proof. split; [done|]. intros c t E. by destruct t. Qed.

Lemma trimmed_app a v : a ≠ [] → v ≠ [] → trimmed a → trimmed v → trimmed (a ++ v).
Proof.
  intros Ha Hv [Ha1 _] [_ Hv2]. split.
  - intros c t E. destruct a as [|c' a]; [done|]. injection E as -> _. by eapply Ha1.
  - intros c t E. destruct (exists_last Hv) as (v' & d & ->). rewrite app_assoc in E.
    apply app_inj_tail in E as [_ <-]. by eapply Hv2.
Qed.

Lemma trimmed_mid a m v : a ≠ [] → v ≠ [] → trimmed a → trimmed v → trimmed (a ++ m ++ v).
Proof.
  intros Ha Hv [Ha1 _] [_ Hv2]. split.
  - intros c t E. destruct a as [|c' a]; [done|]. injection E as -> _. by eapply Ha1.
  - intros c t E. destruct (exists_last Hv) as (v' & d & ->). rewrite !app_assoc in E.
    apply app_inj_tail in E as [_ <-]. by eapply Hv2.
Qed.

Lemma trimmed_b s : str_eqb (trim s) s = true → trimmed s.
Proof. intros H%str_eqb_eq. rewrite <- H. apply trim_trimmed. Qed.

Lemma strip_prefix_Some p s t : strip_prefix p s = Some t ↔ s = p ++ t.
Proof.
  revert s. induction p as [|a p IH]; intros [|b s]; simpl; try naive_solver.
  destruct (N.eqb_spec a b) as [->|]; [|naive_solver].
  rewrite IH. split; [by intros ->|]. by intros [= ->].
Qed.

Lemma startsWith_true s p : startsWith s p = true ↔ ∃ t, s = p ++ t.
Proof.
  unfold startsWith. destruct (strip_prefix p s) as [t|] eqn:E.
  - apply strip_prefix_Some in E. naive_solver.
  - split; [done|]. intros [t Ht]. apply strip_prefix_Some in Ht. congruence.
Qed.

Lemma startsWith_single s c : startsWith s [c] = true ↔ ∃ t, s = c :: t.
Proof. apply startsWith_true. Qed.

Lemma includes_single s c : includes s [c] = true ↔ c ∈ s.
Proof.
  unfold includes. induction s as [|d s IH]; [simpl; set_solver|]. cbn [index_of].
  destruct (startsWith (d :: s) [c]) eqn:E.
  - apply startsWith_single in E as [t [= -> ->]]. set_solver.
  - assert (c ≠ d). { intros ->. assert (startsWith (d :: s) [d] = true) by (apply startsWith_single; eauto). congruence. }
    rewrite elem_of_cons, <- IH. destruct (index_of s [c]); simpl; naive_solver.
Qed.

Lemma split_nonempty s sep : split s sep ≠ [].
Proof.
  unfold split. destruct s as [|c s]; simpl; [done|].
  destruct (startsWith (c :: s) sep); [done|].
  by destruct (split_skip sep 0 s).
Qed.

(** One-unit separators: [split] inverts [join], and [join] inverts [split]. *)
Section SplitChar.
Context (c : N).
Implicit Types (s p : jstr) (ps : list jstr).

Lemma split_cons_sep s : split (c :: s) [c] = [] :: split s [c].
Proof.
  unfold split. simpl. destruct (startsWith (c :: s) [c]) eqn:E; [done|].
  assert (startsWith (c :: s) [c] = true) by (apply startsWith_single; eauto). congruence.
Qed.

Lemma split_cons_ne d s : d ≠ c → split (d :: s) [c] = cons_head d (split s [c]).
Proof.
  intros Hd. unfold split. simpl. destruct (startsWith (d :: s) [c]) eqn:E; [|done].
  apply startsWith_single in E as [t Ht]. congruence.
Qed.

Lemma split_no_sep p : c ∉ p → split p [c] = [p].
Proof.
  induction p as [|d p IH]; [done|]. rewrite not_elem_of_cons. intros [? ?].
  rewrite split_cons_ne by done. by rewrite IH.
Qed.

Lemma split_app_sep p s : c ∉ p → split (p ++ c :: s) [c] = p :: split s [c].
Proof.
  induction p as [|d p IH]; simpl; [intros; apply split_cons_sep|].
  rewrite not_elem_of_cons. intros [? ?].
  rewrite split_cons_ne by done. by rewrite IH.
Qed.

Lemma split_join ps : ps ≠ [] → Forall (λ p, c ∉ p) ps → split (join [c] ps) [c] = ps.
Proof.
  intros Hne Hps. destruct Hps as [|p ps Hp Hps]; [done|]. clear Hne.
  revert p Hp. induction Hps as [|q ps Hq Hps IH]; intros p Hp; [by apply split_no_sep|].
  rewrite join_cons. simpl. rewrite split_app_sep by done. f_equal. by apply IH.
Qed.

Lemma join_split s : join [c] (split s [c]) = s.
Proof.
  induction s as [|d s IH]; [done|].
  destruct (decide (d = c)) as [->|Hd].
  - rewrite split_cons_sep. destruct (split s [c]) eqn:E; [by apply split_nonempty in E|].
    rewrite join_cons. simpl. f_equal. done.
  - rewrite split_cons_ne by done.
    destruct (split s [c]) as [|h [|q ps]] eqn:E; simpl in *.
    + by apply split_nonempty in E.
    + by f_equal.
    + f_equal. done.
Qed.

Lemma split_pieces s : Forall (λ p, c ∉ p) (split s [c]).
Proof.
  induction s as [|d s IH]; [repeat constructor; set_solver|].
  destruct (decide (d = c)) as [->|Hd].
  - rewrite split_cons_sep. constructor; [set_solver|done].
  - rewrite split_cons_ne by done. destruct IH; simpl; constructor; set_solver.
Qed.
End SplitChar.

Lemma replace_units_id f r s : Forall (λ c, f c = false) s → replace_units f r s = s.
Proof.
  unfold replace_units. induction 1 as [|c s Hc _ IH]; simpl; [done|]. by rewrite Hc, IH.
Qed.

Lemma trimmed_no_space s : Forall (λ c, is_space c = false) s → trimmed s.
Proof.
  intros H. split; intros c t ->; [by inversion H|].
  apply Forall_app in H as [_ H]. by inversion H.
Qed.

(** Sorting distinct strings gives a strictly ascending array. *)
Lemma sort_str_strict l : NoDup l → StronglySorted (λ s t, str_lt s t = true) (sort_stable str_lt l).
Proof.
  intros Hnd. assert (NoDup (sort_stable str_lt l)) as Hnd' by by rewrite sort_stable_perm.
  pose proof (sort_stable_sorted str_lt l) as Hs. revert Hnd' Hs.
  generalize (sort_stable str_lt l). clear. intros l Hnd Hs.
  induction Hs as [|x l Hl IH Hx]; constructor; inversion Hnd as [|? ? Hin Hnd']; subst.
  - by apply IH.
  - rewrite Forall_forall in Hx |- *. intros y Hy. specialize (Hx y Hy). simpl in Hx.
    destruct (str_lt x y) eqn:E; [done|]. by rewrite (str_lt_total x y) in Hin.
Qed.

#[export] Hint Resolve trim_trimmed trimmed_nil split_nonempty : jshints.
#[export] Hint Rewrite str_eqb_eq str_eqb_refl trim_idemp : jsrw.

(** ** First occurrences *)

Lemma index_of_cons d s p :
  index_of (d :: s) p = if startsWith (d :: s) p then Some O else option_map S (index_of s p).
Proof. done. Qed.

Lemma startsWith_app s t p : startsWith s p = true → startsWith (s ++ t) p = true.
Proof. rewrite !startsWith_true. intros [u ->]. exists (u ++ t). by rewrite app_assoc. Qed.

(** The first occurrence splits the text in a part without occurrence, the
    pattern and the rest. *)
Lemma index_of_split s p n : p ≠ [] → index_of s p = Some n →
  ∃ u t, s = u ++ p ++ t ∧ length u = n ∧ index_of u p = None.
Proof.
  intros Hp. revert n. induction s as [|d s IH]; intros n H.
  - destruct p; [done|]. vm_compute in H. done.
  - rewrite index_of_cons in H. destruct (startsWith (d :: s) p) eqn:E.
    + injection H as <-. apply startsWith_true in E as [t ->]. exists [], t. destruct p; done.
    + destruct (index_of s p) as [k|] eqn:Ek; simpl in H; [|done]. injection H as <-.
      destruct (IH k eq_refl) as (u & t & -> & <- & Hu). exists (d :: u), t. split_and!; [done|done|].
      rewrite index_of_cons. destruct (startsWith (d :: u) p) eqn:E'.
      * apply (startsWith_app _ (p ++ t)) in E'. simpl in E'. congruence.
      * by rewrite Hu.
Qed.

Lemma prefix_before_unit (c : N) q v x t : c ∉ q → v ++ c :: x = q ++ t → ∃ w, v = q ++ w.
Proof.
  intros Hc. revert v. induction q as [|a q IH]; intros v E; [by exists v|].
  destruct v as [|b v]; injection E as -> E; [set_solver|].
  destruct (IH ltac:(set_solver) v) as [w ->]; [done|]. by exists w.
Qed.

(** A pattern whose first unit occurs only once in it cannot overlap itself: a
    text without occurrence followed by the pattern has its first occurrence
    there. *)
Lemma index_of_app (c : N) q v t : c ∉ q → index_of v (c :: q) = None →
  index_of (v ++ c :: q ++ t) (c :: q) = Some (length v).
Proof.
  intros Hc. induction v as [|d v IH]; intros Hv.
  - cbn [app length]. rewrite index_of_cons.
    assert (startsWith (c :: q ++ t) (c :: q) = true) as -> by (apply startsWith_true; by exists t). done.
  - cbn [app length]. rewrite index_of_cons in Hv |- *.
    destruct (startsWith (d :: v) (c :: q)) eqn:E; [done|].
    destruct (startsWith (d :: v ++ c :: q ++ t) (c :: q)) eqn:E'.
    + apply startsWith_true in E' as [u E']. injection E' as -> E'.
      destruct (prefix_before_unit c q v _ _ Hc E') as [w ->].
      assert (startsWith (c :: q ++ w) (c :: q) = true) by (apply startsWith_true; by exists w). congruence.
    + destruct (index_of v (c :: q)); [done|]. by rewrite IH.
Qed.

Lemma truthy_nonempty s : str_truthy s = true ↔ s ≠ [].
Proof. by destruct s. Qed.

(** ** Literal names *)

(** Comparisons of literal names are evaluated. *)
Ltac eval_names :=
  repeat match goal with
  | |- context [str_eqb (js_of_string ?a) (js_of_string ?b)] =>
      let r := eval vm_compute in (str_eqb (js_of_string a) (js_of_string b)) in
      change (str_eqb (js_of_string a) (js_of_string b)) with r
  end; rewrite ?andb_false_r, ?andb_true_r.
