(* ===== verification/JsRegex.v ===== *)
(** * Regular expressions

    A backtracking matcher for the part of the ECMAScript pattern language the
    source uses: literals, character classes, alternation, greedy and lazy
    repetition, capture groups, back references, anchors and word boundaries.
    The matcher is the specification's continuation-passing one, so the match
    it finds, captures included, is the one the language prescribes; as there,
    an iteration of a repetition that consumes nothing is cut.  No pattern of
    the source has a capture group under an unbounded repetition, so captures
    are never reset.

    [Mr] is the declarative meaning of a pattern; the matcher is proved sound
    and complete for it, which is what the components use: a proof about a
    pattern never steps the matcher. *)

From S2P Require Import Prelude JsNumber JsString.

Open Scope N_scope.

Inductive regex :=
  | Eps                                (* empty pattern *)
  | Chr (f : N → bool)                 (* one unit of a class *)
  | Seq (r1 r2 : regex)
  | Alt (r1 r2 : regex)                (* r1|r2 *)
  | Star (greedy : bool) (r : regex)   (* r*, r*? *)
  | Grp (i : nat) (r : regex)          (* capture group i *)
  | Ref (i : nat)                      (* \i *)
  | Bol | Eol                          (* ^, $ without the m flag *)
  | WordB.                             (* \b *)

(** ** Derived forms *)

Definition lit_unit (c : N) : regex := Chr (N.eqb c).
Fixpoint lit_units (s : jstr) : regex :=
  match s with [] => Eps | [c] => lit_unit c | c :: s => Seq (lit_unit c) (lit_units s) end.
Definition Lit (s : string) : regex := lit_units (js_of_string s).
Definition Plus (r : regex) : regex := Seq r (Star true r).
Definition Opt (r : regex) : regex := Alt r Eps.
Definition Alts (rs : list regex) : regex :=
  match rs with [] => Chr (λ _, false) | r :: rs => fold_left Alt rs r end.
Definition Seqs (rs : list regex) : regex := foldr Seq Eps rs.

Definition any_unit : N → bool := λ _, true.                       (* [\s\S] *)
Definition dot_unit (c : N) : bool :=                              (* . *)
  negb ((c =? 10) || (c =? 13) || (c =? 8232) || (c =? 8233)).
Definition none_of (cs : jstr) (c : N) : bool := negb (bool_decide (c ∈ cs)).
Definition one_of (cs : jstr) (c : N) : bool := bool_decide (c ∈ cs).
Definition is_word (c : N) : bool :=
  is_digit c || ((65 <=? c) && (c <=? 90)) || ((97 <=? c) && (c <=? 122)) || (c =? 95).

Definition Digit : regex := Chr is_digit.
Definition Space : regex := Chr is_space.
Definition Spaces : regex := Star true Space.                      (* \s* *)

(** ** Matcher states: where the match stands, and the captures *)

Record mstate := MState {
  behind : jstr;              (* what was read, last unit first *)
  ahead : jstr;               (* what is left *)
  caps : list (nat * jstr)    (* captures, latest first *)
}.

Fixpoint cap_lookup (i : nat) (cs : list (nat * jstr)) : option jstr :=
  match cs with
  | [] => None
  | (j, s) :: cs => if (i =? j)%nat then Some s else cap_lookup i cs
  end.

Definition set_cap (i : nat) (s : jstr) (st : mstate) : mstate :=
  MState (behind st) (ahead st) ((i, s) :: caps st).

(** What was read between two positions. *)
Definition consumed (st st' : mstate) : jstr :=
  take (length (ahead st) - length (ahead st'))%nat (ahead st).

Definition head_word (s : jstr) : bool := match s with [] => false | c :: _ => is_word c end.

(** Reading a fixed text. *)
Fixpoint read (p : jstr) (st : mstate) : option mstate :=
  match p, ahead st with
  | [], _ => Some st
  | a :: p, b :: s =>
      if a =? b then read p (MState (b :: behind st) s (caps st)) else None
  | _ :: _, [] => None
  end.

(** ** The matcher *)

Section Matcher.
Context {A : Type}.
Implicit Types (k : mstate → option A).

Definition orelse (a b : option A) : option A := match a with Some _ => a | None => b end.

(** The iterations of a repetition; [n] bounds them by the input left. *)
Fixpoint star_loop (mr : (mstate → option A) → mstate → option A) (greedy : bool) k
    (n : nat) (st : mstate) : option A :=
  match n with
  | O => k st
  | S n =>
      let more := mr (λ st',
        if (length (ahead st') <? length (ahead st))%nat
        then star_loop mr greedy k n st' else None) st in
      if greedy then orelse more (k st) else orelse (k st) more
  end.

Fixpoint rmatch (r : regex) (k : mstate → option A) (st : mstate) : option A :=
  match r with
  | Eps => k st
  | Chr f =>
      match ahead st with
      | c :: s => if f c then k (MState (c :: behind st) s (caps st)) else None
      | [] => None
      end
  | Seq r1 r2 => rmatch r1 (rmatch r2 k) st
  | Alt r1 r2 => orelse (rmatch r1 k st) (rmatch r2 k st)
  | Star greedy r =>
      star_loop (rmatch r) greedy k (length (ahead st)) st
  | Grp i r => rmatch r (λ st', k (set_cap i (consumed st st') st')) st
  | Ref i =>
      match cap_lookup i (caps st) with
      | None => k st
      | Some p => match read p st with Some st' => k st' | None => None end
      end
  | Bol => match behind st with [] => k st | _ => None end
  | Eol => match ahead st with [] => k st | _ => None end
  | WordB => if xorb (head_word (behind st)) (head_word (ahead st)) then k st else None
  end.
End Matcher.

(** ** Searching *)

Definition start (s : jstr) : mstate := MState [] s [].

Record rmatchres := RMatch {
  m_before : jstr;                (* input before the match *)
  m_text : jstr;                  (* m[0] *)
  m_caps : list (nat * jstr);
  m_after : jstr                  (* input after the match *)
}.

(** A match beginning at the given position. *)
Definition match_at (r : regex) (pre suf : jstr) : option rmatchres :=
  rmatch r (λ st, Some (RMatch (rev pre) (consumed (MState pre suf []) st) (caps st) (ahead st)))
    (MState pre suf []).

(** The leftmost match from a position on ([exec]). *)
Fixpoint search (r : regex) (pre suf : jstr) : option rmatchres :=
  match match_at r pre suf with
  | Some m => Some m
  | None => match suf with [] => None | c :: suf => search r (c :: pre) suf end
  end.

(** [s.match(re)], [re.exec(s)] without the g flag. *)
Definition re_exec (r : regex) (s : jstr) : option rmatchres := search r [] s.
Definition re_test (r : regex) (s : jstr) : bool :=
  match re_exec r s with Some _ => true | None => false end.

(** Capture group [i] of a match ([m[i]], undefined when it did not take part). *)
Definition group (m : rmatchres) (i : nat) : option jstr := cap_lookup i (m_caps m).
Definition group0 (m : rmatchres) (i : nat) : jstr := default [] (group m i).

(** All matches of a g-flag pattern, in order; after an empty match the
    search moves one unit on.  Each step shortens the rest, so its length
    bounds the number of matches. *)
Fixpoint all_matches_fuel (r : regex) (fuel : nat) (pre suf : jstr) : list rmatchres :=
  match fuel with
  | O => []
  | S fuel =>
      match search r pre suf with
      | None => []
      | Some m =>
          let pre' := rev (m_text m) ++ rev (m_before m) in
          m :: match m_text m, m_after m with
               | [], [] => []
               | [], c :: rest => all_matches_fuel r fuel (c :: pre') rest
               | _ :: _, rest => all_matches_fuel r fuel pre' rest
               end
      end
  end.

Definition all_matches (r : regex) (s : jstr) : list rmatchres :=
  all_matches_fuel r (S (length s)) [] s.

(** [s.replace(re, f)] for a g-flag pattern and for a single match. *)
Fixpoint replace_matches (f : rmatchres → jstr) (done : nat) (ms : list rmatchres) (rest : jstr) : jstr :=
  match ms with
  | [] => rest
  | m :: ms =>
      drop done (m_before m) ++ f m
        ++ replace_matches f (length (m_before m) + length (m_text m)) ms (m_after m)
  end.

Definition re_replace_all (r : regex) (f : rmatchres → jstr) (s : jstr) : jstr :=
  replace_matches f 0 (all_matches r s) s.

Definition re_replace (r : regex) (f : rmatchres → jstr) (s : jstr) : jstr :=
  match re_exec r s with
  | Some m => m_before m ++ f m ++ m_after m
  | None => s
  end.

(** [s.split(re)] for a pattern that never matches the empty string. *)
Fixpoint split_matches (done : nat) (ms : list rmatchres) (rest : jstr) : list jstr :=
  match ms with
  | [] => [rest]
  | m :: ms =>
      drop done (m_before m)
        :: split_matches (length (m_before m) + length (m_text m)) ms (m_after m)
  end.

Definition re_split (r : regex) (s : jstr) : list jstr := split_matches 0 (all_matches r s) s.

(** ** Declarative meaning *)

Inductive Mr : regex → mstate → mstate → Prop :=
  | Mr_eps st : Mr Eps st st
  | Mr_chr f b c s cs : f c = true → Mr (Chr f) (MState b (c :: s) cs) (MState (c :: b) s cs)
  | Mr_seq r1 r2 st st1 st2 : Mr r1 st st1 → Mr r2 st1 st2 → Mr (Seq r1 r2) st st2
  | Mr_alt_l r1 r2 st st' : Mr r1 st st' → Mr (Alt r1 r2) st st'
  | Mr_alt_r r1 r2 st st' : Mr r2 st st' → Mr (Alt r1 r2) st st'
  | Mr_star_nil g r st : Mr (Star g r) st st
  | Mr_star_cons g r st st1 st2 :
      Mr r st st1 → (length (ahead st1) < length (ahead st))%nat →
      Mr (Star g r) st1 st2 → Mr (Star g r) st st2
  | Mr_grp i r st st' : Mr r st st' → Mr (Grp i r) st (set_cap i (consumed st st') st')
  | Mr_ref_none i st : cap_lookup i (caps st) = None → Mr (Ref i) st st
  | Mr_ref i st p st' : cap_lookup i (caps st) = Some p → read p st = Some st' → Mr (Ref i) st st'
  | Mr_bol st : behind st = [] → Mr Bol st st
  | Mr_eol st : ahead st = [] → Mr Eol st st
  | Mr_wordb st : xorb (head_word (behind st)) (head_word (ahead st)) = true → Mr WordB st st.

#[export] Hint Constructors Mr : jshints.

Section MatcherCorrect.
Context {A : Type}.
Implicit Types (k : mstate → option A).

Lemma orelse_Some (a b : option A) x : orelse a b = Some x → a = Some x ∨ b = Some x.
Proof. destruct a; naive_solver. Qed.

Lemma orelse_is_Some (a b : option A) : is_Some a ∨ is_Some b → is_Some (orelse a b).
Proof. destruct a; intros [H|H]; simpl; [done|eauto|by destruct H|done]. Qed.

Lemma star_loop_sound mr g k r n st x :
  (∀ k st, mr k st = Some x → ∃ st', Mr r st st' ∧ k st' = Some x) →
  star_loop mr g k n st = Some x → ∃ st', Mr (Star g r) st st' ∧ k st' = Some x.
Proof.
  intros Hmr. revert st. induction n as [|n IH]; intros st Hm; simpl in Hm; [eauto with jshints|].
  assert (k st = Some x ∨ mr (λ st',
    if (length (ahead st') <? length (ahead st))%nat
    then star_loop mr g k n st' else None) st = Some x) as [H|H].
  { destruct g; apply orelse_Some in Hm as [Hm|Hm]; auto. }
  - eauto with jshints.
  - apply Hmr in H as (st1 & H1 & H2). case_bool; [|done].
    apply IH in H2 as (st2 & H2 & ?). exists st2. split; [|done].
    eapply Mr_star_cons; [done| |done]. lia.
Qed.

Lemma star_loop_complete mr g k r st st' :
  (∀ k st st', Mr r st st' → is_Some (k st') → is_Some (mr k st)) →
  Mr (Star g r) st st' → is_Some (k st') →
  ∀ n, (length (ahead st) ≤ n)%nat → is_Some (star_loop mr g k n st).
Proof.
  intros Hmr HM Hk. remember (Star g r) as q eqn:Hq.
  induction HM as [ | | | | | | g' r' st st1 st2 H1 _ Hlt H2 IH2 | | | | | | ];
    simplify_eq; intros n Hn.
  - destruct n; [done|]. destruct g; apply orelse_is_Some; auto.
  - destruct n as [|n]; [lia|]. simpl.
    assert (is_Some (mr (λ st', if (length (ahead st') <? length (ahead st))%nat
      then star_loop mr g k n st' else None) st)) as Hmore.
    { eapply Hmr; [exact H1|]. case_bool; [|lia]. apply IH2; [done|done|lia]. }
    destruct g; apply orelse_is_Some; auto.
Qed.

(** Soundness: what the matcher returns is the continuation at an end state
    of the pattern. *)
Lemma rmatch_sound r k st x :
  rmatch r k st = Some x → ∃ st', Mr r st st' ∧ k st' = Some x.
Proof.
  revert k st. induction r; intros k st Hm; simpl in Hm.
  - eauto with jshints.
  - destruct st as [b [|c s] cs]; simpl in *; [done|].
    destruct (f c) eqn:Hf; [|done]. eauto with jshints.
  - apply IHr1 in Hm as (st1 & H1 & Hm). apply IHr2 in Hm as (st2 & H2 & Hm).
    eauto with jshints.
  - apply orelse_Some in Hm as [Hm|Hm]; [apply IHr1 in Hm|apply IHr2 in Hm];
      destruct Hm as (st' & ? & ?); eauto with jshints.
  - eapply star_loop_sound; [|exact Hm]. eauto.
  - apply IHr in Hm as (st' & ? & ?). eauto with jshints.
  - destruct (cap_lookup i (caps st)) as [p|] eqn:Hc; [|eauto with jshints].
    destruct (read p st) eqn:Hr; [|done]. eauto with jshints.
  - destruct (behind st) eqn:Hb; [|done]. eauto with jshints.
  - destruct (ahead st) eqn:Hb; [|done]. eauto with jshints.
  - destruct (xorb _ _) eqn:Hb; [|done]. eauto with jshints.
Qed.

(** Completeness: if the continuation accepts some end state of the pattern,
    the matcher returns a value. *)
Lemma rmatch_complete r st st' k : Mr r st st' → is_Some (k st') → is_Some (rmatch r k st).
Proof.
  revert k st st'. induction r; intros k st st' HM Hk; simpl;
    try (eapply star_loop_complete; [|done|done|lia]; by eauto);
    inversion HM; simplify_eq/=; try done; eauto.
  - by case_bool; simplify_eq.
  - apply orelse_is_Some. eauto.
  - apply orelse_is_Some. eauto.
  - by case_match; simplify_eq.
  - by repeat (case_match; simplify_eq).
  - by case_match; simplify_eq.
  - by case_match; simplify_eq.
  - by case_match; simplify_eq.
Qed.
End MatcherCorrect.

(** ** Reading off the meaning of the common forms *)

(** The state after reading [p] with [t] left. *)
Definition after (st : mstate) (p t : jstr) : mstate :=
  MState (rev p ++ behind st) t (caps st).

Lemma after_after st p q t u : after (after st p t) q u = after st (p ++ q) u.
Proof. unfold after. simpl. by rewrite rev_app_distr, <- app_assoc. Qed.

Lemma after_nil st : after st [] (ahead st) = st.
Proof. by destruct st. Qed.

Lemma Mr_eps_iff st st' : Mr Eps st st' ↔ st' = st.
Proof. split; [by inversion 1|intros ->; constructor]. Qed.

Lemma Mr_seq_iff r1 r2 st st' : Mr (Seq r1 r2) st st' ↔ ∃ st1, Mr r1 st st1 ∧ Mr r2 st1 st'.
Proof. split; [inversion 1; eauto|intros (? & ? & ?); eauto with jshints]. Qed.

Lemma Mr_alt_iff r1 r2 st st' : Mr (Alt r1 r2) st st' ↔ Mr r1 st st' ∨ Mr r2 st st'.
Proof. split; [inversion 1; eauto|intros []; eauto with jshints]. Qed.

Lemma Mr_bol_iff st st' : Mr Bol st st' ↔ behind st = [] ∧ st' = st.
Proof. split; [by inversion 1|intros [? ->]; by constructor]. Qed.

Lemma Mr_eol_iff st st' : Mr Eol st st' ↔ ahead st = [] ∧ st' = st.
Proof. split; [by inversion 1|intros [? ->]; by constructor]. Qed.

Lemma Mr_chr_iff f st st' :
  Mr (Chr f) st st' ↔ ∃ c t, ahead st = c :: t ∧ f c = true ∧ st' = after st [c] t.
Proof.
  split.
  - inversion 1; subst. eexists _, _. done.
  - destruct st as [b a cs]. intros (c & t & ? & ? & ->); simplify_eq/=. by constructor.
Qed.

Lemma Mr_grp_iff i r st st' :
  Mr (Grp i r) st st' ↔ ∃ st1, Mr r st st1 ∧ st' = set_cap i (consumed st st1) st1.
Proof. split; [inversion 1; eauto|intros (? & ? & ->); eauto with jshints]. Qed.

Lemma Mr_lit_units p st st' :
  Mr (lit_units p) st st' ↔ ∃ t, ahead st = p ++ t ∧ st' = after st p t.
Proof.
  revert st. induction p as [|c p IH]; intros st.
  - simpl. rewrite Mr_eps_iff. split.
    + intros ->. exists (ahead st). by rewrite after_nil.
    + intros (t & <- & ->). by rewrite after_nil.
  - assert (Hchr : ∀ st1, Mr (lit_unit c) st st1 ↔
      ∃ t, ahead st = c :: t ∧ st1 = after st [c] t).
    { intros st1. unfold lit_unit. rewrite Mr_chr_iff. split.
      - intros (d & t & ? & Hd%N.eqb_eq & ->). subst. eauto.
      - intros (t & ? & ->). exists c, t. by rewrite N.eqb_refl. }
    destruct p as [|d p].
    + simpl. apply Hchr.
    + change (Mr (Seq (lit_unit c) (lit_units (d :: p))) st st' ↔
        ∃ t, ahead st = c :: (d :: p) ++ t ∧ st' = after st ([c] ++ d :: p) t).
      rewrite Mr_seq_iff. split.
      * intros (st1 & (t & Ht & ->)%Hchr & (u & Hu & ->)%IH). simpl in Hu. subst.
        exists u. split; [done|]. apply after_after.
      * intros (t & Ht & ->). exists (after st [c] ((d :: p) ++ t)).
        rewrite Hchr, IH. split; [eauto|]. exists t. by rewrite after_after.
Qed.

Lemma Mr_star_chr g f st st' :
  Mr (Star g (Chr f)) st st' ↔
  ∃ p t, ahead st = p ++ t ∧ Forall (λ c, f c = true) p ∧ st' = after st p t.
Proof.
  split.
  - intros H. remember (Star g (Chr f)) as q eqn:Hq.
    induction H as [ | | | | | | g' r' st st1 st2 H1 _ Hlt H2 IH2 | | | | | | ]; simplify_eq.
    + exists [], (ahead st). by rewrite after_nil.
    + apply Mr_chr_iff in H1 as (c & t & Ht & Hc & ->).
      destruct IH2 as (p & u & Hu & Hp & ->); [done|]. simpl in Hu. subst.
      exists (c :: p), u. split; [done|]. split; [by constructor|]. apply after_after.
  - intros (p & t & Ht & Hp & ->). revert st Ht. induction Hp as [|c p Hc Hp IH]; intros st Ht.
    + simpl in Ht. subst t. rewrite after_nil. constructor.
    + apply (Mr_star_cons _ _ _ (after st [c] (p ++ t))).
      * apply Mr_chr_iff. eauto.
      * rewrite Ht. simpl. lia.
      * change (c :: p) with ([c] ++ p). rewrite <- (after_after st [c] p (p ++ t)). by apply IH.
Qed.

Lemma Mr_plus_chr f st st' :
  Mr (Plus (Chr f)) st st' ↔
  ∃ p t, ahead st = p ++ t ∧ p ≠ [] ∧ Forall (λ c, f c = true) p ∧ st' = after st p t.
Proof.
  unfold Plus. rewrite Mr_seq_iff. split.
  - intros (st1 & (c & t & Ht & Hc & ->)%Mr_chr_iff & (p & u & Hu & Hp & ->)%Mr_star_chr).
    simpl in Hu. subst. exists (c :: p), u. split; [done|]. split; [done|].
    split; [by constructor|]. apply after_after.
  - intros (p & t & Ht & Hne & Hp & ->). destruct Hp as [|c p Hc Hp]; [done|].
    exists (after st [c] (p ++ t)). rewrite Mr_chr_iff, Mr_star_chr. split; [eauto|].
    exists p, t. split; [done|]. split; [done|]. by rewrite after_after.
Qed.

Lemma consumed_after st p t : ahead st = p ++ t → consumed st (after st p t) = p.
Proof.
  intros Ht. unfold consumed, after. simpl. rewrite Ht, length_app.
  replace (length p + length t - length t)%nat with (length p) by lia. by rewrite take_app_length.
Qed.

(** ** Searching with patterns *)

Lemma match_at_sound r pre suf m :
  match_at r pre suf = Some m →
  ∃ st', Mr r (MState pre suf []) st' ∧
    m = RMatch (rev pre) (consumed (MState pre suf []) st') (caps st') (ahead st').
Proof. unfold match_at. intros (st' & ? & ?)%rmatch_sound. naive_solver. Qed.

Lemma match_at_unique r pre suf st' :
  Mr r (MState pre suf []) st' →
  (∀ st2, Mr r (MState pre suf []) st2 → st2 = st') →
  match_at r pre suf =
    Some (RMatch (rev pre) (consumed (MState pre suf []) st') (caps st') (ahead st')).
Proof.
  intros H Huniq. destruct (match_at r pre suf) as [m|] eqn:E.
  - apply match_at_sound in E as (st2 & H2 & ->). by rewrite (Huniq st2 H2).
  - unfold match_at in E.
    destruct (rmatch_complete r (MState pre suf []) st' (λ st, Some (RMatch (rev pre)
      (consumed (MState pre suf []) st) (caps st) (ahead st))) H) as [x Hx]; [by eexists|].
    congruence.
Qed.

Lemma match_at_None r pre suf :
  match_at r pre suf = None ↔ ∀ st', ¬ Mr r (MState pre suf []) st'.
Proof.
  split.
  - intros E st' H. unfold match_at in E.
    destruct (rmatch_complete r (MState pre suf []) st' (λ st, Some (RMatch (rev pre)
      (consumed (MState pre suf []) st) (caps st) (ahead st))) H) as [x Hx]; [by eexists|].
    congruence.
  - intros H. destruct (match_at r pre suf) as [m|] eqn:E; [|done].
    apply match_at_sound in E as (st' & H' & _). by destruct (H st').
Qed.

(** A pattern that begins with ^ matches at the start or nowhere. *)
Lemma search_anchored r pre suf : pre ≠ [] → search (Seq Bol r) pre suf = None.
Proof.
  intros Hpre. assert (Hm : ∀ suf pre, pre ≠ [] → match_at (Seq Bol r) pre suf = None).
  { clear. intros suf pre Hp. apply match_at_None. intros st' (st1 & (Hb & _)%Mr_bol_iff & _)%Mr_seq_iff.
    by simpl in Hb. }
  revert pre Hpre. induction suf as [|c suf IH]; intros pre Hpre; simpl; rewrite Hm by done; [done|].
  by apply IH.
Qed.

Lemma re_exec_anchored r s : re_exec (Seq Bol r) s = match_at (Seq Bol r) [] s.
Proof.
  unfold re_exec. destruct s as [|c s]; simpl.
  - by destruct (match_at (Seq Bol r) [] []).
  - destruct (match_at (Seq Bol r) [] (c :: s)); [done|]. by apply search_anchored.
Qed.

Lemma re_test_anchored r s :
  re_test (Seq Bol r) s = true ↔ ∃ st', Mr (Seq Bol r) (start s) st'.
Proof.
  unfold re_test. rewrite re_exec_anchored. change (start s) with (MState [] s []).
  destruct (match_at (Seq Bol r) [] s) as [m|] eqn:E.
  - apply match_at_sound in E as (st' & ? & _). naive_solver.
  - rewrite match_at_None in E. naive_solver.
Qed.

(** [/^[class]+$/] *)
Lemma re_test_class f s :
  re_test (Seqs [Bol; Plus (Chr f); Eol]) s = true ↔ s ≠ [] ∧ Forall (λ c, f c = true) s.
Proof.
  change (Seqs _) with (Seq Bol (Seq (Plus (Chr f)) (Seq Eol Eps))).
  rewrite re_test_anchored. setoid_rewrite Mr_seq_iff.
  split.
  - intros (st' & st1 & [_ ->]%Mr_bol_iff & (st2 & (p & t & Ht & ? & ? & ->)%Mr_plus_chr &
      (st3 & [He ->]%Mr_eol_iff & _)%Mr_seq_iff)%Mr_seq_iff).
    simpl in Ht, He. subst. by rewrite app_nil_r.
  - intros [Hne Hs]. exists (after (start s) s []), (start s). split; [by constructor|].
    apply Mr_seq_iff. exists (after (start s) s []). split.
    + apply Mr_plus_chr. exists s, []. simpl. by rewrite app_nil_r.
    + apply Mr_seq_iff. eexists. split; [by apply Mr_eol_iff|constructor].
Qed.

(** ** Running the matcher on a text of known shape *)

Section Eval.
Context {A : Type}.
Implicit Types (k : mstate → option A).

Lemma read_app p b t cs : read p (MState b (p ++ t) cs) = Some (MState (rev p ++ b) t cs).
Proof.
  revert b. induction p as [|c p IH]; intros b; [done|].
  cbn [read app ahead behind caps]. rewrite N.eqb_refl, IH. simpl. by rewrite <- app_assoc.
Qed.

Lemma rmatch_chr_nil f k b cs : rmatch (Chr f) k (MState b [] cs) = None.
Proof. done. Qed.
Lemma rmatch_chr_cons f k b c s cs :
  rmatch (Chr f) k (MState b (c :: s) cs) = if f c then k (MState (c :: b) s cs) else None.
Proof. done. Qed.
Lemma rmatch_seq r1 r2 k st : rmatch (Seq r1 r2) k st = rmatch r1 (rmatch r2 k) st.
Proof. done. Qed.
Lemma rmatch_grp i r k st :
  rmatch (Grp i r) k st = rmatch r (λ st', k (set_cap i (consumed st st') st')) st.
Proof. done. Qed.

(** A class repeated greedily, where the continuation fails inside the run. *)
Lemma star_loop_run f k b p t cs n :
  Forall (λ c, f c = true) p → match t with [] => True | c :: _ => f c = false end →
  (length p <= n)%nat →
  (∀ p1 c p2, p = p1 ++ c :: p2 → k (MState (rev p1 ++ b) (c :: p2 ++ t) cs) = None) →
  star_loop (rmatch (Chr f)) true k n (MState b (p ++ t) cs) = k (MState (rev p ++ b) t cs).
Proof.
  intros Hp Ht. revert b n. induction Hp as [|c p Hc Hp IH]; intros b n Hn Hk.
  - destruct n as [|n]; [done|]. cbn [star_loop app rev].
    destruct t as [|d t]; [done|]. by rewrite rmatch_chr_cons, Ht.
  - destruct n as [|n]; [simpl in Hn; lia|]. cbn [star_loop app].
    rewrite rmatch_chr_cons, Hc. cbn [ahead]. replace (_ <? _)%nat with true by (symmetry; apply Nat.ltb_lt; simpl; lia).
    rewrite (IH (c :: b) n) by
      (try (simpl in Hn; lia); intros p1 d p2 ->; specialize (Hk (c :: p1) d p2 eq_refl);
       simpl in Hk; by rewrite <- app_assoc in Hk).
    pose proof (Hk [] c p eq_refl) as H0. cbn [rev app] in H0 |- *. rewrite H0, <- app_assoc.
    cbn [app]. unfold orelse. destruct (k (MState (rev p ++ c :: b) t cs)); reflexivity.
Qed.

Lemma rmatch_star_run f k b p t cs :
  Forall (λ c, f c = true) p → match t with [] => True | c :: _ => f c = false end →
  (∀ p1 c p2, p = p1 ++ c :: p2 → k (MState (rev p1 ++ b) (c :: p2 ++ t) cs) = None) →
  rmatch (Star true (Chr f)) k (MState b (p ++ t) cs) = k (MState (rev p ++ b) t cs).
Proof.
  intros Hp Ht Hk. cbn [rmatch ahead]. apply star_loop_run; [done|done|rewrite length_app; lia|done].
Qed.

Lemma rmatch_plus_run f k b p t cs :
  p ≠ [] → Forall (λ c, f c = true) p → match t with [] => True | c :: _ => f c = false end →
  (∀ p1 c p2, p1 ≠ [] → p = p1 ++ c :: p2 → k (MState (rev p1 ++ b) (c :: p2 ++ t) cs) = None) →
  rmatch (Plus (Chr f)) k (MState b (p ++ t) cs) = k (MState (rev p ++ b) t cs).
Proof.
  intros Hne Hp Ht Hk. destruct Hp as [|c p Hc Hp]; [done|]. unfold Plus.
  rewrite rmatch_seq. cbn [app]. rewrite rmatch_chr_cons, Hc.
  rewrite rmatch_star_run; [|done|done|].
  - simpl. by rewrite <- app_assoc.
  - intros p1 d p2 ->. specialize (Hk (c :: p1) d p2). simpl in Hk. rewrite <- app_assoc in Hk. auto.
Qed.

(** A captured run. *)
Lemma rmatch_grp_plus_run i f k b p t cs :
  p ≠ [] → Forall (λ c, f c = true) p → match t with [] => True | c :: _ => f c = false end →
  (∀ b' c t' cs', f c = true → k (MState b' (c :: t') cs') = None) →
  rmatch (Grp i (Plus (Chr f))) k (MState b (p ++ t) cs) = k (MState (rev p ++ b) t ((i, p) :: cs)).
Proof.
  intros Hne Hp Ht Hk. rewrite rmatch_grp, rmatch_plus_run; [|done|done|done|].
  - unfold set_cap, consumed. cbn [ahead behind caps].
    rewrite length_app. replace (length p + length t - length t)%nat with (length p) by lia.
    by rewrite take_app_length.
  - intros p1 c p2 _ E. apply Hk. rewrite E in Hp. apply Forall_app in Hp as [_ Hp]. by inversion Hp.
Qed.

(** A class repeated lazily stops at the first point where the rest matches. *)
Lemma rmatch_lazy_run f k b p t cs x :
  Forall (λ c, f c = true) p → k (MState (rev p ++ b) t cs) = Some x →
  (∀ p1 c p2, p = p1 ++ c :: p2 → k (MState (rev p1 ++ b) (c :: p2 ++ t) cs) = None) →
  rmatch (Star false (Chr f)) k (MState b (p ++ t) cs) = Some x.
Proof.
  intros Hp Hx Hk. change (rmatch (Star false (Chr f)) k (MState b (p ++ t) cs)) with
    (star_loop (rmatch (Chr f)) false k (length (p ++ t)) (MState b (p ++ t) cs)).
  assert (Hn : (length p <= length (p ++ t))%nat) by (rewrite length_app; lia).
  revert Hn. generalize (length (p ++ t)). intros n. revert b n Hx Hk.
  induction Hp as [|c p Hc Hp IH]; intros b n Hx Hk Hn.
  - cbn [app rev] in *. destruct n as [|n]; [done|]. cbn [star_loop]. by rewrite Hx.
  - destruct n as [|n]; [simpl in Hn; lia|]. cbn [star_loop app].
    pose proof (Hk [] c p eq_refl) as H0. cbn [rev app] in H0. rewrite H0. cbn [orelse].
    rewrite rmatch_chr_cons, Hc. cbn [ahead].
    replace (_ <? _)%nat with true by (symmetry; apply Nat.ltb_lt; simpl; lia).
    apply IH.
    + cbn [rev] in Hx. by rewrite <- app_assoc in Hx.
    + intros p1 d p2 ->. specialize (Hk (c :: p1) d p2 eq_refl). cbn [rev app] in Hk.
      by rewrite <- app_assoc in Hk.
    + simpl in Hn. lia.
Qed.
End Eval.

(** Searching passes over a prefix where the pattern does not match. *)
Lemma search_skip r pre p s :
  (∀ p1 c p2, p = p1 ++ c :: p2 → match_at r (rev p1 ++ pre) (c :: p2 ++ s) = None) →
  search r pre (p ++ s) = search r (rev p ++ pre) s.
Proof.
  revert pre. induction p as [|c p IH]; intros pre Hp; [done|].
  pose proof (Hp [] c p eq_refl) as H0. cbn [rev app] in H0 |- *. cbn [search].
  rewrite H0, IH.
  - by rewrite <- app_assoc.
  - intros p1 d p2 ->. specialize (Hp (c :: p1) d p2 eq_refl). cbn [rev app] in Hp.
    by rewrite <- app_assoc in Hp.
Qed.

Lemma search_none r pre s :
  (∀ p1 p2, s = p1 ++ p2 → match_at r (rev p1 ++ pre) p2 = None) → search r pre s = None.
Proof.
  revert pre. induction s as [|c s IH]; intros pre Hs.
  - pose proof (Hs [] [] eq_refl) as H0. cbn [rev app] in H0. cbn [search]. by rewrite H0.
  - pose proof (Hs [] (c :: s) eq_refl) as H0. cbn [rev app] in H0. cbn [search]. rewrite H0. apply IH. intros p1 p2 ->.
    specialize (Hs (c :: p1) p2 eq_refl). cbn [rev] in Hs. by rewrite <- app_assoc in Hs.
Qed.
