(* ===== verification/JsValue.v ===== *)
(** * Values and JSON

    [jsval] is a value of the language as the source handles it through
    [unknown] and [JSON]: an object is its list of own properties in insertion
    order (keys unique); property reads look at own properties only.  The file
    defines ToBoolean, ToString, ToNumber, the order of [Object.keys],
    [JSON.parse] and [JSON.stringify], and proves that quoting a string and
    parsing it back is the identity. *)

From S2P Require Import Prelude JsNumber JsString.

Open Scope N_scope.

#[warnings="-register-all"]
Inductive jsval :=
  | JUndef
  | JNull
  | JBool (b : bool)
  | JNum (x : num)
  | JStr (s : jstr)
  | JArr (l : list jsval)
  | JObj (o : list (jstr * jsval)).

(** ** Conversions *)

Definition truthy (v : jsval) : bool :=
  match v with
  | JUndef | JNull => false
  | JBool b => b
  | JNum x => num_truthy x
  | JStr s => str_truthy s
  | JArr _ | JObj _ => true
  end.

(** [v == null] *)
Definition is_nullish (v : jsval) : bool :=
  match v with JUndef | JNull => true | _ => false end.

(** [v || d] *)
Definition js_or (v d : jsval) : jsval := if truthy v then v else d.

Fixpoint to_string (v : jsval) : jstr :=
  match v with
  | JUndef => js "undefined"
  | JNull => js "null"
  | JBool b => if b then js "true" else js "false"
  | JNum x => num_to_string x
  | JStr s => s
  | JArr l => join (js ",") (map (λ v, if is_nullish v then [] else to_string v) l)
  | JObj _ => js "[object Object]"
  end.

Definition to_number (v : jsval) : num :=
  match v with
  | JUndef | JObj _ => NaN
  | JNull => S754_zero false
  | JBool b => if b then of_Z 1 else S754_zero false
  | JNum x => x
  | JStr s => string_to_number s
  | JArr _ => string_to_number (to_string v)
  end.

Definition is_string (v : jsval) : bool := match v with JStr _ => true | _ => false end.
Definition is_number (v : jsval) : bool := match v with JNum _ => true | _ => false end.
Definition is_array (v : jsval) : bool := match v with JArr _ => true | _ => false end.

(** [typeof v === 'object'] (which holds of null and of arrays). *)
Definition typeof_object (v : jsval) : bool :=
  match v with JNull | JArr _ | JObj _ => true | _ => false end.

(** [v === w] where [w] is a primitive. *)
Definition strict_eq (v w : jsval) : bool :=
  match v, w with
  | JUndef, JUndef | JNull, JNull => true
  | JBool a, JBool b => eqb a b
  | JNum a, JNum b => n_eq a b
  | JStr a, JStr b => str_eqb a b
  | _, _ => false
  end.

(** ** Objects *)

Abbreviation obj V := (list (jstr * V)).

Section Obj.
Context {V : Type}.
Implicit Types (o : obj V).

Fixpoint obj_get (k : jstr) o : option V :=
  match o with
  | [] => None
  | (k', v) :: o => if str_eqb k k' then Some v else obj_get k o
  end.

(** Assignment replaces the value in place or adds the property at the end. *)
Fixpoint obj_set (k : jstr) (v : V) o : obj V :=
  match o with
  | [] => [(k, v)]
  | (k', v') :: o => if str_eqb k k' then (k', v) :: o else (k', v') :: obj_set k v o
  end.

Definition obj_delete (k : jstr) o : obj V := filter (λ kv, kv.1 ≠ k) o.

Definition obj_has (k : jstr) o : bool := match obj_get k o with Some _ => true | None => false end.

(** [{...a, ...b}] *)
Definition obj_assign o1 o2 : obj V := fold_left (λ o kv, obj_set kv.1 kv.2 o) o2 o1.

Lemma obj_get_set k k' v o :
  obj_get k (obj_set k' v o) = if str_eqb k k' then Some v else obj_get k o.
Proof.
  induction o as [|[j w] o IH]; cbn [obj_set obj_get]; [done|].
  destruct (str_eqb k' j) eqn:E; cbn [obj_get].
  - apply str_eqb_eq in E as ->. by destruct (str_eqb k j).
  - rewrite IH. destruct (str_eqb k j) eqn:Ekj; [|done].
    apply str_eqb_eq in Ekj as ->. destruct (str_eqb j k') eqn:Ek; [|done].
    apply str_eqb_eq in Ek as ->. by rewrite str_eqb_refl in E.
Qed.

Lemma obj_get_set_eq k v o : obj_get k (obj_set k v o) = Some v.
Proof. by rewrite obj_get_set, str_eqb_refl. Qed.

Lemma obj_get_set_ne k k' v o : k ≠ k' → obj_get k (obj_set k' v o) = obj_get k o.
Proof. intros. rewrite obj_get_set. unfold str_eqb. by rewrite bool_decide_eq_false_2. Qed.

Lemma obj_get_delete k k' o :
  obj_get k (obj_delete k' o) = if str_eqb k k' then None else obj_get k o.
Proof.
  induction o as [|[j w] o IH]; [by destruct (str_eqb k k')|].
  unfold obj_delete in *. rewrite filter_cons. cbn [fst].
  destruct (decide (j ≠ k')) as [Hj|Hj]; cbn [obj_get]; rewrite IH.
  - destruct (str_eqb k j) eqn:Ekj; [|done]. apply str_eqb_eq in Ekj as ->.
    unfold str_eqb. by rewrite bool_decide_eq_false_2.
  - apply dec_stable in Hj as ->. by destruct (str_eqb k k').
Qed.

(** Keys that are array indices come first, in numeric order. *)
Definition array_index (k : jstr) : option N :=
  if bool_decide (Forall (λ c, is_digit c = true) k) then
    match k with
    | [] => None
    | [48] => Some 0
    | 48 :: _ => None
    | _ => if undigits k <? 4294967295 then Some (undigits k) else None
    end
  else None.

Definition own_entries o : obj V :=
  let idx kv := array_index (fst kv) in
  sort_stable (λ a b, match idx a, idx b with Some i, Some j => i <? j | _, _ => false end)
    (filter (λ kv, is_Some (idx kv)) o)
  ++ filter (λ kv, ¬ is_Some (idx kv)) o.

Definition own_keys o : list jstr := map fst (own_entries o).
Definition own_values o : list V := map snd (own_entries o).

Lemma own_entries_perm o : own_entries o ≡ₚ o.
Proof.
  unfold own_entries. rewrite sort_stable_perm.
  induction o as [|kv o IH]; [done|]. rewrite !filter_cons.
  destruct (decide (is_Some (array_index kv.1))) as [H|H].
  - rewrite decide_False by tauto. simpl. by constructor.
  - rewrite decide_True by tauto. rewrite <- Permutation_middle. by constructor.
Qed.

Lemma elem_of_own_entries kv o : kv ∈ own_entries o ↔ kv ∈ o.
Proof. by rewrite own_entries_perm. Qed.

Lemma elem_of_own_keys k o : k ∈ own_keys o ↔ ∃ v, (k, v) ∈ o.
Proof.
  unfold own_keys. rewrite list_elem_of_fmap. setoid_rewrite elem_of_own_entries.
  split; [intros ([k' v] & -> & ?); eauto|intros [v ?]; by exists (k, v)].
Qed.
End Obj.

Lemma obj_get_assign {V} k (o o' : obj V) : NoDup (map fst o') →
  obj_get k (obj_assign o o') = match obj_get k o' with Some v => Some v | None => obj_get k o end.
Proof.
  unfold obj_assign. revert o. induction o' as [|[j w] o' IH]; intros o Hnd; [done|].
  inversion Hnd as [|? ? Hj Hnd']; subst. cbn [fold_left fst snd]. rewrite IH by done.
  rewrite obj_get_set. cbn [obj_get]. destruct (str_eqb k j) eqn:E; [|done].
  apply str_eqb_eq in E as ->. replace (obj_get j o') with (@None V); [done|].
  symmetry. clear -Hj. induction o' as [|[i x] o' IH]; [done|]. cbn [obj_get].
  cbn [map fst] in Hj. rewrite not_elem_of_cons in Hj. destruct Hj as [? ?].
  unfold str_eqb. rewrite bool_decide_eq_false_2 by done. auto.
Qed.

Lemma obj_get_key {V} k (o : obj V) v : obj_get k o = Some v → k ∈ map fst o.
Proof.
  induction o as [|[j w] o IH]; [done|]. cbn [obj_get map fst].
  destruct (str_eqb k j) eqn:E; [apply str_eqb_eq in E as ->; left|right; auto].
Qed.

Lemma obj_get_entry {V} k (o : obj V) v : obj_get k o = Some v → (k, v) ∈ o.
Proof.
  induction o as [|[k' v'] o IH]; cbn [obj_get]; [done|]. case_match eqn:E.
  - intros [= ->]. apply str_eqb_eq in E as ->. apply list_elem_of_here.
  - intros H. apply list_elem_of_further, IH, H.
Qed.

Lemma obj_get_in {V} k v (o : obj V) : NoDup (map fst o) → (k, v) ∈ o → obj_get k o = Some v.
Proof.
  induction o as [|[j w] o IH]; [by intros _ ?%not_elem_of_nil|]. intros Hnd Hin.
  inversion Hnd as [|? ? Hj Hnd']; subst. cbn [obj_get]. apply elem_of_cons in Hin as [E|Hin].
  - injection E as -> ->. by rewrite str_eqb_refl.
  - destruct (str_eqb k j) eqn:E; [|by apply IH]. apply str_eqb_eq in E as ->.
    destruct Hj. apply list_elem_of_fmap. by exists (j, v).
Qed.

(** Assigning entries with new and distinct keys appends them. *)
Lemma obj_set_fresh {V} k (v : V) (o : obj V) : k ∉ map fst o → obj_set k v o = o ++ [(k, v)].
Proof.
  induction o as [|[j w] o IH]; [done|]. cbn [map fst]. rewrite not_elem_of_cons. intros [Hj Ho].
  cbn [obj_set app]. unfold str_eqb. rewrite bool_decide_eq_false_2 by done. by rewrite IH.
Qed.

Lemma obj_set_twice {V} k (v w : V) o : obj_set k v (obj_set k w o) = obj_set k v o.
Proof.
  induction o as [|[k' u] o IH]; cbn [obj_set]; [by rewrite str_eqb_refl|].
  destruct (str_eqb k k') eqn:E; cbn [obj_set]; rewrite E; [done|by rewrite IH].
Qed.

Lemma obj_set_same {V} k (v : V) o : obj_get k o = Some v → obj_set k v o = o.
Proof.
  induction o as [|[k' w] o IH]; cbn [obj_get obj_set]; [done|]. destruct (str_eqb k k') eqn:E; [by intros [= ->]|].
  intros H. by rewrite IH.
Qed.

Lemma obj_delete_absent {V} k (o : obj V) : obj_get k o = None → obj_delete k o = o.
Proof.
  induction o as [|[k' w] o IH]; cbn [obj_get]; [done|]. unfold obj_delete in *. destruct (str_eqb k k') eqn:E; [done|].
  intros H. assert (k' ≠ k) as Hne by (intros <-; by rewrite str_eqb_refl in E). rewrite filter_cons_True by exact Hne. by rewrite IH.
Qed.

Lemma elem_of_keys_set {V} k k' (x : V) o : k' ∈ map fst (obj_set k x o) ↔ k' = k ∨ k' ∈ map fst o.
Proof.
  induction o as [|[j y] o IH]; cbn [obj_set map fst]; [set_solver|].
  destruct (str_eqb k j) eqn:E; cbn [map fst]; [apply str_eqb_eq in E as ->|]; set_solver.
Qed.

Lemma NoDup_keys_set {V} k (x : V) o : NoDup (map fst o) → NoDup (map fst (obj_set k x o)).
Proof.
  induction o as [|[j y] o IH]; cbn [obj_set map fst]; [intros _; apply NoDup_singleton|].
  intros [Hj Ho]%NoDup_cons. destruct (str_eqb k j) eqn:E; cbn [map fst].
  - apply str_eqb_eq in E as ->. by constructor.
  - constructor; [|by apply IH]. rewrite elem_of_keys_set. intros [->|]; [|done]. by rewrite str_eqb_refl in E.
Qed.

(** Entries in the order of enumeration stay there. *)
Lemma NoDup_keys_delete {V} k (o : obj V) : NoDup (map fst o) → NoDup (map fst (obj_delete k o)).
Proof. intros Hd. eapply sublist_NoDup; [exact Hd|]. apply (fmap_sublist fst), sublist_filter. Qed.

Lemma own_entries_idemp {V} (o : obj V) : own_entries (own_entries o) = own_entries o.
Proof.
  set (idx := λ kv : jstr * V, array_index kv.1).
  set (before := λ a b : jstr * V, match idx a, idx b with Some i, Some j => (i <? j)%N | _, _ => false end).
  set (L := filter (λ kv, is_Some (idx kv)) o). set (T := filter (λ kv, ¬ is_Some (idx kv)) o).
  change (sort_stable before (filter (λ kv, is_Some (idx kv)) (sort_stable before L ++ T)) ++
          filter (λ kv, ¬ is_Some (idx kv)) (sort_stable before L ++ T) = sort_stable before L ++ T).
  assert (HL : Forall (λ kv, is_Some (idx kv)) (sort_stable before L)).
  { rewrite sort_stable_perm. apply Forall_forall. by intros kv [? _]%list_elem_of_filter. }
  assert (HT : Forall (λ kv, ¬ is_Some (idx kv)) T).
  { apply Forall_forall. by intros kv [? _]%list_elem_of_filter. }
  rewrite !filter_app, (filter_none _ T), (filter_id _ T) by done || (eapply Forall_impl; [exact HT|]; tauto).
  rewrite (filter_id _ (sort_stable before L)) by done.
  rewrite (filter_none (λ kv, ¬ is_Some (idx kv)) (sort_stable before L)) by (eapply Forall_impl; [exact HL|]; tauto).
  rewrite app_nil_r. cbn [app]. f_equal.
  assert (Hext : ∀ l, Forall (λ kv, is_Some (idx kv)) l →
    sort_stable before l = sort_stable (λ a b, (Z.of_N (default 0%N (idx a)) <? Z.of_N (default 0%N (idx b)))%Z) l).
  { intros l Hl. rewrite Forall_forall in Hl. rewrite <- (map_id l) at 2. rewrite <- (map_id (sort_stable _ l)).
    symmetry. apply (sort_stable_map id). intros x y [i Hi]%Hl [j Hj]%Hl. unfold before, id. rewrite Hi, Hj. cbn [default]. apply eq_true_iff_eq. rewrite Z.ltb_lt, N.ltb_lt. cbn. lia. }
  assert (HL' : Forall (λ kv, is_Some (idx kv)) L) by by rewrite <- (sort_stable_perm before L).
  rewrite (Hext (sort_stable before L)) by done. rewrite (Hext L HL').
  apply sort_stable_id, sort_stable_sorted, (strict_weak_key (λ a, Z.of_N (default 0%N (idx a)))).
Qed.

(** Names that are no array indices are enumerated in the order they were set. *)
Lemma own_entries_names {V} (o : obj V) : Forall (λ k, array_index k = None) (map fst o) → own_entries o = o.
Proof.
  rewrite Forall_map. intros Ho. unfold own_entries.
  rewrite filter_none by (eapply Forall_impl; [exact Ho|]; intros kv E [x Hx]; cbn in E; congruence).
  cbn [sort_stable app]. apply filter_id. eapply Forall_impl; [exact Ho|]. intros kv E [x Hx]. cbn in E. congruence.
Qed.

Lemma own_keys_NoDup {V} (o : obj V) : NoDup (map fst o) → NoDup (map fst (own_entries o)).
Proof. by rewrite own_entries_perm. Qed.

Lemma obj_get_own {V} k (o : obj V) : NoDup (map fst o) → obj_get k (own_entries o) = obj_get k o.
Proof.
  intros Hd. destruct (obj_get k o) as [v|] eqn:E.
  - apply obj_get_in; [by apply own_keys_NoDup|]. rewrite elem_of_own_entries. by apply obj_get_entry.
  - destruct (obj_get k (own_entries o)) as [v|] eqn:E'; [|done].
    apply obj_get_entry in E'. rewrite elem_of_own_entries in E'. apply obj_get_in in E'; [congruence|done].
Qed.

Lemma obj_assign_fresh {V} (o o' : obj V) : NoDup (map fst (o ++ o')) → obj_assign o o' = o ++ o'.
Proof.
  revert o. induction o' as [|[k v] o' IH]; intros o Hnd; [by rewrite app_nil_r|].
  unfold obj_assign. cbn [fold_left fst snd].
  assert (k ∉ map fst o) as Hk.
  { rewrite map_app in Hnd. cbn [map fst] in Hnd. apply NoDup_app in Hnd as (_ & Hd & _).
    intros Hin. apply (Hd k Hin). left. }
  rewrite obj_set_fresh by done.
  change (obj_assign (o ++ [(k, v)]) o' = o ++ (k, v) :: o').
  rewrite IH; rewrite <- app_assoc; done.
Qed.


(** [v.k] and [v?.k] on a value that is an object; other values have no such
    property. *)
Definition prop (k : string) (v : jsval) : jsval :=
  match v with JObj o => default JUndef (obj_get (js_of_string k) o) | _ => JUndef end.

(** ** [JSON.parse] *)

Definition json_space (c : N) : bool := (c =? 32) || (c =? 9) || (c =? 10) || (c =? 13).
Definition skip_ws (s : jstr) : jstr := drop_while json_space s.

Definition cons_fst {B} (c : N) (r : option (jstr * B)) : option (jstr * B) :=
  match r with Some (s, b) => Some (c :: s, b) | None => None end.

Definition unescape (e : N) : option N :=
  if (e =? 34) || (e =? 92) || (e =? 47) then Some e
  else if e =? 98 then Some 8 else if e =? 102 then Some 12
  else if e =? 110 then Some 10 else if e =? 114 then Some 13
  else if e =? 116 then Some 9 else None.

(** The body of a string, after the opening quote. *)
Fixpoint parse_string_body (s : jstr) : option (jstr * jstr) :=
  match s with
  | [] => None
  | c :: s =>
      if c =? 34 then Some ([], s)
      else if c =? 92 then
        match s with
        | [] => None
        | e :: s =>
            if e =? 117 then
              match s with
              | h1 :: h2 :: h3 :: h4 :: s =>
                  match hex_value h1, hex_value h2, hex_value h3, hex_value h4 with
                  | Some a, Some b, Some c, Some d =>
                      cons_fst (((a * 16 + b) * 16 + c) * 16 + d) (parse_string_body s)
                  | _, _, _, _ => None
                  end
              | _ => None
              end
            else match unescape e with
                 | Some u => cons_fst u (parse_string_body s)
                 | None => None
                 end
        end
      else if c <? 32 then None
      else cons_fst c (parse_string_body s)
  end.

(** The rest after the unit [c], if the text starts with it. *)
Definition eat (c : N) (s : jstr) : option jstr :=
  match s with d :: t => if d =? c then Some t else None | [] => None end.

(** An optional exponent after the digits [m] (scaled by [e]). *)
Definition parse_exponent (neg : bool) (m : N) (e : Z) (s : jstr) : option (jsval * jstr) :=
  match s with
  | c :: t =>
      if (c =? 101) || (c =? 69) then
        let '(eneg, t) := scan_sign t in
        match span is_digit t with
        | ([], _) => None
        | (ds, rest) => Some (JNum (of_decimal neg m (signed eneg (Z.of_N (undigits ds)) + e)), rest)
        end
      else Some (JNum (of_decimal neg m e), s)
  | [] => Some (JNum (of_decimal neg m e), s)
  end.

(** A number: no leading zeros, digits on both sides of the point. *)
Definition parse_json_number (s : jstr) : option (jsval * jstr) :=
  let '(neg, t) := match eat 45 s with Some t => (true, t) | None => (false, s) end in
  let '(int, t) := span is_digit t in
  let ok_int := match int with [] => false | [_] => true | d :: _ => negb (d =? 48) end in
  if ok_int then
    match eat 46 t with
    | Some t =>
        match span is_digit t with
        | ([], _) => None
        | (frac, t) => parse_exponent neg (undigits (int ++ frac)) (- Z.of_nat (length frac)) t
        end
    | None => parse_exponent neg (undigits int) 0 t
    end
  else None.

(** Values, the members of an object after its brace, the elements of an array
    after its bracket.  Two units of fuel are spent per unit of input at most. *)
Fixpoint parse_value (fuel : nat) (s : jstr) : option (jsval * jstr) :=
  match fuel with
  | O => None
  | S fuel =>
      match skip_ws s with
      | [] => None
      | c :: t =>
          if c =? 123 then
            match eat 125 (skip_ws t) with
            | Some t => Some (JObj [], t)
            | None => parse_members fuel t []
            end
          else if c =? 91 then
            match eat 93 (skip_ws t) with
            | Some t => Some (JArr [], t)
            | None => parse_elements fuel t []
            end
          else if c =? 34 then
            match parse_string_body t with Some (u, t) => Some (JStr u, t) | None => None end
          else match strip_prefix (js "true") (c :: t) with
          | Some t => Some (JBool true, t)
          | None =>
          match strip_prefix (js "false") (c :: t) with
          | Some t => Some (JBool false, t)
          | None =>
          match strip_prefix (js "null") (c :: t) with
          | Some t => Some (JNull, t)
          | None => parse_json_number (c :: t)
          end end end
      end
  end
with parse_members (fuel : nat) (s : jstr) (o : obj jsval) : option (jsval * jstr) :=
  match fuel with
  | O => None
  | S fuel =>
      t ← eat 34 (skip_ws s);
      '(k, t) ← parse_string_body t;
      t ← eat 58 (skip_ws t);
      '(v, t) ← parse_value fuel t;
      match eat 44 (skip_ws t) with
      | Some t => parse_members fuel t (obj_set k v o)
      | None => t ← eat 125 (skip_ws t); Some (JObj (obj_set k v o), t)
      end
  end
with parse_elements (fuel : nat) (s : jstr) (l : list jsval) : option (jsval * jstr) :=
  match fuel with
  | O => None
  | S fuel =>
      '(v, t) ← parse_value fuel s;
      match eat 44 (skip_ws t) with
      | Some t => parse_elements fuel t (v :: l)
      | None => t ← eat 93 (skip_ws t); Some (JArr (rev (v :: l)), t)
      end
  end.

(** [JSON.parse]; [None] is the SyntaxError it throws. *)
Definition json_parse (s : jstr) : option jsval :=
  match parse_value (2 * length s + 2) s with
  | Some (v, rest) => match skip_ws rest with [] => Some v | _ => None end
  | None => None
  end.

(** ** [JSON.stringify] *)

Definition hex4 (c : N) : jstr :=
  [digit (c / 4096 mod 16); digit (c / 256 mod 16); digit (c / 16 mod 16); digit (c mod 16)].

Definition escape_unit (c : N) : option jstr :=
  if c =? 34 then Some [92; 34] else if c =? 92 then Some [92; 92]
  else if c =? 8 then Some [92; 98] else if c =? 12 then Some [92; 102]
  else if c =? 10 then Some [92; 110] else if c =? 13 then Some [92; 114]
  else if c =? 9 then Some [92; 116]
  else if c <? 32 then Some (92 :: 117 :: hex4 c) else None.

Definition is_lead (c : N) : bool := (55296 <=? c) && (c <=? 56319).
Definition is_trail (c : N) : bool := (56320 <=? c) && (c <=? 57343).

(** Surrogate pairs are kept, lone surrogates are escaped. *)
Fixpoint quote_body (s : jstr) : jstr :=
  match s with
  | [] => []
  | c :: t =>
      match escape_unit c with
      | Some e => e ++ quote_body t
      | None =>
          if is_lead c then
            match t with
            | d :: t' => if is_trail d then c :: d :: quote_body t'
                         else 92 :: 117 :: hex4 c ++ quote_body t
            | [] => 92 :: 117 :: hex4 c ++ quote_body t
            end
          else if is_trail c then 92 :: 117 :: hex4 c ++ quote_body t
          else c :: quote_body t
      end
  end.

Definition json_quote (s : jstr) : jstr := 34 :: quote_body s ++ [34].

(** The line break of a text with indentation, at depth [d]. *)
Definition line_break (gap : bool) (d : nat) : jstr :=
  if gap then 10 :: replicate (2 * d) 32 else [].

(** Items between brackets; without items the brackets touch. *)
Definition bracketed (gap : bool) (d : nat) (l r : N) (items : list jstr) : jstr :=
  match items with
  | [] => [l; r]
  | _ => l :: line_break gap (S d) ++ join (44 :: line_break gap (S d)) items ++ line_break gap d ++ [r]
  end.

(** [JSON.stringify(v)], or [JSON.stringify(v, null, 2)] with [gap]; [None]
    where the result is [undefined]. *)
Fixpoint stringify (gap : bool) (d : nat) (v : jsval) : option jstr :=
  match v with
  | JUndef => None
  | JNull => Some (js "null")
  | JBool b => Some (if b then js "true" else js "false")
  | JNum x => Some (if isFinite x then num_to_string x else js "null")
  | JStr s => Some (json_quote s)
  | JArr l => Some (bracketed gap d 91 93 (map (λ v, default (js "null") (stringify gap (S d) v)) l))
  | JObj o =>
      let members := own_entries (map (λ kv, (kv.1, stringify gap (S d) kv.2)) o) in
      Some (bracketed gap d 123 125
        (omap (λ kv, option_map (λ t, json_quote kv.1 ++ (if gap then js ": " else js ":") ++ t) kv.2) members))
  end.

Definition json_stringify (v : jsval) : jstr := default (js "undefined") (stringify false 0 v).

(** [JSON.stringify(v, null, 2)] *)
Definition json_pretty (v : jsval) : jstr := default (js "undefined") (stringify true 0 v).

(** ** Quoting a string and reading it back *)

Definition utf16_ok (s : jstr) : Prop := Forall (λ c, c < 65536) s.

Lemma hex_value_digit d : d < 16 → hex_value (digit d) = Some d.
Proof.
  intros H. unfold hex_value, digit, is_digit.
  destruct (N.ltb_spec d 10); repeat (case_bool; try lia); f_equal; lia.
Qed.

Lemma parse_hex4 c rest : c < 65536 →
  parse_string_body (92 :: 117 :: hex4 c ++ rest) = cons_fst c (parse_string_body rest).
Proof.
  intros Hc. unfold hex4. simpl app. cbn [parse_string_body].
  change (92 =? 34) with false. change (92 =? 92) with true. change (117 =? 117) with true. cbn iota.
  rewrite !hex_value_digit by (apply N.mod_lt; lia). f_equal.
  pose proof (N.div_mod c 16). pose proof (N.div_mod (c / 16) 16). pose proof (N.div_mod (c / 256) 16).
  assert (c / 16 / 16 = c / 256) by (rewrite N.Div0.div_div; done).
  assert (c / 256 / 16 = c / 4096) by (rewrite N.Div0.div_div; done).
  assert (c / 4096 < 16) by (apply N.Div0.div_lt_upper_bound; lia).
  rewrite (N.mod_small (c / 4096) 16) by done. lia.
Qed.

Lemma parse_escape_unit c e rest : escape_unit c = Some e →
  parse_string_body (e ++ rest) = cons_fst c (parse_string_body rest).
Proof.
  unfold escape_unit. intros H.
  repeat (case_bool; [apply N.eqb_eq in Heqb; subst c; injection H as <-; done|
    clear Heqb || idtac]).
  destruct (N.ltb_spec c 32); [|done]. injection H as <-.
  change ((92 :: 117 :: hex4 c) ++ rest) with (92 :: 117 :: hex4 c ++ rest).
  apply parse_hex4. lia.
Qed.

Lemma parse_raw_unit c rest : escape_unit c = None →
  parse_string_body (c :: rest) = cons_fst c (parse_string_body rest).
Proof.
  unfold escape_unit. intros H. cbn [parse_string_body].
  destruct (c =? 34); [done|]. destruct (c =? 92); [done|].
  repeat (case_bool; try done).
Qed.

Lemma parse_quote_body s rest : utf16_ok s →
  parse_string_body (quote_body s ++ 34 :: rest) = Some (s, rest).
Proof.
  remember (length s) as n eqn:Hn. revert s Hn rest.
  induction n as [n IH] using lt_wf_ind. intros s -> rest Hok.
  destruct Hok as [|c t Hc Ht]; [done|]. cbn [quote_body].
  assert (IHt : parse_string_body (quote_body t ++ 34 :: rest) = Some (t, rest))
    by (eapply IH; [|done|done]; simpl; lia).
  destruct (escape_unit c) as [e|] eqn:Ee.
  { rewrite <- app_assoc, (parse_escape_unit c) by done. by rewrite IHt. }
  assert (Hlone : parse_string_body ((92 :: 117 :: hex4 c ++ quote_body t) ++ 34 :: rest)
    = Some (c :: t, rest)).
  { rewrite <- !app_comm_cons, <- app_assoc, parse_hex4 by done. by rewrite IHt. }
  destruct (is_lead c).
  - destruct t as [|d t']; [done|]. destruct (is_trail d) eqn:Ed; [|done].
    assert (escape_unit d = None) as Hd.
    { unfold is_trail in Ed. unfold escape_unit. repeat (case_bool; try lia); done. }
    inversion Ht; subst. rewrite <- !app_comm_cons, !parse_raw_unit by done.
    erewrite IH; [done| |done|done]. simpl. lia.
  - destruct (is_trail c); [done|]. rewrite <- app_comm_cons, parse_raw_unit by done. by rewrite IHt.
Qed.

Lemma json_parse_quote s : utf16_ok s → json_parse (json_quote s) = Some (JStr s).
Proof.
  intros H. unfold json_parse, json_quote.
  set (u := 34 :: quote_body s ++ [34]).
  replace (2 * length u + 2)%nat with (S (2 * length u + 1)) by lia. unfold u at 2.
  cbn [parse_value]. unfold skip_ws at 1. cbn [drop_while].
  change (json_space 34) with false. cbn iota.
  change (34 =? 123) with false. change (34 =? 91) with false. change (34 =? 34) with true. cbn iota.
  by rewrite parse_quote_body by done.
Qed.
