(* ===== verification/JsonFacts.v ===== *)
(** * JSON: the fuel of the parser is enough

    Every part of the JSON parser returns a strictly shorter rest of the text,
    so the fuel [json_parse] gives it never runs out: with any larger fuel the
    result is the same, and failure is a syntax error and nothing else. *)

From S2P Require Import Prelude JsNumber JsString JsValue.

Open Scope nat_scope.

(** ** The rest is shorter *)

Lemma skip_ws_length s : length (skip_ws s) ≤ length s.
Proof. unfold skip_ws. induction s as [|c s IH]; simpl; [done|]. destruct (json_space c); simpl; lia. Qed.

Lemma skip_ws_cons s c t : skip_ws s = c :: t → length t < length s.
Proof. intros H. pose proof (skip_ws_length s) as Hl. rewrite H in Hl. simpl in Hl. lia. Qed.

Lemma span_length {A} (f : A → bool) s : length (span f s).1 + length (span f s).2 = length s.
Proof. induction s as [|c s IH]; simpl; [done|]. destruct (f c); [|done]. destruct (span f s). simpl in *. lia. Qed.

Lemma scan_sign_length s : length (scan_sign s).2 ≤ length s.
Proof. unfold scan_sign. repeat case_match; simpl; lia. Qed.

Lemma strip_prefix_length p s t : strip_prefix p s = Some t → length s = length p + length t.
Proof. intros H. apply strip_prefix_Some in H as ->. apply length_app. Qed.

Lemma parse_string_body_shorter s u t : parse_string_body s = Some (u, t) → length t < length s.
Proof.
  revert u t. induction s as [s IH] using (induction_ltof1 _ (@length N)). unfold ltof in IH. intros u t H.
  assert (∀ c r, (∀ u t, r = Some (u, t) → length t < length s) → cons_fst c r = Some (u, t) → length t < length s) as Hc.
  { intros c [[u' t']|] Hr E; [|done]. simpl in E. simplify_eq. by apply (Hr u'). }
  destruct s as [|c s]; [done|]. cbn [parse_string_body] in H.
  repeat (case_match; simplify_eq); simpl in *; try lia;
    (eapply Hc; [|exact H]; intros u' t' E; apply IH in E; simpl in *; lia).
Qed.

Lemma eat_shorter c s t : eat c s = Some t → length t < length s.
Proof. destruct s as [|d s]; simpl; [done|]. case_bool; [|done]. intros [= ->]. lia. Qed.

Lemma eat_ws_shorter c s t : eat c (skip_ws s) = Some t → length t < length s.
Proof. intros H. apply eat_shorter in H. pose proof (skip_ws_length s). lia. Qed.

Lemma parse_exponent_length neg m e s v t : parse_exponent neg m e s = Some (v, t) → length t ≤ length s.
Proof.
  unfold parse_exponent. destruct s as [|c s]; [by intros [= _ <-]|]. case_bool; [|by intros [= _ <-]].
  pose proof (scan_sign_length s). destruct (scan_sign s) as [eneg s1].
  pose proof (span_length is_digit s1). destruct (span is_digit s1) as [[|d ds] rest]; [done|].
  intros [= _ <-]. simpl in *. lia.
Qed.

Lemma parse_json_number_shorter s v t : parse_json_number s = Some (v, t) → length t < length s.
Proof.
  unfold parse_json_number.
  assert (∃ neg t0, match eat 45 s with Some t => (true, t) | None => (false, s) end = (neg, t0) ∧ length t0 ≤ length s)
    as (neg & t0 & -> & L0).
  { destruct (eat 45 s) eqn:E; [apply eat_shorter in E|]; eexists _, _; (split; [done|lia]). }
  pose proof (span_length is_digit t0) as L1. destruct (span is_digit t0) as [[|d int] t1]; [done|].
  simpl in L1. cbv zeta. case_bool; [|done]. destruct (eat 46 t1) as [t2|] eqn:E.
  - apply eat_shorter in E. pose proof (span_length is_digit t2) as L2. destruct (span is_digit t2) as [[|d' frac] t3]; [done|].
    intros Hx. apply parse_exponent_length in Hx. simpl in *. lia.
  - intros Hx. apply parse_exponent_length in Hx. lia.
Qed.

Ltac lengths :=
  repeat match goal with
  | H : skip_ws _ = _ :: _ |- _ => apply skip_ws_cons in H
  | H : eat _ (skip_ws _) = Some _ |- _ => apply eat_ws_shorter in H
  | H : parse_string_body _ = Some (_, _) |- _ => apply parse_string_body_shorter in H
  | H : parse_json_number _ = Some (_, _) |- _ => apply parse_json_number_shorter in H
  | H : strip_prefix _ _ = Some _ |- _ => apply strip_prefix_length in H
  end.

Lemma parse_shorter fuel :
  (∀ s v t, parse_value fuel s = Some (v, t) → length t < length s) ∧
  (∀ s o v t, parse_members fuel s o = Some (v, t) → length t < length s) ∧
  (∀ s l v t, parse_elements fuel s l = Some (v, t) → length t < length s).
Proof.
  induction fuel as [|fuel (IHv & IHm & IHe)]; [done|]. split_and!.
  - intros s v t H. cbn [parse_value] in H. destruct (skip_ws s) as [|c r] eqn:E; [done|].
    repeat (case_match; simplify_eq); lengths; simpl in *; try lia.
    + apply IHm in H. lia.
    + apply IHe in H. lia.
  - intros s o v t H. cbn [parse_members] in H.
    destruct (eat 34 (skip_ws s)) as [t1|] eqn:E1; [|done]. cbn in H.
    destruct (parse_string_body t1) as [[k t2]|] eqn:E2; [|done]. cbn in H.
    destruct (eat 58 (skip_ws t2)) as [t3|] eqn:E3; [|done]. cbn in H.
    destruct (parse_value fuel t3) as [[w t4]|] eqn:E4; [|done]. cbn in H. apply IHv in E4.
    destruct (eat 44 (skip_ws t4)) as [t5|] eqn:E5.
    + apply IHm in H. lengths. lia.
    + destruct (eat 125 (skip_ws t4)) as [t6|] eqn:E6; [|done]. injection H as _ <-. lengths. lia.
  - intros s l v t H. cbn [parse_elements] in H.
    destruct (parse_value fuel s) as [[w t4]|] eqn:E4; [|done]. cbn in H. apply IHv in E4.
    destruct (eat 44 (skip_ws t4)) as [t5|] eqn:E5.
    + apply IHe in H. lengths. lia.
    + destruct (eat 93 (skip_ws t4)) as [t6|] eqn:E6; [|done]. injection H as _ <-. lengths. lia.
Qed.

(** ** More fuel does not matter *)

Lemma parse_fuel f :
  (∀ g s, 2 * length s + 1 ≤ f → 2 * length s + 1 ≤ g → parse_value f s = parse_value g s) ∧
  (∀ g s o, 2 * length s + 2 ≤ f → 2 * length s + 2 ≤ g → parse_members f s o = parse_members g s o) ∧
  (∀ g s l, 2 * length s + 2 ≤ f → 2 * length s + 2 ≤ g → parse_elements f s l = parse_elements g s l).
Proof.
  induction f as [|f (IHv & IHm & IHe)]; [split_and!; intros; lia|].
  split_and!; intros [|g] s; intros; try lia.
  - cbn [parse_value]. destruct (skip_ws s) as [|c r] eqn:E; [done|]. apply skip_ws_cons in E.
    destruct (c =? 123)%N; [case_match; [done|apply IHm; lia]|].
    destruct (c =? 91)%N; [case_match; [done|apply IHe; lia]|]. done.
  - cbn [parse_members].
    destruct (eat 34 (skip_ws s)) as [t1|] eqn:E1; [|done]. cbn.
    destruct (parse_string_body t1) as [[k t2]|] eqn:E2; [|done]. cbn.
    destruct (eat 58 (skip_ws t2)) as [t3|] eqn:E3; [|done]. cbn. lengths.
    rewrite (IHv g t3) by lia. destruct (parse_value g t3) as [[w t4]|] eqn:E4; [|done]. cbn.
    apply parse_shorter in E4. destruct (eat 44 (skip_ws t4)) as [t5|] eqn:E5; [|done]. lengths. apply IHm; lia.
  - cbn [parse_elements]. rewrite (IHv g s) by lia. destruct (parse_value g s) as [[w t4]|] eqn:E4; [|done]. cbn.
    apply parse_shorter in E4. destruct (eat 44 (skip_ws t4)) as [t5|] eqn:E5; [|done]. lengths. apply IHe; lia.
Qed.

(** The fuel of [json_parse] is enough: any larger fuel gives the same result. *)
Theorem json_fuel_enough (s : jstr) (fuel : nat) : 2 * length s + 2 ≤ fuel →
  parse_value fuel s = parse_value (2 * length s + 2) s.
Proof. intros H. apply parse_fuel; lia. Qed.
