(* ===== verification/JsonRoundtrip.v ===== *)
(** * JSON: what is printed is read back

    [json_parse] inverts [json_stringify] and [json_pretty] on the values JSON
    can express.  The law is proved per construct, for a text followed by any
    rest that cannot extend it, and composed over the value. *)

From S2P Require Import Prelude JsNumber JsString JsValue JsonFacts.

Open Scope nat_scope.

(** ** Values JSON can express *)

(** A number whose text is read back as itself: every finite number but -0. *)
Definition num_prints (x : num) : Prop :=
  isFinite x = true ∧ parse_json_number (num_to_string x) = Some (JNum x, []).

(** Members in the order of enumeration, keys without repetition. *)
Fixpoint expressible (v : jsval) : Prop :=
  match v with
  | JUndef => False
  | JNull | JBool _ => True
  | JNum x => num_prints x
  | JStr s => utf16_ok s
  | JArr l => (fix all l := match l with [] => True | v :: l => expressible v ∧ all l end) l
  | JObj o =>
      own_entries o = o ∧ NoDup (map fst o) ∧
      (fix all o := match o with [] => True | kv :: o => (utf16_ok (fst kv) ∧ expressible (snd kv)) ∧ all o end) o
  end.

Lemma expressible_arr l : expressible (JArr l) ↔ Forall expressible l.
Proof.
  cbn [expressible]. induction l as [|v l IH]; [by split|]. rewrite Forall_cons, <- IH. done.
Qed.

Lemma expressible_obj o : expressible (JObj o) ↔
  own_entries o = o ∧ NoDup (map fst o) ∧ Forall (λ kv, utf16_ok kv.1 ∧ expressible kv.2) o.
Proof.
  cbn [expressible]. assert (∀ o : obj jsval,
    (fix all o := match o with [] => True | kv :: o => (utf16_ok (fst kv) ∧ expressible (snd kv)) ∧ all o end) o
    ↔ Forall (λ kv, utf16_ok kv.1 ∧ expressible kv.2) o) as H; [|by rewrite H].
  clear o. induction o as [|kv o IH]; [by split|]. rewrite Forall_cons, <- IH. done.
Qed.

(** Induction over the values in arrays and objects. *)
Section Induction.
Context (P : jsval → Prop).
Context (HU : P JUndef) (HN : P JNull) (HB : ∀ b, P (JBool b)) (Hx : ∀ x, P (JNum x)) (HS : ∀ s, P (JStr s)).
Context (HA : ∀ l, Forall P l → P (JArr l)) (HO : ∀ o, Forall (λ kv, P kv.2) o → P (JObj o)).

Fixpoint jsval_induction (v : jsval) : P v :=
  match v with
  | JUndef => HU
  | JNull => HN
  | JBool b => HB b
  | JNum x => Hx x
  | JStr s => HS s
  | JArr l => HA l ((fix all l : Forall P l :=
      match l with [] => Forall_nil_2 P | v :: l => Forall_cons_2 P v l (jsval_induction v) (all l) end) l)
  | JObj o => HO o ((fix all o : Forall (λ kv, P kv.2) o :=
      match o with
      | [] => Forall_nil_2 (λ kv : jstr * jsval, P kv.2)
      | kv :: o => Forall_cons_2 (λ kv : jstr * jsval, P kv.2) kv o (jsval_induction kv.2) (all o)
      end) o)
  end.
End Induction.

(** ** Numbers followed by a delimiter *)

(** A unit that cannot continue a number. *)
Definition stops (c : N) : Prop :=
  is_digit c = false ∧ c ≠ 46%N ∧ c ≠ 45%N ∧ c ≠ 43%N ∧ c ≠ 101%N ∧ c ≠ 69%N.

(** The rest of a text that cannot continue a number. *)
Definition delimited (rest : jstr) : Prop := match rest with [] => True | c :: _ => stops c end.

Lemma span_delimited (s rest : jstr) : delimited rest →
  span is_digit (s ++ rest) = ((span is_digit s).1, (span is_digit s).2 ++ rest).
Proof.
  intros Hr. induction s as [|c s IH]; cbn [app span].
  - destruct rest as [|c rest]; [done|]. cbn [span]. by rewrite (proj1 Hr).
  - destruct (is_digit c); [|done]. rewrite IH. by destruct (span is_digit s).
Qed.

Lemma eat_delimited c s rest : delimited rest → (c = 46%N ∨ c = 45%N) →
  eat c (s ++ rest) = option_map (λ t, t ++ rest) (eat c s).
Proof.
  intros Hr Hc. destruct s as [|d s]; simpl; [|by destruct (d =? c)%N].
  destruct rest as [|d rest]; [done|]. simpl. destruct Hr as (_ & ? & ? & _).
  destruct (N.eqb_spec d c); [|done]. naive_solver.
Qed.

Lemma scan_sign_app (c : N) s rest : scan_sign ((c :: s) ++ rest) = ((scan_sign (c :: s)).1, (scan_sign (c :: s)).2 ++ rest).
Proof. unfold scan_sign. cbn [app]. repeat case_match; simplify_eq; done. Qed.

Lemma parse_exponent_delimited neg m e s v rest : delimited rest →
  parse_exponent neg m e s = Some (v, []) → parse_exponent neg m e (s ++ rest) = Some (v, rest).
Proof.
  intros Hr H. destruct s as [|c s].
  - cbn in H. injection H as <-. destruct rest as [|c rest]; [done|]. cbn [app parse_exponent].
    destruct Hr as (_ & _ & _ & _ & H1 & H2). apply N.eqb_neq in H1, H2. by rewrite H1, H2.
  - cbn [app parse_exponent] in H |- *. destruct ((c =? 101) || (c =? 69))%N; [|done].
    destruct s as [|d s]; [done|]. change (d :: s ++ rest) with ((d :: s) ++ rest). rewrite scan_sign_app.
    destruct (scan_sign (d :: s)) as [eneg t]. cbn [fst snd]. rewrite span_delimited by done.
    destruct (span is_digit t) as [[|x ds] r]; [done|]. cbn [fst snd]. by injection H as <- ->.
Qed.

Lemma parse_number_delimited s v rest : delimited rest →
  parse_json_number s = Some (v, []) → parse_json_number (s ++ rest) = Some (v, rest).
Proof.
  intros Hr. unfold parse_json_number. rewrite eat_delimited by auto.
  assert (∃ neg t, match eat 45 s with Some t => (true, t) | None => (false, s) end = (neg, t) ∧
    match option_map (λ t, t ++ rest) (eat 45 s) with Some t => (true, t) | None => (false, s ++ rest) end = (neg, t ++ rest))
    as (neg & t & -> & ->) by (destruct (eat 45 s); eauto).
  rewrite span_delimited by done. destruct (span is_digit t) as [int t1]. cbn [fst snd]. cbv zeta.
  case_bool; [|done]. rewrite eat_delimited by auto. destruct (eat 46 t1) as [t2|]; cbn [option_map].
  - rewrite span_delimited by done. destruct (span is_digit t2) as [[|d frac] t3]; [done|]. cbn [fst snd].
    by apply parse_exponent_delimited.
  - by apply parse_exponent_delimited.
Qed.

(** The first unit of a number. *)
Lemma parse_number_head s v t : parse_json_number s = Some (v, t) → ∃ c r, s = c :: r ∧ (is_digit c = true ∨ c = 45%N).
Proof.
  unfold parse_json_number. destruct s as [|c s]; [done|]. intros H. exists c, s. split; [done|].
  destruct (N.eq_dec c 45) as [|Hc]; [by right|]. left. cbn [eat] in H. apply N.eqb_neq in Hc. rewrite Hc in H.
  cbn [span] in H. destruct (is_digit c); done.
Qed.

(** ** Reading with enough fuel *)

(** The text [s] is read as the value [v] followed by [rest]. *)
Definition reads (s : jstr) (v : jsval) (rest : jstr) : Prop :=
  ∃ f0, ∀ f, f0 ≤ f → parse_value f s = Some (v, rest).

Lemma reads_parse s v rest : reads s v rest → skip_ws rest = [] → json_parse s = Some v.
Proof.
  intros [f0 H] Hr. unfold json_parse.
  rewrite <- (json_fuel_enough s (f0 + (2 * length s + 2))) by lia. rewrite H by lia. by rewrite Hr.
Qed.

(** Blanks that [JSON.stringify] may print. *)
Definition blank (s : jstr) : Prop := Forall (λ c, json_space c = true) s.

Lemma skip_ws_blank s t : blank s → skip_ws (s ++ t) = skip_ws t.
Proof. unfold skip_ws. induction 1 as [|c s Hc _ IH]; [done|]. cbn [app drop_while]. by rewrite Hc. Qed.

Lemma skip_ws_stop c t : json_space c = false → skip_ws (c :: t) = c :: t.
Proof. intros H. unfold skip_ws. cbn [drop_while]. by rewrite H. Qed.

Lemma reads_blank s t v rest : blank s → reads t v rest → reads (s ++ t) v rest.
Proof.
  intros Hs [f0 H]. exists (S f0). intros [|f] Hf; [lia|]. specialize (H (S f) ltac:(lia)).
  cbn [parse_value] in H |- *. by rewrite skip_ws_blank.
Qed.

Lemma line_break_blank gap d : blank (line_break gap d).
Proof.
  unfold line_break, blank. destruct gap; [|done]. constructor; [done|]. by apply Forall_replicate.
Qed.

Lemma digit_cases c : is_digit c = true ∨ c = 45%N →
  json_space c = false ∧ (c =? 123)%N = false ∧ (c =? 91)%N = false ∧ (c =? 34)%N = false ∧
  (116 =? c)%N = false ∧ (102 =? c)%N = false ∧ (110 =? c)%N = false.
Proof. unfold is_digit, json_space. intros [H| ->]; [|done]. lia. Qed.

Lemma reads_number s v rest : delimited rest → parse_json_number s = Some (v, []) → reads (s ++ rest) v rest.
Proof.
  intros Hr H. exists 1. intros [|f] Hf; [lia|]. pose proof (parse_number_delimited s v rest Hr H) as Hn.
  apply parse_number_head in H as (c & r & -> & Hc). destruct (digit_cases c Hc) as (H0 & H1 & H2 & H3 & H4 & H5 & H6).
  cbn [parse_value app]. rewrite skip_ws_stop, H1, H2, H3 by done.
  change (js "true") with [116; 114; 117; 101]%N. change (js "false") with [102; 97; 108; 115; 101]%N.
  change (js "null") with [110; 117; 108; 108]%N. cbn [strip_prefix]. rewrite H4, H5, H6. done.
Qed.

Lemma reads_string s rest : utf16_ok s → reads (json_quote s ++ rest) (JStr s) rest.
Proof.
  intros Hs. exists 1. intros [|f] Hf; [lia|]. unfold json_quote. cbn [app parse_value].
  rewrite skip_ws_stop by done. change (34 =? 123)%N with false. change (34 =? 91)%N with false.
  change (34 =? 34)%N with true. cbn iota. rewrite <- app_assoc. cbn [app]. by rewrite parse_quote_body.
Qed.

Lemma reads_literal (t : jstr) v rest :
  (t, v) ∈ [(js "null", JNull); (js "true", JBool true); (js "false", JBool false)] → reads (t ++ rest) v rest.
Proof.
  intros H. exists 1. intros [|f] Hf; [lia|].
  repeat (apply elem_of_cons in H as [E|H]; [injection E as -> ->; reflexivity|]). by apply elem_of_nil in H.
Qed.

(** ** Arrays and objects *)

Lemma stops_comma : stops 44.
Proof. by repeat split. Qed.

Lemma line_break_delimited gap d c rest : stops c → delimited (line_break gap d ++ c :: rest).
Proof. unfold line_break. destruct gap; [|done]. intros _. by repeat split. Qed.

(** A text that starts a value. *)
Definition starts (t : jstr) : Prop :=
  ∃ c r, t = c :: r ∧ json_space c = false ∧ c ≠ 93%N ∧ c ≠ 125%N.

(** The text [t] of the value [v], whatever follows. *)
Definition text_of (v : jsval) (t : jstr) : Prop :=
  starts t ∧ ∀ rest, delimited rest → reads (t ++ rest) v rest.

Lemma skip_ws_text s t rest : blank s → starts t → skip_ws (s ++ t ++ rest) = t ++ rest.
Proof.
  intros Hs (c & r & -> & Hc & _). rewrite skip_ws_blank by done. cbn [app]. by apply skip_ws_stop.
Qed.

Lemma eat_end c lb rest : json_space c = false → blank lb → eat c (skip_ws (lb ++ c :: rest)) = Some rest.
Proof. intros Hc Hlb. rewrite skip_ws_blank, skip_ws_stop by done. simpl. by rewrite N.eqb_refl. Qed.

Lemma eat_other c d lb rest : json_space d = false → blank lb → d ≠ c → eat c (skip_ws (lb ++ d :: rest)) = None.
Proof. intros Hd Hlb Hne. rewrite skip_ws_blank, skip_ws_stop by done. simpl. apply N.eqb_neq in Hne. by rewrite Hne. Qed.

Lemma elements_read (gap : bool) d vs ts : Forall2 text_of vs ts → vs ≠ [] → ∀ acc rest,
  ∃ f0, ∀ f, f0 ≤ f →
    parse_elements f (line_break gap (S d) ++ join (44%N :: line_break gap (S d)) ts ++ line_break gap d ++ 93%N :: rest) acc
    = Some (JArr (rev acc ++ vs), rest).
Proof.
  induction 1 as [|v t vs ts [Ht Hv] Hvs IH]; [done|]. intros _ acc rest.
  pose proof (line_break_blank gap (S d)) as Hb. pose proof (line_break_blank gap d) as Hb'.
  destruct Hvs as [|v' t' vs ts Hv' Hvs].
  - cbn [join]. destruct (reads_blank _ _ _ _ Hb (Hv _ (line_break_delimited gap d 93 rest ltac:(by repeat split)))) as [f0 Hf].
    exists (S f0). intros [|f] Hlt; [lia|]. cbn [parse_elements]. rewrite Hf by lia. cbn [mbind option_bind].
    rewrite eat_other, eat_end by done. done.
  - destruct (IH ltac:(done) (v :: acc) rest) as [f1 Hf1]. rewrite join_cons. cbn [app].
    set (more := line_break gap (S d) ++ join (44%N :: line_break gap (S d)) (t' :: ts) ++ line_break gap d ++ 93%N :: rest) in *.
    destruct (reads_blank _ _ _ _ Hb (Hv (44%N :: more) stops_comma)) as [f0 Hf].
    exists (S (f0 + f1)). intros [|f] Hlt; [lia|]. cbn [parse_elements].
    replace (line_break gap (S d) ++ (t ++ 44%N :: line_break gap (S d) ++ join (44%N :: line_break gap (S d)) (t' :: ts)) ++
             line_break gap d ++ 93%N :: rest)
      with (line_break gap (S d) ++ t ++ 44%N :: more)
      by (unfold more; rewrite <- !app_assoc; cbn [app]; by rewrite <- !app_assoc).
    rewrite Hf by lia. cbn [mbind option_bind]. rewrite skip_ws_stop by done. cbn [eat N.eqb Pos.eqb]. rewrite Hf1 by lia.
    cbn [rev]. by rewrite <- app_assoc.
Qed.

Definition colon (gap : bool) : jstr := if gap then js ": " else js ":".

Definition member_text (gap : bool) (kt : jstr * jstr) : jstr := json_quote kt.1 ++ colon gap ++ kt.2.

Lemma eat_colon gap rest : ∃ b, blank b ∧ eat 58 (skip_ws (colon gap ++ rest)) = Some (b ++ rest).
Proof. destruct gap; [exists [32%N]|exists []]; split; try done; by repeat constructor. Qed.

(** The key, the colon and the value of a member. *)
Lemma member_read gap lb k t v rest : blank lb → utf16_ok k → text_of v t → delimited rest → ∃ f0, ∀ f o, f0 ≤ f →
  parse_members (S f) (lb ++ member_text gap (k, t) ++ rest) o =
  match eat 44 (skip_ws rest) with
  | Some s => parse_members f s (obj_set k v o)
  | None => s ← eat 125 (skip_ws rest); Some (JObj (obj_set k v o), s)
  end.
Proof.
  intros Hlb Hk [_ Hv] Hr. destruct (eat_colon gap (t ++ rest)) as (b & Hb & Hc).
  destruct (reads_blank _ _ _ _ Hb (Hv _ Hr)) as [f0 Hf]. exists f0. intros f o Hlt.
  replace (lb ++ member_text gap (k, t) ++ rest) with (lb ++ 34%N :: quote_body k ++ 34%N :: colon gap ++ t ++ rest)
    by (unfold member_text, json_quote; cbn [fst snd app]; rewrite <- ?app_assoc; cbn [app]; by rewrite <- ?app_assoc).
  cbn [parse_members]. rewrite eat_end by done. cbn [mbind option_bind].
  rewrite parse_quote_body by done. cbn [mbind option_bind]. rewrite Hc. cbn [mbind option_bind]. rewrite Hf by lia. done.
Qed.

Lemma members_read (gap : bool) d (o : obj jsval) ts :
  Forall2 (λ kv kt, kv.1 = kt.1 ∧ utf16_ok kv.1 ∧ text_of kv.2 kt.2) o ts → o ≠ [] → ∀ acc rest,
  NoDup (map fst (acc ++ o)) →
  ∃ f0, ∀ f, f0 ≤ f →
    parse_members f (line_break gap (S d) ++ join (44%N :: line_break gap (S d)) (map (member_text gap) ts) ++
                     line_break gap d ++ 125%N :: rest) acc
    = Some (JObj (acc ++ o), rest).
Proof.
  induction 1 as [|[k v] [k' t] o ts (Hk & Hu & Ht) Ho IH]; [done|]. intros _ acc rest Hnd. cbn [fst snd] in *. subst k'.
  pose proof (line_break_blank gap (S d)) as Hb. pose proof (line_break_blank gap d) as Hb'.
  assert (obj_set k v acc = acc ++ [(k, v)]) as Hset.
  { apply obj_set_fresh. rewrite map_app in Hnd. apply NoDup_app in Hnd as (_ & Hd & _). intros Hin. apply (Hd k Hin). left. }
  destruct Ho as [|kv kt o ts Hkv Ho]; cbn [map].
  - cbn [join]. destruct (member_read gap _ k t v (line_break gap d ++ 125%N :: rest) Hb Hu Ht) as [f0 Hf].
    { apply line_break_delimited. by repeat split. }
    exists (S f0). intros [|f] Hlt; [lia|]. rewrite Hf by lia. rewrite eat_other, eat_end by done. cbn [mbind option_bind]. by rewrite Hset.
  - destruct (IH ltac:(done) (acc ++ [(k, v)]) rest) as [f1 Hf1]; [by rewrite <- app_assoc|].
    rewrite join_cons. cbn [app].
    set (more := line_break gap (S d) ++ join (44%N :: line_break gap (S d)) (map (member_text gap) (kt :: ts)) ++ line_break gap d ++ 125%N :: rest) in *.
    destruct (member_read gap _ k t v (44%N :: more) Hb Hu Ht stops_comma) as [f0 Hf].
    exists (S (f0 + f1)). intros [|f] Hlt; [lia|].
    replace (line_break gap (S d) ++ (member_text gap (k, t) ++ 44%N :: line_break gap (S d) ++
               join (44%N :: line_break gap (S d)) (member_text gap kt :: map (member_text gap) ts)) ++ line_break gap d ++ 125%N :: rest)
      with (line_break gap (S d) ++ member_text gap (k, t) ++ 44%N :: more)
      by (unfold more; cbn [map]; rewrite <- !app_assoc; cbn [app]; by rewrite <- !app_assoc).
    rewrite Hf by lia. rewrite skip_ws_stop by done. cbn [eat N.eqb Pos.eqb]. rewrite Hset, Hf1 by lia. by rewrite <- app_assoc.
Qed.

Lemma own_entries_map {V W} (f : V → W) (o : obj V) :
  own_entries (map (λ kv, (kv.1, f kv.2)) o) = map (λ kv, (kv.1, f kv.2)) (own_entries o).
Proof.
  unfold own_entries. rewrite map_app. f_equal.
  - rewrite <- (sort_stable_map (λ kv : jstr * V, (kv.1, f kv.2))
      (λ a b, match array_index a.1, array_index b.1 with Some i, Some j => (i <? j)%N | _, _ => false end)
      (λ a b, match array_index a.1, array_index b.1 with Some i, Some j => (i <? j)%N | _, _ => false end)) by done.
    f_equal. induction o as [|[k v] o IH]; [done|]. cbn [map fst snd]. rewrite !filter_cons. cbn [fst].
    case_decide; cbn [map fst snd]; by rewrite IH.
  - induction o as [|[k v] o IH]; [done|]. cbn [map fst snd]. rewrite !filter_cons. cbn [fst].
    case_decide; cbn [map fst snd]; by rewrite IH.
Qed.

Lemma bracketed_app gap d l r items rest : items ≠ [] →
  bracketed gap d l r items ++ rest =
  l :: line_break gap (S d) ++ join (44%N :: line_break gap (S d)) items ++ line_break gap d ++ r :: rest.
Proof. intros H. destruct items; [done|]. unfold bracketed. cbn [app]. f_equal. by rewrite <- !app_assoc. Qed.

Lemma starts_not_end lb t rest c : blank lb → starts t → (c = 93%N ∨ c = 125%N) → eat c (skip_ws (lb ++ t ++ rest)) = None.
Proof.
  intros Hb Ht Hc. rewrite skip_ws_text by done. destruct Ht as (u & r & -> & _ & H1 & H2). cbn [app eat].
  destruct (N.eqb_spec u c); [|done]. naive_solver.
Qed.

Lemma reads_array gap d vs ts : Forall2 text_of vs ts → text_of (JArr vs) (bracketed gap d 91 93 ts).
Proof.
  intros H. split; [destruct ts; eexists _, _; by repeat split|]. intros rest Hr.
  destruct H as [|v t vs ts Hv Hvs].
  - exists 1. intros [|f] Hf; [lia|]. reflexivity.
  - destruct (elements_read gap d (v :: vs) (t :: ts)) with (acc := @nil jsval) (rest := rest) as [f0 Hf]; [by constructor|done|].
    exists (S f0). intros [|f] Hlt; [lia|]. rewrite bracketed_app by done. cbn [parse_value].
    rewrite skip_ws_stop by done. change (91 =? 123)%N with false. change (91 =? 91)%N with true. cbn iota.
    assert (∃ m, join (44%N :: line_break gap (S d)) (t :: ts) = t ++ m) as [m Hm].
    { destruct ts; [exists []; by rewrite app_nil_r|]. rewrite join_cons. by eexists. }
    rewrite Hm, <- app_assoc in Hf |- *. rewrite starts_not_end by (auto using line_break_blank; apply Hv).
    apply Hf. lia.
Qed.

Lemma reads_object gap d (o : obj jsval) ts : NoDup (map fst o) →
  Forall2 (λ kv kt, kv.1 = kt.1 ∧ utf16_ok kv.1 ∧ text_of kv.2 kt.2) o ts →
  text_of (JObj o) (bracketed gap d 123 125 (map (member_text gap) ts)).
Proof.
  intros Hnd H. split; [destruct ts; eexists _, _; by repeat split|]. intros rest Hr.
  destruct H as [|kv kt o ts Hkv Ho].
  - exists 1. intros [|f] Hf; [lia|]. reflexivity.
  - destruct (members_read gap d (kv :: o) (kt :: ts)) with (acc := @nil (jstr * jsval)) (rest := rest) as [f0 Hf];
      [by constructor|done|done|].
    exists (S f0). intros [|f] Hlt; [lia|]. rewrite bracketed_app by done. cbn [parse_value].
    rewrite skip_ws_stop by done. change (123 =? 123)%N with true. cbn iota.
    assert (∃ m, join (44%N :: line_break gap (S d)) (map (member_text gap) (kt :: ts)) = member_text gap kt ++ m) as [m Hm].
    { destruct ts; [exists []; by rewrite app_nil_r|]. cbn [map]. rewrite join_cons. by eexists. }
    rewrite Hm, <- app_assoc in Hf |- *. rewrite starts_not_end; [apply Hf; lia|apply line_break_blank| |by right].
    eexists _, _. by repeat split.
Qed.

(** ** The law *)

Lemma stringify_text v : expressible v → ∀ gap d, ∃ t, stringify gap d v = Some t ∧ text_of v t.
Proof.
  induction v as [| | | |s|l IH|o IH] using jsval_induction; intros Hv gap d.
  - done.
  - eexists. split; [done|]. split; [eexists _, _; by repeat split|]. intros rest _. apply reads_literal. set_solver.
  - eexists. split; [done|]. split; [destruct b; eexists _, _; by repeat split|]. intros rest _. apply reads_literal.
    destruct b; set_solver.
  - destruct Hv as [Hf Hn]. eexists. split; [cbn; by rewrite Hf|]. split; [|intros rest Hr; by apply reads_number].
    apply parse_number_head in Hn as (c & r & -> & Hc). destruct (digit_cases c Hc) as (H0 & _).
    exists c, r. split_and!; try done; intros ->; destruct Hc; done.
  - eexists. split; [done|]. split; [eexists _, _; by repeat split|]. intros rest _. by apply reads_string.
  - apply expressible_arr in Hv. eexists. split; [cbn [stringify]; reflexivity|]. apply reads_array.
    induction IH as [|v l Hl _ IHl]; [constructor|]. apply Forall_cons in Hv as [Hv Hvl]. cbn [map]. constructor; [|by apply IHl].
    destruct (Hl Hv gap (S d)) as (t & -> & Ht). done.
  - apply expressible_obj in Hv as (Ho & Hnd & Hv). eexists. split; [cbn [stringify]; reflexivity|].
    rewrite (own_entries_map (stringify gap (S d))), Ho.
    assert (∃ ts, omap (λ kv, option_map (λ t, json_quote kv.1 ++ (if gap then js ": " else js ":") ++ t) kv.2)
      (map (λ kv : jstr * jsval, (kv.1, stringify gap (S d) kv.2)) o) = map (member_text gap) ts ∧
      Forall2 (λ kv kt, kv.1 = kt.1 ∧ utf16_ok kv.1 ∧ text_of kv.2 kt.2) o ts) as (ts & -> & Hts); [|by apply reads_object].
    clear Ho Hnd. induction IH as [|[k v] o Hl _ IHo]; [exists []; by split|].
    apply Forall_cons in Hv as [[Hk Hv] Hvo]. destruct (IHo Hvo) as (ts & E & Hts).
    destruct (Hl Hv gap (S d)) as (t & Et & Ht). exists ((k, t) :: ts). cbn [map fst snd omap list_omap].
    cbn [snd] in Et. rewrite Et. cbn [option_map]. split; [f_equal; exact E|]. by constructor.
Qed.

(** Printing a value, with or without indentation, and parsing the text gives
    the value back. *)
Theorem json_roundtrip (v : jsval) : expressible v →
  json_parse (json_stringify v) = Some v ∧ json_parse (json_pretty v) = Some v.
Proof.
  intros Hv. unfold json_stringify, json_pretty.
  destruct (stringify_text v Hv false 0) as (t & -> & _ & Ht).
  destruct (stringify_text v Hv true 0) as (t' & -> & _ & Ht'). cbn [default].
  specialize (Ht [] I). specialize (Ht' [] I). rewrite app_nil_r in Ht, Ht'. split; by eapply reads_parse.
Qed.

(** An object whose members are not in the order of enumeration is read back in
    that order. *)
Lemma json_object_roundtrip o : NoDup (map fst o) → Forall (λ kv, utf16_ok kv.1 ∧ expressible kv.2) o →
  json_parse (json_stringify (JObj o)) = Some (JObj (own_entries o)).
Proof.
  intros Hd Ho. assert (json_stringify (JObj o) = json_stringify (JObj (own_entries o))) as ->.
  { unfold json_stringify. cbn [stringify]. rewrite !(own_entries_map (stringify false 1)). by rewrite own_entries_idemp. }
  apply json_roundtrip, expressible_obj. split_and!.
  - apply own_entries_idemp.
  - by apply own_keys_NoDup.
  - by rewrite own_entries_perm.
Qed.

(** The text of an object starts with a brace. *)
Lemma json_object_text o : ∃ t, json_stringify (JObj o) = 123%N :: t.
Proof. unfold json_stringify. cbn [stringify from_option]. unfold bracketed. case_match; by eexists. Qed.

(** ** A check for concrete values *)

Definition num_printsb (x : num) : bool :=
  isFinite x && match parse_json_number (num_to_string x) with Some (JNum y, []) => bool_decide (y = x) | _ => false end.

Fixpoint expressibleb (v : jsval) : bool :=
  match v with
  | JUndef => false
  | JNull | JBool _ => true
  | JNum x => num_printsb x
  | JStr s => bool_decide (utf16_ok s)
  | JArr l => forallb expressibleb l
  | JObj o => bool_decide (map fst (own_entries o) = map fst o) && bool_decide (NoDup (map fst o)) &&
      forallb (λ kv, bool_decide (utf16_ok kv.1) && expressibleb kv.2) o
  end.

Lemma num_printsb_ok x : num_printsb x = true → num_prints x.
Proof.
  unfold num_printsb. intros [H1 H2]%andb_prop. split; [done|].
  destruct (parse_json_number _) as [[[] []]|]; try done. by apply bool_decide_eq_true in H2 as ->.
Qed.

(** Entries with distinct names are told apart by their names. *)
Lemma entries_by_name {V} (o o' : obj V) : o ≡ₚ o' → NoDup (map fst o') → map fst o = map fst o' → o = o'.
Proof.
  intros HP Hd HE. apply list_eq. intros i. destruct (o !! i) as [[k v]|] eqn:E1, (o' !! i) as [[k' v']|] eqn:E2; try done.
  - assert (Some k = Some k') as [= <-].
    { pose proof (f_equal (λ l, l !! i) HE) as H. cbn in H. rewrite !list_lookup_fmap, E1, E2 in H. done. }
    assert ((k, v) ∈ o') as [j Hj]%list_elem_of_lookup by (rewrite <- HP; by apply list_elem_of_lookup_2 with i).
    assert (j = i) as ->; [|congruence]. apply (NoDup_lookup _ j i k Hd); rewrite list_lookup_fmap; [by rewrite Hj|by rewrite E2].
  - apply lookup_ge_None in E2. apply (f_equal length) in HE. rewrite !length_map in HE. apply lookup_lt_Some in E1. lia.
  - apply lookup_ge_None in E1. apply (f_equal length) in HE. rewrite !length_map in HE. apply lookup_lt_Some in E2. lia.
Qed.

Lemma expressibleb_ok v : expressibleb v = true → expressible v.
Proof.
  induction v as [| |b|x|s|l IH|o IH] using jsval_induction; cbn [expressibleb]; try done.
  - apply num_printsb_ok.
  - apply bool_decide_eq_true.
  - intros H. apply expressible_arr. rewrite forallb_forall in H. rewrite Forall_forall in *.
    intros v Hv. by apply IH, H, list_elem_of_In.
  - intros [[H1%bool_decide_eq_true H2%bool_decide_eq_true]%andb_prop H3]%andb_prop. apply expressible_obj.
    split; [by apply entries_by_name; [apply own_entries_perm|..]|]. split; [done|]. rewrite forallb_forall in H3.
    rewrite Forall_forall in *. intros kv Hkv. specialize (H3 kv (proj1 (list_elem_of_In _ _) Hkv)).
    apply andb_prop in H3 as [H3%bool_decide_eq_true H4]. by split; [|apply IH].
Qed.
