(* ===== verification/Host.v ===== *)
(** * The host environment

    What the code calls of its host and of packages outside the repository:
    the operations are the fields of a class, so that every definition that
    uses one takes the host as an argument, and what the theorems rely on is
    stated as a law of its own. *)

From S2P Require Import Prelude JsNumber JsString JsRegex JsValue.

Open Scope Z_scope.

(** Options of [Intl.NumberFormat]; the locale is the host's. *)
Record NumberFormatOptions := {
  nf_style : option jstr;
  nf_currency : option jstr;
  nf_currencyDisplay : option jstr;
  nf_notation : option jstr;
  nf_minimumFractionDigits : option nat;
  nf_maximumFractionDigits : option nat
}.

Class Host := {
  number_format : NumberFormatOptions → num → jstr;    (* new Intl.NumberFormat(undefined, o).format(x) *)
  math_pow : num → num → num;                          (* Math.pow: approximated by the host *)
  date_parse : jstr → num;                             (* Date.parse, in milliseconds *)
  utc_full_year : num → num;                           (* new Date(ms).getUTCFullYear() *)
  date_of_input : jstr → num;                          (* new Date(text).getTime() *)
  dayjs_format : num → jstr → jstr;                    (* dayjs(ms).format(pattern) *)
  from_now : num → jstr;                               (* dayjs(ms).fromNow() *)
  localeCompare : jstr → jstr → num;                   (* a.localeCompare(b) *)
  year_month_label : num → num → jstr                  (* the first of that month, in UTC, as month and year *)
}.

(** [localeCompare] orders strings: its sign is that of a strict weak order. *)
Class Collation (H : Host) : Prop :=
  collation_strict_weak :: StrictWeak (λ a b, n_lt (localeCompare a b) (of_Z 0)).

(** A host for evaluation: numbers in plain notation, strings by code units. *)
Definition plain_host : Host := {|
  number_format o x := num_to_string x;
  math_pow x y := x;
  date_parse s := NaN;
  utc_full_year ms := of_Z 1970;
  date_of_input s := NaN;
  dayjs_format ms p := p;
  from_now ms := num_to_string ms;
  localeCompare a b := if str_lt a b then of_Z (-1) else if str_lt b a then of_Z 1 else of_Z 0;
  year_month_label y m := num_to_string y
|}.

#[export] Instance plain_host_collation : Collation plain_host.
Proof.
  assert (E : ∀ a b, n_lt (@localeCompare plain_host a b) (of_Z 0) = str_lt a b).
  { intros a b. cbn [localeCompare plain_host].
    destruct (str_lt a b); [reflexivity|]. destruct (str_lt b a); reflexivity. }
  split; intros *; rewrite !E; [exact (before_asym str_lt x y)|exact (before_negtrans str_lt x y z)].
Qed.
