(* ===== verification/HttpStatusRules.v ===== *)
(** * HTTP status code rules (lib/http-status-code-rules.ts)

    The administrator's list of status codes and ranges ("400, 500-599").
    [parseHttpStatusCodeRules] validates it token by token and normalises it.
    The theorems: the ranges it returns are the canonical form of the set of
    codes the tokens cover, so two inputs normalise alike exactly when they
    cover the same codes; normalising is idempotent; and the error path
    reports exactly the invalid tokens. *)

From S2P Require Import Prelude JsNumber JsNumberFacts JsString JsRegex JsValue.

Open Scope Z_scope.

(** ** Model *)

Record StatusCodeRange := { r_start : num; r_end : num }.

Record ParsedHttpStatusCodeRules := {
  ok : bool;
  ranges : list StatusCodeRange;
  tokens : list jstr;
  normalized : jstr;
  invalidTokens : list jstr
}.

(** [/^\d+$/.test(s)] *)
Definition isNumber (s : jstr) : bool := re_test (Seqs [Bol; Plus Digit; Eol]) s.

Definition isValidCode (code : num) : bool :=
  isFinite code && n_ge code (of_Z 100) && n_le code (of_Z 599).

Definition parseToken (token : jstr) : option StatusCodeRange :=
  let cleaned := replace_units is_space [] (trim token) in
  if negb (str_truthy cleaned) then None
  else if includes cleaned (js "-") then
    match split cleaned (js "-") with
    | a :: b :: _ =>
        if negb (isNumber a) || negb (isNumber b) then None
        else
          let start := parseInt a in
          let end_ := parseInt b in
          if negb (isValidCode start) || negb (isValidCode end_) || n_gt start end_ then None
          else Some {| r_start := start; r_end := end_ |}
    | _ => None
    end
  else if negb (isNumber cleaned) then None
  else
    let code := parseInt cleaned in
    if negb (isValidCode code) then None
    else Some {| r_start := code; r_end := code |}.

(** The comparator of the sort. *)
Definition compareRanges (a b : StatusCodeRange) : num :=
  if negb (n_eq (r_start a) (r_start b)) then n_sub (r_start a) (r_start b)
  else n_sub (r_end a) (r_end b).

(** One step of the reduce: append, or widen the last range. *)
Definition mergeStep (merged : list StatusCodeRange) (current : StatusCodeRange)
  : list StatusCodeRange :=
  match last merged with
  | None => merged ++ [current]
  | Some lst =>
      if n_gt (r_start current) (n_add (r_end lst) (of_Z 1)) then merged ++ [current]
      else take (length merged - 1) merged
             ++ [{| r_start := r_start lst; r_end := math_max (r_end lst) (r_end current) |}]
  end.

Definition mergeRanges (rs : list StatusCodeRange) : list StatusCodeRange :=
  match rs with
  | [] => []
  | _ => fold_left mergeStep (sort_stable (λ a b, n_lt (compareRanges a b) (of_Z 0)) rs) []
  end.

Definition rangeToken (r : StatusCodeRange) : jstr :=
  if n_eq (r_start r) (r_end r) then num_to_string (r_start r)
  else num_to_string (r_start r) ++ js "-" ++ num_to_string (r_end r).

(** The raw text of the rule list, its segments. *)
Definition rawInput (input : jsval) : jstr :=
  trim (if is_nullish input then [] else to_string input).

Definition segmentsOf (raw : jstr) : list jstr :=
  let sanitized := replace_units (N.eqb (chr "，")) (js ",") raw in
  filter is_nonempty (map trim (split sanitized (js ","))).

Definition parseHttpStatusCodeRules (input : jsval) : ParsedHttpStatusCodeRules :=
  let raw := rawInput input in
  if (length raw =? 0)%nat then
    {| ok := true; ranges := []; tokens := []; normalized := []; invalidTokens := [] |}
  else
    let segments := segmentsOf raw in
    let parsed := omap parseToken segments in
    let invalid := filter (λ s, parseToken s = None) segments in
    if (0 <? length invalid)%nat then
      {| ok := false; ranges := []; tokens := []; normalized := raw; invalidTokens := invalid |}
    else
      let merged := mergeRanges parsed in
      let toks := map rangeToken merged in
      {| ok := true; ranges := merged; tokens := toks; normalized := join (js ",") toks;
         invalidTokens := [] |}.

(** ** The same computation on integer codes *)

Definition zrange : Type := Z * Z.
Definition emb (r : zrange) : StatusCodeRange := {| r_start := of_Z r.1; r_end := of_Z r.2 |}.
Definition valid_zrange (r : zrange) : Prop := 100 <= r.1 <= r.2 ∧ r.2 <= 599.

Definition zbefore (a b : zrange) : bool :=
  (a.1 <? b.1) || ((a.1 =? b.1) && (a.2 <? b.2)).

Definition zstep (m : list zrange) (c : zrange) : list zrange :=
  match last m with
  | None => m ++ [c]
  | Some l => if l.2 + 1 <? c.1 then m ++ [c]
              else take (length m - 1) m ++ [(l.1, Z.max l.2 c.2)]
  end.

Definition zmerge (rs : list zrange) : list zrange := fold_left zstep (sort_stable zbefore rs) [].

(** The codes a list of ranges stands for. *)
Definition zcovers (rs : list zrange) (c : Z) : Prop := ∃ r, r ∈ rs ∧ r.1 <= c <= r.2.

(** Canonical form: ascending, and with a gap between any two ranges. *)
Definition canonical (rs : list zrange) : Prop :=
  StronglySorted (λ a b, a.2 + 1 < b.1) rs ∧ Forall (λ r, r.1 <= r.2) rs.

#[export] Instance zbefore_strict_weak : StrictWeak zbefore.
Proof. split; unfold zbefore; intros; lia. Qed.

(** *** Tokens *)

Lemma isNumber_spec s : isNumber s = true ↔ s ≠ [] ∧ Forall (λ c, is_digit c = true) s.
Proof. apply re_test_class. Qed.

Lemma span_all {A} (f : A → bool) s : Forall (λ c, f c = true) s → span f s = (s, []).
Proof. induction 1 as [|c s Hc _ IH]; simpl; [done|]. by rewrite Hc, IH. Qed.

Lemma digit_not_space c : is_digit c = true → is_space c = false.
Proof. unfold is_digit, is_space. lia. Qed.

Lemma parseInt_digits s : s ≠ [] → Forall (λ c, is_digit c = true) s →
  parseInt s = of_Z (Z.of_N (undigits s)).
Proof.
  intros Hne Hs. unfold parseInt.
  replace (trim_start s) with s.
  2: { symmetry. apply drop_while_id. intros c t ->. apply digit_not_space. by inversion Hs. }
  replace (scan_sign s) with (false, s).
  2: { destruct Hs as [|c s Hc Hs]; [done|]. unfold is_digit in Hc.
       destruct c as [|p]; [done|]. unfold scan_sign.
       repeat (destruct p as [p|p|]; try done). }
  rewrite span_all by done. destruct s as [|c s]; [done|].
  destruct (undigits (c :: s)); done.
Qed.

(** An integer the rounding takes beyond 2^53 is no status code. *)
Lemma isValidCode_of_Z z : 0 <= z → isValidCode (of_Z z) = true ↔ 100 <= z <= 599.
Proof.
  intros Hz. destruct (decide (safe z)) as [Hs|Hs].
  - unfold isValidCode, n_ge. rewrite of_Z_finite, !n_le_of_Z by (done || unfold safe; lia). lia.
  - unfold safe in Hs. split; [|lia]. destruct z as [|p|p]; [lia| |lia]. intros Hv. exfalso.
    assert (54 <= Zpos (digits2_pos p)) as Hd.
    { destruct (Z.le_gt_cases 54 (Zpos (digits2_pos p))) as [|H]; [done|].
      pose proof (digits2_bounds p) as [_ H2].
      assert (2 ^ Zpos (digits2_pos p) <= 2 ^ 53) by (apply Z.pow_le_mono_r; lia). lia. }
    pose proof (of_Z_large p Hd) as Hl. unfold isValidCode in Hv.
    destruct (of_Z (Zpos p)) as [| | |s m e]; [done|done|done|]. destruct Hl as [-> He].
    apply andb_true_iff in Hv as [_ Hle].
    change (of_Z 599) with (S754_finite false 5268859720302592 (-43)) in Hle.
    unfold n_le, SFleb, SFcompare in Hle.
    destruct (Z.compare_spec e (-43)); [lia|lia|done].
Qed.

Lemma parseToken_valid t r : parseToken t = Some r → ∃ z, r = emb z ∧ valid_zrange z.
Proof.
  unfold parseToken. intros H. case_bool; [done|]. case_bool.
  - destruct (split _ _) as [|a [|b l]]; [done|done|].
    destruct (isNumber a) eqn:Ha; [|done]. destruct (isNumber b) eqn:Hb; [|done].
    apply isNumber_spec in Ha as [Ha1 Ha2], Hb as [Hb1 Hb2]. simpl in H.
    rewrite !parseInt_digits in H by done.
    destruct (isValidCode (of_Z (Z.of_N (undigits a)))) eqn:Hva; [|done].
    destruct (isValidCode (of_Z (Z.of_N (undigits b)))) eqn:Hvb; [|done].
    apply isValidCode_of_Z in Hva, Hvb; [|lia|lia]. simpl in H.
    unfold n_gt in H. rewrite n_lt_of_Z in H by (unfold safe; lia).
    case_bool; [done|]. simplify_eq. exists (Z.of_N (undigits a), Z.of_N (undigits b)). split; [done|]. unfold valid_zrange; cbn [fst snd]; lia.
  - destruct (isNumber _) eqn:Ha; [|done]. apply isNumber_spec in Ha as [Ha1 Ha2]. simpl in H.
    rewrite !parseInt_digits in H by done.
    set (u := replace_units is_space [] (trim t)) in *.
    destruct (isValidCode _) eqn:Hva; [|done]. apply isValidCode_of_Z in Hva; [|lia].
    injection H as <-. exists (Z.of_N (undigits u), Z.of_N (undigits u)). split; [done|]. unfold valid_zrange; cbn [fst snd]; lia.
Qed.

(** *** Merging *)

Lemma valid_safe z : valid_zrange z → safe z.1 ∧ safe z.2.
Proof. unfold valid_zrange, safe. lia. Qed.

Lemma compareRanges_emb a b : valid_zrange a → valid_zrange b →
  n_lt (compareRanges (emb a) (emb b)) (of_Z 0) = zbefore a b.
Proof.
  intros Ha Hb. unfold valid_zrange in *. unfold compareRanges, zbefore.
  cbn [emb r_start r_end].
  rewrite n_eq_of_Z by (unfold safe; lia). case_bool;
    rewrite n_sub_of_Z, n_lt_of_Z by (unfold safe; lia); lia.
Qed.

Lemma mergeStep_emb m c : Forall valid_zrange m → valid_zrange c →
  mergeStep (map emb m) (emb c) = map emb (zstep m c).
Proof.
  intros Hm Hc. unfold mergeStep, zstep. destruct m as [|l m _] using rev_ind; [done|].
  apply Forall_app in Hm as [_ Hl]. inversion Hl as [|? ? Hv]; subst.
  rewrite map_app. cbn [map]. rewrite !last_snoc, !length_app, length_map.
  cbn [emb r_start r_end length].
  unfold valid_zrange in *. unfold n_gt.
  rewrite n_add_of_Z, n_lt_of_Z, math_max_of_Z by (unfold safe; lia).
  replace (length m + 1 - 1)%nat with (length m) by lia.
  rewrite take_app_length', take_app_length by (by rewrite ?length_map).
  case_bool; by rewrite !map_app.
Qed.

Lemma zstep_valid m c : Forall valid_zrange m → valid_zrange c → Forall valid_zrange (zstep m c).
Proof.
  intros Hm Hc. unfold zstep. destruct m as [|l m _] using rev_ind; [by constructor|].
  rewrite last_snoc. apply Forall_app in Hm as [Hm Hl]. inversion Hl as [|? ? Hv]; subst.
  assert (Forall valid_zrange (m ++ [l])) by (by apply Forall_app).
  case_bool; (apply Forall_app; split; [by try apply Forall_take|]);
    (constructor; [|done]); [done|]. unfold valid_zrange in *; simpl. lia.
Qed.

Lemma fold_mergeStep_emb rs m : Forall valid_zrange m → Forall valid_zrange rs →
  fold_left mergeStep (map emb rs) (map emb m) = map emb (fold_left zstep rs m) ∧
  Forall valid_zrange (fold_left zstep rs m).
Proof.
  intros Hm Hrs. revert m Hm. induction Hrs as [|c rs Hc Hrs IH]; intros m Hm; simpl; [done|].
  rewrite mergeStep_emb by done. apply IH. by apply zstep_valid.
Qed.

Lemma mergeRanges_emb rs : Forall valid_zrange rs →
  mergeRanges (map emb rs) = map emb (zmerge rs) ∧ Forall valid_zrange (zmerge rs).
Proof.
  intros H. unfold zmerge.
  assert (Forall valid_zrange (sort_stable zbefore rs)) as Hs by by rewrite sort_stable_perm.
  destruct (fold_mergeStep_emb (sort_stable zbefore rs) [] (Forall_nil_2 _) Hs) as [Heq Hv].
  split; [|done]. destruct rs as [|r rs]; [done|].
  unfold mergeRanges. rewrite <- Heq. cbn [map]. f_equal.
  apply (sort_stable_map emb zbefore _ (r :: rs)). intros x y Hx Hy.
  rewrite Forall_forall in H. apply compareRanges_emb; by apply H.
Qed.

Lemma zcovers_app l1 l2 c : zcovers (l1 ++ l2) c ↔ zcovers l1 c ∨ zcovers l2 c.
Proof. unfold zcovers. set_solver. Qed.

Lemma zcovers_cons r l c : zcovers (r :: l) c ↔ r.1 <= c <= r.2 ∨ zcovers l c.
Proof. unfold zcovers. set_solver. Qed.

Lemma canonical_snoc m l : canonical (m ++ [l]) ↔
  canonical m ∧ l.1 <= l.2 ∧ Forall (λ a, a.2 + 1 < l.1) m.
Proof.
  unfold canonical. rewrite Forall_app, Forall_singleton.
  assert (StronglySorted (λ a b : zrange, a.2 + 1 < b.1) (m ++ [l]) ↔
    StronglySorted (λ a b : zrange, a.2 + 1 < b.1) m ∧ Forall (λ a : zrange, a.2 + 1 < l.1) m)
    as ->; [|tauto].
  induction m as [|x m IH]; simpl.
  - split; [|by intros; constructor; constructor]. by intros; split; constructor.
  - split.
    + intros H. inversion H as [|? ? Hss Hf]; subst. apply IH in Hss as [? ?].
      apply Forall_app in Hf as [Hf [Hx _]%Forall_cons]. by split; constructor.
    + intros [H [Hx Hall]%Forall_cons]. inversion H; subst. constructor; [by apply IH|].
      apply Forall_app. split; [done|]. by constructor.
Qed.

Lemma zstep_spec m c :
  canonical m → c.1 <= c.2 → (∀ l, last m = Some l → l.1 <= c.1) →
  canonical (zstep m c) ∧ (∀ x, zcovers (zstep m c) x ↔ zcovers m x ∨ c.1 <= x <= c.2) ∧
  (∀ l, last (zstep m c) = Some l → l.1 <= c.1).
Proof.
  intros Hcan Hc Hlast. unfold zstep. destruct m as [|l m _] using rev_ind.
  { split; [repeat constructor; done|]. split; [|intros; simplify_eq/=; lia].
    intros x. unfold zcovers. set_solver. }
  rewrite last_snoc. specialize (Hlast l (last_snoc _ _)).
  pose proof (proj1 (canonical_snoc m l) Hcan) as (Hm & Hl & Hall).
  case_bool.
  - split; [|split].
    + apply canonical_snoc. split; [done|]. split; [done|]. apply Forall_app.
      split; [eapply Forall_impl; [done|]; simpl; lia|constructor; [lia|done]].
    + intros x. rewrite zcovers_app, (zcovers_cons c). unfold zcovers at 2. set_solver.
    + intros l' Hl'. rewrite last_snoc in Hl'. simplify_eq. lia.
  - rewrite length_app. simpl. replace (length m + 1 - 1)%nat with (length m) by lia.
    rewrite take_app_length. split; [|split].
    + apply canonical_snoc. simpl. split; [done|]. split; [lia|done].
    + intros x. rewrite !zcovers_app, !zcovers_cons. simpl.
      assert (∀ x, ¬ zcovers [] x) as Hnil by (unfold zcovers; set_solver).
      split; [intros [?|[?|[]%Hnil]]|intros [[?|[?|[]%Hnil]]|?]]; try tauto; lia || (right; left; lia).
    + intros l' Hl'. rewrite last_snoc in Hl'. simplify_eq. simpl. lia.
Qed.

Lemma fold_zstep_spec rs m :
  canonical m → Forall (λ r, r.1 <= r.2) rs →
  StronglySorted (λ a b, zbefore b a = false) rs →
  (∀ l r, last m = Some l → r ∈ rs → l.1 <= r.1) →
  canonical (fold_left zstep rs m) ∧
  (∀ x, zcovers (fold_left zstep rs m) x ↔ zcovers m x ∨ zcovers rs x).
Proof.
  revert m. induction rs as [|c rs IH]; intros m Hm Hrs Hsort Hlast; simpl.
  { split; [done|]. intros x. unfold zcovers at 3. set_solver. }
  apply Forall_cons in Hrs as [Hc Hrs]. inversion Hsort as [|? ? Hs Hf]; subst.
  destruct (zstep_spec m c) as (H1 & H2 & H3); [done|done|intros; by eapply Hlast; set_solver|].
  destruct (IH (zstep m c)) as [H4 H5]; [done|done|done| |].
  { intros l r Hl Hr. specialize (H3 l Hl). rewrite Forall_forall in Hf.
    specialize (Hf r Hr). unfold zbefore in Hf. lia. }
  split; [done|]. intros x. rewrite H5, H2, zcovers_cons. tauto.
Qed.

Lemma zmerge_spec rs : Forall valid_zrange rs →
  canonical (zmerge rs) ∧ ∀ x, zcovers (zmerge rs) x ↔ zcovers rs x.
Proof.
  intros H. destruct (fold_zstep_spec (sort_stable zbefore rs) []) as [H1 H2].
  - by repeat constructor.
  - rewrite sort_stable_perm. eapply Forall_impl; [done|]. unfold valid_zrange. lia.
  - apply sort_stable_sorted, _.
  - done.
  - split; [done|]. intros x. rewrite H2. unfold zcovers.
    setoid_rewrite elem_of_sort_stable. set_solver.
Qed.

(** A canonical list is determined by the codes it stands for. *)
Lemma canonical_unique l1 l2 : canonical l1 → canonical l2 →
  (∀ x, zcovers l1 x ↔ zcovers l2 x) → l1 = l2.
Proof.
  revert l2. induction l1 as [|[a b] l1 IH]; intros [|[a' b'] l2] [S1 F1] [S2 F2] H.
  - done.
  - inversion F2; subst. destruct (proj2 (H a')) as (r & ? & _); [exists (a', b'); set_solver by lia|].
    set_solver.
  - inversion F1; subst. destruct (proj1 (H a)) as (r & ? & _); [exists (a, b); set_solver by lia|].
    set_solver.
  - inversion F1 as [|? ? Hab F1']; inversion F2 as [|? ? Hab' F2']; subst.
    inversion S1 as [|? ? S1' A1]; inversion S2 as [|? ? S2' A2]; subst. simpl in *.
    assert (low : ∀ (l : list zrange) p q, Forall (λ r, q + 1 < r.1) l → p <= q →
      ∀ x, x <= q + 1 → zcovers ((p, q) :: l) x ↔ p <= x <= q).
    { clear. intros l p q Hl Hpq x Hx. rewrite zcovers_cons. simpl.
      split; [|tauto]. intros [?|(r & Hr & ?)]; [done|].
      rewrite Forall_forall in Hl. specialize (Hl r Hr). simpl in Hl. lia. }
    assert (lb : ∀ (l : list zrange) p q, Forall (λ r, q + 1 < r.1) l → p <= q →
      ∀ x, zcovers ((p, q) :: l) x → p <= x).
    { clear. intros l p q Hl Hpq x. rewrite zcovers_cons. simpl.
      intros [?|(r & Hr & ?)]; [lia|]. rewrite Forall_forall in Hl. specialize (Hl r Hr). simpl in Hl. lia. }
    assert (a = a') as <-.
    { assert (a' <= a) by (apply (lb l2 a' b'); [done..|]; apply H; rewrite zcovers_cons; simpl; lia).
      assert (a <= a') by (apply (lb l1 a b); [done..|]; apply H; rewrite zcovers_cons; simpl; lia). lia. }
    assert (b = b') as <-.
    { destruct (Z.lt_trichotomy b b') as [Hlt|[?|Hlt]]; [exfalso|done|exfalso].
      - assert (zcovers ((a, b) :: l1) (b + 1)) as Hc by (apply H, low; [done|lia|lia|lia]).
        apply low in Hc; [lia|done|lia|lia].
      - assert (zcovers ((a, b') :: l2) (b' + 1)) as Hc by (apply H, low; [done|lia|lia|lia]).
        apply low in Hc; [lia|done|lia|lia]. }
    f_equal. apply IH; [done|done|]. intros x.
    assert (Htail : ∀ l : list zrange, Forall (λ r, b + 1 < r.1) l →
      zcovers l x ↔ zcovers ((a, b) :: l) x ∧ ¬ a <= x <= b).
    { clear. intros l Hl. rewrite zcovers_cons. simpl. split; [|tauto].
      intros Hc. split; [by right|]. destruct Hc as (r & Hr & ?).
      rewrite Forall_forall in Hl. specialize (Hl r Hr). simpl in Hl. lia. }
    rewrite (Htail l1), (Htail l2) by done. by rewrite H.
Qed.

(** *** Printing a code and reading it back *)

Lemma codes_text : forallb (λ a, let s := num_to_string (of_Z a) in
  str_truthy s && forallb is_digit s && (Z.of_N (undigits s) =? a)) (seqZ 100 500) = true.
Proof. vm_compute. reflexivity. Qed.

Lemma code_text a : 100 <= a <= 599 →
  num_to_string (of_Z a) ≠ [] ∧ Forall (λ c, is_digit c = true) (num_to_string (of_Z a)) ∧
  Z.of_N (undigits (num_to_string (of_Z a))) = a.
Proof.
  intros Ha. pose proof codes_text as H. rewrite forallb_forall in H.
  assert (In a (seqZ 100 500)) as Hin by (apply list_elem_of_In, elem_of_seqZ; lia).
  specialize (H a Hin). apply andb_true_iff in H as [[H1 H2]%andb_true_iff H3].
  split; [by intros E; rewrite E in H1|]. split; [|lia].
  apply Forall_forall. intros c Hc. rewrite forallb_forall in H2.
  by apply H2, list_elem_of_In.
Qed.

(** The characters of a token. *)
Definition token_char (c : N) : Prop := is_digit c = true ∨ c = 45%N.

Lemma rangeToken_chars z : valid_zrange z → Forall token_char (rangeToken (emb z)).
Proof.
  intros [H1 H2]. unfold rangeToken. cbn [emb r_start r_end].
  destruct (code_text z.1) as (_ & Hd1 & _); [lia|].
  destruct (code_text z.2) as (_ & Hd2 & _); [lia|].
  assert (∀ s, Forall (λ c, is_digit c = true) s → Forall token_char s) as Himp
    by (intros s Hs; eapply Forall_impl; [exact Hs|]; by left).
  case_bool; [auto|]. apply Forall_app; split; [auto|].
  apply Forall_app; split; [|auto]. constructor; [by right|done].
Qed.

Lemma token_char_facts c : token_char c →
  is_space c = false ∧ c ≠ 44%N ∧ N.eqb (chr "，") c = false.
Proof.
  intros [H| ->]; [|done]. split; [by apply digit_not_space|].
  change (chr "，") with 65292%N. unfold is_digit in H. lia.
Qed.

Lemma rangeToken_nonempty z : valid_zrange z → rangeToken (emb z) ≠ [].
Proof.
  intros [H1 H2]. unfold rangeToken. cbn [emb r_start r_end].
  destruct (code_text z.1) as (Hne & _ & _); [lia|]. case_bool; [done|].
  by destruct (num_to_string _).
Qed.

Lemma parseToken_rangeToken z : valid_zrange z → parseToken (rangeToken (emb z)) = Some (emb z).
Proof.
  intros Hz. pose proof (rangeToken_chars z Hz) as Hch.
  pose proof (rangeToken_nonempty z Hz) as Hne.
  assert (Forall (λ c, is_space c = false) (rangeToken (emb z))) as Hsp
    by (eapply Forall_impl; [exact Hch|]; intros c Hc; by apply token_char_facts in Hc as (? & _)).
  unfold parseToken. rewrite trim_id by by apply trimmed_no_space.
  rewrite replace_units_id by done.
  destruct Hz as [H1 H2]. unfold rangeToken in *. cbn [emb r_start r_end] in *.
  destruct (code_text z.1) as (Hn1 & Hd1 & Hv1); [lia|].
  destruct (code_text z.2) as (Hn2 & Hd2 & Hv2); [lia|].
  assert (Hnm : ∀ s, Forall (λ c, is_digit c = true) s → 45%N ∉ s).
  { intros s Hs Hin. rewrite Forall_forall in Hs. by apply Hs in Hin. }
  assert (Hval : ∀ a, 100 <= a <= 599 → isValidCode (of_Z a) = true)
    by (intros; apply isValidCode_of_Z; lia).
  rewrite n_eq_of_Z in * by (unfold safe; lia).
  destruct (Z.eqb_spec z.1 z.2) as [E|E].
  - destruct (str_truthy _) eqn:Et; [|by destruct (num_to_string _)]. cbn [negb].
    destruct (includes _ _) eqn:Ei; [apply includes_single in Ei; by apply Hnm in Ei|].
    rewrite (proj2 (isNumber_spec _)) by done. cbn [negb].
    rewrite parseInt_digits, Hv1, Hval by (done || lia). cbn [negb].
    unfold emb. by rewrite <- E.
  - destruct (str_truthy _) eqn:Et; [|by destruct (num_to_string _)]. cbn [negb].
    change (js "-") with [45%N]. rewrite (proj2 (includes_single _ 45%N)) by set_solver.
    change ([45%N] ++ ?s) with (45%N :: s).
    rewrite split_app_sep, split_no_sep by auto.
    rewrite !(proj2 (isNumber_spec _)) by done. cbn [negb orb].
    rewrite !parseInt_digits, Hv1, Hv2, !Hval by (done || lia). cbn [negb orb].
    unfold n_gt. rewrite n_lt_of_Z by (unfold safe; lia).
    by destruct (Z.ltb_spec z.2 z.1); [lia|].
Qed.

(** ** Theorems *)

(** Code [c] belongs to one of the ranges of a parse result. *)
Definition covered (r : ParsedHttpStatusCodeRules) (c : Z) : Prop :=
  ∃ g, g ∈ ranges r ∧ n_le (r_start g) (of_Z c) = true ∧ n_le (of_Z c) (r_end g) = true.

Definition range_has (g : StatusCodeRange) (c : Z) : Prop :=
  n_le (r_start g) (of_Z c) = true ∧ n_le (of_Z c) (r_end g) = true.

Lemma range_has_emb z c : valid_zrange z → safe c → range_has (emb z) c ↔ z.1 <= c <= z.2.
Proof.
  intros [H1 H2] Hc. unfold range_has. cbn [emb r_start r_end].
  rewrite !n_le_of_Z by (done || unfold safe; lia). lia.
Qed.

Lemma segments_parsed segs : Forall (λ s, parseToken s ≠ None) segs →
  ∃ zs, omap parseToken segs = map emb zs ∧ Forall valid_zrange zs.
Proof.
  induction 1 as [|s segs Hs _ (zs & IH & Hv)]; [by exists []|].
  destruct (parseToken s) as [r|] eqn:E; [|done].
  pose proof E as (z & -> & Hz)%parseToken_valid. exists (z :: zs).
  cbn [omap list_omap map]. rewrite E. split; [by f_equal|by constructor].
Qed.

Lemma no_invalid segs : (0 <? length (filter (λ s, parseToken s = None) segs))%nat = false →
  Forall (λ s, parseToken s ≠ None) segs.
Proof.
  intros H. apply Forall_forall. intros s Hs E.
  assert (s ∈ filter (λ s, parseToken s = None) segs) as Hin by by apply list_elem_of_filter.
  destruct (filter _ _); [set_solver|done].
Qed.

(** The shape of a successful parse. *)
Lemma parse_ok_shape input :
  ok (parseHttpStatusCodeRules input) = true →
  ∃ zs, parseHttpStatusCodeRules input = {|
      ok := true; ranges := map emb zs; tokens := map rangeToken (map emb zs);
      normalized := join (js ",") (map rangeToken (map emb zs)); invalidTokens := [] |} ∧
    canonical zs ∧ Forall valid_zrange zs ∧
    (∀ c, zcovers zs c ↔ ∃ s z, s ∈ segmentsOf (rawInput input) ∧
      parseToken s = Some (emb z) ∧ valid_zrange z ∧ z.1 <= c <= z.2).
Proof.
  unfold parseHttpStatusCodeRules. set (raw := rawInput input).
  destruct (length raw =? 0)%nat eqn:Hl.
  { exists []. split; [done|]. split; [by repeat constructor|]. split; [done|].
    intros c. split; [unfold zcovers; set_solver|]. intros (s & z & Hs & _).
    destruct raw; [|done]. by apply list_elem_of_filter in Hs as [? [->|[]%elem_of_nil]%elem_of_cons]. }
  destruct (0 <? _)%nat eqn:Hi; [done|]. intros _.
  apply no_invalid in Hi as Hall. destruct (segments_parsed _ Hall) as (zs & Heq & Hv).
  destruct (mergeRanges_emb zs Hv) as [Hm Hvm]. destruct (zmerge_spec zs Hv) as [Hc Hcov].
  exists (zmerge zs). rewrite Heq, Hm. split; [done|]. split; [done|]. split; [done|].
  intros c. rewrite Hcov. split.
  - intros (z & Hz & Hzc). rewrite Forall_forall in Hv.
    assert (emb z ∈ omap parseToken (segmentsOf raw)) as Hin
      by (rewrite Heq; by apply list_elem_of_fmap_2).
    apply list_elem_of_omap in Hin as (s & ? & ?). exists s, z. auto.
  - intros (s & z & Hs & Hp & Hz & Hzc).
    assert (emb z ∈ omap parseToken (segmentsOf raw)) as Hin by (apply list_elem_of_omap; eauto).
    rewrite Heq in Hin. apply list_elem_of_fmap in Hin as (z' & He & Hz').
    rewrite Forall_forall in Hv. specialize (Hv z' Hz'). unfold valid_zrange in *.
    injection He as E1 E2. apply of_Z_inj in E1, E2; [|unfold safe; lia..].
    exists z'. split; [done|]. lia.
Qed.

Lemma covered_zcovers r zs c : ranges r = map emb zs → Forall valid_zrange zs → safe c →
  covered r c ↔ zcovers zs c.
Proof.
  intros Hr Hv Hc. unfold covered. rewrite Hr. rewrite Forall_forall in Hv. split.
  - intros (g & (z & -> & Hz)%list_elem_of_fmap & Hin). exists z. split; [done|].
    apply range_has_emb; [by apply Hv|done|done].
  - intros (z & Hz & Hin). exists (emb z). split; [by apply list_elem_of_fmap_2|].
    by apply (range_has_emb z c); [apply Hv| |].
Qed.

Lemma token_text_clean zs : Forall valid_zrange zs →
  Forall token_char (concat (map rangeToken (map emb zs))).
Proof.
  induction 1 as [|z zs Hz _ IH]; simpl; [done|]. apply Forall_app. by split; [apply rangeToken_chars|].
Qed.

(** The segments of a normalised text are its tokens. *)
Lemma segments_normalized zs : zs ≠ [] → Forall valid_zrange zs →
  let text := join (js ",") (map rangeToken (map emb zs)) in
  text ≠ [] ∧ trim text = text ∧ segmentsOf text = map rangeToken (map emb zs).
Proof.
  intros Hne Hv. set (ts := map rangeToken (map emb zs)).
  assert (Hts : Forall (λ t, Forall token_char t ∧ t ≠ []) ts).
  { unfold ts. clear Hne. induction Hv as [|z zs Hz _ IH]; simpl; constructor; [|done].
    by split; [apply rangeToken_chars|apply rangeToken_nonempty]. }
  assert (Hne' : ts ≠ []) by (unfold ts; by destruct zs).
  clearbody ts. clear Hne Hv zs.
  assert (Hjoin : Forall (λ c, is_space c = false ∧ N.eqb (chr "，") c = false) (join (js ",") ts)).
  { clear Hne'. induction Hts as [|t ts [Ht _] Hts IH]; [done|].
    assert (Forall (λ c, is_space c = false ∧ N.eqb (chr "，") c = false) t) as Ht'
      by (eapply Forall_impl; [exact Ht|]; intros c Hc; by apply token_char_facts in Hc as (? & _ & ?)).
    destruct ts as [|t' ts]; [done|]. rewrite join_cons.
    apply Forall_app; split; [done|]. apply Forall_app; split; [by repeat constructor|done]. }
  assert (Hsp : Forall (λ c, is_space c = false) (join (js ",") ts))
    by (eapply Forall_impl; [exact Hjoin|]; by intros c [? ?]).
  split; [|split].
  - destruct Hts as [|t ts [_ Ht] Hts]; [done|]. destruct ts; [done|]. rewrite join_cons. by destruct t.
  - by apply trim_id, trimmed_no_space.
  - unfold segmentsOf. rewrite replace_units_id.
    2: { eapply Forall_impl; [exact Hjoin|]. by intros c [? ?]. }
    change (js ",") with [44%N]. rewrite split_join; [|done|].
    2: { eapply Forall_impl; [exact Hts|]. intros t [Ht _] Hin. rewrite Forall_forall in Ht.
         by apply Ht, token_char_facts in Hin as (_ & ? & _). }
    rewrite (Forall_fmap_ext_1 trim id).
    2: { eapply Forall_impl; [exact Hts|]. intros t [Ht _]. apply trim_id, trimmed_no_space.
         eapply Forall_impl; [exact Ht|]. intros c Hc. by apply token_char_facts in Hc as (? & _). }
    rewrite list_fmap_id. apply filter_id. eapply Forall_impl; [exact Hts|]. by intros t [_ ?].
Qed.

Lemma reparse zs : canonical zs → Forall valid_zrange zs →
  parseHttpStatusCodeRules (JStr (join (js ",") (map rangeToken (map emb zs)))) = {|
    ok := true; ranges := map emb zs; tokens := map rangeToken (map emb zs);
    normalized := join (js ",") (map rangeToken (map emb zs)); invalidTokens := [] |}.
Proof.
  intros Hc Hv. destruct (decide (zs = [])) as [->|Hne]; [done|].
  destruct (segments_normalized zs Hne Hv) as (H1 & H2 & H3).
  set (text := join _ _) in *. unfold parseHttpStatusCodeRules, rawInput. cbn [is_nullish to_string].
  rewrite H2. destruct (length text =? 0)%nat eqn:El; [by destruct text|]. rewrite H3.
  assert (Hp : omap parseToken (map rangeToken (map emb zs)) = map emb zs ∧
    filter (λ s, parseToken s = None) (map rangeToken (map emb zs)) = []).
  { clear -Hv. induction Hv as [|z zs Hz _ [IH1 IH2]]; [done|].
    cbn [map omap list_omap]. rewrite filter_cons, parseToken_rangeToken by done.
    rewrite decide_False by done. split; [by f_equal|done]. }
  destruct Hp as [-> ->]. cbn [length Nat.ltb Nat.leb].
  destruct (mergeRanges_emb zs Hv) as [-> _]. destruct (zmerge_spec zs Hv) as [Hc' Hcov].
  by rewrite (canonical_unique (zmerge zs) zs) by done.
Qed.

(** The ranges a parse returns are in canonical form: integer bounds within
    100..599, ascending, and separated by at least one code outside (so no two
    overlap or touch). *)
Theorem parse_ranges_canonical input :
  ∃ zs, ranges (parseHttpStatusCodeRules input) = map emb zs ∧
    Forall (λ r, 100 <= r.1 <= r.2 ∧ r.2 <= 599) zs ∧
    StronglySorted (λ a b, a.2 + 1 < b.1) zs.
Proof.
  destruct (ok (parseHttpStatusCodeRules input)) eqn:Hok.
  - apply parse_ok_shape in Hok as (zs & -> & [? _] & ? & _). exists zs. done.
  - exists []. split; [|by repeat constructor]. revert Hok.
    unfold parseHttpStatusCodeRules. by repeat case_bool.
Qed.

(** C20. A valid rule list keeps exactly the codes of its tokens: merging and
    sorting neither lose nor add a status code. *)
Theorem parse_covers_tokens input c : safe c →
  ok (parseHttpStatusCodeRules input) = true →
  covered (parseHttpStatusCodeRules input) c ↔
  ∃ s g, s ∈ segmentsOf (rawInput input) ∧ parseToken s = Some g ∧ range_has g c.
Proof.
  intros Hc (zs & E & _ & Hv & Hcov)%parse_ok_shape.
  rewrite (covered_zcovers _ zs) by (done || by rewrite E). rewrite Hcov. split.
  - intros (s & z & ? & ? & ? & ?). exists s, (emb z). by rewrite range_has_emb.
  - intros (s & g & Hs & Hp & Hg). destruct (parseToken_valid s g Hp) as (z & -> & Hz).
    exists s, z. by rewrite range_has_emb in Hg.
Qed.

Lemma parse_covers_tokens_witness :
  covered (parseHttpStatusCodeRules (JStr (js "500-599, 404"))) 503.
Proof.
  apply parse_covers_tokens; [by vm_compute|by vm_compute|].
  exists (js "500-599"), (emb (500, 599)). repeat split; [|by vm_compute..].
  apply (bool_decide_unpack (js "500-599" ∈ _)). by vm_compute.
Defined.

(** Normalising is idempotent: parsing the normalised text gives the same
    ranges, tokens and text again. *)
Theorem normalize_idempotent input :
  ok (parseHttpStatusCodeRules input) = true →
  parseHttpStatusCodeRules (JStr (normalized (parseHttpStatusCodeRules input)))
    = parseHttpStatusCodeRules input.
Proof. intros (zs & -> & Hc & Hv & _)%parse_ok_shape. by apply reparse. Qed.

Lemma normalize_idempotent_witness :
  parseHttpStatusCodeRules (JStr (normalized
    (parseHttpStatusCodeRules (JStr (js "500-599， 401,400-401")))))
  = parseHttpStatusCodeRules (JStr (js "500-599， 401,400-401")).
Proof. apply normalize_idempotent. by vm_compute. Defined.

(** C9. The normalised text is a complete invariant: two valid rule lists
    normalise to the same text exactly when they cover the same codes. *)
Theorem normal_form_complete i1 i2 :
  ok (parseHttpStatusCodeRules i1) = true → ok (parseHttpStatusCodeRules i2) = true →
  normalized (parseHttpStatusCodeRules i1) = normalized (parseHttpStatusCodeRules i2) ↔
  ∀ c, safe c → covered (parseHttpStatusCodeRules i1) c ↔ covered (parseHttpStatusCodeRules i2) c.
Proof.
  intros (zs1 & E1 & C1 & V1 & _)%parse_ok_shape (zs2 & E2 & C2 & V2 & _)%parse_ok_shape.
  split.
  - intros H c _. assert (parseHttpStatusCodeRules i1 = parseHttpStatusCodeRules i2) as ->; [|done].
    rewrite E1, E2 in H. cbn [normalized] in H.
    by rewrite E1, E2, <- (reparse zs1), <- (reparse zs2), H.
  - intros H. rewrite E1, E2. cbn [normalized]. f_equal. f_equal. f_equal.
    apply canonical_unique; [done|done|]. intros x.
    destruct (decide (safe x)) as [Hx|Hx].
    + rewrite <- (covered_zcovers (parseHttpStatusCodeRules i1) zs1) by (done || by rewrite E1).
      rewrite <- (covered_zcovers (parseHttpStatusCodeRules i2) zs2) by (done || by rewrite E2).
      by apply H.
    + rewrite Forall_forall in V1, V2. unfold safe in Hx.
      split; intros (z & Hz & ?); [apply V1 in Hz|apply V2 in Hz]; unfold valid_zrange in Hz; lia.
Qed.

Lemma normal_form_complete_witness :
  covered (parseHttpStatusCodeRules (JStr (js "400,401-403"))) 402 ↔
  covered (parseHttpStatusCodeRules (JStr (js "402-403,400-402"))) 402.
Proof. apply normal_form_complete; by vm_compute. Defined.

(** The error path: the invalid tokens reported are exactly the segments
    no rule reads, the parse fails exactly when there is one, and then it
    returns no range and hands the trimmed input back. *)
Theorem parse_error_reports input :
  let r := parseHttpStatusCodeRules input in
  invalidTokens r = filter (λ s, parseToken s = None) (segmentsOf (rawInput input)) ∧
  (ok r = false ↔ invalidTokens r ≠ []) ∧
  (ok r = false → ranges r = [] ∧ normalized r = rawInput input).
Proof.
  unfold parseHttpStatusCodeRules. destruct (length (rawInput input) =? 0)%nat eqn:El.
  { destruct (rawInput input); [|done]. done. }
  destruct (filter _ _) as [|t ts] eqn:Ef; simpl; done.
Qed.

(** A third part of a dashed token is ignored: [a-b-rest] is read as the
    range [a-b], whatever [rest] is. *)
Theorem extra_parts_ignored z rest :
  valid_zrange z → z.1 < z.2 → Forall (λ c, is_space c = false) rest →
  parseToken (rangeToken (emb z) ++ js "-" ++ rest) = Some (emb z).
Proof.
  intros Hz Hlt Hrest. pose proof (parseToken_rangeToken z Hz) as Hp.
  pose proof (rangeToken_chars z Hz) as Hch.
  assert (Forall (λ c, is_space c = false) (rangeToken (emb z))) as Hsp
    by (eapply Forall_impl; [exact Hch|]; intros c Hc; by apply token_char_facts in Hc as (? & _)).
  assert (Forall (λ c, is_space c = false) (rangeToken (emb z) ++ js "-" ++ rest)) as Hall
    by (apply Forall_app; split; [done|]; by constructor).
  unfold parseToken in *.
  rewrite trim_id in Hp |- * by by apply trimmed_no_space.
  rewrite replace_units_id in Hp |- * by done.
  assert (E : rangeToken (emb z) = num_to_string (of_Z z.1) ++ 45%N :: num_to_string (of_Z z.2)).
  { unfold rangeToken. cbn [emb r_start r_end]. destruct Hz as [? ?].
    rewrite n_eq_of_Z by (unfold safe; lia). by destruct (Z.eqb_spec z.1 z.2); [lia|]. }
  destruct Hz as [? ?].
  destruct (code_text z.1) as (Hn1 & Hd1 & _); [lia|].
  destruct (code_text z.2) as (Hn2 & Hd2 & _); [lia|].
  assert (Hnm : ∀ s, Forall (λ c, is_digit c = true) s → 45%N ∉ s).
  { intros s Hs Hin. rewrite Forall_forall in Hs. by apply Hs in Hin. }
  rewrite E in *. rewrite <- app_assoc. cbn [app]. change (js "-") with [45%N] in *. cbn [app].
  destruct (num_to_string (of_Z z.1)) as [|c0 s0] eqn:E0; [done|].
  rewrite (proj2 (includes_single _ 45%N)) in Hp by set_solver.
  rewrite (proj2 (includes_single _ 45%N)) by set_solver.
  rewrite split_app_sep in Hp |- * by auto.
  rewrite split_app_sep by auto. rewrite split_no_sep in Hp by auto. exact Hp.
Qed.

Lemma extra_parts_ignored_witness :
  parseToken (js "400-500-600") = Some (emb (400, 500)).
Proof.
  apply (extra_parts_ignored (400, 500) (js "600")); [done|done|].
  repeat constructor.
Defined.
