(* ===== verification/StatusCodeGuard.v ===== *)
(** * Status code risk guard (features/channels/lib/status-code-risk-guard.ts)

    A channel may rewrite upstream status codes by a JSON object such as
    [{"504": 200}].  The guard lists the malformed entries, the entries that
    rewrite a code the retry logic depends on (504 and 524), and those of them
    an edit introduces.  The theorems characterise the lists entry by entry. *)

From S2P Require Import Prelude JsNumber JsNumberFacts JsString JsRegex JsValue HttpStatusRules.

Open Scope Z_scope.

(** ** Model *)

Definition NON_REDIRECTABLE_STATUS_CODES : list num := [of_Z 504; of_Z 524].

(** [/^[1-5]\d{2}$/] *)
Definition status_code_re : regex :=
  Seqs [Bol; Chr (λ c, (49 <=? c)%N && (c <=? 53)%N); Digit; Digit; Eol].

Definition parseStatusCodeKey (rawKey : jstr) : option num :=
  let normalized := trim rawKey in
  if negb (re_test status_code_re normalized) then None else Some (parseInt normalized).

Definition parseStatusCodeMappingTarget (rawValue : jsval) : option num :=
  match rawValue with
  | JNum n =>
      if isInteger n then
        if n_ge n (of_Z 100) && n_le n (of_Z 599) then Some n else None
      else None
  | JStr s =>
      let normalized := trim s in
      if negb (re_test status_code_re normalized) then None
      else
        let code := parseInt normalized in
        if n_ge code (of_Z 100) && n_le code (of_Z 599) then Some code else None
  | _ => None
  end.

(** The guards both collectors open with: blank text, text that is not JSON
    and JSON that is not an object have no entries. *)
Definition mappingEntries (statusCodeMappingStr : jstr) : obj jsval :=
  if negb (str_truthy (trim statusCodeMappingStr)) then []
  else match json_parse statusCodeMappingStr with
       | Some (JObj o) => own_entries o
       | _ => []
       end.

Definition collectInvalidStatusCodeEntries (statusCodeMappingStr : jstr) : list jstr :=
  omap (λ '(rawKey, rawValue),
    match parseStatusCodeKey rawKey, parseStatusCodeMappingTarget rawValue with
    | Some _, Some _ => None
    | _, _ => Some (rawKey ++ js " → " ++ to_string rawValue)
    end) (mappingEntries statusCodeMappingStr).

Definition hasCode (codes : list num) (c : num) : bool := existsb (n_eq c) codes.

(** One turn of the loop over the entries. *)
Definition riskyMapping (entry : jstr * jsval) : option jstr :=
  match parseStatusCodeKey entry.1, parseStatusCodeMappingTarget entry.2 with
  | Some fromCode, Some toCode =>
      if negb (hasCode NON_REDIRECTABLE_STATUS_CODES fromCode) then None
      else if n_eq fromCode toCode then None
      else Some (num_to_string fromCode ++ js " -> " ++ num_to_string toCode)
  | _, _ => None
  end.

Definition collectDisallowedStatusCodeRedirects (statusCodeMappingStr : jstr) : list jstr :=
  sort_stable str_lt (set_of_list (omap riskyMapping (mappingEntries statusCodeMappingStr))).

Definition collectNewDisallowedStatusCodeRedirects (originalStr currentStr : jstr) : list jstr :=
  let currentRisky := collectDisallowedStatusCodeRedirects currentStr in
  if (length currentRisky =? 0)%nat then []
  else
    let originalRiskySet := set_of_list (collectDisallowedStatusCodeRedirects originalStr) in
    filter (λ mapping, mapping ∉ originalRiskySet) currentRisky.

(** ** Codes are integers of 100..599 *)

Lemma status_code_re_spec s : re_test status_code_re s = true ↔
  ∃ a b c, s = [a; b; c] ∧ (49 <= a <= 53)%N ∧ is_digit b = true ∧ is_digit c = true.
Proof.
  change status_code_re with
    (Seq Bol (Seq (Chr (λ c, (49 <=? c)%N && (c <=? 53)%N)) (Seq Digit (Seq Digit (Seq Eol Eps))))).
  rewrite re_test_anchored. split.
  - intros (st' & (st1 & [_ ->]%Mr_bol_iff & (st2 & (a & t & Ha & ? & ->)%Mr_chr_iff &
      (st3 & (b & t2 & Hb & ? & ->)%Mr_chr_iff & (st4 & (c & t3 & Hc & ? & ->)%Mr_chr_iff &
      (st5 & [He ->]%Mr_eol_iff & _)%Mr_seq_iff)%Mr_seq_iff)%Mr_seq_iff)%Mr_seq_iff)%Mr_seq_iff).
    simpl in *. subst. exists a, b, c. repeat split; [lia..|done|done].
  - intros (a & b & c & -> & Ha & Hb & Hc).
    assert ((49 <=? a)%N && (a <=? 53)%N = true) as Ha' by lia.
    exists (MState [c; b; a] [] []). unfold start.
    repeat (eapply Mr_seq; [by constructor|]). constructor.
Qed.

Lemma parseInt_code s : re_test status_code_re s = true →
  ∃ z, parseInt s = of_Z z ∧ 100 <= z <= 599.
Proof.
  intros (a & b & c & -> & Ha & Hb & Hc)%status_code_re_spec.
  exists (Z.of_N (undigits [a; b; c])). rewrite parseInt_digits.
  - split; [done|]. unfold is_digit in *. cbn [undigits undigits_acc foldl fold_left]. lia.
  - done.
  - repeat constructor; [unfold is_digit; lia|done|done].
Qed.

Lemma parseStatusCodeKey_code k n : parseStatusCodeKey k = Some n →
  ∃ z, n = of_Z z ∧ 100 <= z <= 599.
Proof.
  unfold parseStatusCodeKey. destruct (re_test _ _) eqn:E; [|done]. intros [= <-].
  by apply parseInt_code.
Qed.

(** The two guarded codes are recognised by their text. *)
Lemma parseStatusCodeKey_guarded k n :
  parseStatusCodeKey k = Some n → hasCode NON_REDIRECTABLE_STATUS_CODES n = true ↔
  ∃ f, (f = 504 ∨ f = 524) ∧ n = of_Z f ∧ trim k = num_to_string (of_Z f).
Proof.
  unfold parseStatusCodeKey. destruct (re_test _ _) eqn:E; [|done]. intros [= <-].
  apply status_code_re_spec in E as (a & b & c & Hk & Ha & Hb & Hc). rewrite Hk.
  rewrite parseInt_digits by (done || (repeat constructor; try done; unfold is_digit; lia)).
  set (z := Z.of_N (undigits [a; b; c])).
  assert (Hz : z = 100 * Z.of_N (a - 48) + 10 * Z.of_N (b - 48) + Z.of_N (c - 48)).
  { unfold z. cbn [undigits undigits_acc]. lia. }
  clearbody z. unfold is_digit in *.
  assert (safe z) by (unfold safe; lia).
  unfold hasCode, NON_REDIRECTABLE_STATUS_CODES. cbn [existsb].
  rewrite !n_eq_of_Z by (done || unfold safe; lia). split.
  - intros Hor. exists z. assert (z = 504 ∨ z = 524) as Hc' by lia. split; [done|]. split; [done|].
    destruct Hc' as [E|E]; rewrite E;
      [change (num_to_string _) with [53; 48; 52]%N|change (num_to_string _) with [53; 50; 52]%N];
      repeat f_equal; lia.
  - intros (f & Hf & E & _). apply of_Z_inj in E; [|done|unfold safe; lia]. lia.
Qed.

Lemma guarded_key k f : f = 504 ∨ f = 524 → trim k = num_to_string (of_Z f) →
  parseStatusCodeKey k = Some (of_Z f).
Proof. intros Hf Hk. unfold parseStatusCodeKey. rewrite Hk. destruct Hf as [-> | ->]; by vm_compute. Qed.

(** ** Theorems *)

(** The risky redirects listed are exactly the entries that send 504 or
    524 to a valid target other than itself, each once, in strictly ascending
    order of their text. *)
Theorem disallowed_redirects_exact str :
  StronglySorted (λ a b, str_lt a b = true) (collectDisallowedStatusCodeRedirects str) ∧
  ∀ m, m ∈ collectDisallowedStatusCodeRedirects str ↔
    ∃ k v f n, (k, v) ∈ mappingEntries str ∧ (f = 504 ∨ f = 524) ∧
      trim k = num_to_string (of_Z f) ∧ parseStatusCodeMappingTarget v = Some n ∧
      n_eq (of_Z f) n = false ∧ m = num_to_string (of_Z f) ++ js " -> " ++ num_to_string n.
Proof.
  unfold collectDisallowedStatusCodeRedirects.
  split; [apply sort_str_strict, NoDup_set_of_list|]. intros m.
  rewrite elem_of_sort_stable, elem_of_set_of_list, list_elem_of_omap. split.
  - intros ([k v] & Hin & Hm). unfold riskyMapping in Hm. cbn [fst snd] in Hm.
    destruct (parseStatusCodeKey k) as [fc|] eqn:Ek; [|done].
    destruct (parseStatusCodeMappingTarget v) as [n|] eqn:Ev; [|done].
    destruct (hasCode _ fc) eqn:Eh; [|done]. simpl in Hm.
    destruct (n_eq fc n) eqn:En; [done|]. injection Hm as <-.
    apply (parseStatusCodeKey_guarded k) in Eh as (f & ? & -> & ?); [|done].
    by exists k, v, f, n.
  - intros (k & v & f & n & Hin & Hf & Hk & Hv & Hn & ->). exists (k, v). split; [done|].
    unfold riskyMapping. cbn [fst snd]. rewrite (guarded_key k f), Hv by done.
    replace (hasCode _ _) with true by (destruct Hf as [-> | ->]; by vm_compute).
    cbn [negb]. by rewrite Hn.
Qed.

(** What an edit is warned about is exactly what is risky after it and was
    not before, still in ascending order; an edit that leaves the mapping
    alone raises no warning. *)
Theorem new_redirects_difference original current :
  (∀ m, m ∈ collectNewDisallowedStatusCodeRedirects original current ↔
    m ∈ collectDisallowedStatusCodeRedirects current ∧
    m ∉ collectDisallowedStatusCodeRedirects original) ∧
  sublist (collectNewDisallowedStatusCodeRedirects original current)
    (collectDisallowedStatusCodeRedirects current) ∧
  collectNewDisallowedStatusCodeRedirects current current = [].
Proof.
  assert (Hiff : ∀ o c m, m ∈ collectNewDisallowedStatusCodeRedirects o c ↔
    m ∈ collectDisallowedStatusCodeRedirects c ∧ m ∉ collectDisallowedStatusCodeRedirects o).
  { intros o c m. unfold collectNewDisallowedStatusCodeRedirects.
    destruct (collectDisallowedStatusCodeRedirects c) as [|x l] eqn:E; simpl length; cbn [Nat.eqb].
    - set_solver.
    - rewrite list_elem_of_filter, elem_of_set_of_list. tauto. }
  split; [apply Hiff|split].
  - unfold collectNewDisallowedStatusCodeRedirects. case_bool; [apply sublist_nil_l|].
    apply sublist_filter.
  - destruct (collectNewDisallowedStatusCodeRedirects current current) as [|m l] eqn:E; [done|].
    assert (m ∈ m :: l) as Hm by left. rewrite <- E in Hm. apply Hiff in Hm. tauto.
Qed.

(** Every entry of the mapping is either reported as malformed or has a
    source and a target code of 100..599; nothing else is reported. *)
Theorem invalid_entries_exact str :
  (∀ k v, (k, v) ∈ mappingEntries str →
    k ++ js " → " ++ to_string v ∈ collectInvalidStatusCodeEntries str ∨
    ∃ z n, parseStatusCodeKey k = Some (of_Z z) ∧ 100 <= z <= 599 ∧
      parseStatusCodeMappingTarget v = Some n ∧
      n_le (of_Z 100) n = true ∧ n_le n (of_Z 599) = true) ∧
  (∀ m, m ∈ collectInvalidStatusCodeEntries str → ∃ k v, (k, v) ∈ mappingEntries str ∧
    m = k ++ js " → " ++ to_string v ∧
    (parseStatusCodeKey k = None ∨ parseStatusCodeMappingTarget v = None)).
Proof.
  unfold collectInvalidStatusCodeEntries. split.
  - intros k v Hin. destruct (parseStatusCodeKey k) as [f|] eqn:Ek;
      [destruct (parseStatusCodeMappingTarget v) as [n|] eqn:Ev|];
      [right|left; apply list_elem_of_omap; exists (k, v); by rewrite Ek, ?Ev..].
    apply parseStatusCodeKey_code in Ek as (z & -> & ?). exists z, n. do 2 (split; [done|]).
    split; [done|]. destruct v as [| | |x|x| |]; try done; unfold parseStatusCodeMappingTarget, n_ge in Ev.
    + destruct (isInteger x); [|done]. destruct (_ && _) eqn:E; [|done]. injection Ev as <-.
      by apply andb_true_iff.
    + destruct (re_test _ _); [|done]. cbn [negb] in Ev. destruct (_ && _) eqn:E; [|done].
      injection Ev as <-. by apply andb_true_iff.
  - intros m ([k v] & Hin & Hm)%list_elem_of_omap. exists k, v. split; [done|].
    destruct (parseStatusCodeKey k), (parseStatusCodeMappingTarget v); try done;
      injection Hm as <-; auto.
Qed.
