(* ===== verification/BillingExpr.v ===== *)
(** * Billing expressions (features/pricing/lib/billing-expr.ts)

    The text form of tiered prices and of request rules: the registry of
    billing variables, the reader of tier expressions, the splitter, reader
    and printer of request rules, and the combination of both.  The facts are
    in BillingSplit.v and BillingRules.v. *)

From S2P Require Import Prelude JsNumber JsString JsRegex JsValue.

Open Scope Z_scope.

(** ** Variable registry *)

Inductive BillingSide := SideInput | SideOutput | SideCondition.

Record BillingVar := {
  bv_key : jstr;
  bv_field : option jstr;
  bv_tierField : option jstr;
  bv_label : jstr;
  bv_shortLabel : jstr;
  bv_side : BillingSide;
  bv_isBase : bool;
  bv_isConditionOnly : bool;
  bv_group : option jstr
}.

Definition price_var (key field tierField label shortLabel : jstr) (side : BillingSide)
    (isBase : bool) (group : option jstr) : BillingVar :=
  {| bv_key := key; bv_field := Some field; bv_tierField := Some tierField; bv_label := label;
     bv_shortLabel := shortLabel; bv_side := side; bv_isBase := isBase;
     bv_isConditionOnly := false; bv_group := group |}.

Definition BILLING_VARS : list BillingVar := [
  price_var (js "p") (js "inputPrice") (js "input_unit_cost")
    (js "Input price") (js "Input") SideInput true None;
  price_var (js "c") (js "outputPrice") (js "output_unit_cost")
    (js "Completion price") (js "Output") SideOutput true None;
  {| bv_key := js "len"; bv_field := None; bv_tierField := None; bv_label := js "Input length";
     bv_shortLabel := js "Length"; bv_side := SideCondition; bv_isBase := false;
     bv_isConditionOnly := true; bv_group := None |};
  price_var (js "cr") (js "cacheReadPrice") (js "cache_read_unit_cost")
    (js "Cache read price") (js "Cache Read") SideInput false (Some (js "cache"));
  price_var (js "cc") (js "cacheCreatePrice") (js "cache_create_unit_cost")
    (js "Cache create price") (js "Cache Write") SideInput false (Some (js "cache"));
  price_var (js "cc1h") (js "cacheCreate1hPrice") (js "cache_create_1h_unit_cost")
    (js "Cache create (1h) price") (js "Cache Write (1h)") SideInput false (Some (js "cache"));
  price_var (js "img") (js "imagePrice") (js "image_unit_cost")
    (js "Image input price") (js "Image In") SideInput false (Some (js "media"));
  price_var (js "img_o") (js "imageOutputPrice") (js "image_output_unit_cost")
    (js "Image output price") (js "Image Out") SideOutput false (Some (js "media"));
  price_var (js "ai") (js "audioInputPrice") (js "audio_input_unit_cost")
    (js "Audio input price") (js "Audio In") SideInput false (Some (js "media"));
  price_var (js "ao") (js "audioOutputPrice") (js "audio_output_unit_cost")
    (js "Audio output price") (js "Audio Out") SideOutput false (Some (js "media")) ].

Definition BILLING_PRICING_VARS : list BillingVar :=
  filter (λ v, bv_isConditionOnly v = false) BILLING_VARS.

Definition BILLING_CONDITION_VARS : list jstr :=
  map bv_key (filter (λ v, bv_isBase v || bv_isConditionOnly v = true) BILLING_VARS).

Definition BILLING_VAR_KEY_TO_FIELD : obj jstr :=
  map (λ v, (bv_key v, default [] (bv_field v))) BILLING_PRICING_VARS.

Definition BILLING_EXTRA_VARS : list BillingVar :=
  filter (λ v, bv_isBase v = false ∧ bv_isConditionOnly v = false) BILLING_VARS.

(** Pairs (field, exprVar). *)
Definition BILLING_CACHE_VAR_MAP : list (jstr * jstr) :=
  map (λ v, (default [] (bv_tierField v), bv_key v)) BILLING_EXTRA_VARS.

(** [[\d.eE+-]] and [[\d.eE+]] *)
Definition number_unit (c : N) : bool := is_digit c || one_of (js ".eE+-") c.
Definition unsigned_unit (c : N) : bool := is_digit c || one_of (js ".eE+") c.

Definition BILLING_VAR_REGEX : regex :=
  Seqs [WordB; Grp 1 (Alts (map (λ v, lit_units (bv_key v)) BILLING_PRICING_VARS));
        Spaces; Lit "*"; Spaces; Grp 2 (Plus (Chr number_unit))].

(** ** Request rules: constants and data *)

Definition SOURCE_PARAM : jstr := js "param".
Definition SOURCE_HEADER : jstr := js "header".
Definition SOURCE_TIME : jstr := js "time".

Definition MATCH_EQ : jstr := js "eq".
Definition MATCH_CONTAINS : jstr := js "contains".
Definition MATCH_GT : jstr := js "gt".
Definition MATCH_GTE : jstr := js "gte".
Definition MATCH_LT : jstr := js "lt".
Definition MATCH_LTE : jstr := js "lte".
Definition MATCH_EXISTS : jstr := js "exists".
Definition MATCH_RANGE : jstr := js "range".

Definition TIME_FUNCS : list jstr :=
  [js "hour"; js "minute"; js "weekday"; js "month"; js "day"].

(** Pairs (value, label). *)
Definition COMMON_TIMEZONES : list (jstr * jstr) := [
  (js "Asia/Shanghai", js "UTC+8 Shanghai (Asia/Shanghai)");
  (js "UTC", js "UTC");
  (js "America/New_York", js "UTC-5 New York (America/New_York)");
  (js "America/Los_Angeles", js "UTC-8 Los Angeles (America/Los_Angeles)");
  (js "America/Chicago", js "UTC-6 Chicago (America/Chicago)");
  (js "Europe/London", js "UTC+0 London (Europe/London)");
  (js "Europe/Berlin", js "UTC+1 Berlin (Europe/Berlin)");
  (js "Asia/Tokyo", js "UTC+9 Tokyo (Asia/Tokyo)");
  (js "Asia/Singapore", js "UTC+8 Singapore (Asia/Singapore)");
  (js "Asia/Seoul", js "UTC+9 Seoul (Asia/Seoul)");
  (js "Australia/Sydney", js "UTC+10 Sydney (Australia/Sydney)") ].

(** [/^-?(?:\d+\.?\d*|\.\d+)(?:[eE][+-]?\d+)?$/] *)
Definition NUMERIC_LITERAL_REGEX : regex :=
  Seqs [Bol; Opt (Lit "-");
        Alt (Seqs [Plus Digit; Opt (Lit "."); Star true Digit]) (Seq (Lit ".") (Plus Digit));
        Opt (Seqs [Chr (one_of (js "eE")); Opt (Chr (one_of (js "+-"))); Plus Digit]); Eol].

Inductive PHSource := Param | Header.

Record ParamHeaderCondition := {
  ph_source : PHSource;
  ph_path : jstr;
  ph_mode : jstr;
  ph_value : jstr
}.

Record TimeCondition := {
  tc_timeFunc : jstr;
  tc_timezone : jstr;
  tc_mode : jstr;
  tc_value : jstr;
  tc_rangeStart : jstr;
  tc_rangeEnd : jstr
}.

Inductive RequestCondition :=
  | CTime (c : TimeCondition)
  | CPH (c : ParamHeaderCondition).

Record RequestRuleGroup := {
  conditions : list RequestCondition;
  multiplier : jstr
}.

Inductive TierVar := VarP | VarC | VarLen.
Inductive TierOp := OpLt | OpLe | OpGt | OpGe.

Record TierCondition := { t_var : TierVar; t_op : TierOp; t_value : num }.

Record ParsedTier := {
  pt_label : jstr;
  pt_conditions : list TierCondition;
  pt_fields : obj num
}.

#[export] Instance PHSource_eq_dec : EqDecision PHSource.
Proof. solve_decision. Defined.
#[export] Instance TierVar_eq_dec : EqDecision TierVar.
Proof. solve_decision. Defined.
#[export] Instance TierOp_eq_dec : EqDecision TierOp.
Proof. solve_decision. Defined.
#[export] Instance ParamHeaderCondition_eq_dec : EqDecision ParamHeaderCondition.
Proof. solve_decision. Defined.
#[export] Instance TimeCondition_eq_dec : EqDecision TimeCondition.
Proof. solve_decision. Defined.
#[export] Instance RequestCondition_eq_dec : EqDecision RequestCondition.
Proof. solve_decision. Defined.
#[export] Instance RequestRuleGroup_eq_dec : EqDecision RequestRuleGroup.
Proof. solve_decision. Defined.

(** ** Tier conditions *)

Definition var_text (v : TierVar) : jstr :=
  match v with VarP => js "p" | VarC => js "c" | VarLen => js "len" end.

Definition op_text (o : TierOp) : jstr :=
  match o with OpLt => js "<" | OpLe => js "<=" | OpGt => js ">" | OpGe => js ">=" end.

Definition opposite (o : TierOp) : TierOp :=
  match o with OpLt => OpGe | OpLe => OpGt | OpGt => OpLe | OpGe => OpLt end.

Definition complementTierCondition (condition : TierCondition) : TierCondition :=
  {| t_var := t_var condition; t_op := opposite (t_op condition); t_value := t_value condition |}.

Definition formatTierConditionHint (tier : ParsedTier) : jstr :=
  join (js " && ") (map (λ condition,
    let value := if n_ge (t_value condition) (of_Z 1000000)
                 then num_to_string (n_div (t_value condition) (of_Z 1000000)) ++ js "M"
                 else num_to_string (n_div (t_value condition) (of_Z 1000)) ++ js "K" in
    var_text (t_var condition) ++ js " " ++ op_text (t_op condition) ++ js " " ++ value)
    (pt_conditions tier)).

(** ** Tier reader *)

(** A prefix [v<digits>:] and the rest; the result is (version, body). *)
Definition version_re : regex :=
  Seqs [Bol; Lit "v"; Grp 1 (Plus Digit); Lit ":"; Grp 2 (Star true (Chr any_unit)); Eol].

Definition stripExprVersion (exprStr : jstr) : num * jstr :=
  if negb (str_truthy exprStr) then (of_Z 1, [])
  else match re_exec version_re exprStr with
       | Some m => (string_to_number (group0 m 1), group0 m 2)
       | None => (of_Z 1, exprStr)
       end.

(** The first coefficient of each variable, in the order of the text. *)
Definition bodyCoeffs (bodyStr : jstr) : obj num :=
  fold_left (λ coeffs m,
      if obj_has (group0 m 1) coeffs then coeffs
      else obj_set (group0 m 1) (string_to_number (group0 m 2)) coeffs)
    (all_matches BILLING_VAR_REGEX bodyStr) [].

Definition parseTierBody (bodyStr : jstr) : obj num :=
  let coeffs := bodyCoeffs bodyStr in
  fold_left (λ tier '(varName, field),
      obj_set field (num_or (default NaN (obj_get varName coeffs)) (of_Z 0)) tier)
    (own_entries BILLING_VAR_KEY_TO_FIELD) [].

Definition var_re : regex := Alts [Lit "p"; Lit "c"; Lit "len"].
Definition op_re : regex := Alts [Lit "<"; Lit "<="; Lit ">"; Lit ">="].

(** [(?:p|c|len)\s*(?:<|<=|>|>=)\s*[\d.eE+]+] *)
Definition cond_re : regex := Seqs [var_re; Spaces; op_re; Spaces; Plus (Chr unsigned_unit)].

Definition condGroup : regex :=
  Grp 1 (Seq cond_re (Star true (Seqs [Spaces; Lit "&&"; Spaces; cond_re]))).

Definition quote_unit : N := 34.

(** The call of [tier] with a quoted label and a body without a closing
    parenthesis, its guard optional. *)
Definition tierRe : regex :=
  Seqs [Opt (Seqs [condGroup; Spaces; Lit "?"; Spaces]);
        Lit "tier("; Chr (N.eqb quote_unit); Grp 2 (Star true (Chr (none_of [quote_unit])));
        Chr (N.eqb quote_unit); Lit ","; Spaces;
        Grp 3 (Plus (Chr (none_of (js ")")))); Lit ")"].

(** [/^(p|c|len)\s*(<|<=|>|>=)\s*([\d.eE+]+)$/] *)
Definition cond_part_re : regex :=
  Seqs [Bol; Grp 1 var_re; Spaces; Grp 2 op_re; Spaces; Grp 3 (Plus (Chr unsigned_unit)); Eol].

Definition and_re : regex := Seqs [Spaces; Lit "&&"; Spaces].

(** The casts [as TierCondition['var']], [as TierCondition['op']] on the
    alternatives the pattern admits. *)
Definition text_var (s : jstr) : TierVar :=
  if str_eqb s (js "p") then VarP else if str_eqb s (js "c") then VarC else VarLen.
Definition text_op (s : jstr) : TierOp :=
  if str_eqb s (js "<") then OpLt else if str_eqb s (js "<=") then OpLe
  else if str_eqb s (js ">") then OpGt else OpGe.

Definition parseTierCondition (cp : jstr) : option TierCondition :=
  match re_exec cond_part_re (trim cp) with
  | Some cm => Some {| t_var := text_var (group0 cm 1); t_op := text_op (group0 cm 2);
                       t_value := string_to_number (group0 cm 3) |}
  | None => None
  end.

Definition parseTierMatch (m : rmatchres) : ParsedTier :=
  let condStr := group0 m 1 in
  {| pt_label := group0 m 2;
     pt_conditions := if str_truthy condStr then omap parseTierCondition (re_split and_re condStr) else [];
     pt_fields := parseTierBody (group0 m 3) |}.

Definition with_conditions (cs : list TierCondition) (t : ParsedTier) : ParsedTier :=
  {| pt_label := pt_label t; pt_conditions := cs; pt_fields := pt_fields t |}.

(** The second tier of a two-tier expression gets the complement condition. *)
Definition complementSecond (tiers : list ParsedTier) : list ParsedTier :=
  match tiers with
  | [t0; t1] =>
      match pt_conditions t0, pt_conditions t1 with
      | [c0], [] => [t0; with_conditions [complementTierCondition c0] t1]
      | _, _ => tiers
      end
  | _ => tiers
  end.

Definition parseTiersFromExpr (exprStr : jstr) : list ParsedTier :=
  if negb (str_truthy exprStr) then []
  else
    let '(_, body) := stripExprVersion exprStr in
    complementSecond (map parseTierMatch (all_matches tierRe body)).

(** [/<[=＝]?|≤|＜[=＝]?/g] and its mirror image *)
Definition lt_label_re : regex :=
  Alts [Seq (Lit "<") (Opt (Chr (one_of (js "=＝")))); Lit "≤";
        Seq (Lit "＜") (Opt (Chr (one_of (js "=＝"))))].
Definition gt_label_re : regex :=
  Alts [Seq (Lit ">") (Opt (Chr (one_of (js "=＝")))); Lit "≥";
        Seq (Lit "＞") (Opt (Chr (one_of (js "=＝"))))].

Definition normalizeTierLabel (label : option jstr) : jstr :=
  match label with
  | None | Some [] => []
  | Some label =>
      let l1 := re_replace_all lt_label_re (λ _, js "<") label in
      let l2 := re_replace_all gt_label_re (λ _, js ">") l1 in
      toLowerCase (replace_units is_space [] l2)
  end.

(** ** Request rule reader *)

(** The scanning loop shared by [splitTopLevelMultiply] and
    [splitTopLevelAnd]: [skip] counts the units of a separator already taken,
    [cur] is the current part, last unit first. *)
Fixpoint split_top (sep : jstr) (skip : nat) (depth : Z) (cur : jstr) (s : jstr) : list jstr :=
  match s with
  | [] => [trim (rev cur)]
  | c :: s' =>
      match skip with
      | S skip => split_top sep skip depth cur s'
      | O =>
          let depth := if N.eqb c (chr "(") then depth + 1 else depth in
          let depth := if N.eqb c (chr ")") then depth - 1 else depth in
          if (depth =? 0) && startsWith s sep
          then trim (rev cur) :: split_top sep (length sep - 1) depth [] s'
          else split_top sep 0 depth (c :: cur) s'
      end
  end.

Definition splitTopLevelMultiply (expr : jstr) : list jstr :=
  filter is_nonempty (split_top (js " * ") 0 0 [] expr).

Definition splitTopLevelAnd (expr : jstr) : list jstr :=
  filter is_nonempty (split_top (js " && ") 0 0 [] expr).

(** [None] is the [null] the function returns, also where [JSON.parse] does. *)
Definition parseExprLiteral (raw : jstr) : option jsval :=
  let text := trim raw in
  if str_eqb text (js "true") || str_eqb text (js "false") then Some (JStr text)
  else if re_test NUMERIC_LITERAL_REGEX text then Some (JStr text)
  else match json_parse text with
       | Some JNull => None
       | r => r
       end.

Definition timefunc_re : regex := Grp 1 (Alts (map lit_units TIME_FUNCS)).
(** A parenthesised quoted name, captured as group [i]. *)
Definition quoted_arg (i : nat) : regex :=
  Seqs [Lit "("; Chr (N.eqb quote_unit); Grp i (Plus (Chr (none_of [quote_unit])));
        Chr (N.eqb quote_unit); Lit ")"].
Definition number_grp (i : nat) : regex := Grp i (Plus (Chr number_unit)).

(** [f(tz) >= a || f(tz) < b], both calls the same *)
Definition range_body : regex :=
  Seqs [timefunc_re; quoted_arg 2; Lit " >= "; number_grp 3; Lit " || ";
        Ref 1; Lit "("; Chr (N.eqb quote_unit); Ref 2; Chr (N.eqb quote_unit); Lit ")";
        Lit " < "; number_grp 4].
Definition range_re : regex := Seqs [Bol; range_body; Eol].
Definition range_paren_re : regex := Seqs [Bol; Lit "("; range_body; Lit ")"; Eol].
Definition time_cmp_re : regex :=
  Seqs [Bol; timefunc_re; quoted_arg 2; Lit " "; Grp 3 (Alts [Lit "=="; Lit ">="; Lit "<"]);
        Lit " "; number_grp 4; Eol].

Definition rangeCondition (m : rmatchres) : RequestCondition :=
  CTime {| tc_timeFunc := group0 m 1; tc_timezone := group0 m 2; tc_mode := MATCH_RANGE;
           tc_value := []; tc_rangeStart := group0 m 3; tc_rangeEnd := group0 m 4 |}.

Definition time_op_mode (op : jstr) : jstr :=
  if str_eqb op (js "==") then MATCH_EQ
  else if str_eqb op (js ">=") then MATCH_GTE
  else if str_eqb op (js "<") then MATCH_LT else MATCH_EQ.

Definition tryParseTimeCondition (expr : jstr) : option RequestCondition :=
  match re_exec range_re expr with
  | Some m => Some (rangeCondition m)
  | None =>
  match re_exec range_paren_re expr with
  | Some m => Some (rangeCondition m)
  | None =>
  match re_exec time_cmp_re expr with
  | Some m =>
      Some (CTime {| tc_timeFunc := group0 m 1; tc_timezone := group0 m 2;
                     tc_mode := time_op_mode (group0 m 3); tc_value := group0 m 4;
                     tc_rangeStart := []; tc_rangeEnd := [] |})
  | None => None
  end end end.

(** A quoted JSON text: units other than quote and backslash, or a backslash
    and a unit of a line. *)
Definition json_text_re : regex :=
  Seqs [Chr (N.eqb quote_unit);
        Star true (Alt (Chr (none_of (quote_unit :: js "\"))) (Seq (Lit "\") (Chr dot_unit)));
        Chr (N.eqb quote_unit)].

Definition header_exists_re : regex :=
  Seqs [Bol; Lit "header"; quoted_arg 1; Lit " != "; Chr (N.eqb quote_unit); Chr (N.eqb quote_unit); Eol].
Definition param_exists_re : regex := Seqs [Bol; Lit "param"; quoted_arg 1; Lit " != nil"; Eol].
Definition header_contains_re : regex :=
  Seqs [Bol; Lit "has(header"; quoted_arg 1; Lit ", "; Grp 2 json_text_re; Lit ")"; Eol].
Definition param_contains_re : regex :=
  Seqs [Bol; Lit "param"; quoted_arg 1; Lit " != nil && has(param"; quoted_arg 2; Lit ", ";
        Grp 3 json_text_re; Lit ")"; Eol].
Definition param_cmp_re : regex :=
  Seqs [Bol; Lit "param"; quoted_arg 1; Lit " != nil && param"; quoted_arg 2; Lit " ";
        Grp 3 (Alts [Lit ">"; Lit ">="; Lit "<"; Lit "<="]); Lit " "; number_grp 4; Eol].
Definition eq_re : regex :=
  Seqs [Bol; Grp 1 (Alt (Lit "param") (Lit "header")); quoted_arg 2; Lit " == ";
        Grp 3 (Plus (Chr dot_unit)); Eol].

Definition ph (source : PHSource) (path mode value : jstr) : RequestCondition :=
  CPH {| ph_source := source; ph_path := path; ph_mode := mode; ph_value := value |}.

(** [JSON.parse(m[i]) as string] throws where the text is not JSON. *)
Definition parsed_text (s : jstr) : outcome jstr :=
  match json_parse s with Some v => Ret (to_string v) | None => Throw end.

Definition cmp_op_mode (op : jstr) : jstr :=
  if str_eqb op (js ">") then MATCH_GT else if str_eqb op (js ">=") then MATCH_GTE
  else if str_eqb op (js "<") then MATCH_LT else MATCH_LTE.

(** [m && m[1] === m[2]] *)
Definition same_path (m : option rmatchres) : option rmatchres :=
  match m with
  | Some m => if str_eqb (group0 m 1) (group0 m 2) then Some m else None
  | None => None
  end.

Definition tryParseRequestCondition (expr : jstr) : outcome (option RequestCondition) :=
  match tryParseTimeCondition expr with
  | Some tc => Ret (Some tc)
  | None =>
  match re_exec header_exists_re expr with
  | Some m => Ret (Some (ph Header (group0 m 1) MATCH_EXISTS []))
  | None =>
  match re_exec param_exists_re expr with
  | Some m => Ret (Some (ph Param (group0 m 1) MATCH_EXISTS []))
  | None =>
  match re_exec header_contains_re expr with
  | Some m => v ← parsed_text (group0 m 2); Ret (Some (ph Header (group0 m 1) MATCH_CONTAINS v))
  | None =>
  match same_path (re_exec param_contains_re expr) with
  | Some m => v ← parsed_text (group0 m 3); Ret (Some (ph Param (group0 m 1) MATCH_CONTAINS v))
  | None =>
  match same_path (re_exec param_cmp_re expr) with
  | Some m => Ret (Some (ph Param (group0 m 1) (cmp_op_mode (group0 m 3)) (group0 m 4)))
  | None =>
  match re_exec eq_re expr with
  | Some m =>
      match parseExprLiteral (group0 m 3) with
      | None => Ret None
      | Some v =>
          Ret (Some (ph (if str_eqb (group0 m 1) SOURCE_HEADER then Header else Param)
                        (group0 m 2) MATCH_EQ (to_string v)))
      end
  | None => Ret None
  end end end end end end end.

(** A parenthesised condition, a question mark, the factor, and 1 otherwise;
    the dot of this pattern matches every unit. *)
Definition factor_re : regex :=
  Seqs [Bol; Lit "("; Grp 1 (Plus (Chr any_unit)); Lit " ? "; number_grp 2; Lit " : 1)"; Eol].

Fixpoint parseConditions (parts : list jstr) : outcome (option (list RequestCondition)) :=
  match parts with
  | [] => Ret (Some [])
  | ap :: parts =>
      cond ← tryParseRequestCondition (trim ap);
      match cond with
      | None => Ret None
      | Some c => rest ← parseConditions parts; Ret (option_map (cons c) rest)
      end
  end.

Definition tryParseRuleGroupFactor (part : jstr) : outcome (option RequestRuleGroup) :=
  match re_exec factor_re part with
  | None => Ret None
  | Some m =>
      cs ← parseConditions (splitTopLevelAnd (group0 m 1));
      match cs with
      | None | Some [] => Ret None
      | Some cs => Ret (Some {| conditions := cs; multiplier := group0 m 2 |})
      end
  end.

Fixpoint parseFactors (parts : list jstr) : outcome (option (list RequestRuleGroup)) :=
  match parts with
  | [] => Ret (Some [])
  | part :: parts =>
      group ← tryParseRuleGroupFactor part;
      match group with
      | None => Ret None
      | Some g => rest ← parseFactors parts; Ret (option_map (cons g) rest)
      end
  end.

Definition tryParseRequestRuleExpr (expr : jstr) : outcome (option (list RequestRuleGroup)) :=
  let trimmed := trim expr in
  if negb (str_truthy trimmed) then Ret (Some [])
  else parseFactors (splitTopLevelMultiply trimmed).

(** ** Combining and splitting *)

(** The loop of [hasFullOuterParens] from a depth on. *)
Fixpoint full_parens (depth : Z) (s : jstr) : bool :=
  match s with
  | [] => depth =? 0
  | c :: s =>
      let depth := if N.eqb c (chr "(") then depth + 1 else depth in
      let depth := if N.eqb c (chr ")") then depth - 1 else depth in
      if (depth =? 0) && negb (match s with [] => true | _ => false end) then false
      else full_parens depth s
  end.

Definition hasFullOuterParens (expr : jstr) : bool :=
  if negb (startsWith expr (js "(")) || negb (endsWith expr (js ")")) then false
  else full_parens 0 expr.

Fixpoint unwrap_loop (fuel : nat) (current : jstr) : jstr :=
  match fuel with
  | O => current
  | S fuel =>
      if hasFullOuterParens current then unwrap_loop fuel (trim (slice current 1 (-1))) else current
  end.

(** Each turn of the loop shortens the text, so its length bounds the turns. *)
Definition unwrapOuterParens (expr : jstr) : jstr := unwrap_loop (length expr) (trim expr).

(** [parsed && parsed.length > 0] *)
Definition is_rule_part (part : jstr) : outcome bool :=
  parsed ← tryParseRequestRuleExpr part;
  Ret (match parsed with Some (_ :: _) => true | _ => false end).

Fixpoint partition_parts (parts : list jstr) : outcome (list jstr * list jstr) :=
  match parts with
  | [] => Ret ([], [])
  | part :: parts =>
      b ← is_rule_part part;
      r ← partition_parts parts;
      Ret (if (b : bool) then (part :: r.1, r.2) else (r.1, part :: r.2))
  end.

(** Pair (billingExpr, requestRuleExpr). *)
Definition splitBillingExprAndRequestRules (expr : jstr) : outcome (jstr * jstr) :=
  let trimmed := trim expr in
  if negb (str_truthy trimmed) then Ret ([], [])
  else
    let parts := splitTopLevelMultiply trimmed in
    if (length parts <=? 1)%nat then Ret (trimmed, [])
    else
      '(ruleParts, baseParts) ← partition_parts parts;
      match ruleParts, baseParts with
      | _ :: _, [base] => Ret (unwrapOuterParens base, join (js " * ") ruleParts)
      | _, _ => Ret (trimmed, [])
      end.

Definition combineBillingExpr (baseExpr requestRuleExpr : jstr) : jstr :=
  let base := trim baseExpr in
  let rules := trim requestRuleExpr in
  if negb (str_truthy base) then []
  else if negb (str_truthy rules) then base
  else js "(" ++ base ++ js ") * " ++ rules.

(** ** Editor *)

Definition createEmptyCondition : ParamHeaderCondition :=
  {| ph_source := Param; ph_path := []; ph_mode := MATCH_EQ; ph_value := [] |}.

Definition createEmptyTimeCondition : TimeCondition :=
  {| tc_timeFunc := js "hour"; tc_timezone := js "Asia/Shanghai"; tc_mode := MATCH_GTE;
     tc_value := []; tc_rangeStart := []; tc_rangeEnd := [] |}.

Definition createEmptyRuleGroup : RequestRuleGroup :=
  {| conditions := [CPH createEmptyCondition]; multiplier := [] |}.

Definition createEmptyTimeRuleGroup : RequestRuleGroup :=
  {| conditions := [CTime createEmptyTimeCondition]; multiplier := [] |}.

(** Pairs (value, labelKey). *)
Definition MatchOption : Type := jstr * jstr.

Definition getRequestRuleMatchOptions (source : jstr) : list MatchOption :=
  if str_eqb source SOURCE_TIME then
    [(MATCH_EQ, js "Equals"); (MATCH_GTE, js "Greater than or equal");
     (MATCH_LT, js "Less than"); (MATCH_RANGE, js "Overnight range")]
  else
    let base := [(MATCH_EQ, js "Equals"); (MATCH_CONTAINS, js "Contains"); (MATCH_EXISTS, js "Exists")] in
    if str_eqb source SOURCE_HEADER then base
    else base ++ [(MATCH_GT, js "Greater than"); (MATCH_GTE, js "Greater than or equal");
                  (MATCH_LT, js "Less than"); (MATCH_LTE, js "Less than or equal")].

Definition isTimeFunc (value : option jstr) : bool :=
  match value with Some v => bool_decide (v ∈ TIME_FUNCS) | None => false end.

(** [Partial<RequestCondition>]: any field of either kind may be missing. *)
Record PartialCondition := {
  pc_source : option jstr;
  pc_path : option jstr;
  pc_mode : option jstr;
  pc_value : option jstr;
  pc_timeFunc : option jstr;
  pc_timezone : option jstr;
  pc_rangeStart : option jstr;
  pc_rangeEnd : option jstr
}.

(** The mode kept when the options of the source offer it. *)
Definition offered_mode (source : jstr) (mode : option jstr) (fallback : jstr) : jstr :=
  match mode with
  | Some m => if bool_decide (m ∈ map fst (getRequestRuleMatchOptions source)) then m else fallback
  | None => fallback
  end.

Definition normalizeCondition (cond : PartialCondition) : RequestCondition :=
  let from s := bool_decide (pc_source cond = Some s) in
  if from SOURCE_TIME then
    CTime {| tc_timeFunc := if isTimeFunc (pc_timeFunc cond) then default [] (pc_timeFunc cond)
                            else js "hour";
             tc_timezone := str_or (default [] (pc_timezone cond)) (js "Asia/Shanghai");
             tc_mode := offered_mode SOURCE_TIME (pc_mode cond) MATCH_GTE;
             tc_value := default [] (pc_value cond);
             tc_rangeStart := default [] (pc_rangeStart cond);
             tc_rangeEnd := default [] (pc_rangeEnd cond) |}
  else
    let source := if from SOURCE_HEADER then Header else Param in
    CPH {| ph_source := source;
           ph_path := default [] (pc_path cond);
           ph_mode := offered_mode (if from SOURCE_HEADER then SOURCE_HEADER else SOURCE_PARAM)
                        (pc_mode cond) MATCH_EQ;
           ph_value := default [] (pc_value cond) |}.

(** A condition seen as a partial one: what the calls of [normalizeCondition]
    below pass. *)
Definition partial_of (c : RequestCondition) : PartialCondition :=
  match c with
  | CTime t =>
      {| pc_source := Some SOURCE_TIME; pc_path := None; pc_mode := Some (tc_mode t);
         pc_value := Some (tc_value t); pc_timeFunc := Some (tc_timeFunc t);
         pc_timezone := Some (tc_timezone t); pc_rangeStart := Some (tc_rangeStart t);
         pc_rangeEnd := Some (tc_rangeEnd t) |}
  | CPH p =>
      {| pc_source := Some (match ph_source p with Param => SOURCE_PARAM | Header => SOURCE_HEADER end);
         pc_path := Some (ph_path p); pc_mode := Some (ph_mode p); pc_value := Some (ph_value p);
         pc_timeFunc := None; pc_timezone := None; pc_rangeStart := None; pc_rangeEnd := None |}
  end.

(** ** Printer *)

Definition numericLiteral (s : jstr) : bool := re_test NUMERIC_LITERAL_REGEX s.

Definition buildExprLiteral (mode value : jstr) : jstr :=
  let text := trim value in
  if str_eqb mode MATCH_CONTAINS then json_quote text
  else if str_eqb text (js "true") || str_eqb text (js "false") then text
  else if numericLiteral text then text
  else json_quote text.

Definition time_mode_op (mode : jstr) : jstr :=
  if str_eqb mode MATCH_EQ then js "==" else if str_eqb mode MATCH_GTE then js ">="
  else if str_eqb mode MATCH_LT then js "<" else js "==".

(** The text of a normalised time condition. *)
Definition timeText (n : TimeCondition) : jstr :=
  let fn := tc_timeFunc n ++ js "(" ++ json_quote (tc_timezone n) ++ js ")" in
  if str_eqb (tc_mode n) MATCH_RANGE then
    let s := trim (tc_rangeStart n) in
    let e := trim (tc_rangeEnd n) in
    if negb (numericLiteral s) || negb (numericLiteral e) then []
    else fn ++ js " >= " ++ s ++ js " || " ++ fn ++ js " < " ++ e
  else
    let v := trim (tc_value n) in
    if negb (numericLiteral v) then []
    else fn ++ js " " ++ time_mode_op (tc_mode n) ++ js " " ++ v.

Definition buildTimeConditionExpr (cond : TimeCondition) : jstr :=
  match normalizeCondition (partial_of (CTime cond)) with
  | CTime n => timeText n
  | CPH _ => []
  end.

Definition cmp_mode_op (mode : jstr) : jstr :=
  if str_eqb mode MATCH_GT then js ">" else if str_eqb mode MATCH_GTE then js ">="
  else if str_eqb mode MATCH_LT then js "<" else js "<=".

(** The text of a normalised param or header condition. *)
Definition phText (n : ParamHeaderCondition) : jstr :=
  let path := trim (ph_path n) in
  let mode := ph_mode n in
  if negb (str_truthy path) then []
  else
    let is_header := match ph_source n with Header => true | Param => false end in
    let sourceExpr := (if is_header then js "header(" else js "param(") ++ json_quote path ++ js ")" in
    let lit := buildExprLiteral mode (ph_value n) in
    if str_eqb mode MATCH_EXISTS then
      if is_header then sourceExpr ++ js " != " ++ [quote_unit; quote_unit] else sourceExpr ++ js " != nil"
    else if str_eqb mode MATCH_CONTAINS then
      if is_header then js "has(" ++ sourceExpr ++ js ", " ++ lit ++ js ")"
      else sourceExpr ++ js " != nil && has(" ++ sourceExpr ++ js ", " ++ lit ++ js ")"
    else if bool_decide (mode ∈ [MATCH_GT; MATCH_GTE; MATCH_LT; MATCH_LTE]) then
      let numText := trim (ph_value n) in
      if negb (numericLiteral numText) then []
      else sourceExpr ++ js " != nil && " ++ sourceExpr ++ js " " ++ cmp_mode_op mode ++ js " " ++ numText
    else sourceExpr ++ js " == " ++ lit.

Definition buildRequestConditionExpr (cond : RequestCondition) : jstr :=
  match cond with
  | CTime t => buildTimeConditionExpr t
  | CPH _ =>
      match normalizeCondition (partial_of cond) with
      | CPH n => phText n
      | CTime _ => []
      end
  end.

Definition buildRuleGroupFactor (group : RequestRuleGroup) : jstr :=
  let mult := trim (multiplier group) in
  if negb (numericLiteral mult) then []
  else
    let condExprs := filter is_nonempty (map buildRequestConditionExpr (conditions group)) in
    match condExprs with
    | [] => []
    | _ =>
        let combined :=
          match condExprs with
          | [e] => e
          | _ => join (js " && ")
                   (map (λ e, if includes e (js " || ") then js "(" ++ e ++ js ")" else e) condExprs)
          end in
        js "(" ++ combined ++ js " ? " ++ mult ++ js " : 1)"
    end.

Definition buildRequestRuleExpr (groups : list RequestRuleGroup) : jstr :=
  join (js " * ") (filter is_nonempty (map buildRuleGroupFactor groups)).
