(* ===== verification/BillingSplit.v ===== *)
(** * Splitting at the top level (billing-expr.ts)

    Facts on the scanning loops of billing-expr.ts: texts joined by a
    separator are split back into the parts, as long as every part closes the
    parentheses it opens and does not contain the separator outside them; the
    loop that strips outer parentheses terminates and leaves none. *)

From S2P Require Import Prelude JsNumber JsString JsRegex JsValue BillingExpr.

Open Scope Z_scope.

Definition depth_step (d : Z) (c : N) : Z :=
  let d := if N.eqb c (chr "(") then d + 1 else d in
  if N.eqb c (chr ")") then d - 1 else d.

Definition next_is (u : N) (s : jstr) : bool :=
  match s with c :: _ => N.eqb c u | [] => false end.

(** From depth [d] the text ends at depth 0, and no space outside parentheses
    is followed by [u], the unit a separator starts with after its space. *)
Fixpoint shield (u : N) (d : Z) (s : jstr) : bool :=
  match s with
  | [] => d =? 0
  | c :: s =>
      let d := depth_step d c in
      negb ((d =? 0) && N.eqb c 32 && next_is u s) && shield u d s
  end.

(** From depth [d] the text never goes below 0 and ends there. *)
Fixpoint balanced (d : Z) (s : jstr) : bool :=
  match s with
  | [] => d =? 0
  | c :: s => let d := depth_step d c in (0 <=? d) && balanced d s
  end.

Definition no_paren (c : N) : Prop := c ≠ 40%N ∧ c ≠ 41%N.

Lemma depth_step_plain d c : no_paren c → depth_step d c = d.
Proof.
  intros [H1 H2]. unfold depth_step. change (chr "(") with 40%N. change (chr ")") with 41%N.
  apply N.eqb_neq in H1, H2. by rewrite H1, H2.
Qed.

(** ** Shielded parts are split off whole *)

Section Split.
Context (u : N) (sep' : jstr) (Hu : u ≠ 32%N ∧ no_paren u).
Let sep : jstr := 32%N :: u :: sep'.

Lemma split_top_skip d cur q rest :
  split_top sep (length q) d cur (q ++ rest) = split_top sep 0 d cur rest.
Proof. induction q as [|c q IH]; [done|]. exact IH. Qed.

Lemma startsWith_sep c s : startsWith (c :: s) sep = true → c = 32%N ∧ next_is u s = true.
Proof.
  intros [t E]%startsWith_true. injection E as -> ->. split; [done|]. simpl. apply N.eqb_refl.
Qed.

Lemma split_top_step d cur c s : startsWith (c :: s) sep = false ∨ depth_step d c ≠ 0 →
  split_top sep 0 d cur (c :: s) = split_top sep 0 (depth_step d c) (c :: cur) s.
Proof.
  intros H. cbn [split_top]. fold (depth_step d c).
  destruct (_ && _) eqn:E; [|done].
  apply andb_true_iff in E as [E1 E2]. rewrite E2 in H. apply Z.eqb_eq in E1. naive_solver.
Qed.

(** What follows a part: the end, or another separator. *)
Lemma split_top_part d cur p rest : shield u d p = true →
  (rest = [] ∨ ∃ rest', rest = sep ++ rest') →
  split_top sep 0 d cur (p ++ rest) = split_top sep 0 0 (rev p ++ cur) rest.
Proof.
  intros Hs Hrest. revert d cur Hs. induction p as [|c p IH]; intros d cur Hs.
  - simpl in Hs. apply Z.eqb_eq in Hs as ->. done.
  - cbn [shield] in Hs. fold (depth_step d c) in Hs. apply andb_true_iff in Hs as [H1 H2].
    cbn [app]. rewrite split_top_step.
    + rewrite IH by done. simpl. by rewrite <- app_assoc.
    + destruct (startsWith (c :: p ++ rest) sep) eqn:E; [|by left]. right. intros Hd.
      apply startsWith_sep in E as [-> Hn]. rewrite Hd in H1. cbn [Z.eqb N.eqb] in H1.
      destruct p as [|c' p]; simpl in Hn, H1; [|by rewrite Hn in H1].
      destruct Hrest as [->|[rest' ->]]; [done|].
      unfold sep in Hn. cbn [app next_is] in Hn. apply N.eqb_eq in Hn. naive_solver.
Qed.

Lemma split_top_sep cur rest :
  split_top sep 0 0 cur (sep ++ rest) = trim (rev cur) :: split_top sep 0 0 [] rest.
Proof.
  transitivity (trim (rev cur) :: split_top sep (length (u :: sep')) 0 [] ((u :: sep') ++ rest)).
  2: f_equal; apply split_top_skip.
  change (sep ++ rest) with (32%N :: (u :: sep') ++ rest). cbn [split_top].
  replace (startsWith (32%N :: (u :: sep') ++ rest) sep) with true
    by (symmetry; apply startsWith_true; by exists rest).
  done.
Qed.

Lemma split_top_join p ps : Forall (λ p, shield u 0 p = true) (p :: ps) →
  split_top sep 0 0 [] (join sep (p :: ps)) = map trim (p :: ps).
Proof.
  revert p. induction ps as [|q ps IH]; intros p Hall; inversion Hall as [|? ? Hp Hps]; subst.
  - change (join sep [p]) with p. rewrite <- (app_nil_r p) at 1.
    rewrite split_top_part by auto. cbn [split_top]. by rewrite app_nil_r, rev_involutive.
  - rewrite join_cons, split_top_part by eauto. rewrite split_top_sep, IH by done.
    by rewrite app_nil_r, rev_involutive.
Qed.
End Split.

(** The parts a top-level splitter gives back unchanged. *)
Record part_ok (u : N) (p : jstr) : Prop := {
  part_shield : shield u 0 p = true;
  part_trimmed : trimmed p;
  part_nonempty : p ≠ []
}.

Definition part_okb (u : N) (p : jstr) : bool :=
  shield u 0 p && str_eqb (trim p) p && str_truthy p.

Lemma part_okb_ok u ps : forallb (part_okb u) ps = true → Forall (part_ok u) ps.
Proof.
  intros H. apply Forall_forall. intros p Hp. rewrite forallb_forall in H.
  apply list_elem_of_In, H in Hp. apply andb_true_iff in Hp as [[H1 H2%str_eqb_eq]%andb_true_iff H3].
  split; [done|rewrite <- H2; apply trim_trimmed|by destruct p].
Qed.

Lemma split_parts u sep' ps : u ≠ 32%N ∧ no_paren u → ps ≠ [] → Forall (part_ok u) ps →
  filter is_nonempty (split_top (32%N :: u :: sep') 0 0 [] (join (32%N :: u :: sep') ps)) = ps.
Proof.
  intros Hu Hne Hps. destruct ps as [|p ps]; [done|].
  rewrite split_top_join; [|done|eapply Forall_impl; [exact Hps|]; by intros q []].
  rewrite (Forall_fmap_ext_1 trim id), list_fmap_id.
  2: { eapply Forall_impl; [exact Hps|]. intros q []. by apply trim_id. }
  apply filter_id. eapply Forall_impl; [exact Hps|]. by intros q [].
Qed.

Lemma splitTopLevelAnd_join ps : ps ≠ [] → Forall (part_ok (chr "&")) ps →
  splitTopLevelAnd (join (js " && ") ps) = ps.
Proof. apply (split_parts (chr "&") [38; 32]%N). by split. Qed.

Lemma splitTopLevelMultiply_join ps : ps ≠ [] → Forall (part_ok (chr "*")) ps →
  splitTopLevelMultiply (join (js " * ") ps) = ps.
Proof. apply (split_parts (chr "*") [32]%N). by split. Qed.

(** ** Shielding by pieces *)

Lemma balanced_plain d s t : Forall no_paren s → 0 <= d → balanced d (s ++ t) = balanced d t.
Proof.
  intros Hs Hd. induction Hs as [|c s Hc _ IH]; [done|]. cbn [app balanced].
  rewrite depth_step_plain by done. rewrite IH. by replace (0 <=? d) with true by lia.
Qed.

Lemma balanced_app d s t : balanced d s = true → balanced d (s ++ t) = balanced 0 t.
Proof.
  revert d. induction s as [|c s IH]; intros d; cbn [app balanced].
  - by intros ->%Z.eqb_eq.
  - intros [H1 H2]%andb_true_iff. by rewrite H1, IH.
Qed.

Lemma balanced_open d s : 0 <= d → balanced d (40%N :: s) = balanced (d + 1) s.
Proof.
  intros. cbn [balanced]. change (depth_step d 40) with (d + 1).
  by replace (0 <=? d + 1) with true by lia.
Qed.
Lemma balanced_close d s : 0 <= d → balanced (d + 1) (41%N :: s) = balanced d s.
Proof.
  intros. cbn [balanced]. change (depth_step (d + 1) 41) with (d + 1 - 1).
  replace (d + 1 - 1) with d by lia. by replace (0 <=? d) with true by lia.
Qed.

(** A balanced text within parentheses is passed over. *)
Lemma shield_inside u d k s t : balanced d s = true → 0 <= d → 0 < k →
  shield u (d + k) (s ++ t) = shield u k t.
Proof.
  intros Hb Hd Hk. revert d Hb Hd. induction s as [|c s IH]; intros d; cbn [app balanced shield].
  - by intros ->%Z.eqb_eq _.
  - intros [H1 H2]%andb_true_iff _.
    assert (depth_step (d + k) c = depth_step d c + k) as ->.
    { unfold depth_step. destruct (N.eqb c _), (N.eqb c _); lia. }
    rewrite IH by (done || lia). replace (_ =? 0) with false by lia. done.
Qed.

Lemma shield_parens u s : balanced 0 s = true → shield u 0 (40%N :: s ++ [41%N]) = true.
Proof.
  intros Hb. cbn [shield]. change (depth_step 0 40) with (0 + 1).
  rewrite shield_inside by (done || lia). done.
Qed.

Lemma balanced_inside d s : balanced d s = true → 0 <= d → balanced (d + 1) (s ++ [41%N]) = true.
Proof.
  revert d. induction s as [|c s IH]; intros d; cbn [app balanced].
  - intros ->%Z.eqb_eq _. done.
  - intros [H1 H2]%andb_true_iff Hd.
    assert (depth_step (d + 1) c = depth_step d c + 1) as ->
      by (unfold depth_step; destruct (N.eqb c _), (N.eqb c _); lia).
    rewrite IH by (done || lia). lia.
Qed.

Lemma balanced_parens s : balanced 0 s = true → balanced 0 (40%N :: s ++ [41%N]) = true.
Proof. intros H. rewrite balanced_open by lia. by apply balanced_inside. Qed.

(** A text without parentheses and without [u] outside them. *)
Lemma shield_plain u s t : Forall (λ c, no_paren c ∧ c ≠ u) s → next_is u t = false →
  shield u 0 (s ++ t) = shield u 0 t.
Proof.
  intros Hs Ht. induction Hs as [|c s [Hc Hcu] Hs IH]; [done|]. cbn [app shield].
  rewrite depth_step_plain, IH by done.
  replace (next_is u (s ++ t)) with false; [by rewrite andb_false_r|].
  destruct Hs as [|c' s [_ Hc'] Hs]; [done|]. simpl. symmetry. by apply N.eqb_neq.
Qed.

Lemma shield_group u s t : balanced 0 s = true →
  shield u 0 (40%N :: s ++ 41%N :: t) = shield u 0 t.
Proof.
  intros Hb. cbn [shield]. change (depth_step 0 40) with (0 + 1).
  rewrite shield_inside by (done || lia). done.
Qed.

(** ** Outer parentheses *)

Lemma full_parens_balanced d s : balanced d s = true → 0 <= d →
  full_parens (d + 1) (s ++ [41%N]) = true.
Proof.
  revert d. induction s as [|c s IH]; intros d; cbn [app balanced full_parens].
  - intros ->%Z.eqb_eq _. done.
  - intros [H1 H2]%andb_true_iff Hd. fold (depth_step (d + 1) c).
    assert (depth_step (d + 1) c = depth_step d c + 1) as ->.
    { unfold depth_step. destruct (N.eqb c _), (N.eqb c _); lia. }
    replace (_ =? 0) with false by lia. rewrite andb_false_l. apply IH; [done|lia].
Qed.

Lemma hasFullOuterParens_wrap s : balanced 0 s = true →
  hasFullOuterParens (40%N :: s ++ [41%N]) = true.
Proof.
  intros Hb. unfold hasFullOuterParens, endsWith.
  replace (rev (40%N :: s ++ [41%N])) with (41%N :: rev s ++ [40%N])
    by (simpl; by rewrite rev_app_distr).
  cbn -[full_parens Z.add]. cbn [full_parens]. fold (depth_step 0 40).
  change (depth_step 0 40) with (0 + 1). change (0 + 1 =? 0) with false.
  rewrite andb_false_l. apply full_parens_balanced; [done|lia].
Qed.

Lemma hasFullOuterParens_shape s : hasFullOuterParens s = true → ∃ t, s = 40%N :: t ++ [41%N].
Proof.
  unfold hasFullOuterParens, endsWith. change (js "(") with [40%N]. change (rev (js ")")) with [41%N].
  destruct (startsWith s [40%N]) eqn:E1; [|done].
  destruct (startsWith (rev s) [41%N]) eqn:E2; [|done]. intros _.
  apply startsWith_single in E1 as [t ->].
  apply startsWith_single in E2 as [q Hq].
  assert (40%N :: t = rev q ++ [41%N]) as E by by rewrite <- (rev_involutive (40%N :: t)), Hq.
  destruct (rev q) as [|c r] eqn:Er; [done|]. injection E as -> ->. by exists r.
Qed.

Lemma slice_inner s : slice (40%N :: s ++ [41%N]) 1 (-1) = s.
Proof.
  unfold slice. set (len := Z.of_nat (length (40%N :: s ++ [41%N]))).
  assert (Hlen : len = Z.of_nat (length s) + 2)
    by (unfold len; simpl length; rewrite length_app; simpl; lia).
  assert (rel_index len 1 = 1%nat) as -> by (unfold rel_index; simpl; lia).
  assert (rel_index len (-1) = S (length s)) as -> by (unfold rel_index; simpl; lia).
  cbn [drop]. rewrite drop_0. replace (S (length s) - 1)%nat with (length s) by lia.
  by rewrite take_app_length.
Qed.

Lemma length_trim s : (length (trim s) <= length s)%nat.
Proof.
  unfold trim, trim_end, trim_start. rewrite length_rev.
  destruct (drop_while_suffix is_space (rev (drop_while is_space s))) as (p & Hp & _).
  destruct (drop_while_suffix is_space s) as (q & Hq & _).
  apply (f_equal length) in Hp, Hq. rewrite length_app in Hp, Hq. rewrite length_rev in Hp. lia.
Qed.

(** Once the fuel reaches the length the loop has ended by its own condition. *)
Lemma unwrap_loop_done fuel s : (length s <= fuel)%nat → hasFullOuterParens (unwrap_loop fuel s) = false.
Proof.
  revert s. induction fuel as [|fuel IH]; intros s Hl; simpl.
  - by destruct s; [|simpl in Hl; lia].
  - destruct (hasFullOuterParens s) eqn:E; [|done]. apply hasFullOuterParens_shape in E as [t ->].
    apply IH. rewrite slice_inner. pose proof (length_trim t). simpl in Hl. rewrite length_app in Hl.
    simpl in Hl. lia.
Qed.

Lemma unwrap_loop_stable fuel s : (length s <= fuel)%nat →
  unwrap_loop fuel s = unwrap_loop (length s) s.
Proof.
  assert (Hgen : ∀ f1 f2 s, (length s <= f1)%nat → (length s <= f2)%nat →
    unwrap_loop f1 s = unwrap_loop f2 s); [|by intros; apply Hgen].
  induction f1 as [|f1 IH]; intros [|f2] t H1 H2; simpl; try done;
    try (destruct t; [done|simpl in *; lia]).
  destruct (hasFullOuterParens t) eqn:E; [|done]. apply hasFullOuterParens_shape in E as [r ->].
  rewrite slice_inner. pose proof (length_trim r). simpl in H1, H2. rewrite length_app in H1, H2.
  simpl in H1, H2. apply IH; lia.
Qed.

Lemma unwrapOuterParens_trimmed s : trimmed (unwrapOuterParens s).
Proof.
  unfold unwrapOuterParens. generalize (length s). intros n. pose proof (trim_trimmed s) as H.
  revert H. generalize (trim s). clear s. induction n as [|n IH]; intros s Hs; [done|].
  simpl. destruct (hasFullOuterParens s); [|done]. apply IH, trim_trimmed.
Qed.

Lemma unwrap_loop_id n s : hasFullOuterParens s = false → unwrap_loop n s = s.
Proof. intros H. destruct n; [done|]. simpl. by rewrite H. Qed.

Lemma unwrapOuterParens_wrap s : trimmed s → balanced 0 s = true →
  unwrapOuterParens (40%N :: s ++ [41%N]) = unwrapOuterParens s.
Proof.
  intros Ht Hb. unfold unwrapOuterParens at 1.
  rewrite (trim_id (40%N :: s ++ [41%N])).
  2: { split; [by intros c t [= <- _]|]. intros c t E.
       change (40%N :: s ++ [41%N]) with ((40%N :: s) ++ [41%N]) in E.
       by apply app_inj_tail in E as [_ <-]. }
  cbn [length unwrap_loop]. rewrite hasFullOuterParens_wrap by done.
  rewrite slice_inner, (trim_id s) by done. unfold unwrapOuterParens. rewrite (trim_id s) by done.
  rewrite (unwrap_loop_stable _ s) by (rewrite length_app; lia). done.
Qed.

(** Stripping outer parentheses ends by its own test, never by running out
    of turns: the result is trimmed, is not enclosed by a matching pair, and
    stripping it again changes nothing. *)
Theorem unwrap_outer_parens_done expr :
  let r := unwrapOuterParens expr in
  hasFullOuterParens r = false ∧ trimmed r ∧ unwrapOuterParens r = r.
Proof.
  simpl. assert (H : hasFullOuterParens (unwrapOuterParens expr) = false)
    by apply unwrap_loop_done, length_trim.
  split; [done|]. split; [apply unwrapOuterParens_trimmed|].
  unfold unwrapOuterParens at 1. rewrite (trim_id (unwrapOuterParens expr))
    by apply unwrapOuterParens_trimmed. by apply unwrap_loop_id.
Qed.

(** Splitting inverts joining: parts that are trimmed, non-empty, close
    the parentheses they open and hold no separator outside them come back
    from [splitTopLevelMultiply] and [splitTopLevelAnd] as they were, in
    order. *)
Theorem split_top_level_join ps qs :
  ps ≠ [] → Forall (part_ok (chr "*")) ps → qs ≠ [] → Forall (part_ok (chr "&")) qs →
  splitTopLevelMultiply (join (js " * ") ps) = ps ∧ splitTopLevelAnd (join (js " && ") qs) = qs.
Proof. split; [by apply splitTopLevelMultiply_join|by apply splitTopLevelAnd_join]. Qed.

Lemma split_top_level_join_witness :
  splitTopLevelMultiply (js "(a * b) * c") = [js "(a * b)"; js "c"] ∧
  splitTopLevelAnd (js "x && (y && z)") = [js "x"; js "(y && z)"].
Proof.
  apply (split_top_level_join [js "(a * b)"; js "c"] [js "x"; js "(y && z)"]);
    [done|by apply part_okb_ok|done|by apply part_okb_ok].
Defined.
