(* ===== verification/BillingRules.v ===== *)
(** * Request rules: reading back what the editor writes (billing-expr.ts)

    The printer [buildRequestRuleExpr] and the reader
    [tryParseRequestRuleExpr] are inverse on rule groups of plain text
    conditions; the comparison and containment conditions on parameters are
    the exception: what the printer writes for them the reader rejects. *)

From S2P Require Import Prelude JsNumber JsString JsRegex JsValue BillingExpr BillingSplit.

Open Scope Z_scope.

(** ** Running patterns on texts with literal parts *)

Ltac js_lits :=
  repeat match goal with
  | |- context [js_of_string ?s] => let v := eval vm_compute in (js_of_string s) in
      change (js_of_string s) with v
  end.

(** Texts as right-nested concatenations. *)
Ltac norm_app := repeat first [progress cbn [app] | rewrite <- app_assoc].

Section Lits.
Context {A : Type}.
Implicit Types (k : mstate → option A).

Lemma rmatch_lit p k b s cs :
  rmatch (lit_units p) k (MState b s cs) =
  match strip_prefix p s with Some t => k (MState (rev p ++ b) t cs) | None => None end.
Proof.
  revert b s. induction p as [|c p IH]; intros b s; [done|].
  assert (E : rmatch (lit_units (c :: p)) k (MState b s cs) =
    rmatch (lit_unit c) (rmatch (lit_units p) k) (MState b s cs)) by by destruct p.
  rewrite E. unfold lit_unit. destruct s as [|d s]; [done|].
  rewrite rmatch_chr_cons, IH. cbn [strip_prefix rev]. rewrite <- app_assoc. cbn [app].
  by destruct (N.eqb_spec c d) as [->|].
Qed.

Lemma rmatch_alt r1 r2 k st : rmatch (Alt r1 r2) k st = orelse (rmatch r1 k st) (rmatch r2 k st).
Proof. done. Qed.
Lemma rmatch_eol k b s cs :
  rmatch Eol k (MState b s cs) = match s with [] => k (MState b s cs) | _ => None end.
Proof. done. Qed.
Lemma rmatch_eps k st : rmatch Eps k st = k st.
Proof. done. Qed.

Lemma rmatch_quoted_arg i k b p t cs : p ≠ [] → Forall (λ c, c ≠ 34%N) p →
  rmatch (quoted_arg i) k (MState b (40%N :: 34%N :: p ++ 34%N :: 41%N :: t) cs) =
  k (MState (41%N :: 34%N :: rev p ++ 34%N :: 40%N :: b) t ((i, p) :: cs)).
Proof.
  intros Hne Hp. unfold quoted_arg. cbn [Seqs foldr].
  rewrite rmatch_seq. unfold Lit. js_lits. rewrite rmatch_lit. cbn [strip_prefix N.eqb Pos.eqb rev app].
  rewrite rmatch_seq, rmatch_chr_cons. cbn [quote_unit N.eqb Pos.eqb].
  rewrite rmatch_seq, rmatch_grp_plus_run.
  - rewrite rmatch_seq, rmatch_chr_cons. cbn [quote_unit N.eqb Pos.eqb].
    rewrite rmatch_seq, rmatch_lit. by cbn [strip_prefix N.eqb Pos.eqb rev app].
  - done.
  - eapply Forall_impl; [exact Hp|]. intros c Hc. unfold none_of, quote_unit.
    rewrite bool_decide_eq_false_2; [done|set_solver].
  - done.
  - intros b' c t' cs' Hc. rewrite rmatch_seq, rmatch_chr_cons.
    destruct (N.eqb_spec quote_unit c) as [<-|]; done.
Qed.

(** Units of numbers stop at anything else. *)
Lemma rmatch_number i k b p t cs :
  p ≠ [] → Forall (λ c, number_unit c = true) p →
  match t with [] => True | c :: _ => number_unit c = false end →
  (∀ b' c t' cs', number_unit c = true → k (MState b' (c :: t') cs') = None) →
  rmatch (number_grp i) k (MState b (p ++ t) cs) = k (MState (rev p ++ b) t ((i, p) :: cs)).
Proof. apply rmatch_grp_plus_run. Qed.
End Lits.

Definition kfin (s : jstr) (st : mstate) : option rmatchres :=
  Some (RMatch [] (consumed (MState [] s []) st) (caps st) (ahead st)).

Lemma re_exec_bol r s : re_exec (Seqs (Bol :: r)) s = rmatch (Seqs r) (kfin s) (MState [] s []).
Proof. change (Seqs (Bol :: r)) with (Seq Bol (Seqs r)). by rewrite re_exec_anchored. Qed.

(** ** Texts *)

(** Units that need no escape, are no parenthesis and no part of a logical
    operator. *)
Definition plain_unit (c : N) : bool :=
  (32 <=? c)%N && (c <? 55296)%N && negb (bool_decide (c ∈ [34; 92; 40; 41; 38; 124; 8232; 8233]%N)).

Definition plain (s : jstr) : Prop := Forall (λ c, plain_unit c = true) s.

Lemma plain_unit_spec c : plain_unit c = true → (32 <= c < 55296)%N ∧ c ≠ 34%N ∧ c ≠ 92%N ∧
  c ≠ 40%N ∧ c ≠ 41%N ∧ c ≠ 38%N ∧ c ≠ 124%N ∧ c ≠ 8232%N ∧ c ≠ 8233%N.
Proof.
  unfold plain_unit. intros [H Hn]%andb_true_iff. apply negb_true_iff, bool_decide_eq_false in Hn.
  rewrite !not_elem_of_cons in Hn. split; [lia|]. tauto.
Qed.

Lemma json_quote_plain s : plain s → json_quote s = 34%N :: s ++ [34%N].
Proof.
  intros Hs. unfold json_quote. f_equal. f_equal.
  induction Hs as [|c s Hc _ IH]; [done|]. apply plain_unit_spec in Hc. cbn [quote_body].
  assert (escape_unit c = None) as ->.
  { unfold escape_unit. repeat (case_bool; [lia|]). done. }
  assert (is_lead c = false) as -> by (unfold is_lead; lia).
  assert (is_trail c = false) as -> by (unfold is_trail; lia). by f_equal.
Qed.

Lemma number_unit_spec c : number_unit c = true → (48 <= c <= 57)%N ∨ c ∈ [46; 101; 69; 43; 45]%N.
Proof.
  unfold number_unit, one_of, is_digit. intros [H|H]%orb_true_iff; [left; lia|right].
  by apply bool_decide_eq_true in H.
Qed.

Lemma number_unit_plain c : number_unit c = true → plain_unit c = true ∧ is_space c = false ∧ c ≠ 32%N.
Proof.
  intros [H|H]%number_unit_spec.
  - split; [|unfold is_space; split; lia]. unfold plain_unit.
    rewrite bool_decide_eq_false_2 by (rewrite !not_elem_of_cons; repeat split; try lia; apply not_elem_of_nil).
    lia.
  - rewrite !elem_of_cons, elem_of_nil in H. destruct_or?; subst; done.
Qed.

(** ** What a pattern can consume *)

Fixpoint regex_over (P : N → Prop) (r : regex) : Prop :=
  match r with
  | Chr f => ∀ c, f c = true → P c
  | Seq r1 r2 | Alt r1 r2 => regex_over P r1 ∧ regex_over P r2
  | Star _ r | Grp _ r => regex_over P r
  | Ref _ => False
  | Eps | Bol | Eol | WordB => True
  end.

Lemma Mr_units P r st st' : Mr r st st' → regex_over P r →
  ∃ p, ahead st = p ++ ahead st' ∧ Forall P p.
Proof.
  induction 1; cbn [regex_over]; try (intros; by exists []).
  - intros HP. exists [c]. split; [done|]. constructor; [auto|constructor].
  - intros [H1 H2]. destruct IHMr1 as (p & E1 & ?); [done|]. destruct IHMr2 as (q & E2 & ?); [done|].
    exists (p ++ q). rewrite E1, E2, app_assoc. split; [done|]. by apply Forall_app.
  - intros [? _]. auto.
  - intros [_ ?]. auto.
  - intros HP. destruct IHMr1 as (p & E1 & ?); [done|]. destruct IHMr2 as (q & E2 & ?); [done|].
    exists (p ++ q). rewrite E1, E2, app_assoc. split; [done|]. by apply Forall_app.
  - done.
Qed.

Lemma Mr_seqs_eol rs st st' : Mr (Seqs (rs ++ [Eol])) st st' → ahead st' = [].
Proof.
  revert st. induction rs as [|r rs IH]; intros st.
  - by intros (st1 & [? ->]%Mr_eol_iff & ->%Mr_eps_iff)%Mr_seq_iff.
  - intros (st1 & _ & ?)%Mr_seq_iff. by eapply IH.
Qed.

(** A pattern anchored at both ends admits only texts over its units. *)
Lemma re_test_over P rs s : regex_over P (Seqs (rs ++ [Eol])) →
  re_test (Seqs (Bol :: rs ++ [Eol])) s = true → Forall P s.
Proof.
  intros HP (st' & (st1 & [_ ->]%Mr_bol_iff & HM)%Mr_seq_iff)%(re_test_anchored (Seqs (rs ++ [Eol]))).
  destruct (Mr_units P _ _ _ HM HP) as (p & E & Hp). apply Mr_seqs_eol in HM.
  rewrite HM, app_nil_r in E. simpl in E. by subst.
Qed.

Lemma number_units_sub P : (∀ c, number_unit c = true → P c) →
  (∀ c, is_digit c = true → P c) ∧ P 45%N ∧ P 46%N ∧ (∀ c, one_of (js "eE") c = true → P c) ∧
  (∀ c, one_of (js "+-") c = true → P c).
Proof.
  intros HP. split; [intros c Hc; apply HP; unfold number_unit; by rewrite Hc|].
  split; [by apply HP|]. split; [by apply HP|]. unfold one_of. js_lits.
  split; intros c Hc%bool_decide_eq_true; rewrite !elem_of_cons, elem_of_nil in Hc;
    destruct_or?; subst; by apply HP.
Qed.

Lemma numericLiteral_units s : numericLiteral s = true →
  s ≠ [] ∧ Forall (λ c, number_unit c = true) s.
Proof.
  intros H. split; [by intros ->|]. eapply (re_test_over _ (removelast (tail [Bol; Opt (Lit "-");
        Alt (Seqs [Plus Digit; Opt (Lit "."); Star true Digit]) (Seq (Lit ".") (Plus Digit));
        Opt (Seqs [Chr (one_of (js "eE")); Opt (Chr (one_of (js "+-"))); Plus Digit]); Eol]))), H.
  destruct (number_units_sub (λ c, number_unit c = true)) as (Hd & Hm & Hp & He & Hs); [done|].
  cbn -[number_unit js_of_string one_of is_digit N.eqb].
  repeat split; try done; intros c ?%N.eqb_eq; by subst.
Qed.

(** ** Reading one condition *)

Section Tries.
Context {A : Type}.
Implicit Types (k : mstate → option A).

(** A captured choice between literals, tried in order. *)
Fixpoint try_lits (ls : list jstr) (i : nat) k b s cs : option A :=
  match ls with
  | [] => None
  | l :: ls =>
      orelse (match strip_prefix l s with
              | Some t => k (MState (rev l ++ b) t ((i, l) :: cs))
              | None => None
              end) (try_lits ls i k b s cs)
  end.

Lemma orelse_None_r (a : option A) : orelse a None = a.
Proof. by destruct a. Qed.
Lemma orelse_assoc (a b c : option A) : orelse (orelse a b) c = orelse a (orelse b c).
Proof. by destruct a. Qed.

Lemma consumed_app b p t cs b' cs' : consumed (MState b (p ++ t) cs) (MState b' t cs') = p.
Proof.
  unfold consumed. cbn [ahead]. rewrite length_app.
  replace (_ - _)%nat with (length p) by lia. apply take_app_length.
Qed.

Lemma rmatch_try_lits l ls i k b s cs :
  rmatch (Grp i (Alts (map lit_units (l :: ls)))) k (MState b s cs) = try_lits (l :: ls) i k b s cs.
Proof.
  rewrite rmatch_grp. set (k' := λ st', k (set_cap i (consumed (MState b s cs) st') st')).
  assert (Hone : ∀ p, rmatch (lit_units p) k' (MState b s cs) =
    match strip_prefix p s with Some t => k (MState (rev p ++ b) t ((i, p) :: cs)) | None => None end).
  { intros p. rewrite rmatch_lit. destruct (strip_prefix p s) as [t|] eqn:E; [|done].
    apply strip_prefix_Some in E as ->. unfold k', set_cap. cbn [behind ahead caps].
    by rewrite consumed_app. }
  assert (Hgen : ∀ ls r, rmatch (fold_left Alt (map lit_units ls) r) k' (MState b s cs) =
    orelse (rmatch r k' (MState b s cs)) (try_lits ls i k b s cs)).
  { clear l ls. induction ls as [|l ls IH]; intros r; simpl; [by rewrite orelse_None_r|].
    rewrite IH, rmatch_alt, Hone, orelse_assoc. done. }
  cbn [map Alts]. rewrite Hgen, Hone. done.
Qed.
End Tries.

Lemma timefunc_try {A} (k : mstate → option A) b s cs :
  rmatch timefunc_re k (MState b s cs) = try_lits TIME_FUNCS 1 k b s cs.
Proof. apply (rmatch_try_lits (js "hour")). Qed.

(** The forms of a source: a name and a quoted path. *)
Definition call (f : jstr) (p : jstr) (t : jstr) : jstr := f ++ 40%N :: 34%N :: p ++ 34%N :: 41%N :: t.

Record path_ok (p : jstr) : Prop := {
  path_nonempty : p ≠ [];
  path_trimmed : trimmed p;
  path_plain : plain p
}.

Lemma path_no_quote p : path_ok p → Forall (λ c, c ≠ 34%N) p.
Proof. intros [_ _ H]. eapply Forall_impl; [exact H|]. intros c Hc. by apply plain_unit_spec in Hc as (_ & ? & _). Qed.

Lemma quoted_arg_path {A} i (k : mstate → option A) b p t cs : path_ok p →
  rmatch (quoted_arg i) k (MState b (40%N :: 34%N :: p ++ 34%N :: 41%N :: t) cs) =
  k (MState (41%N :: 34%N :: rev p ++ 34%N :: 40%N :: b) t ((i, p) :: cs)).
Proof. intros Hp. apply rmatch_quoted_arg; [by destruct Hp|by apply path_no_quote]. Qed.

(** Texts that start like a source have no time condition. *)
Lemma no_time f t : f ∈ [js "param"; js "header"; js "has"] → tryParseTimeCondition (f ++ 40%N :: t) = None.
Proof.
  intros Hf. unfold tryParseTimeCondition. unfold range_re, range_paren_re, time_cmp_re.
  rewrite !elem_of_cons, elem_of_nil in Hf.
  destruct Hf as [-> | [-> | [-> | []]]];
    rewrite !re_exec_bol; reflexivity.
Qed.

(** Runs a pattern over literals and quoted paths. *)
Ltac run_lit := rewrite rmatch_seq; unfold Lit; js_lits; rewrite rmatch_lit;
  cbn [strip_prefix N.eqb Pos.eqb rev app].
Ltac run_re X := unfold X; rewrite re_exec_bol; cbn [Seqs foldr];
  repeat first [run_lit | rewrite rmatch_seq, quoted_arg_path by done]; cbn [same_path]; cbn iota.

Section PathConditions.
Context (p : jstr) (Hp : path_ok p).

Lemma parse_header_exists :
  tryParseRequestCondition (call (js "header") p (js " != " ++ [34; 34]%N))
    = Ret (Some (ph Header p MATCH_EXISTS [])).
Proof.
  unfold tryParseRequestCondition, call. rewrite no_time by set_solver.
  js_lits. cbn [app]. by run_re header_exists_re.
Qed.

Lemma parse_param_exists :
  tryParseRequestCondition (call (js "param") p (js " != nil")) = Ret (Some (ph Param p MATCH_EXISTS [])).
Proof.
  unfold tryParseRequestCondition, call. rewrite no_time by set_solver.
  js_lits. cbn [app]. run_re header_exists_re. by run_re param_exists_re.
Qed.

(** The literal of an equality, for either source. *)
Lemma parse_eq src lit : lit ≠ [] → Forall (λ c, dot_unit c = true) lit →
  tryParseRequestCondition
    (call (match src with Param => js "param" | Header => js "header" end) p (js " == " ++ lit)) =
  match parseExprLiteral lit with
  | None => Ret None
  | Some v => Ret (Some (ph src p MATCH_EQ (to_string v)))
  end.
Proof.
  intros Hne Hlit. unfold tryParseRequestCondition, call. rewrite no_time by (destruct src; set_solver).
  assert (Hend : ∀ {A} (k : mstate → option A) b cs,
    rmatch (Seq (Grp 3 (Plus (Chr dot_unit))) (Seq Eol Eps)) k (MState b lit cs) =
    k (MState (rev lit ++ b) [] ((3%nat, lit) :: cs))).
  { intros A k b cs. rewrite rmatch_seq. rewrite <- (app_nil_r lit) at 1.
    by rewrite rmatch_grp_plus_run. }
  destruct src; js_lits; cbn [app]; run_re header_exists_re; run_re param_exists_re;
    run_re header_contains_re; run_re param_contains_re; run_re param_cmp_re.
  - unfold eq_re. rewrite re_exec_bol. cbn [Seqs foldr]. rewrite rmatch_seq.
    rewrite (rmatch_try_lits (js "param") [js "header"]). js_lits.
    cbn [try_lits strip_prefix N.eqb Pos.eqb rev app]. rewrite orelse_None_r.
    rewrite rmatch_seq, quoted_arg_path by done. run_lit. rewrite Hend. reflexivity.
  - unfold eq_re. rewrite re_exec_bol. cbn [Seqs foldr]. rewrite rmatch_seq.
    rewrite (rmatch_try_lits (js "param") [js "header"]). js_lits.
    cbn [try_lits strip_prefix N.eqb Pos.eqb rev app]. rewrite orelse_None_r. cbn [orelse].
    rewrite rmatch_seq, quoted_arg_path by done. run_lit. rewrite Hend. reflexivity.
Qed.
End PathConditions.

(** A repetition whose body reads one unit at a time. *)
Lemma star_loop_units {A} (mr : (mstate → option A) → mstate → option A) k b p t cs n :
  (∀ k b c s, c ∈ p → mr k (MState b (c :: s) cs) = k (MState (c :: b) s cs)) →
  (∀ k b, mr k (MState b t cs) = None) → (length p <= n)%nat →
  (∀ p1 c p2, p = p1 ++ c :: p2 → k (MState (rev p1 ++ b) (c :: p2 ++ t) cs) = None) →
  star_loop mr true k n (MState b (p ++ t) cs) = k (MState (rev p ++ b) t cs).
Proof.
  intros Hc Ht. revert b n. induction p as [|c p IH]; intros b n Hn Hk.
  - destruct n as [|n]; [done|]. cbn [star_loop app rev]. by rewrite Ht.
  - destruct n as [|n]; [simpl in Hn; lia|]. cbn [star_loop app]. rewrite Hc by left. cbn [ahead].
    replace (_ <? _)%nat with true by (symmetry; apply Nat.ltb_lt; simpl; lia).
    rewrite IH; [|intros; apply Hc; by right|simpl in Hn; lia|].
    + pose proof (Hk [] c p eq_refl) as H0. cbn [rev app] in H0 |- *. rewrite H0, <- app_assoc.
      cbn [app]. apply orelse_None_r.
    + intros p1 d p2 ->. specialize (Hk (c :: p1) d p2 eq_refl). simpl in Hk.
      by rewrite <- app_assoc in Hk.
Qed.

Lemma json_text_run {A} (k : mstate → option A) i b v t cs : plain v →
  rmatch (Grp i json_text_re) k (MState b (34%N :: v ++ 34%N :: t) cs) =
  k (MState (34%N :: rev v ++ 34%N :: b) t ((i, 34%N :: v ++ [34%N]) :: cs)).
Proof.
  intros Hv. rewrite rmatch_grp. unfold json_text_re. cbn [Seqs foldr].
  rewrite rmatch_seq, rmatch_chr_cons. cbn [quote_unit N.eqb Pos.eqb]. rewrite rmatch_seq.
  change (rmatch (Star true ?r) ?k' (MState ?b' ?s ?cs')) with
    (star_loop (rmatch r) true k' (length s) (MState b' s cs')).
  assert (Hvs : ∀ c, c ∈ v → c ≠ 34%N ∧ c ≠ 92%N).
  { intros c Hc. unfold plain in Hv. rewrite Forall_forall in Hv. apply Hv in Hc.
    by apply plain_unit_spec in Hc as (_ & ? & ? & _). }
  unfold Lit. js_lits. rewrite star_loop_units.
  - rewrite rmatch_seq, rmatch_chr_cons. cbn [quote_unit N.eqb Pos.eqb]. rewrite rmatch_eps.
    unfold set_cap. cbn [behind ahead caps].
    replace (34%N :: v ++ 34%N :: t) with ((34%N :: v ++ [34%N]) ++ t) by (simpl; by rewrite <- app_assoc).
    by rewrite consumed_app.
  - intros k' b' c s Hc. apply Hvs in Hc as [H1 H2]. rewrite rmatch_alt, rmatch_chr_cons.
    unfold none_of. rewrite bool_decide_eq_false_2 by set_solver. cbn [negb].
    rewrite rmatch_seq, rmatch_lit. cbn [strip_prefix].
    replace (92 =? c)%N with false by (symmetry; apply N.eqb_neq; congruence). apply orelse_None_r.
  - done.
  - rewrite length_app. lia.
  - intros p1 c p2 ->. destruct (Hvs c) as [H1 H2]; [set_solver|]. rewrite rmatch_seq, rmatch_chr_cons.
    by replace (quote_unit =? c)%N with false by (symmetry; apply N.eqb_neq; unfold quote_unit; congruence).
Qed.

Lemma plain_utf16 s : plain s → utf16_ok s.
Proof.
  intros H. eapply Forall_impl; [exact H|]. intros c Hc.
  apply plain_unit_spec in Hc as [? _]. simpl. lia.
Qed.

Lemma parsed_text_quote v : plain v → parsed_text (34%N :: v ++ [34%N]) = Ret v.
Proof.
  intros Hv. unfold parsed_text. rewrite <- json_quote_plain by done.
  by rewrite json_parse_quote by by apply plain_utf16.
Qed.

Lemma parse_header_contains p v : path_ok p → plain v →
  tryParseRequestCondition
    (js "has(" ++ call (js "header") p (js ", " ++ 34%N :: v ++ 34%N :: js ")")) =
  Ret (Some (ph Header p MATCH_CONTAINS v)).
Proof.
  intros Hp Hv. unfold tryParseRequestCondition, call.
  change (js "has(" ++ ?x) with (js "has" ++ 40%N :: x). rewrite no_time by set_solver.
  js_lits. cbn [app]. run_re header_exists_re. run_re param_exists_re. run_re header_contains_re.
  rewrite rmatch_seq, json_text_run by done. run_lit.
  transitivity (w ← parsed_text (34%N :: v ++ [34%N]); Ret (Some (ph Header p MATCH_CONTAINS w)));
    [reflexivity|by rewrite parsed_text_quote].
Qed.

(** ** Time conditions *)

Record number_ok (s : jstr) : Prop := {
  number_nonempty : s ≠ [];
  number_units : Forall (λ c, number_unit c = true) s
}.

Lemma number_last {A} i (k : mstate → option A) b s cs : number_ok s →
  rmatch (Seq (number_grp i) (Seq Eol Eps)) k (MState b s cs) =
  k (MState (rev s ++ b) [] ((i, s) :: cs)).
Proof.
  intros [Hne Hs]. rewrite rmatch_seq. rewrite <- (app_nil_r s) at 1. by rewrite rmatch_number.
Qed.

Lemma timefunc_pick {A} fn (k : mstate → option A) b t cs : fn ∈ TIME_FUNCS →
  rmatch timefunc_re k (MState b (fn ++ 40%N :: t) cs) =
  k (MState (rev fn ++ b) (40%N :: t) ((1%nat, fn) :: cs)).
Proof.
  intros Hf. rewrite timefunc_try. unfold TIME_FUNCS in Hf |- *.
  rewrite !elem_of_cons, elem_of_nil in Hf.
  destruct Hf as [-> | [-> | [-> | [-> | [-> | []]]]]]; js_lits;
    cbn [try_lits app strip_prefix N.eqb Pos.eqb]; by destruct (k _).
Qed.

Lemma timefunc_head fn : fn ∈ TIME_FUNCS → ∃ c f, fn = c :: f ∧ c ≠ 40%N.
Proof.
  unfold TIME_FUNCS. rewrite !elem_of_cons, elem_of_nil. js_lits.
  intros [-> | [-> | [-> | [-> | [-> | []]]]]]; by do 2 eexists.
Qed.

(** A number, then a literal that starts with a space. *)
Lemma number_then {A} i (k : mstate → option A) l r b s t cs : number_ok s →
  match t with [] => True | c :: _ => number_unit c = false end →
  rmatch (Seq (number_grp i) (Seq (lit_units (32%N :: l)) r)) k (MState b (s ++ t) cs) =
  rmatch (Seq (lit_units (32%N :: l)) r) k (MState (rev s ++ b) t ((i, s) :: cs)).
Proof.
  intros [Hne Hs] Ht. rewrite rmatch_seq. apply rmatch_number; [done|done|done|].
  intros b' c t' cs' Hc. rewrite rmatch_seq, rmatch_lit. cbn [strip_prefix].
  apply number_unit_plain in Hc as (_ & _ & Hc). by destruct (N.eqb_spec 32 c); [congruence|].
Qed.

Definition time_ops : list jstr := [js "=="; js ">="; js "<"].

Lemma time_op_pick {A} op (k : mstate → option A) r b t cs : op ∈ time_ops →
  rmatch (Seq (Grp 3 (Alts [Lit "=="; Lit ">="; Lit "<"])) (Seq (Lit " ") r)) k
    (MState b (op ++ 32%N :: t) cs) =
  rmatch r k (MState (32%N :: rev op ++ b) t ((3%nat, op) :: cs)).
Proof.
  intros Hop. rewrite rmatch_seq. rewrite (rmatch_try_lits (js "==") [js ">="; js "<"]).
  unfold time_ops in Hop. rewrite !elem_of_cons, elem_of_nil in Hop.
  destruct Hop as [-> | [-> | [-> | []]]]; js_lits;
    cbn [try_lits app strip_prefix N.eqb Pos.eqb]; rewrite rmatch_seq; unfold Lit; js_lits;
    rewrite rmatch_lit; cbn [strip_prefix N.eqb Pos.eqb]; by destruct (rmatch r _ _).
Qed.

Lemma parse_time_cmp fn tz op v : fn ∈ TIME_FUNCS → path_ok tz → op ∈ time_ops → number_ok v →
  tryParseTimeCondition (call fn tz (32%N :: op ++ 32%N :: v)) =
  Some (CTime {| tc_timeFunc := fn; tc_timezone := tz; tc_mode := time_op_mode op; tc_value := v;
                 tc_rangeStart := []; tc_rangeEnd := [] |}).
Proof.
  intros Hfn Htz Hop Hv. unfold tryParseTimeCondition, call.
  assert (re_exec range_re (fn ++ 40%N :: 34%N :: tz ++ 34%N :: 41%N :: 32%N :: op ++ 32%N :: v) = None) as ->.
  { unfold range_re, range_body. rewrite re_exec_bol. cbn [Seqs foldr].
    rewrite !rmatch_seq, timefunc_pick by done. rewrite rmatch_seq, quoted_arg_path by done.
    unfold time_ops in Hop. rewrite !elem_of_cons, elem_of_nil in Hop.
    destruct Hop as [-> | [-> | [-> | []]]]; js_lits; cbn [app]; run_lit; [done| |done].
    unfold Lit. js_lits. rewrite <- (app_nil_r v), number_then by done. done. }
  assert (re_exec range_paren_re (fn ++ 40%N :: 34%N :: tz ++ 34%N :: 41%N :: 32%N :: op ++ 32%N :: v) = None) as ->.
  { destruct (timefunc_head fn Hfn) as (c & f & -> & Hc). unfold range_paren_re.
    rewrite re_exec_bol. cbn [Seqs foldr]. rewrite rmatch_seq. unfold Lit. js_lits. rewrite rmatch_lit.
    cbn [app strip_prefix]. by destruct (N.eqb_spec 40 c); [congruence|]. }
  unfold time_cmp_re. rewrite re_exec_bol. cbn [Seqs foldr].
  rewrite rmatch_seq, timefunc_pick by done. rewrite rmatch_seq, quoted_arg_path by done. run_lit.
  change (lit_units [32%N]) with (Lit " ").
  rewrite time_op_pick by done. rewrite number_last by done. reflexivity.
Qed.

Definition range_text (fn tz s e t : jstr) : jstr :=
  call fn tz (js " >= " ++ s ++ js " || " ++ call fn tz (js " < " ++ e ++ t)).

Lemma rmatch_ref {A} i p (k : mstate → option A) b t cs : cap_lookup i cs = Some p →
  rmatch (Ref i) k (MState b (p ++ t) cs) = k (MState (rev p ++ b) t cs).
Proof. intros H. cbn [rmatch caps]. by rewrite H, read_app. Qed.

Lemma range_body_run {A} fn tz s e t (k : mstate → option A) b :
  fn ∈ TIME_FUNCS → path_ok tz → number_ok s → number_ok e →
  match t with [] => True | c :: _ => number_unit c = false end →
  (∀ b' c t' cs', number_unit c = true → k (MState b' (c :: t') cs') = None) →
  ∃ b', rmatch range_body k (MState b (range_text fn tz s e t) []) =
    k (MState b' t [(4%nat, e); (3%nat, s); (2%nat, tz); (1%nat, fn)]).
Proof.
  intros Hfn Htz Hs He Ht Hk. eexists. unfold range_body, range_text, call. cbn [Seqs foldr].
  rewrite rmatch_seq, timefunc_pick by done. rewrite rmatch_seq, quoted_arg_path by done.
  js_lits. cbn [app]. run_lit. rewrite number_then by done.
  rewrite rmatch_seq, rmatch_lit. cbn [strip_prefix N.eqb Pos.eqb].
  rewrite rmatch_seq, (rmatch_ref 1 fn) by done.
  run_lit. rewrite rmatch_seq, rmatch_chr_cons. cbn [quote_unit N.eqb Pos.eqb].
  rewrite rmatch_seq, (rmatch_ref 2 tz) by done.
  rewrite rmatch_seq, rmatch_chr_cons. cbn [quote_unit N.eqb Pos.eqb].
  run_lit. run_lit. destruct He. rewrite rmatch_seq, rmatch_number by done. reflexivity.
Qed.

Lemma parse_range fn tz s e : fn ∈ TIME_FUNCS → path_ok tz → number_ok s → number_ok e →
  let c := CTime {| tc_timeFunc := fn; tc_timezone := tz; tc_mode := MATCH_RANGE; tc_value := [];
                    tc_rangeStart := s; tc_rangeEnd := e |} in
  tryParseTimeCondition (range_text fn tz s e []) = Some c ∧
  tryParseTimeCondition (40%N :: range_text fn tz s e [41%N]) = Some c.
Proof.
  intros Hfn Htz Hs He c. unfold tryParseTimeCondition. split.
  - unfold range_re. rewrite re_exec_bol. cbn [Seqs foldr]. rewrite rmatch_seq.
    by destruct (range_body_run fn tz s e [] (rmatch (Seq Eol Eps) (kfin (range_text fn tz s e []))) [])
      as [b' ->].
  - unfold range_re at 1. rewrite re_exec_bol. cbn [Seqs foldr]. rewrite rmatch_seq.
    assert (∀ k : mstate → option rmatchres, rmatch range_body k
      (MState [] (40%N :: range_text fn tz s e [41%N]) []) = None) as ->
      by (intros k; unfold range_body; cbn [Seqs foldr]; rewrite rmatch_seq, timefunc_try; done).
    unfold range_paren_re. rewrite re_exec_bol. cbn [Seqs foldr]. run_lit. rewrite rmatch_seq.
    set (k := rmatch _ (kfin _)).
    destruct (range_body_run fn tz s e [41%N] k [40%N]) as [b' ->]; try done.
    intros b1 d t' cs' Hd. unfold k. rewrite rmatch_seq, rmatch_lit. cbn [strip_prefix].
    apply number_unit_plain in Hd as (Hd & _ & _). apply plain_unit_spec in Hd.
    by destruct (N.eqb_spec 41 d); [lia|].
Qed.

(** ** Conditions that are read back *)

Inductive cond_ok : RequestCondition → Prop :=
  | ok_time_cmp fn tz mode v :
      fn ∈ TIME_FUNCS → path_ok tz → mode ∈ [MATCH_EQ; MATCH_GTE; MATCH_LT] →
      numericLiteral v = true →
      cond_ok (CTime {| tc_timeFunc := fn; tc_timezone := tz; tc_mode := mode; tc_value := v;
                        tc_rangeStart := []; tc_rangeEnd := [] |})
  | ok_time_range fn tz s e :
      fn ∈ TIME_FUNCS → path_ok tz → numericLiteral s = true → numericLiteral e = true →
      cond_ok (CTime {| tc_timeFunc := fn; tc_timezone := tz; tc_mode := MATCH_RANGE; tc_value := [];
                        tc_rangeStart := s; tc_rangeEnd := e |})
  | ok_exists src p : path_ok p → cond_ok (ph src p MATCH_EXISTS [])
  | ok_contains p v : path_ok p → plain v → trimmed v → cond_ok (ph Header p MATCH_CONTAINS v)
  | ok_eq src p v : path_ok p → plain v → trimmed v → cond_ok (ph src p MATCH_EQ v).

(** A text free of logical operators, balanced, trimmed and not empty. *)
Record text_ok (t : jstr) : Prop := {
  text_units : 38%N ∉ t;
  text_balanced : balanced 0 t = true;
  text_trimmed : trimmed t;
  text_nonempty : t ≠ []
}.

Lemma shield_absent u d t : u ∉ t → balanced d t = true → shield u d t = true.
Proof.
  revert d. induction t as [|c t IH]; intros d; cbn [balanced shield]; [done|].
  rewrite not_elem_of_cons. intros [Hc Ht] [_ Hb]%andb_true_iff. rewrite IH by done.
  replace (next_is u t) with false; [by rewrite !andb_false_r|].
  destruct t as [|d' t]; [done|]. cbn [next_is]. symmetry. apply N.eqb_neq. set_solver.
Qed.

Lemma number_ok_trimmed v : number_ok v → trimmed v.
Proof.
  intros [_ H]. apply trimmed_no_space. eapply Forall_impl; [exact H|]. intros c Hc.
  by apply number_unit_plain in Hc as (_ & ? & _).
Qed.

Lemma number_ok_plain v : number_ok v → plain v.
Proof.
  intros [_ H]. eapply Forall_impl; [exact H|]. intros c Hc.
  by apply number_unit_plain in Hc as (? & _).
Qed.

Lemma numericLiteral_ok v : numericLiteral v = true → number_ok v.
Proof. intros H. by split; apply numericLiteral_units in H as [? ?]. Qed.

Lemma plain_no_paren s : plain s → Forall no_paren s.
Proof.
  intros H. eapply Forall_impl; [exact H|]. intros c Hc. apply plain_unit_spec in Hc.
  split; lia.
Qed.

Lemma plain_absent s c : plain s → plain_unit c = false → c ∉ s.
Proof. intros H Hc Hin. unfold plain in H. rewrite Forall_forall in H. apply H in Hin. congruence. Qed.

Lemma balanced_call f p t : Forall no_paren f → plain p → balanced 0 (call f p t) = balanced 0 t.
Proof.
  intros Hf Hp. unfold call. rewrite balanced_plain, balanced_open by (done || lia).
  change (34%N :: p ++ 34%N :: 41%N :: t) with ([34%N] ++ (p ++ 34%N :: 41%N :: t)).
  rewrite balanced_plain by (lia || by repeat constructor).
  rewrite balanced_plain by (lia || by apply plain_no_paren).
  change (34%N :: 41%N :: t) with ([34%N] ++ 41%N :: t).
  rewrite balanced_plain by (lia || by repeat constructor). by apply balanced_close.
Qed.

(** The units of a call outside its path and rest. *)
Lemma call_absent u f p t : u ∉ f → u ∉ p → u ∉ t → u ∉ [40; 34; 41]%N → u ∉ call f p t.
Proof. unfold call. set_solver. Qed.

Lemma call_nonempty f p t : f ≠ [] → call f p t ≠ [].
Proof. by destruct f. Qed.

Lemma call_trimmed f p m v : f ≠ [] → trimmed f → v ≠ [] → trimmed v → trimmed (call f p (m ++ v)).
Proof.
  intros. unfold call.
  replace (f ++ 40%N :: 34%N :: p ++ 34%N :: 41%N :: m ++ v)
    with (f ++ (40%N :: 34%N :: p ++ 34%N :: 41%N :: m) ++ v) by (simpl; by rewrite <- app_assoc).
  by apply trimmed_mid.
Qed.

(** *** Literals of an equality *)

Record lit_ok (v lit : jstr) : Prop := {
  lit_nonempty : lit ≠ [];
  lit_trimmed : trimmed lit;
  lit_dot : Forall (λ c, dot_unit c = true) lit;
  lit_no_paren : Forall no_paren lit;
  lit_absent c : c ∈ [38; 124]%N → c ∉ lit;
  lit_read : ∃ w, parseExprLiteral lit = Some w ∧ to_string w = v
}.

Lemma plain_dot s : plain s → Forall (λ c, dot_unit c = true) s.
Proof.
  intros H. eapply Forall_impl; [exact H|]. intros c Hc. apply plain_unit_spec in Hc.
  unfold dot_unit. lia.
Qed.

Lemma quoted_not_numeric v : numericLiteral (34%N :: v ++ [34%N]) = false.
Proof.
  destruct (numericLiteral _) eqn:E; [|done]. apply numericLiteral_units in E as [_ E].
  by inversion E.
Qed.

Lemma quoted_trimmed v : trimmed (34%N :: v ++ [34%N]).
Proof. apply (trimmed_mid [34%N] v [34%N]); [done|done|by apply trimmed_b..]. Qed.

Lemma bare_literal_ok v : plain v → trimmed v → v ≠ [] →
  str_eqb v (js "true") || str_eqb v (js "false") || numericLiteral v = true → lit_ok v v.
Proof.
  intros Hv Ht Hne Hlit. split; [done|done|by apply plain_dot|by apply plain_no_paren| |].
  - intros c Hc. apply plain_absent; [done|]. rewrite !elem_of_cons, elem_of_nil in Hc.
    by destruct Hc as [-> | [-> | []]].
  - exists (JStr v). split; [|done]. unfold parseExprLiteral. rewrite trim_id by done.
    fold (numericLiteral v). destruct (str_eqb v _), (str_eqb v _); [done..|]. simpl in Hlit.
    by rewrite Hlit.
Qed.

Lemma quoted_literal_ok v : plain v → lit_ok v (34%N :: v ++ [34%N]).
Proof.
  intros Hv.
  assert (Hall : ∀ P : N → Prop, P 34%N → Forall P v → Forall P (34%N :: v ++ [34%N])).
  { intros P H1 H2. constructor; [done|]. apply Forall_app. by repeat constructor. }
  split; [done|apply quoted_trimmed|by apply Hall, plain_dot|by apply Hall, plain_no_paren| |].
  - intros c Hc Hin. assert (c ∉ v); [|assert (c ≠ 34%N); [|set_solver]].
    + apply plain_absent; [done|]. rewrite !elem_of_cons, elem_of_nil in Hc.
      by destruct Hc as [-> | [-> | []]].
    + rewrite !elem_of_cons, elem_of_nil in Hc. by destruct Hc as [-> | [-> | []]].
  - exists (JStr v). split; [|done]. unfold parseExprLiteral.
    rewrite trim_id by apply quoted_trimmed. fold (numericLiteral (34%N :: v ++ [34%N])).
    rewrite quoted_not_numeric, <- json_quote_plain by done.
    rewrite json_parse_quote by by apply plain_utf16. done.
Qed.

Lemma buildExprLiteral_ok v : plain v → trimmed v → lit_ok v (buildExprLiteral MATCH_EQ v).
Proof.
  intros Hv Ht. unfold buildExprLiteral. rewrite trim_id by done.
  change (str_eqb MATCH_EQ MATCH_CONTAINS) with false. cbn iota.
  destruct (str_eqb v (js "true") || str_eqb v (js "false")) eqn:E1.
  { apply bare_literal_ok; [done|done|by intros ->|by rewrite E1]. }
  destruct (numericLiteral v) eqn:E2.
  { apply bare_literal_ok; [done|done|by intros ->|by rewrite E1, E2]. }
  rewrite json_quote_plain by done. by apply quoted_literal_ok.
Qed.

(** *** Texts of whole conditions *)

Lemma includes_or_absent t : 124%N ∉ t → includes t (js " || ") = false.
Proof.
  intros H. unfold includes. destruct (index_of t _) eqn:E; [|done].
  apply index_of_split in E as (a & b & -> & _); [|done]. exfalso. apply H. js_lits. set_solver.
Qed.

Record cond_text (c : RequestCondition) (t : jstr) : Prop := {
  ct_build : buildRequestConditionExpr c = t;
  ct_text : text_ok t;
  ct_read : tryParseRequestCondition t = Ret (Some c);
  ct_wrap : includes t (js " || ") = false ∨
            tryParseRequestCondition (40%N :: t ++ [41%N]) = Ret (Some c)
}.

Lemma path_quote p : path_ok p → json_quote p = 34%N :: p ++ [34%N].
Proof. intros [_ _ H]. by apply json_quote_plain. Qed.

Lemma path_absent p u : path_ok p → plain_unit u = false → u ∉ p.
Proof. intros [_ _ H]. by apply plain_absent. Qed.

Definition src_name (src : PHSource) : jstr :=
  match src with Param => js "param" | Header => js "header" end.

Ltac concrete_absent := apply (bool_decide_unpack (_ ∉ _)); vm_compute; exact I.

Lemma src_name_facts src : src_name src ≠ [] ∧ trimmed (src_name src) ∧ Forall no_paren (src_name src) ∧
  (38%N ∉ src_name src) ∧ (124%N ∉ src_name src).
Proof. destruct src; (split; [done|split; [by apply trimmed_b|split; [by repeat constructor|]]]); split; concrete_absent. Qed.

Lemma call_text_ok f p m v : f ≠ [] → trimmed f → Forall no_paren f → 38%N ∉ f → path_ok p →
  38%N ∉ m ++ v → Forall no_paren (m ++ v) → v ≠ [] → trimmed v → text_ok (call f p (m ++ v)).
Proof.
  intros Hf1 Hf2 Hf3 Hf4 Hp Hmv Hpar Hv1 Hv2. split.
  - apply call_absent; [done|by apply path_absent|done|set_solver].
  - rewrite balanced_call by (done || by apply path_plain).
    rewrite <- (app_nil_r (m ++ v)). by rewrite balanced_plain.
  - by apply call_trimmed.
  - by apply call_nonempty.
Qed.

Lemma exists_text src p : path_ok p → ∃ t, cond_text (ph src p MATCH_EXISTS []) t.
Proof.
  intros Hp. pose proof Hp as [Hne Ht _]. destruct (src_name_facts src) as (F1 & F2 & F3 & F4 & F5).
  set (tail := match src with Header => [34; 34]%N | Param => js "nil" end).
  exists (call (src_name src) p (js " != " ++ tail)). split.
  - unfold buildRequestConditionExpr. destruct src;
      first [change (normalizeCondition _) with (ph Param p MATCH_EXISTS [])
            |change (normalizeCondition _) with (ph Header p MATCH_EXISTS [])];
      unfold ph, phText; cbn [ph_path ph_mode ph_source]; rewrite trim_id, path_quote by done;
      (destruct p as [|c p]; [done|]); unfold call; js_lits; cbn [str_truthy negb app src_name];
      change (str_eqb MATCH_EXISTS MATCH_EXISTS) with true; cbn [app]; rewrite <- ?app_assoc; done.
  - apply call_text_ok; try done; unfold tail; destruct src;
      solve [concrete_absent | by repeat constructor | by apply trimmed_b].
  - destruct src; [by apply parse_param_exists|by apply parse_header_exists].
  - left. apply includes_or_absent. apply call_absent; [done|by apply path_absent| |set_solver].
    unfold tail. destruct src; concrete_absent.
Qed.

Definition contains_form (p v : jstr) : jstr :=
  js "has(" ++ call (js "header") p (js ", " ++ 34%N :: v ++ 34%N :: js ")").

Lemma contains_absent p v u : path_ok p → plain v → u ∈ [38; 124]%N → u ∉ contains_form p v.
Proof.
  intros Hp Hv Hu. rewrite !elem_of_cons, elem_of_nil in Hu. unfold contains_form.
  assert ((u ∉ v) ∧ (u ∉ p)) as [? ?].
  { destruct Hu as [-> | [-> | []]]; (split; [by apply plain_absent|by apply path_absent]). }
  rewrite not_elem_of_app. split; [destruct Hu as [-> | [-> | []]]; concrete_absent|].
  apply call_absent; [|done| |]; try (destruct Hu as [-> | [-> | []]]; concrete_absent).
  rewrite not_elem_of_app, not_elem_of_cons, not_elem_of_app, not_elem_of_cons.
  repeat split; try done; destruct Hu as [-> | [-> | []]]; try concrete_absent; done.
Qed.

Lemma contains_balanced p v : plain p → plain v → balanced 0 (contains_form p v) = true.
Proof.
  intros Hp Hv. unfold contains_form, call. js_lits. cbn [app].
  change (104%N :: 97%N :: 115%N :: ?x) with ([104; 97; 115]%N ++ x).
  rewrite balanced_plain, balanced_open by (lia || by repeat constructor).
  change (104%N :: 101%N :: 97%N :: 100%N :: 101%N :: 114%N :: ?x)
    with ([104; 101; 97; 100; 101; 114]%N ++ x).
  rewrite balanced_plain, balanced_open by (lia || by repeat constructor).
  change (34%N :: p ++ ?x) with ([34%N] ++ p ++ x).
  rewrite balanced_plain by (lia || by repeat constructor).
  rewrite balanced_plain by (lia || by apply plain_no_paren).
  change (34%N :: 41%N :: ?x) with ([34%N] ++ 41%N :: x) at 1.
  rewrite balanced_plain, balanced_close by (lia || by repeat constructor).
  change (44%N :: 32%N :: 34%N :: ?x) with ([44; 32; 34]%N ++ x).
  rewrite balanced_plain by (lia || by repeat constructor).
  by rewrite balanced_plain by (lia || by apply plain_no_paren).
Qed.

Lemma contains_trimmed p v : trimmed (contains_form p v).
Proof.
  replace (contains_form p v)
    with (js "has(" ++ call (js "header") p (js ", " ++ 34%N :: v ++ [34%N]) ++ js ")").
  - apply trimmed_mid; [done|done|by apply trimmed_b..].
  - unfold contains_form, call. js_lits. cbn [app]. by norm_app.
Qed.

Lemma contains_text p v : path_ok p → plain v → trimmed v → ∃ t, cond_text (ph Header p MATCH_CONTAINS v) t.
Proof.
  intros Hp Hv Hvt. pose proof Hp as [Hne Ht Hpl]. exists (contains_form p v). split.
  - unfold buildRequestConditionExpr.
    change (normalizeCondition _) with (ph Header p MATCH_CONTAINS v).
    unfold ph, phText, buildExprLiteral; cbn [ph_path ph_mode ph_source ph_value].
    rewrite !trim_id, path_quote by done. destruct p as [|c p]; [done|].
    change (str_eqb MATCH_CONTAINS MATCH_CONTAINS) with true.
    change (str_eqb MATCH_CONTAINS MATCH_EXISTS) with false. cbn iota.
    rewrite json_quote_plain by done. unfold contains_form, call. js_lits. cbn [str_truthy negb app].
    by norm_app.
  - split; [apply contains_absent; (done || set_solver)|by apply contains_balanced
           |apply contains_trimmed|done].
  - by apply parse_header_contains.
  - left. apply includes_or_absent, contains_absent; (done || set_solver).
Qed.

Lemma eq_text src p v : path_ok p → plain v → trimmed v → ∃ t, cond_text (ph src p MATCH_EQ v) t.
Proof.
  intros Hp Hv Hvt. pose proof Hp as [Hne Ht Hpl].
  destruct (src_name_facts src) as (F1 & F2 & F3 & F4 & F5).
  destruct (buildExprLiteral_ok v Hv Hvt) as [L1 L2 L3 L4 L5 (w & L6 & L7)].
  set (lit := buildExprLiteral MATCH_EQ v) in *.
  exists (call (src_name src) p (js " == " ++ lit)).
  assert (Habs : ∀ u, u ∈ [38; 124]%N → u ∉ js " == " ++ lit).
  { intros u Hu. rewrite not_elem_of_app. split; [|by apply L5].
    rewrite !elem_of_cons, elem_of_nil in Hu. destruct Hu as [-> | [-> | []]]; concrete_absent. }
  split.
  - unfold buildRequestConditionExpr. destruct src;
      first [change (normalizeCondition _) with (ph Param p MATCH_EQ v)
            |change (normalizeCondition _) with (ph Header p MATCH_EQ v)];
      unfold ph, phText; cbn [ph_path ph_mode ph_source ph_value]; fold lit;
      rewrite trim_id, path_quote by done; (destruct p as [|c p]; [done|]);
      change (str_eqb MATCH_EQ MATCH_EXISTS) with false;
      change (str_eqb MATCH_EQ MATCH_CONTAINS) with false;
      change (bool_decide (MATCH_EQ ∈ _)) with false; cbn iota;
      unfold call; js_lits; cbn [str_truthy negb app src_name]; rewrite <- ?app_assoc; done.
  - apply call_text_ok; [done|done|done|done|done|apply Habs; set_solver| |done|done].
    apply Forall_app. split; [by repeat constructor|done].
  - unfold src_name. by rewrite (parse_eq p Hp src lit L1 L3), L6, L7.
  - left. apply includes_or_absent, call_absent; [done|by apply path_absent|apply Habs; set_solver|set_solver].
Qed.

Lemma timefunc_facts fn : fn ∈ TIME_FUNCS →
  fn ≠ [] ∧ trimmed fn ∧ Forall no_paren fn ∧ (38%N ∉ fn) ∧ isTimeFunc (Some fn) = true.
Proof.
  intros Hf. assert (isTimeFunc (Some fn) = true) as Ht by by apply bool_decide_eq_true.
  unfold TIME_FUNCS in Hf. rewrite !elem_of_cons, elem_of_nil in Hf.
  destruct Hf as [-> | [-> | [-> | [-> | [-> | []]]]]];
    (split; [done|split; [by apply trimmed_b|split; [by repeat constructor|split; [concrete_absent|done]]]]).
Qed.

Lemma parse_time_condition t c : tryParseTimeCondition t = Some c → tryParseRequestCondition t = Ret (Some c).
Proof. intros H. unfold tryParseRequestCondition. by rewrite H. Qed.

Lemma normalize_time fn tz mode v s e : fn ∈ TIME_FUNCS → tz ≠ [] →
  mode ∈ [MATCH_EQ; MATCH_GTE; MATCH_LT; MATCH_RANGE] →
  let t := {| tc_timeFunc := fn; tc_timezone := tz; tc_mode := mode; tc_value := v;
              tc_rangeStart := s; tc_rangeEnd := e |} in
  buildTimeConditionExpr t = timeText t.
Proof.
  intros Hfn Htz Hm t. unfold buildTimeConditionExpr, normalizeCondition, partial_of, t.
  cbn [pc_source tc_mode tc_value tc_timeFunc tc_timezone tc_rangeStart tc_rangeEnd pc_timeFunc
       pc_timezone pc_mode pc_value pc_rangeStart pc_rangeEnd default].
  rewrite bool_decide_eq_true_2 by done. destruct (timefunc_facts fn Hfn) as (_ & _ & _ & _ & ->).
  replace (str_or tz _) with tz by by destruct tz.
  replace (offered_mode SOURCE_TIME (Some mode) MATCH_GTE) with mode; [done|].
  rewrite !elem_of_cons, elem_of_nil in Hm. by destruct Hm as [-> | [-> | [-> | [-> | []]]]].
Qed.

Lemma time_cmp_text fn tz mode v : fn ∈ TIME_FUNCS → path_ok tz →
  mode ∈ [MATCH_EQ; MATCH_GTE; MATCH_LT] → numericLiteral v = true →
  ∃ t, cond_text (CTime {| tc_timeFunc := fn; tc_timezone := tz; tc_mode := mode; tc_value := v;
                           tc_rangeStart := []; tc_rangeEnd := [] |}) t.
Proof.
  intros Hfn Htz Hm Hv. destruct (timefunc_facts fn Hfn) as (F1 & F2 & F3 & F4 & _).
  pose proof Hv as Hvo%numericLiteral_ok. pose proof (number_ok_plain v Hvo) as Hvp.
  assert (Hop : ∃ op, op ∈ time_ops ∧ time_mode_op mode = op ∧ time_op_mode op = mode ∧
    str_eqb mode MATCH_RANGE = false).
  { rewrite !elem_of_cons, elem_of_nil in Hm. unfold time_ops.
    destruct Hm as [-> | [-> | [-> | []]]]; eexists; (split; [|split; [reflexivity|done]]); set_solver. }
  destruct Hop as (op & Hop & Hmo & Hom & Hnr).
  assert (Hopf : Forall no_paren op ∧ (38%N ∉ op) ∧ (124%N ∉ op)).
  { unfold time_ops in Hop. rewrite !elem_of_cons, elem_of_nil in Hop.
    destruct Hop as [-> | [-> | [-> | []]]];
      (split; [by repeat constructor|split; concrete_absent]). }
  destruct Hopf as (O1 & O2 & O3).
  assert (Habs : ∀ u, u ∈ [38; 124]%N → u ∉ (32%N :: op ++ [32%N]) ++ v).
  { intros u Hu. rewrite !elem_of_cons, elem_of_nil in Hu.
    assert ((u ∉ v) ∧ (u ∉ op)) as [? ?]
      by (destruct Hu as [-> | [-> | []]]; (split; [by apply plain_absent|done])).
    destruct Hu as [-> | [-> | []]]; set_solver. }
  exists (call fn tz ((32%N :: op ++ [32%N]) ++ v)). split.
  - unfold buildRequestConditionExpr. rewrite normalize_time; [|done|by destruct Htz|set_solver].
    unfold timeText. cbn [tc_timeFunc tc_timezone tc_mode tc_value].
    rewrite Hnr, trim_id by by apply number_ok_trimmed. rewrite Hv, Hmo, path_quote by done.
    unfold call. js_lits. cbn [negb app]. by norm_app.
  - apply call_text_ok; [done..|apply Habs; set_solver| |by destruct Hvo|by apply number_ok_trimmed].
    apply Forall_app. split; [|by apply plain_no_paren]. constructor; [done|].
    apply Forall_app. split; [done|by repeat constructor].
  - apply parse_time_condition. cbn [app]. rewrite <- app_assoc. cbn [app].
    rewrite parse_time_cmp by done. by rewrite Hom.
  - left. apply includes_or_absent, call_absent; [|by apply path_absent|apply Habs; set_solver|set_solver].
    unfold TIME_FUNCS in Hfn. rewrite !elem_of_cons, elem_of_nil in Hfn.
    destruct Hfn as [-> | [-> | [-> | [-> | [-> | []]]]]]; concrete_absent.
Qed.

Lemma range_build fn tz s e : path_ok tz → number_ok s → number_ok e →
  numericLiteral s = true → numericLiteral e = true →
  timeText {| tc_timeFunc := fn; tc_timezone := tz; tc_mode := MATCH_RANGE; tc_value := [];
              tc_rangeStart := s; tc_rangeEnd := e |} = range_text fn tz s e [].
Proof.
  intros Htz Hs He Hs' He'. unfold timeText. cbn [tc_timeFunc tc_timezone tc_mode tc_rangeStart tc_rangeEnd].
  rewrite !trim_id by by apply number_ok_trimmed. rewrite Hs', He', path_quote by done.
  change (str_eqb MATCH_RANGE MATCH_RANGE) with true. cbn [negb orb].
  unfold range_text, call. js_lits. rewrite app_nil_r. cbn [app]. by norm_app.
Qed.

Lemma range_text_ok fn tz s e : fn ∈ TIME_FUNCS → path_ok tz → number_ok s → number_ok e →
  text_ok (range_text fn tz s e []).
Proof.
  intros Hfn Htz Hs He. destruct (timefunc_facts fn Hfn) as (F1 & F2 & F3 & F4 & _).
  pose proof (number_ok_plain s Hs) as Hsp. pose proof (number_ok_plain e He) as Hep.
  pose proof (path_plain tz Htz) as Htp.
  unfold range_text. rewrite app_nil_r. split.
  - apply call_absent; [done|by apply path_absent| |set_solver].
    rewrite !not_elem_of_app. split; [concrete_absent|]. split; [by apply plain_absent|].
    split; [concrete_absent|]. apply call_absent; [done|by apply path_absent| |set_solver].
    rewrite not_elem_of_app. split; [concrete_absent|by apply plain_absent].
  - rewrite balanced_call by done. rewrite balanced_plain by (lia || by repeat constructor).
    rewrite balanced_plain by (lia || by apply plain_no_paren).
    rewrite balanced_plain by (lia || by repeat constructor). rewrite balanced_call by done.
    rewrite balanced_plain by (lia || by repeat constructor).
    rewrite <- (app_nil_r e). by rewrite balanced_plain by (lia || by apply plain_no_paren).
  - rewrite !app_assoc. apply call_trimmed; [done|done|by apply call_nonempty|].
    apply call_trimmed; [done|done|by destruct He|by apply number_ok_trimmed].
  - by apply call_nonempty.
Qed.

Lemma time_range_text fn tz s e : fn ∈ TIME_FUNCS → path_ok tz →
  numericLiteral s = true → numericLiteral e = true →
  ∃ t, cond_text (CTime {| tc_timeFunc := fn; tc_timezone := tz; tc_mode := MATCH_RANGE; tc_value := [];
                           tc_rangeStart := s; tc_rangeEnd := e |}) t.
Proof.
  intros Hfn Htz Hs He. pose proof Hs as Hso%numericLiteral_ok. pose proof He as Heo%numericLiteral_ok.
  exists (range_text fn tz s e []). destruct (parse_range fn tz s e Hfn Htz Hso Heo) as [P1 P2]. split.
  - unfold buildRequestConditionExpr. rewrite normalize_time; [|done|by destruct Htz|set_solver].
    by apply range_build.
  - by apply range_text_ok.
  - by apply parse_time_condition.
  - right. apply parse_time_condition.
    replace (range_text fn tz s e [] ++ [41%N]) with (range_text fn tz s e [41%N]); [done|].
    unfold range_text, call. rewrite app_nil_r. js_lits. cbn [app].
    by norm_app.
Qed.

Lemma cond_ok_text c : cond_ok c → ∃ t, cond_text c t.
Proof.
  destruct 1; [by apply time_cmp_text|by apply time_range_text|by apply exists_text
              |by apply contains_text|by apply eq_text].
Qed.

(** ** Factors *)

Definition factor_text (inner mult : jstr) : jstr := js "(" ++ inner ++ js " ? " ++ mult ++ js " : 1)".

Definition factor_end (inner mult : jstr) : mstate :=
  MState (rev (factor_text inner mult)) [] [(2%nat, mult); (1%nat, inner)].

Lemma Mr_factor_inv s st' : Mr factor_re (start s) st' →
  ∃ inner mult, number_ok mult ∧ s = factor_text inner mult ∧ st' = factor_end inner mult.
Proof.
  unfold factor_re, Lit, number_grp. cbn [Seqs foldr].
  intros (s0 & [_ ->]%Mr_bol_iff & (s1 & (t1 & E1 & ->)%Mr_lit_units &
    (s2 & (s2' & (p & t2 & E2 & Hp & _ & ->)%Mr_plus_chr & ->)%Mr_grp_iff &
    (s3 & (t3 & E3 & ->)%Mr_lit_units & (s4 & (s4' & (n & t4 & E4 & Hn & Hnu & ->)%Mr_plus_chr & ->)%Mr_grp_iff &
    (s5 & (t5 & E5 & ->)%Mr_lit_units & (s6 & [E6 ->]%Mr_eol_iff & ->%Mr_eps_iff)%Mr_seq_iff)%Mr_seq_iff
    )%Mr_seq_iff)%Mr_seq_iff)%Mr_seq_iff)%Mr_seq_iff)%Mr_seq_iff.
  rewrite consumed_after in * by done. rewrite consumed_after in * by done.
  cbn [start ahead after set_cap behind caps] in *. subst. exists p, n.
  split; [by split|]. unfold factor_text, factor_end. rewrite app_nil_r. split; [done|].
  unfold set_cap, after, start. cbn [behind ahead caps]. unfold factor_text.
  rewrite !rev_app_distr, app_nil_r. by rewrite <- !app_assoc.
Qed.

Lemma Mr_factor inner mult : inner ≠ [] → number_ok mult →
  Mr factor_re (start (factor_text inner mult)) (factor_end inner mult).
Proof.
  intros Hi [Hm Hmu]. unfold factor_re, Lit, number_grp, factor_text, factor_end. cbn [Seqs foldr].
  apply Mr_seq_iff. eexists. split; [by apply Mr_bol_iff|].
  apply Mr_seq_iff. eexists. split; [by apply Mr_lit_units; eexists|].
  apply Mr_seq_iff. eexists. split.
  { apply Mr_grp_iff. eexists. split; [|reflexivity]. apply Mr_plus_chr. exists inner. eexists.
    split; [reflexivity|]. split; [done|]. split; [by apply Forall_true|reflexivity]. }
  apply Mr_seq_iff. eexists. split; [by apply Mr_lit_units; eexists|].
  apply Mr_seq_iff. eexists. split.
  { apply Mr_grp_iff. eexists. split; [|reflexivity]. apply Mr_plus_chr. exists mult. eexists.
    split; [reflexivity|]. split; [done|]. split; [done|reflexivity]. }
  apply Mr_seq_iff. eexists. split; [apply Mr_lit_units; exists []; by rewrite app_nil_r|].
  apply Mr_seq_iff. eexists. split; [by apply Mr_eol_iff|]. apply Mr_eps_iff.
  rewrite !consumed_after by done. unfold set_cap, after, start. cbn [behind ahead caps].
  unfold factor_text. rewrite !rev_app_distr, app_nil_r. by rewrite <- !app_assoc.
Qed.

Lemma number_no_space n : number_ok n → 32%N ∉ n.
Proof.
  intros [_ H] Hin. rewrite Forall_forall in H. by apply H in Hin.
Qed.

Lemma factor_text_inj i1 m1 i2 m2 : number_ok m1 → number_ok m2 →
  factor_text i1 m1 = factor_text i2 m2 → i1 = i2 ∧ m1 = m2.
Proof.
  intros Hm1 Hm2 E. unfold factor_text in E. apply app_inv_head in E.
  rewrite !(app_assoc i1), !(app_assoc i2), !(app_assoc (i1 ++ _)), !(app_assoc (i2 ++ _)) in E.
  apply app_inv_tail in E. revert E. js_lits.
  change [32; 63; 32]%N with ([32; 63]%N ++ [32%N]). rewrite !app_assoc, <- !(app_assoc _ [32%N]).
  cbn [app]. intros (E & _ & ->)%not_elem_of_app_cons_inv_r; [|by apply number_no_space..].
  by apply app_inv_tail in E as ->.
Qed.

Lemma factor_exec inner mult : inner ≠ [] → number_ok mult →
  ∃ m, re_exec factor_re (factor_text inner mult) = Some m ∧ group0 m 1 = inner ∧ group0 m 2 = mult.
Proof.
  intros Hi Hm. eexists. split.
  - change factor_re with (Seq Bol (Seqs (tail [Bol; Lit "("; Grp 1 (Plus (Chr any_unit)); Lit " ? ";
      number_grp 2; Lit " : 1)"; Eol]))). rewrite re_exec_anchored. apply match_at_unique.
    + by apply Mr_factor.
    + intros st2 (i & n & Hn & E & ->)%Mr_factor_inv. by apply factor_text_inj in E as [-> ->].
  - done.
Qed.

(** ** Groups and rule lists *)

Record group_ok (g : RequestRuleGroup) : Prop := {
  group_conds : conditions g ≠ [];
  group_conds_ok : Forall cond_ok (conditions g);
  group_mult : numericLiteral (multiplier g) = true
}.

(** The text of a condition among several. *)
Definition wrapped (e : jstr) : jstr := if includes e (js " || ") then js "(" ++ e ++ js ")" else e.

Definition combined (ts : list jstr) : jstr :=
  match ts with [e] => e | _ => join (js " && ") (map wrapped ts) end.

Lemma conds_texts cs : Forall cond_ok cs → ∃ ts, Forall2 cond_text cs ts.
Proof.
  induction 1 as [|c cs (t & Ht)%cond_ok_text _ [ts IH]]; [by exists []|].
  exists (t :: ts). by constructor.
Qed.

Lemma text_part_ok t : text_ok t → part_ok (chr "&") t.
Proof. intros [? ? ? ?]. split; [by apply shield_absent|done|done]. Qed.

Lemma wrapped_facts c t : cond_text c t →
  part_ok (chr "&") (wrapped t) ∧ balanced 0 (wrapped t) = true ∧
  tryParseRequestCondition (wrapped t) = Ret (Some c).
Proof.
  intros [_ Ht Hr Hw]. unfold wrapped. destruct (includes t (js " || ")) eqn:E.
  - destruct Hw as [|Hw]; [done|]. pose proof Ht as [? Hb ? ?].
    change (js "(" ++ t ++ js ")") with (40%N :: t ++ [41%N]). split; [split|split; [|done]].
    + by apply shield_parens.
    + apply (trimmed_mid [40%N] t [41%N]); [done|done|by apply trimmed_b..].
    + done.
    + by apply balanced_parens.
  - split; [by apply text_part_ok|]. by destruct Ht.
Qed.

Lemma balanced_join u ps : Forall (λ p, balanced 0 p = true) ps → Forall no_paren u →
  balanced 0 (join u ps) = true.
Proof.
  intros Hps Hu. induction Hps as [|p ps Hp Hps IH]; [done|].
  destruct ps as [|q ps]; [done|]. rewrite join_cons, balanced_app by done.
  by rewrite balanced_plain by (done || lia).
Qed.

Lemma trimmed_join (u : jstr) ps : ps ≠ [] → Forall (λ p, trimmed p ∧ p ≠ []) ps →
  trimmed (join u ps) ∧ join u ps ≠ [].
Proof.
  intros Hne Hps. induction Hps as [|p ps [Hp Hp'] Hps IH]; [done|].
  destruct ps as [|q ps]; [done|]. destruct IH as [IH1 IH2]; [done|]. rewrite join_cons.
  split; [by apply trimmed_mid|by destruct p].
Qed.

Lemma wrapped_all cs ts : Forall2 cond_text cs ts →
  Forall (part_ok (chr "&")) (map wrapped ts) ∧ Forall (λ p, balanced 0 p = true) (map wrapped ts) ∧
  parseConditions (map wrapped ts) = Ret (Some cs).
Proof.
  induction 1 as [|c t cs ts Ht _ (I1 & I2 & I3)]; [done|].
  destruct (wrapped_facts c t Ht) as (W1 & W2 & W3). cbn [map].
  split; [by constructor|]. split; [by constructor|]. cbn [parseConditions].
  rewrite trim_id by by destruct W1. rewrite W3. simpl. by rewrite I3.
Qed.

Lemma combined_facts cs ts : cs ≠ [] → Forall2 cond_text cs ts →
  balanced 0 (combined ts) = true ∧ trimmed (combined ts) ∧ combined ts ≠ [] ∧
  parseConditions (splitTopLevelAnd (combined ts)) = Ret (Some cs).
Proof.
  intros Hne H. destruct (wrapped_all cs ts H) as (W1 & W2 & W3).
  assert (Hone : ∀ c t, cond_text c t → balanced 0 t = true ∧ trimmed t ∧ t ≠ [] ∧
    parseConditions (splitTopLevelAnd t) = Ret (Some [c])).
  { intros c t [_ Ht Hr _]. pose proof Ht as [? ? ? ?]. split; [done|]. split; [done|]. split; [done|].
    change t with (join (js " && ") [t]) at 1.
    rewrite splitTopLevelAnd_join by (done || by repeat constructor; apply text_part_ok).
    cbn [parseConditions]. rewrite trim_id, Hr by done. done. }
  destruct H as [|c t cs ts Ht Hts]; [done|]. destruct Hts as [|c' t' cs ts Ht' Hts]; [by apply Hone|].
  unfold combined. split; [apply balanced_join; [done|by repeat constructor]|].
  rewrite splitTopLevelAnd_join by done.
  destruct (trimmed_join (js " && ") (map wrapped (t :: t' :: ts))) as [? ?]; [done| |done].
  eapply Forall_impl; [exact W1|]. by intros p [].
Qed.

Lemma factor_part inner mult : balanced 0 inner = true → number_ok mult →
  part_ok (chr "*") (factor_text inner mult).
Proof.
  intros Hi Hm.
  replace (factor_text inner mult) with (40%N :: (inner ++ js " ? " ++ mult ++ js " : 1") ++ [41%N])
    by (unfold factor_text; js_lits; by norm_app).
  split; [apply shield_parens| |done].
  - rewrite balanced_app by done. rewrite balanced_plain by (lia || by repeat constructor).
    by rewrite balanced_plain by (lia || by apply plain_no_paren, number_ok_plain).
  - apply (trimmed_mid [40%N] _ [41%N]); [done|done|by apply trimmed_b..].
Qed.

(** A rule list of one printed factor is split into that factor. *)
Lemma parse_single_factor g inner mult : balanced 0 inner = true → number_ok mult →
  buildRuleGroupFactor g = factor_text inner mult →
  tryParseRequestRuleExpr (buildRequestRuleExpr [g]) = parseFactors [factor_text inner mult].
Proof.
  intros Hi Hm E. destruct (factor_part inner mult Hi Hm) as [F1 F2 F3].
  unfold buildRequestRuleExpr. cbn [map]. rewrite E.
  rewrite filter_id by by constructor. cbn [join].
  unfold tryParseRequestRuleExpr. rewrite trim_id by done.
  change (factor_text inner mult) with (join (js " * ") [factor_text inner mult]) at 2.
  rewrite splitTopLevelMultiply_join; [done|done|]. apply Forall_cons. by split; [split|].
Qed.

Lemma group_factor g : group_ok g →
  part_ok (chr "*") (buildRuleGroupFactor g) ∧ tryParseRuleGroupFactor (buildRuleGroupFactor g) = Ret (Some g).
Proof.
  intros [Hc Hok Hm]. destruct (conds_texts _ Hok) as [ts Hts].
  destruct (combined_facts _ _ Hc Hts) as (B1 & B2 & B3 & B4).
  pose proof Hm as Hmo%numericLiteral_ok.
  assert (Ebuild : buildRuleGroupFactor g = factor_text (combined ts) (multiplier g)).
  { unfold buildRuleGroupFactor. rewrite trim_id, Hm by by apply number_ok_trimmed. cbn [negb].
    assert (map buildRequestConditionExpr (conditions g) = ts) as ->.
    { clear -Hts. induction Hts as [|c t cs ts [E _ _ _] _ IH]; [done|]. simpl. by rewrite E, IH. }
    rewrite filter_id.
    2: { clear -Hts. induction Hts as [|c t cs ts [_ [] _ _] _ IH]; by constructor. }
    destruct Hts as [|c t cs ts Ht Hts]; [done|]. by destruct Hts. }
  rewrite Ebuild. split.
  - by apply factor_part.
  - unfold tryParseRuleGroupFactor.
    destruct (factor_exec (combined ts) (multiplier g) B3 Hmo) as (m & -> & -> & ->).
    rewrite B4. destruct g as [cs mult]. cbn [conditions multiplier] in *. simpl. by destruct cs.
Qed.

Lemma groups_parsed gs : Forall group_ok gs →
  Forall (part_ok (chr "*")) (map buildRuleGroupFactor gs) ∧
  parseFactors (map buildRuleGroupFactor gs) = Ret (Some gs).
Proof.
  induction 1 as [|g gs Hg _ [I1 I2]]; [done|]. destruct (group_factor g Hg) as [G1 G2].
  cbn [map]. split; [by constructor|]. cbn [parseFactors]. rewrite G2. simpl. by rewrite I2.
Qed.

Lemma rules_text gs : Forall group_ok gs → gs ≠ [] →
  buildRequestRuleExpr gs = join (js " * ") (map buildRuleGroupFactor gs) ∧
  trimmed (buildRequestRuleExpr gs) ∧ buildRequestRuleExpr gs ≠ [].
Proof.
  intros Hgs Hne. destruct (groups_parsed gs Hgs) as [P1 _]. unfold buildRequestRuleExpr.
  rewrite filter_id by (eapply Forall_impl; [exact P1|]; by intros p []). split; [done|].
  apply trimmed_join; [by destruct gs|]. eapply Forall_impl; [exact P1|]. by intros p [].
Qed.

Lemma rules_roundtrip groups : Forall group_ok groups →
  tryParseRequestRuleExpr (buildRequestRuleExpr groups) = Ret (Some groups).
Proof.
  intros Hgs. destruct (decide (groups = [])) as [->|Hne]; [done|].
  destruct (rules_text groups Hgs Hne) as (E & Ht & Hn). destruct (groups_parsed groups Hgs) as [P1 P2].
  unfold tryParseRequestRuleExpr. rewrite trim_id by done.
  destruct (buildRequestRuleExpr groups) as [|c r] eqn:Eb; [done|]. cbn [str_truthy negb].
  rewrite E, splitTopLevelMultiply_join; [done|by destruct groups|done].
Qed.

(** ** Samples *)

Definition path_okb (p : jstr) : bool :=
  str_truthy p && str_eqb (trim p) p && forallb plain_unit p.

Lemma plain_b s : forallb plain_unit s = true → plain s.
Proof. intros H. apply Forall_forall. intros c Hc. rewrite forallb_forall in H. by apply H, list_elem_of_In. Qed.

Lemma path_okb_ok p : path_okb p = true → path_ok p.
Proof.
  intros [[H1 H2]%andb_true_iff H3]%andb_true_iff.
  split; [by destruct p|by apply trimmed_b|by apply plain_b].
Qed.

(** A night-time surcharge on one header and a discount on a parameter. *)
Definition sample_groups : list RequestRuleGroup := [
  {| conditions := [
       CTime {| tc_timeFunc := js "hour"; tc_timezone := js "Asia/Shanghai"; tc_mode := MATCH_RANGE;
                tc_value := []; tc_rangeStart := js "21"; tc_rangeEnd := js "6" |};
       ph Header (js "X-Plan") MATCH_CONTAINS (js "fast lane")];
     multiplier := js "1.5" |};
  {| conditions := [ph Param (js "service_tier") MATCH_EQ (js "flex")]; multiplier := js "0.5" |} ].

Lemma sample_groups_ok : Forall group_ok sample_groups.
Proof.
  assert (cond_ok (CTime {| tc_timeFunc := js "hour"; tc_timezone := js "Asia/Shanghai";
    tc_mode := MATCH_RANGE; tc_value := []; tc_rangeStart := js "21"; tc_rangeEnd := js "6" |}))
    by (apply ok_time_range; [left|by apply path_okb_ok|done|done]).
  assert (cond_ok (ph Header (js "X-Plan") MATCH_CONTAINS (js "fast lane")))
    by (apply ok_contains; [by apply path_okb_ok|by apply plain_b|by apply trimmed_b]).
  assert (cond_ok (ph Param (js "service_tier") MATCH_EQ (js "flex")))
    by (apply ok_eq; [by apply path_okb_ok|by apply plain_b|by apply trimmed_b]).
  apply Forall_cons; split; [|apply Forall_cons; split; [|by apply Forall_nil]];
    (split; [done| |by vm_compute]); cbn [conditions]; repeat (apply Forall_cons; split; [done|]);
    by apply Forall_nil.
Qed.

(** ** Combining a base expression with rules *)

Lemma is_rule_part_factor g : group_ok g → is_rule_part (buildRuleGroupFactor g) = Ret true.
Proof.
  intros Hg. assert (Forall group_ok [g]) as Hgs by by constructor.
  destruct (rules_text [g] Hgs) as (E & _); [done|]. simpl in E. unfold is_rule_part. rewrite <- E.
  by rewrite rules_roundtrip.
Qed.

Lemma partition_factors gs : Forall group_ok gs →
  partition_parts (map buildRuleGroupFactor gs) = Ret (map buildRuleGroupFactor gs, []).
Proof.
  induction 1 as [|g gs Hg _ IH]; [done|]. cbn [map partition_parts].
  rewrite is_rule_part_factor by done. simpl. by rewrite IH.
Qed.

Lemma combined_expr_parts base gs : trimmed base → base ≠ [] → balanced 0 base = true →
  Forall group_ok gs → gs ≠ [] →
  let text := combineBillingExpr base (buildRequestRuleExpr gs) in
  trimmed text ∧ text ≠ [] ∧
  splitTopLevelMultiply text = (40%N :: base ++ [41%N]) :: map buildRuleGroupFactor gs.
Proof.
  intros Hb1 Hb2 Hb3 Hgs Hne. destruct (rules_text gs Hgs Hne) as (E & Ht & Hn).
  destruct (groups_parsed gs Hgs) as [P1 _].
  assert (Etext : combineBillingExpr base (buildRequestRuleExpr gs) =
    join (js " * ") ((40%N :: base ++ [41%N]) :: map buildRuleGroupFactor gs)).
  { unfold combineBillingExpr. rewrite !trim_id by done.
    destruct base as [|b base]; [done|]. cbn [str_truthy negb].
    destruct (buildRequestRuleExpr gs) as [|c r] eqn:Eb; [done|]. cbn [str_truthy negb]. rewrite E.
    destruct gs as [|g gs]; [done|]. cbn [map]. rewrite join_cons. js_lits. by norm_app. }
  assert (Hparts : Forall (part_ok (chr "*")) ((40%N :: base ++ [41%N]) :: map buildRuleGroupFactor gs)).
  { constructor; [|done]. split; [by apply shield_parens| |done].
    apply (trimmed_mid [40%N] base [41%N]); [done|done|by apply trimmed_b..]. }
  cbv zeta. rewrite Etext, splitTopLevelMultiply_join by done.
  destruct (trimmed_join (js " * ") ((40%N :: base ++ [41%N]) :: map buildRuleGroupFactor gs)) as [? ?];
    [done| |done].
  eapply Forall_impl; [exact Hparts|]. by intros p [].
Qed.

Lemma split_combined base groups :
  trimmed base → base ≠ [] → balanced 0 base = true →
  is_rule_part (js "(" ++ base ++ js ")") = Ret false →
  groups ≠ [] → Forall group_ok groups →
  splitBillingExprAndRequestRules (combineBillingExpr base (buildRequestRuleExpr groups)) =
  Ret (unwrapOuterParens base, buildRequestRuleExpr groups).
Proof.
  intros Hb1 Hb2 Hb3 Hbase Hne Hgs.
  destruct (combined_expr_parts base groups Hb1 Hb2 Hb3 Hgs Hne) as (Ht & Hn & Hs).
  destruct (rules_text groups Hgs Hne) as (E & _ & _).
  unfold splitBillingExprAndRequestRules. rewrite trim_id, Hs by done.
  destruct (combineBillingExpr base (buildRequestRuleExpr groups)); [done|]. cbn [str_truthy negb].
  destruct groups as [|g gs]; [done|]. cbn [map length Nat.leb partition_parts].
  change (js "(" ++ base ++ js ")") with (40%N :: base ++ [41%N]) in Hbase. rewrite Hbase.
  cbn [mbind outcome_bind]. pose proof (partition_factors (g :: gs) Hgs) as Hp.
  cbn [map partition_parts] in Hp. rewrite Hp. cbn [mbind outcome_bind fst snd].
  rewrite unwrapOuterParens_wrap by done. by rewrite E.
Qed.

(** ** Theorems *)

(** C1. The rule editor reads back what it writes: for groups of time
    conditions, header conditions, and parameter equality and existence
    conditions over plain text, parsing the printed expression returns the
    same groups. *)
Theorem rule_expr_roundtrip groups : Forall group_ok groups →
  tryParseRequestRuleExpr (buildRequestRuleExpr groups) = Ret (Some groups).
Proof. apply rules_roundtrip. Qed.

Lemma rule_expr_roundtrip_witness :
  tryParseRequestRuleExpr (buildRequestRuleExpr sample_groups) = Ret (Some sample_groups).
Proof. apply rule_expr_roundtrip, sample_groups_ok. Defined.

(** C3. Combining and splitting are inverse: a base expression that is trimmed, not
    empty, balanced and no rule itself, combined with the printed text of at least
    one group of plain conditions ([group_ok]: no comparison of a parameter, which
    the reader does not accept), splits into that base (its own outer parentheses
    removed) and that text. *)
Theorem combine_split_roundtrip base groups :
  trimmed base → base ≠ [] → balanced 0 base = true →
  is_rule_part (js "(" ++ base ++ js ")") = Ret false →
  groups ≠ [] → Forall group_ok groups →
  splitBillingExprAndRequestRules (combineBillingExpr base (buildRequestRuleExpr groups)) =
  Ret (unwrapOuterParens base, buildRequestRuleExpr groups).
Proof. apply split_combined. Qed.

Lemma combine_split_roundtrip_witness :
  splitBillingExprAndRequestRules
    (combineBillingExpr (quoted "tier('base', p * 3 + c * 15)") (buildRequestRuleExpr sample_groups)) =
  Ret (quoted "tier('base', p * 3 + c * 15)", buildRequestRuleExpr sample_groups).
Proof.
  apply (combine_split_roundtrip (quoted "tier('base', p * 3 + c * 15)") sample_groups);
    [by apply trimmed_b|by vm_compute|by vm_compute|by vm_compute|done|apply sample_groups_ok].
Defined.

(** *** The conditions that are not read back *)

Definition cmp_text (p mode v : jstr) : jstr :=
  call (js "param") p (js " " ++ cmp_mode_op mode ++ js " " ++ v).

Definition cmp_modes : list jstr := [MATCH_GT; MATCH_GTE; MATCH_LT; MATCH_LTE].

(** Alone, the comparison the printer appends is no condition. *)
Lemma cmp_unreadable p mode v : path_ok p → mode ∈ cmp_modes →
  tryParseRequestCondition (cmp_text p mode v) = Ret None.
Proof.
  intros Hp Hm. unfold tryParseRequestCondition, cmp_text, call.
  rewrite no_time by set_solver. unfold cmp_modes in Hm. rewrite !elem_of_cons, elem_of_nil in Hm.
  destruct Hm as [-> | [-> | [-> | [-> | []]]]];
    (match goal with |- context [cmp_mode_op ?m] =>
       let v := eval vm_compute in (cmp_mode_op m) in change (cmp_mode_op m) with v end);
    js_lits; cbn [app]; run_re header_exists_re; run_re param_exists_re;
    run_re header_contains_re; run_re param_contains_re; run_re param_cmp_re;
    unfold eq_re; rewrite re_exec_bol; cbn [Seqs foldr]; rewrite rmatch_seq;
    rewrite (rmatch_try_lits (js "param") [js "header"]); js_lits;
    cbn [try_lits strip_prefix N.eqb Pos.eqb rev app]; rewrite orelse_None_r; cbn [orelse];
    rewrite rmatch_seq, quoted_arg_path by done; run_lit; done.
Qed.

Lemma param_nil_text p : path_ok p → text_ok (call (js "param") p (js " != nil")).
Proof.
  intros Hp. apply (call_text_ok (js "param") p (js " != ") (js "nil"));
    solve [done | concrete_absent | by repeat constructor | by apply trimmed_b].
Qed.

Lemma cmp_text_ok p mode v : path_ok p → mode ∈ cmp_modes → number_ok v → text_ok (cmp_text p mode v).
Proof.
  intros Hp Hm Hv. unfold cmp_text. rewrite !app_assoc.
  assert (Forall no_paren (cmp_mode_op mode) ∧ 38%N ∉ cmp_mode_op mode) as [O1 O2].
  { unfold cmp_modes in Hm. rewrite !elem_of_cons, elem_of_nil in Hm.
    destruct Hm as [-> | [-> | [-> | [-> | []]]]]; (split; [by repeat constructor|concrete_absent]). }
  apply call_text_ok; try solve [done | concrete_absent | by repeat constructor | by apply trimmed_b].
  - rewrite !not_elem_of_app. repeat split; try done; try concrete_absent.
    by apply plain_absent; [apply number_ok_plain|].
  - rewrite !Forall_app. repeat split; try done; try (by repeat constructor).
    by apply plain_no_paren, number_ok_plain.
  - by destruct Hv.
  - by apply number_ok_trimmed.
Qed.

Lemma cmp_build p mode v : path_ok p → mode ∈ cmp_modes → numericLiteral v = true →
  buildRequestConditionExpr (ph Param p mode v) =
  join (js " && ") [call (js "param") p (js " != nil"); cmp_text p mode v].
Proof.
  intros Hp Hm Hv. pose proof Hp as [Hne Ht _]. pose proof Hv as Hvo%numericLiteral_ok.
  assert (normalizeCondition (partial_of (ph Param p mode v)) = ph Param p mode v ∧
    str_eqb mode MATCH_EXISTS = false ∧ str_eqb mode MATCH_CONTAINS = false) as (En & E1 & E2).
  { unfold cmp_modes in Hm. rewrite !elem_of_cons, elem_of_nil in Hm.
    by destruct Hm as [-> | [-> | [-> | [-> | []]]]]. }
  unfold buildRequestConditionExpr. unfold ph at 1. fold (ph Param p mode v). rewrite En. unfold ph, phText.
  cbn [ph_path ph_mode ph_source ph_value]. rewrite E1, E2, !trim_id by (done || by apply number_ok_trimmed).
  rewrite path_quote by done. destruct p as [|c p]; [done|]. cbn [str_truthy negb].
  rewrite (bool_decide_eq_true_2 (mode ∈ _)) by done. rewrite Hv. cbn [negb].
  rewrite join_cons. unfold cmp_text, call, join. js_lits. by norm_app.
Qed.

Lemma cmp_factor p mode v mult : path_ok p → mode ∈ cmp_modes → numericLiteral v = true →
  numericLiteral mult = true →
  buildRuleGroupFactor {| conditions := [ph Param p mode v]; multiplier := mult |} =
  factor_text (join (js " && ") [call (js "param") p (js " != nil"); cmp_text p mode v]) mult.
Proof.
  intros Hp Hm Hv Hmult. pose proof Hmult as Hmo%numericLiteral_ok.
  unfold buildRuleGroupFactor. cbn [multiplier conditions map].
  rewrite trim_id, Hmult by by apply number_ok_trimmed. rewrite cmp_build by done.
  rewrite filter_id; [done|]. apply Forall_cons; split; [done|by apply Forall_nil].
Qed.

(** Not so for comparisons on parameters: whatever the path, the number and
    the multiplier, the expression printed for a group with the one condition
    [param > n] (or >=, <, <=) is rejected by the reader, because the [&&] of
    its own nil test is taken for the separator of two conditions. *)
Theorem param_comparison_lost p mode v mult :
  path_ok p → mode ∈ cmp_modes → numericLiteral v = true → numericLiteral mult = true →
  tryParseRequestRuleExpr (buildRequestRuleExpr
    [{| conditions := [ph Param p mode v]; multiplier := mult |}]) = Ret None.
Proof.
  intros Hp Hm Hv Hmult. pose proof Hv as Hvo%numericLiteral_ok. pose proof Hmult as Hmo%numericLiteral_ok.
  set (A := call (js "param") p (js " != nil")). set (B := cmp_text p mode v).
  pose proof (param_nil_text p Hp) as HA. pose proof (cmp_text_ok p mode v Hp Hm Hvo) as HB.
  set (inner := join (js " && ") [A; B]).
  assert (Hib : balanced 0 inner = true).
  { apply balanced_join; [|by repeat constructor].
    apply Forall_cons; split; [by destruct HA|]. apply Forall_cons; split; [by destruct HB|done]. }
  rewrite (parse_single_factor _ inner mult) by (done || apply (cmp_factor p mode v mult); done).
  cbn [parseFactors]. unfold tryParseRuleGroupFactor.
  destruct (factor_exec inner mult) as (m & -> & -> & ->); [by destruct p|done|].
  unfold inner. rewrite splitTopLevelAnd_join; [|done|].
  2: { apply Forall_cons; split; [by apply text_part_ok|]. apply Forall_cons; split; [by apply text_part_ok|done]. }
  cbn [parseConditions]. rewrite (trim_id A), (trim_id B) by apply text_trimmed, HA || apply text_trimmed, HB.
  unfold A, B. rewrite parse_param_exists by done. cbn [mbind outcome_bind].
  by rewrite cmp_unreadable.
Qed.

Lemma param_comparison_lost_witness :
  tryParseRequestRuleExpr (buildRequestRuleExpr
    [{| conditions := [ph Param (js "max_tokens") MATCH_GT (js "4096")]; multiplier := js "2" |}]) = Ret None.
Proof.
  apply param_comparison_lost; [by apply path_okb_ok|left|by vm_compute|by vm_compute].
Defined.

(** The reader of a containment condition hands its quoted text to
    [JSON.parse] unguarded: an escape JSON does not know makes the whole
    reader throw instead of returning null. *)
Theorem rule_reader_throws :
  tryParseRequestRuleExpr (quoted "(has(header('X-Plan'), 'a\q') ? 2 : 1)") = Throw.
Proof. vm_compute. reflexivity. Qed.
