(* ===== verification/BillingTiers.v ===== *)
(** * Tier conditions, tier bodies and normalised conditions (billing-expr.ts)

    What the reader of tier expressions guarantees: the condition it derives
    for the second of two tiers is the negation of the first's; a tier body
    gives every price field a number, the first one the text assigns; and a
    normalised condition is a fixed point of normalisation. *)

From S2P Require Import Prelude JsNumber JsNumberFacts JsString JsRegex JsValue BillingExpr.

Open Scope Z_scope.

(** ** Complement conditions *)

(** What a condition says about the value of its variable. *)
Definition holds (c : TierCondition) (x : num) : bool :=
  match t_op c with
  | OpLt => n_lt x (t_value c)
  | OpLe => n_le x (t_value c)
  | OpGt => n_gt x (t_value c)
  | OpGe => n_ge x (t_value c)
  end.

Lemma compare_total x y : isNaN x = false → isNaN y = false → ∃ c, SFcompare x y = Some c.
Proof.
  destruct x as [[]|[]| |[] m e], y as [[]|[]| |[] m' e']; try done; intros _ _; simpl; eauto;
    destruct (e ?= e')%Z; simpl; eauto.
Qed.

(** The condition given to the second of two tiers is the negation of the
    first one's: exactly one of the two tiers applies to any value of the
    variable, and complementing twice gives the condition back. *)
Theorem complement_tier_exclusive c x :
  isNaN x = false → isNaN (t_value c) = false →
  holds (complementTierCondition c) x = negb (holds c x) ∧
  complementTierCondition (complementTierCondition c) = c.
Proof.
  intros Hx Hv. split; [|by destruct c as [v [] n]].
  destruct c as [v o n]. unfold holds, complementTierCondition. cbn [t_op t_value] in *.
  destruct (compare_total x n Hx Hv) as [r Hr].
  unfold n_gt, n_ge, n_lt, n_le, SFltb, SFleb.
  destruct o; simpl; rewrite ?(SFcompare_swap x n), Hr; by destruct r.
Qed.

Lemma complement_tier_exclusive_witness :
  let c := {| t_var := VarLen; t_op := OpLe; t_value := of_Z 200000 |} in
  holds (complementTierCondition c) (of_Z 200001) = negb (holds c (of_Z 200001)) ∧
  complementTierCondition (complementTierCondition c) = c.
Proof. apply complement_tier_exclusive; vm_compute; reflexivity. Defined.

(** ** Tier bodies *)

(** The first number the body multiplies variable [k] with. *)
Definition first_coeff (k : jstr) (body : jstr) : option num :=
  option_map (λ m, string_to_number (group0 m 2))
    (find (λ m, str_eqb (group0 m 1) k) (all_matches BILLING_VAR_REGEX body)).

Lemma coeffs_fold ms coeffs k :
  obj_get k (fold_left (λ coeffs m,
      if obj_has (group0 m 1) coeffs then coeffs
      else obj_set (group0 m 1) (string_to_number (group0 m 2)) coeffs) ms coeffs) =
  match obj_get k coeffs with
  | Some v => Some v
  | None => option_map (λ m, string_to_number (group0 m 2)) (find (λ m, str_eqb (group0 m 1) k) ms)
  end.
Proof.
  revert coeffs. induction ms as [|m ms IH]; intros coeffs; cbn [fold_left find option_map].
  { by destruct (obj_get k coeffs). }
  rewrite IH. unfold obj_has. destruct (str_eqb (group0 m 1) k) eqn:E.
  - apply str_eqb_eq in E as ->. destruct (obj_get k coeffs) eqn:Ek; [by rewrite Ek|].
    by rewrite obj_get_set_eq.
  - destruct (obj_get (group0 m 1) coeffs); [done|]. rewrite obj_get_set_ne; [done|].
    intros ->. by rewrite str_eqb_refl in E.
Qed.

Lemma first_coeff_get body k : obj_get k (bodyCoeffs body) = first_coeff k body.
Proof. unfold bodyCoeffs. by rewrite coeffs_fold. Qed.

Lemma parseTierBody_shape body : parseTierBody body =
  map (λ '(k, f), (f, num_or (default NaN (first_coeff k body)) (of_Z 0))) BILLING_VAR_KEY_TO_FIELD.
Proof.
  unfold parseTierBody. change (own_entries BILLING_VAR_KEY_TO_FIELD) with BILLING_VAR_KEY_TO_FIELD.
  rewrite <- (app_nil_l (map _ _)), <- obj_assign_fresh.
  - unfold obj_assign. generalize (@nil (jstr * num)). induction BILLING_VAR_KEY_TO_FIELD as [|[k f] l IH];
      intros acc; [done|]. cbn [fold_left map fst snd]. by rewrite first_coeff_get, IH.
  - rewrite app_nil_l, map_map.
    assert (Hk : map (λ x : jstr * jstr, (let '(k, f) := x in
      (f, num_or (default NaN (first_coeff k body)) (of_Z 0))).1) BILLING_VAR_KEY_TO_FIELD =
      map snd BILLING_VAR_KEY_TO_FIELD) by (apply map_ext; by intros []).
    rewrite Hk. apply (bool_decide_unpack (NoDup _)). vm_compute. exact I.
Qed.

(** A tier body has a number for each of the nine price fields, in the
    order of the registry: the first coefficient the text gives the variable,
    or 0 where it gives none or one that is not a number. *)
Theorem tier_body_first_coefficients body :
  map fst (parseTierBody body) = omap bv_field BILLING_PRICING_VARS ∧
  ∀ v f, v ∈ BILLING_PRICING_VARS → bv_field v = Some f →
    obj_get f (parseTierBody body) = Some (num_or (default NaN (first_coeff (bv_key v) body)) (of_Z 0)).
Proof.
  rewrite parseTierBody_shape. rewrite map_map.
  assert (Hk : map (λ x : jstr * jstr, (let '(k, f) := x in
    (f, num_or (default NaN (first_coeff k body)) (of_Z 0))).1) BILLING_VAR_KEY_TO_FIELD =
    omap bv_field BILLING_PRICING_VARS).
  { transitivity (map snd BILLING_VAR_KEY_TO_FIELD); [apply map_ext; by intros []|].
    vm_compute. reflexivity. }
  split; [done|]. intros v f Hv Hf. apply obj_get_in.
  - rewrite map_map, Hk. apply (bool_decide_unpack (NoDup _)). vm_compute. exact I.
  - apply list_elem_of_fmap. exists (bv_key v, f). split; [done|]. apply list_elem_of_fmap.
    exists v. by rewrite Hf.
Qed.

(** ** Normalised conditions *)

(** The modes a source offers. *)
Definition modes (source : jstr) : list jstr := map fst (getRequestRuleMatchOptions source).

Lemma offered_mode_in source mode fb : fb ∈ modes source → offered_mode source mode fb ∈ modes source.
Proof.
  intros H. unfold offered_mode. destruct mode as [m|]; [|done]. case_bool_decide; [done|done].
Qed.

Lemma offered_mode_id source m fb : m ∈ modes source → offered_mode source (Some m) fb = m.
Proof. intros H. unfold offered_mode. by rewrite bool_decide_eq_true_2. Qed.

Definition condition_valid (n : RequestCondition) : Prop :=
  match n with
  | CTime t => tc_timeFunc t ∈ TIME_FUNCS ∧ tc_mode t ∈ modes SOURCE_TIME ∧ tc_timezone t ≠ []
  | CPH p => ph_mode p ∈ modes (match ph_source p with Header => SOURCE_HEADER | Param => SOURCE_PARAM end)
  end.

Lemma in_by_decide (x : jstr) (l : list jstr) : bool_decide (x ∈ l) = true → x ∈ l.
Proof. apply bool_decide_eq_true. Qed.

Lemma normalized_valid cond : condition_valid (normalizeCondition cond).
Proof.
  unfold normalizeCondition. case_bool_decide.
  - split; [|split]; cbn [tc_timeFunc tc_mode tc_timezone].
    + destruct (pc_timeFunc cond) as [f|]; cbn [isTimeFunc]; [|by apply in_by_decide].
      case_bool_decide; [done|by apply in_by_decide].
    + apply offered_mode_in. by apply in_by_decide.
    + by destruct (default [] (pc_timezone cond)).
  - case_bool_decide; apply offered_mode_in; by apply in_by_decide.
Qed.

Lemma normalize_fixed n : condition_valid n → normalizeCondition (partial_of n) = n.
Proof.
  destruct n as [t|p]; unfold normalizeCondition; cbn [partial_of pc_source].
  - intros (Hfn & Hm & Htz). rewrite bool_decide_eq_true_2 by done.
    cbn [pc_timeFunc pc_timezone pc_mode pc_value pc_rangeStart pc_rangeEnd isTimeFunc].
    rewrite (bool_decide_eq_true_2 (_ ∈ TIME_FUNCS)), offered_mode_id by done.
    destruct t as [fn tz m v s e]. cbn in *. by destruct tz.
  - intros Hm. destruct p as [[] path m v]; cbn [ph_source ph_mode ph_path ph_value] in *;
      cbn [pc_path pc_mode pc_value];
      rewrite bool_decide_eq_false_2 by done;
      [rewrite bool_decide_eq_false_2 by done|rewrite bool_decide_eq_true_2 by done];
      by rewrite offered_mode_id.
Qed.

(** Normalising a partial condition gives one whose time function, mode
    and time zone the editor can show, and normalising the result again
    changes nothing. *)
Theorem normalize_condition_valid cond :
  condition_valid (normalizeCondition cond) ∧
  normalizeCondition (partial_of (normalizeCondition cond)) = normalizeCondition cond.
Proof. split; [apply normalized_valid|apply normalize_fixed, normalized_valid]. Qed.
