(* ===== verification/TierExpr.v ===== *)
(** * The visual tier editor (features/pricing/lib/tier-expr.ts)

    Tiers as the visual editor holds them, their normalisation, the printer of
    tier expressions and the reader that decides whether an expression can be
    edited visually.  A tier is the JavaScript object it is in the code, since
    [normalizeVisualTier] spreads whatever fields it is given.  The local
    evaluator [evalExprLocally] compiles its text with the host's [Function]
    and is left out. *)

From S2P Require Import Prelude JsNumber JsString JsRegex JsValue BillingExpr.

Open Scope Z_scope.

Definition CACHE_MODE_TIMED : jstr := js "timed".
Definition CACHE_MODE_GENERIC : jstr := js "generic".

(** A tier, and a tier under construction: an object with any fields. *)
Definition VisualTier : Type := obj jsval.
Definition VisualConfig : Type := list VisualTier.

Definition field (k : jstr) (t : VisualTier) : jsval := default JUndef (obj_get k t).

Definition roundPrice (value : num) : num := parseFloat (toFixed value 5).

Definition getTierCacheMode (tier : VisualTier) : jstr :=
  let mode := field (js "cache_mode") tier in
  if strict_eq mode (JStr CACHE_MODE_TIMED) then CACHE_MODE_TIMED
  else if strict_eq mode (JStr CACHE_MODE_GENERIC) then CACHE_MODE_GENERIC
  else if n_gt (to_number (field (js "cache_create_1h_unit_cost") tier)) (of_Z 0)
       then CACHE_MODE_TIMED else CACHE_MODE_GENERIC.

(** [Number(x) || 0] *)
Definition number_or_0 (v : jsval) : num := num_or (to_number v) (of_Z 0).

Definition rounded_cost (k : string) (tier : VisualTier) : jstr * jsval :=
  (js_of_string k, JNum (roundPrice (number_or_0 (field (js_of_string k) tier)))).

Definition normalizeVisualTier (tier : VisualTier) : VisualTier :=
  let label := field (js "label") tier in
  let conditions := field (js "conditions") tier in
  obj_assign (obj_assign
    [(js "label", if is_nullish label then JStr [] else label);
     rounded_cost "input_unit_cost" tier;
     rounded_cost "output_unit_cost" tier;
     (js "cache_mode", JStr (getTierCacheMode tier));
     (js "conditions", if is_array conditions then conditions else JArr [])]
    tier)
    [rounded_cost "cache_read_unit_cost" tier;
     rounded_cost "cache_create_unit_cost" tier;
     rounded_cost "cache_create_1h_unit_cost" tier;
     rounded_cost "image_unit_cost" tier;
     rounded_cost "image_output_unit_cost" tier;
     rounded_cost "audio_input_unit_cost" tier;
     rounded_cost "audio_output_unit_cost" tier].

Definition createDefaultVisualConfig : VisualConfig :=
  [normalizeVisualTier
     [(js "conditions", JArr []); (js "input_unit_cost", JNum (of_Z 0));
      (js "output_unit_cost", JNum (of_Z 0)); (js "label", JStr (js "base"));
      (js "cache_mode", JStr CACHE_MODE_GENERIC)]].

Definition normalizeVisualConfig (config : option VisualConfig) : VisualConfig :=
  match config with
  | None | Some [] => createDefaultVisualConfig
  | Some tiers => map normalizeVisualTier tiers
  end.

(** ** Printer *)

Definition condition_set (c : jsval) : bool :=
  let value := prop "value" c in
  truthy (prop "var" c) && truthy (prop "op" c) && negb (is_nullish value)
  && negb (strict_eq value (JStr [])).

Definition buildConditionStr (conditions : jsval) : jstr :=
  match conditions with
  | JArr cs =>
      join (js " && ") (map (λ c, to_string (prop "var" c) ++ js " " ++ to_string (prop "op" c)
                                   ++ js " " ++ to_string (prop "value" c))
                            (filter (λ c, condition_set c = true) cs))
  | _ => []
  end.

Definition buildTierBodyExpr (tier : VisualTier) : jstr :=
  let ic := number_or_0 (field (js "input_unit_cost") tier) in
  let oc := number_or_0 (field (js "output_unit_cost") tier) in
  let extras := omap (λ cv : jstr * jstr,
      let v := number_or_0 (field cv.1 tier) in
      if negb (n_eq v (of_Z 0)) then Some (cv.2 ++ js " * " ++ num_to_string v) else None)
    BILLING_CACHE_VAR_MAP in
  join (js " + ") ((js "p * " ++ num_to_string ic) :: (js "c * " ++ num_to_string oc) :: extras).

Definition tierCall (label : jstr) (tier : VisualTier) : jstr :=
  js "tier(" ++ [quote_unit] ++ label ++ [quote_unit] ++ js ", " ++ buildTierBodyExpr tier ++ js ")".

(** [tier.label || fallback], as the template prints it. *)
Definition label_or (tier : VisualTier) (fallback : jstr) : jstr :=
  to_string (js_or (field (js "label") tier) (JStr fallback)).

Definition tierPart (last : nat) (i : nat) (tier : VisualTier) : jstr :=
  let body := tierCall (label_or tier (js "tier_" ++ num_to_string (of_Z (Z.of_nat i + 1)))) tier in
  let cond := buildConditionStr (field (js "conditions") tier) in
  if (i <? last)%nat && str_truthy cond then cond ++ js " ? " ++ body else body.

Definition generateExprFromVisualConfig (config : option VisualConfig) : jstr :=
  match config with
  | None | Some [] => js "p * 0 + c * 0"
  | Some [tier] =>
      let body := tierCall (label_or tier (js "default")) tier in
      let cond := buildConditionStr (field (js "conditions") tier) in
      if str_truthy cond then cond ++ js " ? " ++ body ++ js " : p * 0 + c * 0" else body
  | Some tiers => join (js " : ") (imap (tierPart (length tiers - 1)) tiers)
  end.

(** ** Reader *)

Definition any_version_re : regex :=
  Seqs [Bol; Lit "v"; Plus Digit; Lit ":"; Grp 1 (Star true (Chr any_unit)); Eol].

Definition times : regex := Seqs [Spaces; Lit "*"; Spaces].

(** The optional summands of the extra variables, captured from group [i] on. *)
Fixpoint optCache (i : nat) (vars : list jstr) : list regex :=
  match vars with
  | [] => []
  | v :: vars =>
      Opt (Seqs [Spaces; Lit "+"; Spaces; lit_units v; times; number_grp i]) :: optCache (S i) vars
  end.

(** The body of a tier, its first number captured as group [i]. *)
Definition bodyPat (i : nat) : regex :=
  Seqs ([Lit "p"; times; number_grp i; Spaces; Lit "+"; Spaces; Lit "c"; times; number_grp (i + 1)]
        ++ optCache (i + 2) (map snd BILLING_CACHE_VAR_MAP)).

Definition quoted_label (i : nat) : regex :=
  Seqs [Chr (N.eqb quote_unit); Grp i (Star true (Chr (none_of [quote_unit]))); Chr (N.eqb quote_unit)].

Definition singleRe : regex :=
  Seqs [Bol; Lit "tier("; quoted_label 1; Lit ","; Spaces; bodyPat 2; Lit ")"; Eol].

Definition visualTierRe : regex :=
  Seqs [Opt (Seqs [condGroup; Spaces; Lit "?"; Spaces]);
        Lit "tier("; quoted_label 2; Lit ","; Spaces; bodyPat 3; Lit ")"].

(** The fields of the extra variables a match captured, from group [i] on. *)
Definition cacheFields (m : rmatchres) (i : nat) : VisualTier :=
  omap id (imap (λ j cv, option_map (λ val, (fst cv, JNum (string_to_number val))) (group m (i + j)))
                BILLING_CACHE_VAR_MAP).

(** The object a match describes; [i] is the group of the label. *)
Definition matchedTier (m : rmatchres) (i : nat) (conditions : list jsval) : VisualTier :=
  obj_assign
    [(js "conditions", JArr conditions);
     (js "input_unit_cost", JNum (string_to_number (group0 m (i + 1))));
     (js "output_unit_cost", JNum (string_to_number (group0 m (i + 2))));
     (js "label", JStr (group0 m i))]
    (cacheFields m (i + 3)).

Definition conditionObject (c : TierCondition) : jsval :=
  JObj [(js "var", JStr (var_text (t_var c))); (js "op", JStr (op_text (t_op c)));
        (js "value", JNum (t_value c))].

Definition matchedConditions (condStr : jstr) : list jsval :=
  if str_truthy condStr then map conditionObject (omap parseTierCondition (re_split and_re condStr))
  else [].

Definition strip_spaces (s : jstr) : jstr := replace_units is_space [] s.

Definition exprBody (exprStr : jstr) : jstr :=
  match re_exec any_version_re exprStr with Some m => group0 m 1 | None => exprStr end.

Definition tryParseVisualConfig (exprStr : jstr) : option VisualConfig :=
  if negb (str_truthy exprStr) then None
  else
    let body := exprBody exprStr in
    match re_exec singleRe body with
    | Some simple => Some (normalizeVisualConfig (Some [normalizeVisualTier (matchedTier simple 1 [])]))
    | None =>
        let tiers := map (λ m, normalizeVisualTier (matchedTier m 2 (matchedConditions (group0 m 1))))
                         (all_matches visualTierRe body) in
        match tiers with
        | [] => None
        | _ =>
            let cfg := normalizeVisualConfig (Some tiers) in
            let regenerated := generateExprFromVisualConfig (Some cfg) in
            if negb (str_eqb (strip_spaces regenerated) (strip_spaces body)) then None else Some cfg
        end
    end.

(** ** Estimator variables *)

(** Pairs (var, stateKey). *)
Definition ESTIMATOR_VARS : list (jstr * jstr) := [
  (js "cr", js "cacheReadTokens"); (js "cc", js "cacheCreateTokens");
  (js "cc1h", js "cacheCreate1hTokens"); (js "img", js "imageTokens");
  (js "img_o", js "imageOutputTokens"); (js "ai", js "audioInputTokens");
  (js "ao", js "audioOutputTokens") ].

Definition exprUsesExtraVars (exprStr : jstr) : bool :=
  if negb (str_truthy exprStr) then false
  else re_test (Seqs [WordB; Alts (map (λ f, lit_units (fst f)) ESTIMATOR_VARS); WordB]) exprStr.

(** ** Facts *)

Definition extra_cost_fields : list jstr := map fst BILLING_CACHE_VAR_MAP.

(** The seven costs [normalizeVisualTier] writes last. *)
Definition extra_costs (tier : VisualTier) : VisualTier :=
  [rounded_cost "cache_read_unit_cost" tier;
   rounded_cost "cache_create_unit_cost" tier;
   rounded_cost "cache_create_1h_unit_cost" tier;
   rounded_cost "image_unit_cost" tier;
   rounded_cost "image_output_unit_cost" tier;
   rounded_cost "audio_input_unit_cost" tier;
   rounded_cost "audio_output_unit_cost" tier].

Lemma extra_cost_fields_eq : extra_cost_fields =
  [js "cache_read_unit_cost"; js "cache_create_unit_cost"; js "cache_create_1h_unit_cost";
   js "image_unit_cost"; js "image_output_unit_cost"; js "audio_input_unit_cost";
   js "audio_output_unit_cost"].
Proof. vm_compute. reflexivity. Qed.

Lemma extra_costs_shape tier :
  extra_costs tier = map (λ k, (k, JNum (roundPrice (number_or_0 (field k tier))))) extra_cost_fields.
Proof. rewrite extra_cost_fields_eq. unfold extra_costs, rounded_cost. cbn [map]. reflexivity. Qed.

Lemma extra_costs_keys tier : map fst (extra_costs tier) = extra_cost_fields.
Proof. rewrite extra_costs_shape, map_map. cbn [fst]. apply map_id. Qed.

Lemma extra_costs_nodup tier : NoDup (map fst (extra_costs tier)).
Proof. rewrite extra_costs_keys. apply (bool_decide_unpack (NoDup extra_cost_fields)). vm_compute. exact I. Qed.

Lemma extra_costs_lookup k tier : k ∈ extra_cost_fields →
  obj_get k (extra_costs tier) = Some (JNum (roundPrice (number_or_0 (field k tier)))).
Proof.
  intros Hk. apply obj_get_in; [apply extra_costs_nodup|]. rewrite extra_costs_shape.
  apply list_elem_of_fmap. by exists k.
Qed.

(** Normalising a tier keeps every field its author gave, whatever it is,
    except the seven extra costs, which become numbers rounded to five digits
    (0 where missing or not a number). *)
Theorem normalize_tier_fields tier : NoDup (map fst tier) →
  (∀ k, k ∈ extra_cost_fields → field k (normalizeVisualTier tier) =
    JNum (roundPrice (number_or_0 (field k tier)))) ∧
  (∀ k v, k ∉ extra_cost_fields → obj_get k tier = Some v →
    field k (normalizeVisualTier tier) = v) ∧
  (∀ k, k ∈ [js "label"; js "input_unit_cost"; js "output_unit_cost"; js "cache_mode"; js "conditions"] →
    is_Some (obj_get k (normalizeVisualTier tier))).
Proof.
  intros Hnd. unfold field at 1 3. unfold normalizeVisualTier.
  change [rounded_cost "cache_read_unit_cost" tier; _; _; _; _; _; _] with (extra_costs tier).
  split; [|split]; [intros k Hk|intros k v Hk Hv|intros k Hk];
    rewrite obj_get_assign by apply extra_costs_nodup; rewrite ?(obj_get_assign _ _ tier) by exact Hnd.
  - by rewrite extra_costs_lookup.
  - destruct (obj_get k (extra_costs tier)) as [w|] eqn:E; [|by rewrite Hv].
    destruct Hk. rewrite <- (extra_costs_keys tier). by eapply obj_get_key.
  - destruct (obj_get k (extra_costs tier)); [by eexists|]. destruct (obj_get k tier); [by eexists|].
    rewrite !elem_of_cons, elem_of_nil in Hk.
    destruct Hk as [-> | [-> | [-> | [-> | [-> | []]]]]]; eexists; reflexivity.
Qed.

(** A tier with one extra cost and no cache mode. *)
Definition sample_tier : VisualTier :=
  [(js "label", JStr (js "base")); (js "input_unit_cost", JNum (of_Z 3));
   (js "cache_create_1h_unit_cost", JStr (js "0.1234567"))].

Lemma normalize_tier_fields_witness :
  field (js "label") (normalizeVisualTier sample_tier) = JStr (js "base") ∧
  field (js "cache_create_1h_unit_cost") (normalizeVisualTier sample_tier) =
    JNum (parseFloat (js "0.12346")).
Proof.
  destruct (normalize_tier_fields sample_tier) as (H1 & H2 & _).
  { apply (bool_decide_unpack (NoDup _)). vm_compute. exact I. }
  split.
  - apply H2; [apply (bool_decide_unpack (_ ∉ _)); vm_compute; exact I|reflexivity].
  - rewrite H1; [vm_compute; reflexivity|apply (bool_decide_unpack (_ ∈ _)); vm_compute; exact I].
Defined.

(** An expression of several tiers that the visual editor accepts is never
    changed by it: what the accepted configuration prints is the expression,
    up to white space and the version prefix. *)
Theorem visual_config_regenerates exprStr cfg :
  re_exec singleRe (exprBody exprStr) = None →
  tryParseVisualConfig exprStr = Some cfg →
  cfg ≠ [] ∧ strip_spaces (generateExprFromVisualConfig (Some cfg)) = strip_spaces (exprBody exprStr).
Proof.
  intros Hs. unfold tryParseVisualConfig. destruct (negb (str_truthy exprStr)); [done|].
  rewrite Hs. destruct (map _ _) as [|t ts] eqn:E; [done|].
  destruct (str_eqb _ _) eqn:Eq; [|done]. intros [= <-]. split; [done|].
  by apply str_eqb_eq in Eq.
Qed.

Definition two_tiers : jstr :=
  quoted "v1:len <= 200000 ? tier('std', p * 3 + c * 15) : tier('long', p * 6 + c * 22.5)".

Lemma visual_config_regenerates_witness :
  match tryParseVisualConfig two_tiers with
  | Some cfg => cfg ≠ [] ∧ strip_spaces (generateExprFromVisualConfig (Some cfg)) =
                           strip_spaces (exprBody two_tiers)
  | None => False
  end.
Proof.
  destruct (tryParseVisualConfig two_tiers) as [cfg|] eqn:E.
  - apply (visual_config_regenerates two_tiers cfg); [vm_compute; reflexivity|exact E].
  - vm_compute in E. discriminate E.
Defined.

(** A single tier has no such check: this expression is accepted, and
    saving it again rounds its cache price to five digits. *)
Theorem single_tier_rounds_cache_price :
  option_map (λ cfg, generateExprFromVisualConfig (Some cfg))
    (tryParseVisualConfig (quoted "tier('x', p * 3 + c * 15 + cr * 0.1234567)")) =
  Some (quoted "tier('x', p * 3 + c * 15 + cr * 0.12346)").
Proof. vm_compute. reflexivity. Qed.
