(* ===== verification/Currency.v ===== *)
(** * Currency display (stores/system-config-store.ts, lib/currency.ts)

    The system configuration store, and the functions that turn internal USD
    amounts and quota units into displayed text.  The stored currency settings
    come from the server or from an earlier session, so any of them may be
    missing; [getConfig] fills in and repairs them.  [Intl.NumberFormat] and
    [Math.pow] are the host's (Host.v). *)

From S2P Require Import Prelude JsNumber JsNumberFacts JsString JsRegex JsValue Host.

Open Scope Z_scope.

(** ** System configuration store *)

Inductive CurrencyDisplayType := USD | CNY | TOKENS | CUSTOM.

Record CurrencyConfig := {
  displayInCurrency : bool;
  quotaDisplayType : CurrencyDisplayType;
  quotaPerUnit : num;
  usdExchangeRate : num;
  customCurrencySymbol : jstr;
  customCurrencyExchangeRate : num
}.

(** Currency settings as stored: any field may be missing. *)
Record StoredCurrency := {
  s_displayInCurrency : option bool;
  s_quotaDisplayType : option CurrencyDisplayType;
  s_quotaPerUnit : option num;
  s_usdExchangeRate : option num;
  s_customCurrencySymbol : option jstr;
  s_customCurrencyExchangeRate : option num
}.

Record SystemConfig := {
  systemName : jstr;
  logo : jstr;
  footerHtml : option jstr;
  demoSiteEnabled : option bool;
  displayTokenStatEnabled : option bool;
  currency : option StoredCurrency
}.

Definition DEFAULT_CURRENCY_CONFIG : CurrencyConfig := {|
  displayInCurrency := true;
  quotaDisplayType := USD;
  quotaPerUnit := of_Z 500000;
  usdExchangeRate := of_Z 1;
  customCurrencySymbol := js "¤";
  customCurrencyExchangeRate := of_Z 1
|}.

(** [{ ...DEFAULT_CURRENCY_CONFIG }] as stored settings. *)
Definition stored_of (c : CurrencyConfig) : StoredCurrency := {|
  s_displayInCurrency := Some (displayInCurrency c);
  s_quotaDisplayType := Some (quotaDisplayType c);
  s_quotaPerUnit := Some (quotaPerUnit c);
  s_usdExchangeRate := Some (usdExchangeRate c);
  s_customCurrencySymbol := Some (customCurrencySymbol c);
  s_customCurrencyExchangeRate := Some (customCurrencyExchangeRate c)
|}.

Record SystemConfigState := {
  config : SystemConfig;
  loading : bool;
  loadedLogoUrl : jstr
}.

(** A later value of a field wins over an earlier one. *)
Definition over {A} (new old : option A) : option A := match new with Some x => Some x | None => old end.

(** [{ ...old, ...new }] *)
Definition spread_currency (old new : StoredCurrency) : StoredCurrency := {|
  s_displayInCurrency := over (s_displayInCurrency new) (s_displayInCurrency old);
  s_quotaDisplayType := over (s_quotaDisplayType new) (s_quotaDisplayType old);
  s_quotaPerUnit := over (s_quotaPerUnit new) (s_quotaPerUnit old);
  s_usdExchangeRate := over (s_usdExchangeRate new) (s_usdExchangeRate old);
  s_customCurrencySymbol := over (s_customCurrencySymbol new) (s_customCurrencySymbol old);
  s_customCurrencyExchangeRate := over (s_customCurrencyExchangeRate new) (s_customCurrencyExchangeRate old)
|}.

Definition no_currency : StoredCurrency := {|
  s_displayInCurrency := None; s_quotaDisplayType := None; s_quotaPerUnit := None;
  s_usdExchangeRate := None; s_customCurrencySymbol := None; s_customCurrencyExchangeRate := None
|}.

(** [Partial<SystemConfig>] *)
Record PartialSystemConfig := {
  p_systemName : option jstr;
  p_logo : option jstr;
  p_footerHtml : option jstr;
  p_demoSiteEnabled : option bool;
  p_displayTokenStatEnabled : option bool;
  p_currency : option StoredCurrency
}.

Definition initialState (DEFAULT_SYSTEM_NAME DEFAULT_LOGO : jstr) : SystemConfigState := {|
  config := {| systemName := DEFAULT_SYSTEM_NAME; logo := DEFAULT_LOGO; footerHtml := None;
               demoSiteEnabled := None; displayTokenStatEnabled := None;
               currency := Some (stored_of DEFAULT_CURRENCY_CONFIG) |};
  loading := true;
  loadedLogoUrl := DEFAULT_LOGO
|}.

Definition setConfig (newConfig : PartialSystemConfig) (state : SystemConfigState) : SystemConfigState :=
  let c := config state in
  {| config := {|
       systemName := default (systemName c) (p_systemName newConfig);
       logo := default (logo c) (p_logo newConfig);
       footerHtml := over (p_footerHtml newConfig) (footerHtml c);
       demoSiteEnabled := over (p_demoSiteEnabled newConfig) (demoSiteEnabled c);
       displayTokenStatEnabled := over (p_displayTokenStatEnabled newConfig) (displayTokenStatEnabled c);
       currency := Some (spread_currency (default no_currency (currency c))
                                         (default no_currency (p_currency newConfig))) |};
     loading := loading state;
     loadedLogoUrl := loadedLogoUrl state |}.

Definition setLoadedLogoUrl (url : jstr) (state : SystemConfigState) : SystemConfigState :=
  {| config := config state; loading := loading state; loadedLogoUrl := url |}.

Definition setLoading (l : bool) (state : SystemConfigState) : SystemConfigState :=
  {| config := config state; loading := l; loadedLogoUrl := loadedLogoUrl state |}.

Definition getSystemName (state : SystemConfigState) : jstr := systemName (config state).
Definition getLogo (state : SystemConfigState) : jstr := logo (config state).
Definition getFooterHtml (state : SystemConfigState) : option jstr := footerHtml (config state).

(** ** Currency library *)

Definition display_type_text (t : CurrencyDisplayType) : jstr :=
  match t with USD => js "USD" | CNY => js "CNY" | TOKENS => js "TOKENS" | CUSTOM => js "CUSTOM" end.

Definition DISPLAY_TYPE_VALUES : list CurrencyDisplayType := [USD; CNY; TOKENS; CUSTOM].

(** The display type a value is, if it is one. *)
Definition as_display_type (value : jsval) : option CurrencyDisplayType :=
  match value with
  | JStr s => find (λ t, str_eqb (display_type_text t) s) DISPLAY_TYPE_VALUES
  | _ => None
  end.

Definition isCurrencyDisplayType (value : jsval) : bool :=
  match as_display_type value with Some _ => true | None => false end.

Definition parseCurrencyDisplayType (value : jsval) (fallback : CurrencyDisplayType) : CurrencyDisplayType :=
  default fallback (as_display_type value).

(** [x && x > 0 ? x : d] *)
Definition positive_or (x : option num) (d : num) : num :=
  match x with
  | Some x => if num_truthy x && n_gt x (of_Z 0) then x else d
  | None => d
  end.

Definition getConfig (state : SystemConfigState) : CurrencyConfig :=
  let D := DEFAULT_CURRENCY_CONFIG in
  let c := default (stored_of D) (currency (config state)) in
  {| displayInCurrency := default (displayInCurrency D) (s_displayInCurrency c);
     quotaDisplayType := default (quotaDisplayType D) (s_quotaDisplayType c);
     quotaPerUnit := positive_or (s_quotaPerUnit c) (quotaPerUnit D);
     usdExchangeRate := positive_or (s_usdExchangeRate c) (usdExchangeRate D);
     customCurrencySymbol :=
       str_or (trim (default [] (s_customCurrencySymbol c))) (customCurrencySymbol D);
     customCurrencyExchangeRate :=
       positive_or (s_customCurrencyExchangeRate c) (customCurrencyExchangeRate D) |}.

Inductive DisplayMeta :=
  | MCurrency (symbol currencyCode : jstr) (exchangeRate : num)
  | MCustom (symbol : jstr) (exchangeRate : num)
  | MTokens (quotaPerUnit : num).

Definition usd_meta : DisplayMeta := MCurrency (js "$") (js "USD") (of_Z 1).

Definition getDisplayMeta (config : CurrencyConfig) : DisplayMeta :=
  match quotaDisplayType config with
  | CNY => MCurrency (js "¥") (js "CNY") (usdExchangeRate config)
  | CUSTOM => MCustom (customCurrencySymbol config) (customCurrencyExchangeRate config)
  | TOKENS => MTokens (quotaPerUnit config)
  | USD => usd_meta
  end.

Definition getBillingDisplayMeta (config : CurrencyConfig) : DisplayMeta :=
  match getDisplayMeta config with
  | MTokens _ => usd_meta
  | meta => meta
  end.

(** Digit counts are the small non-negative integers [toFixed] admits. *)
Record CurrencyFormatOptions := {
  o_digitsLarge : option nat;
  o_digitsSmall : option nat;
  o_abbreviate : option bool;
  o_minimumNonZero : option num
}.

Record FormatOptions := {
  digitsLarge : nat;
  digitsSmall : nat;
  abbreviate : bool;
  minimumNonZero : num
}.

Definition DEFAULT_FORMAT_OPTIONS : FormatOptions :=
  {| digitsLarge := 2; digitsSmall := 4; abbreviate := true; minimumNonZero := of_Z 0 |}.

Definition mergeOptions (options : option CurrencyFormatOptions) : FormatOptions :=
  let D := DEFAULT_FORMAT_OPTIONS in
  match options with
  | None => D
  | Some o => {| digitsLarge := default (digitsLarge D) (o_digitsLarge o);
                 digitsSmall := default (digitsSmall D) (o_digitsSmall o);
                 abbreviate := default (abbreviate D) (o_abbreviate o);
                 minimumNonZero := default (minimumNonZero D) (o_minimumNonZero o) |}
  end.

(** A dot and digits as few as possible, then zeros up to the end. *)
Definition zeros_re : regex :=
  Seqs [Grp 1 (Seq (Lit ".") (Star false Digit)); Plus (Lit "0"); Eol].
Definition dot_re : regex := Seqs [Lit "."; Eol].

Definition removeTrailingZeros (str : jstr) : jstr :=
  if negb (includes str (js ".")) then str
  else re_replace dot_re (λ _, []) (re_replace zeros_re (λ m, group0 m 1) str).

Definition formatNumberWithSuffix (value : num) (dLarge dSmall : nat) (abbr : bool) : jstr :=
  let abs := n_abs value in
  if abbr && n_ge abs (of_Z 1000) then
    removeTrailingZeros (toFixed (n_div value (of_Z 1000)) 1) ++ js "k"
  else
    let digits := if n_ge abs (of_Z 1) then dLarge else dSmall in
    removeTrailingZeros (toFixed value digits).

Section Format.
Context `{H : Host}.

Definition adjustForMinimum (value : num) (digits : nat) (minimum : num) : num :=
  if n_eq value (of_Z 0) then value
  else
    let threshold := if n_gt minimum (of_Z 0) then minimum
                     else math_pow (of_Z 10) (of_Z (- Z.of_nat digits)) in
    let abs := n_abs value in
    if n_gt abs (of_Z 0) && n_lt abs threshold then
      if n_gt value (of_Z 0) then threshold else n_neg threshold
    else value.

(** Options of the two number formats in use. *)
Definition currency_format (code : jstr) (digits : nat) : NumberFormatOptions := {|
  nf_style := Some (js "currency"); nf_currency := Some code;
  nf_currencyDisplay := Some (js "narrowSymbol"); nf_notation := None;
  nf_minimumFractionDigits := Some 0%nat; nf_maximumFractionDigits := Some digits |}.
Definition decimal_format (digits : nat) : NumberFormatOptions := {|
  nf_style := None; nf_currency := None; nf_currencyDisplay := None; nf_notation := None;
  nf_minimumFractionDigits := Some 0%nat; nf_maximumFractionDigits := Some digits |}.

Definition formatCurrencyValue (value : num) (options : FormatOptions) (meta : DisplayMeta) : jstr :=
  let digits := if n_ge (n_abs value) (of_Z 1) then digitsLarge options else digitsSmall options in
  let adjustedValue := adjustForMinimum value digits (minimumNonZero options) in
  match meta with
  | MTokens _ =>
      formatNumberWithSuffix value (digitsLarge options) (digitsSmall options) (abbreviate options)
  | MCurrency _ code _ => number_format (currency_format code digits) adjustedValue
  | MCustom symbol _ => symbol ++ number_format (decimal_format digits) adjustedValue
  end.

Definition getCurrencyDisplay (state : SystemConfigState) : CurrencyConfig * DisplayMeta :=
  let config := getConfig state in (config, getDisplayMeta config).

Definition formatCurrencyFromUSD (state : SystemConfigState) (amountUSD : option num)
    (options : option CurrencyFormatOptions) : jstr :=
  match amountUSD with
  | Some amount =>
      if isNaN amount then js "-"
      else
        let '(config, meta) := getCurrencyDisplay state in
        let merged := mergeOptions options in
        match meta with
        | MTokens _ =>
            let tokens := n_mul amount (quotaPerUnit config) in
            formatNumberWithSuffix tokens 0 (digitsSmall merged) (abbreviate merged)
        | MCurrency _ _ rate | MCustom _ rate => formatCurrencyValue (n_mul amount rate) merged meta
        end
  | None => js "-"
  end.

Definition formatBillingCurrencyFromUSD (state : SystemConfigState) (amountUSD : option num)
    (options : option CurrencyFormatOptions) : jstr :=
  match amountUSD with
  | Some amount =>
      if isNaN amount then js "-"
      else
        let meta := getBillingDisplayMeta (getCurrencyDisplay state).1 in
        let merged := mergeOptions options in
        let value := match meta with
                     | MCurrency _ _ rate | MCustom _ rate => n_mul amount rate
                     | MTokens _ => amount
                     end in
        formatCurrencyValue value merged meta
  | None => js "-"
  end.

Definition formatQuotaWithCurrency (state : SystemConfigState) (quota : option num)
    (options : option CurrencyFormatOptions) : jstr :=
  match quota with
  | Some q =>
      if isNaN q then js "-"
      else
        let '(config, _) := getCurrencyDisplay state in
        formatCurrencyFromUSD state (Some (n_div q (quotaPerUnit config))) options
  | None => js "-"
  end.

Definition getCurrencyLabel (state : SystemConfigState) : jstr :=
  let '(config, meta) := getCurrencyDisplay state in
  match meta with
  | MTokens _ => js "Tokens"
  | _ =>
      match quotaDisplayType config with
      | CNY => js "CNY"
      | CUSTOM => match meta with MCustom symbol _ => symbol | _ => js "Custom" end
      | _ => js "USD"
      end
  end.

Definition isCurrencyDisplayEnabled (state : SystemConfigState) : bool :=
  match (getCurrencyDisplay state).2 with MTokens _ => false | _ => true end.

Definition formatLocalCurrencyAmount (state : SystemConfigState) (amount : option num)
    (options : option CurrencyFormatOptions) : jstr :=
  match amount with
  | Some a =>
      if isNaN a then js "-"
      else
        let meta := getBillingDisplayMeta (getCurrencyDisplay state).1 in
        formatCurrencyValue a (mergeOptions options) meta
  | None => js "-"
  end.
End Format.

(** ** Facts: the repaired configuration *)

Lemma positive_or_pos x d : n_gt d (of_Z 0) = true → n_gt (positive_or x d) (of_Z 0) = true.
Proof. intros Hd. destruct x as [x|]; simpl; [|done]. destruct (_ && _) eqn:E; [|done]. by apply andb_true_iff in E as [_ ?]. Qed.

Lemma positive_truthy x : n_gt x (of_Z 0) = true → num_truthy x = true.
Proof. destruct x as [[]|[]| |[] m e]; done. Qed.

Lemma positive_or_id q d : n_gt q (of_Z 0) = true → positive_or (Some q) d = q.
Proof. intros Hq. unfold positive_or. by rewrite (positive_truthy q Hq), Hq. Qed.

(** Whatever is stored, the configuration in use has positive rates and a
    non-empty currency symbol, and a stored positive rate is used as it is. *)
Theorem config_repaired state :
  let c := getConfig state in
  n_gt (quotaPerUnit c) (of_Z 0) = true ∧ n_gt (usdExchangeRate c) (of_Z 0) = true ∧
  n_gt (customCurrencyExchangeRate c) (of_Z 0) = true ∧ customCurrencySymbol c ≠ [] ∧
  (∀ s q, currency (config state) = Some s → s_quotaPerUnit s = Some q → n_gt q (of_Z 0) = true →
    quotaPerUnit c = q) ∧
  (∀ s q, currency (config state) = Some s → s_usdExchangeRate s = Some q → n_gt q (of_Z 0) = true →
    usdExchangeRate c = q).
Proof.
  cbv zeta. unfold getConfig. cbn [quotaPerUnit usdExchangeRate customCurrencyExchangeRate customCurrencySymbol].
  split; [by apply positive_or_pos|]. split; [by apply positive_or_pos|].
  split; [by apply positive_or_pos|]. split.
  { by destruct (trim _). }
  split; intros s q -> Hs Hq; cbn [default id]; rewrite Hs; by apply positive_or_id.
Qed.

(** Updates of the store: one without currency settings leaves the
    currency configuration as it was, and of two updates the later one wins
    field by field. *)
Theorem set_config_frame n1 n2 state :
  (p_currency n1 = None → getConfig (setConfig n1 state) = getConfig state) ∧
  (∀ c2 q, p_currency n2 = Some c2 → s_quotaPerUnit c2 = Some q → n_gt q (of_Z 0) = true →
    quotaPerUnit (getConfig (setConfig n2 (setConfig n1 state))) = q) ∧
  (∀ c2, p_currency n2 = Some c2 → s_quotaPerUnit c2 = None →
    quotaPerUnit (getConfig (setConfig n2 (setConfig n1 state))) =
    quotaPerUnit (getConfig (setConfig n1 state))).
Proof.
  split; [|split].
  - intros E. unfold getConfig, setConfig. cbn [config currency]. rewrite E.
    destruct (currency (config state)) as [[]|]; reflexivity.
  - intros c2 q E Hq Hp. unfold getConfig, setConfig. cbn [config currency]. rewrite E.
    cbn [default spread_currency s_quotaPerUnit quotaPerUnit over id]. rewrite Hq. cbn [over]. by apply positive_or_id.
  - intros c2 E Hq. unfold getConfig, setConfig. cbn [config currency]. rewrite E.
    cbn [default spread_currency s_quotaPerUnit quotaPerUnit over id]. by rewrite Hq.
Qed.

(** Billing amounts are never shown as tokens: they are shown in the
    configured currency, in US dollars at rate 1 where the configuration is
    tokens or US dollars, whatever exchange rate is configured. *)
Theorem billing_never_tokens config :
  match getBillingDisplayMeta config with
  | MTokens _ => False
  | MCurrency _ code rate => quotaDisplayType config ≠ CUSTOM ∧
      (quotaDisplayType config = CNY → code = js "CNY" ∧ rate = usdExchangeRate config) ∧
      (quotaDisplayType config ≠ CNY → code = js "USD" ∧ rate = of_Z 1)
  | MCustom symbol rate => quotaDisplayType config = CUSTOM ∧
      symbol = customCurrencySymbol config ∧ rate = customCurrencyExchangeRate config
  end.
Proof. unfold getBillingDisplayMeta, getDisplayMeta. by destruct (quotaDisplayType config). Qed.

(** ** Facts: trailing zeros *)

(** The fraction without its trailing zeros. *)
Definition trim_zeros (frac : jstr) : jstr := rev (drop_while (N.eqb 48) (rev frac)).

Lemma trim_zeros_split frac : ∃ z, frac = trim_zeros frac ++ z ∧ Forall (λ c, N.eqb 48 c = true) z ∧
  ∀ a c, trim_zeros frac = a ++ [c] → c ≠ 48%N.
Proof.
  unfold trim_zeros. destruct (drop_while_suffix (N.eqb 48) (rev frac)) as (p & Hp & Hz).
  exists (rev p). split; [|split].
  - by rewrite <- rev_app_distr, <- Hp, rev_involutive.
  - by apply Forall_rev.
  - intros a c E. destruct (drop_while (N.eqb 48) (rev frac)) as [|d r] eqn:Ed; [by destruct a|].
    simpl in E. apply app_inj_tail in E as [_ <-]. apply drop_while_head in Ed. by intros ->.
Qed.

(** The end of the pattern: one zero or more, up to the end of the text. *)
Lemma zeros_tail {A} (k : mstate → option A) b s cs :
  rmatch (Seq (Plus (Lit "0")) (Seq Eol Eps)) k (MState b s cs) =
  if str_truthy s && forallb (N.eqb 48) s then k (MState (rev s ++ b) [] cs) else None.
Proof.
  change (Lit "0") with (Chr (N.eqb 48)).
  rewrite rmatch_seq. destruct (drop_while_suffix (N.eqb 48) s) as (z & Hs & Hz).
  set (t := drop_while (N.eqb 48) s) in *. destruct z as [|c z].
  - simpl in Hs. destruct t as [|d t'] eqn:Et; [by rewrite Hs|].
    assert (N.eqb 48 d = false) as Hd by by apply (drop_while_head (N.eqb 48) s d t').
    rewrite Hs. unfold Plus. rewrite rmatch_seq, rmatch_chr_cons, Hd. cbn [forallb]. by rewrite Hd.
  - rewrite Hs. rewrite rmatch_plus_run.
    + destruct t as [|d t'] eqn:Et.
      * rewrite app_nil_r. replace (forallb (N.eqb 48) (c :: z)) with true; [done|].
        symmetry. apply forallb_forall. intros x Hx%list_elem_of_In. rewrite Forall_forall in Hz. by apply Hz.
      * assert (N.eqb 48 d = false) as Hd by by apply (drop_while_head (N.eqb 48) s d t').
        rewrite forallb_app. cbn [forallb]. rewrite Hd, !andb_false_r. done.
    + done.
    + done.
    + destruct t as [|d t'] eqn:Et; [done|]. by apply (drop_while_head (N.eqb 48) s d t').
    + intros p1 d p2 _ _. done.
Qed.

Lemma zeros_re_no_dot pre s : (∀ t, s ≠ 46%N :: t) → match_at zeros_re pre s = None.
Proof.
  intros H. unfold match_at, zeros_re. cbn [Seqs foldr]. rewrite rmatch_seq, rmatch_grp, rmatch_seq.
  change (Lit ".") with (Chr (N.eqb 46)). destruct s as [|c s]; [done|]. rewrite rmatch_chr_cons.
  destruct (N.eqb_spec 46 c) as [<-|]; [by destruct (H s)|done].
Qed.

(** At the dot: the zeros that end the fraction are split off, if any. *)
Lemma zeros_re_at_dot pre a z : Forall (λ c, is_digit c = true) a → Forall (λ c, N.eqb 48 c = true) z →
  (∀ a' c, a = a' ++ [c] → c ≠ 48%N) → z ≠ [] →
  ∃ m, match_at zeros_re pre (46%N :: a ++ z) = Some m ∧ m_before m = rev pre ∧
    group0 m 1 = 46%N :: a ∧ m_after m = [].
Proof.
  intros Ha Hz Hlast Hne. unfold match_at, zeros_re. cbn [Seqs foldr].
  rewrite rmatch_seq, rmatch_grp, rmatch_seq. change (Lit ".") with (Chr (N.eqb 46)).
  rewrite rmatch_chr_cons. cbn [N.eqb Pos.eqb].
  eexists. split.
  - apply rmatch_lazy_run; [done| |].
    + unfold set_cap. cbn [behind ahead caps]. rewrite zeros_tail. replace (str_truthy z && _) with true; [reflexivity|].
      symmetry. apply andb_true_iff. split; [by destruct z|]. apply forallb_forall.
      intros x Hx%list_elem_of_In. rewrite Forall_forall in Hz. by apply Hz.
    + intros p1 c p2 E. unfold set_cap. cbn [behind ahead caps]. rewrite zeros_tail. destruct (forallb _ (c :: p2 ++ z)) eqn:Ef; [|by rewrite andb_false_r].
      exfalso. assert (∃ a' d, c :: p2 = a' ++ [d]) as (a' & d & Ed).
      { destruct (exists_last (l := c :: p2)) as (a' & d & Ed); [done|]. by exists a', d. }
      apply (Hlast (p1 ++ a') d); [by rewrite E, Ed, app_assoc|].
      rewrite app_comm_cons, Ed in Ef. rewrite !forallb_app in Ef. cbn [forallb] in Ef. lia.
  - cbn [m_before m_after]. split; [done|]. split; [|done].
    unfold group0, group. cbn [m_caps caps set_cap cap_lookup Nat.eqb default].
    change (46%N :: a ++ z) with ((46%N :: a) ++ z). unfold consumed. cbn [ahead].
    rewrite length_app. replace (_ - _)%nat with (length (46%N :: a)) by lia. by rewrite take_app_length.
Qed.

Lemma zeros_re_at_dot_none pre a : (∀ a' c, a = a' ++ [c] → c ≠ 48%N) →
  match_at zeros_re pre (46%N :: a) = None.
Proof.
  intros Hlast. apply match_at_None. unfold zeros_re. cbn [Seqs foldr].
  change (Lit "0") with (Chr (N.eqb 48)). change (Lit ".") with (Chr (N.eqb 46)).
  intros st' (st1 & (st1' & (st2 & (c & t & E & _ & ->)%Mr_chr_iff & (p & t2 & E2 & _ & ->)%Mr_star_chr)%Mr_seq_iff & ->)%Mr_grp_iff
    & (st3 & (z & t3 & E3 & Hz & Hzs & ->)%Mr_plus_chr & (st4 & [E4 ->]%Mr_eol_iff & _)%Mr_seq_iff)%Mr_seq_iff)%Mr_seq_iff.
  cbn [ahead after set_cap behind caps] in *. injection E as <- <-.
  rewrite E3, E4, app_nil_r in E2. destruct (exists_last Hz) as (z' & d & ->).
  apply (Hlast (p ++ z') d); [by rewrite E2, app_assoc|].
  apply Forall_app in Hzs as [_ Hd]. inversion Hd as [|? ? Hd' _]. by apply N.eqb_eq in Hd'.
Qed.

Lemma digit_not_dot c : is_digit c = true → c ≠ 46%N.
Proof. intros H ->. done. Qed.

(** Positions before the dot and inside the fraction do not match. *)
Lemma skip_int r int s : (∀ pre t, (∀ u, t ≠ 46%N :: u) → match_at r pre t = None) → 46%N ∉ int →
  search r [] (int ++ s) = search r (rev int) s.
Proof.
  intros Hr Hint. rewrite search_skip, app_nil_r; [done|].
  intros p1 c p2 ->. apply Hr. intros u [= -> _]. apply Hint. set_solver.
Qed.

Lemma skip_frac r pre frac : (∀ pre t, (∀ u, t ≠ 46%N :: u) → match_at r pre t = None) →
  Forall (λ c, is_digit c = true) frac → search r pre frac = None.
Proof.
  intros Hr Hf. apply search_none. intros p1 p2 ->. apply Hr. intros u ->.
  apply Forall_app in Hf as [_ Hf]. inversion Hf as [|? ? Hd _]. done.
Qed.

Lemma dot_re_no_dot pre s : (∀ t, s ≠ 46%N :: t) → match_at dot_re pre s = None.
Proof.
  intros H. unfold match_at, dot_re. cbn [Seqs foldr]. rewrite rmatch_seq.
  change (Lit ".") with (Chr (N.eqb 46)). destruct s as [|c s]; [done|]. rewrite rmatch_chr_cons.
  destruct (N.eqb_spec 46 c) as [<-|]; [by destruct (H s)|done].
Qed.

Lemma zeros_replaced int frac : 46%N ∉ int → Forall (λ c, is_digit c = true) frac →
  re_replace zeros_re (λ m, group0 m 1) (int ++ 46%N :: frac) = int ++ 46%N :: trim_zeros frac.
Proof.
  intros Hi Hf. destruct (trim_zeros_split frac) as (z & Hs & Hz & Hlast).
  set (a := trim_zeros frac) in *. unfold re_replace, re_exec.
  rewrite skip_int by (done || apply zeros_re_no_dot). destruct (decide (z = [])) as [->|Hne].
  - rewrite app_nil_r in Hs. cbn [search]. rewrite zeros_re_at_dot_none by by rewrite Hs.
    rewrite skip_frac by (done || apply zeros_re_no_dot). by rewrite Hs.
  - assert (Forall (λ c, is_digit c = true) a) as Ha by (rewrite Hs in Hf; by apply Forall_app in Hf as [? _]).
    destruct (zeros_re_at_dot (rev int) a z Ha Hz Hlast Hne) as (m & Hm & Hb & Hg & Haf).
    cbn [search]. rewrite Hs, Hm, Hb, Hg, Haf, rev_involutive, app_nil_r. done.
Qed.

Lemma dot_removed int a : 46%N ∉ int → Forall (λ c, is_digit c = true) a →
  re_replace dot_re (λ _, []) (int ++ 46%N :: a) = if str_truthy a then int ++ 46%N :: a else int.
Proof.
  intros Hi Ha. unfold re_replace, re_exec. rewrite skip_int by (done || apply dot_re_no_dot).
  cbn [search]. destruct a as [|c a].
  - unfold match_at, dot_re. cbn [Seqs foldr]. rewrite rmatch_seq.
    change (Lit ".") with (Chr (N.eqb 46)). rewrite rmatch_chr_cons. cbn [N.eqb Pos.eqb].
    cbn [rmatch ahead m_before m_after]. rewrite rev_involutive, !app_nil_r. done.
  - assert (match_at dot_re (rev int) (46%N :: c :: a) = None) as -> by done.
    rewrite skip_frac by (done || apply dot_re_no_dot). done.
Qed.

(** Removing trailing zeros from a decimal text removes exactly the zeros
    that end its fraction, and the dot when nothing is left of the fraction. *)
Theorem trailing_zeros_removed int frac :
  46%N ∉ int → Forall (λ c, is_digit c = true) frac →
  removeTrailingZeros (int ++ js "." ++ frac) =
    (if str_truthy (trim_zeros frac) then int ++ js "." ++ trim_zeros frac else int) ∧
  (∃ n, frac = trim_zeros frac ++ replicate n 48%N) ∧
  (∀ a c, trim_zeros frac = a ++ [c] → c ≠ 48%N).
Proof.
  intros Hi Hf. destruct (trim_zeros_split frac) as (z & Hs & Hz & Hlast). split; [|split; [|done]].
  - unfold removeTrailingZeros. change (js "." ++ ?x) with (46%N :: x).
    change (js ".") with [46%N]. rewrite (proj2 (includes_single _ 46%N)) by set_solver. cbn [negb].
    rewrite zeros_replaced by done. apply dot_removed; [done|].
    rewrite Hs in Hf. by apply Forall_app in Hf as [? _].
  - exists (length z). rewrite Hs at 1. f_equal. clear -Hz.
    induction Hz as [|c z Hc _ IH]; [done|]. simpl. apply N.eqb_eq in Hc as <-. by f_equal.
Qed.

Lemma trailing_zeros_removed_witness :
  removeTrailingZeros (js "12" ++ js "." ++ js "3400") =
    (if str_truthy (trim_zeros (js "3400")) then js "12" ++ js "." ++ trim_zeros (js "3400") else js "12") ∧
  (∃ n, js "3400" = trim_zeros (js "3400") ++ replicate n 48%N).
Proof.
  destruct (trailing_zeros_removed (js "12") (js "3400")) as (H1 & H2 & _).
  - apply (bool_decide_unpack (_ ∉ _)). vm_compute. exact I.
  - repeat constructor.
  - split; [exact H1|exact H2].
Defined.

(** The documentation of [formatCurrencyFromUSD] shows ten dollars in token
    display as the number 5,000,000; with the default options the code
    abbreviates it. *)
Definition token_state : SystemConfigState :=
  setConfig {| p_systemName := None; p_logo := None; p_footerHtml := None; p_demoSiteEnabled := None;
               p_displayTokenStatEnabled := None;
               p_currency := Some {| s_displayInCurrency := None; s_quotaDisplayType := Some TOKENS;
                 s_quotaPerUnit := None; s_usdExchangeRate := None; s_customCurrencySymbol := None;
                 s_customCurrencyExchangeRate := None |} |} (initialState [] []).

Theorem token_display_abbreviated (H : Host) :
  formatCurrencyFromUSD token_state (Some (of_Z 10)) None = js "5000k".
Proof. vm_compute. reflexivity. Qed.
