(* ===== verification/Format.v ===== *)
(** * Text formatting (lib/format.ts)

    Quota amounts, token counts, durations, timestamps and tag colours.  Dates
    are parsed and printed by the host. *)

From S2P Require Import Prelude JsNumber JsNumberFacts JsString JsRegex JsValue Host Currency.

Open Scope Z_scope.

Section Format.
Context `{H : Host}.

Definition nf (style currency notation : option jstr) (mn mx : option nat) : NumberFormatOptions := {|
  nf_style := style; nf_currency := currency; nf_currencyDisplay := None; nf_notation := notation;
  nf_minimumFractionDigits := mn; nf_maximumFractionDigits := mx |}.

(** [value == null || Number.isNaN(value) ? '-' : ...] *)
Definition or_dash (value : option num) (f : num → jstr) : jstr :=
  match value with Some v => if isNaN v then js "-" else f v | None => js "-" end.

Definition formatNumber (value : option num) : jstr :=
  or_dash value (number_format (nf None None None None (Some 2%nat))).

Definition formatCompactNumber (value : option num) : jstr :=
  or_dash value (number_format (nf None None (Some (js "compact")) None (Some 1%nat))).

Definition formatPercent (value : option num) : jstr :=
  or_dash value (λ v, number_format (nf (Some (js "percent")) None None None (Some 2%nat))
                        (n_div v (of_Z 100))).

Definition formatCurrencyUSD (state : SystemConfigState) (value : option num) : jstr :=
  formatCurrencyFromUSD state value None.

Definition usd5 : NumberFormatOptions :=
  nf (Some (js "currency")) (Some (js "USD")) None (Some 5%nat) (Some 5%nat).

Definition formatUSD (valueUSD : option num) : jstr := or_dash valueUSD (number_format usd5).

Definition options (large small : nat) (abbr : bool) : option CurrencyFormatOptions :=
  Some {| o_digitsLarge := Some large; o_digitsSmall := Some small; o_abbreviate := Some abbr;
          o_minimumNonZero := None |}.

Definition formatQuota (state : SystemConfigState) (quota : num) : jstr :=
  formatQuotaWithCurrency state (Some quota) (options 2 4 true).

Definition formatQuotaAsUSD (state : SystemConfigState) (quota : num) : jstr :=
  let '(config, _) := getCurrencyDisplay state in
  let amountUSD := if n_gt (quotaPerUnit config) (of_Z 0) then n_div quota (quotaPerUnit config) else of_Z 0 in
  number_format usd5 amountUSD.

Definition parseQuotaFromDollars (state : SystemConfigState) (amount : num) : num :=
  if negb (isFinite amount) then of_Z 0
  else
    let '(config, meta) := getCurrencyDisplay state in
    match meta with
    | MTokens _ => math_round amount
    | MCurrency _ _ exchangeRate | MCustom _ exchangeRate =>
        let usdAmount := if n_gt exchangeRate (of_Z 0) then n_div amount exchangeRate else amount in
        math_round (n_mul usdAmount (quotaPerUnit config))
    end.

Definition quotaUnitsToDollars (state : SystemConfigState) (units : num) : num :=
  let '(config, meta) := getCurrencyDisplay state in
  match meta with
  | MTokens _ => units
  | MCurrency _ _ exchangeRate | MCustom _ exchangeRate =>
      n_mul (n_div units (quotaPerUnit config)) exchangeRate
  end.

(** ** Timestamps: a number, a text, or none *)

Inductive Timestamp := TNum (n : num) | TText (s : jstr).

Inductive TimeUnit := Seconds | Milliseconds.

Definition toTimestampMs (timestamp : option Timestamp) (unit : TimeUnit) : option num :=
  match timestamp with
  | None => None
  | Some (TText []) => None
  | Some (TText s) =>
      let ms := date_parse s in
      if isNaN ms then None
      else if n_le (utc_full_year ms) (of_Z 1) then None
      else Some ms
  | Some (TNum n) =>
      if n_eq n (of_Z (-1)) || n_eq n (of_Z 0) then None
      else match unit with Seconds => Some (n_mul n (of_Z 1000)) | Milliseconds => Some n end
  end.

Definition formatTimestampToDate (timestamp : option Timestamp) (unit : TimeUnit) : jstr :=
  match toTimestampMs timestamp unit with
  | None => js "-"
  | Some ms => dayjs_format ms (js "YYYY-MM-DD HH:mm:ss")
  end.

(** [timestamp === -1] *)
Definition is_never (timestamp : option Timestamp) : bool :=
  match timestamp with Some (TNum n) => n_eq n (of_Z (-1)) | _ => false end.

Definition formatTimestamp (timestamp : option Timestamp) : jstr :=
  if is_never timestamp then js "Never" else formatTimestampToDate timestamp Seconds.

(** A date object is its time in milliseconds. *)
Definition formatDateTimeStr (date : num) : jstr := dayjs_format date (js "YYYY-MM-DD HH:mm:ss").
Definition formatDateStr (date : num) : jstr := dayjs_format date (js "YYYY-MM-DD").
Definition formatTimeStr (date : num) : jstr := dayjs_format date (js "HH:mm:ss").

Definition formatLogQuota (state : SystemConfigState) (quota : num) : jstr :=
  formatQuotaWithCurrency state (Some quota) (options 4 6 false).

Definition formatTokens (tokens : num) : jstr :=
  if n_eq tokens (of_Z 0) then js "-"
  else if n_lt tokens (of_Z 1000) then num_to_string tokens
  else if n_lt tokens (of_Z 1000000) then toFixed (n_div tokens (of_Z 1000)) 1 ++ js "K"
  else toFixed (n_div tokens (of_Z 1000000)) 2 ++ js "M".

Definition formatUseTime (seconds : num) : jstr :=
  if n_lt seconds (of_Z 60) then toFixed seconds 1 ++ js "s"
  else
    let minutes := math_floor (n_div seconds (of_Z 60)) in
    let remainingSeconds := n_rem seconds (of_Z 60) in
    num_to_string minutes ++ js "m " ++ toFixed remainingSeconds 0 ++ js "s".

Definition formatTimestampForInput (timestamp : option Timestamp) : jstr :=
  if is_never timestamp then []
  else match toTimestampMs timestamp Seconds with
       | None => []
       | Some ms => dayjs_format ms (js "YYYY-MM-DDTHH:mm")
       end.

Definition parseTimestampFromInput (value : jstr) : num :=
  if negb (str_truthy value) then of_Z (-1)
  else math_floor (n_div (date_of_input value) (of_Z 1000)).
End Format.

(** ** Colours

    The hash stays within 32 bits, where JavaScript's number arithmetic is
    exact; [hash << 5] wraps around, and so does [hash & hash]. *)

Definition hashStep (hash : Z) (unit : N) : Z :=
  wrap32 (Z.of_N unit + (wrap32 (Z.shiftl hash 5) - hash)).

Definition colorHash (str : jstr) : Z := fold_left hashStep str 0.

Definition stringToColor (str : jstr) : jstr :=
  if negb (str_truthy str) then js "gray"
  else
    let hash := colorHash str in
    let hue := Z.abs (Z.rem hash 360) in
    let saturation := 65 + Z.rem (Z.abs hash) 10 in
    let lightness := 55 + Z.rem (Z.abs (Z.shiftr hash 8)) 10 in
    js "hsl(" ++ int_to_string 10 hue ++ js ", " ++ int_to_string 10 saturation ++ js "%, "
      ++ int_to_string 10 lightness ++ js "%)".

(** ** Facts *)

Lemma wrap32_range z : - 2 ^ 31 <= wrap32 z < 2 ^ 31.
Proof.
  unfold wrap32. pose proof (Z.mod_pos_bound z (2 ^ 32)). destruct (Z.ltb_spec (z mod 2 ^ 32) (2 ^ 31)); lia.
Qed.

Lemma colorHash_range str : - 2 ^ 31 <= colorHash str < 2 ^ 31.
Proof.
  unfold colorHash. assert (∀ h, - 2 ^ 31 <= h < 2 ^ 31 → - 2 ^ 31 <= fold_left hashStep str h < 2 ^ 31) as Hgen.
  { induction str as [|c str IH]; intros h Hh; [done|]. apply IH, wrap32_range. }
  apply Hgen. lia.
Qed.

(** The numbers a step computes before it wraps are exact in a double. *)
Lemma hashStep_exact h c : - 2 ^ 31 <= h < 2 ^ 31 → (c < 65536)%N →
  safe (Z.of_N c + (wrap32 (Z.shiftl h 5) - h)).
Proof. intros Hh Hc. pose proof (wrap32_range (Z.shiftl h 5)). unfold safe. lia. Qed.

(** A tag colour is grey for no text and otherwise a valid HSL colour in
    the muted range meant for tags: hue 0 to 359, saturation 65 to 74 and
    lightness 55 to 64 percent, for every text. *)
Theorem color_in_range str : str ≠ [] →
  ∃ h s l, stringToColor str = js "hsl(" ++ int_to_string 10 h ++ js ", " ++ int_to_string 10 s
             ++ js "%, " ++ int_to_string 10 l ++ js "%)" ∧
    0 <= h < 360 ∧ 65 <= s < 75 ∧ 55 <= l < 65.
Proof.
  intros Hne. unfold stringToColor. destruct str as [|c str]; [done|]. cbn [str_truthy negb].
  set (hash := colorHash (c :: str)). do 3 eexists. split; [reflexivity|].
  pose proof (Z.rem_bound_abs hash 360). pose proof (Z.rem_bound_pos (Z.abs hash) 10).
  pose proof (Z.rem_bound_pos (Z.abs (Z.shiftr hash 8)) 10). lia.
Qed.

Lemma color_in_range_witness :
  ∃ h s l, stringToColor (js "vip") = js "hsl(" ++ int_to_string 10 h ++ js ", " ++ int_to_string 10 s
             ++ js "%, " ++ int_to_string 10 l ++ js "%)" ∧
    0 <= h < 360 ∧ 65 <= s < 75 ∧ 55 <= l < 65.
Proof. apply color_in_range. vm_compute. discriminate. Defined.

(** In token display the amount in the quota editor is the quota itself:
    reading back what was shown gives the same number of units, and an input
    that is no finite number counts as zero in every display. *)
Theorem quota_editor_tokens state z :
  safe z → quotaDisplayType (getConfig state) = TOKENS →
  parseQuotaFromDollars state (quotaUnitsToDollars state (of_Z z)) = of_Z z ∧
  parseQuotaFromDollars state NaN = of_Z 0 ∧ parseQuotaFromDollars state Infinity = of_Z 0.
Proof.
  intros Hz Ht. unfold parseQuotaFromDollars, quotaUnitsToDollars, getCurrencyDisplay, getDisplayMeta.
  rewrite Ht. rewrite of_Z_finite, math_round_of_Z by done. done.
Qed.

Lemma quota_editor_tokens_witness :
  parseQuotaFromDollars token_state (quotaUnitsToDollars token_state (of_Z 123456)) = of_Z 123456.
Proof. apply (quota_editor_tokens token_state 123456); [vm_compute; split; reflexivity|reflexivity]. Defined.

(** A duration is printed with the seconds rounded after the minutes are split
    off, so the seconds can read 60. *)
Theorem use_time_sixty_seconds :
  formatUseTime (parseFloat (js "119.7")) = js "1m 60s".
Proof. vm_compute. reflexivity. Qed.
