(* ===== verification/Pricing.v ===== *)
(** * Model prices and the price list (features/pricing)

    constants.ts, types.ts, lib/price.ts, lib/dynamic-price.ts,
    lib/filters.ts and lib/model-helpers.ts: token and request prices of a
    model in the configured currency, tiered (dynamic) prices read from its
    billing expression, and the filters and orders of the price list. *)

From S2P Require Import Prelude JsNumber JsNumberFacts JsString JsRegex JsValue Host Currency BillingExpr.

Open Scope Z_scope.

(** ** constants.ts *)

Definition SORT_NAME : jstr := js "name".
Definition SORT_PRICE_LOW : jstr := js "price-low".
Definition SORT_PRICE_HIGH : jstr := js "price-high".

Definition FILTER_ALL : jstr := js "all".

Definition QUOTA_ALL : jstr := js "all".
Definition QUOTA_TOKEN : jstr := js "token".
Definition QUOTA_REQUEST : jstr := js "request".

Definition ENDPOINT_ALL : jstr := js "all".

(** The key/value pairs of [ENDPOINT_TYPES]. *)
Definition ENDPOINT_TYPES : list (jstr * jstr) := [
  (js "ALL", js "all"); (js "OPENAI", js "openai"); (js "OPENAI_RESPONSE", js "openai-response");
  (js "ANTHROPIC", js "anthropic"); (js "GEMINI", js "gemini"); (js "JINA_RERANK", js "jina-rerank");
  (js "IMAGE_GENERATION", js "image-generation"); (js "EMBEDDINGS", js "embeddings");
  (js "OPENAI_VIDEO", js "openai-video") ].

Section Labels.
Context (t : jstr → jstr).

Definition getSortLabels : obj jstr :=
  [(SORT_NAME, t (js "Name")); (SORT_PRICE_LOW, t (js "Price: Low to High"));
   (SORT_PRICE_HIGH, t (js "Price: High to Low"))].

Definition getQuotaTypeLabels : obj jstr :=
  [(QUOTA_ALL, t (js "All Models")); (QUOTA_TOKEN, t (js "Token-based")); (QUOTA_REQUEST, t (js "Per Request"))].

Definition getEndpointTypeLabels : obj jstr :=
  [(js "all", t (js "All Types")); (js "openai", js "Chat"); (js "openai-response", js "Response");
   (js "anthropic", js "Anthropic"); (js "gemini", js "Gemini"); (js "jina-rerank", js "Rerank");
   (js "image-generation", t (js "Image")); (js "embeddings", t (js "Embeddings"));
   (js "openai-video", t (js "Video"))].
End Labels.

Definition EXCLUDED_GROUPS : list jstr := [[]; js "auto"].

Definition QUOTA_TYPE_TOKEN : num := of_Z 0.
Definition QUOTA_TYPE_REQUEST : num := of_Z 1.

Inductive TokenUnit := UnitM | UnitK.
Definition TOKEN_UNIT_DIVISORS (u : TokenUnit) : num :=
  match u with UnitM => of_Z 1 | UnitK => of_Z 1000 end.

(** ** types.ts *)

Record PublicPricingTier := {
  pp_label : jstr;
  pp_conditions : option (list TierCondition);
  pp_input_price : num;
  pp_output_price : num;
  pp_cache_read_price : option num;
  pp_cache_write_price : option num;
  pp_cache_write_1h_price : option num;
  pp_image_price : option num;
  pp_image_output_price : option num;
  pp_audio_input_price : option num;
  pp_audio_output_price : option num
}.

Inductive Modality := MText | MImage | MAudio | MVideo | MFile.

Inductive ModelCapability :=
  | function_calling | streaming | vision | json_mode | structured_output | reasoning | tools
  | system_prompt | web_search | code_interpreter | caching | embeddings.

#[export] Instance Modality_eq_dec : EqDecision Modality.
Proof. solve_decision. Defined.
#[export] Instance ModelCapability_eq_dec : EqDecision ModelCapability.
Proof. solve_decision. Defined.

Record PricingModel := {
  model_name : jstr;
  description : option jstr;
  vendor_name : option jstr;
  quota_type : num;
  model_ratio : num;
  completion_ratio : num;
  model_price : option num;
  cache_ratio : option num;
  create_cache_ratio : option num;
  image_ratio : option num;
  audio_ratio : option num;
  audio_completion_ratio : option num;
  enable_groups : option (list jstr);
  tags : option jstr;
  supported_endpoint_types : option (list jstr);
  group_ratio : option (obj num);
  billing_mode : option jstr;
  billing_expr : option jstr;
  billing_expr_by_group : option (obj jstr);
  pricing_tiers : option (list PublicPricingTier);
  context_length : option num;
  max_output_tokens : option num;
  knowledge_cutoff : option jstr;
  release_date : option jstr;
  parameter_count : option jstr;
  input_modalities : option (list Modality);
  output_modalities : option (list Modality);
  capabilities : option (list ModelCapability)
}.

Inductive PriceType :=
  | PInput | POutput | PCache | PCreateCache | PImage | PAudioInput | PAudioOutput.

(** ** price.ts *)

(** A text that is no digit or minus sign, a number with commas, maybe a k. *)
Definition price_re : regex :=
  Seqs [Bol; Grp 1 (Star true (Chr (λ c, negb (is_digit c || N.eqb c (chr "-")))));
        Grp 2 (Seqs [Plus (Chr (λ c, is_digit c || one_of (js "-,") c)); Opt (Lit "."); Star true Digit]);
        Grp 3 (Opt (Lit "k")); Eol].

(** The dot, if any, and zeros at the end. *)
Definition end_zeros_re : regex := Seqs [Opt (Lit "."); Plus (Lit "0"); Eol].

Definition stripTrailingZeros (formatted : jstr) : jstr :=
  match re_exec price_re formatted with
  | None => formatted
  | Some m =>
      let cleanNumber := replace_units (N.eqb (chr ",")) [] (group0 m 2) in
      let parsed := parseFloat cleanNumber in
      if isNaN parsed then formatted
      else
        let result := num_to_string parsed in
        let result := if includes result (js "e")
                      then re_replace end_zeros_re (λ _, []) (toFixed parsed 20) else result in
        group0 m 1 ++ result ++ group0 m 3
  end.

(** The loop over the enabled groups, from a minimum on. *)
Definition min_ratio_step (ratios : obj num) (minRatio : num) (group : jstr) : num :=
  match obj_get group ratios with
  | Some ratio => if n_lt ratio minRatio then ratio else minRatio
  | None => minRatio
  end.

Definition getMinGroupRatio (enableGroups : list jstr) (groupRatio : obj num) : num :=
  match enableGroups with
  | [] => of_Z 1
  | _ =>
      let minRatio := fold_left (min_ratio_step groupRatio) enableGroups Infinity in
      if n_eq minRatio Infinity then of_Z 1 else minRatio
  end.

Definition hasRatio (value : option num) : bool :=
  match value with Some v => isFinite v | None => false end.

Definition ratio_price (base : num) (value : option num) : num :=
  match value with
  | Some v => if isFinite v then n_mul base v else NaN
  | None => NaN
  end.

Definition calculateTokenPrice (model : PricingModel) (type : PriceType) (ratio : num) : num :=
  let base := n_mul (n_mul (model_ratio model) (of_Z 2)) ratio in
  match type with
  | PInput => base
  | POutput => n_mul base (completion_ratio model)
  | PCache => ratio_price base (cache_ratio model)
  | PCreateCache => ratio_price base (create_cache_ratio model)
  | PImage => ratio_price base (image_ratio model)
  | PAudioInput => ratio_price base (audio_ratio model)
  | PAudioOutput =>
      if hasRatio (audio_ratio model) && hasRatio (audio_completion_ratio model)
      then n_mul (n_mul base (default NaN (audio_ratio model))) (default NaN (audio_completion_ratio model))
      else NaN
  end.

Definition applyRechargeRate (price : num) (showWithRecharge : bool) (priceRate usdExchangeRate : num) : num :=
  if negb showWithRecharge then price else n_div (n_mul price priceRate) usdExchangeRate.

Definition price_options : option CurrencyFormatOptions :=
  Some {| o_digitsLarge := Some 5%nat; o_digitsSmall := Some 5%nat; o_abbreviate := Some false;
          o_minimumNonZero := None |}.

Section Price.
Context `{H : Host} (state : SystemConfigState).

Definition formatPrice (model : PricingModel) (type : PriceType) (tokenUnit : TokenUnit)
    (showWithRecharge : bool) (priceRate usdExchangeRate : num) : jstr :=
  if n_eq (quota_type model) QUOTA_TYPE_REQUEST then js "-"
  else
    let minRatio := getMinGroupRatio (default [] (enable_groups model)) (default [] (group_ratio model)) in
    let priceInUSD := calculateTokenPrice model type minRatio in
    let priceInUSD := applyRechargeRate priceInUSD showWithRecharge priceRate usdExchangeRate in
    let price := n_div priceInUSD (TOKEN_UNIT_DIVISORS tokenUnit) in
    formatCurrencyFromUSD state (Some price) price_options.

Definition formatGroupPrice (model : PricingModel) (group : jstr) (type : PriceType) (tokenUnit : TokenUnit)
    (showWithRecharge : bool) (priceRate usdExchangeRate : num) (groupRatio : obj num) : jstr :=
  if n_eq (quota_type model) QUOTA_TYPE_REQUEST then js "-"
  else
    let ratio := num_or (default NaN (obj_get group groupRatio)) (of_Z 1) in
    let priceInUSD := calculateTokenPrice model type ratio in
    let priceInUSD := applyRechargeRate priceInUSD showWithRecharge priceRate usdExchangeRate in
    let price := n_div priceInUSD (TOKEN_UNIT_DIVISORS tokenUnit) in
    formatCurrencyFromUSD state (Some price) price_options.

Definition formatFixedPrice (model : PricingModel) (group : jstr) (showWithRecharge : bool)
    (priceRate usdExchangeRate : num) (groupRatio : obj num) : jstr :=
  if negb (n_eq (quota_type model) QUOTA_TYPE_REQUEST) then js "-"
  else
    let priceInUSD := num_or (default NaN (model_price model)) (of_Z 0) in
    formatCurrencyFromUSD state
      (Some (applyRechargeRate priceInUSD showWithRecharge priceRate usdExchangeRate)) price_options.

Definition formatRequestPrice (model : PricingModel) (showWithRecharge : bool)
    (priceRate usdExchangeRate : num) : jstr :=
  if negb (n_eq (quota_type model) QUOTA_TYPE_REQUEST) then js "-"
  else
    let priceInUSD := num_or (default NaN (model_price model)) (of_Z 0) in
    formatCurrencyFromUSD state
      (Some (applyRechargeRate priceInUSD showWithRecharge priceRate usdExchangeRate)) price_options.
End Price.

(** ** dynamic-price.ts *)

Record DynamicPriceOptions := {
  tokenUnit : TokenUnit;
  showRechargePrice : option bool;
  priceRate : option num;
  usdExchangeRate_ : option num;
  groupRatioMultiplier : option num
}.

Record DynamicPriceEntry := {
  e_key : jstr;
  e_field : jstr;
  e_label : jstr;
  e_shortLabel : jstr;
  e_value : num;
  e_formatted : jstr;
  e_variable : BillingVar
}.

Record DynamicPricingSummary := {
  ds_tiers : list ParsedTier;
  ds_tier : option ParsedTier;
  ds_tierCount : nat;
  ds_hasRequestRules : bool;
  ds_isSpecialExpression : bool;
  ds_rawExpression : jstr;
  ds_entries : list DynamicPriceEntry;
  ds_primaryEntries : list DynamicPriceEntry;
  ds_secondaryEntries : list DynamicPriceEntry
}.

Definition PRIMARY_DYNAMIC_FIELDS : list jstr := [js "inputPrice"; js "outputPrice"].

Definition has_text (o : option jstr) : bool := match o with Some s => str_truthy s | None => false end.

Definition group_exprs (model : PricingModel) : list jstr :=
  own_values (default [] (billing_expr_by_group model)).

Definition isDynamicPricingModel (model : PricingModel) : bool :=
  (0 <? length (default [] (pricing_tiers model)))%nat
  || (bool_decide (billing_mode model = Some (js "tiered_expr")) && has_text (billing_expr model))
  || existsb str_truthy (group_exprs model).

Definition getDynamicExpression (model : PricingModel) (group : option jstr) : jstr :=
  let grouped := match group with
                 | Some ((_ :: _) as g) => default [] (obj_get g (default [] (billing_expr_by_group model)))
                 | _ => []
                 end in
  if str_truthy grouped then grouped
  else if has_text (billing_expr model) then default [] (billing_expr model)
  else default [] (find str_truthy (group_exprs model)).

Definition getDynamicDisplayGroupRatio (model : PricingModel) : num :=
  let groups := default [] (enable_groups model) in
  let ratios := default [] (group_ratio model) in
  match groups with
  | [] => of_Z 1
  | _ =>
      let minRatio := fold_left (min_ratio_step ratios) groups Infinity in
      if n_eq minRatio Infinity then of_Z 1 else minRatio
  end.

Definition getDynamicGroupRatio (model : PricingModel) (selectedGroup : jstr) : num :=
  default (of_Z 1) (obj_get selectedGroup (default [] (group_ratio model))).

Section Dynamic.
Context `{H : Host} (state : SystemConfigState).

Definition formatDynamicUnitPrice (valuePerMillionTokens : num) (options : DynamicPriceOptions) : jstr :=
  let groupRatio := default (of_Z 1) (groupRatioMultiplier options) in
  let rate := default (of_Z 1) (priceRate options) in
  let usdRate := default (of_Z 1) (usdExchangeRate_ options) in
  let priceUSD := n_div (n_mul valuePerMillionTokens groupRatio) (TOKEN_UNIT_DIVISORS (tokenUnit options)) in
  let displayPrice := applyRechargeRate priceUSD (default false (showRechargePrice options)) rate usdRate in
  formatBillingCurrencyFromUSD state (Some displayPrice) price_options.

(** The tier object of a published tier. *)
Definition publicTier (tier : PublicPricingTier) : ParsedTier := {|
  pt_label := pp_label tier;
  pt_conditions := default [] (pp_conditions tier);
  pt_fields := [
    (js "inputPrice", pp_input_price tier);
    (js "outputPrice", pp_output_price tier);
    (js "cacheReadPrice", default (of_Z 0) (pp_cache_read_price tier));
    (js "cacheCreatePrice", default (of_Z 0) (pp_cache_write_price tier));
    (js "cacheCreate1hPrice", default (of_Z 0) (pp_cache_write_1h_price tier));
    (js "imagePrice", default (of_Z 0) (pp_image_price tier));
    (js "imageOutputPrice", default (of_Z 0) (pp_image_output_price tier));
    (js "audioInputPrice", default (of_Z 0) (pp_audio_input_price tier));
    (js "audioOutputPrice", default (of_Z 0) (pp_audio_output_price tier))] |}.

Definition getDynamicPricingTiers (model : PricingModel) (group : option jstr) : outcome (list ParsedTier) :=
  if negb (isDynamicPricingModel model) then Ret []
  else match default [] (pricing_tiers model) with
       | (_ :: _) as tiers => Ret (map publicTier tiers)
       | [] =>
           '(billingExpr, _) ← splitBillingExprAndRequestRules (getDynamicExpression model group);
           Ret (parseTiersFromExpr billingExpr)
       end.

Definition hasDynamicRequestRules (model : PricingModel) : outcome bool :=
  if negb (isDynamicPricingModel model) then Ret false
  else
    '(_, requestRuleExpr) ← splitBillingExprAndRequestRules (getDynamicExpression model None);
    parsed ← tryParseRequestRuleExpr requestRuleExpr;
    Ret (match parsed with Some (_ :: _) => true | _ => false end).

Definition priceEntry (options : DynamicPriceOptions) (tier : ParsedTier) (variable : BillingVar)
  : option DynamicPriceEntry :=
  match bv_field variable with
  | None => None
  | Some field =>
      let value := default NaN (obj_get field (pt_fields tier)) in
      if negb (isFinite value) || n_le value (of_Z 0) then None
      else Some {| e_key := bv_key variable; e_field := field; e_label := bv_label variable;
                   e_shortLabel := bv_shortLabel variable; e_value := value;
                   e_formatted := formatDynamicUnitPrice value options; e_variable := variable |}
  end.

Definition is_primary (e : DynamicPriceEntry) : bool := bool_decide (e_field e ∈ PRIMARY_DYNAMIC_FIELDS).

Definition getDynamicPriceEntries (tier : option ParsedTier) (options : DynamicPriceOptions)
  : list DynamicPriceEntry :=
  match tier with
  | None => []
  | Some tier =>
      sort_stable (λ a b, is_primary a && negb (is_primary b))
        (omap (priceEntry options tier) BILLING_PRICING_VARS)
  end.

Definition getDynamicPricingSummary (model : PricingModel) (options : DynamicPriceOptions)
    (group : option jstr) : outcome (option DynamicPricingSummary) :=
  if negb (isDynamicPricingModel model) then Ret None
  else
    tiers ← getDynamicPricingTiers model group;
    let tier := head tiers in
    let entries := getDynamicPriceEntries tier options in
    let rawExpression := getDynamicExpression model group in
    rules ← hasDynamicRequestRules model;
    Ret (Some {|
      ds_tiers := tiers; ds_tier := tier; ds_tierCount := length tiers; ds_hasRequestRules := rules;
      ds_isSpecialExpression := str_truthy (trim rawExpression) && (length tiers =? 0)%nat;
      ds_rawExpression := rawExpression; ds_entries := entries;
      ds_primaryEntries := filter (λ e, is_primary e = true) entries;
      ds_secondaryEntries := filter (λ e, is_primary e = false) entries |}).
End Dynamic.

(** ** filters.ts *)

Definition contains_lower (s : option jstr) (lowerQuery : jstr) : bool :=
  match s with Some s => includes (toLowerCase s) lowerQuery | None => false end.

Definition matches_search (lowerQuery : jstr) (m : PricingModel) : bool :=
  contains_lower (Some (model_name m)) lowerQuery || contains_lower (description m) lowerQuery
  || contains_lower (tags m) lowerQuery || contains_lower (vendor_name m) lowerQuery.

Definition filterBySearch (models : list PricingModel) (query : jstr) : list PricingModel :=
  if negb (str_truthy query) then models
  else filter (λ m, matches_search (toLowerCase query) m = true) models.

Definition filterByVendor (models : list PricingModel) (vendor : jstr) : list PricingModel :=
  if str_eqb vendor FILTER_ALL then models else filter (λ m, vendor_name m = Some vendor) models.

Definition filterByGroup (models : list PricingModel) (group : jstr) : list PricingModel :=
  if str_eqb group FILTER_ALL then models
  else filter (λ m, group ∈ default [] (enable_groups m)) models.

Definition filterByQuotaType (models : list PricingModel) (quotaType : jstr) : list PricingModel :=
  if str_eqb quotaType QUOTA_ALL then models
  else
    let targetType := if str_eqb quotaType QUOTA_TOKEN then QUOTA_TYPE_TOKEN else QUOTA_TYPE_REQUEST in
    filter (λ m, n_eq (quota_type m) targetType = true) models.

Definition filterByEndpointType (models : list PricingModel) (endpointType : jstr) : list PricingModel :=
  if str_eqb endpointType ENDPOINT_ALL then models
  else filter (λ m, endpointType ∈ default [] (supported_endpoint_types m)) models.

Definition getModelPrice (model : PricingModel) : num :=
  if n_eq (quota_type model) (of_Z 0) then model_ratio model
  else num_or (default NaN (model_price model)) (of_Z 0).

Definition tag_sep (c : N) : bool := one_of (js ",;|") c || is_space c.

Definition parseTags (tagsString : option jstr) : list jstr :=
  match tagsString with
  | None | Some [] => []
  | Some s => filter is_nonempty (map trim (re_split (Plus (Chr tag_sep)) s))
  end.

Definition model_tags (m : PricingModel) : list jstr := map toLowerCase (parseTags (tags m)).

Definition filterByTag (models : list PricingModel) (tag : jstr) : list PricingModel :=
  if str_eqb tag FILTER_ALL then models
  else filter (λ m, has_text (tags m) = true ∧ toLowerCase tag ∈ model_tags m) models.

Record Filters := {
  f_search : jstr;
  f_vendor : jstr;
  f_group : jstr;
  f_quotaType : jstr;
  f_endpointType : jstr;
  f_tag : jstr;
  f_sortBy : jstr
}.

Section Sorting.
Context `{H : Host}.

Definition sortModels (models : list PricingModel) (sortBy : jstr) : list PricingModel :=
  if str_eqb sortBy SORT_NAME then
    sort_stable (λ a b, n_lt (localeCompare (model_name a) (model_name b)) (of_Z 0)) models
  else if str_eqb sortBy SORT_PRICE_LOW then
    sort_stable (λ a b, n_lt (n_sub (getModelPrice a) (getModelPrice b)) (of_Z 0)) models
  else if str_eqb sortBy SORT_PRICE_HIGH then
    sort_stable (λ a b, n_lt (n_sub (getModelPrice b) (getModelPrice a)) (of_Z 0)) models
  else models.

Definition filterAndSortModels (models : list PricingModel) (filters : Filters) : list PricingModel :=
  let result := filterBySearch models (f_search filters) in
  let result := filterByVendor result (f_vendor filters) in
  let result := filterByGroup result (f_group filters) in
  let result := filterByQuotaType result (f_quotaType filters) in
  let result := filterByEndpointType result (f_endpointType filters) in
  let result := filterByTag result (f_tag filters) in
  sortModels result (f_sortBy filters).

Definition extractAllTags (models : list PricingModel) : list jstr :=
  let tagSet := set_of_list (concat (map (λ m, if has_text (tags m) then model_tags m else []) models)) in
  sort_stable (λ a b, n_lt (localeCompare a b) (of_Z 0)) tagSet.
End Sorting.

(** ** model-helpers.ts *)

Definition getAvailableGroups {V} (model : PricingModel) (usableGroup : obj V) : list jstr :=
  filter (λ g, g ∈ default [] (enable_groups model))
    (filter (λ g, g ∉ EXCLUDED_GROUPS) (own_keys usableGroup)).

Definition isTokenBasedModel (model : PricingModel) : bool := n_eq (quota_type model) QUOTA_TYPE_TOKEN.

(** The replacement text of [String.replace]: two dollars, and a dollar with an
    ampersand, a backquote or an apostrophe, stand for a dollar, the match,
    and the text before and after it. *)
Fixpoint expand_replacement (m : rmatchres) (s : jstr) : jstr :=
  match s with
  | 36%N :: ((c :: t') as t) =>
      if N.eqb c 36 then 36%N :: expand_replacement m t'
      else if N.eqb c 38 then m_text m ++ expand_replacement m t'
      else if N.eqb c 96 then m_before m ++ expand_replacement m t'
      else if N.eqb c 39 then m_after m ++ expand_replacement m t'
      else 36%N :: expand_replacement m t
  | c :: t => c :: expand_replacement m t
  | [] => []
  end.

Definition replaceModelInPath (path modelName : jstr) : jstr :=
  re_replace_all (Lit "{model}") (λ m, expand_replacement m modelName) path.
