(* ===== verification/PricingFacts.v ===== *)
(** * What the price list shows (features/pricing)

    The minimum ratio, the order of price entries, missing prices, and the
    filters of the price list. *)

From S2P Require Import Prelude JsNumber JsNumberFacts JsString JsRegex JsValue Host Currency BillingExpr Pricing.

Open Scope Z_scope.

(** ** The order of numbers *)

(** Numbers other than NaN, compared as triples: sign and size class, then
    exponent and mantissa. *)
Definition key (x : num) : Z * Z * Z :=
  match x with
  | S754_zero _ => (0, 0, 0)
  | S754_infinity s => (if s then -2 else 2, 0, 0)
  | S754_nan => (3, 0, 0)
  | S754_finite s m e => if s then (-1, - e, - Zpos m) else (1, e, Zpos m)
  end.

Definition key_lt (a b : Z * Z * Z) : Prop :=
  a.1.1 < b.1.1 ∨ (a.1.1 = b.1.1 ∧ (a.1.2 < b.1.2 ∨ (a.1.2 = b.1.2 ∧ a.2 < b.2))).

Lemma n_lt_key x y : n_lt x y = true ↔ isNaN x = false ∧ isNaN y = false ∧ key_lt (key x) (key y).
Proof.
  unfold n_lt, SFltb, key_lt.
  destruct x as [[]|[]| |[] m e], y as [[]|[]| |[] m' e']; simpl; try (split; [done|lia]); try lia;
    destruct (Z.compare_spec e e'); simpl; try lia;
    change (PosDef.Pos.compare_cont Eq m m') with (Pos.compare m m');
    destruct (Pos.compare_spec m m'); simpl; split; (done || lia).
Qed.

Lemma n_lt_trans x y z : n_lt x y = true → n_lt y z = true → n_lt x z = true.
Proof. rewrite !n_lt_key. unfold key_lt. intros (? & ? & ?) (? & ? & ?). repeat split; [done|done|lia]. Qed.

(** ** The minimum ratio *)

Lemma min_ratio_fold ratios groups m :
  let r := fold_left (min_ratio_step ratios) groups m in
  (r = m ∨ ∃ g, g ∈ groups ∧ obj_get g ratios = Some r) ∧ (r = m ∨ n_lt r m = true) ∧
  ∀ g q, g ∈ groups → obj_get g ratios = Some q → n_lt q r = false.
Proof.
  cbv zeta. revert m. induction groups as [|g groups IH]; intros m; cbn [fold_left].
  { split; [by left|]. split; [by left|]. by intros ? ? ?%elem_of_nil. }
  destruct (IH (min_ratio_step ratios m g)) as (I1 & I2 & I3). set (r := fold_left _ _ _) in *.
  assert (Hs : (min_ratio_step ratios m g = m ∨
      (obj_get g ratios = Some (min_ratio_step ratios m g) ∧ n_lt (min_ratio_step ratios m g) m = true)) ∧
    ∀ q, obj_get g ratios = Some q → n_lt q (min_ratio_step ratios m g) = false).
  { unfold min_ratio_step. destruct (obj_get g ratios) as [q|]; [|by split; [left|]].
    destruct (n_lt q m) eqn:E; (split; [by auto|]); intros q' [= <-]; [|done].
    destruct (n_lt q q) eqn:Eq; [|done]. apply n_lt_key in Eq as (_ & _ & Hk). unfold key_lt in Hk. lia. }
  destruct Hs as [Hs1 Hs2]. set (m1 := min_ratio_step ratios m g) in *.
  assert (Hlt : ∀ x, n_lt x m1 = false → n_lt x r = false).
  { intros x Hx. destruct I2 as [->|I2]; [done|]. destruct (n_lt x r) eqn:E; [|done].
    by rewrite (n_lt_trans x r m1) in Hx. }
  split; [|split].
  - destruct I1 as [E|(g' & ? & ?)]; [|right; exists g'; by split; [right|]].
    rewrite E. destruct Hs1 as [->|[? _]]; [by left|right; exists g; by split; [left|]].
  - destruct I2 as [->|I2]; [destruct Hs1 as [->|[_ ?]]; auto|].
    destruct Hs1 as [->|[_ ?]]; [by right|right; by eapply n_lt_trans].
  - intros g' q [->|Hg]%elem_of_cons Hq; [by apply Hlt, Hs2|by eapply I3].
Qed.

(** The ratio a model is listed with is the smallest of its enabled
    groups: it is 1 when no enabled group has a finite ratio, otherwise the
    ratio of an enabled group that no other enabled group undercuts. *)
Theorem min_group_ratio_least groups ratios :
  let r := getMinGroupRatio groups ratios in
  (r = of_Z 1 ∧ ∀ g q, g ∈ groups → obj_get g ratios = Some q → n_lt q Infinity = false) ∨
  ((∃ g, g ∈ groups ∧ obj_get g ratios = Some r) ∧
   ∀ g q, g ∈ groups → obj_get g ratios = Some q → n_lt q r = false).
Proof.
  cbv zeta. unfold getMinGroupRatio. destruct groups as [|g0 groups].
  { left. split; [done|]. by intros ? ? ?%elem_of_nil. }
  destruct (min_ratio_fold ratios (g0 :: groups) Infinity) as (I1 & I2 & I3).
  set (r := fold_left _ _ _) in *. destruct (n_eq r Infinity) eqn:E.
  - left. split; [done|]. intros g q Hg Hq. destruct I2 as [<-|I2]; [by eapply I3|].
    exfalso. unfold n_eq, SFeqb in E. unfold n_lt, SFltb in I2. by destruct (SFcompare r Infinity) as [[]|].
  - right. split; [|done]. destruct I1 as [Er|I1]; [|done]. by rewrite Er in E.
Qed.

(** ** Price entries *)

(** A stable sort that puts one class first is a stable partition. *)
Lemma sort_partition {A} (f : A → bool) l :
  sort_stable (λ a b, f a && negb (f b)) l = filter (λ x, f x = true) l ++ filter (λ x, f x = false) l.
Proof.
  assert (Hins : ∀ x l1 l2, Forall (λ y, f y = true) l1 → Forall (λ y, f y = false) l2 →
    insert_stable (λ a b, f a && negb (f b)) x (l1 ++ l2) =
    if f x then x :: l1 ++ l2 else l1 ++ x :: l2).
  { intros x l1 l2 H1 H2. destruct (f x) eqn:Ex.
    - destruct H1 as [|y l1 Hy H1]; [|simpl; by rewrite Hy, Ex].
      destruct H2 as [|y l2 Hy H2]; simpl; [done|]. by rewrite Hy.
    - induction H1 as [|y l1 Hy H1 IH]; simpl.
      + destruct H2 as [|y l2 Hy H2]; simpl; [done|]. by rewrite Hy.
      + by rewrite Hy, Ex, IH. }
  induction l as [|x l IH]; [done|]. cbn [sort_stable]. rewrite IH, Hins.
  - rewrite !filter_cons. destruct (f x) eqn:Ex; [by rewrite decide_True, decide_False|].
    by rewrite decide_False, decide_True.
  - apply Forall_forall. intros y Hy. by apply list_elem_of_filter in Hy as [? _].
  - apply Forall_forall. intros y Hy. by apply list_elem_of_filter in Hy as [? _].
Qed.

Section Entries.
Context `{H : Host} (state : SystemConfigState).

Lemma priceEntry_spec options tier v e : priceEntry state options tier v = Some e →
  isFinite (e_value e) = true ∧ n_gt (e_value e) (of_Z 0) = true ∧ e_variable e = v ∧
  obj_get (e_field e) (pt_fields tier) = Some (e_value e).
Proof.
  unfold priceEntry. destruct (bv_field v) as [f|]; [|done].
  destruct (obj_get f (pt_fields tier)) as [x|] eqn:Ex; [|done]. cbn [default id].
  destruct (isFinite x) eqn:Ef; [|done]. destruct (n_le x (of_Z 0)) eqn:El; [done|]. intros [= <-].
  cbn [e_value e_variable e_field]. split; [done|]. split; [|done].
  destruct x as [[]|[]| |[] m e']; done.
Qed.

(** The price entries of a tier are those of its prices that are positive
    and finite, once each; the input and output price come first and the order
    of the registry is kept within both halves, so the primary and the
    secondary entries of a summary together are its entries. *)
Theorem price_entries_partition tier options :
  let es := getDynamicPriceEntries state (Some tier) options in
  es = filter (λ e, is_primary e = true) es ++ filter (λ e, is_primary e = false) es ∧
  es ≡ₚ omap (priceEntry state options tier) BILLING_PRICING_VARS ∧
  Forall (λ e, isFinite (e_value e) = true ∧ n_gt (e_value e) (of_Z 0) = true ∧
               obj_get (e_field e) (pt_fields tier) = Some (e_value e)) es.
Proof.
  cbv zeta. unfold getDynamicPriceEntries.
  set (l := omap (priceEntry state options tier) BILLING_PRICING_VARS).
  split; [|split; [apply sort_stable_perm|]].
  - rewrite sort_partition. rewrite !filter_app, !list_filter_filter.
    assert (Hx : ∀ f1 f2 : bool, filter (λ x, is_primary x = f1 ∧ is_primary x = f2) l =
      if eqb f1 f2 then filter (λ x, is_primary x = f1) l else []).
    { intros f1 f2. clearbody l. induction l as [|e l IH]; [by destruct (eqb f1 f2)|].
      rewrite !filter_cons, IH. destruct f1, f2, (is_primary e) eqn:E; simpl; done. }
    rewrite !Hx. simpl. by rewrite app_nil_r.
  - apply Forall_forall. intros e He. rewrite elem_of_sort_stable in He.
    apply list_elem_of_omap in He as (v & _ & Hv). apply priceEntry_spec in Hv as (? & ? & _ & ?). done.
Qed.

(** ** Missing prices *)

Lemma n_mul_NaN_l x : n_mul NaN x = NaN.
Proof. by destruct x. Qed.
Lemma n_div_NaN_l x : n_div NaN x = NaN.
Proof. by destruct x. Qed.

(** The ratio a type of price needs, besides those every model has. *)
Definition ratio_missing (model : PricingModel) (type : PriceType) : bool :=
  match type with
  | PInput | POutput => false
  | PCache => negb (hasRatio (cache_ratio model))
  | PCreateCache => negb (hasRatio (create_cache_ratio model))
  | PImage => negb (hasRatio (image_ratio model))
  | PAudioInput => negb (hasRatio (audio_ratio model))
  | PAudioOutput => negb (hasRatio (audio_ratio model) && hasRatio (audio_completion_ratio model))
  end.

Lemma ratio_price_missing base o : hasRatio o = false → ratio_price base o = NaN.
Proof. unfold hasRatio, ratio_price. destruct o; [|done]. by intros ->. Qed.

Lemma missing_price_nan model type ratio :
  ratio_missing model type = true → calculateTokenPrice model type ratio = NaN.
Proof.
  unfold ratio_missing, calculateTokenPrice. destruct type; try done; rewrite negb_true_iff; intros E;
    try (by apply ratio_price_missing). by rewrite E.
Qed.

(** A price whose ratio the model lacks is shown as a dash, in the listing
    and for every group, whatever the unit, the recharge setting and the
    display currency. *)
Theorem missing_price_dash model type unit recharge rate usdRate group ratios :
  ratio_missing model type = true →
  formatPrice state model type unit recharge rate usdRate = js "-" ∧
  formatGroupPrice state model group type unit recharge rate usdRate ratios = js "-".
Proof.
  intros Hm. unfold formatPrice, formatGroupPrice. destruct (n_eq (quota_type model) _); [done|].
  rewrite !missing_price_nan by done. unfold applyRechargeRate.
  destruct recharge; cbn [negb]; rewrite ?n_mul_NaN_l, ?n_div_NaN_l; done.
Qed.
End Entries.

(** A chat model without image prices. *)
Definition sample_model : PricingModel := {|
  model_name := js "gpt-x"; description := None; vendor_name := Some (js "OpenAI");
  quota_type := of_Z 0; model_ratio := of_Z 2; completion_ratio := of_Z 4; model_price := None;
  cache_ratio := None; create_cache_ratio := None; image_ratio := None; audio_ratio := None;
  audio_completion_ratio := None; enable_groups := Some [js "default"]; tags := Some (js "Chat, Tools");
  supported_endpoint_types := Some [js "openai"]; group_ratio := None; billing_mode := None;
  billing_expr := None; billing_expr_by_group := None; pricing_tiers := None; context_length := None;
  max_output_tokens := None; knowledge_cutoff := None; release_date := None; parameter_count := None;
  input_modalities := None; output_modalities := None; capabilities := None |}.

Lemma missing_price_dash_witness :
  @formatPrice plain_host token_state sample_model PImage UnitM true (of_Z 1) (of_Z 7) = js "-".
Proof. apply (missing_price_dash (H := plain_host) _ _ _ _ _ _ _ [] []). reflexivity. Defined.

(** ** Filters *)

(** What a set of filters selects, each filter on its own. *)
Definition selects (f : Filters) (m : PricingModel) : Prop :=
  (f_search f = [] ∨ matches_search (toLowerCase (f_search f)) m = true) ∧
  (f_vendor f = FILTER_ALL ∨ vendor_name m = Some (f_vendor f)) ∧
  (f_group f = FILTER_ALL ∨ f_group f ∈ default [] (enable_groups m)) ∧
  (f_quotaType f = QUOTA_ALL ∨
   n_eq (quota_type m) (if str_eqb (f_quotaType f) QUOTA_TOKEN then QUOTA_TYPE_TOKEN else QUOTA_TYPE_REQUEST) = true) ∧
  (f_endpointType f = ENDPOINT_ALL ∨ f_endpointType f ∈ default [] (supported_endpoint_types m)) ∧
  (f_tag f = FILTER_ALL ∨ has_text (tags m) = true ∧ toLowerCase (f_tag f) ∈ model_tags m).

#[export] Instance selects_dec f m : Decision (selects f m).
Proof. unfold selects. apply _. Defined.

(** Skipping a filter or applying it, as one filter. *)
Lemma filter_or {A} (b : bool) (Q : Prop) `{!Decision Q} (P : A → Prop) `{∀ x, Decision (P x)} (l : list A) :
  (b = true ↔ Q) → (if b then l else filter P l) = filter (λ x, Q ∨ P x) l.
Proof.
  intros Hb. destruct b.
  - symmetry. apply filter_id, Forall_forall. intros x _. left. by apply Hb.
  - apply list_filter_iff. intros x. split; [by right|]. intros [Hq|?]; [|done]. by apply Hb in Hq.
Qed.

Lemma filtered_selects models f :
  filterByTag (filterByEndpointType (filterByQuotaType (filterByGroup (filterByVendor
    (filterBySearch models (f_search f)) (f_vendor f)) (f_group f)) (f_quotaType f))
    (f_endpointType f)) (f_tag f) = filter (selects f) models.
Proof.
  unfold filterBySearch, filterByVendor, filterByGroup, filterByQuotaType, filterByEndpointType, filterByTag.
  rewrite (filter_or (str_eqb (f_tag f) _) (f_tag f = FILTER_ALL)) by apply str_eqb_eq.
  rewrite (filter_or (str_eqb (f_endpointType f) _) (f_endpointType f = ENDPOINT_ALL)) by apply str_eqb_eq.
  rewrite (filter_or (str_eqb (f_quotaType f) _) (f_quotaType f = QUOTA_ALL)) by apply str_eqb_eq.
  rewrite (filter_or (str_eqb (f_group f) _) (f_group f = FILTER_ALL)) by apply str_eqb_eq.
  rewrite (filter_or (str_eqb (f_vendor f) _) (f_vendor f = FILTER_ALL)) by apply str_eqb_eq.
  rewrite (filter_or (negb (str_truthy (f_search f))) (f_search f = [])) by (by destruct (f_search f)).
  rewrite !list_filter_filter. apply list_filter_iff. intros m. unfold selects. tauto.
Qed.

Lemma sortModels_perm `{H : Host} models by_ : sortModels models by_ ≡ₚ models.
Proof. unfold sortModels. repeat case_bool; [apply sort_stable_perm..|done]. Qed.

(** The price list shows exactly the models that every filter selects, as
    often as they occur, and in ascending order of their names when sorted by
    name (for any collation). *)
Theorem price_list_exact `{H : Host, !Collation H} models f :
  filterAndSortModels models f ≡ₚ filter (selects f) models ∧
  (f_sortBy f = SORT_NAME →
   StronglySorted (λ a b, n_lt (localeCompare (model_name b) (model_name a)) (of_Z 0) = false)
     (filterAndSortModels models f)).
Proof.
  unfold filterAndSortModels. rewrite filtered_selects. split; [apply sortModels_perm|].
  intros ->. unfold sortModels. change (str_eqb SORT_NAME SORT_NAME) with true. cbn iota.
  assert (StrictWeak (λ a b, n_lt (localeCompare (model_name a) (model_name b)) (of_Z 0))).
  { split; intros x y; [apply (before_asym (λ a b, n_lt (localeCompare a b) (of_Z 0)))|].
    intros z. apply (before_negtrans (λ a b, n_lt (localeCompare a b) (of_Z 0))). }
  apply (sort_stable_sorted (λ a b, n_lt (localeCompare (model_name a) (model_name b)) (of_Z 0))).
Qed.

Lemma price_list_exact_witness :
  @filterAndSortModels plain_host [sample_model]
    {| f_search := js "GPT"; f_vendor := FILTER_ALL; f_group := js "default"; f_quotaType := QUOTA_TOKEN;
       f_endpointType := js "openai"; f_tag := js "tools"; f_sortBy := SORT_NAME |} ≡ₚ [sample_model].
Proof. apply (price_list_exact (H := plain_host)). Defined.

(** ** Tags *)

Lemma lower_unit_idemp c : lower_unit (lower_unit c) = lower_unit c.
Proof. unfold lower_unit. repeat case_bool; lia. Qed.

Lemma toLowerCase_idemp s : toLowerCase (toLowerCase s) = toLowerCase s.
Proof. unfold toLowerCase. rewrite map_map. apply map_ext. apply lower_unit_idemp. Qed.

Lemma model_tags_lower m t : t ∈ model_tags m → toLowerCase t = t.
Proof. intros (s & -> & _)%list_elem_of_fmap. apply toLowerCase_idemp. Qed.

(** The tag menu and the tag filter agree: a tag is offered exactly when
    filtering by it leaves a model, the tags offered are distinct and in lower
    case, and filtering by a tag does not depend on how it is capitalised
    (the tag named like the entry for all models apart). *)
Theorem tags_offered_select `{H : Host} models tag :
  toLowerCase tag ≠ FILTER_ALL → tag ≠ FILTER_ALL →
  (toLowerCase tag ∈ extractAllTags models ↔ filterByTag models tag ≠ []) ∧
  NoDup (extractAllTags models) ∧
  (∀ t, t ∈ extractAllTags models → toLowerCase t = t) ∧
  filterByTag models (toLowerCase tag) = filterByTag models tag.
Proof.
  intros Hlow Htag. unfold extractAllTags, filterByTag.
  assert (∀ t, t ≠ FILTER_ALL → str_eqb t FILTER_ALL = false) as Hne
    by (intros t Ht; unfold str_eqb; by rewrite bool_decide_eq_false_2).
  rewrite !Hne by done. rewrite toLowerCase_idemp.
  assert (Hin : ∀ t, t ∈ concat (map (λ m, if has_text (tags m) then model_tags m else []) models) ↔
    ∃ m, m ∈ models ∧ has_text (tags m) = true ∧ t ∈ model_tags m).
  { intros t. rewrite list_elem_of_In, in_concat. split.
    - intros (l & (m & <- & Hm%list_elem_of_In)%in_map_iff & Ht%list_elem_of_In). exists m.
      destruct (has_text (tags m)); [done|by apply elem_of_nil in Ht].
    - intros (m & Hm & Ht & Hmt). exists (model_tags m). split; [|by apply list_elem_of_In].
      apply in_map_iff. exists m. rewrite Ht. split; [done|by apply list_elem_of_In]. }
  split; [|split; [|split; [|done]]].
  - rewrite elem_of_sort_stable, elem_of_set_of_list, Hin. split.
    + intros (m & Hm & Ht & Hmt) E.
      assert (m ∈ @nil PricingModel) as []%elem_of_nil. rewrite <- E. by apply list_elem_of_filter.
    + destruct (filter _ models) as [|m l] eqn:E; [done|]. intros _. exists m.
      assert (m ∈ m :: l) as Hm by left. rewrite <- E in Hm. apply list_elem_of_filter in Hm. naive_solver.
  - rewrite sort_stable_perm. apply NoDup_set_of_list.
  - intros t. rewrite elem_of_sort_stable, elem_of_set_of_list, Hin. intros (m & _ & _ & Ht).
    by apply model_tags_lower in Ht.
Qed.

Lemma tags_offered_select_witness :
  js "tools" ∈ @extractAllTags plain_host [sample_model] ↔ filterByTag [sample_model] (js "Tools") ≠ [].
Proof. apply (tags_offered_select (H := plain_host) [sample_model] (js "Tools")); vm_compute; discriminate. Defined.
