(* ===== verification/ModelMetadata.v ===== *)
(** * Inferred model metadata (features/pricing/lib/seed.ts, model-metadata.ts)

    Metadata the backend does not send is inferred from names, tags and
    endpoints, and otherwise drawn from a generator seeded by the model's name.
    The generator's hidden state is passed explicitly; its arithmetic stays
    below 2^53, so the states are integers and only the drawn fractions are
    doubles. *)

From S2P Require Import Prelude JsNumber JsNumberFacts JsString JsRegex JsValue Host Pricing.

Open Scope Z_scope.

(** ** seed.ts *)

Definition seedStep (hash : Z) (unit : N) : Z := Z.lxor (wrap32 (hash * 33)) (Z.of_N unit).

Definition hashStringToSeed (input : jstr) : Z := Z.abs (wrap32 (fold_left seedStep input 5381)).

(** The generator's state after [seededRandom(seed)]. *)
Definition seededRandom (seed : Z) : Z := (if seed =? 0 then 1 else seed) mod 2 ^ 32.

(** One draw: the number and the next state. *)
Definition rand (state : Z) : num * Z :=
  let state := (state * 1664525 + 1013904223) mod 2 ^ 32 in
  (n_div (of_Z state) (of_Z 4294967296), state).

Definition randomInRange (min max : num) (state : Z) : num * Z :=
  let '(r, state) := rand state in (n_add min (n_mul r (n_sub max min)), state).

Definition randomIntInRange (min max : num) (state : Z) : num * Z :=
  let '(x, state) := randomInRange min (n_add max (of_Z 1)) state in (math_floor x, state).

(** ** model-metadata.ts: tables *)

Definition TEXT_INPUT_ENDPOINTS : list jstr :=
  [js "openai"; js "openai-response"; js "anthropic"; js "gemini"; js "embeddings"; js "jina-rerank"].
Definition IMAGE_OUTPUT_ENDPOINTS : list jstr := [js "image-generation"].
Definition VIDEO_OUTPUT_ENDPOINTS : list jstr := [js "openai-video"].
Definition EMBEDDING_ENDPOINTS : list jstr := [js "embeddings"; js "jina-rerank"].

Definition Dots : regex := Star true (Chr dot_unit).
Definition DotPlus : regex := Plus (Chr dot_unit).
Definition between (a b : string) (c : N) : bool := (chr a <=? c)%N && (c <=? chr b)%N.

Definition REASONING_NAME_PATTERNS : list regex := [
  Seqs [Bol; Lit "o"; Chr (between "1" "4"); Opt (Seq (Chr (one_of (js "-:_"))) DotPlus); Eol];
  Lit "reasoning"; Lit "thinking"; Lit "qwq"; Seq (Lit "deepseek-r") Digit;
  Seqs [Lit "grok"; Dots; Lit "-"; Alt (Lit "thinking") (Lit "reasoning")] ].

Definition VISION_NAME_PATTERNS : list regex := [
  Lit "vision"; Seq (Lit "vl") (Alt (Chr (one_of (js "-_"))) Eol); Lit "multimodal"; Lit "-omni" ].

Definition AUDIO_NAME_PATTERNS : list regex :=
  [Lit "audio"; Lit "whisper"; Lit "tts"; Lit "voice"; Lit "-realtime"].
Definition VIDEO_NAME_PATTERNS : list regex :=
  [Lit "video"; Lit "sora"; Lit "veo"; Lit "kling"; Lit "pika"].
Definition CODE_NAME_PATTERNS : list regex := [Lit "code"; Lit "-coder"].
Definition WEB_SEARCH_PATTERNS : list regex :=
  [Seqs [Lit "web"; Opt (Chr (one_of (js "-_ "))); Lit "search"]; Lit "-online"; Lit "perplexity"].

Definition KNOWLEDGE_CUTOFFS : list jstr :=
  [js "2023-04"; js "2023-10"; js "2023-12"; js "2024-04"; js "2024-06"; js "2024-08"; js "2024-10";
   js "2024-12"; js "2025-02"; js "2025-04"; js "2025-08"].

Definition PARAM_BUCKETS : list jstr :=
  [js "1.5B"; js "3B"; js "7B"; js "8B"; js "14B"; js "32B"; js "70B"; js "120B"; js "405B"].

Definition CONTEXT_BUCKETS : list num :=
  map of_Z [8192; 16384; 32768; 65536; 128000; 200000; 1000000].
Definition MAX_OUTPUT_BUCKETS : list num := map of_Z [2048; 4096; 8192; 16384; 32768; 65536].

Definition TAG_TO_CAPABILITY : obj ModelCapability := [
  (js "vision", vision); (js "multimodal", vision); (js "reasoning", reasoning);
  (js "thinking", reasoning); (js "tools", tools); (js "function", function_calling);
  (js "function-calling", function_calling); (js "streaming", streaming); (js "json", json_mode);
  (js "structured", structured_output); (js "search", web_search); (js "code", code_interpreter);
  (js "embedding", embeddings) ].

Definition TAG_TO_MODALITY : obj Modality := [
  (js "text", MText); (js "image", MImage); (js "audio", MAudio); (js "video", MVideo);
  (js "file", MFile); (js "document", MFile); (js "pdf", MFile) ].

(** ** model-metadata.ts: inference *)

(** The index is a truncated product; [None] where the array has none. *)
Definition pickFromBuckets {T} (buckets : list T) (state : Z) : option T * Z :=
  let '(r, state) := rand state in
  let i := trunc_Z (math_floor (n_mul r (of_Z (Z.of_nat (length buckets))))) in
  (if i <? 0 then None else buckets !! Z.to_nat i, state).

Definition parseModelTags (tagsString : option jstr) : list jstr :=
  match tagsString with
  | None | Some [] => []
  | Some s => filter is_nonempty (map (λ t, toLowerCase (trim t)) (re_split (Plus (Chr tag_sep)) s))
  end.

(** Patterns with the i flag: letters of the ASCII range match either case. *)
Definition ascii_lower (s : jstr) : jstr := map (λ c, if between "A" "Z" c then (c + 32)%N else c) s.

Definition nameMatches (name : jstr) (patterns : list regex) : bool :=
  existsb (λ re, re_test re (ascii_lower name)) patterns.

Definition hasAny (set : list jstr) (endpoints : list jstr) : bool :=
  existsb (λ e, bool_decide (e ∈ set)) endpoints.

Definition modality_order : list Modality := [MText; MImage; MAudio; MVideo; MFile].

Definition ordered (modalities : list Modality) : list Modality :=
  filter (λ m, m ∈ modalities) modality_order.

Definition given {A} (o : option A) : bool := match o with Some _ => true | None => false end.

(** [if (cond) set.add(x)], the set in order of insertion. *)
Definition add_if {A} (b : bool) (xs set : list A) : list A := if b then set ++ xs else set.

(** [if (set.size === 0) set.add(x)] *)
Definition or_else {A} (x : A) (set : list A) : list A := match set with [] => [x] | _ => set end.

Definition inferInputModalities (model : PricingModel) (tags endpoints : list jstr) (name : jstr)
  : list Modality :=
  let set := add_if ((length endpoints =? 0)%nat || hasAny TEXT_INPUT_ENDPOINTS endpoints) [MText] [] in
  let set := add_if (given (image_ratio model) || nameMatches name VISION_NAME_PATTERNS) [MImage] set in
  let set := add_if (given (audio_ratio model) || nameMatches name AUDIO_NAME_PATTERNS) [MAudio] set in
  let set := add_if (nameMatches name VIDEO_NAME_PATTERNS) [MVideo] set in
  let set := set ++ omap (λ tag, obj_get tag TAG_TO_MODALITY) tags in
  ordered (or_else MText set).

Definition audio_out_re : regex := Alts [Lit "tts"; Lit "voice"; Lit "audio-out"].

Definition inferOutputModalities (model : PricingModel) (endpoints : list jstr) (name : jstr)
  : list Modality :=
  let set := add_if (hasAny IMAGE_OUTPUT_ENDPOINTS endpoints) [MImage] [] in
  let set := add_if (hasAny VIDEO_OUTPUT_ENDPOINTS endpoints) [MVideo] set in
  let set := add_if (hasAny EMBEDDING_ENDPOINTS endpoints) [MText] set in
  let set := add_if (given (audio_completion_ratio model) || re_test audio_out_re (ascii_lower name)) [MAudio] set in
  ordered (or_else MText set).

Definition inferCapabilities (model : PricingModel) (tags_ endpoints : list jstr) (name : jstr)
    (outputs inputs : list Modality) : list ModelCapability :=
  let has e := bool_decide (js_of_string e ∈ endpoints) in
  let set := add_if (bool_decide (MText ∈ outputs) && negb (has "image-generation"))
               [streaming; system_prompt] [] in
  let set := add_if (negb (has "image-generation") && negb (has "embeddings") && negb (has "jina-rerank"))
               [function_calling; tools; json_mode; structured_output] set in
  let set := add_if (bool_decide (MImage ∈ inputs)) [vision] set in
  let set := add_if (given (cache_ratio model)) [caching] set in
  let set := add_if (hasAny EMBEDDING_ENDPOINTS endpoints) [embeddings] set in
  let set := add_if (nameMatches name REASONING_NAME_PATTERNS) [reasoning] set in
  let set := add_if (nameMatches name CODE_NAME_PATTERNS) [code_interpreter] set in
  let set := add_if (nameMatches name WEB_SEARCH_PATTERNS) [web_search] set in
  set_of_list (set ++ omap (λ tag, obj_get tag TAG_TO_CAPABILITY) tags_).

Definition gpt_re : regex :=
  Alts [Lit "gpt-4o"; Lit "gpt-4.1"; Lit "gpt-5"; Lit "o1"; Lit "o3"; Lit "o4"].
Definition gemini_re : regex :=
  Alts [Seqs [Lit "gemini"; Dots; Lit "-2"]; Seqs [Lit "gemini"; Dots; Lit "pro"];
        Seqs [Lit "gemini"; Dots; Lit "flash"]].
Definition old_re : regex := Alt (Lit "gpt-3.5") (Lit "claude-2").

(** Pair (context, maxOutput), and the next state. *)
Definition inferContextAndOutputs (name : jstr) (endpoints : list jstr) (state : Z) : (num * num) * Z :=
  let has e := bool_decide (js_of_string e ∈ endpoints) in
  let lower := toLowerCase name in
  let contains s := includes lower (js_of_string s) in
  let ret a b := ((of_Z a, of_Z b), state) in
  if has "embeddings" || has "jina-rerank" then ret 8192 0
  else if has "image-generation" || has "openai-video" then ret 4096 0
  else if contains "1m" || contains "-long" then ret 1000000 65536
  else if contains "200k" || contains "claude-3" || contains "claude-4" then ret 200000 16384
  else if contains "128k" || re_test gpt_re lower then ret 128000 16384
  else if re_test gemini_re lower then ret 1000000 8192
  else if re_test old_re lower then ret 16384 4096
  else
    let '(context, state) := pickFromBuckets CONTEXT_BUCKETS state in
    let '(out, state) := pickFromBuckets MAX_OUTPUT_BUCKETS state in
    let context := default NaN context in
    ((context, math_min context (default NaN out)), state).

Definition padStart2 (s : jstr) : jstr := replicate (2 - length s) 48%N ++ s.

(** Pair (release, cutoff), and the next state. *)
Definition releaseFor (cutoff : jstr) (r : num) : jstr :=
  match map string_to_number (split cutoff (js "-")) with
  | year :: month :: _ =>
      let offsetMonths := n_add (of_Z 4) (math_floor (n_mul r (of_Z 6))) in
      let releaseMonth := n_add month offsetMonths in
      let m1 := n_sub releaseMonth (of_Z 1) in
      let releaseYear := n_add year (math_floor (n_div m1 (of_Z 12))) in
      let finalMonth := n_add (n_rem m1 (of_Z 12)) (of_Z 1) in
      num_to_string releaseYear ++ js "-" ++ padStart2 (num_to_string finalMonth) ++ js "-15"
  | _ => []
  end.

Definition inferReleaseAndCutoff (state : Z) : (jstr * jstr) * Z :=
  let '(cutoff, state) := pickFromBuckets KNOWLEDGE_CUTOFFS state in
  let cutoff := default [] cutoff in
  let '(r, state) := rand state in
  ((releaseFor cutoff r, cutoff), state).

Record ModelMetadata := {
  md_context_length : num;
  md_max_output_tokens : num;
  md_knowledge_cutoff : jstr;
  md_release_date : jstr;
  md_parameter_count : jstr;
  md_input_modalities : list Modality;
  md_output_modalities : list Modality;
  md_capabilities : list ModelCapability
}.

Definition inferModelMetadata (model : PricingModel) : ModelMetadata :=
  let name := model_name model in
  let state := seededRandom (hashStringToSeed name) in
  let tags_ := parseModelTags (tags model) in
  let endpoints := default [] (supported_endpoint_types model) in
  let inputs := default (inferInputModalities model tags_ endpoints name) (input_modalities model) in
  let outputs := default (inferOutputModalities model endpoints name) (output_modalities model) in
  let caps := default (inferCapabilities model tags_ endpoints name outputs inputs) (capabilities model) in
  let '((context, maxOutput), state) := inferContextAndOutputs name endpoints state in
  let '((release, cutoff), state) := inferReleaseAndCutoff state in
  {| md_context_length := default context (context_length model);
     md_max_output_tokens := default maxOutput (max_output_tokens model);
     md_knowledge_cutoff := default cutoff (knowledge_cutoff model);
     md_release_date := default release (release_date model);
     md_parameter_count :=
       match parameter_count model with
       | Some p => p
       | None => default [] (pickFromBuckets PARAM_BUCKETS state).1
       end;
     md_input_modalities := inputs;
     md_output_modalities := outputs;
     md_capabilities := caps |}.

Section Text.
Context `{H : Host}.

Definition TOKEN_FORMAT : NumberFormatOptions := {|
  nf_style := None; nf_currency := None; nf_currencyDisplay := None; nf_notation := None;
  nf_minimumFractionDigits := None; nf_maximumFractionDigits := Some 1%nat |}.

Definition formatTokenCount (tokens : num) : jstr :=
  if negb (isFinite tokens) || n_le tokens (of_Z 0) then js "—"
  else if n_ge tokens (of_Z 1000000) then number_format TOKEN_FORMAT (n_div tokens (of_Z 1000000)) ++ js "M"
  else if n_ge tokens (of_Z 1000) then number_format TOKEN_FORMAT (n_div tokens (of_Z 1000)) ++ js "K"
  else number_format TOKEN_FORMAT tokens.

Definition formatYearMonth (value : jstr) : jstr :=
  if negb (str_truthy value) then js "—"
  else
    let parts := split value (js "-") in
    let part i := match parts !! i with Some s => string_to_number s | None => NaN end in
    let year := part 0%nat in
    let month := part 1%nat in
    if negb (isFinite year) || negb (isFinite month) then value
    else year_month_label year month.
End Text.

(** ** Vendors *)

Inductive ModelVendor :=
  | Vopenai
  | Vanthropic
  | Vgoogle
  | Vmeta
  | Vmistral
  | Vqwen
  | Vdeepseek
  | Vxai
  | Vcohere
  | Vbaidu
  | Vzhipu
  | Vmoonshot
  | Vminimax
  | Vtencent
  | Vbytedance
  | Vmidjourney
  | Vstability
  | Vunknown.

#[export] Instance ModelVendor_eq_dec : EqDecision ModelVendor.
Proof. solve_decision. Defined.

Definition VENDOR_LABELS (v : ModelVendor) : jstr :=
  match v with
  | Vopenai => js "OpenAI"
  | Vanthropic => js "Anthropic"
  | Vgoogle => js "Google"
  | Vmeta => js "Meta"
  | Vmistral => js "Mistral AI"
  | Vqwen => js "Alibaba (Qwen)"
  | Vdeepseek => js "DeepSeek"
  | Vxai => js "xAI"
  | Vcohere => js "Cohere"
  | Vbaidu => js "Baidu"
  | Vzhipu => js "Zhipu AI"
  | Vmoonshot => js "Moonshot AI"
  | Vminimax => js "MiniMax"
  | Vtencent => js "Tencent"
  | Vbytedance => js "ByteDance"
  | Vmidjourney => js "Midjourney"
  | Vstability => js "Stability AI"
  | Vunknown => js "Unknown"
  end.

Definition TOKENIZER_BY_VENDOR (v : ModelVendor) : option jstr :=
  match v with
  | Vopenai => Some (js "o200k_base")
  | Vanthropic => Some (js "Anthropic Claude tokenizer")
  | Vgoogle => Some (js "SentencePiece (Gemini)")
  | Vmeta => Some (js "Llama 3 tokenizer")
  | Vmistral => Some (js "Mistral tokenizer (BPE)")
  | Vqwen => Some (js "Qwen tokenizer (tiktoken-compat)")
  | Vdeepseek => Some (js "DeepSeek tokenizer (BPE)")
  | Vxai => Some (js "Grok tokenizer (BPE)")
  | Vcohere => Some (js "Cohere tokenizer")
  | Vbaidu => Some (js "Ernie tokenizer")
  | Vzhipu => Some (js "GLM tokenizer")
  | Vmoonshot => Some (js "Kimi tokenizer")
  | Vminimax => Some (js "ABAB tokenizer")
  | Vtencent => Some (js "Hunyuan tokenizer")
  | Vbytedance => Some (js "Doubao tokenizer")
  | _ => None
  end.

Inductive LicenseKind := KProprietary | KOpen | KOpenWeight | KUnknown.

Definition LICENSE_BY_VENDOR (v : ModelVendor) : jstr * LicenseKind :=
  match v with
  | Vopenai => (js "Proprietary (commercial)", KProprietary)
  | Vanthropic => (js "Proprietary (commercial)", KProprietary)
  | Vgoogle => (js "Proprietary (commercial)", KProprietary)
  | Vmeta => (js "Llama Community License", KOpenWeight)
  | Vmistral => (js "Apache 2.0 / Commercial", KOpenWeight)
  | Vqwen => (js "Tongyi Qianwen License", KOpenWeight)
  | Vdeepseek => (js "DeepSeek License", KOpenWeight)
  | Vxai => (js "Proprietary (commercial)", KProprietary)
  | Vcohere => (js "Proprietary (commercial)", KProprietary)
  | Vbaidu => (js "Proprietary (commercial)", KProprietary)
  | Vzhipu => (js "GLM-4 License", KOpenWeight)
  | Vmoonshot => (js "Proprietary (commercial)", KProprietary)
  | Vminimax => (js "Proprietary (commercial)", KProprietary)
  | Vtencent => (js "Hunyuan License", KOpenWeight)
  | Vbytedance => (js "Proprietary (commercial)", KProprietary)
  | Vmidjourney => (js "Proprietary (commercial)", KProprietary)
  | Vstability => (js "Stability AI Community License", KOpenWeight)
  | Vunknown => (js "Provider-specific", KUnknown)
  end.

Definition HOMEPAGE_BY_VENDOR (v : ModelVendor) : option jstr :=
  match v with
  | Vopenai => Some (js "https://platform.openai.com/docs/models")
  | Vanthropic => Some (js "https://docs.anthropic.com/claude/docs/models-overview")
  | Vgoogle => Some (js "https://ai.google.dev/models")
  | Vmeta => Some (js "https://llama.meta.com/")
  | Vmistral => Some (js "https://docs.mistral.ai/getting-started/models/")
  | Vqwen => Some (js "https://qwenlm.github.io/")
  | Vdeepseek => Some (js "https://api-docs.deepseek.com/")
  | Vxai => Some (js "https://x.ai/api")
  | Vcohere => Some (js "https://docs.cohere.com/docs/models")
  | Vbaidu => Some (js "https://cloud.baidu.com/product/wenxinworkshop")
  | Vzhipu => Some (js "https://open.bigmodel.cn/dev/api")
  | Vmoonshot => Some (js "https://platform.moonshot.cn/docs")
  | Vminimax => Some (js "https://platform.minimaxi.com/document/notice")
  | Vtencent => Some (js "https://cloud.tencent.com/document/product/1729")
  | Vbytedance => Some (js "https://www.volcengine.com/docs/82379")
  | Vmidjourney => Some (js "https://www.midjourney.com/")
  | Vstability => Some (js "https://platform.stability.ai/")
  | _ => None
  end.

Definition lits (l : list string) : regex := Alts (map Lit l).

(** The tests of [detectVendor], in order. *)
Definition VENDOR_TESTS : list (regex * ModelVendor) := [
  (Alts [Seq Bol (Lit "gpt"); Seqs [Bol; Lit "o"; Chr (between "1" "4")]; Lit "davinci"; Lit "babbage";
         Lit "whisper"; Lit "tts"; Seqs [Lit "dall"; Opt (Chr dot_unit); Lit "e"]; Lit "sora";
         Seq Bol (Lit "omni")], Vopenai);
  (Lit "claude", Vanthropic);
  (lits ["gemini"; "gemma"; "imagen"; "veo"; "palm"]%string, Vgoogle);
  (Alt (Lit "llama") (Seq Bol (Lit "codellama")), Vmeta);
  (lits ["mistral"; "mixtral"; "codestral"; "magistral"; "pixtral"]%string, Vmistral);
  (lits ["qwen"; "qwq"; "qvq"]%string, Vqwen);
  (Lit "deepseek", Vdeepseek);
  (Lit "grok", Vxai);
  (lits ["command"; "cohere"; "aya"]%string, Vcohere);
  (lits ["ernie"; "wenxin"]%string, Vbaidu);
  (lits ["glm"; "chatglm"; "cogview"; "cogvideo"]%string, Vzhipu);
  (lits ["kimi"; "moonshot"]%string, Vmoonshot);
  (lits ["abab"; "minimax"; "hailuo"]%string, Vminimax);
  (Lit "hunyuan", Vtencent);
  (lits ["doubao"; "seed"; "jimeng"]%string, Vbytedance);
  (lits ["midjourney"; "niji"]%string, Vmidjourney);
  (Alts [Seq Bol (Lit "sd-"); Seqs [Lit "stable"; Opt (Chr (one_of (js "-_"))); Lit "diffusion"]; Lit "sdxl"],
   Vstability) ].

Definition detectVendor (name : jstr) : ModelVendor :=
  let n := toLowerCase name in
  match find (λ t, re_test (fst t) n) VENDOR_TESTS with
  | Some (_, v) => v
  | None => Vunknown
  end.

(** Pair (tokenizer, note). *)
Definition inferTokenizer (model : PricingModel) (vendor : ModelVendor) : jstr * option jstr :=
  let name := toLowerCase (model_name model) in
  if bool_decide (vendor = Vopenai) then
    if re_test (lits ["gpt-3"; "davinci"; "babbage"; "whisper"; "tts"]%string) name
    then (js "cl100k_base", Some (js "Older GPT-3.5 family"))
    else (js "o200k_base", None)
  else (default (js "BPE (vendor-specific)") (TOKENIZER_BY_VENDOR vendor), None).

Record ApiInfo := {
  api_vendor : ModelVendor;
  api_vendor_label : jstr;
  api_tokenizer : jstr;
  api_tokenizer_note : option jstr;
  api_license : jstr;
  api_license_kind : LicenseKind;
  api_data_retention_days : num;
  api_training_opt_out : bool;
  api_homepage : option jstr
}.

Definition inferApiInfo (model : PricingModel) : ApiInfo :=
  let vendor := detectVendor (model_name model) in
  let tk := inferTokenizer model vendor in
  let license := LICENSE_BY_VENDOR vendor in
  let '(r, _) := rand (seededRandom (hashStringToSeed (model_name model ++ js ":api"))) in
  let retention := if bool_decide (vendor = Vopenai) then of_Z 30 else math_round (n_mul r (of_Z 90)) in
  {| api_vendor := vendor; api_vendor_label := VENDOR_LABELS vendor; api_tokenizer := tk.1;
     api_tokenizer_note := tk.2; api_license := license.1; api_license_kind := license.2;
     api_data_retention_days := retention; api_training_opt_out := true;
     api_homepage := HOMEPAGE_BY_VENDOR vendor |}.

(** ** Facts: the generator *)

Definition rand_state (s : Z) : Z := (s * 1664525 + 1013904223) mod 2 ^ 32.

Lemma rand_state_range s : 0 <= rand_state s < 2 ^ 32.
Proof. unfold rand_state. apply Z.mod_pos_bound. lia. Qed.

(** The products the generator forms are exact in doubles. *)
Lemma rand_state_exact s : 0 <= s < 2 ^ 32 → safe (s * 1664525 + 1013904223).
Proof. unfold safe. lia. Qed.

(** A draw times a small count is an exact fraction over 2^32. *)
Lemma draw_times s n : 0 < n <= 2 ^ 20 →
  n_mul (rand s).1 (of_Z n) =
  if rand_state s =? 0 then of_Z 0 else dyadic false (Z.to_pos (rand_state s * n)) 32.
Proof.
  intros Hn. unfold rand. cbn [fst]. fold (rand_state s). pose proof (rand_state_range s) as Hr.
  destruct (rand_state s) as [|p|p] eqn:E; [|clear E|lia].
  - destruct n as [|n|n]; [lia| |lia]. rewrite (of_Z_pos n) by (unfold safe; lia). done.
  - rewrite (of_Z_pos p) by (unfold safe; lia). rewrite n_div_2_32 by lia.
    destruct n as [|n|n]; [lia| |lia]. rewrite (of_Z_pos n) by (unfold safe; lia). rewrite <- dyadic_0.
    rewrite n_mul_dyadic by (lia || nia). done.
Qed.

Lemma floor_draw s n : 0 < n <= 2 ^ 20 →
  math_floor (n_mul (rand s).1 (of_Z n)) = of_Z (rand_state s * n / 2 ^ 32).
Proof.
  intros Hn. rewrite draw_times by done. pose proof (rand_state_range s) as Hr.
  destruct (Z.eqb_spec (rand_state s) 0) as [->|H0]; [done|].
  rewrite math_floor_dyadic by (rewrite ?Z2Pos.id by nia; nia). by rewrite Z2Pos.id by nia.
Qed.

Lemma draw_index s n : 0 < n → 0 <= rand_state s * n / 2 ^ 32 < n.
Proof.
  intros Hn. pose proof (rand_state_range s) as Hr. split; [apply Z.div_pos; nia|].
  apply Z.div_lt_upper_bound; nia.
Qed.

Lemma pick_some {T} (l : list T) s : l ≠ [] → Z.of_nat (length l) <= 2 ^ 20 →
  ∃ x, (pickFromBuckets l s).1 = Some x ∧ l !! Z.to_nat (rand_state s * Z.of_nat (length l) / 2 ^ 32) = Some x.
Proof.
  intros Hne Hl. set (n := Z.of_nat (length l)).
  assert (0 < n <= 2 ^ 20) as Hn.
  { unfold n. split; [destruct l; [done|simpl; lia]|done]. }
  pose proof (draw_index s n (proj1 Hn)) as Hi.
  destruct (lookup_lt_is_Some_2 l (Z.to_nat (rand_state s * n / 2 ^ 32))) as [x Hx]; [unfold n in Hi |- *; lia|].
  exists x. split; [|done]. unfold pickFromBuckets.
  replace (rand s) with ((rand s).1, (rand s).2) by by destruct (rand s).
  cbn [fst]. fold n. rewrite floor_draw, trunc_Z_of_Z by (done || unfold safe; lia).
  by destruct (Z.ltb_spec (rand_state s * n / 2 ^ 32) 0); [lia|].
Qed.

(** A draw from a table never falls outside it: for every state of the
    generator, picking from a non-empty table yields one of its entries. *)
Theorem pick_in_table {T} (buckets : list T) state :
  buckets ≠ [] → Z.of_nat (length buckets) <= 2 ^ 20 →
  ∃ x, (pickFromBuckets buckets state).1 = Some x ∧ x ∈ buckets.
Proof.
  intros Hne Hl. destruct (pick_some buckets state Hne Hl) as (x & Hp & Hx). exists x. split; [done|].
  by eapply list_elem_of_lookup_2.
Qed.

Lemma pick_in_table_witness :
  ∃ x, (pickFromBuckets PARAM_BUCKETS 4294967295).1 = Some x ∧ x ∈ PARAM_BUCKETS.
Proof. apply pick_in_table; [discriminate|vm_compute; discriminate]. Defined.

(** ** Facts: release dates *)

(** Months since year 0 of a text that starts with a year and a month. *)
Definition months (s : jstr) : Z :=
  match split s (js "-") with
  | y :: m :: _ => 12 * trunc_Z (string_to_number y) + trunc_Z (string_to_number m) - 1
  | _ => 0
  end.

Definition month_of (s : jstr) : Z :=
  match split s (js "-") with _ :: m :: _ => trunc_Z (string_to_number m) | _ => 0 end.

(** The release date depends on the draw only through its sixth. *)
Definition releaseAt (cutoff : jstr) (o : Z) : jstr :=
  match map string_to_number (split cutoff (js "-")) with
  | year :: month :: _ =>
      let releaseMonth := n_add month (n_add (of_Z 4) (of_Z o)) in
      let m1 := n_sub releaseMonth (of_Z 1) in
      num_to_string (n_add year (math_floor (n_div m1 (of_Z 12)))) ++ js "-"
        ++ padStart2 (num_to_string (n_add (n_rem m1 (of_Z 12)) (of_Z 1))) ++ js "-15"
  | _ => []
  end.

Lemma releaseFor_at cutoff s : releaseFor cutoff (rand s).1 = releaseAt cutoff (rand_state s * 6 / 2 ^ 32).
Proof.
  unfold releaseFor, releaseAt. destruct (map _ _) as [|y [|m l]]; [done|done|].
  by rewrite floor_draw by lia.
Qed.

Definition release_fits (cutoff : jstr) (o : Z) : bool :=
  let release := releaseAt cutoff o in
  (months release =? months cutoff + 4 + o) && (1 <=? month_of release) && (month_of release <=? 12).

Lemma releases_fit : forallb (λ c, forallb (release_fits c) [0; 1; 2; 3; 4; 5]) KNOWLEDGE_CUTOFFS = true.
Proof. vm_compute. reflexivity. Qed.

(** Inferred dates are plausible for every seed: the cutoff is one of the
    table's, and the release is a valid month four to nine months after it. *)
Theorem release_after_cutoff state :
  let '(release, cutoff) := (inferReleaseAndCutoff state).1 in
  cutoff ∈ KNOWLEDGE_CUTOFFS ∧ 1 <= month_of release <= 12 ∧
  months cutoff + 4 <= months release <= months cutoff + 9.
Proof.
  unfold inferReleaseAndCutoff. destruct (pick_some KNOWLEDGE_CUTOFFS state) as (c & Hp & Hc); [done|by vm_compute|].
  destruct (pickFromBuckets KNOWLEDGE_CUTOFFS state) as [o s1]. cbn [fst] in Hp. subst o. cbn [default id].
  pose proof (releaseFor_at c s1) as Hr. destruct (rand s1) as [r s2]. cbn [fst] in Hr |- *. rewrite Hr.
  apply list_elem_of_lookup_2 in Hc. split; [done|].
  pose proof (draw_index s1 6 ltac:(lia)) as Ho. set (o := rand_state s1 * 6 / 2 ^ 32) in *.
  pose proof releases_fit as Hf. rewrite forallb_forall in Hf. specialize (Hf c ltac:(by apply list_elem_of_In)).
  rewrite forallb_forall in Hf. specialize (Hf o). unfold release_fits in Hf.
  assert (In o [0; 1; 2; 3; 4; 5]) as Hin by (simpl; lia). specialize (Hf Hin). lia.
Qed.

(** The retention period shown is between 0 and 90 days for every model. *)
Theorem retention_bounds model :
  ∃ d, api_data_retention_days (inferApiInfo model) = of_Z d ∧ 0 <= d <= 90.
Proof.
  unfold inferApiInfo. set (s := seededRandom _).
  pose proof (draw_times s 90 ltac:(lia)) as Hd. pose proof (rand_state_range s) as Hr.
  destruct (rand s) as [r s']. cbn [fst] in Hd. cbn [api_data_retention_days].
  case_bool_decide; [by exists 30|]. rewrite Hd. destruct (Z.eqb_spec (rand_state s) 0) as [_|H0]; [by exists 0|].
  set (p := Z.to_pos (rand_state s * 90)).
  assert (Hp : Zpos p = rand_state s * 90) by (unfold p; rewrite Z2Pos.id; lia).
  rewrite math_round_dyadic by lia. eexists. split; [reflexivity|].
  split; [apply Z.div_pos; lia|]. apply Z.lt_succ_r, Z.div_lt_upper_bound; lia.
Qed.

(** ** Facts: modalities *)

Lemma ordered_nonempty set : set ≠ [] → ordered set ≠ [].
Proof.
  destruct set as [|m set]; [done|]. intros _ E.
  assert (m ∈ ordered (m :: set)) as Hm.
  { apply list_elem_of_filter. split; [by left|]. destruct m; set_solver. }
  rewrite E in Hm. by apply elem_of_nil in Hm.
Qed.

Lemma or_else_nonempty {A} (x : A) set : or_else x set ≠ [].
Proof. by destruct set. Qed.

(** Inferred modalities are never empty and always in the display order,
    without repetition; a model that only takes chat requests is given text on
    both sides. *)
Theorem modalities_ordered model tags_ endpoints name :
  let ins := inferInputModalities model tags_ endpoints name in
  let outs := inferOutputModalities model endpoints name in
  ins ≠ [] ∧ sublist ins modality_order ∧ outs ≠ [] ∧ sublist outs modality_order ∧
  (endpoints = [] → MText ∈ ins) ∧
  (hasAny TEXT_INPUT_ENDPOINTS endpoints = true → MText ∈ ins).
Proof.
  cbv zeta. unfold inferInputModalities, inferOutputModalities.
  split; [apply ordered_nonempty, or_else_nonempty|]. split; [apply sublist_filter|].
  split; [apply ordered_nonempty, or_else_nonempty|]. split; [apply sublist_filter|].
  assert (Htext : (length endpoints =? 0)%nat || hasAny TEXT_INPUT_ENDPOINTS endpoints = true → ∀ s1 s2 s3 s4,
    MText ∈ ordered (or_else MText (add_if s1 [MVideo] (add_if s2 [MAudio] (add_if s3 [MImage]
      (add_if ((length endpoints =? 0)%nat || hasAny TEXT_INPUT_ENDPOINTS endpoints) [MText] []))) ++ s4))).
  { intros -> s1 s2 s3 s4. apply list_elem_of_filter. split; [|by left]. by destruct s1, s2, s3; left. }
  split; [intros ->; by apply Htext|]. intros E. apply Htext. by rewrite E, orb_true_r.
Qed.
