(* ===== verification/Playground.v ===== *)
(** * Playground chat (features/playground)

    The messages of the playground conversation and the operations on them
    (lib/message-utils.ts), the request payload (lib/payload-builder.ts), and
    the streaming state machine made of hooks/use-stream-request.ts (server-sent
    events) and hooks/use-chat-handler.ts (what each event does to the
    conversation).

    [nanoid] is outside the repository: the identifiers it returns are
    arguments of the definitions that call it, in the order of the calls.  The
    event source is the package sse.js: its events, with the ready state and
    the HTTP status it shows when they fire, are the inputs of the machine, and
    so is whether [source.stream()] throws.  The functions of the React state
    setters are applied to the current conversation in the order of the calls. *)

From S2P Require Import Prelude JsNumber JsString JsValue.

Open Scope nat_scope.

(** ** Data (types.ts, constants.ts) *)

Inductive MessageRole := USER | ASSISTANT | SYSTEM.
Inductive MessageStatus := LOADING | STREAMING | COMPLETE | ERROR.

#[export] Instance MessageRole_eq_dec : EqDecision MessageRole.
Proof. solve_decision. Defined.
#[export] Instance MessageStatus_eq_dec : EqDecision MessageStatus.
Proof. solve_decision. Defined.

Definition MESSAGE_ROLES (r : MessageRole) : jstr :=
  match r with USER => js "user" | ASSISTANT => js "assistant" | SYSTEM => js "system" end.

(** [id] is missing on a version made by spreading a missing version. *)
Record MessageVersion := { id : option jstr; content : jstr }.

Record Reasoning := { reasoningContent : jstr; duration : num }.

Record Message := {
  key : jstr;
  from : MessageRole;
  versions : list MessageVersion;
  sources : option (list (jstr * jstr));
  reasoning : option Reasoning;
  isReasoningStreaming : option bool;
  isReasoningComplete : option bool;
  isContentComplete : option bool;
  status : option MessageStatus;
  errorCode : jsval
}.

Inductive ContentPart :=
  | TextPart (text : option jstr)
  | ImagePart (url : jstr).

(** [string | ContentPart[]] *)
Inductive MessageContent :=
  | TextContent (s : jstr)
  | PartsContent (parts : list ContentPart).

Record ChatCompletionMessage := { role : MessageRole; msgContent : MessageContent }.

Definition API_REQUEST_ERROR := js "Request error occurred".
Definition PARSE_ERROR := js "Error parsing response data".
Definition STREAM_START_ERROR := js "Error establishing connection".
Definition CONNECTION_CLOSED := js "Connection closed".
Definition INTERRUPTED := js "Generation was interrupted".

(** Object spreads that replace one property. *)
Definition with_versions (m : Message) vs : Message :=
  {| key := key m; from := from m; versions := vs; sources := sources m; reasoning := reasoning m;
     isReasoningStreaming := isReasoningStreaming m; isReasoningComplete := isReasoningComplete m;
     isContentComplete := isContentComplete m; status := status m; errorCode := errorCode m |}.
Definition with_reasoning (m : Message) r : Message :=
  {| key := key m; from := from m; versions := versions m; sources := sources m; reasoning := r;
     isReasoningStreaming := isReasoningStreaming m; isReasoningComplete := isReasoningComplete m;
     isContentComplete := isContentComplete m; status := status m; errorCode := errorCode m |}.
Definition with_streaming (m : Message) b : Message :=
  {| key := key m; from := from m; versions := versions m; sources := sources m; reasoning := reasoning m;
     isReasoningStreaming := Some b; isReasoningComplete := isReasoningComplete m;
     isContentComplete := isContentComplete m; status := status m; errorCode := errorCode m |}.
Definition with_status (m : Message) s : Message :=
  {| key := key m; from := from m; versions := versions m; sources := sources m; reasoning := reasoning m;
     isReasoningStreaming := isReasoningStreaming m; isReasoningComplete := isReasoningComplete m;
     isContentComplete := isContentComplete m; status := Some s; errorCode := errorCode m |}.
Definition with_errorCode (m : Message) e : Message :=
  {| key := key m; from := from m; versions := versions m; sources := sources m; reasoning := reasoning m;
     isReasoningStreaming := isReasoningStreaming m; isReasoningComplete := isReasoningComplete m;
     isContentComplete := isContentComplete m; status := status m; errorCode := e |}.

(** ** Messages (lib/message-utils.ts) *)

Definition createMessageVersion (nanoid : jstr) (c : jstr) : MessageVersion :=
  {| id := Some nanoid; content := c |}.

Definition getCurrentVersion (m : Message) : MessageVersion :=
  match versions m with v :: _ => v | [] => {| id := Some (js "default"); content := [] |} end.

Definition updateCurrentVersionContent (m : Message) (c : jstr) : Message :=
  with_versions m [{| id := id (getCurrentVersion m); content := c |}].

Definition createUserMessage (nanoid1 nanoid2 : jstr) (c : jstr) : Message :=
  {| key := nanoid1; from := USER; versions := [createMessageVersion nanoid2 c]; sources := None;
     reasoning := None; isReasoningStreaming := None; isReasoningComplete := None;
     isContentComplete := None; status := None; errorCode := JUndef |}.

Definition createLoadingAssistantMessage (nanoid1 nanoid2 : jstr) : Message :=
  {| key := nanoid1; from := ASSISTANT; versions := [createMessageVersion nanoid2 []]; sources := None;
     reasoning := None; isReasoningStreaming := Some false; isReasoningComplete := Some false;
     isContentComplete := Some false; status := Some LOADING; errorCode := JUndef |}.

Definition buildMessageContent (text : jstr) (imageUrls : list jstr) : MessageContent :=
  let validImages := filter (λ url, trim url ≠ []) imageUrls in
  match validImages with
  | [] => TextContent text
  | _ => PartsContent (TextPart (Some text) :: map (λ url, ImagePart (trim url)) validImages)
  end.

Definition is_text_part (p : ContentPart) : bool := match p with TextPart _ => true | _ => false end.

Definition getTextContent (c : MessageContent) : jstr :=
  match c with
  | TextContent s => s
  | PartsContent parts =>
      match find is_text_part parts with Some (TextPart (Some t)) => t | _ => [] end
  end.

Definition formatMessageForAPI (m : Message) : ChatCompletionMessage :=
  {| role := from m; msgContent := TextContent (content (getCurrentVersion m)) |}.

Definition isValidMessage (m : Message) : bool :=
  match versions m with
  | [] => false
  | v :: _ => if bool_decide (from m = ASSISTANT) && negb (str_truthy (trim (content v))) then false else true
  end.

(** *** Thinking tags *)

Definition THINK := js "<think>".
Definition END_THINK := js "</think>".

Record ThinkTags := { visibleContent : jstr; tagReasoning : jstr; hasUnclosedTag : bool }.

(** The loop; the position grows by at least fifteen on each round. *)
Fixpoint think_loop (fuel : nat) (c : jstr) (currentPos : nat) (visibleParts reasoningParts : list jstr)
    : list jstr * list jstr * bool :=
  match fuel with
  | O => (visibleParts, reasoningParts, false)
  | S fuel =>
      match indexOf c THINK currentPos with
      | None =>
          (if bool_decide (currentPos < length c)
           then visibleParts ++ [substring c currentPos (length c)] else visibleParts,
           reasoningParts, false)
      | Some openPos =>
          let visibleParts :=
            if bool_decide (currentPos < openPos)
            then visibleParts ++ [substring c currentPos openPos] else visibleParts in
          match indexOf c END_THINK (openPos + 7) with
          | None => (visibleParts, reasoningParts ++ [substring c (openPos + 7) (length c)], true)
          | Some closePos =>
              think_loop fuel c (closePos + 8) visibleParts
                (reasoningParts ++ [substring c (openPos + 7) closePos])
          end
      end
  end.

Definition parseThinkTags (c : jstr) : ThinkTags :=
  if negb (includes c THINK) then {| visibleContent := c; tagReasoning := []; hasUnclosedTag := false |}
  else
    let '(visibleParts, reasoningParts, hasUnclosed) := think_loop (S (length c)) c 0 [] [] in
    {| visibleContent := trim (join [] visibleParts);
       tagReasoning := trim (join [10; 10]%N reasoningParts);
       hasUnclosedTag := hasUnclosed |}.

(** *** Updates of the conversation *)

Definition updateLastAssistantMessage (ms : list Message) (updater : Message → Message) : list Message :=
  match last ms with
  | None => ms
  | Some m => if bool_decide (from m = ASSISTANT) then <[pred (length ms) := updater m]> ms else ms
  end.

Definition error_message (errorMessage : jsval) (code : jsval) (m : Message) : Message :=
  let m := updateCurrentVersionContent m (API_REQUEST_ERROR ++ js ": " ++ to_string errorMessage) in
  with_errorCode (with_streaming (with_status m ERROR) false) (js_or code JNull).

Definition updateAssistantMessageWithError (ms : list Message) (errorMessage errorCode : jsval) : list Message :=
  updateLastAssistantMessage ms (error_message errorMessage errorCode).

Definition processStreamingContent (m : Message) (contentChunk : jsval) : Message :=
  let current := content (getCurrentVersion m) in
  let fullContent := if truthy contentChunk then current ++ to_string contentChunk else current in
  let t := parseThinkTags fullContent in
  let finalReasoning :=
    if str_truthy (tagReasoning t)
    then Some {| reasoningContent := tagReasoning t; duration := of_Z 0 |} else reasoning m in
  with_streaming (with_reasoning (updateCurrentVersionContent m fullContent) finalReasoning) (hasUnclosedTag t).

(** [s || d] where [s] may be missing. *)
Definition opt_or (s : option jstr) (d : jstr) : jstr := str_or (default [] s) d.

Definition finalizeMessage (m : Message) (apiReasoningContent : option jstr) : Message :=
  let t := parseThinkTags (content (getCurrentVersion m)) in
  let finalReasoning := opt_or apiReasoningContent (opt_or (reasoningContent <$> reasoning m) (tagReasoning t)) in
  let d := match reasoning m with
           | Some r => if num_truthy (duration r) then duration r else of_Z 0
           | None => of_Z 0 end in
  with_streaming
    (with_reasoning (updateCurrentVersionContent m (visibleContent t))
       (if str_truthy finalReasoning then Some {| reasoningContent := finalReasoning; duration := d |} else None))
    false.

Definition is_stuck (m : Message) : bool :=
  bool_decide (from m = ASSISTANT) &&
  (bool_decide (status m = Some LOADING) || bool_decide (status m = Some STREAMING)).

(** The loop from the end: the last of the first [n] messages that is stuck. *)
Fixpoint last_stuck (n : nat) (ms : list Message) : option nat :=
  match n with
  | O => None
  | S i => match ms !! i with
           | Some m => if is_stuck m then Some i else last_stuck i ms
           | None => last_stuck i ms
           end
  end.

Definition sanitizeMessage (m : Message) : Message :=
  let finalized := finalizeMessage m None in
  let hasContent := match versions finalized with v :: _ => str_truthy (trim (content v)) | [] => false end in
  let hasReasoning := match reasoning finalized with
                      | Some r => str_truthy (trim (reasoningContent r)) | None => false end in
  if hasContent || hasReasoning then with_streaming (with_status finalized COMPLETE) false
  else with_streaming
         (with_status (updateCurrentVersionContent finalized (API_REQUEST_ERROR ++ js ": " ++ INTERRUPTED)) ERROR)
         false.

Definition sanitizeMessagesOnLoad (ms : list Message) : list Message :=
  match last_stuck (length ms) ms with
  | None => ms
  | Some targetIndex =>
      match ms !! targetIndex with
      | Some m => <[targetIndex := sanitizeMessage m]> ms
      | None => ms
      end
  end.

(** ** Request payload (lib/payload-builder.ts)

    The configuration and the switches are objects merged from the defaults
    and from storage, so they are kept as objects of the language. *)

Definition DEFAULT_CONFIG : obj jsval :=
  [(js "model", JStr (js "gpt-4o")); (js "group", JStr (js "default"));
   (js "temperature", JNum (string_to_number (js "0.7"))); (js "top_p", JNum (of_Z 1));
   (js "max_tokens", JNum (of_Z 4096)); (js "frequency_penalty", JNum (of_Z 0));
   (js "presence_penalty", JNum (of_Z 0)); (js "seed", JNull); (js "stream", JBool true)].

Definition DEFAULT_PARAMETER_ENABLED : obj jsval :=
  [(js "temperature", JBool true); (js "top_p", JBool true); (js "max_tokens", JBool false);
   (js "frequency_penalty", JBool true); (js "presence_penalty", JBool true); (js "seed", JBool false)].

Definition part_value (p : ContentPart) : jsval :=
  match p with
  | TextPart t => JObj [(js "type", JStr (js "text")); (js "text", match t with Some t => JStr t | None => JUndef end)]
  | ImagePart u => JObj [(js "type", JStr (js "image_url")); (js "image_url", JObj [(js "url", JStr u)])]
  end.

Definition content_value (c : MessageContent) : jsval :=
  match c with TextContent s => JStr s | PartsContent ps => JArr (map part_value ps) end.

Definition message_value (m : ChatCompletionMessage) : jsval :=
  JObj [(js "role", JStr (MESSAGE_ROLES (role m))); (js "content", content_value (msgContent m))].

Definition parameterKeys : list jstr :=
  [js "temperature"; js "top_p"; js "max_tokens"; js "frequency_penalty"; js "presence_penalty"; js "seed"].

Definition read (o : obj jsval) (k : jstr) : jsval := default JUndef (obj_get k o).

Definition add_parameter (config parameterEnabled payload : obj jsval) (k : jstr) : obj jsval :=
  if truthy (read parameterEnabled k)
  then let value := read config k in
       if is_nullish value then payload else obj_set k value payload
  else payload.

Definition buildChatCompletionPayload (ms : list Message) (config parameterEnabled : obj jsval) : obj jsval :=
  let processedMessages := map formatMessageForAPI (filter (λ m, isValidMessage m = true) ms) in
  let payload :=
    [(js "model", read config (js "model")); (js "group", read config (js "group"));
     (js "messages", JArr (map message_value processedMessages)); (js "stream", read config (js "stream"))] in
  fold_left (add_parameter config parameterEnabled) parameterKeys payload.

(** ** The chat handler (hooks/use-chat-handler.ts, hooks/use-stream-request.ts) *)

Inductive request :=
  | SseRequest (payload : obj jsval)
  | ApiRequest (payload : obj jsval).

Record ChatState := {
  messages : list Message;
  sseSource : bool;          (* sseSourceRef.current is set *)
  isStreamComplete : bool;
  toasts : list jsval;
  requests : list request
}.

Definition onMessageUpdate (st : ChatState) (updater : list Message → list Message) : ChatState :=
  {| messages := updater (messages st); sseSource := sseSource st; isStreamComplete := isStreamComplete st;
     toasts := toasts st; requests := requests st |}.
Definition set_source (st : ChatState) b : ChatState :=
  {| messages := messages st; sseSource := b; isStreamComplete := isStreamComplete st;
     toasts := toasts st; requests := requests st |}.
Definition set_complete (st : ChatState) b : ChatState :=
  {| messages := messages st; sseSource := sseSource st; isStreamComplete := b;
     toasts := toasts st; requests := requests st |}.
Definition toast_error (st : ChatState) v : ChatState :=
  {| messages := messages st; sseSource := sseSource st; isStreamComplete := isStreamComplete st;
     toasts := toasts st ++ [v]; requests := requests st |}.
Definition send_request (st : ChatState) r : ChatState :=
  {| messages := messages st; sseSource := sseSource st; isStreamComplete := isStreamComplete st;
     toasts := toasts st; requests := requests st ++ [r] |}.

(** *** What an update, the end or an error of the stream does *)

Inductive update_type := UpdateReasoning | UpdateContent.

Definition streamed_message (type : update_type) (chunk : jsval) (m : Message) : Message :=
  if bool_decide (status m = Some ERROR) then m
  else match type with
       | UpdateReasoning =>
           let r := {| reasoningContent := opt_or (reasoningContent <$> reasoning m) [] ++ to_string chunk;
                       duration := of_Z 0 |} in
           with_status (with_streaming (with_reasoning m (Some r)) true) STREAMING
       | UpdateContent => with_status (processStreamingContent m chunk) STREAMING
       end.

Definition handleStreamUpdate (type : update_type) (chunk : jsval) (st : ChatState) : ChatState :=
  onMessageUpdate st (λ prev, updateLastAssistantMessage prev (streamed_message type chunk)).

Definition completed_message (m : Message) : Message :=
  if bool_decide (status m = Some COMPLETE) || bool_decide (status m = Some ERROR) then m
  else with_status (finalizeMessage m None) COMPLETE.

Definition handleStreamComplete (st : ChatState) : ChatState :=
  onMessageUpdate st (λ prev, updateLastAssistantMessage prev completed_message).

Definition handleStreamError (error code : jsval) (st : ChatState) : ChatState :=
  onMessageUpdate (toast_error st error) (λ prev, updateAssistantMessageWithError prev error code).

(** *** The event source *)

Inductive sse_event :=
  | OnMessage (data : jstr)
  | OnError (readyState : num) (data : option jstr)
  | OnReadyStateChange (readyState : option num) (status : option num).

Definition closeSource (st : ChatState) : ChatState := set_source st false.

Definition handleError (errorMessage errorCode : jsval) (st : ChatState) : ChatState :=
  if isStreamComplete st then st else closeSource (handleStreamError errorMessage errorCode st).

(** [v?.[0]] *)
Definition first_element (v : jsval) : jsval :=
  match v with
  | JArr (x :: _) => x
  | JStr (c :: _) => JStr [c]
  | JObj o => read o (js "0")
  | _ => JUndef
  end.

(** [chunk.choices?.[0]?.delta]; reading a property of null throws. *)
Definition chunk_delta (chunk : jsval) : outcome jsval :=
  if is_nullish chunk then Throw else Ret (prop "delta" (first_element (prop "choices" chunk))).

Definition apply_delta (delta : jsval) (st : ChatState) : ChatState :=
  if truthy delta then
    let st := if truthy (prop "reasoning_content" delta)
              then handleStreamUpdate UpdateReasoning (prop "reasoning_content" delta) st else st in
    if truthy (prop "content" delta) then handleStreamUpdate UpdateContent (prop "content" delta) st else st
  else st.

Definition on_message (data : jstr) (st : ChatState) : ChatState :=
  if str_eqb data (js "[DONE]") then handleStreamComplete (closeSource (set_complete st true))
  else match json_parse data with
       | None => handleError (JStr PARSE_ERROR) JUndef st
       | Some chunk =>
           match chunk_delta chunk with
           | Throw => handleError (JStr PARSE_ERROR) JUndef st
           | Ret delta => apply_delta delta st
           end
       end.

(** The message and the code of an error event. *)
Definition error_details (data : option jstr) : jsval * jsval :=
  match data with
  | Some ((_ :: _) as d) =>
      match json_parse d with
      | Some parsed =>
          let e := prop "error" parsed in
          if truthy e then (js_or (prop "message" e) (JStr d), js_or (prop "code" e) JUndef)
          else (JStr d, JUndef)
      | None => (JStr d, JUndef)
      end
  | _ => (JStr API_REQUEST_ERROR, JUndef)
  end.

Definition on_error (readyState : num) (data : option jstr) (st : ChatState) : ChatState :=
  if n_eq readyState (of_Z 2) then st
  else let '(errorMessage, code) := error_details data in handleError errorMessage code st.

Definition on_ready_state_change (readyState status : option num) (st : ChatState) : ChatState :=
  match readyState, status with
  | Some r, Some s =>
      if n_ge r (of_Z 2) && negb (n_eq s (of_Z 200))
      then handleError (JStr (js "HTTP " ++ num_to_string s ++ js ": " ++ CONNECTION_CLOSED)) JUndef st
      else st
  | _, _ => st
  end.

Definition on_sse_event (e : sse_event) (st : ChatState) : ChatState :=
  match e with
  | OnMessage data => on_message data st
  | OnError readyState data => on_error readyState data st
  | OnReadyStateChange readyState status => on_ready_state_change readyState status st
  end.

Definition sendStreamRequest (stream_throws : bool) (payload : obj jsval) (st : ChatState) : ChatState :=
  let st := set_complete (set_source (send_request st (SseRequest payload)) true) false in
  if stream_throws then set_source (handleStreamError (JStr STREAM_START_ERROR) JUndef st) false else st.

Definition stopStream (st : ChatState) : ChatState := if sseSource st then set_source st false else st.

(** *** Requests and the stop button *)

Record ChoiceMessage := { choiceContent : option jstr; reasoning_content : option jstr }.

(** The answer to a request without streaming: the first choice (whose message
    may be missing), no choice, or the fields of the error that was thrown. *)
Inductive response :=
  | Choice (message : option ChoiceMessage)
  | NoChoice
  | Failure (dataMessage message code : option jstr).

Definition answered_message (c : option ChoiceMessage) (m : Message) : Message :=
  let v := {| id := match versions m with v :: _ => id v | [] => None end;
              content := opt_or (c ≫= choiceContent) [] |} in
  with_status (finalizeMessage (with_versions m [v]) (c ≫= reasoning_content)) COMPLETE.

Definition on_response (r : response) (st : ChatState) : ChatState :=
  match r with
  | NoChoice => st
  | Choice c => onMessageUpdate st (λ prev, updateLastAssistantMessage prev (answered_message c))
  | Failure dm m code =>
      handleStreamError (JStr (opt_or dm (opt_or m API_REQUEST_ERROR)))
        (match code with Some ((_ :: _) as c) => JStr c | _ => JUndef end) st
  end.

Definition sendStreamingChat (stream_throws : bool) (config enabled : obj jsval) (ms : list Message) (st : ChatState) : ChatState :=
  sendStreamRequest stream_throws (buildChatCompletionPayload ms config enabled) st.

(** The part of [sendNonStreamingChat] before the answer arrives. *)
Definition sendNonStreamingChat (config enabled : obj jsval) (ms : list Message) (st : ChatState) : ChatState :=
  send_request st (ApiRequest (buildChatCompletionPayload ms config enabled)).

Definition sendChat (stream_throws : bool) (config enabled : obj jsval) (ms : list Message) (st : ChatState) : ChatState :=
  if truthy (read config (js "stream")) then sendStreamingChat stream_throws config enabled ms st
  else sendNonStreamingChat config enabled ms st.

Definition stopped_message (m : Message) : Message :=
  if bool_decide (status m = Some LOADING) || bool_decide (status m = Some STREAMING)
  then with_status (finalizeMessage m None) COMPLETE else m.

Definition stopGeneration (st : ChatState) : ChatState :=
  onMessageUpdate (stopStream st) (λ prev, updateLastAssistantMessage prev stopped_message).

(** Everything that may happen to a conversation once a request is sent. *)
Inductive chat_event :=
  | Sse (e : sse_event)
  | Response (r : response)
  | Stop.

Definition chat_step (st : ChatState) (e : chat_event) : ChatState :=
  match e with
  | Sse e => on_sse_event e st
  | Response r => on_response r st
  | Stop => stopGeneration st
  end.

Definition chat_run (st : ChatState) (es : list chat_event) : ChatState := fold_left chat_step es st.
