(* ===== verification/PlaygroundThink.v ===== *)
(** * Thinking tags: the text and the thoughts of an answer

    [parseThinkTags] against a grammar of answers: visible texts alternating
    with thoughts between tags, the last thought possibly unclosed.  Every text
    is such an answer, and the loop returns its visible text and its thoughts. *)

From S2P Require Import Prelude JsNumber JsString JsValue Playground.

Open Scope nat_scope.

(** ** Answers *)

(** Visible text and the thought after it, the text after the last thought,
    and the thought whose tag is still open. *)
Record answer := {
  thoughts : list (jstr * jstr);
  rest : jstr;
  pending : option jstr
}.

Definition answer_ok (a : answer) : Prop :=
  Forall (λ vt, index_of vt.1 THINK = None ∧ index_of vt.2 END_THINK = None) (thoughts a) ∧
  index_of (rest a) THINK = None ∧
  match pending a with Some r => index_of r END_THINK = None | None => True end.

Definition render_thought (vt : jstr * jstr) : jstr := vt.1 ++ THINK ++ vt.2 ++ END_THINK.

Definition render (a : answer) : jstr :=
  concat (map render_thought (thoughts a)) ++ rest a ++
  match pending a with Some r => THINK ++ r | None => [] end.

Definition visible_text (a : answer) : jstr := concat (map fst (thoughts a)) ++ rest a.
Definition thought_texts (a : answer) : list jstr := map snd (thoughts a) ++ option_list (pending a).
Definition is_pending (a : answer) : bool := match pending a with Some _ => true | None => false end.

(** What the caller is meant to get: a text without tags as it is; otherwise
    the visible text and the thoughts separated by blank lines, trimmed. *)
Definition tags_of (a : answer) : ThinkTags :=
  match thoughts a, pending a with
  | [], None => {| visibleContent := rest a; tagReasoning := []; hasUnclosedTag := false |}
  | _, _ => {| visibleContent := trim (visible_text a);
               tagReasoning := trim (join [10; 10]%N (thought_texts a));
               hasUnclosedTag := is_pending a |}
  end.

(** ** Finding the tags *)

Lemma think_found v t : index_of v THINK = None → index_of (v ++ THINK ++ t) THINK = Some (length v).
Proof.
  intros H. apply (index_of_app 60%N (js "think>") v t); [|done].
  apply (bool_decide_unpack (_ ∉ _)). vm_compute. exact I.
Qed.

Lemma end_think_found v t : index_of v END_THINK = None → index_of (v ++ END_THINK ++ t) END_THINK = Some (length v).
Proof.
  intros H. apply (index_of_app 60%N (js "/think>") v t); [|done].
  apply (bool_decide_unpack (_ ∉ _)). vm_compute. exact I.
Qed.

Lemma indexOf_at pre s p : indexOf (pre ++ s) p (length pre) = option_map (Nat.add (length pre)) (index_of s p).
Proof. unfold indexOf. by rewrite drop_app_length. Qed.

Lemma substring_at pre u s : substring (pre ++ u ++ s) (length pre) (length pre + length u) = u.
Proof.
  unfold substring. rewrite drop_app_length. replace (_ - _) with (length u) by lia. apply take_app_length.
Qed.

Lemma substring_end pre s : substring (pre ++ s) (length pre) (length (pre ++ s)) = s.
Proof.
  pose proof (substring_at pre s []) as H. rewrite app_nil_r in H.
  by rewrite length_app.
Qed.

Lemma join_nil_concat {A} (l : list (list A)) : join [] l = concat l.
Proof. induction l as [|p [|q l] IH]; simpl in *; [done|by rewrite app_nil_r|]. by rewrite IH. Qed.

(** Pushing a part only when it is not empty does not change the joined text. *)
Lemma push_nonempty (b : bool) (V : list jstr) (s : jstr) : (b = false → s = []) →
  concat (if b then V ++ [s] else V) = concat V ++ s.
Proof.
  intros H. destruct b.
  - by rewrite concat_app; simpl; rewrite app_nil_r.
  - rewrite H by done. by rewrite app_nil_r.
Qed.

(** ** One round of the loop *)

Lemma think_open pre v s : index_of v THINK = None →
  indexOf (pre ++ v ++ THINK ++ s) THINK (length pre) = Some (length pre + length v).
Proof. intros Hv. by rewrite indexOf_at, think_found. Qed.

(** The same text seen from the position after the opening tag. *)
Lemma after_open (pre v s : jstr) : pre ++ v ++ THINK ++ s = (pre ++ v ++ THINK) ++ s.
Proof. by rewrite <- !app_assoc. Qed.

Lemma length_after_open (pre v : jstr) : length pre + length v + 7 = length (pre ++ v ++ THINK).
Proof. rewrite !length_app. change (length THINK) with 7. lia. Qed.

Lemma visible_pushed (pre v s : jstr) V :
  concat (if bool_decide (length pre < length pre + length v)
          then V ++ [substring (pre ++ v ++ s) (length pre) (length pre + length v)] else V) = concat V ++ v.
Proof.
  rewrite substring_at. apply push_nonempty. intros H. apply bool_decide_eq_false in H.
  apply nil_length_inv. lia.
Qed.

Lemma loop_rest fuel pre r V R : index_of r THINK = None →
  ∃ V', think_loop (S fuel) (pre ++ r) (length pre) V R = (V', R, false) ∧ concat V' = concat V ++ r.
Proof.
  intros Hr. cbn [think_loop]. rewrite indexOf_at, Hr. cbn [option_map]. eexists. split; [done|].
  rewrite substring_end. apply push_nonempty. intros H. apply bool_decide_eq_false in H.
  rewrite length_app in H. apply nil_length_inv. lia.
Qed.

Lemma loop_pending fuel pre v q V R : index_of v THINK = None → index_of q END_THINK = None →
  ∃ V', think_loop (S fuel) (pre ++ v ++ THINK ++ q) (length pre) V R = (V', R ++ [q], true) ∧ concat V' = concat V ++ v.
Proof.
  intros Hv Hq. cbn [think_loop]. rewrite think_open by done. cbv zeta.
  rewrite length_after_open.
  rewrite (after_open pre v q), indexOf_at, Hq, substring_end, <- after_open. cbn [option_map].
  eexists. split; [done|]. apply (visible_pushed pre v (THINK ++ q) V).
Qed.

Lemma loop_thought fuel pre v t s V R : index_of v THINK = None → index_of t END_THINK = None →
  ∃ V', think_loop (S fuel) (pre ++ v ++ THINK ++ t ++ END_THINK ++ s) (length pre) V R =
        think_loop fuel ((pre ++ v ++ THINK ++ t ++ END_THINK) ++ s) (length (pre ++ v ++ THINK ++ t ++ END_THINK)) V' (R ++ [t])
        ∧ concat V' = concat V ++ v.
Proof.
  intros Hv Ht. eexists. split.
  - cbn [think_loop]. rewrite think_open by done. cbv zeta. rewrite length_after_open.
    rewrite (after_open pre v), indexOf_at, end_think_found by done. cbn [option_map].
    rewrite substring_at, <- after_open. f_equal.
    + by rewrite <- !app_assoc.
    + rewrite !length_app. change (length END_THINK) with 8. lia.
  - apply (visible_pushed pre v (THINK ++ t ++ END_THINK ++ s) V).
Qed.

Lemma think_loop_spec ts r p fuel pre V R : let a := {| thoughts := ts; rest := r; pending := p |} in
  answer_ok a → length ts < fuel →
  ∃ V', think_loop fuel (pre ++ render a) (length pre) V R = (V', R ++ thought_texts a, is_pending a) ∧
        concat V' = concat V ++ visible_text a.
Proof.
  intros a. subst a. revert fuel pre V R. induction ts as [|[v t] ts IH]; intros [|fuel] pre V R Hok Hf; try (simpl in Hf; lia).
  - destruct Hok as (_ & Hr & Hp). unfold render, thought_texts, visible_text, is_pending. cbn [thoughts map concat app pending rest] in *.
    destruct p as [q|]; cbn [option_list]; [by apply loop_pending|].
    rewrite !app_nil_r. by apply loop_rest.
  - destruct Hok as (Hts & Hr & Hp). apply Forall_cons in Hts as [[Hv Ht] Hts]. cbn [fst snd] in *.
    set (a := {| thoughts := ts; rest := r; pending := p |}) in *.
    replace (pre ++ render {| thoughts := (v, t) :: ts; rest := r; pending := p |})
      with (pre ++ v ++ THINK ++ t ++ END_THINK ++ render a)
      by (unfold render, render_thought; cbn [thoughts rest pending map concat fst snd]; by rewrite <- !app_assoc).
    destruct (loop_thought fuel pre v t (render a) V R Hv Ht) as (V1 & -> & HV1).
    destruct (IH fuel (pre ++ v ++ THINK ++ t ++ END_THINK) V1 (R ++ [t])) as (V' & -> & HV'); [done|simpl in Hf; lia|].
    exists V'. split.
    + unfold thought_texts. cbn [thoughts map snd pending]. by rewrite <- app_assoc.
    + rewrite HV', HV1. unfold visible_text. cbn [thoughts map fst concat rest]. by rewrite !app_assoc.
Qed.

(** ** The whole function *)

Lemma includes_think v s : includes (v ++ THINK ++ s) THINK = true.
Proof.
  unfold includes. destruct (index_of (v ++ THINK ++ s) THINK) eqn:E; [done|].
  exfalso. revert E. induction v as [|d v IH]; cbn [app].
  - assert (startsWith (THINK ++ s) THINK = true) as H by (apply startsWith_true; by exists s).
    destruct (THINK ++ s) as [|c u] eqn:Ec; [done|]. rewrite index_of_cons, H. done.
  - rewrite index_of_cons. case_bool; [done|]. destruct (index_of (v ++ THINK ++ s) THINK); [done|]. by apply IH.
Qed.

Lemma render_thought_length ts : length ts ≤ length (concat (map render_thought ts)).
Proof.
  induction ts as [|[v t] ts IH]; [done|]. cbn [map concat length]. unfold render_thought at 1.
  rewrite !length_app. change (length THINK) with 7. lia.
Qed.

Lemma parse_render a : answer_ok a → parseThinkTags (render a) = tags_of a.
Proof.
  intros Hok. destruct a as [ts r p]. unfold parseThinkTags.
  pose proof (think_loop_spec ts r p (S (length (render {| thoughts := ts; rest := r; pending := p |}))) [] [] [] Hok) as (V' & HL & HV).
  { pose proof (render_thought_length ts). unfold render. cbn [thoughts]. rewrite length_app. lia. }
  cbn [app length concat] in HL, HV. rewrite HL, join_nil_concat, HV.
  destruct ts as [|[v t] ts]; [destruct p as [q|]|].
  - unfold render at 1. cbn [thoughts map concat app rest pending]. by rewrite includes_think.
  - unfold render. cbn [thoughts map concat app rest pending]. rewrite app_nil_r.
    destruct Hok as (_ & Hr & _). unfold includes. cbn [rest] in Hr. by rewrite Hr.
  - unfold render at 1, render_thought. cbn [thoughts map concat fst snd].
    rewrite <- !app_assoc. by rewrite includes_think.
Qed.

(** Every text is an answer. *)
Lemma answer_exists c : ∃ a, answer_ok a ∧ render a = c.
Proof.
  induction c as [c IH] using (induction_ltof1 _ (@length N)). unfold ltof in IH.
  destruct (index_of c THINK) as [n|] eqn:E.
  - apply index_of_split in E as (v & s & -> & _ & Hv); [|done].
    destruct (index_of s END_THINK) as [k|] eqn:Es.
    + apply index_of_split in Es as (t & c' & -> & _ & Ht); [|done].
      destruct (IH c') as ([ts r p] & (Hts & Hr & Hp) & <-).
      { rewrite !length_app. change (length THINK) with 7. lia. }
      exists {| thoughts := (v, t) :: ts; rest := r; pending := p |}. split.
      * split; [by apply Forall_cons|done].
      * unfold render, render_thought. cbn [thoughts rest pending map concat fst snd]. by rewrite <- !app_assoc.
    + exists {| thoughts := []; rest := v; pending := Some s |}. by repeat split.
  - exists {| thoughts := []; rest := c; pending := None |}. split; [by repeat split|].
    unfold render. cbn. by rewrite app_nil_r.
Qed.

(** C16. Every answer text decomposes into visible texts and thoughts (the last
    one possibly unclosed), and for its decomposition [parseThinkTags] returns
    the trimmed visible text without any thought, the thoughts separated by
    blank lines, and whether a tag is still open; a text without tags comes
    back unchanged. *)
Theorem think_tags_spec (c : jstr) :
  (∃ a, answer_ok a ∧ render a = c) ∧
  ∀ a, answer_ok a ∧ render a = c → parseThinkTags c = tags_of a.
Proof.
  split; [apply answer_exists|]. intros a [Hok <-]. by apply parse_render.
Qed.

Lemma think_tags_spec_witness :
  parseThinkTags (js "Hi <think>one</think>there<think>two") =
    {| visibleContent := js "Hi there"; tagReasoning := js "one" ++ [10; 10]%N ++ js "two"; hasUnclosedTag := true |}.
Proof.
  destruct (think_tags_spec (js "Hi <think>one</think>there<think>two")) as [_ H].
  rewrite (H {| thoughts := [(js "Hi ", js "one")]; rest := js "there"; pending := Some (js "two") |}).
  - vm_compute. reflexivity.
  - split; [|vm_compute; reflexivity]. repeat split; repeat constructor; vm_compute; reflexivity.
Defined.
