(* ===== verification/PlaygroundChat.v ===== *)
(** * The conversation under streaming, stopping, failing and reloading

    Theorems about the chat handler and the stored conversation: what an event
    may touch, what a finished stream leaves, that the way the server cuts an
    answer into chunks does not show in its text, what a reload repairs, and
    what a request carries. *)

From S2P Require Import Prelude JsNumber JsString JsValue Playground.

Open Scope nat_scope.

(** ** The last message *)

Lemma updateLast_snoc init m f :
  updateLastAssistantMessage (init ++ [m]) f =
  init ++ [if bool_decide (from m = ASSISTANT) then f m else m].
Proof.
  unfold updateLastAssistantMessage. rewrite last_snoc. case_bool; [|done].
  rewrite length_app, Nat.add_1_r. cbn [pred].
  by rewrite insert_app_r_alt, Nat.sub_diag by lia.
Qed.

Lemma updateLast_nil f : updateLastAssistantMessage [] f = [].
Proof. done. Qed.

(** The conversation [ms'] differs from [ms] at most in the progress of its
    last message, which then is the assistant's. *)
Definition turn_frame (ms ms' : list Message) : Prop :=
  ms' = ms ∨ ∃ init m m', ms = init ++ [m] ∧ ms' = init ++ [m'] ∧ from m = ASSISTANT ∧
    key m' = key m ∧ from m' = from m ∧ sources m' = sources m.

#[export] Instance turn_frame_preorder : PreOrder turn_frame.
Proof.
  split; [by left|]. intros ms ms' ms'' [->|(init & m & m' & -> & -> & Hm & Hk & Hf & Hs)] H'; [done|].
  destruct H' as [->|(i2 & a & b & E & -> & Ha & Hk' & Hf' & Hs')].
  - right. naive_solver.
  - apply app_inj_tail in E as [<- <-]. right. exists init, m, b. split_and!; congruence.
Qed.

(** Updaters that keep the identity of a message. *)
Definition keeps (f : Message → Message) : Prop :=
  ∀ m, key (f m) = key m ∧ from (f m) = from m ∧ sources (f m) = sources m.

Lemma keeps_frame f ms : keeps f → turn_frame ms (updateLastAssistantMessage ms f).
Proof.
  intros Hf. destruct ms as [|m init] using rev_ind; [by left|]. rewrite updateLast_snoc.
  case_bool_decide; [|by left]. right. exists init, m, (f m). pose proof (Hf m). naive_solver.
Qed.

Lemma keeps_streamed type chunk : keeps (streamed_message type chunk).
Proof. intros m. unfold streamed_message. case_bool; [done|]. by destruct type. Qed.
Lemma keeps_completed : keeps completed_message.
Proof. intros m. unfold completed_message. by case_bool. Qed.
Lemma keeps_stopped : keeps stopped_message.
Proof. intros m. unfold stopped_message. by case_bool. Qed.
Lemma keeps_error e c : keeps (error_message e c).
Proof. by intros m. Qed.
Lemma keeps_answered c : keeps (answered_message c).
Proof. by intros m. Qed.

#[export] Hint Resolve keeps_frame keeps_streamed keeps_completed keeps_stopped keeps_error keeps_answered : jshints.

(** ** What an event may touch *)

Lemma handleError_frame e c st :
  turn_frame (messages st) (messages (handleError e c st)) ∧ requests (handleError e c st) = requests st.
Proof. unfold handleError. case_bool; [by split|]. split; [|done]. apply keeps_frame, keeps_error. Qed.

Lemma apply_delta_frame d st :
  turn_frame (messages st) (messages (apply_delta d st)) ∧ requests (apply_delta d st) = requests st.
Proof.
  unfold apply_delta. case_bool; [|by split]. cbv zeta.
  repeat case_bool; cbn [handleStreamUpdate onMessageUpdate messages requests]; (split; [|done]); try reflexivity; auto with jshints.
  etrans; apply keeps_frame, keeps_streamed.
Qed.

Lemma chat_step_frame st e :
  turn_frame (messages st) (messages (chat_step st e)) ∧ requests (chat_step st e) = requests st.
Proof.
  destruct e as [[data|rs data|rs s]|[c| |dm m code]|]; cbn [chat_step on_sse_event on_response].
  - unfold on_message. case_bool; [split; [|done]; cbn [handleStreamComplete onMessageUpdate closeSource set_complete set_source messages]; auto with jshints|].
    repeat case_match; auto using handleError_frame, apply_delta_frame.
  - unfold on_error. case_bool; [by split|]. case_match. apply handleError_frame.
  - unfold on_ready_state_change. repeat case_match; try by split. apply handleError_frame.
  - split; [|done]. cbn [onMessageUpdate messages]; auto with jshints.
  - by split.
  - split; [|done]. apply keeps_frame, keeps_error.
  - unfold stopGeneration, stopStream. case_bool; (split; [|done]); cbn [handleStreamComplete onMessageUpdate closeSource set_complete set_source messages]; auto with jshints.
Qed.

Lemma chat_run_frame st es :
  turn_frame (messages st) (messages (chat_run st es)) ∧ requests (chat_run st es) = requests st.
Proof.
  revert st. induction es as [|e es IH]; intros st; [by split|]. cbn [chat_run fold_left].
  destruct (IH (chat_step st e)) as [H1 H2]. destruct (chat_step_frame st e) as [H3 H4].
  split; [by etrans|]. unfold chat_run in *. congruence.
Qed.

Lemma turn_frame_lookup ms ms' : turn_frame ms ms' →
  map key ms' = map key ms ∧ map from ms' = map from ms ∧
  ∀ i m, ms !! i = Some m → S i < length ms ∨ from m ≠ ASSISTANT → ms' !! i = Some m.
Proof.
  intros [->|(init & m & m' & -> & -> & Hm & Hk & Hf & Hs)]; [done|].
  rewrite !map_app. simpl. rewrite Hk, Hf. split_and!; [done..|].
  intros i a Ha Hor. rewrite length_app in Hor. simpl in Hor.
  destruct (decide (i < length init)).
  - rewrite lookup_app_l in Ha |- * by done. done.
  - rewrite lookup_app_r in Ha by lia.
    destruct (i - length init) as [|k] eqn:Ei; [|done]. simpl in Ha. injection Ha as ->. destruct Hor; [lia|done].
Qed.

(** Whatever happens to a request that was sent (chunks, errors, the end of
    the stream, an answer, the stop button, in any order and number), no message
    is added, removed or reordered, no request is sent, and only a last message
    of the assistant is changed. *)
Theorem stream_frame (st : ChatState) (es : list chat_event) :
  let ms := messages st in let ms' := messages (chat_run st es) in
  map key ms' = map key ms ∧ map from ms' = map from ms ∧
  (∀ i m, ms !! i = Some m → S i < length ms ∨ from m ≠ ASSISTANT → ms' !! i = Some m) ∧
  requests (chat_run st es) = requests st.
Proof.
  destruct (chat_run_frame st es) as [H1 H2]. destruct (turn_frame_lookup _ _ H1) as (? & ? & ?). done.
Qed.

(** ** A finished stream *)

Definition settled (m : Message) : Prop := status m = Some COMPLETE ∨ status m = Some ERROR.

Definition last_settled (ms : list Message) : Prop := ∀ m, last ms = Some m → from m = ASSISTANT → settled m.

Lemma updateLast_id ms f : (∀ m, last ms = Some m → from m = ASSISTANT → f m = m) → updateLastAssistantMessage ms f = ms.
Proof.
  intros Hf. destruct ms as [|m init] using rev_ind; [done|]. rewrite updateLast_snoc.
  case_bool_decide; [|done]. rewrite Hf; [done|by rewrite last_snoc|done].
Qed.

Lemma completed_settled m : settled (completed_message m).
Proof.
  unfold completed_message, settled. case_bool; [|by left].
  apply orb_true_iff in Heqb as [H|H]; apply bool_decide_eq_true in H; auto.
Qed.

Lemma completed_id m : settled m → completed_message m = m.
Proof. unfold completed_message. by intros [-> | ->]. Qed.
Lemma stopped_id m : settled m → stopped_message m = m.
Proof. unfold stopped_message. by intros [-> | ->]. Qed.

(** Events that carry no part of an answer. *)
Definition quiet (e : chat_event) : bool :=
  match e with
  | Sse (OnMessage data) => str_eqb data (js "[DONE]")
  | Sse _ | Stop => true
  | Response _ => false
  end.

Definition finished (st : ChatState) : Prop :=
  isStreamComplete st = true ∧ sseSource st = false ∧ last_settled (messages st).

Lemma done_finished st : finished (chat_step st (Sse (OnMessage (js "[DONE]")))).
Proof.
  cbn [chat_step on_sse_event]. unfold on_message. rewrite str_eqb_refl. split_and!; [done..|].
  cbn [handleStreamComplete onMessageUpdate closeSource set_complete set_source messages].
  destruct (messages st) as [|m init] using rev_ind; [done|]. rewrite updateLast_snoc.
  intros m'. rewrite last_snoc. intros [= <-]. case_bool_decide; [|done]. intros _. apply completed_settled.
Qed.

Lemma finished_update st f : finished st → (∀ m, settled m → f m = m) →
  onMessageUpdate st (λ prev, updateLastAssistantMessage prev f) = st.
Proof.
  intros (_ & _ & Hl) Hf. destruct st as [ms src c t r]. unfold onMessageUpdate. cbn in *.
  rewrite updateLast_id; [done|]. intros m Hm Hr. by apply Hf, Hl.
Qed.

Lemma finished_quiet st e : finished st → quiet e = true → chat_step st e = st.
Proof.
  intros Hst. pose proof Hst as (Hc & Hs & _).
  destruct e as [[data|rs data|rs s]|r|]; cbn [quiet chat_step on_sse_event]; intros Hq; [..|done|].
  - unfold on_message. rewrite Hq. unfold handleStreamComplete.
    replace (closeSource (set_complete st true)) with st by (destruct st; cbn in *; by subst).
    apply finished_update; auto using completed_id.
  - unfold on_error, handleError. rewrite Hc. by repeat case_match.
  - unfold on_ready_state_change, handleError. rewrite Hc. by repeat case_match.
  - unfold stopGeneration, stopStream. rewrite Hs. apply finished_update; auto using stopped_id.
Qed.

Lemma finished_run st es : finished st → Forall (λ e, quiet e = true) es → chat_run st es = st.
Proof.
  intros Hst. induction 1 as [|e es He _ IH]; [done|]. cbn [chat_run fold_left].
  by rewrite finished_quiet.
Qed.

Lemma chat_run_snoc st es e : chat_run st (es ++ [e]) = chat_step (chat_run st es) e.
Proof. apply fold_left_app. Qed.

(** C34. Whatever happened before, the end marker of the stream leaves the last
    message of the assistant complete or failed and no stream open, and
    afterwards connection errors, changes of the connection state, repeated end
    markers and the stop button change nothing at all (no late error replaces
    the answer, and nothing is reported to the user). *)
Theorem stream_done_settles (st : ChatState) (es es' : list chat_event)
    (Hq : Forall (λ e, quiet e = true) es') :
  let st1 := chat_run st (es ++ [Sse (OnMessage (js "[DONE]"))]) in
  (∀ m, last (messages st1) = Some m → from m = ASSISTANT →
        status m = Some COMPLETE ∨ status m = Some ERROR) ∧
  sseSource st1 = false ∧ chat_run st1 es' = st1.
Proof.
  cbv zeta. rewrite chat_run_snoc. pose proof (done_finished (chat_run st es)) as H.
  split_and!; [apply H..|]. by apply finished_run.
Qed.

Definition sample_state : ChatState :=
  {| messages := [createUserMessage (js "k1") (js "v1") (js "hello"); createLoadingAssistantMessage (js "k2") (js "v2")];
     sseSource := true; isStreamComplete := false; toasts := []; requests := [] |}.

Lemma stream_done_settles_witness :
  let st1 := chat_run sample_state ([] ++ [Sse (OnMessage (js "[DONE]"))]) in
  chat_run st1 [Sse (OnError (of_Z 1) None); Stop] = st1.
Proof. apply (stream_done_settles sample_state [] [Sse (OnError (of_Z 1) None); Stop]). repeat constructor. Defined.

(** ** Chunks *)

(** [data] is a chunk of the stream that carries the content [c] only. *)
Definition content_chunk (data c : jstr) : Prop :=
  ∃ chunk delta, json_parse data = Some chunk ∧ chunk_delta chunk = Ret delta ∧ truthy delta = true ∧
    truthy (prop "reasoning_content" delta) = false ∧ prop "content" delta = JStr c.

(** The thoughts the tags show after each chunk; the last that are not empty. *)
Fixpoint latest_reasoning (full acc : jstr) (cs : list jstr) : jstr :=
  match cs with
  | [] => acc
  | c :: cs =>
      let full := full ++ c in
      latest_reasoning full (str_or (tagReasoning (parseThinkTags full)) acc) cs
  end.

Lemma str_or_absorb r d : str_or r (str_or r d) = str_or r d.
Proof. by destruct r. Qed.

Lemma latest_reasoning_full full acc cs :
  str_or (tagReasoning (parseThinkTags full)) acc = acc →
  let r := latest_reasoning full acc cs in
  str_or (tagReasoning (parseThinkTags (full ++ concat cs))) r = r.
Proof.
  revert full acc. induction cs as [|c cs IH]; intros full acc H; cbn [latest_reasoning concat].
  - by rewrite app_nil_r.
  - cbv zeta. rewrite app_assoc. apply IH, str_or_absorb.
Qed.

Definition reasoning_of (r : jstr) : option Reasoning :=
  if str_truthy r then Some {| reasoningContent := r; duration := of_Z 0 |} else None.

(** The message while the content [full] has been received. *)
Definition receiving (k : jstr) (full acc : jstr) (m : Message) : Prop :=
  key m = k ∧ from m = ASSISTANT ∧ (status m = Some LOADING ∨ status m = Some STREAMING) ∧
  content (getCurrentVersion m) = full ∧ reasoning m = reasoning_of acc ∧
  str_or (tagReasoning (parseThinkTags full)) acc = acc.

Lemma receiving_start k i : receiving k [] [] (createLoadingAssistantMessage k i).
Proof. repeat split; auto. Qed.

Lemma receiving_chunk k full acc c m : receiving k full acc m → c ≠ [] →
  receiving k (full ++ c) (str_or (tagReasoning (parseThinkTags (full ++ c))) acc)
    (streamed_message UpdateContent (JStr c) m).
Proof.
  intros (Hk & Hf & Hs & Hc & Hr & Ha) Hne. unfold streamed_message.
  rewrite bool_decide_false by (intros Hs'; destruct Hs; congruence).
  destruct c as [|u c]; [done|]. unfold processStreamingContent.
  cbn [truthy str_truthy to_string]. rewrite Hc. split_and!; try done; auto.
  - cbn [with_status with_streaming with_reasoning reasoning]. rewrite Hr.
    by destruct (tagReasoning (parseThinkTags (full ++ u :: c))) as [|x l].
  - apply str_or_absorb.
Qed.

Lemma on_chunk data c st : content_chunk data c →
  chat_step st (Sse (OnMessage data)) =
  if str_truthy c then handleStreamUpdate UpdateContent (JStr c) st else st.
Proof.
  intros (chunk & delta & Hp & Hd & Ht & Hr & Hc). cbn [chat_step on_sse_event]. unfold on_message.
  destruct (str_eqb data (js "[DONE]")) eqn:E.
  - apply str_eqb_eq in E. subst data. vm_compute in Hp. done.
  - rewrite Hp, Hd. unfold apply_delta. by rewrite Ht, Hr, Hc.
Qed.

Lemma receiving_run ds cs : Forall2 content_chunk ds cs → ∀ st init m k full acc,
  messages st = init ++ [m] → receiving k full acc m →
  ∃ m', messages (chat_run st (map (λ d, Sse (OnMessage d)) ds)) = init ++ [m'] ∧
        receiving k (full ++ concat cs) (latest_reasoning full acc cs) m' ∧
        toasts (chat_run st (map (λ d, Sse (OnMessage d)) ds)) = toasts st.
Proof.
  induction 1 as [|d c ds cs Hd _ IH]; intros st init m k full acc Hm Hr.
  - exists m. cbn. by rewrite app_nil_r.
  - cbn [map chat_run fold_left]. rewrite (on_chunk d c) by done.
    cbn [concat latest_reasoning]. cbv zeta. rewrite app_assoc.
    destruct c as [|u c].
    + cbn [str_truthy]. pose proof Hr as (_ & _ & _ & _ & _ & Ha).
      rewrite app_nil_r, Ha. by apply (IH st init m).
    + cbn [str_truthy].
      apply (IH (handleStreamUpdate UpdateContent (JStr (u :: c)) st) init (streamed_message UpdateContent (JStr (u :: c)) m)).
      * cbn [handleStreamUpdate onMessageUpdate messages]. rewrite Hm, updateLast_snoc.
        by rewrite bool_decide_true by apply Hr.
      * by apply receiving_chunk.
Qed.

Lemma receiving_completed k full acc m : receiving k full acc m →
  let m' := completed_message m in
  key m' = k ∧ status m' = Some COMPLETE ∧ isReasoningStreaming m' = Some false ∧
  content (getCurrentVersion m') = visibleContent (parseThinkTags full) ∧ reasoning m' = reasoning_of acc.
Proof.
  intros (Hk & Hf & Hs & Hc & Hr & Ha). unfold completed_message.
  rewrite !bool_decide_false by (intros Hs'; destruct Hs; congruence). cbn [orb]. split_and!; try done.
  - cbn. by rewrite Hc.
  - unfold finalizeMessage. rewrite Hc, Hr. cbn [with_status with_streaming with_reasoning reasoning]. unfold reasoning_of in *.
    destruct acc as [|x l]; [|done]. by destruct (tagReasoning (parseThinkTags full)).
Qed.

(** The events of a stream of the given chunks, with its end marker. *)
Definition stream_of (ds : list jstr) : list chat_event :=
  map (λ d, Sse (OnMessage d)) ds ++ [Sse (OnMessage (js "[DONE]"))].

(** C11. An answer streamed in any chunks ends complete, with the visible text of
    the whole answer, however the chunks cut it (also inside a tag); its
    reasoning is the last non-empty one the tags showed on the way, which is the
    reasoning of the whole answer whenever that is not empty.  The earlier
    messages are kept, the stream is closed and no error is shown. *)
Theorem stream_chunks_final (st : ChatState) (init : list Message) (k i : jstr) (ds cs : list jstr)
    (Hm : messages st = init ++ [createLoadingAssistantMessage k i])
    (Hds : Forall2 content_chunk ds cs) :
  let st' := chat_run st (stream_of ds) in
  let t := parseThinkTags (concat cs) in
  let r := latest_reasoning [] [] cs in
  ∃ m, messages st' = init ++ [m] ∧ key m = k ∧ status m = Some COMPLETE ∧
    isReasoningStreaming m = Some false ∧
    content (getCurrentVersion m) = visibleContent t ∧
    reasoning m = reasoning_of r ∧ (tagReasoning t ≠ [] → r = tagReasoning t) ∧
    sseSource st' = false ∧ toasts st' = toasts st.
Proof.
  cbv zeta. unfold stream_of. rewrite chat_run_snoc.
  destruct (receiving_run ds cs Hds st init _ k [] [] Hm (receiving_start k i)) as (m & Hm' & Hr & Ht).
  exists (completed_message m). destruct (receiving_completed _ _ _ _ Hr) as (? & ? & ? & ? & ?).
  split_and!; try done.
  - cbn [chat_step on_sse_event]. unfold on_message. rewrite str_eqb_refl.
    cbn [handleStreamComplete onMessageUpdate closeSource set_complete set_source messages].
    rewrite Hm', updateLast_snoc. by rewrite bool_decide_true by apply Hr.
  - intros Hne. pose proof (latest_reasoning_full [] [] cs eq_refl) as H'. cbn [app] in H'.
    by destruct (tagReasoning (parseThinkTags (concat cs))).
Qed.

(** The text of a chunk with the content [c] (without characters to escape). *)
Definition chunk_data (c : jstr) : jstr := quoted "{'choices':[{'delta':{'content':'" ++ c ++ quoted "'}}]}".

Ltac solve_chunk :=
  eexists _, _; split_and!; [vm_compute; reflexivity|vm_compute; reflexivity|vm_compute; reflexivity|
                             vm_compute; reflexivity|vm_compute; reflexivity].

Lemma stream_chunks_final_witness :
  let st' := chat_run sample_state (stream_of [chunk_data (js "<thi"); chunk_data (js "nk>hm</think>Hi")]) in
  sseSource st' = false ∧ toasts st' = [].
Proof.
  destruct (stream_chunks_final sample_state [createUserMessage (js "k1") (js "v1") (js "hello")] (js "k2") (js "v2")
              [chunk_data (js "<thi"); chunk_data (js "nk>hm</think>Hi")] [js "<thi"; js "nk>hm</think>Hi"] eq_refl)
    as (m & _ & _ & _ & _ & _ & _ & _ & Hs & Ht).
  - repeat constructor; solve_chunk.
  - exact (conj Hs Ht).
Defined.

(** Two ways to cut the answer [<think></think>Hello], whose reasoning is empty:
    in one chunk the message has no reasoning; cut inside the closing tag it
    keeps the fragment of the tag as its reasoning. *)
Theorem stale_reasoning :
  let final ds := reasoning <$> last (messages (chat_run sample_state (stream_of (map chunk_data ds)))) in
  final [js "<think></think>Hello"] = Some None ∧
  final [js "<think></th"; js "ink>Hello"] =
    Some (Some {| reasoningContent := js "</th"; duration := of_Z 0 |}).
Proof. vm_compute. split; reflexivity. Qed.

(** ** Reloading *)

Definition stuck (m : Message) : Prop := is_stuck m = true.
#[export] Instance stuck_dec m : Decision (stuck m).
Proof. unfold stuck. apply _. Defined.

Lemma last_stuck_Some n ms i : last_stuck n ms = Some i →
  ∃ m, ms !! i = Some m ∧ stuck m ∧ ∀ j m', i < j → j < n → ms !! j = Some m' → ¬ stuck m'.
Proof.
  unfold stuck. induction n as [|n IH]; cbn [last_stuck]; [done|].
  destruct (ms !! n) as [a|] eqn:Ea; [destruct (is_stuck a) eqn:Es|].
  - intros [= ->]. exists a. split_and!; [done..|]. intros; lia.
  - intros H. destruct (IH H) as (m & Hm & Hs & Hl). exists m. split_and!; [done..|].
    intros j m' Hj Hn Hj'. destruct (decide (j = n)) as [->|]; [congruence|]. apply (Hl j); [done|lia|done].
  - intros H. destruct (IH H) as (m & Hm & Hs & Hl). exists m. split_and!; [done..|].
    intros j m' Hj Hn Hj'. destruct (decide (j = n)) as [->|]; [congruence|]. apply (Hl j); [done|lia|done].
Qed.

Lemma last_stuck_None n ms : last_stuck n ms = None → ∀ i m, i < n → ms !! i = Some m → ¬ stuck m.
Proof.
  unfold stuck. induction n as [|n IH]; cbn [last_stuck]; [lia|].
  intros H i m Hi Hm. destruct (decide (i = n)) as [->|].
  - rewrite Hm in H. destruct (is_stuck m); done.
  - apply (IH ltac:(destruct (ms !! n) as [a|]; [destruct (is_stuck a)|]; done) i); [lia|done].
Qed.

(** A repaired message is complete and has something to show, or tells that the
    generation was interrupted. *)
Definition has_text (m : Message) : Prop :=
  trim (content (getCurrentVersion m)) ≠ [] ∨
  ∃ r, reasoning m = Some r ∧ trim (reasoningContent r) ≠ [].

Lemma sanitizeMessage_ok m : let m' := sanitizeMessage m in
  key m' = key m ∧ isReasoningStreaming m' = Some false ∧
  ((status m' = Some COMPLETE ∧ has_text m') ∨
   (status m' = Some ERROR ∧ content (getCurrentVersion m') = API_REQUEST_ERROR ++ js ": " ++ INTERRUPTED)).
Proof.
  unfold sanitizeMessage, has_text. cbv zeta. case_bool; (split_and!; [done..|]); [left|by right].
  split; [done|]. apply orb_true_iff in Heqb as [H|H].
  - left. intros Hn. revert H. cbn [finalizeMessage with_streaming with_reasoning updateCurrentVersionContent with_versions versions content with_status getCurrentVersion] in *.
    by rewrite Hn.
  - right. cbn [with_streaming with_status reasoning] in *.
    destruct (reasoning (finalizeMessage m None)) as [r|]; [|done]. exists r. split; [done|]. intros Hn. by rewrite Hn in H.
Qed.

Lemma sanitizeMessage_not_stuck m : ¬ stuck (sanitizeMessage m).
Proof.
  unfold stuck, is_stuck. destruct (sanitizeMessage_ok m) as (_ & _ & [[-> _]|[-> _]]);
    rewrite !(bool_decide_false (Some _ = _)) by done; by rewrite andb_false_r.
Qed.

Lemma count_insert (P : Message → Prop) `{∀ m, Decision (P m)} ms i m m' :
  ms !! i = Some m → P m → ¬ P m' →
  length (filter P (<[i := m']> ms)) = pred (length (filter P ms)).
Proof.
  intros Hi Hm Hm'. rewrite insert_take_drop by eauto using lookup_lt_Some.
  rewrite <- (take_drop_middle ms i m Hi) at 3.
  rewrite !filter_app, filter_cons_False, filter_cons_True, !length_app by done. simpl. lia.
Qed.

(** Loading a stored conversation repairs exactly the last message that was
    left loading or streaming: it becomes complete with some text or reasoning
    to show, or an error that tells it was interrupted; every other message is
    kept, so one message fewer is left unfinished. *)
Theorem sanitize_repairs_last (ms : list Message) :
  let ms' := sanitizeMessagesOnLoad ms in
  length (filter stuck ms') = pred (length (filter stuck ms)) ∧
  map key ms' = map key ms ∧
  (∀ i m, ms !! i = Some m → ms' !! i = Some m ∨
     stuck m ∧ (∀ j m', i < j → ms !! j = Some m' → ¬ stuck m') ∧
     ∃ m', ms' !! i = Some m' ∧
       ((status m' = Some COMPLETE ∧ has_text m') ∨
        (status m' = Some ERROR ∧ content (getCurrentVersion m') = API_REQUEST_ERROR ++ js ": " ++ INTERRUPTED))).
Proof.
  cbv zeta. unfold sanitizeMessagesOnLoad. destruct (last_stuck (length ms) ms) as [t|] eqn:E.
  - apply last_stuck_Some in E as (a & Ha & Hs & Hl). rewrite Ha.
    destruct (sanitizeMessage_ok a) as (Hk & _ & Hok). split_and!.
    + eapply count_insert; eauto using sanitizeMessage_not_stuck.
    + change (map key) with (@fmap list list_fmap _ _ key). rewrite list_fmap_insert, Hk.
      apply list_insert_id. by rewrite list_lookup_fmap, Ha.
    + intros i m Hi. destruct (decide (i = t)) as [->|]; [|left; by rewrite list_lookup_insert_ne].
      right. assert (m = a) as -> by congruence. split_and!; [done|eauto using lookup_lt_Some|].
      eexists. split; [|done]. apply list_lookup_insert_eq. eauto using lookup_lt_Some.
  - split_and!; [|done|by left]. assert (filter stuck ms = []) as ->; [|done].
    apply filter_none, Forall_lookup. eauto using last_stuck_None, lookup_lt_Some.
Qed.

(** Of two unfinished messages one stays unfinished. *)
Theorem sanitize_leaves_second :
  let m := createLoadingAssistantMessage (js "k") (js "v") in
  map status (sanitizeMessagesOnLoad [m; m]) = [Some LOADING; Some ERROR].
Proof. vm_compute. reflexivity. Qed.

(** ** Requests *)

Lemma add_parameter_get config enabled payload k k' :
  obj_get k (add_parameter config enabled payload k') =
  if str_eqb k k' && truthy (read enabled k') && negb (is_nullish (read config k'))
  then Some (read config k') else obj_get k payload.
Proof.
  unfold add_parameter. destruct (truthy (read enabled k')); [|by rewrite andb_false_r].
  destruct (is_nullish (read config k')); [by rewrite andb_false_r|].
  rewrite obj_get_set. by rewrite !andb_true_r.
Qed.

Lemma add_parameters_get config enabled ks payload k : NoDup ks →
  obj_get k (fold_left (add_parameter config enabled) ks payload) =
  if bool_decide (k ∈ ks) && truthy (read enabled k) && negb (is_nullish (read config k))
  then Some (read config k) else obj_get k payload.
Proof.
  intros Hnd. revert payload. induction Hnd as [|k' ks Hk' _ IH]; intros payload; cbn [fold_left].
  - by rewrite bool_decide_false by set_solver.
  - rewrite IH, add_parameter_get. destruct (str_eqb k k') eqn:E.
    + apply str_eqb_eq in E as ->. rewrite (bool_decide_false (k' ∈ ks)) by done.
      rewrite (bool_decide_true (k' ∈ k' :: ks)) by set_solver. done.
    + assert (k ≠ k') by (intros ->; by rewrite str_eqb_refl in E).
      assert (bool_decide (k ∈ k' :: ks) = bool_decide (k ∈ ks)) as -> by (apply bool_decide_ext; set_solver). done.
Qed.

Lemma parameterKeys_nodup : NoDup parameterKeys.
Proof. apply (bool_decide_unpack (NoDup _)). vm_compute. exact I. Qed.

(** A request carries each sampling parameter exactly when its switch is on
    and the configuration has a value for it, with that value; the model, the
    group and the stream flag of the configuration; and, in order, the messages
    that have a version, without the blank ones of the assistant (the
    placeholder of the answer being asked for is one). *)
Theorem payload_contents (ms : list Message) (config enabled : obj jsval) (k : jstr) :
  let payload := buildChatCompletionPayload ms config enabled in
  (k ∈ parameterKeys →
     obj_get k payload = if truthy (read enabled k) && negb (is_nullish (read config k))
                         then Some (read config k) else None) ∧
  (k ∈ [js "model"; js "group"; js "stream"] → obj_get k payload = Some (read config k)) ∧
  obj_get (js "messages") payload =
    Some (JArr (map (λ m, JObj [(js "role", JStr (MESSAGE_ROLES (from m)));
                                (js "content", JStr (content (getCurrentVersion m)))])
      (filter (λ m, versions m ≠ [] ∧ (from m = ASSISTANT → trim (content (getCurrentVersion m)) ≠ [])) ms))).
Proof.
  cbv zeta. unfold buildChatCompletionPayload. cbv zeta.
  split_and!; intros; rewrite add_parameters_get by apply parameterKeys_nodup.
  - rewrite bool_decide_true by done. cbn [andb]. case_bool; [done|].
    unfold parameterKeys in *. repeat (apply elem_of_cons in H as [->|H]; [reflexivity|]). by apply elem_of_nil in H.
  - repeat (apply elem_of_cons in H as [->|H]; [reflexivity|]). by apply elem_of_nil in H.
  - change (bool_decide (js "messages" ∈ parameterKeys)) with false. cbn [andb obj_get].
    change (str_eqb (js "messages") (js "model")) with false. change (str_eqb (js "messages") (js "group")) with false.
    rewrite str_eqb_refl. do 2 f_equal. rewrite map_map.
    assert (∀ m, isValidMessage m = true ↔ versions m ≠ [] ∧ (from m = ASSISTANT → trim (content (getCurrentVersion m)) ≠ [])) as Hv.
    { intros m. unfold isValidMessage, getCurrentVersion. destruct (versions m) as [|v vs]; [naive_solver|].
      case_bool_decide; [|naive_solver]. destruct (trim (content v)); naive_solver. }
    rewrite (list_filter_iff _ _ _ Hv). apply map_ext. done.
Qed.
