(* ===== verification/Channels.v ===== *)
(** * Channels (features/channels)

    The channel record, the tables of channel types and states
    (constants.ts), and the functions of lib/channel-utils.ts: display of keys,
    balances and times, lists of models and groups, settings, warnings, the
    grouping of channels by tag, and the removal of duplicate keys; and the
    confirmation texts of lib/multi-key-utils.ts.

    In [aggregateChannelsByTag] the map from tags to rows and the result array
    hold the same row objects: the model keeps the rows in the result and maps
    a tag to the position of its row. *)

From S2P Require Import Prelude JsNumber JsString JsRegex JsValue Host Currency Format.

Open Scope Z_scope.

(** ** Tables (constants.ts) *)

Definition CHANNEL_TYPES : list (Z * jstr) :=
  [(0, js "Unknown"); (1, js "OpenAI"); (2, js "Midjourney"); (3, js "Azure"); (4, js "Ollama");
   (5, js "MidjourneyPlus"); (6, js "OpenAIMax"); (7, js "OhMyGPT"); (8, js "Custom"); (9, js "AILS");
   (10, js "AI Proxy"); (11, js "PaLM"); (12, js "API2GPT"); (13, js "AIGC2D"); (14, js "Anthropic");
   (15, js "Baidu"); (16, js "Zhipu"); (17, js "Ali"); (18, js "Xunfei"); (19, js "360");
   (20, js "OpenRouter"); (21, js "AI Proxy Library"); (22, js "FastGPT"); (23, js "Tencent");
   (24, js "Gemini"); (25, js "Moonshot"); (26, js "Zhipu V4"); (27, js "Perplexity");
   (31, js "LingYiWanWu"); (33, js "AWS"); (34, js "Cohere"); (35, js "MiniMax"); (36, js "SunoAPI");
   (37, js "Dify"); (38, js "Jina"); (39, js "Cloudflare"); (40, js "SiliconFlow"); (41, js "Vertex AI");
   (42, js "Mistral"); (43, js "DeepSeek"); (44, js "MokaAI"); (45, js "VolcEngine"); (46, js "Baidu V2");
   (47, js "Xinference"); (48, js "xAI"); (49, js "Coze"); (50, js "Kling"); (51, js "Jimeng");
   (52, js "Vidu"); (53, js "Submodel"); (54, js "DoubaoVideo"); (55, js "Sora"); (56, js "Replicate");
   (57, js "Codex")].

Definition CHANNEL_TYPE_DISPLAY_ORDER : list Z :=
  [1; 14; 33; 24; 43; 3; 41; 48; 42; 34; 20; 4; 40; 27; 25; 17; 26; 15; 46; 23;
   18; 45; 31; 35; 49; 19; 47; 37; 38; 39; 11; 8; 57; 22; 21; 44; 2; 5; 36; 50;
   51; 52; 53; 54; 55; 56].

(** [table[x]]: a number selects the property of its text. *)
Definition table_get {A} (t : list (Z * A)) (x : num) : option A :=
  snd <$> find (λ kv, n_eq (of_Z kv.1) x) t.

(** [table[x] || d] *)
Definition table_or (t : list (Z * jstr)) (x : num) (d : jstr) : jstr := str_or (default [] (table_get t x)) d.

Definition push_ordered (acc : list (Z * jstr) * list Z) (id : Z) : list (Z * jstr) * list Z :=
  match table_get CHANNEL_TYPES (of_Z id) with
  | Some ((_ :: _) as label) => (acc.1 ++ [(id, label)], acc.2 ++ [id])
  | _ => acc
  end.

Definition push_unseen (seen : list Z) (ordered : list (Z * jstr)) (entry : Z * jstr) : list (Z * jstr) :=
  if negb (entry.1 =? 0) && negb (bool_decide (entry.1 ∈ seen)) then ordered ++ [entry] else ordered.

Definition CHANNEL_TYPE_OPTIONS : list (Z * jstr) :=
  let '(ordered, seen) := fold_left push_ordered CHANNEL_TYPE_DISPLAY_ORDER ([], []) in
  fold_left (push_unseen seen) CHANNEL_TYPES ordered.

Record Badge := { variant : jstr; label : jstr; showDot : bool }.

Definition CHANNEL_STATUS_CONFIG : list (Z * Badge) :=
  [(0, {| variant := js "neutral"; label := js "Unknown"; showDot := true |});
   (1, {| variant := js "success"; label := js "Enabled"; showDot := true |});
   (2, {| variant := js "neutral"; label := js "Disabled"; showDot := true |});
   (3, {| variant := js "danger"; label := js "Auto Disabled"; showDot := true |})].

Definition MULTI_KEY_STATUS_CONFIG : list (Z * (jstr * jstr)) :=
  [(1, (js "success", js "Enabled")); (2, (js "neutral", js "Manual Disabled")); (3, (js "danger", js "Auto Disabled"))].

Inductive ResponseRating := EXCELLENT | GOOD | FAIR | POOR | UNKNOWN.

Definition RESPONSE_TIME_THRESHOLDS (r : ResponseRating) : num :=
  match r with
  | EXCELLENT => of_Z 500 | GOOD => of_Z 1000 | FAIR => of_Z 2000 | POOR => of_Z 5000
  | UNKNOWN => NaN
  end.

Definition RESPONSE_TIME_CONFIG (r : ResponseRating) : jstr * jstr :=
  match r with
  | EXCELLENT => (js "success", js "Excellent")
  | GOOD => (js "info", js "Good")
  | FAIR => (js "warning", js "Fair")
  | POOR => (js "danger", js "Poor")
  | UNKNOWN => (js "neutral", js "Not tested")
  end.

Definition TYPE_TO_KEY_PROMPT : list (Z * jstr) :=
  [(15, js "Format: APIKey|SecretKey"); (18, js "Format: APPID|APISecret|APIKey");
   (22, js "Format: APIKey-AppId, e.g., fastgpt-0sp2gtvfdgyi4k30jwlgwf1i-64f335d84283f05518e9e041");
   (23, js "Format: AppId|SecretId|SecretKey"); (33, js "Format: Ak|Sk|Region");
   (50, js "Format: AccessKey|SecretKey (or just ApiKey if upstream is LovebreakerApi)");
   (51, js "Format: Access Key ID|Secret Access Key");
   (57, js "Paste Codex OAuth JSON credential (access_token / refresh_token / account_id)")].

(** ** Channels (types.ts) *)

Record ChannelInfo := {
  is_multi_key : bool;
  multi_key_size : num;
  multi_key_status_list : option (obj num);
  multi_key_disabled_reason : option (obj jstr);
  multi_key_disabled_time : option (obj num);
  multi_key_polling_index : num;
  multi_key_mode : jstr
}.

(** A nullish number is kept as a value: null and undefined differ for [===]. *)
Record Channel := {
  id : num;
  type : num;
  key : jstr;
  openai_organization : option jstr;
  test_model : option jstr;
  status : num;
  name : jstr;
  weight : jsval;
  created_time : Timestamp;
  test_time : Timestamp;
  response_time : num;
  base_url : option jstr;
  other : jstr;
  balance : num;
  balance_updated_time : Timestamp;
  models : jstr;
  group : jstr;
  used_quota : num;
  model_mapping : option jstr;
  status_code_mapping : option jstr;
  priority : jsval;
  auto_ban : option num;
  other_info : jstr;
  tag : option jstr;
  setting : option jstr;
  param_override : option jstr;
  header_override : option jstr;
  remark : jstr;
  max_input_tokens : num;
  channel_info : option ChannelInfo;
  settings : jstr
}.

(** ** Types and states (lib/channel-utils.ts) *)

Definition getChannelTypeLabel (type : num) : jstr := table_or CHANNEL_TYPES type (js "Unknown").

Definition TYPE_TO_ICON : list (Z * jstr) :=
  [(1, js "OpenAI"); (6, js "OpenAI"); (7, js "OpenAI"); (8, js "OpenAI"); (3, js "Azure");
   (14, js "Claude"); (24, js "Gemini"); (11, js "Google"); (41, js "Gemini"); (33, js "Aws");
   (39, js "Cloudflare"); (15, js "Baidu"); (46, js "Baidu"); (16, js "Zhipu"); (26, js "Zhipu");
   (17, js "Qwen"); (18, js "Spark"); (23, js "Hunyuan"); (19, js "Ai360"); (25, js "Moonshot");
   (31, js "Yi"); (35, js "Minimax"); (45, js "Volcengine"); (4, js "Ollama"); (27, js "Perplexity");
   (34, js "Cohere"); (42, js "Mistral"); (43, js "DeepSeek"); (48, js "XAI"); (49, js "Coze");
   (40, js "SiliconCloud"); (44, js "OpenAI"); (20, js "OpenRouter"); (2, js "Midjourney");
   (5, js "Midjourney"); (50, js "Kling"); (51, js "Jimeng"); (52, js "Vidu"); (36, js "Suno");
   (55, js "OpenAI"); (54, js "Doubao"); (56, js "Replicate"); (37, js "Dify"); (38, js "Jina");
   (22, js "FastGPT"); (47, js "Xinference"); (53, js "OpenAI"); (10, js "OpenAI"); (21, js "OpenAI");
   (12, js "OpenAI"); (13, js "OpenAI"); (9, js "OpenAI")].

Definition getChannelTypeIcon (type : num) : jstr := table_or TYPE_TO_ICON type (js "OpenAI").

Definition getChannelStatusBadge (status : num) : option Badge :=
  match table_get CHANNEL_STATUS_CONFIG status with
  | Some b => Some b
  | None => table_get CHANNEL_STATUS_CONFIG (of_Z 0)
  end.

Definition getMultiKeyStatusBadge (status : num) : option (jstr * jstr) :=
  match table_get MULTI_KEY_STATUS_CONFIG status with
  | Some b => Some b
  | None => table_get MULTI_KEY_STATUS_CONFIG (of_Z 1)
  end.

Definition isChannelEnabled (channel : Channel) : bool := n_eq (status channel) (of_Z 1).

Definition isMultiKeyChannel (channel : Channel) : bool :=
  match channel_info channel with Some i => is_multi_key i | None => false end.

(** ** Keys *)

Definition newline : jstr := [10%N].

(** The non-blank lines of a text. *)
Definition key_lines (k : jstr) : list jstr := filter (λ l, trim l ≠ []) (split k newline).

Definition formatChannelKey (k : jstr) (isMultiKey : bool) : jstr :=
  if negb (str_truthy k) then []
  else if isMultiKey then num_to_string (of_Z (Z.of_nat (length (key_lines k)))) ++ js " keys"
  else if Z.of_nat (length k) <=? 16 then slice k 0 4 ++ js "..." ++ slice_from k (-4)
  else slice k 0 8 ++ js "..." ++ slice_from k (-8).

Definition formatKeyPreview (k : jstr) (maxLength : Z) : jstr :=
  if negb (str_truthy k) then []
  else if Z.of_nat (length k) <=? maxLength then k
  else slice k 0 maxLength ++ js "...".

Definition countKeys (k : jstr) : nat := if negb (str_truthy k) then 0%nat else length (key_lines k).

Record Deduplicated := {
  deduplicatedText : jstr;
  beforeCount : nat;
  afterCount : nat;
  removedCount : Z
}.

(** One line: the set of the keys seen and the array of the keys kept. *)
Definition dedupe_line (acc : list jstr * list jstr) (line : jstr) : list jstr * list jstr :=
  let trimmedLine := trim line in
  if str_truthy trimmedLine && negb (bool_decide (trimmedLine ∈ acc.1))
  then (acc.1 ++ [trimmedLine], acc.2 ++ [trimmedLine]) else acc.

Definition deduplicateKeys (keysText : jstr) : Deduplicated :=
  if negb (str_truthy keysText) || str_eqb (trim keysText) [] then
    {| deduplicatedText := []; beforeCount := 0; afterCount := 0; removedCount := 0 |}
  else
    let keyLines := split keysText newline in
    let deduplicatedKeys := (fold_left dedupe_line keyLines ([], [])).2 in
    {| deduplicatedText := join newline deduplicatedKeys;
       beforeCount := length keyLines;
       afterCount := length deduplicatedKeys;
       removedCount := Z.of_nat (length keyLines) - Z.of_nat (length deduplicatedKeys) |}.

Definition getKeyPromptForType (type : num) : jstr :=
  table_or TYPE_TO_KEY_PROMPT type (js "Enter API key for this channel").

(** ** Models and groups *)

Definition parse_list (s : jstr) : list jstr :=
  if negb (str_truthy s) then [] else filter is_nonempty (map trim (split s (js ","))).

Definition parseModelsList (models : jstr) : list jstr := parse_list models.

Section WithHost.
Context `{Host}.

(** The comparator puts its first argument first. *)
Definition groupBefore (a b : jstr) : bool :=
  if str_eqb a (js "default") then true
  else if str_eqb b (js "default") then false
  else n_lt (localeCompare a b) (of_Z 0).

Definition parseGroupsList (groups : jstr) : list jstr := sort_stable groupBefore (parse_list groups).

Definition formatModelsString (models : list jstr) : jstr := join (js ",") models.
Definition formatGroupsString (groups : list jstr) : jstr := join (js ",") groups.

(** ** Settings *)

Definition parseChannelSettings (settingStr : option jstr) : jsval :=
  match settingStr with
  | None | Some [] => JObj []
  | Some s => default (JObj []) (json_parse s)
  end.

Definition parseChannelOtherSettings (settingsStr : option jstr) : jsval :=
  match settingsStr with
  | None | Some [] => JObj []
  | Some s => if str_eqb s (js "{}") then JObj [] else default (JObj []) (json_parse s)
  end.

Definition validateChannelSettings (settings : jstr) : bool :=
  if negb (str_truthy settings) || str_eqb (trim settings) [] then true
  else match json_parse settings with Some _ => true | None => false end.

(** ** Balances and response times *)

Definition formatBalance (state : SystemConfigState) (balance : option num) : jstr :=
  match balance with
  | None => js "-"
  | Some b => if isNaN b then js "-" else formatCurrencyFromUSD state (Some b) (options 2 4 false)
  end.

Definition getBalanceVariant (balance : num) : jstr :=
  if n_eq balance (of_Z 0) then js "neutral"
  else if n_lt balance (of_Z 1) then js "danger"
  else if n_lt balance (of_Z 10) then js "warning"
  else js "success".

(** [t] is the translation function of the caller, if any. *)
Definition formatResponseTime (timeMs : num) (t : option (jstr → option jsval → jstr)) : jstr :=
  if n_eq timeMs (of_Z 0) then
    match t with Some t => t (js "Not tested") None | None => js "Not tested" end
  else if n_lt timeMs (of_Z 1000) then
    match t with
    | Some t => t (js "{{value}}ms") (Some (JNum timeMs))
    | None => num_to_string timeMs ++ js "ms"
    end
  else
    let seconds := toFixed (n_div timeMs (of_Z 1000)) 2 in
    match t with
    | Some t => t (js "{{value}}s") (Some (JStr seconds))
    | None => seconds ++ js "s"
    end.

Definition getResponseTimeConfig (timeMs : num) : jstr * jstr :=
  RESPONSE_TIME_CONFIG
    (if n_eq timeMs (of_Z 0) then UNKNOWN
     else if n_le timeMs (RESPONSE_TIME_THRESHOLDS EXCELLENT) then EXCELLENT
     else if n_le timeMs (RESPONSE_TIME_THRESHOLDS GOOD) then GOOD
     else if n_le timeMs (RESPONSE_TIME_THRESHOLDS FAIR) then FAIR
     else if n_le timeMs (RESPONSE_TIME_THRESHOLDS POOR) then POOR
     else POOR).

(** ** Times *)

(** [timestamp == null || timestamp === 0 || timestamp === ''] *)
Definition no_time (timestamp : option Timestamp) : bool :=
  match timestamp with
  | None => true
  | Some (TNum n) => n_eq n (of_Z 0)
  | Some (TText s) => str_eqb s []
  end.

Definition formatRelativeTime (timestamp : option Timestamp) : jstr :=
  if no_time timestamp then js "Never"
  else match timestamp with
       | None => js "Never"
       | Some (TText s) =>
           let ms := date_parse s in
           if isNaN ms || n_le (utc_full_year ms) (of_Z 1) then js "Never" else from_now ms
       | Some (TNum n) =>
           let ms := n_mul n (of_Z 1000) in
           if isNaN ms then js "Never" else from_now ms
       end.

Definition formatTimestamp (timestamp : option Timestamp) : jstr :=
  if no_time timestamp then js "N/A" else formatTimestampToDate timestamp Seconds.

Definition formatQuota (state : SystemConfigState) (quota : num) : jstr :=
  formatQuotaWithCurrency state (Some quota) (options 2 4 true).

Definition getPriorityDisplay (priority : option num) : jstr :=
  match priority with None => js "0" | Some p => num_to_string p end.
Definition getWeightDisplay (weight : option num) : jstr :=
  match weight with None => js "0" | Some w => num_to_string w end.

(** ** Validation and warnings *)

Definition validateChannelName (name : jstr) : bool := bool_decide (trim name ≠ []).
Definition validateApiKey (key : jstr) : bool := bool_decide (trim key ≠ []).
Definition validateModels (models : jstr) : bool := bool_decide (parseModelsList models ≠ []).
Definition validateGroups (groups : jstr) : bool := bool_decide (parseGroupsList groups ≠ []).

Definition lowBalance (channel : Channel) : bool :=
  n_gt (balance channel) (of_Z 0) && n_lt (balance channel) (of_Z 1).

Definition allKeysDisabled (channel : Channel) : bool :=
  match channel_info channel with
  | Some i =>
      is_multi_key i &&
      match multi_key_status_list i with
      | Some l => n_ge (of_Z (Z.of_nat (length (own_keys l)))) (multi_key_size i)
      | None => false
      end
  | None => false
  end.

Definition channelNeedsAttention (channel : Channel) : bool :=
  if n_eq (status channel) (of_Z 3) then true
  else if lowBalance channel then true
  else if allKeysDisabled channel then true
  else false.

Definition getAttentionReason (channel : Channel) : option jstr :=
  if n_eq (status channel) (of_Z 3) then Some (js "Auto-disabled")
  else if lowBalance channel then Some (js "Low balance")
  else if allKeysDisabled channel then Some (js "All keys disabled")
  else None.
End WithHost.

(** ** Channels grouped by tag *)

(** A row: its key, id, tag and name are [row_tag]; the properties that are not
    listed are those of the channel [row_base] that created it. *)
Record TagRow := {
  row_base : Channel;
  row_tag : jstr;
  row_type : num;
  row_status : option num;
  row_group : jstr;
  row_used_quota : num;
  row_response_time : num;
  row_priority : jsval;
  row_weight : jsval;
  row_balance : num;
  row_test_time : num;
  row_created_time : num;
  row_balance_updated_time : num;
  row_models : jstr;
  children : list Channel
}.

Definition newTagRow (channel : Channel) (tag : jstr) : TagRow := {|
  row_base := channel; row_tag := tag; row_type := of_Z 0; row_status := None; row_group := [];
  row_used_quota := of_Z 0; row_response_time := of_Z 0;
  row_priority := JNum (of_Z (-1)); row_weight := JNum (of_Z (-1));
  row_balance := of_Z 0; row_test_time := of_Z 0; row_created_time := of_Z 0;
  row_balance_updated_time := of_Z 0; row_models := []; children := []
|}.

(** The value all children share, or null; -1 stands for no child yet. *)
Definition aggregateShared (current value : jsval) : jsval :=
  if strict_eq current (JNum (of_Z (-1))) then value
  else if negb (strict_eq current value) then JNull else current.

Definition aggregateGroup (current channelGroup : jstr) : jstr :=
  if str_eqb current [] then channelGroup
  else
    let existingGroups := filter is_nonempty (split current (js ",")) in
    let newGroups := filter is_nonempty (split channelGroup (js ",")) in
    fold_left (λ g n, if bool_decide (n ∈ existingGroups) then g else g ++ js "," ++ n) newGroups current.

Definition addToTagRow (tagRow : TagRow) (channel : Channel) : TagRow :=
  let children' := children tagRow ++ [channel] in
  let childCount := Z.of_nat (length children') in {|
  row_base := row_base tagRow; row_tag := row_tag tagRow; row_type := row_type tagRow;
  row_status :=
    if n_eq (status channel) (of_Z 1) then Some (of_Z 1)
    else match row_status tagRow with None => Some (status channel) | Some s => Some s end;
  row_group := aggregateGroup (row_group tagRow) (group channel);
  row_used_quota := n_add (row_used_quota tagRow) (used_quota channel);
  row_response_time :=
    n_div (n_add (n_mul (row_response_time tagRow) (of_Z (childCount - 1))) (response_time channel)) (of_Z childCount);
  row_priority := aggregateShared (row_priority tagRow) (priority channel);
  row_weight := aggregateShared (row_weight tagRow) (weight channel);
  row_balance := row_balance tagRow; row_test_time := row_test_time tagRow;
  row_created_time := row_created_time tagRow; row_balance_updated_time := row_balance_updated_time tagRow;
  row_models := row_models tagRow; children := children'
|}.

(** The map holds the position of the row of each tag in the result. *)
Record TagRows := { tagMap : obj nat; result : list TagRow }.

Definition channelTag (channel : Channel) : jstr := default [] (tag channel).

Definition aggregateStep (st : TagRows) (channel : Channel) : TagRows :=
  let tag := channelTag channel in
  let st :=
    if obj_has tag (tagMap st) then st
    else {| tagMap := obj_set tag (length (result st)) (tagMap st); result := result st ++ [newTagRow channel tag] |} in
  match obj_get tag (tagMap st) with
  | Some i => {| tagMap := tagMap st; result := alter (λ r, addToTagRow r channel) i (result st) |}
  | None => st
  end.

Definition aggregateChannelsByTag (channels : list Channel) : list TagRow :=
  result (fold_left aggregateStep channels {| tagMap := []; result := [] |}).

(** ** Multi-key actions (lib/multi-key-utils.ts) *)

Inductive MultiKeyAction := Enable | Disable | Delete | EnableAll | DisableAll | DeleteDisabled.

Definition getMultiKeyStatusConfig (status : num) : jstr * jstr :=
  default (js "neutral", js "Unknown") (table_get MULTI_KEY_STATUS_CONFIG status).

Definition getMultiKeyConfirmMessage (action : option MultiKeyAction) : jstr :=
  match action with
  | None => []
  | Some Delete => js "Are you sure you want to delete this key? This action cannot be undone."
  | Some Enable => js "Enable this key?"
  | Some Disable => js "Disable this key?"
  | Some EnableAll => js "Are you sure you want to enable all keys?"
  | Some DisableAll => js "Are you sure you want to disable all enabled keys?"
  | Some DeleteDisabled => js "Are you sure you want to delete all auto-disabled keys? This action cannot be undone."
  end.

Definition isDestructiveAction (action : option MultiKeyAction) : bool :=
  match action with Some Delete | Some DeleteDisabled | Some DisableAll => true | _ => false end.
