(* ===== verification/ChannelsFacts.v ===== *)
(** * Channels: grouping by tag and removing duplicate keys

    [aggregateChannelsByTag] against its specification (group the channels by
    tag, then fold each group), what a row shows of its channels, the removal
    of duplicate keys, the list of channel types offered, and the warnings. *)

From S2P Require Import Prelude JsNumber JsNumberFacts JsString JsValue Host Currency Format Channels.

Open Scope nat_scope.

(** ** Grouping *)

(** The row of tag [t]: the first channel with that tag opens the row, and all
    channels with that tag are added to it in order. *)
Definition row_of (channels : list Channel) (t : jstr) (r : TagRow) : Prop :=
  ∃ c cs, filter (λ ch, channelTag ch = t) channels = c :: cs ∧
    r = fold_left addToTagRow (c :: cs) (newTagRow c t).

(** The rows of the tags in the order of their first channels. *)
Definition tags_of (channels : list Channel) : list jstr := set_of_list (map channelTag channels).

Definition grouped (channels : list Channel) (st : TagRows) : Prop :=
  Forall2 (row_of channels) (tags_of channels) (result st) ∧
  ∀ t i, obj_get t (tagMap st) = Some i ↔ tags_of channels !! i = Some t.

Lemma row_of_other l c t r : channelTag c ≠ t → row_of l t r → row_of (l ++ [c]) t r.
Proof.
  intros Hne (a & cs & Hf & ->). exists a, cs. split; [|done].
  rewrite filter_app, Hf, filter_cons_False by done. by rewrite app_nil_r.
Qed.

Lemma row_of_same l c t r : channelTag c = t → row_of l t r → row_of (l ++ [c]) t (addToTagRow r c).
Proof.
  intros Ht (a & cs & Hf & ->). exists a, (cs ++ [c]). split.
  - by rewrite filter_app, Hf, filter_cons_True.
  - rewrite app_comm_cons, fold_left_app. done.
Qed.

Lemma row_of_new l c t : channelTag c = t → t ∉ map channelTag l → row_of (l ++ [c]) t (addToTagRow (newTagRow c t) c).
Proof.
  intros Ht Hn. exists c, []. split; [|done].
  rewrite filter_app, filter_cons_True by done.
  assert (filter (λ ch, channelTag ch = t) l = []) as ->; [|done].
  clear Ht. induction l as [|a l IH]; [done|]. rewrite map_cons in Hn.
  rewrite filter_cons_False by set_solver. apply IH. set_solver.
Qed.

(** Adding a channel to the row at position [i] of the tags. *)
Lemma rows_alter l c ts rs i : NoDup ts → Forall2 (row_of l) ts rs → ts !! i = Some (channelTag c) →
  Forall2 (row_of (l ++ [c])) ts (alter (λ r, addToTagRow r c) i rs).
Proof.
  intros Hnd Hrs Hi. apply Forall2_same_length_lookup. split; [by rewrite length_alter; apply (Forall2_length _ _ _ Hrs)|].
  intros j t r Ht Hr. destruct (decide (i = j)) as [<-|Hij].
  - rewrite list_lookup_alter_eq in Hr. destruct (rs !! i) as [r0|] eqn:E; simplify_eq/=.
    apply row_of_same; [done|]. apply (Forall2_lookup_lr _ _ _ _ _ _ Hrs Hi E).
  - rewrite list_lookup_alter_ne in Hr by done. apply row_of_other.
    + intros <-. apply Hij. by apply (NoDup_lookup ts _ _ (channelTag c)).
    + apply (Forall2_lookup_lr _ _ _ _ _ _ Hrs Ht Hr).
Qed.

Lemma grouped_step l c st : grouped l st → grouped (l ++ [c]) (aggregateStep st c).
Proof.
  intros [Hrs Hm]. unfold aggregateStep. cbv zeta. set (t := channelTag c).
  assert (tags_of (l ++ [c]) = if decide (t ∈ map channelTag l) then tags_of l else tags_of l ++ [t]) as Htags
    by (unfold tags_of; rewrite map_app; apply set_of_list_snoc).
  unfold obj_has. destruct (obj_get t (tagMap st)) as [i|] eqn:E.
  - apply Hm in E as Hi. rewrite E. rewrite decide_True in Htags
      by (apply elem_of_set_of_list, list_elem_of_lookup; by exists i).
    split; cbn [result tagMap]; rewrite Htags; [|done].
    apply rows_alter; [apply NoDup_set_of_list|done|done].
  - assert (t ∉ map channelTag l) as Hn.
    { rewrite <- elem_of_set_of_list, list_elem_of_lookup. intros [i Hi]. apply Hm in Hi. congruence. }
    rewrite decide_False in Htags by done. cbn [tagMap result]. rewrite obj_get_set_eq.
    assert (length (tags_of l) = length (result st)) as Hlen by apply (Forall2_length _ _ _ Hrs).
    split; cbn [result tagMap]; rewrite Htags.
    + rewrite alter_app_r_alt, Nat.sub_diag by lia. apply Forall2_app.
      * apply Forall2_same_length_lookup. split; [done|]. intros j u r Hu Hr. apply row_of_other.
        { intros <-. apply Hn. rewrite <- elem_of_set_of_list, list_elem_of_lookup. by exists j. }
        apply (Forall2_lookup_lr _ _ _ _ _ _ Hrs Hu Hr).
      * repeat constructor. by apply row_of_new.
    + intros u i. rewrite obj_get_set. destruct (str_eqb u t) eqn:Eu.
      * apply str_eqb_eq in Eu as ->. split.
        { intros [= <-]. rewrite <- Hlen. by rewrite lookup_app_r, Nat.sub_diag. }
        { intros Hi. destruct (decide (i < length (tags_of l))).
          - rewrite lookup_app_l in Hi by done. apply Hm in Hi. congruence.
          - f_equal. apply lookup_lt_Some in Hi. rewrite length_app in Hi. simpl in Hi. lia. }
      * rewrite Hm. assert (u ≠ t) by (intros ->; by rewrite str_eqb_refl in Eu).
        destruct (decide (i < length (tags_of l))); [by rewrite lookup_app_l|].
        rewrite lookup_app_r, lookup_ge_None_2 by lia.
        destruct (i - length (tags_of l)) as [|k] eqn:Ei; simpl; naive_solver.
Qed.

Lemma aggregate_grouped channels : grouped channels (fold_left aggregateStep channels {| tagMap := []; result := [] |}).
Proof.
  induction channels as [|c l IH] using rev_ind; [split; [constructor|]; by intros t i|].
  rewrite fold_left_app. by apply grouped_step.
Qed.

(** Grouping channels by tag gives one row per tag, in the order of the first
    channels, and the row of a tag is what results from opening it with its first
    channel and adding exactly the channels with that tag, in order: updating
    the rows in place while going through the channels is the same as grouping
    first and folding each group. *)
Theorem aggregate_groups (channels : list Channel) :
  Forall2 (λ t r, ∃ c cs, filter (λ ch, channelTag ch = t) channels = c :: cs ∧
                          r = fold_left addToTagRow (c :: cs) (newTagRow c t))
    (set_of_list (map channelTag channels)) (aggregateChannelsByTag channels).
Proof. apply (aggregate_grouped channels). Qed.

(** ** What a row shows *)

(** The group names of a comma-separated list. *)
Definition group_names (g : jstr) : list jstr := filter is_nonempty (split g (js ",")).

Lemma cons_head_app d (l l' : list jstr) : l ≠ [] → cons_head d (l ++ l') = cons_head d l ++ l'.
Proof. by destruct l. Qed.

Lemma split_app (u : N) a b : split (a ++ u :: b) [u] = split a [u] ++ split b [u].
Proof.
  induction a as [|d a IH]; [apply split_cons_sep|]. cbn [app].
  destruct (decide (d = u)) as [->|Hd]; [by rewrite !split_cons_sep, IH|].
  rewrite !split_cons_ne, IH by done. apply cons_head_app, split_nonempty.
Qed.

Lemma group_names_snoc g n : (44%N ∉ n) → n ≠ [] →
  group_names (g ++ js "," ++ n) = group_names g ++ [n].
Proof.
  intros Hc Hn. unfold group_names. change (g ++ js "," ++ n) with (g ++ 44%N :: n). change (js ",") with [44%N].
  rewrite split_app, filter_app, (split_no_sep 44%N n) by done. by rewrite filter_cons_True.
Qed.

Lemma group_names_clean g n : n ∈ group_names g → (44%N ∉ n) ∧ n ≠ [].
Proof.
  unfold group_names. rewrite list_elem_of_filter. intros [Hne Hin]. split; [|done].
  pose proof (split_pieces 44%N g) as H. rewrite Forall_forall in H. by apply H.
Qed.

Lemma add_groups (existing news : list jstr) cur : Forall (λ n, (44%N ∉ n) ∧ n ≠ []) news →
  group_names (fold_left (λ g n, if bool_decide (n ∈ existing) then g else g ++ js "," ++ n) news cur) =
  group_names cur ++ filter (λ n, n ∉ existing) news.
Proof.
  intros Hn. revert cur. induction Hn as [|n news [Hc Hne] _ IH]; intros cur; cbn [fold_left].
  - by rewrite app_nil_r.
  - rewrite IH. case_bool_decide.
    + by rewrite filter_cons_False by naive_solver.
    + rewrite filter_cons_True, group_names_snoc by auto. by rewrite <- app_assoc.
Qed.

Lemma aggregateGroup_names cur new g :
  g ∈ group_names (aggregateGroup cur new) ↔ g ∈ group_names cur ∨ g ∈ group_names new.
Proof.
  unfold aggregateGroup. destruct (str_eqb cur []) eqn:E.
  - apply str_eqb_eq in E as ->. change (group_names []) with (@nil jstr). set_solver.
  - cbv zeta. fold (group_names cur). fold (group_names new). rewrite add_groups.
    + rewrite elem_of_app, list_elem_of_filter. destruct (decide (g ∈ group_names cur)); naive_solver.
    + apply Forall_forall. apply group_names_clean.
Qed.

Definition shared (p : jsval) (ps : list jsval) : jsval := if forallb (strict_eq p) ps then p else JNull.

Definition is_sentinel (p : jsval) : bool := strict_eq p (JNum (of_Z (-1))).

Lemma aggregateShared_null v : aggregateShared JNull v = JNull.
Proof. unfold aggregateShared. by destruct v. Qed.

Lemma aggregateShared_first v : aggregateShared (JNum (of_Z (-1))) v = v.
Proof. done. Qed.

Lemma aggregateShared_fold p ps : is_sentinel p = false → fold_left aggregateShared ps p = shared p ps.
Proof.
  intros Hp. unfold shared. induction ps as [|q ps IH]; [done|]. cbn [fold_left forallb].
  unfold aggregateShared at 2. unfold is_sentinel in Hp. rewrite Hp.
  destruct (strict_eq p q); [done|]. cbn [negb andb]. clear. induction ps as [|q' ps IH]; [done|].
  cbn [fold_left]. by rewrite aggregateShared_null.
Qed.

(** Folding channels into a row acts on each of its fields by itself. *)
Lemma fold_field {B} (f : TagRow → B) (step : B → Channel → B) cs r :
  (∀ r c, f (addToTagRow r c) = step (f r) c) → f (fold_left addToTagRow cs r) = fold_left step cs (f r).
Proof. intros Hf. revert r. induction cs as [|c cs IH]; intros r; [done|]. cbn [fold_left]. by rewrite IH, Hf. Qed.

Lemma fold_map {A B C} (step : A → B → A) (g : C → B) cs x :
  fold_left (λ a c, step a (g c)) cs x = fold_left step (map g cs) x.
Proof. revert x. induction cs as [|c cs IH]; intros x; [done|]. apply IH. Qed.

Lemma fold_children cs r : children (fold_left addToTagRow cs r) = children r ++ cs.
Proof.
  rewrite (fold_field children (λ l c, l ++ [c])) by done.
  generalize (children r). induction cs as [|c cs IH]; intros l; cbn [fold_left]; [by rewrite app_nil_r|].
  by rewrite IH, <- app_assoc.
Qed.

Definition status_step (s : option num) (c : Channel) : option num :=
  if n_eq (status c) (of_Z 1) then Some (of_Z 1) else match s with None => Some (status c) | Some s => Some s end.

Lemma fold_status cs s : fold_left status_step cs (Some s) = Some (if existsb isChannelEnabled cs then of_Z 1 else s).
Proof.
  revert s. induction cs as [|c cs IH]; intros s; [done|]. cbn [fold_left existsb].
  unfold status_step at 2, isChannelEnabled at 1. destruct (n_eq (status c) (of_Z 1)); rewrite IH; [|done].
  by destruct (existsb _ _).
Qed.

Lemma fold_groups cs r g : g ∈ group_names (row_group (fold_left addToTagRow cs r)) ↔
  g ∈ group_names (row_group r) ∨ ∃ c, c ∈ cs ∧ g ∈ group_names (group c).
Proof.
  revert r. induction cs as [|c cs IH]; intros r; cbn [fold_left]; [set_solver|].
  rewrite IH. cbn [addToTagRow row_group]. rewrite aggregateGroup_names. set_solver.
Qed.

(** What the row of a tag shows of its channels [c :: cs]: all of them as
    children; enabled when one of them is, else the state of the first; the sum
    of their used quota; every group name of theirs and no other; and, unless
    the first has priority (weight) -1, the priority (weight) they share or null. *)
Theorem tag_row_summary (channels : list Channel) (r : TagRow) (Hr : r ∈ aggregateChannelsByTag channels) :
  ∃ c cs, children r = c :: cs ∧
    filter (λ ch, channelTag ch = row_tag r) channels = children r ∧
    row_status r = Some (if existsb isChannelEnabled (children r) then of_Z 1 else status c) ∧
    row_used_quota r = fold_left n_add (map used_quota (children r)) (of_Z 0) ∧
    (∀ g, g ∈ group_names (row_group r) ↔ ∃ ch, ch ∈ children r ∧ g ∈ group_names (group ch)) ∧
    (is_sentinel (priority c) = false → row_priority r = shared (priority c) (map priority cs)) ∧
    (is_sentinel (weight c) = false → row_weight r = shared (weight c) (map weight cs)).
Proof.
  destruct (aggregate_grouped channels) as [Hg _]. unfold aggregateChannelsByTag in Hr.
  apply list_elem_of_lookup in Hr as [i Hi].
  destruct (Forall2_lookup_r _ _ _ _ _ Hg Hi) as (t & _ & c & cs & Hf & ->).
  exists c, cs. rewrite fold_children. cbn [newTagRow children app].
  rewrite (fold_field row_tag (λ t _, t)) by done.
  assert (∀ l, fold_left (λ (t : jstr) (_ : Channel), t) l t = t) as Ht
    by (intros l; induction l as [|? l IHl]; [done|exact IHl]).
  cbn [newTagRow row_tag]. rewrite Ht. split; [done|]. split; [done|]. split_and!.
  - rewrite (fold_field row_status status_step) by done. cbn [fold_left newTagRow row_status existsb].
    unfold status_step at 2, isChannelEnabled at 1. destruct (n_eq (status c) (of_Z 1)); rewrite fold_status; [|done].
    by destruct (existsb _ _).
  - rewrite (fold_field row_used_quota (λ q c, n_add q (used_quota c))) by done. apply fold_map.
  - intros g. rewrite fold_groups. cbn [newTagRow row_group]. change (group_names []) with (@nil jstr). set_solver.
  - intros Hp. rewrite (fold_field row_priority (λ p c, aggregateShared p (priority c))) by done.
    rewrite fold_map. cbn [map fold_left newTagRow row_priority row_weight].
    rewrite aggregateShared_first. by apply aggregateShared_fold.
  - intros Hp. rewrite (fold_field row_weight (λ p c, aggregateShared p (weight c))) by done.
    rewrite fold_map. cbn [map fold_left newTagRow row_priority row_weight].
    rewrite aggregateShared_first. by apply aggregateShared_fold.
Qed.

Definition sample_channel (n : jstr) (st : Z) (p : jsval) : Channel := {|
  id := of_Z 1; type := of_Z 1; key := []; openai_organization := None; test_model := None; status := of_Z st;
  name := n; weight := JNum (of_Z 0); created_time := TNum (of_Z 0); test_time := TNum (of_Z 0);
  response_time := of_Z 100; base_url := None; other := []; balance := of_Z 0; balance_updated_time := TNum (of_Z 0);
  models := []; group := js "default"; used_quota := of_Z 10; model_mapping := None; status_code_mapping := None;
  priority := p; auto_ban := None; other_info := []; tag := Some (js "main"); setting := None;
  param_override := None; header_override := None; remark := []; max_input_tokens := of_Z 0;
  channel_info := None; settings := js "{}"
|}.

Lemma tag_row_summary_witness :
  let a := sample_channel (js "a") 2 (JNum (of_Z 5)) in
  let b := sample_channel (js "b") 1 (JNum (of_Z 5)) in
  match aggregateChannelsByTag [a; b] with
  | [r] => ∃ c cs, children r = c :: cs ∧ row_status r = Some (if existsb isChannelEnabled (children r) then of_Z 1 else status c)
  | _ => False
  end.
Proof.
  set (a := sample_channel (js "a") 2 (JNum (of_Z 5))). set (b := sample_channel (js "b") 1 (JNum (of_Z 5))).
  pose proof (tag_row_summary [a; b]) as H. cbv zeta.
  assert (∃ r, aggregateChannelsByTag [a; b] = [r]) as [r E] by (eexists; vm_compute; reflexivity).
  rewrite E in *. destruct (H r ltac:(left)) as (c & cs & Hc & _ & Hs & _). exists c, cs. exact (conj Hc Hs).
Defined.

(** A first channel of priority -1 is taken for no channel yet: two channels of
    priorities -1 and 5 show the shared priority 5. *)
Theorem tag_row_priority_sentinel :
  let a := sample_channel (js "a") 1 (JNum (of_Z (-1))) in
  let b := sample_channel (js "b") 1 (JNum (of_Z 5)) in
  map row_priority (aggregateChannelsByTag [a; b]) = [JNum (of_Z 5)] ∧
  map row_priority (aggregateChannelsByTag [b; a]) = [JNull].
Proof. vm_compute. split; reflexivity. Qed.

(** ** Types offered, warnings and masks *)

(** Every channel type but the unknown one is offered once, with its name, those
    with a display order first. *)
Theorem channel_type_options_complete :
  NoDup (map fst CHANNEL_TYPE_OPTIONS) ∧
  (∀ e, e ∈ CHANNEL_TYPE_OPTIONS ↔ e ∈ CHANNEL_TYPES ∧ e.1 ≠ 0%Z) ∧
  take (length CHANNEL_TYPE_DISPLAY_ORDER) (map fst CHANNEL_TYPE_OPTIONS) = CHANNEL_TYPE_DISPLAY_ORDER.
Proof.
  split_and!.
  - apply (bool_decide_unpack (NoDup _)). vm_compute. exact I.
  - assert (CHANNEL_TYPE_OPTIONS ≡ₚ filter (λ e, e.1 ≠ 0%Z) CHANNEL_TYPES) as Hp
      by (apply (bool_decide_unpack (_ ≡ₚ _)); vm_compute; exact I).
    intros e. rewrite Hp, list_elem_of_filter. naive_solver.
  - vm_compute. reflexivity.
Qed.

(** A channel is flagged exactly when there is a reason to show. *)
Lemma attention_has_reason (channel : Channel) :
  channelNeedsAttention channel = true ↔ getAttentionReason channel ≠ None.
Proof.
  unfold channelNeedsAttention, getAttentionReason. repeat case_bool; naive_solver.
Qed.

(** Masking shows the whole of a key of at most eight characters. *)
Theorem mask_shows_short_keys (k : jstr) : 4 ≤ length k ≤ 8 →
  ∃ a b, formatChannelKey k false = a ++ js "..." ++ b ∧ a = take 4 k ∧ (∃ o, a ++ drop o b = k).
Proof.
  intros Hk. exists (take 4 k), (drop (length k - 4) k). split_and!; [|done|].
  - unfold formatChannelKey. destruct k as [|u k]; [simpl in Hk; lia|]. cbn [str_truthy negb].
    set (l := u :: k) in *. assert ((Z.of_nat (length l) <=? 16)%Z = true) as -> by lia.
    unfold slice_from, slice, rel_index. cbn [Z.ltb Z.compare]. cbv zeta.
    replace (Z.to_nat (Z.min 4 (Z.of_nat (length l)))) with 4 by lia.
    replace (Z.to_nat (Z.min 0 (Z.of_nat (length l)))) with 0 by lia.
    replace (Z.to_nat (Z.max (Z.of_nat (length l) + -4) 0)) with (length l - 4) by lia.
    rewrite drop_0. do 3 f_equal. apply take_ge. rewrite length_drop.
    destruct (Z.ltb_spec (Z.of_nat (length l)) 0); lia.
  - exists (8 - length k). rewrite drop_drop. replace (_ + _) with 4 by lia. apply take_drop.
Qed.

(** ** Duplicate keys *)

(** The non-blank pieces of a text between separators, trimmed. *)
Definition pieces (sep : N) (text : jstr) : list jstr := filter is_nonempty (map trim (split text [sep])).

(** The keys of a text: its non-blank lines, trimmed. *)
Definition keys_of (text : jstr) : list jstr := pieces 10%N text.

(** A piece: not blank, trimmed and without the separator. *)
Definition clean (sep : N) (k : jstr) : Prop := is_nonempty k ∧ trim k = k ∧ sep ∉ k.

Lemma dedupe_fold lines : fold_left dedupe_line lines ([], []) =
  (set_of_list (filter is_nonempty (map trim lines)), set_of_list (filter is_nonempty (map trim lines))).
Proof.
  induction lines as [|l lines IH] using rev_ind; [done|].
  rewrite fold_left_app, map_app, filter_app, IH. cbn [fold_left map]. unfold dedupe_line. cbv zeta. cbn [fst snd].
  destruct (trim l) as [|u s] eqn:E; cbn [str_truthy andb].
  - rewrite filter_cons_False by (unfold is_nonempty; naive_solver). by rewrite app_nil_r.
  - rewrite filter_cons_True by done. rewrite filter_nil, set_of_list_snoc.
    case_bool_decide as Hin; rewrite elem_of_set_of_list in Hin; cbn [negb].
    + by rewrite decide_True.
    + by rewrite decide_False.
Qed.

Lemma in_join {A} (sep p : list A) ps x : p ∈ ps → x ∈ p → x ∈ join sep ps.
Proof.
  intros Hp Hx. induction ps as [|q [|q' ps] IH]; [by apply elem_of_nil in Hp|set_solver|].
  rewrite join_cons, !elem_of_app. apply elem_of_cons in Hp as [->|Hp]; [by left|]. right. right. by apply IH.
Qed.

Lemma pieces_blank sep text : trim text = [] → pieces sep text = [].
Proof.
  intros H. apply trim_nil in H. unfold pieces. apply filter_none, Forall_forall.
  intros k. rewrite list_elem_of_fmap. intros (p & -> & Hp). unfold is_nonempty. intros Hne. apply Hne, trim_nil.
  rewrite Forall_forall in H |- *. intros x Hx. apply H. rewrite <- (join_split sep text). by apply (in_join _ p).
Qed.

(** Clean pieces joined by the separator are read back as they are. *)
Lemma pieces_join sep (ks : list jstr) : Forall (clean sep) ks → pieces sep (join [sep] ks) = ks.
Proof.
  intros H. destruct ks as [|k ks]; [done|]. unfold pieces.
  rewrite split_join; [|done|eapply Forall_impl; [exact H|by intros ? (_ & _ & ?)]].
  assert (map trim (k :: ks) = k :: ks) as ->.
  { clear -H. induction H as [|q l (_ & Hq & _) _ IH]; [done|]. cbn [map]. by rewrite Hq, IH. }
  apply filter_id. eapply Forall_impl; [exact H|by intros ? [? _]].
Qed.

Lemma trim_sub s x : x ∈ trim s → x ∈ s.
Proof.
  unfold trim, trim_end, trim_start. intros H. apply elem_of_reverse_rev in H. rewrite rev_involutive in H.
  destruct (drop_while_suffix is_space (rev (drop_while is_space s))) as (p & Hp & _).
  assert (x ∈ rev (drop_while is_space s)) as H' by (rewrite Hp; set_solver).
  apply elem_of_reverse_rev in H'. rewrite rev_involutive in H'.
  destruct (drop_while_suffix is_space s) as (q & Hq & _). rewrite Hq. set_solver.
Qed.

Lemma pieces_clean sep text : Forall (clean sep) (pieces sep text).
Proof.
  apply Forall_forall. intros k. unfold pieces. rewrite list_elem_of_filter, list_elem_of_fmap.
  intros (Hne & p & -> & Hp). split_and!; [done|apply trim_idemp|].
  intros Hin. apply trim_sub in Hin. pose proof (split_pieces sep text) as H. rewrite Forall_forall in H. by apply (H p).
Qed.

Lemma set_of_list_clean sep (ks : list jstr) : Forall (clean sep) ks → Forall (clean sep) (set_of_list ks).
Proof. rewrite !Forall_forall. intros H k Hk. apply H. by apply elem_of_set_of_list. Qed.

Lemma deduplicate_text text : deduplicatedText (deduplicateKeys text) = join newline (set_of_list (keys_of text)) ∧
  afterCount (deduplicateKeys text) = length (set_of_list (keys_of text)).
Proof.
  unfold deduplicateKeys. destruct (negb (str_truthy text) || str_eqb (trim text) []) eqn:E.
  - assert (trim text = []) as Ht.
    { apply orb_true_iff in E as [E|E]; [by destruct text|by apply str_eqb_eq in E]. }
    unfold keys_of. by rewrite pieces_blank.
  - cbv zeta. cbn [deduplicatedText afterCount]. by rewrite dedupe_fold.
Qed.

(** Removing duplicate keys keeps exactly the distinct keys of the text, in
    the order of their first lines and trimmed; the new count is the number of
    keys of the new text; and removing duplicates again changes nothing. *)
Theorem deduplicate_keys_exact (text : jstr) :
  let d := deduplicateKeys text in
  keys_of (deduplicatedText d) = set_of_list (keys_of text) ∧
  afterCount d = countKeys (deduplicatedText d) ∧
  deduplicatedText (deduplicateKeys (deduplicatedText d)) = deduplicatedText d ∧
  removedCount (deduplicateKeys (deduplicatedText d)) = 0%Z.
Proof.
  cbv zeta. destruct (deduplicate_text text) as [Ht Hc]. set (ks := set_of_list (keys_of text)) in *.
  assert (Forall (clean 10%N) ks) as Hk by apply set_of_list_clean, pieces_clean.
  assert (keys_of (join newline ks) = ks) as Hj by by apply pieces_join.
  assert (Forall (λ k, 10%N ∉ k) ks) as Hnl by (eapply Forall_impl; [exact Hk|by intros ? (_ & _ & ?)]).
  rewrite Ht. split_and!; [done|..].
  - rewrite Hc. unfold countKeys, key_lines. destruct ks as [|k ks'] eqn:Eks; [done|].
    assert (str_truthy (join newline (k :: ks')) = true) as ->.
    { apply Forall_cons in Hk as [(Hne & _) _]. destruct k as [|u k]; [done|]. by destruct ks'. }
    cbn [negb]. unfold newline. rewrite split_join by done.
    symmetry. f_equal. apply filter_id. eapply Forall_impl; [exact Hk|]. intros q (Hq & Hqt & _). by rewrite Hqt.
  - destruct (deduplicate_text (join newline ks)) as [-> _]. rewrite Hj. unfold ks. by rewrite set_of_list_idemp.
  - unfold deduplicateKeys. case_bool; [done|]. cbv zeta. cbn [removedCount]. rewrite dedupe_fold. cbn [snd].
    change (filter is_nonempty (map trim (split (join newline ks) newline))) with (keys_of (join newline ks)).
    rewrite Hj. unfold ks at 2. rewrite set_of_list_idemp. fold ks.
    destruct ks as [|k ks'] eqn:Eks; [done|]. unfold newline. rewrite split_join by done. lia.
Qed.
