(* ===== verification/ChannelModels.v ===== *)
(** * Models of a channel (features/channels/lib)

    Model lists and model mappings (model-mapping-validation.ts), pending
    changes of the models an upstream offers (upstream-update-utils.ts), and
    the models of an Ollama server (ollama-utils.ts). *)

From S2P Require Import Prelude JsNumber JsString JsValue Host Currency Format Channels ChannelsFacts.

Open Scope nat_scope.

(** ** Model lists and mappings (model-mapping-validation.ts) *)

Definition parseModelsString (modelsStr : jstr) : list jstr :=
  if str_truthy modelsStr then filter is_nonempty (map trim (split modelsStr (js ","))) else [].

Definition formatModelsArray (models : list jstr) : jstr := join (js ",") (set_of_list models).

Definition normalizeModelName (model : jstr) : jstr := trim model.

(** [JSON.parse] and the tests that follow it: an object, or nothing. *)
Definition parse_mapping (s : jstr) : option (obj jsval) :=
  match json_parse s with Some (JObj o) => Some o | _ => None end.

Definition extractMappingSourceModels (modelMapping : jstr) : list jstr :=
  let trimmed := trim modelMapping in
  if negb (str_truthy trimmed) then []
  else match parse_mapping trimmed with
       | None => []
       | Some parsed => set_of_list (filter is_nonempty (map trim (own_keys parsed)))
       end.

Definition redirect_value (v : jsval) : option jstr :=
  match v with JStr s => let t := trim s in if str_truthy t then Some t else None | _ => None end.

Definition extractRedirectModels (modelMapping : jstr) : list jstr :=
  let trimmed := trim modelMapping in
  if negb (str_truthy trimmed) then []
  else match parse_mapping trimmed with
       | None => []
       | Some parsed => set_of_list (omap redirect_value (own_values parsed))
       end.

Definition hasModelConfigChanged (currentModels : list jstr) (currentModelMapping : jstr)
    (initialModels : list jstr) (initialModelMapping : jstr) : bool :=
  if (length initialModels =? 0) && negb (str_truthy initialModelMapping) then true
  else if negb (length currentModels =? length initialModels) then true
  else if existsb (λ i, negb (bool_decide (currentModels !! i = initialModels !! i))) (seq 0 (length currentModels)) then true
  else negb (str_eqb (trim currentModelMapping) (trim initialModelMapping)).

Definition findMissingModelsInMapping (modelMapping : jstr) (currentModels : list jstr) : list jstr :=
  if negb (str_truthy modelMapping) || str_eqb (trim modelMapping) [] then []
  else match parse_mapping modelMapping with
       | None => []
       | Some parsedMapping =>
           let modelSet := set_of_list (map normalizeModelName currentModels) in
           let missingModels := filter (λ key, key ≠ [] ∧ key ∉ modelSet) (map normalizeModelName (own_keys parsedMapping)) in
           set_of_list missingModels
       end.

Inductive MappingCheck := ValidMapping | InvalidMapping (error : jstr).

Definition validateModelMappingJson (modelMapping : jstr) : MappingCheck :=
  if negb (str_truthy modelMapping) || str_eqb (trim modelMapping) [] then ValidMapping
  else match json_parse modelMapping with
       | None => InvalidMapping (js "Model mapping must be valid JSON format")
       | Some (JObj _) => ValidMapping
       | Some _ => InvalidMapping (js "Model mapping must be a valid JSON object")
       end.

Definition findExposedTargetModels (modelMapping : jstr) (currentModels : list jstr) : list jstr :=
  let redirectModels := extractRedirectModels modelMapping in
  if length redirectModels =? 0 then []
  else
    let modelSet := set_of_list (map normalizeModelName currentModels) in
    filter (λ model, normalizeModelName model ∈ modelSet) redirectModels.

Record ModelSets := {
  normalizedCurrentModels : list jstr;
  normalizedRedirectModels : list jstr;
  classificationSet : list jstr;
  redirectOnlySet : list jstr
}.

Definition categorizeModelsWithRedirect (currentModels redirectModels : list jstr) : ModelSets :=
  let current := set_of_list (filter is_nonempty (map normalizeModelName currentModels)) in
  let redirect := set_of_list (filter is_nonempty (map normalizeModelName redirectModels)) in {|
  normalizedCurrentModels := current;
  normalizedRedirectModels := redirect;
  classificationSet := set_of_list (current ++ redirect);
  redirectOnlySet := set_of_list (filter (λ m, m ∉ current) redirect)
|}.

(** ** Pending upstream changes (upstream-update-utils.ts) *)

(** A value that is not an array has no [map]. *)
Definition normalizeModelList (models : jsval) : outcome (list jstr) :=
  match js_or models (JArr []) with
  | JArr l => Ret (set_of_list (filter is_nonempty (map (λ m, trim (to_string (js_or m (JStr [])))) l)))
  | _ => Throw
  end.

Record UpstreamUpdateMeta := {
  enabled : bool;
  pendingAddModels : list jstr;
  pendingRemoveModels : list jstr
}.

Definition parseUpstreamUpdateMeta (settings : jsval) : outcome UpstreamUpdateMeta :=
  let parsed :=
    match settings with
    | JObj _ => settings
    | JStr s => default JNull (json_parse s)
    | _ => JNull
    end in
  if truthy parsed && typeof_object parsed then
    add ← normalizeModelList (js_or (prop "upstream_model_update_last_detected_models" parsed) (JArr []));
    remove ← normalizeModelList (js_or (prop "upstream_model_update_last_removed_models" parsed) (JArr []));
    Ret {| enabled := strict_eq (prop "upstream_model_update_check_enabled" parsed) (JBool true);
           pendingAddModels := add; pendingRemoveModels := remove |}
  else Ret {| enabled := false; pendingAddModels := []; pendingRemoveModels := [] |}.

(** ** Ollama (ollama-utils.ts) *)

Definition isRecord (value : jsval) : bool := match value with JArr _ | JObj _ => true | _ => false end.
Definition getString (value : jsval) : option jstr := match value with JStr s => Some s | _ => None end.
Definition getNumber (value : jsval) : option num := match value with JNum x => Some x | _ => None end.

Definition parseMaybeJSON (value : jsval) : jsval :=
  if negb (truthy value) then JNull
  else match value with
       | JArr _ | JObj _ => value
       | JStr s => default JNull (json_parse s)
       | _ => JNull
       end.

(** The first text of the list that is present and not empty. *)
Fixpoint first_text (l : list (option jstr)) : option jstr :=
  match l with
  | [] => None
  | Some ((_ :: _) as s) :: _ => Some s
  | _ :: l => first_text l
  end.

(** [ollama_base_url] is a property that is not in the channel's schema. *)
Definition resolveOllamaBaseUrl (channel : option Channel) (ollama_base_url : jsval) : jstr :=
  match channel with
  | None => []
  | Some channel =>
      let direct := trim (default [] (base_url channel)) in
      if str_truthy direct then direct
      else
        let alt := trim (default [] (getString ollama_base_url)) in
        if str_truthy alt then alt
        else
          let parsed := parseMaybeJSON (JStr (other_info channel)) in
          if isRecord parsed then
            default [] (first_text (map (λ k, trim <$> getString (prop k parsed)) ["base_url"; "public_url"; "api_url"]%string))
          else []
  end.

(** [normalized.k = v] when [normalized.k] is falsy and [v] is present. *)
Definition fill (k : string) (v : option jsval) (o : obj jsval) : obj jsval :=
  match v with
  | Some v => if truthy (prop k (JObj o)) then o else obj_set (js_of_string k) v o
  | None => o
  end.

(** [v] when it is truthy. *)
Definition when_truthy (v : jsval) : option jsval := if truthy v then Some v else None.

Definition normalizeOllamaItem (item : jsval) : option (obj jsval) :=
  if negb (truthy item) then None
  else match item with
       | JStr s => Some [(js "id", JStr s); (js "owned_by", JStr (js "ollama"))]
       | JObj o =>
           match first_text (map (λ k, getString (prop k item)) ["id"; "ID"; "name"; "model"; "Model"]%string) with
           | None => None
           | Some candidateId =>
               let metadata := if is_nullish (prop "metadata" item) then prop "Metadata" item else prop "metadata" item in
               let owner := default (js "ollama") (first_text [getString (prop "owned_by" item); getString (prop "ownedBy" item)]) in
               let normalized := obj_set (js "owned_by") (JStr owner) (obj_set (js "id") (JStr candidateId) o) in
               let normalized := fill "size" (JNum <$> getNumber (prop "size" item)) normalized in
               Some (if isRecord metadata then
                       let normalized := fill "size" (JNum <$> getNumber (prop "size" metadata)) normalized in
                       let normalized := fill "digest" (JStr <$> first_text [getString (prop "digest" metadata)]) normalized in
                       let normalized := fill "modified_at" (JStr <$> first_text [getString (prop "modified_at" metadata)]) normalized in
                       fill "details" (when_truthy (prop "details" metadata)) normalized
                     else normalized)
           end
       | _ => None
       end.

Definition normalizeOllamaModels (items : jsval) : list (obj jsval) :=
  match items with JArr l => omap normalizeOllamaItem l | _ => [] end.

Definition formatBytes (bytes : option num) : jstr :=
  match bytes with
  | None => js "-"
  | Some b =>
      if isNaN b then js "-"
      else if n_lt b (of_Z 1024) then num_to_string b ++ js " B"
      else
        let kb := n_div b (of_Z 1024) in
        if n_lt kb (of_Z 1024) then toFixed kb 1 ++ js " KB"
        else
          let mb := n_div kb (of_Z 1024) in
          if n_lt mb (of_Z 1024) then toFixed mb 1 ++ js " MB"
          else toFixed (n_div mb (of_Z 1024)) 2 ++ js " GB"
  end.

(** ** Model lists *)

Lemma parseModelsString_pieces s : parseModelsString s = pieces 44%N s.
Proof. by destruct s. Qed.

(** Writing a list of model names and reading it back gives its distinct
    names in order, for names that are trimmed, not empty and without commas;
    so every text is brought to a normal form by reading and writing it once. *)
Theorem models_text_roundtrip :
  (∀ ms, Forall (λ m, m ≠ [] ∧ trim m = m ∧ 44%N ∉ m) ms → parseModelsString (formatModelsArray ms) = set_of_list ms) ∧
  (∀ s, let n := formatModelsArray (parseModelsString s) in
        parseModelsString n = set_of_list (parseModelsString s) ∧ formatModelsArray (parseModelsString n) = n).
Proof.
  assert (∀ ms, Forall (clean 44%N) ms → parseModelsString (formatModelsArray ms) = set_of_list ms) as H.
  { intros ms Hms. rewrite parseModelsString_pieces. by apply (pieces_join 44%N), set_of_list_clean. }
  split; [done|]. intros s. cbv zeta.
  assert (parseModelsString (formatModelsArray (parseModelsString s)) = set_of_list (parseModelsString s)) as Hs
    by (apply H; rewrite parseModelsString_pieces; apply pieces_clean).
  split; [done|]. rewrite Hs. unfold formatModelsArray. by rewrite set_of_list_idemp.
Qed.

(** ** Mappings *)

Lemma hasModelConfigChanged_same ms mm : hasModelConfigChanged ms mm ms mm = bool_decide (ms = []) && negb (str_truthy mm).
Proof.
  unfold hasModelConfigChanged. destruct ms as [|m ms]; cbn [length Nat.eqb].
  - destruct (str_truthy mm); [|done]. cbn. by rewrite str_eqb_refl.
  - cbn [andb]. rewrite Nat.eqb_refl. cbn [negb]. rewrite str_eqb_refl.
    assert (existsb (λ i, negb (bool_decide ((m :: ms) !! i = (m :: ms) !! i))) (seq 0 (S (length ms))) = false) as ->; [|done].
    apply not_true_is_false. rewrite existsb_exists. intros (i & _ & Hi). by rewrite bool_decide_true in Hi.
Qed.

(** Names found missing are trimmed, not empty, distinct and really missing. *)
Lemma missing_spec mapping ms m : m ∈ findMissingModelsInMapping mapping ms →
  m ≠ [] ∧ trim m = m ∧ m ∉ map trim ms.
Proof.
  unfold findMissingModelsInMapping. case_bool; [by rewrite elem_of_nil|]. case_match; [|by rewrite elem_of_nil].
  cbv zeta. unfold normalizeModelName. rewrite elem_of_set_of_list, list_elem_of_filter, elem_of_set_of_list.
  intros [[Hne Hin] Hk]. apply list_elem_of_fmap in Hk as (p & -> & _). split_and!; [done|apply trim_idemp|done].
Qed.

Lemma missing_added mapping ms : findMissingModelsInMapping mapping (ms ++ findMissingModelsInMapping mapping ms) = [].
Proof.
  assert (∀ m, m ∈ findMissingModelsInMapping mapping ms → trim m = m) as Ht by (intros m Hm; by apply missing_spec in Hm as (_ & ? & _)).
  revert Ht. unfold findMissingModelsInMapping. destruct (negb (str_truthy mapping) || str_eqb (trim mapping) []); [done|]. destruct (parse_mapping mapping) as [o|]; [|done]. cbv zeta.
  set (missing := set_of_list (filter _ (map normalizeModelName (own_keys o)))). intros Ht.
  rewrite filter_none; [done|]. apply Forall_forall. intros k Hk [Hne Hnot].
  rewrite elem_of_set_of_list, map_app, elem_of_app in Hnot. apply Hnot.
  destruct (decide (k ∈ map normalizeModelName ms)) as [Hl|Hn]; [by left|]. right.
  assert (k ∈ missing) as Hm by (apply elem_of_set_of_list, list_elem_of_filter; rewrite elem_of_set_of_list; done).
  apply list_elem_of_fmap. exists k. split; [|done]. symmetry. by apply Ht.
Qed.

Lemma exposed_removed mapping ms :
  findExposedTargetModels mapping (filter (λ m, trim m ∉ findExposedTargetModels mapping ms) ms) = [].
Proof.
  unfold findExposedTargetModels at 1. cbv zeta. case_bool; [done|]. apply filter_none, Forall_forall.
  unfold normalizeModelName. intros m Hm Hin. rewrite elem_of_set_of_list in Hin.
  apply list_elem_of_fmap in Hin as (q & Hq & Hin). apply list_elem_of_filter in Hin as [Hnot Hin]. apply Hnot.
  unfold findExposedTargetModels. rewrite Heqb. cbv zeta. unfold normalizeModelName.
  assert (trim m = m) as Hmt.
  { revert Hm. unfold extractRedirectModels. case_bool; [by rewrite elem_of_nil|]. case_match; [|by rewrite elem_of_nil].
    rewrite elem_of_set_of_list, list_elem_of_omap. intros (v & _ & Hv). destruct v; try done. simpl in Hv.
    case_bool; [|done]. injection Hv as <-. apply trim_idemp. }
  apply list_elem_of_filter. rewrite elem_of_set_of_list. rewrite <- Hq, Hmt. split; [|done].
  apply list_elem_of_fmap. exists q. by rewrite <- Hq, Hmt.
Qed.

(** The repairs the form offers for a model mapping are complete: after
    adding the models found missing none is missing (and what is added is
    trimmed, not empty, without repetition and was not listed), and after
    removing the exposed targets none is exposed. *)
Theorem mapping_repairs_complete (mapping : jstr) (ms : list jstr) :
  let missing := findMissingModelsInMapping mapping ms in
  let exposed := findExposedTargetModels mapping ms in
  findMissingModelsInMapping mapping (ms ++ missing) = [] ∧
  NoDup missing ∧ Forall (λ m, m ≠ [] ∧ trim m = m ∧ m ∉ map trim ms) missing ∧
  findExposedTargetModels mapping (filter (λ m, trim m ∉ exposed) ms) = [].
Proof.
  cbv zeta. split_and!; [apply missing_added| |apply Forall_forall, missing_spec|apply exposed_removed].
  unfold findMissingModelsInMapping. case_bool; [constructor|]. case_match; [|constructor]. apply NoDup_set_of_list.
Qed.

(** ** Upstream changes *)

(** A detected list that is not an array makes the reader throw. *)
Theorem upstream_meta_throws :
  parseUpstreamUpdateMeta (JStr (quoted "{'upstream_model_update_last_detected_models':'gpt-4o'}")) = Throw.
Proof. vm_compute. reflexivity. Qed.
