(* ===== verification/ParamOverride.v ===== *)
(** * Parameter override editor: data, readers and printers
    (features/channels/components/dialogs/param-override-editor-dialog.tsx)

    A channel may rewrite requests by a list of operations, stored as JSON.
    This file models the part of the editor that is pure: the tables of
    operation modes, the readers from JSON values, the drafts of structured
    values, validation, and the printer.  The state machine of the dialog is in
    ParamEditor.v.

    [nextLocalId] uses the clock and a counter: [clock n] is what [Date.now()]
    returned at the n-th call, and the counter is passed through the functions
    that draw identifiers ([gen]), which may also throw (reading a property of
    null).  [t] is the translation function of the page; the lines it is given
    are numbered from 1. *)

From S2P Require Import Prelude JsNumber JsString JsValue.

Open Scope nat_scope.

(** ** Data *)

Record ParamOverrideCondition := {
  c_id : jstr;
  c_path : jstr;
  c_mode : jstr;
  c_value_text : jstr;
  c_invert : bool;
  c_pass_missing_key : bool
}.

Record ParamOverrideOperation := {
  o_id : jstr;
  o_description : jstr;
  o_path : jstr;
  o_mode : jstr;
  o_from : jstr;
  o_to : jstr;
  o_value_text : jstr;
  o_keep_origin : bool;
  o_logic : jstr;
  o_conditions : list ParamOverrideCondition
}.

(** ** Tables *)

(** Pairs (label, value). *)
Definition OPERATION_MODE_OPTIONS : list (jstr * jstr) :=
  [(js "Set Field", js "set"); (js "Delete Field", js "delete"); (js "Append to End", js "append");
   (js "Prepend to Start", js "prepend"); (js "Copy Field", js "copy"); (js "Move Field", js "move");
   (js "String Replace", js "replace"); (js "Regex Replace", js "regex_replace");
   (js "Trim Prefix", js "trim_prefix"); (js "Trim Suffix", js "trim_suffix");
   (js "Ensure Prefix", js "ensure_prefix"); (js "Ensure Suffix", js "ensure_suffix");
   (js "Trim Space", js "trim_space"); (js "To Lowercase", js "to_lower"); (js "To Uppercase", js "to_upper");
   (js "Return Custom Error", js "return_error"); (js "Prune Object Items", js "prune_objects");
   (js "Pass Through Headers", js "pass_headers"); (js "Sync Fields", js "sync_fields");
   (js "Set Request Header", js "set_header"); (js "Delete Request Header", js "delete_header");
   (js "Copy Request Header", js "copy_header"); (js "Move Request Header", js "move_header")].

Definition OPERATION_MODE_VALUES : list jstr := map snd OPERATION_MODE_OPTIONS.

Definition OPERATION_MODE_LABEL_MAP : obj jstr :=
  fold_left (λ acc item, obj_set item.2 item.1 acc) OPERATION_MODE_OPTIONS [].

Definition CONDITION_MODE_OPTIONS : list (jstr * jstr) :=
  [(js "Exact Match", js "full"); (js "Prefix", js "prefix"); (js "Suffix", js "suffix");
   (js "Contains", js "contains"); (js "Greater Than", js "gt"); (js "Greater Than or Equal", js "gte");
   (js "Less Than", js "lt"); (js "Less Than or Equal", js "lte")].

Definition CONDITION_MODE_VALUES : list jstr := map snd CONDITION_MODE_OPTIONS.

(** The properties of a mode that are true. *)
Inductive MetaFlag := Mpath | MpathOptional | Mvalue | Mfrom | Mto | MkeepOrigin | MpathAlias.

#[export] Instance MetaFlag_eq_dec : EqDecision MetaFlag.
Proof. solve_decision. Defined.

Definition Meta := list MetaFlag.
Definition meta (l : list MetaFlag) : Meta := l.
Definition has (m : Meta) (f : MetaFlag) : bool := bool_decide (f ∈ m).

Definition MODE_META : list (jstr * Meta) :=
  [(js "delete", meta [Mpath]); (js "set", meta [Mpath; Mvalue; MkeepOrigin]);
   (js "append", meta [Mpath; Mvalue; MkeepOrigin]); (js "prepend", meta [Mpath; Mvalue; MkeepOrigin]);
   (js "copy", meta [Mfrom; Mto]); (js "move", meta [Mfrom; Mto]); (js "replace", meta [Mpath; Mfrom]);
   (js "regex_replace", meta [Mpath; Mfrom]); (js "trim_prefix", meta [Mpath; Mvalue]);
   (js "trim_suffix", meta [Mpath; Mvalue]); (js "ensure_prefix", meta [Mpath; Mvalue]);
   (js "ensure_suffix", meta [Mpath; Mvalue]); (js "trim_space", meta [Mpath]); (js "to_lower", meta [Mpath]);
   (js "to_upper", meta [Mpath]); (js "return_error", meta [Mvalue]);
   (js "prune_objects", meta [MpathOptional; Mvalue]); (js "pass_headers", meta [Mvalue; MkeepOrigin]);
   (js "sync_fields", meta [Mfrom; Mto]); (js "set_header", meta [Mpath; Mvalue; MkeepOrigin]);
   (js "delete_header", meta [Mpath]); (js "copy_header", meta [Mfrom; Mto; MkeepOrigin; MpathAlias]);
   (js "move_header", meta [Mfrom; Mto; MkeepOrigin; MpathAlias])].

Definition VALUE_REQUIRED_MODES : list jstr :=
  [js "trim_prefix"; js "trim_suffix"; js "ensure_prefix"; js "ensure_suffix"; js "set_header"; js "return_error";
   js "prune_objects"; js "pass_headers"].
Definition FROM_REQUIRED_MODES : list jstr :=
  [js "copy"; js "move"; js "replace"; js "regex_replace"; js "copy_header"; js "move_header"; js "sync_fields"].
Definition TO_REQUIRED_MODES : list jstr :=
  [js "copy"; js "move"; js "copy_header"; js "move_header"; js "sync_fields"].

Definition MODE_DESCRIPTIONS : obj jstr :=
  [(js "set", js "Write value to the target field"); (js "delete", js "Remove the target field");
   (js "append", js "Append value to array / string / object end");
   (js "prepend", js "Prepend value to array / string / object start");
   (js "copy", js "Copy source field to target field"); (js "move", js "Move source field to target field");
   (js "replace", js "Do string replacement in the target field");
   (js "regex_replace", js "Do regex replacement in the target field");
   (js "trim_prefix", js "Remove string prefix"); (js "trim_suffix", js "Remove string suffix");
   (js "ensure_prefix", js "Ensure the string has a specified prefix");
   (js "ensure_suffix", js "Ensure the string has a specified suffix");
   (js "trim_space", js "Trim leading/trailing whitespace"); (js "to_lower", js "Convert string to lowercase");
   (js "to_upper", js "Convert string to uppercase");
   (js "return_error", js "Return a custom error immediately");
   (js "prune_objects", js "Prune object items by conditions");
   (js "pass_headers", js "Pass specified request headers to upstream");
   (js "sync_fields", js "Auto-fill when one field exists and another is missing");
   (js "set_header", js "Set runtime request header: override entire value, or manipulate comma-separated tokens");
   (js "delete_header", js "Delete a runtime request header"); (js "copy_header", js "Copy a request header");
   (js "move_header", js "Move a request header")].

Definition SYNC_TARGET_TYPE_OPTIONS : list (jstr * jstr) :=
  [(js "Request Body Field", js "json"); (js "Request Header Field", js "header")].

(** [MODE_META[mode] || MODE_META.set] *)
Definition metaOf (mode : jstr) : Meta :=
  match obj_get mode MODE_META with Some m => m | None => default [] (obj_get (js "set") MODE_META) end.

(** ** Templates *)

Definition text (s : string) : jsval := JStr (js_of_string s).
Definition entry (k : string) (v : jsval) : jstr * jsval := (js_of_string k, v).

Definition LEGACY_TEMPLATE : obj jsval := [entry "temperature" (JNum (of_Z 0)); entry "max_tokens" (JNum (of_Z 1000))].

Definition condition_entry (path mode value : string) : jsval :=
  JObj [entry "path" (text path); entry "mode" (text mode); entry "value" (text value)].

Definition OPERATION_TEMPLATE : obj jsval :=
  [entry "operations" (JArr [JObj
    [entry "description" (text "Set default temperature for openai/* models.");
     entry "path" (text "temperature"); entry "mode" (text "set"); entry "value" (JNum (string_to_number (js "0.7")));
     entry "conditions" (JArr [condition_entry "model" "prefix" "openai/"]); entry "logic" (text "AND")]])].

Definition HEADER_PASSTHROUGH_TEMPLATE : obj jsval :=
  [entry "operations" (JArr [JObj
    [entry "description" (text "Pass through X-Request-Id header to upstream.");
     entry "mode" (text "pass_headers"); entry "value" (JArr [text "X-Request-Id"]); entry "keep_origin" (JBool true)]])].

Definition GEMINI_IMAGE_4K_TEMPLATE : obj jsval :=
  [entry "operations" (JArr [JObj
    [entry "description" (text "Set imageSize to 4K when model contains gemini/image and ends with 4k.");
     entry "mode" (text "set"); entry "path" (text "generationConfig.imageConfig.imageSize"); entry "value" (text "4K");
     entry "conditions" (JArr [condition_entry "original_model" "contains" "gemini";
       condition_entry "original_model" "contains" "image"; condition_entry "original_model" "suffix" "4k"]);
     entry "logic" (text "AND")]])].

Definition CODEX_CLI_HEADER_PASSTHROUGH_HEADERS : list jsval :=
  map text ["Originator"; "Session_id"; "User-Agent"; "X-Codex-Beta-Features"; "X-Codex-Turn-Metadata"]%string.

Definition CLAUDE_CLI_HEADER_PASSTHROUGH_HEADERS : list jsval :=
  map text ["X-Stainless-Arch"; "X-Stainless-Lang"; "X-Stainless-Os"; "X-Stainless-Package-Version";
    "X-Stainless-Retry-Count"; "X-Stainless-Runtime"; "X-Stainless-Runtime-Version"; "X-Stainless-Timeout"; "User-Agent";
    "X-App"; "Anthropic-Beta"; "Anthropic-Dangerous-Direct-Browser-Access"; "Anthropic-Version"]%string.

Definition buildPassHeadersTemplate (headers : list jsval) : obj jsval :=
  [entry "operations" (JArr [JObj
    [entry "mode" (text "pass_headers"); entry "value" (JArr headers); entry "keep_origin" (JBool true)]])].

Definition CODEX_CLI_HEADER_PASSTHROUGH_TEMPLATE := buildPassHeadersTemplate CODEX_CLI_HEADER_PASSTHROUGH_HEADERS.
Definition CLAUDE_CLI_HEADER_PASSTHROUGH_TEMPLATE := buildPassHeadersTemplate CLAUDE_CLI_HEADER_PASSTHROUGH_HEADERS.

Definition BEDROCK_TOKENS : obj jsval :=
  [(js "advanced-tool-use-2025-11-20", JStr (js "tool-search-tool-2025-10-19")); (js "bash_20241022", JNull);
   (js "bash_20250124", JNull); (js "code-execution-2025-08-25", JNull);
   (js "compact-2026-01-12", JStr (js "compact-2026-01-12"));
   (js "computer-use-2025-01-24", JStr (js "computer-use-2025-01-24"));
   (js "computer-use-2025-11-24", JStr (js "computer-use-2025-11-24"));
   (js "context-1m-2025-08-07", JStr (js "context-1m-2025-08-07"));
   (js "context-management-2025-06-27", JStr (js "context-management-2025-06-27"));
   (js "effort-2025-11-24", JNull); (js "fast-mode-2026-02-01", JNull); (js "files-api-2025-04-14", JNull);
   (js "fine-grained-tool-streaming-2025-05-14", JNull);
   (js "interleaved-thinking-2025-05-14", JStr (js "interleaved-thinking-2025-05-14"));
   (js "mcp-client-2025-11-20", JNull); (js "mcp-client-2025-04-04", JNull);
   (js "mcp-servers-2025-12-04", JNull); (js "output-128k-2025-02-19", JNull);
   (js "structured-output-2024-03-01", JNull); (js "prompt-caching-scope-2026-01-05", JNull);
   (js "skills-2025-10-02", JNull); (js "structured-outputs-2025-11-13", JNull);
   (js "text_editor_20241022", JNull); (js "text_editor_20250124", JNull);
   (js "token-efficient-tools-2025-02-19", JNull);
   (js "tool-search-tool-2025-10-19", JStr (js "tool-search-tool-2025-10-19"));
   (js "web-fetch-2025-09-10", JNull); (js "web-search-2025-03-05", JNull); (js "oauth-2025-04-20", JNull)].

Definition AWS_BEDROCK_ANTHROPIC_COMPAT_TEMPLATE : obj jsval :=
  [entry "operations" (JArr
    [JObj [entry "description" (text "Normalize anthropic-beta header tokens for Bedrock compatibility.");
           entry "mode" (text "set_header"); entry "path" (text "anthropic-beta"); entry "value" (JObj BEDROCK_TOKENS)];
     JObj [entry "description" (text "Remove all tools[*].custom.input_examples before upstream relay.");
           entry "mode" (text "delete"); entry "path" (text "tools.*.custom.input_examples")]])].

Inductive PresetKind := OperationsPreset | LegacyPreset.

Record TemplatePresetConfig := { presetLabel : jstr; presetKind : PresetKind; presetPayload : obj jsval }.

Definition preset (label : string) (kind : PresetKind) (payload : obj jsval) : TemplatePresetConfig :=
  {| presetLabel := js_of_string label; presetKind := kind; presetPayload := payload |}.

Definition TEMPLATE_PRESET_CONFIG : obj TemplatePresetConfig :=
  [(js "operations_default", preset "New Format Template" OperationsPreset OPERATION_TEMPLATE);
   (js "legacy_default", preset "Legacy Format Template" LegacyPreset LEGACY_TEMPLATE);
   (js "pass_headers_auth", preset "Header Passthrough (X-Request-Id)" OperationsPreset HEADER_PASSTHROUGH_TEMPLATE);
   (js "gemini_image_4k", preset "Gemini Image 4K" OperationsPreset GEMINI_IMAGE_4K_TEMPLATE);
   (js "claude_cli_headers_passthrough", preset "Claude CLI Header Passthrough" OperationsPreset CLAUDE_CLI_HEADER_PASSTHROUGH_TEMPLATE);
   (js "codex_cli_headers_passthrough", preset "Codex CLI Header Passthrough" OperationsPreset CODEX_CLI_HEADER_PASSTHROUGH_TEMPLATE);
   (js "aws_bedrock_anthropic_beta_override", preset "AWS Bedrock Claude Compat" OperationsPreset AWS_BEDROCK_ANTHROPIC_COMPAT_TEMPLATE)].

(** ** Values as text *)

Definition toValueText (value : jsval) : jstr :=
  match value with
  | JUndef => []
  | JStr s => s
  | _ => json_stringify value
  end.

Definition parseLooseValue (valueText : jstr) : jsval :=
  let raw := trim valueText in
  if str_eqb raw [] then JStr [] else match json_parse raw with Some v => v | None => JStr raw end.

Definition verifyJSON (s : jstr) : bool := match json_parse s with Some _ => true | None => false end.

(** ** Identifiers *)

(** Code that draws identifiers: the counter is threaded, and it may throw. *)
Definition gen (A : Type) : Type := N → outcome (A * N).

#[export] Instance gen_ret : MRet gen := λ A x seed, Ret (x, seed).
#[export] Instance gen_bind : MBind gen := λ A B f m seed,
  match m seed with Ret (x, seed) => f x seed | Throw => Throw end.

Definition gen_throw {A} : gen A := λ _, Throw.

Section Editor.
Context (clock : N → num).
Context (t : jstr → option nat → jstr).

Definition localId (seed : N) : jstr := js "po_" ++ num_to_string (clock seed) ++ js "_" ++ digits seed.

Definition nextLocalId : gen jstr := λ seed, Ret (localId seed, (seed + 1)%N).

(** ** Readers *)

Definition string_prop (k : string) (v : jsval) : jstr := match prop k v with JStr s => s | _ => [] end.

(** A listed mode, or the default. *)
Definition mode_prop (modes : list jstr) (d : jstr) (v : jsval) : jstr :=
  match prop "mode" v with JStr s => if bool_decide (s ∈ modes) then s else d | _ => d end.

Definition true_prop (k : string) (v : jsval) : bool := strict_eq (prop k v) (JBool true).

Definition normalizeCondition (condition : jsval) : gen ParamOverrideCondition :=
  i ← nextLocalId;
  if is_nullish condition then gen_throw
  else mret {| c_id := i;
               c_path := string_prop "path" condition;
               c_mode := mode_prop CONDITION_MODE_VALUES (js "full") condition;
               c_value_text := toValueText (prop "value" condition);
               c_invert := true_prop "invert" condition;
               c_pass_missing_key := true_prop "pass_missing_key" condition |}.

Definition createDefaultCondition : gen ParamOverrideCondition := normalizeCondition (JObj []).

Definition normalizeLogic (v : jsval) : jstr :=
  if str_eqb (toUpperCase (to_string (js_or (prop "logic" v) (text "OR")))) (js "AND") then js "AND" else js "OR".

Definition normalizeOperation (operation : jsval) : gen ParamOverrideOperation :=
  i ← nextLocalId;
  if is_nullish operation then gen_throw
  else
    conditions ← match prop "conditions" operation with JArr l => mapM normalizeCondition l | _ => mret [] end;
    mret {| o_id := i;
            o_description := string_prop "description" operation;
            o_path := string_prop "path" operation;
            o_mode := mode_prop OPERATION_MODE_VALUES (js "set") operation;
            o_value_text := toValueText (prop "value" operation);
            o_keep_origin := true_prop "keep_origin" operation;
            o_from := string_prop "from" operation;
            o_to := string_prop "to" operation;
            o_logic := normalizeLogic operation;
            o_conditions := conditions |}.

Definition createDefaultOperation : gen ParamOverrideOperation := normalizeOperation (JObj [entry "mode" (text "set")]).

(** ** Lists of operations *)

Inductive DropPosition := Before | After.

Fixpoint find_index {A} (f : A → bool) (l : list A) : option nat :=
  match l with
  | [] => None
  | x :: l => if f x then Some 0 else S <$> find_index f l
  end.

Definition has_id (i : jstr) (o : ParamOverrideOperation) : bool := str_eqb (o_id o) i.

Definition reorderOperations (ops : list ParamOverrideOperation) (sourceId targetId : jstr) (position : DropPosition)
    : list ParamOverrideOperation :=
  if negb (str_truthy sourceId) || negb (str_truthy targetId) || str_eqb sourceId targetId then ops
  else match find_index (has_id sourceId) ops with
       | None => ops
       | Some srcIdx =>
           let next := take srcIdx ops ++ drop (S srcIdx) ops in
           match ops !! srcIdx, find_index (has_id targetId) next with
           | Some moved, Some insertIdx =>
               let insertIdx := match position with After => S insertIdx | Before => insertIdx end in
               take insertIdx next ++ moved :: drop insertIdx next
           | _, _ => ops
           end
       end.

Definition conditionTouched (c : ParamOverrideCondition) : bool :=
  str_truthy (trim (c_path c)) || str_truthy (trim (c_value_text c)) || negb (str_eqb (c_mode c) (js "full"))
  || c_invert c || c_pass_missing_key c.

Definition isOperationBlank (o : ParamOverrideOperation) : bool :=
  let hasCondition := existsb conditionTouched (o_conditions o) in
  str_eqb (o_mode o) (js "set") && negb (str_truthy (trim (o_path o))) && negb (str_truthy (trim (o_from o)))
  && negb (str_truthy (trim (o_to o))) && str_eqb (trim (o_value_text o)) [] && negb (o_keep_origin o)
  && negb hasCondition.

Definition getOperationSummary (o : ParamOverrideOperation) (index : nat) : jstr :=
  let mode := str_or (o_mode o) (js "set") in
  let modeLabel := str_or (default [] (obj_get mode OPERATION_MODE_LABEL_MAP)) mode in
  let from := trim (o_from o) in
  let to := trim (o_to o) in
  let subject :=
    if str_eqb mode (js "sync_fields") then str_or from (str_or to (js "-"))
    else str_or (trim (o_path o)) (str_or from (str_or to (js "-"))) in
  num_to_string (of_Z (Z.of_nat (index + 1))) ++ js ". " ++ modeLabel ++ js " · " ++ subject.

(** ** Labels and hints of a mode *)

Definition is_one (mode : jstr) (l : list string) : bool := existsb (λ s, str_eqb mode (js_of_string s)) l.

Definition getModeTagTailwind (mode : jstr) : jstr :=
  if includes mode (js "header") then js "bg-cyan-500/15 text-cyan-700 dark:text-cyan-300 border-cyan-500/20"
  else if includes mode (js "replace") || includes mode (js "trim") then js "bg-violet-500/15 text-violet-700 dark:text-violet-300 border-violet-500/20"
  else if includes mode (js "copy") || includes mode (js "move") then js "bg-blue-500/15 text-blue-700 dark:text-blue-300 border-blue-500/20"
  else if includes mode (js "error") || includes mode (js "prune") then js "bg-red-500/15 text-red-700 dark:text-red-300 border-red-500/20"
  else if includes mode (js "sync") then js "bg-green-500/15 text-green-700 dark:text-green-300 border-green-500/20"
  else js "bg-muted text-muted-foreground".

Definition getModePathLabel (mode : jstr) : jstr :=
  if is_one mode ["set_header"; "delete_header"] then js "Header Name"
  else if is_one mode ["prune_objects"] then js "Target Path (optional)"
  else js "Target Field Path".

Definition getModePathPlaceholder (mode : jstr) : jstr :=
  if is_one mode ["set_header"] then js "Authorization"
  else if is_one mode ["delete_header"] then js "X-Debug-Mode"
  else if is_one mode ["prune_objects"] then js "messages"
  else js "temperature".

Definition getModeFromLabel (mode : jstr) : jstr :=
  if is_one mode ["replace"] then js "Match Text"
  else if is_one mode ["regex_replace"] then js "Regex Pattern"
  else if is_one mode ["copy_header"; "move_header"] then js "Source Header"
  else js "Source Field".

Definition getModeFromPlaceholder (mode : jstr) : jstr :=
  if is_one mode ["replace"] then js "openai/"
  else if is_one mode ["regex_replace"] then js "^gpt-"
  else if is_one mode ["copy_header"; "move_header"] then js "Authorization"
  else js "model".

Definition getModeToLabel (mode : jstr) : jstr :=
  if is_one mode ["replace"; "regex_replace"] then js "Replace With"
  else if is_one mode ["copy_header"; "move_header"] then js "Target Header"
  else js "Target Field".

Definition getModeToPlaceholder (mode : jstr) : jstr :=
  if is_one mode ["replace"] then js "(leave empty to delete)"
  else if is_one mode ["regex_replace"] then js "openai/gpt-"
  else if is_one mode ["copy_header"; "move_header"] then js "X-Upstream-Auth"
  else js "original_model".

Definition AFFIX_MODES : list string := ["trim_prefix"; "trim_suffix"; "ensure_prefix"; "ensure_suffix"]%string.

Definition getModeValueLabel (mode : jstr) : jstr :=
  if is_one mode ["set_header"] then js "Header Value (supports string or JSON mapping)"
  else if is_one mode ["pass_headers"] then js "Pass-through Headers (comma-separated or JSON array)"
  else if is_one mode AFFIX_MODES then js "Prefix/Suffix Text"
  else if is_one mode ["prune_objects"] then js "Prune Rule (string or JSON object)"
  else js "Value (supports JSON or plain text)".

Definition getModeValuePlaceholder (mode : jstr) : jstr :=
  if is_one mode ["set_header"] then js "Bearer sk-xxx"
  else if is_one mode ["pass_headers"] then js "Authorization, X-Request-Id"
  else if is_one mode AFFIX_MODES then js "openai/"
  else if is_one mode ["prune_objects"] then quoted "{'type':'redacted_thinking'}"
  else js "0.7".

(** ** Endpoints of [sync_fields] *)

Definition parseSyncTargetSpec (spec : jstr) : jstr * jstr :=
  let raw := trim spec in
  if negb (str_truthy raw) then (js "json", [])
  else match index_of raw (js ":") with
       | None => (js "json", raw)
       | Some idx =>
           let prefix := toLowerCase (trim (slice raw 0 (Z.of_nat idx))) in
           let key := trim (slice_from raw (Z.of_nat (idx + 1))) in
           (if str_eqb prefix (js "header") then js "header" else js "json", key)
       end.

Definition buildSyncTargetSpec (type key : jstr) : jstr :=
  let normalizedType := if str_eqb type (js "header") then js "header" else js "json" in
  let normalizedKey := trim key in
  if negb (str_truthy normalizedKey) then [] else normalizedType ++ js ":" ++ normalizedKey.

(** ** The value of [return_error] *)

Record ReturnErrorDraft := {
  re_message : jstr;
  re_statusCode : num;
  re_code : jstr;
  re_type : jstr;
  re_skipRetry : bool;
  re_simpleMode : bool
}.

Definition returnErrorDefaults : ReturnErrorDraft :=
  {| re_message := []; re_statusCode := of_Z 400; re_code := []; re_type := []; re_skipRetry := true; re_simpleMode := true |}.

Definition validStatus (x : num) : num :=
  if isInteger x && n_ge x (of_Z 100) && n_le x (of_Z 599) then x else of_Z 400.

(** [String(v || '').trim()] *)
Definition textOr (v : jsval) : jstr := trim (to_string (js_or v (JStr []))).

Definition parseReturnErrorDraft (valueText : jstr) : ReturnErrorDraft :=
  let raw := trim valueText in
  if negb (str_truthy raw) then returnErrorDefaults
  else match json_parse raw with
       | Some ((JObj _) as parsed) =>
           let statusRaw := match prop "status_code" parsed with JUndef => prop "status" parsed | v => v end in
           {| re_message := textOr (js_or (prop "message" parsed) (prop "msg" parsed));
              re_statusCode := validStatus (to_number statusRaw);
              re_code := textOr (prop "code" parsed);
              re_type := textOr (prop "type" parsed);
              re_skipRetry := negb (strict_eq (prop "skip_retry" parsed) (JBool false));
              re_simpleMode := false |}
       | _ => {| re_message := raw; re_statusCode := of_Z 400; re_code := []; re_type := []; re_skipRetry := true;
                 re_simpleMode := true |}
       end.

(** Assignment of a property when a condition holds. *)
Definition set_if (b : bool) (k : string) (v : jsval) (o : obj jsval) : obj jsval :=
  if b then obj_set (js_of_string k) v o else o.

Definition returnErrorPayload (draft : ReturnErrorDraft) : obj jsval :=
  let code := trim (re_code draft) in
  let type := trim (re_type draft) in
  set_if (negb (re_skipRetry draft)) "skip_retry" (JBool false)
    (set_if (str_truthy type) "type" (JStr type)
      (set_if (str_truthy code) "code" (JStr code)
        [entry "message" (JStr (trim (re_message draft))); entry "status_code" (JNum (validStatus (re_statusCode draft)))])).

Definition buildReturnErrorValueText (draft : ReturnErrorDraft) : jstr :=
  if re_simpleMode draft then trim (re_message draft) else json_stringify (JObj (returnErrorPayload draft)).

(** ** The value of [prune_objects] *)

(** A rule has the fields of a condition. *)
Definition PruneRule := ParamOverrideCondition.

Record PruneObjectsDraft := {
  pr_simpleMode : bool;
  pr_typeText : jstr;
  pr_logic : jstr;
  pr_recursive : bool;
  pr_rules : list PruneRule
}.

Definition normalizePruneRule (rule : jsval) : gen PruneRule := normalizeCondition rule.

Definition pruneDefaults (typeText : jstr) : PruneObjectsDraft :=
  {| pr_simpleMode := true; pr_typeText := typeText; pr_logic := js "AND"; pr_recursive := true; pr_rules := [] |}.

(** The rules of a mapping from paths to values. *)
Definition mappingRules (o : obj jsval) : gen (list PruneRule) :=
  mapM (λ pv, normalizePruneRule (JObj [entry "path" (JStr pv.1); entry "mode" (text "full"); entry "value" pv.2])) (own_entries o).

Definition is_object_like (v : jsval) : bool := match v with JArr _ | JObj _ => true | _ => false end.

Definition parsePruneObjectsDraft (valueText : jstr) : gen PruneObjectsDraft :=
  let raw := trim valueText in
  if negb (str_truthy raw) then mret (pruneDefaults [])
  else match json_parse raw with
       | None => mret (pruneDefaults raw)
       | Some (JStr s) => mret (pruneDefaults (trim s))
       | Some ((JObj _) as parsed) =>
           whereRules ← match prop "where" parsed with JObj o => mappingRules o | _ => mret [] end;
           conditionRules ← match prop "conditions" parsed with
                            | JArr l => mapM normalizePruneRule (filter (λ v, is_object_like v = true) l)
                            | JObj o => mappingRules o
                            | _ => mret []
                            end;
           let typeText := match prop "type" parsed with JUndef => [] | v => trim (to_string v) end in
           let logic := if str_eqb (toUpperCase (to_string (js_or (prop "logic" parsed) (text "AND")))) (js "OR") then js "OR" else js "AND" in
           let recursive := negb (strict_eq (prop "recursive" parsed) (JBool false)) in
           let is_set k := negb (strict_eq (prop k parsed) JUndef) in
           let hasAdvancedFields := is_set "logic"%string || is_set "recursive"%string || is_set "where"%string || is_set "conditions"%string in
           mret {| pr_simpleMode := negb hasAdvancedFields; pr_typeText := typeText; pr_logic := logic;
                   pr_recursive := recursive; pr_rules := whereRules ++ conditionRules |}
       | Some v => mret (pruneDefaults (trim (if is_nullish v then [] else to_string v)))
       end.

Definition pruneRulePayload (rule : PruneRule) : obj jsval :=
  let valueRaw := trim (c_value_text rule) in
  set_if (c_pass_missing_key rule) "pass_missing_key" (JBool true)
    (set_if (c_invert rule) "invert" (JBool true)
      (set_if (str_truthy valueRaw) "value" (parseLooseValue valueRaw)
        [entry "path" (JStr (trim (c_path rule)));
         entry "mode" (JStr (if bool_decide (c_mode rule ∈ CONDITION_MODE_VALUES) then c_mode rule else js "full"))])).

Definition buildPruneObjectsValueText (draft : PruneObjectsDraft) : jstr :=
  let typeText := trim (pr_typeText draft) in
  if pr_simpleMode draft then typeText
  else
    let rules := filter (λ r, trim (c_path r) ≠ []) (pr_rules draft) in
    let conditions := map (λ r, JObj (pruneRulePayload r)) rules in
    let payload :=
      set_if (bool_decide (conditions ≠ [])) "conditions" (JArr conditions)
        (set_if (negb (pr_recursive draft)) "recursive" (JBool false)
          (set_if (str_eqb (toUpperCase (str_or (pr_logic draft) (js "AND"))) (js "OR")) "logic" (text "OR")
            (set_if (str_truthy typeText) "type" (JStr typeText) []))) in
    if negb (str_truthy typeText) && bool_decide (conditions = [])
    then json_stringify (JObj [entry "logic" (text "AND")]) else json_stringify (JObj payload).

(** ** Header names of [pass_headers] *)

(** [String(v ?? '').trim()] *)
Definition textNullish (v : jsval) : jstr := trim (if is_nullish v then [] else to_string v).

Definition headerNames (l : list jsval) : list jstr := filter is_nonempty (map textNullish l).

Definition parsePassHeaderNames (rawValue : jsval) : list jstr :=
  match rawValue with
  | JArr l => headerNames l
  | JObj _ =>
      match prop "headers" rawValue with
      | JArr l => headerNames l
      | _ => match prop "header" rawValue with JUndef => [] | v => headerNames [v] end
      end
  | JStr s => filter is_nonempty (map trim (split s (js ",")))
  | _ => []
  end.

(** ** Conditions, validation and printing *)

Definition buildConditionPayload (condition : ParamOverrideCondition) : option (obj jsval) :=
  let path := trim (c_path condition) in
  if negb (str_truthy path) then None
  else Some (set_if (c_pass_missing_key condition) "pass_missing_key" (JBool true)
    (set_if (c_invert condition) "invert" (JBool true)
      [entry "path" (JStr path); entry "mode" (JStr (str_or (c_mode condition) (js "full")));
       entry "value" (parseLooseValue (c_value_text condition))])).

(** The message key of the first problem of an operation. *)
Definition operationProblem (op : ParamOverrideOperation) : option jstr :=
  let mode := str_or (o_mode op) (js "set") in
  let meta := metaOf mode in
  let pathValue := trim (o_path op) in
  let aliased := has meta MpathAlias && str_truthy pathValue in
  let raw := trim (o_value_text op) in
  if has meta Mpath && negb (str_truthy pathValue) then Some (js "Rule {{line}} is missing target path")
  else if bool_decide (mode ∈ FROM_REQUIRED_MODES) && negb (str_truthy (trim (o_from op))) && negb aliased
  then Some (js "Rule {{line}} is missing source field")
  else if bool_decide (mode ∈ TO_REQUIRED_MODES) && negb (str_truthy (trim (o_to op))) && negb aliased
  then Some (js "Rule {{line}} is missing target field")
  else if bool_decide (mode ∈ VALUE_REQUIRED_MODES) && str_eqb raw [] then Some (js "Rule {{line}} is missing value")
  else if str_eqb mode (js "return_error") &&
          match json_parse raw with Some ((JObj _) as parsed) => negb (str_truthy (textOr (prop "message" parsed))) | _ => false end
  then Some (js "Rule {{line}} return_error requires a message field")
  else if str_eqb mode (js "pass_headers") && bool_decide (parsePassHeaderNames (parseLooseValue raw) = [])
  then Some (js "Rule {{line}} pass_headers format is invalid")
  else None.

(** The loop, from line [i + 1]. *)
Fixpoint validateFrom (i : nat) (operations : list ParamOverrideOperation) : jstr :=
  match operations with
  | [] => []
  | op :: operations =>
      match operationProblem op with
      | Some key => t key (Some (i + 1))
      | None => validateFrom (S i) operations
      end
  end.

Definition validateOperations (operations : list ParamOverrideOperation) : jstr := validateFrom 0 operations.

Definition operationPayload (operation : ParamOverrideOperation) : obj jsval :=
  let mode := str_or (o_mode operation) (js "set") in
  let meta := metaOf mode in
  let descriptionValue := trim (o_description operation) in
  let pathValue := trim (o_path operation) in
  let fromValue := trim (o_from operation) in
  let toValue := trim (o_to operation) in
  let payload := [entry "mode" (JStr mode)] in
  let payload := set_if (str_truthy descriptionValue) "description" (JStr descriptionValue) payload in
  let payload := set_if (has meta Mpath) "path" (JStr pathValue) payload in
  let payload := set_if (has meta MpathOptional && str_truthy pathValue) "path" (JStr pathValue) payload in
  let payload := set_if (has meta Mvalue) "value" (parseLooseValue (o_value_text operation)) payload in
  let payload := set_if (has meta MkeepOrigin && o_keep_origin operation) "keep_origin" (JBool true) payload in
  let payload := set_if (has meta Mfrom) "from" (JStr fromValue) payload in
  let payload := set_if (negb (has meta Mto) && str_truthy toValue) "to" (JStr toValue) payload in
  let payload := set_if (has meta Mto) "to" (JStr toValue) payload in
  let aliased k payload := has meta MpathAlias && negb (truthy (prop k (JObj payload))) && str_truthy pathValue in
  let payload := set_if (aliased "from"%string payload) "from" (JStr pathValue) payload in
  let payload := set_if (aliased "to"%string payload) "to" (JStr pathValue) payload in
  let conditions := map JObj (omap buildConditionPayload (o_conditions operation)) in
  let payload := set_if (bool_decide (conditions ≠ [])) "conditions" (JArr conditions) payload in
  set_if (bool_decide (conditions ≠ [])) "logic" (JStr (if str_eqb (o_logic operation) (js "AND") then js "AND" else js "OR")) payload.

(** The text, or the message of the error that is thrown. *)
Definition buildOperationsJson (sourceOperations : list ParamOverrideOperation) (validate : bool) : jstr + jstr :=
  let filteredOps := filter (λ o, isOperationBlank o = false) sourceOperations in
  match filteredOps with
  | [] => inr []
  | _ =>
      let message := if validate then validateOperations filteredOps else [] in
      if str_truthy message then inl message
      else inr (json_pretty (JObj [entry "operations" (JArr (map (λ o, JObj (operationPayload o)) filteredOps))]))
  end.

(** ** Opening the editor *)

Inductive EditMode := VisualEdit | JsonEdit.
Inductive VisualMode := OperationsMode | LegacyMode.

#[export] Instance EditMode_eq_dec : EqDecision EditMode.
Proof. solve_decision. Defined.
#[export] Instance VisualMode_eq_dec : EqDecision VisualMode.
Proof. solve_decision. Defined.

Record EditorState := {
  editMode : EditMode;
  visualMode : VisualMode;
  legacyValue : jstr;
  operations : list ParamOverrideOperation;
  jsonText : jstr;
  jsonError : jstr
}.

(** The operations of a JSON array, or a default one when there are none. *)
Definition readOperations (l : list jsval) : gen (list ParamOverrideOperation) :=
  match l with
  | [] => o ← createDefaultOperation; mret [o]
  | _ => mapM normalizeOperation l
  end.

Definition parseInitialState (text : jstr) : gen EditorState :=
  let trimmed := trim text in
  let start (e : EditMode) (v : VisualMode) (legacy json error : jstr) : gen EditorState :=
    o ← createDefaultOperation;
    mret {| editMode := e; visualMode := v; legacyValue := legacy; operations := [o]; jsonText := json; jsonError := error |} in
  if negb (str_truthy trimmed) then start VisualEdit OperationsMode [] [] []
  else match json_parse trimmed with
       | None => start JsonEdit OperationsMode [] text (js "Invalid JSON format")
       | Some parsed =>
           let pretty := json_pretty parsed in
           match parsed with
           | JObj _ =>
               match prop "operations" parsed with
               | JArr l =>
                   ops ← readOperations l;
                   mret {| editMode := VisualEdit; visualMode := OperationsMode; legacyValue := []; operations := ops;
                           jsonText := pretty; jsonError := [] |}
               | _ => start VisualEdit LegacyMode pretty pretty []
               end
           | _ => start JsonEdit OperationsMode [] pretty []
           end
       end.
End Editor.
