(* ===== verification/ParamEditor.v ===== *)
(** * Parameter override editor: the dialog
    (features/channels/components/dialogs/param-override-editor-dialog.tsx)

    The state of the dialog, one definition per handler, and the relation of
    the steps a user can take.  The state hooks of the component are the fields
    of [Editor]; a setter has the name of its hook.  After every step the
    effect that keeps the selection valid runs ([keepSelection]).

    Rendering evaluates [createDefaultOperation()] (the argument of [useState])
    and, when the selected operation changed, [parsePruneObjectsDraft]: it draws
    identifiers that are not kept, so a step may move the counter forward.
    React may run the updater of [duplicateOperation] at once or at the next
    render; in the second case its identifier is not yet known when the
    handler reads it ([eager]). *)

From S2P Require Import Prelude JsNumber JsString JsValue ParamOverride.

Open Scope nat_scope.

Notation "e |> f" := (f e) (at level 50, left associativity, only parsing).

(** ** State *)

Record Screen := {
  operationSearch : jstr;
  selectedOperationId : jstr;
  expandedConditions : obj bool;
  draggedOperationId : jstr;
  dragOverOperationId : jstr;
  dragOverPosition : DropPosition;
  templatePresetKey : jstr
}.

(** What the dialog shares with its surroundings: the counter of identifiers,
    the error messages shown, the calls of [onSave], whether it is open. *)
Record Surroundings := {
  localIdSeed : N;
  toasts : list jstr;
  saved : list jstr;
  isOpen : bool
}.

Record Editor := { core : EditorState; screen : Screen; around : Surroundings }.

(** ** Setters *)

Definition on_core (f : EditorState → EditorState) (e : Editor) : Editor :=
  {| core := f (core e); screen := screen e; around := around e |}.
Definition on_screen (f : Screen → Screen) (e : Editor) : Editor :=
  {| core := core e; screen := f (screen e); around := around e |}.
Definition on_around (f : Surroundings → Surroundings) (e : Editor) : Editor :=
  {| core := core e; screen := screen e; around := f (around e) |}.

Definition setEditMode (x : EditMode) : Editor → Editor := on_core (λ c,
  {| editMode := x; visualMode := visualMode c; legacyValue := legacyValue c; operations := operations c;
     jsonText := jsonText c; jsonError := jsonError c |}).
Definition setVisualMode (x : VisualMode) : Editor → Editor := on_core (λ c,
  {| editMode := editMode c; visualMode := x; legacyValue := legacyValue c; operations := operations c;
     jsonText := jsonText c; jsonError := jsonError c |}).
Definition setLegacyValue (x : jstr) : Editor → Editor := on_core (λ c,
  {| editMode := editMode c; visualMode := visualMode c; legacyValue := x; operations := operations c;
     jsonText := jsonText c; jsonError := jsonError c |}).
Definition setOperations (x : list ParamOverrideOperation) : Editor → Editor := on_core (λ c,
  {| editMode := editMode c; visualMode := visualMode c; legacyValue := legacyValue c; operations := x;
     jsonText := jsonText c; jsonError := jsonError c |}).
Definition setJsonText (x : jstr) : Editor → Editor := on_core (λ c,
  {| editMode := editMode c; visualMode := visualMode c; legacyValue := legacyValue c; operations := operations c;
     jsonText := x; jsonError := jsonError c |}).
Definition setJsonError (x : jstr) : Editor → Editor := on_core (λ c,
  {| editMode := editMode c; visualMode := visualMode c; legacyValue := legacyValue c; operations := operations c;
     jsonText := jsonText c; jsonError := x |}).

Definition setOperationSearch (x : jstr) : Editor → Editor := on_screen (λ s,
  {| operationSearch := x; selectedOperationId := selectedOperationId s; expandedConditions := expandedConditions s;
     draggedOperationId := draggedOperationId s; dragOverOperationId := dragOverOperationId s;
     dragOverPosition := dragOverPosition s; templatePresetKey := templatePresetKey s |}).
Definition setSelectedOperationId (x : jstr) : Editor → Editor := on_screen (λ s,
  {| operationSearch := operationSearch s; selectedOperationId := x; expandedConditions := expandedConditions s;
     draggedOperationId := draggedOperationId s; dragOverOperationId := dragOverOperationId s;
     dragOverPosition := dragOverPosition s; templatePresetKey := templatePresetKey s |}).
Definition setExpandedConditions (x : obj bool) : Editor → Editor := on_screen (λ s,
  {| operationSearch := operationSearch s; selectedOperationId := selectedOperationId s; expandedConditions := x;
     draggedOperationId := draggedOperationId s; dragOverOperationId := dragOverOperationId s;
     dragOverPosition := dragOverPosition s; templatePresetKey := templatePresetKey s |}).
Definition setDrag (dragged over : jstr) (position : DropPosition) : Editor → Editor := on_screen (λ s,
  {| operationSearch := operationSearch s; selectedOperationId := selectedOperationId s;
     expandedConditions := expandedConditions s; draggedOperationId := dragged; dragOverOperationId := over;
     dragOverPosition := position; templatePresetKey := templatePresetKey s |}).
Definition setTemplatePresetKey (x : jstr) : Editor → Editor := on_screen (λ s,
  {| operationSearch := operationSearch s; selectedOperationId := selectedOperationId s;
     expandedConditions := expandedConditions s; draggedOperationId := draggedOperationId s;
     dragOverOperationId := dragOverOperationId s; dragOverPosition := dragOverPosition s; templatePresetKey := x |}).

Definition setSeed (n : N) : Editor → Editor := on_around (λ a,
  {| localIdSeed := n; toasts := toasts a; saved := saved a; isOpen := isOpen a |}).
Definition toast_error (m : jstr) : Editor → Editor := on_around (λ a,
  {| localIdSeed := localIdSeed a; toasts := toasts a ++ [m]; saved := saved a; isOpen := isOpen a |}).
Definition onSave (x : jstr) : Editor → Editor := on_around (λ a,
  {| localIdSeed := localIdSeed a; toasts := toasts a; saved := saved a ++ [x]; isOpen := isOpen a |}).
Definition onOpenChange (b : bool) : Editor → Editor := on_around (λ a,
  {| localIdSeed := localIdSeed a; toasts := toasts a; saved := saved a; isOpen := b |}).

Definition ops (e : Editor) : list ParamOverrideOperation := operations (core e).
Definition seed (e : Editor) : N := localIdSeed (around e).

(** Code that draws identifiers, then a change of the state. *)
Definition drawing {A} (m : gen A) (k : A → Editor → Editor) (e : Editor) : outcome Editor :=
  match m (seed e) with
  | Ret (x, n) => Ret (k x (setSeed n e))
  | Throw => Throw
  end.

(** [id] of the first operation, or the empty string. *)
Definition first_id (l : list ParamOverrideOperation) : jstr := match l with o :: _ => o_id o | [] => [] end.

(** ** Patches: [{ ...x, ...patch }] *)

Inductive OperationField :=
  | Description (s : jstr) | Path (s : jstr) | Mode (s : jstr) | From (s : jstr) | To (s : jstr)
  | ValueText (s : jstr) | KeepOrigin (b : bool) | Logic (s : jstr) | Conditions (l : list ParamOverrideCondition).

Definition patch_operation (p : OperationField) (o : ParamOverrideOperation) : ParamOverrideOperation :=
  {| o_id := o_id o;
     o_description := match p with Description s => s | _ => o_description o end;
     o_path := match p with Path s => s | _ => o_path o end;
     o_mode := match p with Mode s => s | _ => o_mode o end;
     o_from := match p with From s => s | _ => o_from o end;
     o_to := match p with To s => s | _ => o_to o end;
     o_value_text := match p with ValueText s => s | _ => o_value_text o end;
     o_keep_origin := match p with KeepOrigin b => b | _ => o_keep_origin o end;
     o_logic := match p with Logic s => s | _ => o_logic o end;
     o_conditions := match p with Conditions l => l | _ => o_conditions o end |}.

Inductive ConditionField :=
  | CPath (s : jstr) | CMode (s : jstr) | CValueText (s : jstr) | CInvert (b : bool) | CPassMissingKey (b : bool).

Definition patch_condition (p : ConditionField) (c : ParamOverrideCondition) : ParamOverrideCondition :=
  {| c_id := c_id c;
     c_path := match p with CPath s => s | _ => c_path c end;
     c_mode := match p with CMode s => s | _ => c_mode c end;
     c_value_text := match p with CValueText s => s | _ => c_value_text c end;
     c_invert := match p with CInvert b => b | _ => c_invert c end;
     c_pass_missing_key := match p with CPassMissingKey b => b | _ => c_pass_missing_key c end |}.

Inductive ReturnErrorField :=
  | REMessage (s : jstr) | REStatusCode (x : num) | RECode (s : jstr) | REType (s : jstr)
  | RESkipRetry (b : bool) | RESimpleMode (b : bool).

Definition patch_return_error (p : ReturnErrorField) (d : ReturnErrorDraft) : ReturnErrorDraft :=
  {| re_message := match p with REMessage s => s | _ => re_message d end;
     re_statusCode := match p with REStatusCode x => x | _ => re_statusCode d end;
     re_code := match p with RECode s => s | _ => re_code d end;
     re_type := match p with REType s => s | _ => re_type d end;
     re_skipRetry := match p with RESkipRetry b => b | _ => re_skipRetry d end;
     re_simpleMode := match p with RESimpleMode b => b | _ => re_simpleMode d end |}.

Inductive PruneField :=
  | PRSimpleMode (b : bool) | PRTypeText (s : jstr) | PRLogic (s : jstr) | PRRecursive (b : bool)
  | PRRules (l : list PruneRule).

Definition patch_prune (p : PruneField) (d : PruneObjectsDraft) : PruneObjectsDraft :=
  {| pr_simpleMode := match p with PRSimpleMode b => b | _ => pr_simpleMode d end;
     pr_typeText := match p with PRTypeText s => s | _ => pr_typeText d end;
     pr_logic := match p with PRLogic s => s | _ => pr_logic d end;
     pr_recursive := match p with PRRecursive b => b | _ => pr_recursive d end;
     pr_rules := match p with PRRules l => l | _ => pr_rules d end |}.

(** A change of the operation with a given identifier. *)
Definition on_operation (i : jstr) (f : ParamOverrideOperation → ParamOverrideOperation) (o : ParamOverrideOperation)
    : ParamOverrideOperation := if has_id i o then f o else o.

Section Dialog.
Context (clock : N → num).
Context (t : jstr → option nat → jstr).

Local Abbreviation T s := (t (js_of_string s) None).
Local Abbreviation newOperation := (createDefaultOperation clock).
Local Abbreviation newCondition := (createDefaultCondition clock).
Local Abbreviation readOperation := (normalizeOperation clock).

(** ** Opening, and the selection *)

(** The effect of opening with a value: [parseInitialState], then the setters. *)
Definition openEffect (value : jstr) : Editor → outcome Editor :=
  drawing (parseInitialState clock value) (λ state e,
    {| core := state;
       screen := {| operationSearch := []; selectedOperationId := first_id (operations state); expandedConditions := [];
                    draggedOperationId := []; dragOverOperationId := []; dragOverPosition := Before;
                    templatePresetKey := if decide (visualMode state = LegacyMode) then js "legacy_default"
                                         else js "operations_default" |};
       around := around e |}).

Definition keepSelection (e : Editor) : Editor :=
  match ops e with
  | [] => e |> setSelectedOperationId []
  | o :: _ => if existsb (has_id (selectedOperationId (screen e))) (ops e) then e else e |> setSelectedOperationId (o_id o)
  end.

(** ** What is displayed *)

Definition operationCount (e : Editor) : nat := length (filter (λ o, isOperationBlank o = false) (ops e)).

Definition searchableText (op : ParamOverrideOperation) : jstr :=
  toLowerCase (join (js " ") (filter is_nonempty
    [o_description op; o_mode op; o_path op; o_from op; o_to op; o_value_text op])).

Definition filteredOperations (e : Editor) : list ParamOverrideOperation :=
  let keyword := toLowerCase (trim (operationSearch (screen e))) in
  if negb (str_truthy keyword) then ops e else filter (λ op, includes (searchableText op) keyword = true) (ops e).

Definition selectedOperation (e : Editor) : option ParamOverrideOperation :=
  List.find (has_id (selectedOperationId (screen e))) (ops e).

Definition selectedOperationIndex (e : Editor) : option nat :=
  find_index (has_id (selectedOperationId (screen e))) (ops e).

Definition returnErrorDraft (e : Editor) : option ReturnErrorDraft :=
  o ← selectedOperation e;
  if str_eqb (o_mode o) (js "return_error") then Some (parseReturnErrorDraft (o_value_text o)) else None.

Definition pruneObjectsDraft (e : Editor) : gen (option PruneObjectsDraft) :=
  match selectedOperation e with
  | Some o => if str_eqb (o_mode o) (js "prune_objects")
              then d ← parsePruneObjectsDraft clock (o_value_text o); mret (Some d) else mret None
  | None => mret None
  end.

Definition countModes (l : list ParamOverrideOperation) : obj nat :=
  fold_left (λ counts op, let mode := str_or (o_mode op) (js "set") in
    obj_set mode (default 0 (obj_get mode counts) + 1) counts) l [].

Definition topOperationModes (e : Editor) : list (jstr * nat) :=
  take 4 (sort_stable (λ a b, (b.2 <? a.2)) (own_entries (countModes (ops e)))).

(** ** Operations *)

Definition updateOperation (operationId : jstr) (patch : list OperationField) (e : Editor) : Editor :=
  e |> setOperations (map (on_operation operationId (λ o, fold_left (λ o p, patch_operation p o) patch o)) (ops e)).

Definition addOperation : Editor → outcome Editor :=
  drawing newOperation (λ created e, e |> setOperations (ops e ++ [created]) |> setSelectedOperationId (o_id created)).

(** The object given to [normalizeOperation] by [duplicateOperation]. *)
Definition conditionCopy (c : ParamOverrideCondition) : jsval :=
  JObj [entry "path" (JStr (c_path c)); entry "mode" (JStr (c_mode c)); entry "value" (parseLooseValue (c_value_text c));
        entry "invert" (JBool (c_invert c)); entry "pass_missing_key" (JBool (c_pass_missing_key c))].

Definition operationCopy (source : ParamOverrideOperation) : jsval :=
  JObj [entry "description" (JStr (o_description source)); entry "path" (JStr (o_path source));
        entry "mode" (JStr (o_mode source)); entry "value" (parseLooseValue (o_value_text source));
        entry "keep_origin" (JBool (o_keep_origin source)); entry "from" (JStr (o_from source)); entry "to" (JStr (o_to source));
        entry "logic" (JStr (o_logic source)); entry "conditions" (JArr (map conditionCopy (o_conditions source)))].

Definition duplicateOperation (eager : bool) (operationId : jstr) (e : Editor) : outcome Editor :=
  match find_index (has_id operationId) (ops e) with
  | None => Ret e
  | Some idx =>
      match ops e !! idx with
      | None => Ret e
      | Some source =>
          drawing (readOperation (operationCopy source)) (λ cloned e,
            let e := e |> setOperations (take (idx + 1) (ops e) ++ cloned :: drop (idx + 1) (ops e)) in
            if eager && str_truthy (o_id cloned) then e |> setSelectedOperationId (o_id cloned) else e) e
      end
  end.

Definition removeOperation (operationId : jstr) (e : Editor) : outcome Editor :=
  if length (ops e) <=? 1 then drawing newOperation (λ o, setOperations [o]) e
  else Ret (e |> setOperations (filter (λ o, has_id operationId o = false) (ops e))).

(** ** Conditions *)

Definition on_conditions (operationId : jstr) (f : list ParamOverrideCondition → list ParamOverrideCondition) (e : Editor) : Editor :=
  e |> setOperations (map (on_operation operationId (λ o, patch_operation (Conditions (f (o_conditions o))) o)) (ops e)).

Definition addCondition (operationId : jstr) : Editor → outcome Editor :=
  drawing newCondition (λ created e,
    e |> on_conditions operationId (λ l, l ++ [created])
      |> setExpandedConditions (obj_set (c_id created) true (expandedConditions (screen e)))).

Definition updateCondition (operationId conditionId : jstr) (patch : ConditionField) : Editor → Editor :=
  on_conditions operationId (map (λ c, if str_eqb (c_id c) conditionId then patch_condition patch c else c)).

Definition removeCondition (operationId conditionId : jstr) : Editor → Editor :=
  on_conditions operationId (filter (λ c, c_id c ≠ conditionId)).

Definition expandCondition (conditionId : jstr) (expanded : bool) (e : Editor) : Editor :=
  e |> setExpandedConditions (obj_set conditionId expanded (expandedConditions (screen e))).

(** [{ ...prev, ...map }] where [map] gives every condition of the selected operation one value. *)
Definition expandSelected (b : bool) (e : Editor) : Editor :=
  match selectedOperation e with
  | None => e
  | Some o =>
      let m := fold_left (λ m c, obj_set (c_id c) b m) (o_conditions o) [] in
      e |> setExpandedConditions (obj_assign (expandedConditions (screen e)) (own_entries m))
  end.

Definition expandAllConditions : Editor → Editor := expandSelected true.
Definition collapseAllConditions : Editor → Editor := expandSelected false.

(** ** Structured values *)

Definition updateReturnErrorDraft (operationId : jstr) (draftPatch : list ReturnErrorField) (e : Editor) : Editor :=
  e |> setOperations (map (on_operation operationId (λ op,
    let draft := parseReturnErrorDraft (o_value_text op) in
    let nextDraft := fold_left (λ d p, patch_return_error p d) draftPatch draft in
    patch_operation (ValueText (buildReturnErrorValueText nextDraft)) op)) (ops e)).

Definition updatePruneObjectsDraft (operationId : jstr) (updater : PruneObjectsDraft → gen PruneObjectsDraft)
    : Editor → outcome Editor := λ e,
  drawing (mapM (λ op,
    if has_id operationId op then
      draft ← parsePruneObjectsDraft clock (o_value_text op);
      nextDraft ← updater draft;
      mret (patch_operation (ValueText (buildPruneObjectsValueText nextDraft)) op)
    else mret op) (ops e)) setOperations e.

Definition patchPruneObjectsDraft (operationId : jstr) (p : PruneField) : Editor → outcome Editor :=
  updatePruneObjectsDraft operationId (λ d, mret (patch_prune p d)).

Definition addPruneRule (operationId : jstr) : Editor → outcome Editor :=
  updatePruneObjectsDraft operationId (λ draft,
    rule ← normalizePruneRule clock (JObj []);
    mret (patch_prune (PRSimpleMode false) (patch_prune (PRRules (pr_rules draft ++ [rule])) draft))).

Definition updatePruneRule (operationId ruleId : jstr) (patch : ConditionField) : Editor → outcome Editor :=
  updatePruneObjectsDraft operationId (λ draft,
    mret (patch_prune (PRRules (map (λ r, if str_eqb (c_id r) ruleId then patch_condition patch r else r) (pr_rules draft))) draft)).

Definition removePruneRule (operationId ruleId : jstr) : Editor → outcome Editor :=
  updatePruneObjectsDraft operationId (λ draft,
    mret (patch_prune (PRRules (filter (λ r, c_id r ≠ ruleId) (pr_rules draft))) draft)).

(** The [Format] button of the value field. *)
Definition formatValue (operationId value_text : jstr) (e : Editor) : Editor :=
  match json_parse value_text with
  | Some parsed => updateOperation operationId [ValueText (json_pretty parsed)] e
  | None => e
  end.

(** The endpoint fields of [sync_fields]: choosing a type, typing a key. *)
Definition chooseSyncType (field : jstr → OperationField) (operationId spec v : jstr) : Editor → Editor :=
  updateOperation operationId [field (buildSyncTargetSpec v (parseSyncTargetSpec spec).2)].

Definition typeSyncKey (field : jstr → OperationField) (operationId spec key : jstr) : Editor → Editor :=
  updateOperation operationId [field (buildSyncTargetSpec (parseSyncTargetSpec spec).1 key)].

(** ** Drag and drop *)

Definition resetDragState : Editor → Editor := setDrag [] [] Before.

Definition handleDragStart (operationId : jstr) (e : Editor) : Editor :=
  e |> setDrag operationId (dragOverOperationId (screen e)) (dragOverPosition (screen e)) |> setSelectedOperationId operationId.

Definition handleDragOver (operationId : jstr) (clientY top height : num) (e : Editor) : Editor :=
  let dragged := draggedOperationId (screen e) in
  if negb (str_truthy dragged) || str_eqb dragged operationId then e
  else e |> setDrag dragged operationId (if n_gt (n_sub clientY top) (n_div height (of_Z 2)) then After else Before).

(** [data] is the text the event carries. *)
Definition handleDrop (operationId data : jstr) (e : Editor) : Editor :=
  let sourceId := str_or (draggedOperationId (screen e)) data in
  let position := if str_eqb (dragOverOperationId (screen e)) operationId then dragOverPosition (screen e) else Before in
  let e := if str_truthy sourceId && str_truthy operationId && negb (str_eqb sourceId operationId)
           then e |> setOperations (reorderOperations (ops e) sourceId operationId position) |> setSelectedOperationId sourceId
           else e in
  e |> resetDragState.

(** ** Modes and templates *)

Definition buildLegacyJson (legacy : jstr) : jstr + jstr :=
  let trimmed := trim legacy in
  if negb (str_truthy trimmed) then inr []
  else match json_parse trimmed with
       | None => inl (T "Parameter override must be valid JSON format")
       | Some ((JObj _) as parsed) => inr (json_pretty parsed)
       | Some _ => inl (T "Legacy format must be a JSON object")
       end.

(** The text, or the message of the error that is thrown. *)
Definition buildVisualJson (e : Editor) : jstr + jstr :=
  match visualMode (core e) with
  | LegacyMode => buildLegacyJson (legacyValue (core e))
  | OperationsMode => buildOperationsJson t (ops e) true
  end.

Definition switchToJsonMode (e : Editor) : Editor :=
  match editMode (core e) with
  | JsonEdit => e
  | VisualEdit =>
      let e := match buildVisualJson e with
               | inr text => e |> setJsonText text |> setJsonError []
               | inl message =>
                   let e := e |> toast_error message in
                   let e := match visualMode (core e) with
                            | LegacyMode => e |> setJsonText (legacyValue (core e))
                            | OperationsMode =>
                                match buildOperationsJson t (ops e) false with
                                | inr text => e |> setJsonText text
                                | inl _ => e
                                end
                            end in
                   e |> setJsonError (str_or message (T "Parameter configuration error"))
               end in
      e |> setEditMode JsonEdit
  end.

(** The end of a successful switch to the visual editor. *)
Definition showVisual (mode : VisualMode) (legacy : jstr) (next : list ParamOverrideOperation) (e : Editor) : Editor :=
  e |> setVisualMode mode |> setOperations next |> setSelectedOperationId (first_id next) |> setLegacyValue legacy
    |> setJsonError [] |> setEditMode VisualEdit.

Definition switchToVisualMode (e : Editor) : outcome Editor :=
  match editMode (core e) with
  | VisualEdit => Ret e
  | JsonEdit =>
      let trimmed := trim (jsonText (core e)) in
      if negb (str_truthy trimmed) then drawing newOperation (λ o, showVisual OperationsMode [] [o]) e
      else match json_parse trimmed with
           | None => Ret (e |> toast_error (T "Parameter override must be valid JSON format"))
           | Some ((JObj _) as parsed) =>
               match prop "operations" parsed with
               | JArr l => drawing (readOperations clock l) (λ next e,
                   showVisual OperationsMode [] next e |> setTemplatePresetKey (js "operations_default")) e
               | _ => drawing newOperation (λ o e,
                   showVisual LegacyMode (json_pretty parsed) [o] e |> setTemplatePresetKey (js "legacy_default")) e
               end
           | Some _ => Ret (e |> toast_error (T "Parameter override must be a valid JSON object"))
           end
  end.

Inductive FillMode := Fill | Append.

(** The own enumerable properties a spread copies: those of an object, the
    elements of an array and the units of a string under their indices. *)
Definition spread (v : jsval) : obj jsval :=
  let indexed (l : list jsval) := imap (λ i x, (digits (N.of_nat i), x)) l in
  match v with
  | JObj o => own_entries o
  | JArr l => indexed l
  | JStr s => indexed (map (λ c, JStr [c]) s)
  | _ => []
  end.

Definition fillLegacy (text : jstr) : Editor → outcome Editor :=
  drawing newOperation (λ o e,
    e |> setVisualMode LegacyMode |> setLegacyValue text |> setOperations [o] |> setJsonText text |> setJsonError []
      |> setEditMode VisualEdit).

Definition selectedPreset (e : Editor) : TemplatePresetConfig :=
  match obj_get (templatePresetKey (screen e)) TEMPLATE_PRESET_CONFIG with
  | Some p => p
  | None => preset "New Format Template" OperationsPreset OPERATION_TEMPLATE
  end.

Definition fillTemplate (mode : FillMode) (e : Editor) : outcome Editor :=
  let payload := presetPayload (selectedPreset e) in
  match presetKind (selectedPreset e) with
  | LegacyPreset =>
      match mode, visualMode (core e) with
      | Append, LegacyMode =>
          let trimmed := trim (legacyValue (core e)) in
          let merge current := fillLegacy (json_pretty (JObj (obj_assign payload (spread current)))) e in
          if negb (str_truthy trimmed) then merge (JObj [])
          else match json_parse trimmed with
               | None => Ret (e |> toast_error (T "Current legacy JSON is invalid, cannot append"))
               | Some current => merge current
               end
      | _, _ => fillLegacy (json_pretty (JObj payload)) e
      end
  | OperationsPreset =>
      let operationsPayload := match prop "operations" (JObj payload) with JArr l => l | _ => [] end in
      match mode with
      | Append => drawing (mapM readOperation operationsPayload) (λ appended e,
          let existing := match visualMode (core e) with
                          | OperationsMode => filter (λ o, isOperationBlank o = false) (ops e)
                          | LegacyMode => []
                          end in
          let nextOps := existing ++ appended in
          e |> setVisualMode OperationsMode |> setOperations nextOps |> setSelectedOperationId (first_id nextOps)
            |> setLegacyValue [] |> setJsonError [] |> setEditMode VisualEdit |> setJsonText []) e
      | Fill => drawing (readOperations clock operationsPayload) (λ finalOps e,
          e |> setVisualMode OperationsMode |> setOperations finalOps |> setSelectedOperationId (first_id finalOps)
            |> setJsonText (json_pretty (JObj [entry "operations" (JArr operationsPayload)])) |> setJsonError []
            |> setEditMode VisualEdit) e
      end
  end.

Definition resetEditorState : Editor → outcome Editor :=
  drawing newOperation (λ fallback e,
    e |> setVisualMode OperationsMode |> setLegacyValue [] |> setOperations [fallback]
      |> setSelectedOperationId (o_id fallback) |> setJsonText [] |> setJsonError []
      |> setTemplatePresetKey (js "operations_default") |> setEditMode VisualEdit).

(** ** The JSON text, and saving *)

Definition handleJsonChange (nextValue : jstr) (e : Editor) : Editor :=
  let e := e |> setJsonText nextValue in
  let trimmed := trim nextValue in
  if negb (str_truthy trimmed) then e |> setJsonError []
  else e |> setJsonError (if verifyJSON trimmed then [] else T "JSON format error").

Definition formatJson (e : Editor) : Editor :=
  let trimmed := trim (jsonText (core e)) in
  if negb (str_truthy trimmed) then e
  else match json_parse trimmed with
       | None => e |> toast_error (T "Parameter override must be valid JSON format")
       | Some v => e |> setJsonText (json_pretty v) |> setJsonError []
       end.

Definition visualValidationError (e : Editor) : jstr :=
  match editMode (core e) with
  | JsonEdit => []
  | VisualEdit => match buildVisualJson e with inr _ => [] | inl message => str_or message (T "Parameter configuration error") end
  end.

(** What is saved, or the message of the error that is thrown. *)
Definition saveText (e : Editor) : jstr + jstr :=
  match editMode (core e) with
  | JsonEdit =>
      let trimmed := trim (jsonText (core e)) in
      if negb (str_truthy trimmed) then inr []
      else match json_parse trimmed with
           | None => inl (T "Parameter override must be valid JSON format")
           | Some v => inr (json_pretty v)
           end
  | VisualEdit => buildVisualJson e
  end.

Definition handleSave (e : Editor) : Editor :=
  match saveText e with
  | inr result => e |> onSave result |> onOpenChange false
  | inl message => e |> toast_error message
  end.

(** ** Steps *)

Inductive Event :=
  | EUpdateOperation (i : jstr) (patch : list OperationField)
  | EAddOperation
  | EDuplicateOperation (eager : bool) (i : jstr)
  | ERemoveOperation (i : jstr)
  | EAddCondition (i : jstr)
  | EUpdateCondition (i c : jstr) (patch : ConditionField)
  | ERemoveCondition (i c : jstr)
  | EExpandCondition (c : jstr) (b : bool)
  | EExpandAll (b : bool)
  | EReturnError (i : jstr) (patch : list ReturnErrorField)
  | EPruneDraft (i : jstr) (patch : PruneField)
  | EAddPruneRule (i : jstr)
  | EUpdatePruneRule (i r : jstr) (patch : ConditionField)
  | ERemovePruneRule (i r : jstr)
  | ESelect (i : jstr)
  | ESearch (s : jstr)
  | EDragStart (i : jstr)
  | EDragOver (i : jstr) (clientY top height : num)
  | EDrop (i data : jstr)
  | EDragEnd
  | EJsonMode
  | EVisualMode
  | EPreset (v : jstr)
  | EFill (mode : FillMode)
  | EReset
  | ELegacyChange (s : jstr)
  | EJsonChange (s : jstr)
  | EFormatJson
  | ESave
  | ECancel.

Definition handle (ev : Event) (e : Editor) : outcome Editor :=
  match ev with
  | EUpdateOperation i patch => Ret (updateOperation i patch e)
  | EAddOperation => addOperation e
  | EDuplicateOperation eager i => duplicateOperation eager i e
  | ERemoveOperation i => removeOperation i e
  | EAddCondition i => addCondition i e
  | EUpdateCondition i c patch => Ret (updateCondition i c patch e)
  | ERemoveCondition i c => Ret (removeCondition i c e)
  | EExpandCondition c b => Ret (expandCondition c b e)
  | EExpandAll b => Ret (if b then expandAllConditions e else collapseAllConditions e)
  | EReturnError i patch => Ret (updateReturnErrorDraft i patch e)
  | EPruneDraft i patch => patchPruneObjectsDraft i patch e
  | EAddPruneRule i => addPruneRule i e
  | EUpdatePruneRule i r patch => updatePruneRule i r patch e
  | ERemovePruneRule i r => removePruneRule i r e
  | ESelect i => Ret (setSelectedOperationId i e)
  | ESearch s => Ret (setOperationSearch s e)
  | EDragStart i => Ret (handleDragStart i e)
  | EDragOver i y top h => Ret (handleDragOver i y top h e)
  | EDrop i data => Ret (handleDrop i data e)
  | EDragEnd => Ret (resetDragState e)
  | EJsonMode => Ret (switchToJsonMode e)
  | EVisualMode => switchToVisualMode e
  | EPreset v => Ret (setTemplatePresetKey (str_or v (js "operations_default")) e)
  | EFill mode => fillTemplate mode e
  | EReset => resetEditorState e
  | ELegacyChange s => Ret (setLegacyValue s e)
  | EJsonChange s => Ret (handleJsonChange s e)
  | EFormatJson => Ret (formatJson e)
  | ESave => Ret (handleSave e)
  | ECancel => Ret (onOpenChange false e)
  end.

(** The choices the selects of the dialog offer. *)
Definition offered_field (p : OperationField) : Prop :=
  match p with
  | Mode m => m ∈ OPERATION_MODE_VALUES
  | Logic l => l ∈ [js "OR"; js "AND"]
  | Conditions _ => False
  | _ => True
  end.

Definition offered (ev : Event) : Prop :=
  match ev with
  | EUpdateOperation _ patch => Forall offered_field patch
  | EUpdateCondition _ _ (CMode m) | EUpdatePruneRule _ _ (CMode m) => m ∈ CONDITION_MODE_VALUES
  | EPruneDraft _ (PRLogic l) => l ∈ [js "AND"; js "OR"]
  | EPruneDraft _ (PRRules _) => False
  | EPreset v => v ∈ own_keys TEMPLATE_PRESET_CONFIG
  | _ => True
  end.

(** A handler that throws leaves the state as it was; identifiers may be drawn
    in between by rendering. *)
Inductive step : Editor → Editor → Prop :=
  | step_open value e e' : isOpen (around e) = false → openEffect value e = Ret e' →
      step e (onOpenChange true (keepSelection e'))
  | step_event ev e e' : isOpen (around e) = true → offered ev → handle ev e = Ret e' → step e (keepSelection e')
  | step_render n e : (seed e ≤ n)%N → step e (setSeed n e).

(** Mounted, before it is first opened. *)
Definition mounted : outcome Editor :=
  match newOperation 0%N with
  | Ret (o, n) =>
      Ret (keepSelection
        {| core := {| editMode := VisualEdit; visualMode := OperationsMode; legacyValue := []; operations := [o];
                      jsonText := []; jsonError := [] |};
           screen := {| operationSearch := []; selectedOperationId := []; expandedConditions := []; draggedOperationId := [];
                        dragOverOperationId := []; dragOverPosition := Before; templatePresetKey := js "operations_default" |};
           around := {| localIdSeed := n; toasts := []; saved := []; isOpen := false |} |})
  | Throw => Throw
  end.

Inductive reachable : Editor → Prop :=
  | reachable_mounted e : mounted = Ret e → reachable e
  | reachable_step e e' : reachable e → step e e' → reachable e'.
End Dialog.
