(* ===== verification/ParamInvariant.v ===== *)
(** * Parameter override editor: the invariant of the dialog

    Identifiers are drawn from a counter, so no two agree, whatever the clock
    says.  In every reachable state the list of operations is not empty, its
    identifiers differ, modes and connectives are listed ones, and one
    operation is selected.  No handler throws but the one that reads the JSON
    text back. *)

From S2P Require Import Prelude JsNumber JsNumberFacts JsString JsValue ParamOverride ParamEditor.

Open Scope nat_scope.

(** ** Moving an operation *)

Lemma find_index_Some {A} (f : A → bool) l i : find_index f l = Some i →
  ∃ l1 x l2, l = l1 ++ x :: l2 ∧ length l1 = i ∧ f x = true ∧ Forall (λ y, f y = false) l1.
Proof.
  revert i. induction l as [|y l IH]; intros i H; cbn [find_index] in H; [done|]. destruct (f y) eqn:E.
  - injection H as <-. by exists [], y, l.
  - destruct (find_index f l) as [j|] eqn:Ej; [|done]. injection H as <-.
    destruct (IH j eq_refl) as (l1 & x & l2 & -> & <- & Hx & Hl). exists (y :: l1), x, l2. by repeat constructor.
Qed.

Lemma find_index_None {A} (f : A → bool) l : find_index f l = None → Forall (λ y, f y = false) l.
Proof.
  induction l as [|y l IH]; cbn [find_index]; [done|]. destruct (f y) eqn:E; [done|].
  destruct (find_index f l); [done|]. intros _. constructor; auto.
Qed.

Lemma no_id s l : Forall (λ o, has_id s o = false) l → s ∉ map o_id l.
Proof.
  intros H (o & -> & Ho)%list_elem_of_fmap. rewrite Forall_forall in H. specialize (H o Ho). unfold has_id in H.
  by rewrite str_eqb_refl in H.
Qed.

Lemma take_drop_split {A} (l1 : list A) x l2 :
  take (length l1) (l1 ++ x :: l2) ++ drop (S (length l1)) (l1 ++ x :: l2) = l1 ++ l2.
Proof.
  rewrite take_app_length. f_equal. by rewrite (cons_middle x l1 l2), app_assoc, drop_app_length' by (rewrite length_app; cbn; lia).
Qed.

(** When nothing is moved one of the two is missing; else the item at a
    position is taken out and inserted next to the target. *)
Lemma reorder_cases l s tg p :
  (reorderOperations l s tg p = l ∧ (s = [] ∨ tg = [] ∨ s = tg ∨ s ∉ map o_id l ∨ tg ∉ map o_id l)) ∨
  ∃ l1 src l2 l1' tgt l2', l = l1 ++ src :: l2 ∧ o_id src = s ∧ o_id tgt = tg ∧ l1 ++ l2 = l1' ++ tgt :: l2' ∧
    reorderOperations l s tg p = l1' ++ match p with Before => [src; tgt] | After => [tgt; src] end ++ l2'.
Proof.
  unfold reorderOperations. destruct (_ || _ || _) eqn:Eg.
  { left. split; [done|]. destruct s; [by left|]. destruct tg; [by right; left|].
    apply str_eqb_eq in Eg. by right; right; left. }
  destruct (find_index (has_id s) l) as [i|] eqn:Es; [|left; split; [done|]; do 3 right; left; by apply no_id, find_index_None].
  apply find_index_Some in Es as (l1 & src & l2 & -> & <- & Hs%str_eqb_eq & _).
  rewrite list_lookup_middle, take_drop_split by done.
  destruct (find_index (has_id tg) (l1 ++ l2)) as [j|] eqn:Et.
  - right. apply find_index_Some in Et as (l1' & tgt & l2' & HE & <- & Ht%str_eqb_eq & _).
    exists l1, src, l2, l1', tgt, l2'. split_and!; [done|done|done|done|]. rewrite HE. destruct p.
    + by rewrite take_app_length, drop_app_length.
    + by rewrite (cons_middle tgt l1' l2'), app_assoc, take_app_length', drop_app_length', <- app_assoc by (rewrite length_app; cbn; lia).
  - left. split; [done|]. apply find_index_None, no_id in Et.
    destruct (decide (s = tg)) as [->|Hne]; [by right; right; left|]. do 4 right. rewrite map_app in *. cbn [map]. set_solver.
Qed.

Lemma reorder_perm l s tg p : reorderOperations l s tg p ≡ₚ l.
Proof.
  destruct (reorder_cases l s tg p) as [[-> _]|(l1 & src & l2 & l1' & tgt & l2' & -> & _ & _ & HE & ->)]; [done|].
  rewrite <- Permutation_middle, HE. destruct p; cbn [app]; by rewrite <- !Permutation_middle, ?(perm_swap tgt src).
Qed.

(** Dropping an operation on another one moves it next to that one, before or
    after it as the position says, and changes nothing else: the other
    operations keep their order. *)
Theorem reorder_moves (l : list ParamOverrideOperation) (src tgt : ParamOverrideOperation) (p : DropPosition) :
  NoDup (map o_id l) → src ∈ l → tgt ∈ l → o_id src ≠ o_id tgt → o_id src ≠ [] → o_id tgt ≠ [] →
  ∃ l1 l2, filter (λ o, o_id o ≠ o_id src) l = l1 ++ tgt :: l2 ∧
    reorderOperations l (o_id src) (o_id tgt) p = l1 ++ match p with Before => [src; tgt] | After => [tgt; src] end ++ l2.
Proof.
  intros Hnd Hs Ht Hne Hs0 Ht0. assert (∀ o o', o ∈ l → o' ∈ l → o_id o = o_id o' → o = o') as Hinj.
  { intros o o' [i Hi]%list_elem_of_lookup [j Hj]%list_elem_of_lookup E. assert (i = j) as ->; [|congruence].
    apply (NoDup_lookup (map o_id l) i j (o_id o) Hnd); [|rewrite E]; by apply list_lookup_fmap_Some_1 || (rewrite list_lookup_fmap; by rewrite ?Hi, ?Hj). }
  destruct (reorder_cases l (o_id src) (o_id tgt) p) as [[_ H]|(l1 & s' & l2 & l1' & t' & l2' & -> & Es & Et & HE & ->)].
  { exfalso. destruct H as [?|[?|[?|[H|H]]]]; [done|done|done| |]; apply H; by apply (list_elem_of_fmap_2 o_id). }
  assert (s' = src) as -> by (apply Hinj; [set_solver|done|done]).
  assert (t' = tgt) as -> by (apply Hinj; [|done|done]; assert (t' ∈ l1 ++ l2) by (rewrite HE; set_solver); set_solver).
  exists l1', l2'. split; [|done]. rewrite <- HE, filter_app, filter_cons_False by (by intros H; apply H).
  rewrite map_app in Hnd. cbn [map] in Hnd. apply NoDup_app in Hnd as (_ & H1 & [H2 _]%NoDup_cons).
  f_equal; apply filter_id, Forall_forall; intros o Ho E.
  - apply (H1 (o_id o)); [by apply (list_elem_of_fmap_2 o_id)|rewrite E; apply list_elem_of_here].
  - apply H2. rewrite <- E. by apply (list_elem_of_fmap_2 o_id).
Qed.

(** ** What drawing code yields *)

(** The result of [m], when it does not throw, relates to the counter as [Q]. *)
Definition yields {A} (m : gen A) (Q : N → N → A → Prop) : Prop :=
  ∀ lo x hi, m lo = Ret (x, hi) → (lo ≤ hi)%N ∧ Q lo hi x.

Lemma yields_ret {A} (x : A) (Q : N → N → A → Prop) : (∀ n, Q n n x) → yields (mret x) Q.
Proof. intros H lo y hi [= <- <-]. split; [lia|done]. Qed.

Lemma yields_throw {A} (Q : N → N → A → Prop) : yields gen_throw Q.
Proof. by intros lo x hi H. Qed.

Lemma yields_bind {A B} (m : gen A) (f : A → gen B) Q R :
  yields m Q → (∀ lo mid x, (lo ≤ mid)%N → Q lo mid x → yields (f x) (λ mid' hi y, mid' = mid → R lo hi y)) →
  yields (m ≫= f) R.
Proof.
  intros Hm Hf lo y hi H. unfold mbind, gen_bind in H. destruct (m lo) as [[x mid]|] eqn:E; [|done].
  apply Hm in E as [Hle HQ]. destruct (Hf lo mid x Hle HQ _ _ _ H) as [? HR]. split; [lia|by apply HR].
Qed.

Lemma yields_impl {A} (m : gen A) (Q R : N → N → A → Prop) :
  yields m Q → (∀ lo hi x, (lo ≤ hi)%N → Q lo hi x → R lo hi x) → yields m R.
Proof. intros H HQ lo x hi E. destruct (H _ _ _ E). split; [done|by apply HQ]. Qed.

Section Invariant.
Context (clock : N → num).

Local Abbreviation localId := (localId clock).

(** ** Identifiers *)

Lemma digits_no_underscore n : 95%N ∉ digits n.
Proof.
  assert (Forall (λ c, is_digit c = true) (digits n)) as H by (by apply digits_are_digits).
  intros Hin. rewrite Forall_forall in H. specialize (H _ Hin). done.
Qed.

Lemma last_part_eq (c : N) a b d d' : c ∉ d → c ∉ d' → a ++ c :: d = b ++ c :: d' → d = d'.
Proof.
  intros Hd Hd' H%(f_equal reverse). rewrite !reverse_app, !reverse_cons, <- !app_assoc in H. cbn [app] in H.
  apply (f_equal (λ s, split s [c])) in H. rewrite !split_app_sep in H by (by rewrite elem_of_reverse).
  injection H as H _. by apply (inj reverse).
Qed.

Lemma localId_inj j k : localId j = localId k → j = k.
Proof.
  unfold ParamOverride.localId. intros H%app_inv_head. apply digits_inj.
  apply (last_part_eq 95 _ _ _ _ (digits_no_underscore j) (digits_no_underscore k) H).
Qed.

(** Drawn while the counter went from [lo] to [hi]. *)
Definition fresh (lo hi : N) (i : jstr) : Prop := ∃ k, (lo ≤ k < hi)%N ∧ i = localId k.

Lemma fresh_mono lo hi lo' hi' i : (lo' ≤ lo)%N → (hi ≤ hi')%N → fresh lo hi i → fresh lo' hi' i.
Proof. intros ?? (k & ? & ->). exists k. split; [lia|done]. Qed.

Lemma fresh_disjoint lo mid hi i : fresh lo mid i → fresh mid hi i → False.
Proof. intros (j & Hj & ->) (k & Hk & E). apply localId_inj in E. lia. Qed.

Lemma fresh_nonempty lo hi i : fresh lo hi i → i ≠ [].
Proof. by intros (k & ? & ->). Qed.

Lemma yields_id : yields (nextLocalId clock) fresh.
Proof. intros lo x hi [= <- <-]. split; [lia|]. exists lo. split; [lia|done]. Qed.

(** Lists whose items are [ok] and have identifiers that differ. *)
Definition list_ok {A} (ok : N → N → A → Prop) (id : A → jstr) (lo hi : N) (l : list A) : Prop :=
  Forall (ok lo hi) l ∧ NoDup (map id l).

#[export] Instance list_ok_perm {A} (ok : N → N → A → Prop) id lo hi : Proper ((≡ₚ) ==> iff) (list_ok ok id lo hi).
Proof. intros l l' H. unfold list_ok. by rewrite H. Qed.

Lemma list_ok_app {A} (ok : N → N → A → Prop) id lo mid hi l l' :
  (∀ lo hi x, ok lo hi x → fresh lo hi (id x)) →
  (∀ lo hi lo' hi' x, (lo' ≤ lo)%N → (hi ≤ hi')%N → ok lo hi x → ok lo' hi' x) → (lo ≤ mid ≤ hi)%N →
  list_ok ok id lo mid l → list_ok ok id mid hi l' → list_ok ok id lo hi (l ++ l').
Proof.
  intros Hf Hm Hle [Hl Hd] [Hl' Hd']. split.
  - apply Forall_app. split; [eapply Forall_impl; [exact Hl|]|eapply Forall_impl; [exact Hl'|]]; intros x; apply Hm; lia.
  - rewrite map_app. apply NoDup_app. split_and!; [done| |done]. intros i (x & -> & Hx)%list_elem_of_fmap (y & Hxy & Hy)%list_elem_of_fmap.
    rewrite Forall_forall in Hl, Hl'. apply Hl, Hf in Hx. apply Hl', Hf in Hy. rewrite <- Hxy in Hy. exact (fresh_disjoint _ _ _ _ Hx Hy).
Qed.

Section MapM.
Context {A B} (f : B → gen A) (ok : N → N → A → Prop) (id : A → jstr).
Context (Hf : ∀ v, yields (f v) ok).
Context (Hid : ∀ lo hi x, ok lo hi x → fresh lo hi (id x)).
Context (Hmono : ∀ lo hi lo' hi' x, (lo' ≤ lo)%N → (hi ≤ hi')%N → ok lo hi x → ok lo' hi' x).

Lemma yields_mapM l : yields (mapM f l) (list_ok ok id).
Proof.
  induction l as [|v l IH]; cbn [mapM].
  { apply yields_ret. intros n. split; [done|apply NoDup_nil_2]. }
  eapply yields_bind; [apply Hf|]. intros lo mid x Hle Hx. eapply yields_bind; [exact IH|].
  intros mid' hi xs Hle' Hxs. apply yields_ret. intros n -> ->.
  apply (list_ok_app ok id lo mid hi [x] xs); [done|done|lia| |done].
  split; [by apply Forall_singleton|apply NoDup_singleton].
Qed.
End MapM.

(** ** Operations that are well formed *)

Definition cond_ok (lo hi : N) (c : ParamOverrideCondition) : Prop := fresh lo hi (c_id c) ∧ c_mode c ∈ CONDITION_MODE_VALUES.

Definition op_ok (lo hi : N) (o : ParamOverrideOperation) : Prop :=
  fresh lo hi (o_id o) ∧ o_mode o ∈ OPERATION_MODE_VALUES ∧ o_logic o ∈ [js "OR"; js "AND"] ∧
  list_ok cond_ok c_id lo hi (o_conditions o).

Lemma cond_ok_mono lo hi lo' hi' c : (lo' ≤ lo)%N → (hi ≤ hi')%N → cond_ok lo hi c → cond_ok lo' hi' c.
Proof. intros ?? [Hf Hm]. split; [|done]. by eapply fresh_mono. Qed.

Lemma op_ok_mono lo hi lo' hi' o : (lo' ≤ lo)%N → (hi ≤ hi')%N → op_ok lo hi o → op_ok lo' hi' o.
Proof.
  intros ?? (Hf & Hm & Hl & Hc & Hd). split_and!; [by eapply fresh_mono|done|done|]. split; [|done].
  eapply Forall_impl; [exact Hc|]. intros c. by apply cond_ok_mono.
Qed.

Lemma mode_prop_in modes d v : d ∈ modes → mode_prop modes d v ∈ modes.
Proof. unfold mode_prop. intros. destruct (prop "mode" v); try done. by case_bool_decide. Qed.

Lemma normalizeLogic_in v : normalizeLogic v ∈ [js "OR"; js "AND"].
Proof. unfold normalizeLogic. case_match; set_solver. Qed.

Lemma yields_condition v : yields (normalizeCondition clock v) cond_ok.
Proof.
  unfold normalizeCondition. eapply yields_bind; [apply yields_id|]. intros lo mid i Hle Hi.
  case_match; [apply yields_throw|]. apply yields_ret. intros n ->. split; [done|]. cbn [c_mode].
  apply mode_prop_in, (bool_decide_unpack _). vm_compute. exact I.
Qed.

Lemma yields_conditions v :
  yields (match prop "conditions" v with JArr l => mapM (normalizeCondition clock) l | _ => mret [] end)
    (list_ok cond_ok c_id).
Proof.
  case_match; try (apply yields_ret; intros; split; [done|apply NoDup_nil_2]).
  apply yields_mapM; [apply yields_condition|by intros ??? [? _]|apply cond_ok_mono].
Qed.

Lemma yields_operation v : yields (normalizeOperation clock v) op_ok.
Proof.
  unfold normalizeOperation. eapply yields_bind; [apply yields_id|]. intros lo mid i Hle Hi.
  case_match; [apply yields_throw|]. eapply yields_bind; [apply yields_conditions|].
  intros mid' hi cs Hle' [Hcs Hnd]. apply yields_ret. intros n -> ->. split_and!; cbn [o_id o_mode o_logic o_conditions].
  - by eapply fresh_mono; [| |exact Hi].
  - apply mode_prop_in, (bool_decide_unpack _). vm_compute. exact I.
  - apply normalizeLogic_in.
  - split; [|done]. eapply Forall_impl; [exact Hcs|]. intros c. apply cond_ok_mono; [done|reflexivity].
Qed.

Lemma yields_operations l : yields (mapM (normalizeOperation clock) l) (list_ok op_ok o_id).
Proof. apply yields_mapM; [apply yields_operation|by intros ??? [? _]|apply op_ok_mono]. Qed.

Lemma yields_default : yields (createDefaultOperation clock) (λ lo hi o, list_ok op_ok o_id lo hi [o]).
Proof.
  eapply yields_impl; [apply yields_operation|]. intros lo hi o _ Ho.
  split; [by apply Forall_singleton|apply NoDup_singleton].
Qed.

Lemma yields_read l : yields (readOperations clock l) (λ lo hi ops, ops ≠ [] ∧ list_ok op_ok o_id lo hi ops).
Proof.
  destruct l as [|v l]; cbn [readOperations].
  - eapply yields_bind; [apply yields_default|]. intros lo mid o _ Ho. apply yields_ret. by intros n ->.
  - intros lo ops hi E. destruct (yields_operations _ _ _ _ E) as [Hle Hops]. split_and!; [done| |done].
    intros ->. cbn [mapM] in E. unfold mbind, gen_bind, mret, gen_ret in E. by repeat case_match.
Qed.

Lemma yields_initial value :
  yields (parseInitialState clock value) (λ lo hi s, operations s ≠ [] ∧ list_ok op_ok o_id lo hi (operations s)).
Proof.
  assert (∀ e v legacy json error,
    yields (o ← createDefaultOperation clock;
      mret {| editMode := e; visualMode := v; legacyValue := legacy; operations := [o]; jsonText := json; jsonError := error |})
      (λ lo hi s, operations s ≠ [] ∧ list_ok op_ok o_id lo hi (operations s))) as Hstart.
  { intros. eapply yields_bind; [apply yields_default|]. intros lo mid o _ Ho. apply yields_ret. by intros n ->. }
  unfold parseInitialState. repeat case_match; try apply Hstart.
  eapply yields_bind; [apply yields_read|]. intros lo mid ops _ Ho. apply yields_ret. by intros n ->.
Qed.

(** ** States that are well formed *)

Definition ops_ok (n : N) (l : list ParamOverrideOperation) : Prop := l ≠ [] ∧ list_ok op_ok o_id 0 n l.

Definition preset_key (k : jstr) : Prop := k ∈ own_keys TEMPLATE_PRESET_CONFIG.

Definition settled (e : Editor) : Prop :=
  ops_ok (seed e) (ops e) ∧ preset_key (templatePresetKey (screen e)).

Definition wf (e : Editor) : Prop := settled e ∧ selectedOperationId (screen e) ∈ map o_id (ops e).

Lemma list_ok_mono lo hi lo' hi' l : (lo' ≤ lo)%N → (hi ≤ hi')%N → list_ok op_ok o_id lo hi l → list_ok op_ok o_id lo' hi' l.
Proof. intros ?? [Hl Hd]. split; [|done]. eapply Forall_impl; [exact Hl|]. intros o. by apply op_ok_mono. Qed.

Lemma ops_ok_fresh n m l : l ≠ [] → list_ok op_ok o_id n m l → ops_ok m l.
Proof. intros. split; [done|]. eapply list_ok_mono; [|reflexivity|done]. lia. Qed.

Lemma ops_ok_mono n m l : (n ≤ m)%N → ops_ok n l → ops_ok m l.
Proof. intros ? [? Hl]. split; [done|]. by eapply list_ok_mono; [reflexivity| |exact Hl]. Qed.

Lemma ops_ok_app n m l l' : (n ≤ m)%N → list_ok op_ok o_id 0 n l → list_ok op_ok o_id n m l' → l' ≠ [] → ops_ok m (l ++ l').
Proof.
  intros. split; [by destruct l|]. apply (list_ok_app op_ok o_id 0 n); [by intros ??? [? _]|apply op_ok_mono|lia|done|done].
Qed.

Lemma ops_ok_perm n l l' : l ≡ₚ l' → ops_ok n l → ops_ok n l'.
Proof. intros HP [Hne Hl]. split; [intros ->; by apply Permutation_nil_r in HP|]. by rewrite <- HP. Qed.

Lemma ops_ok_sublist n l l' : sublist l' l → l' ≠ [] → ops_ok n l → ops_ok n l'.
Proof.
  intros Hs ? [_ [Hl Hd]]. split; [done|]. split.
  - rewrite Forall_forall in *. intros o Ho. apply Hl. by eapply sublist_subseteq.
  - eapply sublist_NoDup; [exact Hd|]. by apply (fmap_sublist o_id).
Qed.

(** Items changed one by one keep their identifiers. *)
Lemma ops_ok_Forall2 n m l l' : (n ≤ m)%N →
  Forall2 (λ o o', o_id o' = o_id o ∧ (op_ok 0 m o → op_ok 0 m o')) l l' → ops_ok n l → ops_ok m l'.
Proof.
  intros Hle H Hl. apply (ops_ok_mono n m) in Hl as [Hne [Hok Hd]]; [|done]. split.
  - intros ->. by inversion H; subst.
  - assert (map o_id l' = map o_id l) as HE.
    { clear -H. induction H as [|o o' l l' [E _] _ IH]; [done|]. cbn. by rewrite E, IH. }
    split; [|by rewrite HE]. clear -H Hok. induction H as [|o o' l l' [_ Ho] _ IH]; [done|].
    inversion Hok; subst. constructor; auto.
Qed.

Lemma ops_ok_map n i f l : (∀ o, o_id (f o) = o_id o) → (∀ o, op_ok 0 n o → op_ok 0 n (f o)) →
  ops_ok n l → ops_ok n (map (on_operation i f) l).
Proof.
  intros Hid Hf. apply ops_ok_Forall2; [lia|]. induction l as [|o l IH]; constructor; [|done].
  unfold on_operation. case_match; [by auto|done].
Qed.

Lemma drawing_settled {A} (m : gen A) k Q e e' : yields m Q →
  (∀ x n, (seed e ≤ n)%N → Q (seed e) n x → settled (k x (setSeed n e))) → drawing m k e = Ret e' → settled e'.
Proof.
  unfold drawing. intros Hm Hk. destruct (m (seed e)) as [[x n]|] eqn:E; [|done]. intros [= <-].
  apply Hm in E as [Hle HQ]. by apply Hk.
Qed.

Lemma keepSelection_wf e : settled e → wf (keepSelection e).
Proof.
  intros Hs. pose proof Hs as [[Hne _] _]. unfold keepSelection, wf. destruct (ops e) as [|o l] eqn:E; [by destruct Hne|].
  destruct (existsb _ _) eqn:Ex.
  - split; [exact Hs|]. rewrite E. apply existsb_exists in Ex as (x & Hx & Hi%str_eqb_eq).
    rewrite <- Hi. apply list_elem_of_fmap. exists x. split; [reflexivity|]. by apply list_elem_of_In.
  - split; [exact Hs|]. change (o_id o ∈ map o_id (ops e)). rewrite E. apply list_elem_of_here.
Qed.

(** ** Changes that keep an operation well formed *)

Lemma patch_ok n p o : offered_field p → op_ok 0 n o → op_ok 0 n (patch_operation p o).
Proof. intros Hp (Hi & Hm & Hl & Hc). destruct p; cbn in Hp; by split_and!. Qed.

Lemma patches_ok n ps o : Forall offered_field ps → op_ok 0 n o → op_ok 0 n (fold_left (λ o p, patch_operation p o) ps o).
Proof. intros H. revert o. induction H; intros o' Ho; [done|]. cbn [fold_left]. by apply IHForall, patch_ok. Qed.

Lemma patches_id ps o : o_id (fold_left (λ o p, patch_operation p o) ps o) = o_id o.
Proof. revert o. induction ps as [|p ps IH]; intros o; [done|]. cbn [fold_left]. by rewrite IH. Qed.

Lemma conditions_ok n f o : (list_ok cond_ok c_id 0 n (o_conditions o) → list_ok cond_ok c_id 0 n (f (o_conditions o))) →
  op_ok 0 n o → op_ok 0 n (patch_operation (Conditions (f (o_conditions o))) o).
Proof. intros Hf (Hi & Hm & Hl & Hc). split_and!; [done|done|done|by apply Hf]. Qed.

Lemma map_conditions_ok n cid p l : (∀ m, p = CMode m → m ∈ CONDITION_MODE_VALUES) → list_ok cond_ok c_id 0 n l →
  list_ok cond_ok c_id 0 n (map (λ c, if str_eqb (c_id c) cid then patch_condition p c else c) l).
Proof.
  intros Hp [Hl Hd]. split.
  - apply Forall_fmap. eapply Forall_impl; [exact Hl|]. intros c [Hf Hm]. unfold compose. case_match; [|done].
    split; [done|]. cbn. destruct p; [done| |done|done|done]. by apply Hp.
  - rewrite map_map. erewrite map_ext; [exact Hd|]. intros c. by case_match.
Qed.

Lemma filter_conditions_ok n cid l : list_ok cond_ok c_id 0 n l → list_ok cond_ok c_id 0 n (filter (λ c, c_id c ≠ cid) l).
Proof.
  intros [Hl Hd]. split.
  - rewrite Forall_forall in *. intros c [_ Hc]%list_elem_of_filter. by apply Hl.
  - eapply sublist_NoDup; [exact Hd|]. apply (fmap_sublist c_id), sublist_filter.
Qed.

Lemma yields_prune_rules l : yields (mapM (normalizePruneRule clock) l) (list_ok cond_ok c_id).
Proof. apply yields_mapM; [apply yields_condition|by intros ??? [? _]|apply cond_ok_mono]. Qed.

Lemma yields_mapping o : yields (mappingRules clock o) (list_ok cond_ok c_id).
Proof. apply yields_mapM; [intros; apply yields_condition|by intros ??? [? _]|apply cond_ok_mono]. Qed.

(** The rules of a draft are drawn when its text is read. *)
Lemma yields_prune_draft s : yields (parsePruneObjectsDraft clock s) (λ lo hi d, list_ok cond_ok c_id lo hi (pr_rules d)).
Proof.
  assert (∀ lo, list_ok cond_ok c_id lo lo []) as Hnil by (intros; split; [done|apply NoDup_nil_2]).
  unfold parsePruneObjectsDraft. case_match; [by apply yields_ret|].
  destruct (json_parse (trim s)) as [v|]; [|by apply yields_ret]. destruct v; try by apply yields_ret.
  eapply yields_bind; [instantiate (1 := list_ok cond_ok c_id); case_match; try (by apply yields_ret); apply yields_mapping|].
  intros lo mid w Hle Hw.
  eapply yields_bind; [instantiate (1 := list_ok cond_ok c_id); case_match; try (by apply yields_ret);
    [apply yields_prune_rules|apply yields_mapping]|].
  intros mid' hi cs Hle' Hcs. apply yields_ret. intros n -> ->. cbn [pr_rules].
  apply (list_ok_app cond_ok c_id lo mid hi); [by intros ??? [? _]|apply cond_ok_mono|lia|done|done].
Qed.

(** ** Every handler keeps the state well formed *)

Lemma yields_updated i updater l : (∀ d, yields (updater d) (λ _ _ _, True)) →
  yields (mapM (λ op,
    if has_id i op then
      draft ← parsePruneObjectsDraft clock (o_value_text op);
      nextDraft ← updater draft;
      mret (patch_operation (ValueText (buildPruneObjectsValueText nextDraft)) op)
    else mret op) l)
  (λ _ hi l', Forall2 (λ o o', o_id o' = o_id o ∧ (op_ok 0 hi o → op_ok 0 hi o')) l l').
Proof.
  intros Hu. induction l as [|o l IH]; cbn [mapM]; [by apply yields_ret|].
  eapply yields_bind with (Q := λ _ _ o', o' = o ∨ ∃ s, o' = patch_operation (ValueText s) o).
  { case_match; [|apply yields_ret; by left]. eapply yields_bind; [apply yields_prune_draft|]. intros lo mid d _ _.
    eapply yields_bind; [apply Hu|]. intros lo' mid' d' _ _. apply yields_ret. intros n _ _. right. by eexists. }
  intros lo mid o' _ Ho. eapply yields_bind; [exact IH|]. intros mid' hi l' _ Hl. apply yields_ret. intros n -> _.
  constructor; [|done]. destruct Ho as [->|[s ->]]; [done|]. split; [done|]. by apply patch_ok.
Qed.

Lemma updatePrune_settled i updater e e' : (∀ d, yields (updater d) (λ _ _ _, True)) → settled e →
  updatePruneObjectsDraft clock i updater e = Ret e' → settled e'.
Proof.
  intros Hu [Hok Hk]. unfold updatePruneObjectsDraft. eapply drawing_settled; [by apply yields_updated|].
  intros l n Hle HF. split; [|exact Hk]. by apply (ops_ok_Forall2 (seed e) n (ops e)).
Qed.

Lemma duplicate_settled b i e e' : settled e → duplicateOperation clock b i e = Ret e' → settled e'.
Proof.
  intros [Hok Hk]. unfold duplicateOperation. case_match; [|by intros [= <-]]. case_match; [|by intros [= <-]].
  eapply drawing_settled; [apply yields_operation|]. intros c n' Hle Hc.
  assert (ops_ok n' (take (n + 1) (ops e) ++ c :: drop (n + 1) (ops e))) as H1.
  { eapply ops_ok_perm with (ops e ++ [c]).
    - rewrite <- (Permutation_middle (take (n + 1) (ops e))), take_drop. symmetry. apply Permutation_cons_append.
    - apply (ops_ok_app (seed e)); [done|apply Hok| |done]. split; [by apply Forall_singleton|apply NoDup_singleton]. }
  cbn zeta. case_match; by split.
Qed.

(** Identifiers differ, so of two operations one stays. *)
Lemma filter_other i l : NoDup (map o_id l) → 1 < length l → filter (λ o, has_id i o = false) l ≠ [].
Proof.
  destruct l as [|a [|b l]]; cbn [length]; [lia|lia|]. intros [Ha _]%NoDup_cons _. rewrite !filter_cons.
  destruct (decide (has_id i a = false)) as [|Hi]; [done|]. destruct (decide (has_id i b = false)) as [|Hj]; [done|].
  apply not_false_is_true, str_eqb_eq in Hi, Hj. destruct Ha. rewrite Hi, <- Hj. apply list_elem_of_here.
Qed.

Lemma remove_settled i e e' : settled e → removeOperation clock i e = Ret e' → settled e'.
Proof.
  intros [Hok Hk]. unfold removeOperation. destruct (Nat.leb_spec (length (ops e)) 1) as [Hl|Hl].
  - eapply drawing_settled; [apply yields_default|]. intros o n Hle Ho. split; [|exact Hk].
    by apply (ops_ok_fresh (seed e) n [o]).
  - intros [= <-]. split; [|exact Hk]. eapply ops_ok_sublist; [apply sublist_filter| |exact Hok].
    apply filter_other; [apply Hok|done].
Qed.

Lemma add_settled e e' : settled e → addOperation clock e = Ret e' → settled e'.
Proof.
  intros [Hok Hk]. unfold addOperation. eapply drawing_settled; [apply yields_default|]. intros o n Hle Ho.
  split; [|exact Hk]. apply (ops_ok_app (seed e) n (ops e) [o]); [done|apply Hok|done|done].
Qed.

Lemma addCondition_settled i e e' : settled e → addCondition clock i e = Ret e' → settled e'.
Proof.
  intros [Hok Hk]. unfold addCondition. eapply drawing_settled; [apply yields_condition|]. intros c n Hle Hc.
  split; [|exact Hk]. apply (ops_ok_Forall2 (seed e) n (ops e)); [done| |exact Hok].
  assert (∀ o, op_ok 0 (seed e) o → op_ok 0 n (patch_operation (Conditions (o_conditions o ++ [c])) o)) as H1.
  { intros o (Hi & Hm & Hl & Hcs). split_and!; [|done|done|].
    - eapply fresh_mono; [reflexivity| |exact Hi]. done.
    - apply (list_ok_app cond_ok c_id 0 (seed e)); [by intros ??? [? _]|apply cond_ok_mono|lia|done|].
      split; [by apply Forall_singleton|apply NoDup_singleton]. }
  destruct Hok as [_ [Hall _]].
  enough (∀ l, Forall (op_ok 0 (seed e)) l → Forall2 (λ o o', o_id o' = o_id o ∧ (op_ok 0 n o → op_ok 0 n o')) l
    (map (on_operation i (λ o, patch_operation (Conditions (o_conditions o ++ [c])) o)) l)) as H2 by exact (H2 _ Hall).
  induction 1 as [|o l Ho _ IH]; constructor; [|exact IH]. unfold on_operation. case_match; [|done]. auto.
Qed.

Lemma update_settled i f e : (∀ o, o_id (f o) = o_id o) → (∀ o, op_ok 0 (seed e) o → op_ok 0 (seed e) (f o)) →
  settled e → settled (setOperations (map (on_operation i f) (ops e)) e).
Proof. intros Hid Hf [Hok Hk]. split; [|exact Hk]. by apply (ops_ok_map (seed e)). Qed.

Lemma replaced_settled e l n k : (seed e ≤ n)%N → l ≠ [] → list_ok op_ok o_id (seed e) n l → preset_key (templatePresetKey k) →
  ∀ c a, localIdSeed a = n → operations c = l → settled {| core := c; screen := k; around := a |}.
Proof.
  intros Hle Hne Hl Hk c a Ha Hc. split; [|exact Hk]. unfold ops, seed. cbn [core around]. rewrite Ha, Hc. by eapply ops_ok_fresh.
Qed.

Lemma preset_default : preset_key (js "operations_default").
Proof. apply (bool_decide_unpack _). vm_compute. exact I. Qed.

Lemma preset_legacy : preset_key (js "legacy_default").
Proof. apply (bool_decide_unpack _). vm_compute. exact I. Qed.

Lemma open_settled value e e' : openEffect clock value e = Ret e' → settled e'.
Proof.
  unfold openEffect. eapply drawing_settled; [apply yields_initial|]. intros s n Hle [Hne Hl].
  apply (replaced_settled e (operations s) n); [done|done|done| |done|done]. cbn [templatePresetKey].
  case_match; [apply preset_legacy|apply preset_default].
Qed.

Context (t : jstr → option nat → jstr).

Lemma visual_settled e e' : settled e → switchToVisualMode clock t e = Ret e' → settled e'.
Proof.
  intros Hs. pose proof Hs as [Hok Hk]. unfold switchToVisualMode. destruct (editMode (core e)); [by intros [= <-]|].
  case_match.
  { eapply drawing_settled; [apply yields_default|]. intros o n Hle Ho.
    by apply (replaced_settled e [o] n). }
  destruct (json_parse _) as [v|]; [|by intros [= <-]]. destruct v; try by intros [= <-].
  destruct (prop "operations" (JObj o)) as [| | | | |l|]; [| | | | |eapply drawing_settled; [apply yields_read|]|];
    try (eapply drawing_settled; [apply yields_default|]; intros o' n Hle Ho;
      apply (replaced_settled e [o'] n); [done|done|done|exact preset_legacy|done|done]).
  intros next n Hle [Hne Hl]. by apply (replaced_settled e next n); [..|exact preset_default| |].
Qed.

Lemma reset_settled e e' : resetEditorState clock e = Ret e' → settled e'.
Proof.
  unfold resetEditorState. eapply drawing_settled; [apply yields_default|]. intros o n Hle Ho.
  apply (replaced_settled e [o] n); [done|done|done|exact preset_default|done|done].
Qed.

Lemma fillLegacy_settled text e e' : settled e → fillLegacy clock text e = Ret e' → settled e'.
Proof.
  intros [Hok Hk]. unfold fillLegacy. eapply drawing_settled; [apply yields_default|]. intros o n Hle Ho.
  apply (replaced_settled e [o] n); [done|done|done|exact Hk|done|done].
Qed.

(** The operations of a template: there are some, when it is of that format. *)
Definition presetOperations (p : TemplatePresetConfig) : list jsval :=
  match prop "operations" (JObj (presetPayload p)) with JArr l => l | _ => [] end.

Lemma preset_nonempty e : presetKind (selectedPreset e) = OperationsPreset → presetOperations (selectedPreset e) ≠ [].
Proof.
  unfold selectedPreset. destruct (obj_get _ _) as [p|] eqn:E; [|done]. apply obj_get_entry in E. revert p E.
  assert (Forall (λ kp, presetKind kp.2 = OperationsPreset → presetOperations kp.2 ≠ []) TEMPLATE_PRESET_CONFIG) as H
    by (repeat constructor; by vm_compute).
  rewrite Forall_forall in H. intros p Hp. exact (H _ Hp).
Qed.

Lemma mapM_nonempty l : yields (mapM (normalizeOperation clock) l) (λ lo hi l', (l ≠ [] → l' ≠ []) ∧ list_ok op_ok o_id lo hi l').
Proof.
  destruct l as [|v l]; [by eapply yields_impl; [apply yields_operations|]|].
  eapply yields_impl; [apply (yields_read (v :: l))|]. intros lo hi x _ [Hne Hl]. by split.
Qed.

Lemma fill_settled mode e e' : settled e → fillTemplate clock t mode e = Ret e' → settled e'.
Proof.
  intros Hs. pose proof Hs as [Hok Hk]. pose proof (preset_nonempty e) as Hne. unfold presetOperations in Hne.
  unfold fillTemplate. destruct (presetKind _).
  - set (payload := match prop "operations" _ with JArr l => l | _ => [] end) in *. destruct mode.
    + eapply drawing_settled; [apply yields_read|]. intros l n Hle [Hl Hl'].
      apply (replaced_settled e l n); [done|done|done|exact Hk|done|done].
    + eapply drawing_settled; [apply mapM_nonempty|]. intros l n Hle [Hl Hl']. specialize (Hl (Hne eq_refl)).
      split; [|exact Hk]. cbn zeta. change (visualMode (core (setSeed n e))) with (visualMode (core e)).
      change (ops (setSeed n e)) with (ops e). destruct (visualMode (core e)).
      * apply (ops_ok_app (seed e) n); [done| |done|done]. destruct Hok as [_ [Ho Hd]]. split.
        -- rewrite Forall_forall in *. intros o [_ Hin]%list_elem_of_filter. by apply Ho.
        -- eapply sublist_NoDup; [exact Hd|]. apply (fmap_sublist o_id), sublist_filter.
      * by apply (ops_ok_fresh (seed e) n l).
  - assert (∀ text, fillLegacy clock text e = Ret e' → settled e') as HL by (intros text; by apply fillLegacy_settled).
    destruct mode, (visualMode (core e)); cbn zeta; try apply HL.
    destruct (negb _); [apply HL|]. destruct (json_parse _); [apply HL|by intros [= <-]].
Qed.

Lemma prune_updaters_yield :
  (∀ p d, yields (mret (patch_prune p d)) (λ _ _ _, True)) ∧
  (∀ draft, yields (rule ← normalizePruneRule clock (JObj []);
     mret (patch_prune (PRSimpleMode false) (patch_prune (PRRules (pr_rules draft ++ [rule])) draft))) (λ _ _ _, True)).
Proof.
  split; intros; [by apply yields_ret|]. eapply yields_bind; [apply yields_condition|]. intros. by apply yields_ret.
Qed.

(** Handlers that touch neither the operations, nor the counter, nor the chosen template. *)
Lemma unchanged_settled e e' : operations (core e') = operations (core e) →
  localIdSeed (around e') = localIdSeed (around e) → templatePresetKey (screen e') = templatePresetKey (screen e) →
  settled e → settled e'.
Proof. unfold settled, ops, seed. by intros -> -> ->. Qed.

Lemma json_mode_settled e : settled e → settled (switchToJsonMode t e).
Proof.
  intros Hs. unfold switchToJsonMode. destruct (editMode (core e)); [|done].
  destruct (buildVisualJson t e) as [m|]; [|by apply (unchanged_settled e)].
  cbn zeta. change (visualMode (core (toast_error m e))) with (visualMode (core e)).
  destruct (visualMode (core e)); [|by apply (unchanged_settled e)].
  destruct (buildOperationsJson _ _ _); by apply (unchanged_settled e).
Qed.

Lemma drop_settled i data e : settled e → settled (handleDrop i data e).
Proof.
  intros [Hok Hk]. unfold handleDrop. cbn zeta. destruct (str_truthy _ && _ && _); [|by split].
  split; [|exact Hk]. eapply ops_ok_perm; [symmetry; apply reorder_perm|]. exact Hok.
Qed.

Lemma handle_settled ev e e' : settled e → offered ev → handle clock t ev e = Ret e' → settled e'.
Proof.
  intros Hs Hev. pose proof (proj1 prune_updaters_yield) as HP.
  destruct ev; cbn [handle offered] in *; try (intros [= <-]; by apply (unchanged_settled e)).
  - intros [= <-]. apply update_settled; [intros; apply patches_id|intros; by apply patches_ok|done].
  - by apply add_settled.
  - by apply duplicate_settled.
  - by apply remove_settled.
  - by apply addCondition_settled.
  - intros [= <-]. apply update_settled; [done| |done]. intros o. apply (conditions_ok _ (map _)).
    apply map_conditions_ok. by intros m ->.
  - intros [= <-]. apply update_settled; [done| |done]. intros o. apply (conditions_ok _ (filter _)), filter_conditions_ok.
  - intros [= <-]. unfold expandAllConditions, collapseAllConditions, expandSelected.
    destruct b, (selectedOperation e); by apply (unchanged_settled e).
  - intros [= <-]. apply update_settled; [done| |done]. intros o. by apply patch_ok.
  - apply updatePrune_settled; [intros; apply HP|done].
  - apply updatePrune_settled; [apply prune_updaters_yield|done].
  - apply updatePrune_settled; [intros; apply HP|done].
  - apply updatePrune_settled; [intros; apply HP|done].
  - intros [= <-]. unfold handleDragOver. destruct (_ || _); by apply (unchanged_settled e).
  - intros [= <-]. by apply drop_settled.
  - intros [= <-]. by apply json_mode_settled.
  - by apply visual_settled.
  - intros [= <-]. split; [apply Hs|]. destruct v; [exact preset_default|exact Hev].
  - by apply fill_settled.
  - by apply reset_settled.
  - intros [= <-]. unfold handleJsonChange. cbn zeta. destruct (negb _); by apply (unchanged_settled e).
  - intros [= <-]. unfold formatJson. destruct (negb _); [done|]. destruct (json_parse _); by apply (unchanged_settled e).
  - intros [= <-]. unfold handleSave. destruct (saveText t e); by apply (unchanged_settled e).
Qed.

Lemma mounted_settled e : mounted clock = Ret e → wf e.
Proof.
  unfold mounted. destruct (createDefaultOperation clock 0%N) as [[o n]|] eqn:E; [|done]. intros [= <-].
  apply keepSelection_wf. apply yields_default in E as [Hle Ho]. split; [|exact preset_default].
  by apply (ops_ok_fresh 0 n [o]).
Qed.

Lemma step_wf e e' : wf e → step clock t e e' → wf e'.
Proof.
  intros [Hs Hsel] Hstep. destruct Hstep as [value e e' _ H|ev e e' _ Hev H|n e Hle].
  - change (wf (keepSelection e')). apply keepSelection_wf. by eapply open_settled.
  - apply keepSelection_wf. by eapply handle_settled.
  - split; [|exact Hsel]. destruct Hs as [Hok Hk]. split; [|exact Hk]. by eapply ops_ok_mono.
Qed.

(** ** What throws *)

(** [m] returns, whatever the counter, or always throws. *)
Definition decided {A} (m : gen A) (b : bool) : Prop :=
  ∀ n, if b then ∃ x n', m n = Ret (x, n') else m n = Throw.

Lemma decided_ret {A} (x : A) : decided (mret x) true.
Proof. intros n. by exists x, n. Qed.

Lemma decided_throw {A} : decided (gen_throw (A := A)) false.
Proof. done. Qed.

Lemma decided_bind {A B} (m : gen A) (f : A → gen B) b c :
  decided m b → (∀ x, decided (f x) c) → decided (m ≫= f) (b && c).
Proof.
  intros Hm Hf n. specialize (Hm n). unfold mbind, gen_bind. destruct b; [|by rewrite Hm].
  destruct Hm as (x & n' & ->). apply (Hf x n').
Qed.

Lemma decided_mapM {A B} (f : A → gen B) g l : (∀ x, decided (f x) (g x)) → decided (mapM f l) (forallb g l).
Proof.
  intros Hf. induction l as [|x l IH]; cbn [mapM forallb]; [apply decided_ret|]. apply decided_bind; [done|]. intros y.
  rewrite <- (andb_true_r (forallb g l)). apply decided_bind; [done|]. intros ys. apply decided_ret.
Qed.

Lemma decided_id : decided (nextLocalId clock) true.
Proof. intros n. by eexists _, _. Qed.

Lemma decided_condition v : decided (normalizeCondition clock v) (negb (is_nullish v)).
Proof. apply (decided_bind _ _ true); [apply decided_id|]. intros i. by destruct (is_nullish v); [|apply decided_ret]. Qed.

(** Reading an operation fails when it, or one of its conditions, is null. *)
Definition readable (v : jsval) : bool :=
  negb (is_nullish v) && match prop "conditions" v with JArr l => forallb (λ c, negb (is_nullish c)) l | _ => true end.

Lemma decided_operation v : decided (normalizeOperation clock v) (readable v).
Proof.
  apply (decided_bind _ _ true); [apply decided_id|]. intros i. unfold readable.
  destruct (is_nullish v); [apply decided_throw|]. cbn [negb andb].
  match goal with |- decided _ ?b => rewrite <- (andb_true_r b) end.
  apply decided_bind; [|intros; apply decided_ret]. destruct (prop "conditions" v); try apply decided_ret.
  apply decided_mapM, decided_condition.
Qed.

Lemma decided_default : decided (createDefaultOperation clock) true.
Proof. apply decided_operation. Qed.

Lemma decided_read l : decided (readOperations clock l) (forallb readable l).
Proof.
  destruct l as [|v l]; [|apply decided_mapM, decided_operation].
  apply (decided_bind _ _ true); [apply decided_default|]. intros o. apply decided_ret.
Qed.

Lemma decided_prune s : decided (parsePruneObjectsDraft clock s) true.
Proof.
  assert (∀ o, decided (mappingRules clock o) true) as HM.
  { intros o. unfold mappingRules. eapply eq_rect; [apply (decided_mapM _ (λ _, true)); intros; apply decided_condition|].
    by induction (own_entries o). }
  unfold parsePruneObjectsDraft. destruct (negb _); [apply decided_ret|].
  destruct (json_parse (trim s)) as [v|]; [|apply decided_ret]. destruct v; try apply decided_ret.
  apply (decided_bind _ _ true); [destruct (prop "where" (JObj o)); try apply decided_ret; apply HM|]. intros w.
  apply (decided_bind _ _ true); [destruct (prop "conditions" (JObj o)); try apply decided_ret; [|apply HM]|intros; apply decided_ret].
  eapply eq_rect; [apply (decided_mapM _ (λ v, negb (is_nullish v))); intros; apply decided_condition|].
  apply forallb_forall. intros v [Hv _]%list_elem_of_In%list_elem_of_filter. by destruct v.
Qed.

Lemma drawing_total {A} (m : gen A) k e : decided m true → ∃ e', drawing m k e = Ret e'.
Proof. intros H. destruct (H (seed e)) as (x & n & E). unfold drawing. rewrite E. by eexists. Qed.

Lemma updatePrune_total i updater e : (∀ d, decided (updater d) true) → ∃ e', updatePruneObjectsDraft clock i updater e = Ret e'.
Proof.
  intros Hu. apply drawing_total. eapply eq_rect; [apply (decided_mapM _ (λ _, true))|by induction (ops e)].
  intros o. destruct (has_id i o); [|apply decided_ret]. apply (decided_bind _ _ true); [apply decided_prune|]. intros d.
  apply (decided_bind _ _ true); [apply Hu|]. intros d'. apply decided_ret.
Qed.

Lemma copy_readable o : readable (operationCopy o) = true.
Proof. unfold readable. cbn. by induction (o_conditions o). Qed.

Lemma preset_readable e : forallb readable (presetOperations (selectedPreset e)) = true.
Proof.
  unfold selectedPreset. destruct (obj_get _ _) as [p|] eqn:E; [|by vm_compute]. apply obj_get_entry in E. revert p E.
  assert (Forall (λ kp, forallb readable (presetOperations kp.2) = true) TEMPLATE_PRESET_CONFIG) as H
    by (repeat constructor; by vm_compute).
  rewrite Forall_forall in H. intros p Hp. exact (H _ Hp).
Qed.

Lemma fill_total mode e : ∃ e', fillTemplate clock t mode e = Ret e'.
Proof.
  pose proof (preset_readable e) as HR. unfold presetOperations in HR. unfold fillTemplate. destruct (presetKind _).
  - set (payload := match prop "operations" _ with JArr l => l | _ => [] end) in *. destruct mode; apply drawing_total.
    + rewrite <- HR. apply decided_read.
    + rewrite <- HR. apply decided_mapM, decided_operation.
  - assert (∀ text, ∃ e', fillLegacy clock text e = Ret e') as HL by (intros; apply drawing_total, decided_default).
    destruct mode, (visualMode (core e)); cbn zeta; try apply HL.
    destruct (negb _); [apply HL|]. destruct (json_parse _); [apply HL|by eexists].
Qed.

Lemma drawing_throws {A} (m : gen A) k e b : decided m b → drawing m k e = Throw ↔ b = false.
Proof.
  intros H. specialize (H (seed e)). unfold drawing. destruct b; [|by rewrite H].
  destruct H as (x & n & ->). by split.
Qed.

Lemma visual_throws e : switchToVisualMode clock t e = Throw ↔
  editMode (core e) = JsonEdit ∧
  ∃ o l, json_parse (trim (jsonText (core e))) = Some (JObj o) ∧ prop "operations" (JObj o) = JArr l ∧ forallb readable l = false.
Proof.
  unfold switchToVisualMode. destruct (editMode (core e)); [split; [done|by intros [? _]]|].
  destruct (trim (jsonText (core e))) as [|c s] eqn:Es; cbn [str_truthy negb].
  { rewrite (drawing_throws _ _ _ _ decided_default). split; [done|]. by intros (_ & o & l & ? & _). }
  destruct (json_parse (c :: s)) as [v|]; [|split; [done|]; by intros (_ & o & l & ? & _)].
  destruct v as [| | | | | |o]; try (split; [done|]; by intros (_ & o' & l' & ? & _)).
  destruct (prop "operations" (JObj o)) eqn:Ep;
    try (rewrite (drawing_throws _ _ _ _ decided_default); split; [done|]; intros (_ & o' & l & [= <-] & Hl & _); by rewrite Ep in Hl).
  rewrite (drawing_throws _ _ _ _ (decided_read l)). split; [by eauto 10|].
  intros (_ & o' & l' & [= <-] & Hl & Hf). rewrite Ep in Hl. injection Hl as <-. done.
Qed.

(** Whatever the state, no handler of the dialog throws, but the switch from
    the JSON text to the visual editor; that one throws exactly when the text
    is an object whose operations include null or have a null condition. *)
Theorem handlers_throw (ev : Event) (e : Editor) :
  handle clock t ev e = Throw ↔
  ev = EVisualMode ∧ editMode (core e) = JsonEdit ∧
  ∃ o l, json_parse (trim (jsonText (core e))) = Some (JObj o) ∧ prop "operations" (JObj o) = JArr l ∧ forallb readable l = false.
Proof.
  assert (∀ m, (∃ e', handle clock t ev e = Ret e') → ev ≠ EVisualMode → handle clock t ev e = Throw ↔ ev = EVisualMode ∧ m) as HR.
  { intros m [e' ->] Hne. split; [done|]. by intros [? _]. }
  destruct ev; try (apply HR; [|done]; cbn [handle]; by eexists).
  - apply HR; [|done]. cbn [handle]. unfold duplicateOperation. destruct (find_index _ _); [|by eexists].
    destruct (ops e !! n); [|by eexists]. apply drawing_total. rewrite <- (copy_readable p). apply decided_operation.
  - apply HR; [|done]. cbn [handle]. unfold removeOperation. destruct (_ <=? _); [|by eexists]. apply drawing_total, decided_default.
  - apply HR; [|done]. apply updatePrune_total. intros. apply decided_ret.
  - apply HR; [|done]. apply updatePrune_total. intros d. apply (decided_bind _ _ true); [apply decided_condition|].
    intros. apply decided_ret.
  - apply HR; [|done]. apply updatePrune_total. intros. apply decided_ret.
  - apply HR; [|done]. apply updatePrune_total. intros. apply decided_ret.
  - cbn [handle]. rewrite visual_throws. clear HR. split; [by split|by intros [_ ?]].
  - apply HR; [|done]. apply fill_total.
Qed.

(** C6. In every state the dialog can reach, there is at least one operation, the
    identifiers of the operations differ and were drawn from the counter, every
    operation has a listed mode and connective, every condition a listed mode
    and an identifier of its own, the operation that is shown exists, and the
    chosen template is a listed one. *)
Theorem reachable_well_formed e : reachable clock t e → wf e.
Proof. induction 1 as [e H|e e' _ IH H]; [by apply mounted_settled|by eapply step_wf]. Qed.

Lemma default_blank n : ∃ o n', createDefaultOperation clock n = Ret (o, n') ∧ isOperationBlank o = true.
Proof.
  unfold createDefaultOperation, normalizeOperation, mbind, gen_bind, nextLocalId. generalize (localId n), (n + 1)%N.
  intros i m. eexists _, _. split; [vm_compute; reflexivity|vm_compute; reflexivity].
Qed.

(** From every state in which the dialog is open it can be left by saving:
    after a reset the saving succeeds, whatever was typed before; it stores the
    empty text and closes the dialog. *)
Theorem can_always_save (e : Editor) : isOpen (around e) = true →
  ∃ e1 e2, step clock t e e1 ∧ step clock t e1 e2 ∧ isOpen (around e2) = false ∧ saved (around e2) = saved (around e) ++ [[]].
Proof.
  intros Ho. assert (∃ e1, resetEditorState clock e = Ret e1) as [e1 E1] by apply drawing_total, decided_default.
  pose proof (step_event clock t EReset e e1 Ho I E1) as H1.
  assert (visualMode (core e1) = OperationsMode ∧ editMode (core e1) = VisualEdit ∧ around e1 = around (setSeed (seed e1) e) ∧
    ∃ o, ops e1 = [o] ∧ isOperationBlank o = true) as (HV & HE & HA & o & Hops & Hb).
  { revert E1. unfold resetEditorState, drawing. destruct (default_blank (seed e)) as (o & n & -> & Hb). intros [= <-].
    split_and!; [reflexivity|reflexivity|reflexivity|]. by exists o. }
  exists (keepSelection e1), (keepSelection (handleSave t (keepSelection e1))).
  assert (∀ e', core (keepSelection e') = core e' ∧ around (keepSelection e') = around e') as Hk.
  { intros e'. unfold keepSelection. destruct (ops e'); [done|]. by destruct (existsb _ _). }
  destruct (Hk e1) as [Hc Ha].
  assert (handleSave t (keepSelection e1) = onOpenChange false (onSave [] (keepSelection e1))) as Hsave.
  { unfold handleSave, saveText, buildVisualJson, ops. rewrite Hc, HE, HV. unfold ops in Hops. rewrite Hops.
    unfold buildOperationsJson. rewrite filter_cons_False by (by rewrite Hb). done. }
  split; [done|]. split; [apply (step_event clock t ESave); [by rewrite Ha, HA|done|done]|].
  rewrite Hsave, (proj2 (Hk _)). cbn. by rewrite Ha, HA.
Qed.
End Invariant.

(** ** Witnesses *)

Definition fixed_clock : N → num := λ _, of_Z 1700000000000.
Definition untranslated : jstr → option nat → jstr := λ key _, key.

(** Opened on a text with one operation, to which another one is added. *)
Definition opened_text : jstr := quoted "{'operations':[{'mode':'delete','path':'top_k','conditions':[{'path':'model'}]}]}".

Lemma two_operations : ∃ e, reachable fixed_clock untranslated e ∧ isOpen (around e) = true ∧ length (ops e) = 2.
Proof.
  eexists. split; [|split].
  - eapply reachable_step; [eapply reachable_step; [apply reachable_mounted; vm_compute; reflexivity|]|].
    + eapply (step_open _ _ opened_text); [reflexivity|vm_compute; reflexivity].
    + eapply (step_event _ _ EAddOperation); [reflexivity|exact I|vm_compute; reflexivity].
  - reflexivity.
  - reflexivity.
Defined.

Lemma reachable_well_formed_witness : ∃ e, length (ops e) = 2 ∧ wf fixed_clock e.
Proof.
  destruct two_operations as (e & Hr & _ & Hl). exists e. split; [exact Hl|].
  exact (reachable_well_formed fixed_clock untranslated e Hr).
Defined.

Lemma can_always_save_witness : ∃ e, isOpen (around e) = true ∧
  ∃ e1 e2, step fixed_clock untranslated e e1 ∧ step fixed_clock untranslated e1 e2 ∧ isOpen (around e2) = false ∧
    saved (around e2) = saved (around e) ++ [[]].
Proof.
  destruct two_operations as (e & _ & Ho & _). exists e. split; [exact Ho|].
  exact (can_always_save fixed_clock untranslated e Ho).
Defined.

Definition plain_operation (i : string) : ParamOverrideOperation :=
  {| o_id := js_of_string i; o_description := []; o_path := js "model"; o_mode := js "delete"; o_from := []; o_to := [];
     o_value_text := []; o_keep_origin := false; o_logic := js "OR"; o_conditions := [] |}.

Lemma reorder_moves_witness : ∃ l1 l2,
  filter (λ o, o_id o ≠ js "a") (map plain_operation ["a"; "b"; "c"]%string) = l1 ++ plain_operation "c" :: l2 ∧
  reorderOperations (map plain_operation ["a"; "b"; "c"]%string) (js "a") (js "c") After
    = l1 ++ [plain_operation "c"; plain_operation "a"] ++ l2.
Proof.
  apply (reorder_moves (map plain_operation ["a"; "b"; "c"]%string) (plain_operation "a") (plain_operation "c") After).
  - apply (bool_decide_unpack _). vm_compute. exact I.
  - apply list_elem_of_here.
  - apply list_elem_of_further, list_elem_of_further, list_elem_of_here.
  - discriminate.
  - discriminate.
  - discriminate.
Defined.
