(* ===== verification/ParamRoundtrip.v ===== *)
(** * Parameter override editor: what is saved is read back

    Saving valid operations, opening the editor on the saved text and saving
    again gives the same text, unless a value is written as a quoted JSON
    string: its quotes are lost when it is read back. *)

From S2P Require Import Prelude JsNumber JsNumberFacts JsString JsValue JsonFacts JsonRoundtrip ParamOverride ParamEditor.
From S2P Require Import ParamInvariant.

Open Scope nat_scope.

(** ** Texts without space at their ends *)

Lemma span_parts {A} (f : A → bool) s : s = (span f s).1 ++ (span f s).2 ∧ Forall (λ c, f c = true) (span f s).1.
Proof.
  induction s as [|c s [IH1 IH2]]; [by split|]. cbn [span]. destruct (f c) eqn:E; [|by split].
  destruct (span f s) as [a b]. cbn [fst snd app] in *. split; [by f_equal|by constructor].
Qed.

Lemma digit_no_space c : is_digit c = true → is_space c = false.
Proof. unfold is_digit, is_space. intros. repeat (apply orb_false_iff; split); lia. Qed.

Lemma span_digits_no_space s : Forall (λ c, is_space c = false) (span is_digit s).1.
Proof. eapply Forall_impl; [apply span_parts|]. intros c. apply digit_no_space. Qed.

Lemma eat_Some c s r : eat c s = Some r → s = c :: r.
Proof. unfold eat. destruct s as [|d s]; [done|]. destruct (d =? c)%N eqn:E; [|done]. intros [= ->]. f_equal. lia. Qed.

Lemma scan_sign_parts s g r : scan_sign s = (g, r) → s = r ∨ ∃ x, (x = 43%N ∨ x = 45%N) ∧ s = x :: r.
Proof. unfold scan_sign. repeat case_match; intros [= <- <-]; eauto. Qed.

Lemma exponent_no_space neg m e s v : parse_exponent neg m e s = Some (v, []) → Forall (λ c, is_space c = false) s.
Proof.
  unfold parse_exponent. destruct s as [|c s]; [done|]. destruct (_ || _) eqn:Ec; [|done].
  destruct (scan_sign s) as [g r] eqn:Eg. pose proof (span_parts is_digit r) as [Hr _]. pose proof (span_digits_no_space r) as Hn.
  destruct (span is_digit r) as [[|d ds] r'] eqn:Es; [done|]. intros [= _ ->]. cbn [fst snd] in *. rewrite app_nil_r in Hr.
  rewrite <- Hr in Hn. clear Hr Es.
  assert (is_space c = false) as Hc by (unfold is_space; repeat (apply orb_false_iff; split); lia).
  constructor; [done|]. destruct (scan_sign_parts _ _ _ Eg) as [->|(x & [-> | ->] & ->)]; [done|by constructor|by constructor].
Qed.

Lemma json_number_no_space s v : parse_json_number s = Some (v, []) → Forall (λ c, is_space c = false) s.
Proof.
  unfold parse_json_number. intros H.
  destruct (match eat 45 s with Some t => (true, t) | None => (false, s) end) as [neg u] eqn:Eu.
  assert (Forall (λ c, is_space c = false) u → Forall (λ c, is_space c = false) s) as Hs.
  { destruct (eat 45 s) as [r|] eqn:E; injection Eu as _ <-; [|done]. apply eat_Some in E as ->. by constructor. }
  apply Hs. clear Hs Eu. pose proof (span_parts is_digit u) as [Hu _]. pose proof (span_digits_no_space u) as Hn.
  destruct (span is_digit u) as [int r]. cbn [fst snd] in *. subst u. case_match; [|done]. apply Forall_app. split; [done|].
  destruct (eat 46 r) as [r'|] eqn:E; [|by eapply exponent_no_space]. apply eat_Some in E as ->. constructor; [done|].
  pose proof (span_parts is_digit r') as [Hr' _]. pose proof (span_digits_no_space r') as Hn'.
  destruct (span is_digit r') as [[|d ds] r'']; [done|]. cbn [fst snd] in *. subst r'. apply Forall_app. split; [done|].
  by eapply exponent_no_space.
Qed.

Lemma bracketed_trimmed gap d l r items : is_space l = false → is_space r = false → trimmed (bracketed gap d l r items).
Proof.
  intros Hl Hr. assert (∃ b, bracketed gap d l r items = l :: b ++ [r]) as [b ->].
  { unfold bracketed. destruct items; [by exists []|]. eexists. rewrite app_comm_cons, ?app_assoc. reflexivity. }
  split; [by intros c u [= -> _]|]. intros c u E. rewrite app_comm_cons in E. by apply app_inj_tail in E as [_ <-].
Qed.

Lemma printed_trimmed gap v : (∀ s, v ≠ JStr s) → expressible v → trimmed (default (js "undefined") (stringify gap 0 v)).
Proof.
  destruct v as [| |b|x|s|l|o]; intros Hs Hv; cbn [stringify default]; try by apply bracketed_trimmed.
  - done.
  - apply trimmed_no_space. repeat constructor.
  - apply trimmed_no_space. destruct b; repeat constructor.
  - destruct Hv as [-> Hx]. apply trimmed_no_space. by eapply json_number_no_space.
  - by destruct (Hs s).
Qed.

(** ** Values *)

(** A text that is no quoted JSON string, and whose numbers print exactly. *)
Definition plain_value (s : jstr) : Prop :=
  utf16_ok s ∧ match json_parse (trim s) with Some (JStr _) => False | Some v => expressible v | None => True end.

Lemma trim_utf16 s : utf16_ok s → utf16_ok (trim s).
Proof.
  unfold utf16_ok. rewrite !Forall_forall. intros H c Hc. apply H. revert Hc. unfold trim, trim_end, trim_start.
  destruct (drop_while_suffix is_space s) as (p & Hp & _). destruct (drop_while_suffix is_space (rev (drop_while is_space s))) as (q & Hq & _).
  intros Hc. rewrite Hp. apply elem_of_app. right. rewrite <- (rev_involutive (drop_while is_space s)), Hq.
  rewrite rev_app_distr. apply elem_of_app. by left.
Qed.

Lemma loose_expressible s : plain_value s → expressible (parseLooseValue s).
Proof.
  intros [Hu H]. unfold parseLooseValue. destruct (str_eqb _ _); [apply Forall_nil_2|]. destruct (json_parse (trim s)) as [v|].
  - by destruct v.
  - by apply trim_utf16.
Qed.

(** The text that is shown for the value of a plain text stands for the same
    value, and is empty only for an empty text. *)
Lemma loose_again s : plain_value s →
  parseLooseValue (toValueText (parseLooseValue s)) = parseLooseValue s ∧
  (trim (toValueText (parseLooseValue s)) = [] ↔ trim s = []).
Proof.
  intros Hp. pose proof (loose_expressible s Hp) as He. destruct Hp as [Hu H]. unfold parseLooseValue in *.
  destruct (str_eqb (trim s) []) eqn:E0; [apply str_eqb_eq in E0; rewrite E0; split; [reflexivity|split; reflexivity]|].
  destruct (json_parse (trim s)) as [v|] eqn:Ev.
  - assert (toValueText v = json_stringify v) as -> by by destruct v.
    assert (∀ u, v ≠ JStr u) as Hns by (by intros u ->).
    pose proof (trim_id _ (printed_trimmed false v Hns He)) as Ht. fold (json_stringify v) in Ht. rewrite Ht.
    destruct (json_roundtrip v He) as [Hr _]. assert (json_stringify v ≠ []) as Hne by (intros E; by rewrite E in Hr).
    destruct (str_eqb (json_stringify v) []) eqn:E; [by apply str_eqb_eq in E|]. rewrite Hr. split; [reflexivity|].
    split; intros E'; [by destruct Hne|]. by rewrite E' in E0.
  - cbn [toValueText]. by rewrite trim_idemp, E0, Ev.
Qed.

(** ** Properties of a payload *)

Lemma prop_set_if k b k' v o :
  prop k (JObj (set_if b k' v o)) = if b && str_eqb (js_of_string k) (js_of_string k') then v else prop k (JObj o).
Proof.
  unfold set_if, prop. destruct b; [|done]. cbn [andb]. rewrite obj_get_set. by destruct (str_eqb _ _).
Qed.

Lemma prop_cons k k' v o :
  prop k (JObj (entry k' v :: o)) = if str_eqb (js_of_string k) (js_of_string k') then v else prop k (JObj o).
Proof. unfold prop, entry. cbn [obj_get]. by destruct (str_eqb _ _). Qed.

Ltac read_props := rewrite ?prop_set_if, ?prop_cons; eval_names; cbv iota.

(** Names that are no array indices, and differ, are enumerated in order. *)
Definition named (o : obj jsval) : Prop :=
  NoDup (map fst o) ∧ Forall (λ kv, array_index kv.1 = None ∧ utf16_ok kv.1 ∧ expressible kv.2) o.

Lemma named_expressible o : named o → expressible (JObj o).
Proof.
  intros [Hd Ho]. apply expressible_obj. split_and!; [|done|by eapply Forall_impl; [exact Ho|]; intros kv (_ & ? & ?)].
  apply own_entries_names, Forall_map. eapply Forall_impl; [exact Ho|]. by intros kv [E _].
Qed.

Definition name_ok (k : string) : bool :=
  bool_decide (array_index (js_of_string k) = None) && bool_decide (utf16_ok (js_of_string k)).

Lemma named_set k v o : name_ok k = true → expressible v → named o → named (obj_set (js_of_string k) v o).
Proof.
  intros [Hk%bool_decide_eq_true Hu%bool_decide_eq_true]%andb_prop Hv [Hd Ho].
  induction o as [|[k' v'] o IH]; cbn [obj_set].
  - split; [apply NoDup_singleton|by apply Forall_singleton].
  - inversion Ho as [|? ? H1 H2]; subst. inversion Hd as [|? ? H3 H4]; subst. destruct (str_eqb _ _) eqn:E.
    + apply str_eqb_eq in E as <-. split; [done|]. by constructor.
    + destruct (IH H4 H2) as [IH1 IH2]. split; [|by constructor]. cbn [map fst]. constructor; [|done].
      intros Hin. apply H3. revert Hin. clear -E. induction o as [|[k2 v2] o IH]; cbn [obj_set map fst].
      * intros ->%list_elem_of_singleton. by rewrite str_eqb_refl in E.
      * destruct (str_eqb _ k2) eqn:E2; cbn [map fst]; [done|]. intros [->|H]%elem_of_cons; [left|right; auto].
Qed.

Lemma named_set_if b k v o : name_ok k = true → (b = true → expressible v) → named o → named (set_if b k v o).
Proof. intros Hk Hv Ho. destruct b; [|done]. apply named_set; auto. Qed.

Lemma named_nil : named [].
Proof. split; [apply NoDup_nil_2|done]. Qed.

(** ** Conditions *)

Definition condition_savable (c : ParamOverrideCondition) : Prop :=
  c_mode c ∈ CONDITION_MODE_VALUES ∧ utf16_ok (c_path c) ∧ plain_value (c_value_text c).

Lemma listed_utf16 (l : list (jstr * jstr)) s : bool_decide (Forall utf16_ok (map snd l)) = true → s ∈ map snd l → utf16_ok s.
Proof. intros H%bool_decide_eq_true Hs. rewrite Forall_forall in H. by apply H. Qed.

Lemma listed_nonempty (l : list (jstr * jstr)) s d : bool_decide (Forall is_nonempty (map snd l)) = true → s ∈ map snd l → str_or s d = s.
Proof. intros H%bool_decide_eq_true Hs. rewrite Forall_forall in H. specialize (H s Hs). by destruct s. Qed.

Lemma set_if_ext b b' k v v' o o' : b = b' → (b = true → v = v') → o = o' → set_if b k v o = set_if b' k v' o'.
Proof. intros <- Hv <-. destruct b; [|done]. cbn. by rewrite Hv. Qed.

(** ** The payload of an operation as one chain of assignments *)

(** Facts of the table of modes. *)
Lemma mode_table m : m ∈ OPERATION_MODE_VALUES → let k := metaOf m in
  (has k MpathAlias = true → has k Mfrom = true ∧ has k Mto = true ∧ has k Mpath = false ∧ has k MpathOptional = false) ∧
  (m ∈ FROM_REQUIRED_MODES → has k Mfrom = true) ∧ (m ∈ TO_REQUIRED_MODES → has k Mto = true) ∧
  (m ∈ VALUE_REQUIRED_MODES → has k Mvalue = true) ∧ (m = js "set" → has k Mpath = true) ∧
  (m = js "return_error" ∨ m = js "pass_headers" → has k Mvalue = true) ∧ str_or m (js "set") = m ∧ utf16_ok m.
Proof. cbv zeta. revert m. apply Forall_forall. apply (bool_decide_unpack _). vm_compute. exact I. Qed.

(** The assignments of [operationPayload] when the fallback of the header modes
    is applied to the endpoints beforehand. *)
Definition chain (mode description path : jstr) (value : jsval) (keep : bool) (from to : jstr) (conditions : list jsval)
    (logic : jstr) : obj jsval :=
  let m := metaOf mode in
  set_if (bool_decide (conditions ≠ [])) "logic" (JStr logic)
    (set_if (bool_decide (conditions ≠ [])) "conditions" (JArr conditions)
      (set_if (has m Mto) "to" (JStr to)
        (set_if (negb (has m Mto) && str_truthy to) "to" (JStr to)
          (set_if (has m Mfrom) "from" (JStr from)
            (set_if (has m MkeepOrigin && keep) "keep_origin" (JBool true)
              (set_if (has m Mvalue) "value" value
                (set_if (has m MpathOptional && str_truthy path) "path" (JStr path)
                  (set_if (has m Mpath) "path" (JStr path)
                    (set_if (str_truthy description) "description" (JStr description) [entry "mode" (JStr mode)]))))))))).

(** An endpoint, or the path where it stands for an empty one. *)
Definition endpoint (o : ParamOverrideOperation) (s : jstr) : jstr :=
  if has (metaOf (o_mode o)) MpathAlias && negb (str_truthy (trim s)) && str_truthy (trim (o_path o))
  then trim (o_path o) else trim s.

Lemma endpoint_trimmed o s : trim (endpoint o s) = endpoint o s.
Proof. unfold endpoint. case_match; apply trim_idemp. Qed.

Lemma obj_set_below {V} k k' (v w u : V) o : k ≠ k' →
  obj_set k v (obj_set k' w (obj_set k u o)) = obj_set k' w (obj_set k v o).
Proof.
  intros Hne. assert (str_eqb k k' = false) as N1 by by apply bool_decide_eq_false.
  assert (str_eqb k' k = false) as N2 by by apply bool_decide_eq_false.
  induction o as [|[j x] o IH]; cbn [obj_set].
  - rewrite N2. cbn [obj_set]. by rewrite str_eqb_refl.
  - destruct (str_eqb k j) eqn:E; cbn [obj_set].
    + pose proof (proj1 (str_eqb_eq _ _) E) as <-. rewrite N2. cbn [obj_set]. by rewrite str_eqb_refl.
    + destruct (str_eqb k' j) eqn:E'; cbn [obj_set]; rewrite E; [by rewrite obj_set_twice|by rewrite IH].
Qed.

Lemma truthy_str s : truthy (JStr s) = str_truthy s.
Proof. by destruct s. Qed.

Lemma payload_chain o : o_mode o ∈ OPERATION_MODE_VALUES →
  operationPayload o = chain (o_mode o) (trim (o_description o)) (trim (o_path o)) (parseLooseValue (o_value_text o))
    (o_keep_origin o) (endpoint o (o_from o)) (endpoint o (o_to o)) (map JObj (omap buildConditionPayload (o_conditions o)))
    (if str_eqb (o_logic o) (js "AND") then js "AND" else js "OR").
Proof.
  intros Hm. destruct (mode_table _ Hm) as (Ha & _ & _ & _ & _ & _ & Hor & _). unfold operationPayload. rewrite Hor. cbv zeta.
  unfold chain, endpoint. destruct (has (metaOf (o_mode o)) MpathAlias) eqn:EA; [|reflexivity].
  destruct (Ha eq_refl) as (-> & -> & -> & ->). cbn [negb andb]. do 2 (apply set_if_ext; [done|done|]).
  set (base := set_if (has _ _ && _) _ _ _). rewrite !prop_set_if. eval_names. cbv iota. rewrite !truthy_str.
  change (set_if false ?k ?v ?o) with o.
  destruct (str_truthy (trim (o_path o))); rewrite ?andb_false_r, ?andb_true_r; [|reflexivity].
  destruct (str_truthy (trim (o_from o))), (str_truthy (trim (o_to o))); cbn [negb]; unfold set_if;
    rewrite ?obj_set_twice, ?obj_set_below by (by vm_compute); try reflexivity.
Qed.

Section Reopening.
Context (clock : N → num).
Context (t : jstr → option nat → jstr).

Lemma bind_run {A B} (m : gen A) (f : A → gen B) n x n' : m n = Ret (x, n') → (m ≫= f) n = f x n'.
Proof. unfold mbind, gen_bind. by intros ->. Qed.

Lemma string_prop_str k v s : prop k v = JStr s → string_prop k v = s.
Proof. unfold string_prop. by intros ->. Qed.

Lemma mode_prop_str modes d v s : prop "mode" v = JStr s → s ∈ modes → mode_prop modes d v = s.
Proof. unfold mode_prop. intros -> Hs. by rewrite bool_decide_eq_true_2. Qed.

Lemma true_prop_if k v (b : bool) : prop k v = (if b then JBool true else JUndef) → true_prop k v = b.
Proof. unfold true_prop. intros ->. by destruct b. Qed.

Lemma condition_again c p n : condition_savable c → buildConditionPayload c = Some p →
  named p ∧ ∃ c', normalizeCondition clock (JObj p) n = Ret (c', (n + 1)%N) ∧ buildConditionPayload c' = Some p.
Proof.
  intros (Hm & Hu & Hp). unfold buildConditionPayload. destruct (str_truthy (trim (c_path c))) eqn:Et; [|done].
  cbn [negb]. intros [= <-]. rewrite (listed_nonempty CONDITION_MODE_OPTIONS) by (done || by vm_compute).
  set (o := [_; _; _]). split.
  - repeat (apply named_set_if; [by vm_compute|done|]).
    change o with (set_if true "value" (parseLooseValue (c_value_text c))
      (set_if true "mode" (JStr (c_mode c)) (set_if true "path" (JStr (trim (c_path c))) []))).
    repeat (apply named_set_if; [by vm_compute|intros _|]); [by apply loose_expressible| |by apply trim_utf16|apply named_nil].
    by apply (listed_utf16 CONDITION_MODE_OPTIONS); [by vm_compute|].
  - eexists. split; [reflexivity|]. cbn [c_path c_mode c_value_text c_invert c_pass_missing_key].
    rewrite (string_prop_str _ _ (trim (c_path c))) by (unfold o; by read_props).
    rewrite trim_idemp, Et. cbn [negb].
    rewrite (mode_prop_str _ _ _ (c_mode c)) by (done || (unfold o; by read_props)).
    rewrite (listed_nonempty CONDITION_MODE_OPTIONS) by (done || by vm_compute).
    rewrite (true_prop_if "invert" _ (c_invert c)) by (unfold o; by read_props).
    rewrite (true_prop_if "pass_missing_key" _ (c_pass_missing_key c)) by (unfold o; by read_props).
    assert (∀ w, w = parseLooseValue (c_value_text c) → parseLooseValue (toValueText w) = parseLooseValue (c_value_text c)) as Hw.
    { intros w ->. by apply loose_again. }
    rewrite Hw by (unfold o; by read_props). reflexivity.
Qed.

Lemma conditions_again cs n : Forall condition_savable cs →
  Forall named (omap buildConditionPayload cs) ∧
  ∃ cs' n', mapM (normalizeCondition clock) (map JObj (omap buildConditionPayload cs)) n = Ret (cs', n') ∧
    omap buildConditionPayload cs' = omap buildConditionPayload cs.
Proof.
  intros H. revert n. induction H as [|c cs Hc _ IH]; intros n; [split; [done|]; by exists [], n|].
  change (omap buildConditionPayload (c :: cs)) with
    (match buildConditionPayload c with Some p => p :: omap buildConditionPayload cs | None => omap buildConditionPayload cs end).
  destruct (buildConditionPayload c) as [p|] eqn:Ep; [|apply IH].
  destruct (condition_again c p n Hc Ep) as [Hp (c' & E1 & E2)]. destruct (IH (n + 1)%N) as [HF (cs' & n' & E3 & E4)].
  split; [by constructor|]. exists (c' :: cs'), n'. split; [|cbn; by rewrite E2, E4].
  cbn [map mapM]. by rewrite (bind_run _ _ _ _ _ E1), (bind_run _ _ _ _ _ E3).
Qed.

(** ** Operations *)

Definition operation_savable (o : ParamOverrideOperation) : Prop :=
  o_mode o ∈ OPERATION_MODE_VALUES ∧ Forall utf16_ok [o_description o; o_path o; o_from o; o_to o] ∧
  (has (metaOf (o_mode o)) Mvalue = true → plain_value (o_value_text o)) ∧ Forall condition_savable (o_conditions o).

(** The operation that is read back, but for its identifiers. *)
Definition read_back (o : ParamOverrideOperation) (i : jstr) (cs : list ParamOverrideCondition) : ParamOverrideOperation :=
  let m := metaOf (o_mode o) in
  {| o_id := i;
     o_description := trim (o_description o);
     o_path := if has m Mpath || has m MpathOptional then trim (o_path o) else [];
     o_mode := o_mode o;
     o_from := if has m Mfrom then endpoint o (o_from o) else [];
     o_to := endpoint o (o_to o);
     o_value_text := if has m Mvalue then toValueText (parseLooseValue (o_value_text o)) else [];
     o_keep_origin := has m MkeepOrigin && o_keep_origin o;
     o_logic := if bool_decide (omap buildConditionPayload (o_conditions o) = []) then js "OR"
                else if str_eqb (o_logic o) (js "AND") then js "AND" else js "OR";
     o_conditions := cs |}.

Lemma string_prop_if k v (b : bool) s : prop k v = (if b then JStr s else JUndef) → string_prop k v = if b then s else [].
Proof. unfold string_prop. intros ->. by destruct b. Qed.

Lemma bool_decide_map {A B} (f : A → B) (l : list A) : bool_decide (map f l ≠ []) = negb (bool_decide (l = [])).
Proof. by destruct l. Qed.

Lemma read_operation o n cs n' : o_mode o ∈ OPERATION_MODE_VALUES →
  mapM (normalizeCondition clock) (map JObj (omap buildConditionPayload (o_conditions o))) (n + 1)%N = Ret (cs, n') →
  normalizeOperation clock (JObj (operationPayload o)) n =
    Ret (read_back o (localId clock n) cs, if bool_decide (omap buildConditionPayload (o_conditions o) = []) then (n + 1)%N else n').
Proof.
  intros Hm Hcs. rewrite payload_chain by done. set (p := JObj _). unfold normalizeOperation.
  rewrite (bind_run _ _ n (localId clock n) (n + 1)%N) by done. cbn [is_nullish p].
  assert (prop "conditions" p = if bool_decide (omap buildConditionPayload (o_conditions o) = []) then JUndef
    else JArr (map JObj (omap buildConditionPayload (o_conditions o)))) as Hc.
  { unfold p, chain. read_props. rewrite bool_decide_map. by destruct (bool_decide _). }
  assert (normalizeLogic p = o_logic (read_back o [] cs)) as Hl.
  { unfold normalizeLogic. assert (prop "logic" p = if bool_decide (omap buildConditionPayload (o_conditions o) = []) then JUndef
      else JStr (if str_eqb (o_logic o) (js "AND") then js "AND" else js "OR")) as ->.
    { unfold p, chain. read_props. rewrite bool_decide_map. by destruct (bool_decide _). }
    cbn [read_back o_logic]. destruct (bool_decide _); [by vm_compute|]. destruct (str_eqb (o_logic o) _); by vm_compute. }
  assert (string_prop "description" p = trim (o_description o)) as Hd.
  { erewrite string_prop_if; [|unfold p, chain; by read_props]. by destruct (trim (o_description o)). }
  assert (string_prop "path" p = o_path (read_back o [] cs)) as Hp.
  { unfold string_prop, p, chain. read_props. cbn [read_back o_path].
    destruct (has _ Mpath), (has _ MpathOptional), (trim (o_path o)); done. }
  assert (string_prop "from" p = o_from (read_back o [] cs)) as Hf.
  { apply string_prop_if. unfold p, chain. by read_props. }
  assert (string_prop "to" p = endpoint o (o_to o)) as Ht.
  { unfold string_prop, p, chain. read_props. by destruct (has _ Mto), (endpoint o (o_to o)). }
  assert (toValueText (prop "value" p) = o_value_text (read_back o [] cs)) as Hv.
  { unfold p, chain. read_props. cbn [read_back o_value_text]. by destruct (has _ Mvalue). }
  assert (true_prop "keep_origin" p = o_keep_origin (read_back o [] cs)) as Hk.
  { apply true_prop_if. unfold p, chain. by read_props. }
  assert (mode_prop OPERATION_MODE_VALUES (js "set") p = o_mode o) as Hmo.
  { apply mode_prop_str; [|done]. unfold p, chain. by read_props. }
  rewrite Hc. destruct (bool_decide (omap buildConditionPayload (o_conditions o) = [])) eqn:Eb.
  - apply bool_decide_eq_true in Eb. rewrite Eb in Hcs. injection Hcs as <- _.
    rewrite (bind_run _ _ _ [] (n + 1)%N) by done. rewrite Hd, Hp, Hmo, Hv, Hk, Hf, Ht, Hl. reflexivity.
  - rewrite (bind_run _ _ _ cs n' Hcs). rewrite Hd, Hp, Hmo, Hv, Hk, Hf, Ht, Hl. reflexivity.
Qed.

Lemma read_back_endpoint o i cs s : o_mode o ∈ OPERATION_MODE_VALUES → endpoint (read_back o i cs) s = trim s.
Proof.
  intros Hm. destruct (mode_table _ Hm) as [Ha _]. unfold endpoint. cbn [read_back o_mode o_path].
  destruct (has _ MpathAlias); [|done]. destruct (Ha eq_refl) as (_ & _ & -> & ->). cbn [orb]. by rewrite andb_false_r.
Qed.

Lemma endpoint_nil o : o_mode o ∈ OPERATION_MODE_VALUES → has (metaOf (o_mode o)) Mfrom = false → ∀ s, endpoint o s = trim s.
Proof.
  intros Hm Hf s. destruct (mode_table _ Hm) as [Ha _]. unfold endpoint. destruct (has _ MpathAlias); [|done].
  destruct (Ha eq_refl) as [H _]. by rewrite H in Hf.
Qed.

Lemma read_back_value o i cs : operation_savable o → has (metaOf (o_mode o)) Mvalue = true →
  parseLooseValue (o_value_text (read_back o i cs)) = parseLooseValue (o_value_text o) ∧
  (trim (o_value_text (read_back o i cs)) = [] ↔ trim (o_value_text o) = []).
Proof. intros (_ & _ & Hp & _) Hv. cbn [read_back o_value_text]. rewrite Hv. by apply loose_again, Hp. Qed.

Lemma read_back_payload o i cs : operation_savable o →
  omap buildConditionPayload cs = omap buildConditionPayload (o_conditions o) →
  operationPayload (read_back o i cs) = operationPayload o.
Proof.
  intros Hs Hcs. pose proof Hs as (Hm & _). rewrite !payload_chain by done. rewrite !read_back_endpoint by done.
  cbn [read_back o_mode o_description o_conditions]. rewrite Hcs. set (conds := omap buildConditionPayload (o_conditions o)).
  unfold chain. apply set_if_ext; [done| |].
  { intros Hc. cbn [read_back o_logic]. fold conds. rewrite bool_decide_map in Hc. apply negb_true_iff in Hc. rewrite Hc.
    by destruct (str_eqb (o_logic o) (js "AND")). }
  apply set_if_ext; [done|done|]. cbn [read_back o_to]. rewrite endpoint_trimmed. do 2 (apply set_if_ext; [done|done|]).
  apply set_if_ext; [done|intros E; cbn [read_back o_from]; by rewrite E, endpoint_trimmed|].
  apply set_if_ext; [cbn [read_back o_keep_origin]; by rewrite andb_assoc, andb_diag|done|].
  apply set_if_ext; [done|intros E; by apply read_back_value|]. cbn [read_back o_path]. rewrite trim_idemp.
  destruct (has _ Mpath), (has _ MpathOptional); cbn [orb andb]; rewrite ?trim_idemp; reflexivity.
Qed.

(** The two checks that look into the value depend on the value only. *)
Lemma message_check (f : jsval → bool) s :
  match json_parse (trim s) with Some ((JObj _) as parsed) => f parsed | _ => false end
  = match parseLooseValue s with (JObj _) as parsed => f parsed | _ => false end.
Proof.
  unfold parseLooseValue. destruct (str_eqb (trim s) []) eqn:E; [apply str_eqb_eq in E; by rewrite E|].
  by destruct (json_parse (trim s)) as [[]|].
Qed.

Lemma loose_trim s : parseLooseValue (trim s) = parseLooseValue s.
Proof. unfold parseLooseValue. by rewrite trim_idemp. Qed.

(** What makes an operation acceptable. *)
Definition acceptable (o : ParamOverrideOperation) : Prop :=
  let m := o_mode o in
  (has (metaOf m) Mpath = true → trim (o_path o) ≠ []) ∧
  (m ∈ FROM_REQUIRED_MODES → endpoint o (o_from o) ≠ []) ∧
  (m ∈ TO_REQUIRED_MODES → endpoint o (o_to o) ≠ []) ∧
  (m ∈ VALUE_REQUIRED_MODES → trim (o_value_text o) ≠ []) ∧
  (m = js "return_error" →
     match parseLooseValue (o_value_text o) with (JObj _) as v => textOr (prop "message" v) ≠ [] | _ => True end) ∧
  (m = js "pass_headers" → parsePassHeaderNames (parseLooseValue (o_value_text o)) ≠ []).

Lemma negb_truthy s : negb (str_truthy s) = false ↔ s ≠ [].
Proof. by destruct s. Qed.

Lemma endpoint_nonempty o s :
  negb (str_truthy (trim s)) && negb (has (metaOf (o_mode o)) MpathAlias && str_truthy (trim (o_path o))) = false
  ↔ endpoint o s ≠ [].
Proof.
  unfold endpoint. destruct (has _ _); cbn [andb negb]; [|rewrite andb_true_r; apply negb_truthy].
  destruct (trim s), (trim (o_path o)); done.
Qed.

Lemma andb_false_impl (P : Prop) `{Decision P} b Q : (b = false ↔ Q) → bool_decide P && b = false ↔ (P → Q).
Proof. intros Hb. case_bool_decide; cbn [andb]; [rewrite Hb|]; tauto. Qed.

Lemma problem_none o : o_mode o ∈ OPERATION_MODE_VALUES → operationProblem o = None ↔ acceptable o.
Proof.
  intros Hm. destruct (mode_table _ Hm) as (_ & _ & _ & _ & _ & _ & Hor & _). unfold operationProblem, acceptable. rewrite Hor.
  rewrite message_check, loose_trim, <- !andb_assoc. cbv zeta.
  set (b1 := has _ Mpath && _). set (b2 := bool_decide (_ ∈ FROM_REQUIRED_MODES) && _).
  set (b3 := bool_decide (_ ∈ TO_REQUIRED_MODES) && _). set (b4 := bool_decide (_ ∈ VALUE_REQUIRED_MODES) && _).
  set (b5 := str_eqb (o_mode o) (js "return_error") && _). set (b6 := str_eqb (o_mode o) (js "pass_headers") && _).
  assert (b1 = false ↔ (has (metaOf (o_mode o)) Mpath = true → trim (o_path o) ≠ [])) as <-.
  { unfold b1. destruct (has _ Mpath); cbn [andb]; [rewrite negb_truthy|]; naive_solver. }
  assert (b2 = false ↔ (o_mode o ∈ FROM_REQUIRED_MODES → endpoint o (o_from o) ≠ [])) as <-.
  { apply andb_false_impl, endpoint_nonempty. }
  assert (b3 = false ↔ (o_mode o ∈ TO_REQUIRED_MODES → endpoint o (o_to o) ≠ [])) as <-.
  { apply andb_false_impl, endpoint_nonempty. }
  assert (b4 = false ↔ (o_mode o ∈ VALUE_REQUIRED_MODES → trim (o_value_text o) ≠ [])) as <-.
  { apply andb_false_impl. unfold str_eqb. apply bool_decide_eq_false. }
  assert (b5 = false ↔ (o_mode o = js "return_error" →
     match parseLooseValue (o_value_text o) with (JObj _) as v => textOr (prop "message" v) ≠ [] | _ => True end)) as <-.
  { unfold b5, str_eqb at 1. apply andb_false_impl. destruct (parseLooseValue _); try done. apply negb_truthy. }
  assert (b6 = false ↔ (o_mode o = js "pass_headers" → parsePassHeaderNames (parseLooseValue (o_value_text o)) ≠ [])) as <-.
  { unfold b6, str_eqb at 1. apply andb_false_impl. apply bool_decide_eq_false. }
  destruct b1, b2, b3, b4, b5, b6; split; try done; by intros (? & ? & ? & ? & ? & ?).
Qed.

Lemma read_back_acceptable o i cs : operation_savable o → acceptable o → acceptable (read_back o i cs).
Proof.
  intros Hs (A1 & A2 & A3 & A4 & A5 & A6). pose proof Hs as (Hm & _).
  destruct (mode_table _ Hm) as (Ha & HF & HT & HV & _ & HR & _). unfold acceptable. rewrite !read_back_endpoint by done.
  cbn [read_back o_mode]. split_and!.
  - intros E. cbn [read_back o_path]. rewrite E. cbn [orb]. rewrite trim_idemp. auto.
  - intros E. cbn [read_back o_from]. rewrite HF, endpoint_trimmed by done. auto.
  - intros E. cbn [read_back o_to]. rewrite endpoint_trimmed. auto.
  - intros E. rewrite (proj2 (read_back_value o i cs Hs (HV E))). auto.
  - intros E. rewrite (proj1 (read_back_value o i cs Hs (HR (or_introl E)))). exact (A5 E).
  - intros E. rewrite (proj1 (read_back_value o i cs Hs (HR (or_intror E)))). auto.
Qed.

Lemma acceptable_not_blank o : o_mode o ∈ OPERATION_MODE_VALUES → acceptable o → isOperationBlank o = false.
Proof.
  intros Hm [A1 _]. destruct (mode_table _ Hm) as (_ & _ & _ & _ & HS & _). unfold isOperationBlank.
  destruct (str_eqb (o_mode o) (js "set")) eqn:E; [|done]. apply str_eqb_eq in E. specialize (A1 (HS E)).
  by destruct (trim (o_path o)).
Qed.

Lemma endpoint_utf16 o s : utf16_ok (o_path o) → utf16_ok s → utf16_ok (endpoint o s).
Proof. intros. unfold endpoint. case_match; by apply trim_utf16. Qed.

Lemma payload_named o : operation_savable o → named (operationPayload o).
Proof.
  intros (Hm & Hu & Hv & Hc). destruct (mode_table _ Hm) as (_ & _ & _ & _ & _ & _ & _ & Hmu).
  rewrite payload_chain by done. rewrite !Forall_cons in Hu. destruct Hu as (Hu1 & Hu2 & Hu3 & Hu4 & _).
  unfold chain. repeat (apply named_set_if; [by vm_compute|intros Hb|]).
  - destruct (str_eqb (o_logic o) _); apply (bool_decide_unpack (utf16_ok _)); vm_compute; exact I.
  - apply expressible_arr, Forall_fmap. destruct (conditions_again (o_conditions o) 0 Hc) as [Hn _].
    eapply Forall_impl; [exact Hn|]. intros p Hp. by apply named_expressible.
  - by apply endpoint_utf16.
  - by apply endpoint_utf16.
  - by apply endpoint_utf16.
  - done.
  - by apply loose_expressible, Hv.
  - by apply trim_utf16.
  - by apply trim_utf16.
  - by apply trim_utf16.
  - change [entry "mode" (JStr (o_mode o))] with (set_if true "mode" (JStr (o_mode o)) []).
    apply named_set_if; [by vm_compute|done|apply named_nil].
Qed.

(** Reading a saved operation gives an acceptable operation that is saved in the same way. *)
Lemma operation_again o n : operation_savable o → acceptable o →
  ∃ o' n', normalizeOperation clock (JObj (operationPayload o)) n = Ret (o', n') ∧ operationPayload o' = operationPayload o ∧
    o_mode o' ∈ OPERATION_MODE_VALUES ∧ acceptable o'.
Proof.
  intros Hs Ha. pose proof Hs as (Hm & _ & _ & Hc). destruct (conditions_again (o_conditions o) (n + 1)%N Hc) as [_ (cs & n' & E & Hcs)].
  eexists _, _. split; [by apply (read_operation o n cs n')|].
  split; [by apply read_back_payload|]. split; [done|by apply read_back_acceptable].
Qed.

Lemma operations_again l n : Forall operation_savable l → Forall acceptable l →
  ∃ l' n', mapM (normalizeOperation clock) (map (λ o, JObj (operationPayload o)) l) n = Ret (l', n') ∧
    map (λ o, JObj (operationPayload o)) l' = map (λ o, JObj (operationPayload o)) l ∧
    Forall (λ o, o_mode o ∈ OPERATION_MODE_VALUES ∧ acceptable o) l'.
Proof.
  intros Hs. revert n. induction Hs as [|o l Ho _ IH]; intros n Ha; [by exists [], n|]. inversion Ha as [|? ? A1 A2]; subst.
  destruct (operation_again o n Ho A1) as (o' & n1 & E1 & P1 & M1). destruct (IH n1 A2) as (l' & n2 & E2 & P2 & M2).
  exists (o' :: l'), n2. cbn [map mapM]. rewrite (bind_run _ _ _ _ _ E1), (bind_run _ _ _ _ _ E2).
  split; [done|]. split; [by rewrite P1, P2|by constructor].
Qed.

(** ** The text *)

Definition savedText (l : list ParamOverrideOperation) : jstr :=
  json_pretty (JObj [entry "operations" (JArr (map (λ o, JObj (operationPayload o)) l))]).

(** Validation reports the first operation that is not acceptable, and only such. *)
Lemma validate_from i l : (∀ k n, t k n ≠ []) → Forall (λ o, o_mode o ∈ OPERATION_MODE_VALUES) l →
  validateFrom t i l = [] ↔ Forall acceptable l.
Proof.
  intros Ht Hm. revert i. induction Hm as [|o l Ho _ IH]; intros i; cbn [validateFrom]; [done|].
  rewrite Forall_cons, <- (problem_none o Ho). destruct (operationProblem o) as [k|].
  - split; [intros H; by destruct (Ht k (Some (i + 1)))|by intros [? _]].
  - rewrite IH. split; [by split|by intros [_ ?]].
Qed.

Lemma build_saved l : (∀ k n, t k n ≠ []) → l ≠ [] →
  Forall (λ o, o_mode o ∈ OPERATION_MODE_VALUES ∧ acceptable o) l → buildOperationsJson t l true = inr (savedText l).
Proof.
  intros Ht Hne [Hm Ha]%Forall_and. unfold buildOperationsJson. rewrite filter_id.
  - destruct l as [|o l]; [done|]. unfold validateOperations. by rewrite (proj2 (validate_from 0 (o :: l) Ht Hm) Ha).
  - rewrite Forall_forall in *. intros o Ho. apply acceptable_not_blank; auto.
Qed.

Lemma saved_expressible l : Forall operation_savable l →
  expressible (JObj [entry "operations" (JArr (map (λ o, JObj (operationPayload o)) l))]).
Proof.
  intros Hl. apply named_expressible.
  change [entry "operations" ?v] with (set_if true "operations" v []).
  apply named_set_if; [by vm_compute|intros _|apply named_nil]. apply expressible_arr, Forall_fmap.
  eapply Forall_impl; [exact Hl|]. intros o Ho. by apply named_expressible, payload_named.
Qed.

(** Opening the editor on a saved text. *)
Lemma open_saved l n : Forall operation_savable l → Forall acceptable l → l ≠ [] →
  ∃ st n', parseInitialState clock (savedText l) n = Ret (st, n') ∧ editMode st = VisualEdit ∧ visualMode st = OperationsMode ∧
    jsonText st = savedText l ∧ jsonError st = [] ∧ operations st ≠ [] ∧ savedText (operations st) = savedText l ∧
    Forall (λ o, o_mode o ∈ OPERATION_MODE_VALUES ∧ acceptable o) (operations st).
Proof.
  intros Hs Ha Hne. pose proof (saved_expressible l Hs) as He. destruct (json_roundtrip _ He) as [_ Hr].
  assert (trim (savedText l) = savedText l) as Ht by (apply trim_id, (printed_trimmed true); done).
  assert (savedText l ≠ []) as Hn by (intros E; unfold savedText in E; by rewrite E in Hr).
  destruct (operations_again l n Hs Ha) as (l' & n' & E & P & M).
  assert (l' ≠ []) as Hne' by (intros ->; by destruct l).
  unfold parseInitialState. rewrite Ht, (proj2 (truthy_nonempty _) Hn). cbn [negb]. fold (savedText l) in Hr. rewrite Hr.
  rewrite prop_cons. eval_names. cbv iota.
  assert (readOperations clock (map (λ o, JObj (operationPayload o)) l) n = Ret (l', n')) as HR by (by destruct l).
  rewrite (bind_run _ _ _ _ _ HR). eexists _, n'. split; [reflexivity|]. cbn [editMode visualMode jsonText jsonError operations].
  split_and!; [done|done|done|done|done| |done]. unfold savedText. by rewrite P.
Qed.

(** C2. Saved operations can be opened and saved again without a change.  When
    the dialog saves operations (a text that is not empty), and their values are
    not written as quoted JSON strings and print exactly, opening the editor on
    the saved text shows the visual editor without an error, and saving there
    gives the same text. *)
Theorem save_reopen_save (l : list ParamOverrideOperation) (text : jstr) (n : N) :
  (∀ k i, t k i ≠ []) → Forall operation_savable l → buildOperationsJson t l true = inr text → text ≠ [] →
  ∃ st n', parseInitialState clock text n = Ret (st, n') ∧ editMode st = VisualEdit ∧ visualMode st = OperationsMode ∧
    jsonError st = [] ∧ buildOperationsJson t (operations st) true = inr text.
Proof.
  intros Ht Hs Hb Hn. unfold buildOperationsJson in Hb. set (kept := filter (λ o, isOperationBlank o = false) l) in Hb.
  assert (Forall operation_savable kept) as Hk.
  { rewrite Forall_forall in *. intros o [_ Ho]%list_elem_of_filter. by apply Hs. }
  assert (Forall (λ o, o_mode o ∈ OPERATION_MODE_VALUES) kept) as Hm by (eapply Forall_impl; [exact Hk|]; by intros o [? _]).
  destruct (decide (kept = [])) as [E0|Hne]; [rewrite E0 in Hb; by injection Hb as <-|].
  assert ((if str_truthy (validateOperations t kept) then inl (validateOperations t kept) else inr (savedText kept)) = inr text) as Hb'
    by (by destruct kept).
  destruct (str_truthy (validateOperations t kept)) eqn:Ev; [done|]. injection Hb' as <-.
  assert (validateOperations t kept = []) as Hv by (by destruct (validateOperations t kept)).
  apply (validate_from 0 kept Ht Hm) in Hv.
  destruct (open_saved kept n Hk Hv Hne) as (st & n' & E & H1 & H2 & _ & H3 & H4 & H5 & H6).
  exists st, n'. split_and!; [done|done|done|done|]. rewrite <- H5. by apply build_saved.
Qed.
End Reopening.

(** ** Witness, and the values that change *)

(** Every kind of field: a header with a fallback, a number, an object, a condition. *)
Definition sample_operations : list ParamOverrideOperation :=
  [{| o_id := js "a"; o_description := js " raise it "; o_path := js "temperature"; o_mode := js "set"; o_from := [];
      o_to := []; o_value_text := js " 0.7 "; o_keep_origin := true; o_logic := js "AND";
      o_conditions := [{| c_id := js "c"; c_path := js "model"; c_mode := js "prefix"; c_value_text := js "gpt-";
                          c_invert := true; c_pass_missing_key := false |}] |};
   {| o_id := js "b"; o_description := []; o_path := js "X-Trace"; o_mode := js "copy_header"; o_from := []; o_to := js "X-Up";
      o_value_text := []; o_keep_origin := false; o_logic := js "OR"; o_conditions := [] |};
   {| o_id := js "d"; o_description := []; o_path := js "meta"; o_mode := js "append"; o_from := []; o_to := [];
      o_value_text := quoted "{'k':[1,true]}"; o_keep_origin := false; o_logic := js "OR"; o_conditions := [] |}].

Lemma sample_savable : Forall operation_savable sample_operations.
Proof.
  assert (∀ (m : jstr) (l : list jstr), bool_decide (m ∈ l) = true → m ∈ l) as M by (intros m l; apply bool_decide_eq_true).
  repeat constructor; try (apply M; vm_compute; reflexivity);
    vm_compute; try done; repeat first [reflexivity | solve [intros Hin; inversion Hin] | intros _ | split | constructor].
Qed.

(** A translation that marks its keys. *)
Definition marked : jstr → option nat → jstr := λ key _, 42%N :: key.

Lemma save_reopen_save_witness : ∃ st n',
  parseInitialState fixed_clock (savedText sample_operations) 5%N = Ret (st, n') ∧ editMode st = VisualEdit ∧
  visualMode st = OperationsMode ∧ jsonError st = [] ∧
  buildOperationsJson marked (operations st) true = inr (savedText sample_operations).
Proof.
  assert (∀ k i, marked k i ≠ []) as Ht by done.
  apply (save_reopen_save fixed_clock marked sample_operations (savedText sample_operations) 5%N Ht sample_savable).
  - vm_compute. reflexivity.
  - vm_compute. discriminate.
Defined.

(** A string value that reads as JSON is saved with its quotes and shown
    without them: opened and saved again it has become a number. *)
Definition quoted_number_text : jstr := json_pretty (JObj [entry "operations" (JArr [JObj
  [entry "mode" (text "set"); entry "path" (text "stop"); entry "value" (text "123")]])]).

Definition resaved (clock : N → num) (text : jstr) : option jsval :=
  match parseInitialState clock text 0%N with
  | Ret (st, _) => match buildOperationsJson marked (operations st) true with inr s => json_parse s | inl _ => None end
  | Throw => None
  end.

Lemma quoted_number_becomes_number :
  resaved fixed_clock quoted_number_text = Some (JObj [entry "operations" (JArr [JObj
    [entry "mode" (text "set"); entry "path" (text "stop"); entry "value" (JNum (of_Z 123))]])]).
Proof. vm_compute. reflexivity. Qed.
