(* ===== verification/ParamDrafts.v ===== *)
(** * Parameter override editor: structured values

    The editors of [sync_fields], [return_error] and [prune_objects] keep no
    state of their own: what is typed is printed into the value of the
    operation and read back at the next render.  The theorems say what survives
    this trip, and what is lost. *)

From S2P Require Import Prelude JsNumber JsNumberFacts JsString JsValue JsonFacts JsonRoundtrip ParamOverride ParamEditor.
From S2P Require Import ParamInvariant ParamRoundtrip.

Open Scope nat_scope.

(** ** Endpoints of [sync_fields] *)

Lemma slice_prefix (a b : jstr) : slice (a ++ b) 0 (Z.of_nat (length a)) = a.
Proof.
  unfold slice, rel_index. rewrite length_app. destruct (Z.ltb_spec (Z.of_nat (length a)) 0); [lia|].
  destruct (Z.ltb_spec 0 0); [lia|]. rewrite !Z.min_l, Nat2Z.id by lia. cbn [Z.to_nat drop]. rewrite Nat.sub_0_r. apply take_app_length.
Qed.

Lemma slice_rest (a b : jstr) : slice_from (a ++ b) (Z.of_nat (length a)) = b.
Proof.
  unfold slice_from, slice, rel_index. rewrite length_app.
  destruct (Z.ltb_spec (Z.of_nat (length a)) 0); [lia|]. destruct (Z.ltb_spec (Z.of_nat (length a + length b)) 0); [lia|].
  replace (Z.to_nat (Z.min (Z.of_nat (length a)) _)) with (length a) by lia. rewrite drop_app_length.
  apply take_ge. lia.
Qed.

Lemma trimmed_prefix c a k : is_space c = false → k ≠ [] → trimmed k → trimmed (c :: a ++ k).
Proof.
  intros Hc Hk [_ H2]. split; [by intros x u [= -> _]|]. intros x u E. destruct k as [|y k] using rev_ind; [done|].
  rewrite app_comm_cons, app_assoc in E. apply app_inj_tail in E as [_ <-]. by apply (H2 y k).
Qed.

(** The editor of an endpoint of [sync_fields] shows what was entered: a type
    and a key that is not blank are read back from the text they are stored as,
    whatever the key contains. *)
Theorem sync_target_roundtrip (type key : jstr) : trim key ≠ [] →
  parseSyncTargetSpec (buildSyncTargetSpec type key) =
    (if str_eqb type (js "header") then js "header" else js "json", trim key).
Proof.
  intros Hk. unfold buildSyncTargetSpec. set (k := trim key) in *. rewrite (proj2 (truthy_nonempty k) Hk). cbn [negb].
  set (ty := if str_eqb type (js "header") then js "header" else js "json").
  assert (ty ++ js ":" ++ k = (ty ++ js ":") ++ k) as Ha by apply app_assoc.
  assert (trim (ty ++ js ":" ++ k) = ty ++ js ":" ++ k) as Ht.
  { rewrite Ha. apply trim_id. unfold ty.
    destruct (str_eqb _ _); apply trimmed_prefix; done || apply trim_trimmed. }
  assert (index_of (ty ++ js ":" ++ k) (js ":") = Some (length ty)) as Hi by (unfold ty; by destruct (str_eqb _ _)).
  assert (toLowerCase (trim ty) = ty) as Hl by (unfold ty; by destruct (str_eqb _ _)).
  assert (str_eqb ty (js "header") = str_eqb type (js "header")) as He.
  { unfold ty. by destruct (str_eqb type _). }
  unfold parseSyncTargetSpec. rewrite Ht. assert (str_truthy (ty ++ js ":" ++ k) = true) as ->.
  { apply truthy_nonempty. by destruct ty. }
  cbn [negb]. rewrite Hi, slice_prefix, Hl, He. f_equal.
  replace (length ty + 1) with (length (ty ++ js ":")) by (rewrite length_app; done). rewrite Ha, slice_rest.
  unfold k. apply trim_idemp.
Qed.

(** An endpoint without a key is not stored, and neither is its type: choosing
    a type before a key is entered has no effect. *)
Lemma sync_type_without_key type : parseSyncTargetSpec (buildSyncTargetSpec type []) = (js "json", []).
Proof. reflexivity. Qed.

(** ** [return_error] *)

Definition status_codes : list Z := seqZ 100 500.

Lemma status_codes_print : forallb (λ z, num_printsb (of_Z z)) status_codes = true.
Proof. vm_compute. reflexivity. Qed.

Lemma status_prints z : (100 ≤ z ≤ 599)%Z → num_prints (of_Z z).
Proof.
  intros Hz. apply num_printsb_ok. pose proof status_codes_print as H. rewrite forallb_forall in H. apply (H z).
  apply list_elem_of_In, elem_of_seqZ. lia.
Qed.

Definition clampStatus (z : Z) : Z := if (100 <=? z)%Z && (z <=? 599)%Z then z else 400%Z.

Lemma of_Z_isInteger z : safe z → isInteger (of_Z z) = true.
Proof.
  intros Hz. pose proof (of_Z_finite z Hz) as Hf. pose proof (trunc_Z_of_Z z Hz) as Ht. pose proof (n_eq_of_Z z z Hz Hz) as He.
  destruct (of_Z z) eqn:E; try done. unfold isInteger. rewrite Ht, E, He. apply Z.eqb_refl.
Qed.

Lemma validStatus_of_Z z : safe z → validStatus (of_Z z) = of_Z (clampStatus z).
Proof.
  intros Hz. unfold validStatus, n_ge, clampStatus. rewrite of_Z_isInteger by done.
  rewrite !n_le_of_Z by (done || (unfold safe; lia)). cbn [andb]. by destruct ((100 <=? z)%Z && (z <=? 599)%Z).
Qed.

Lemma clampStatus_idemp z : safe z → validStatus (of_Z (clampStatus z)) = of_Z (clampStatus z).
Proof.
  intros Hz. assert (100 ≤ clampStatus z ≤ 599)%Z as Hc by (unfold clampStatus; destruct (_ && _) eqn:E; lia).
  rewrite validStatus_of_Z by (unfold safe; lia). f_equal. unfold clampStatus at 1. by destruct (_ && _) eqn:E; [|lia].
Qed.

Lemma textOr_if (b : bool) s : textOr (if b then JStr s else JUndef) = if b then trim s else [].
Proof. destruct b; [|done]. unfold textOr, js_or. rewrite truthy_str. by destruct s. Qed.

Lemma textOr_trim s : textOr (if str_truthy (trim s) then JStr (trim s) else JUndef) = trim s.
Proof. rewrite textOr_if, trim_idemp. by destruct (trim s). Qed.

(** The editor of a custom error shows what was entered: in the advanced mode
    the message, the code and the type come back trimmed, the status code comes
    back when it is between 100 and 599 and as 400 otherwise, and the choice
    about retries is kept. *)
Theorem return_error_roundtrip (d : ReturnErrorDraft) (z : Z) :
  re_simpleMode d = false → re_statusCode d = of_Z z → safe z → Forall utf16_ok [re_message d; re_code d; re_type d] →
  parseReturnErrorDraft (buildReturnErrorValueText d) =
    {| re_message := trim (re_message d); re_statusCode := of_Z (clampStatus z); re_code := trim (re_code d);
       re_type := trim (re_type d); re_skipRetry := re_skipRetry d; re_simpleMode := false |}.
Proof.
  intros Hm Hz Hs Hu. rewrite !Forall_cons in Hu. destruct Hu as (U1 & U2 & U3 & _).
  unfold buildReturnErrorValueText. rewrite Hm. set (p := returnErrorPayload d).
  assert (named p) as Hp.
  { unfold p, returnErrorPayload. repeat (apply named_set_if; [by vm_compute|intros _|]); [done|by apply trim_utf16|by apply trim_utf16|].
    change [?a; ?b] with (set_if true "status_code" (JNum (validStatus (re_statusCode d))) (set_if true "message" (JStr (trim (re_message d))) [])).
    repeat (apply named_set_if; [by vm_compute|intros _|]); [|by apply trim_utf16|apply named_nil].
    rewrite Hz, validStatus_of_Z by done. apply status_prints. unfold clampStatus. destruct (_ && _) eqn:E; lia. }
  destruct (json_roundtrip (JObj p) (named_expressible p Hp)) as [Hr _].
  assert (trim (json_stringify (JObj p)) = json_stringify (JObj p)) as Ht.
  { apply trim_id, (printed_trimmed false); [done|]. by apply named_expressible. }
  unfold parseReturnErrorDraft. rewrite Ht. destruct (str_truthy (json_stringify (JObj p))) eqn:Et.
  2: { assert (json_stringify (JObj p) = []) as E by (by destruct (json_stringify (JObj p))). by rewrite E in Hr. }
  cbn [negb]. rewrite Hr. cbv zeta. unfold p, returnErrorPayload. read_props.
  rewrite !textOr_trim. f_equal.
  - unfold js_or. rewrite truthy_str. apply textOr_trim.
  - cbn [to_number]. rewrite Hz, validStatus_of_Z by done. by apply clampStatus_idemp.
  - by destruct (re_skipRetry d).
Qed.

Lemma trim_snoc s c : trimmed s → s ≠ [] → is_space c = true → trim (s ++ [c]) = s.
Proof.
  intros [H1 H2] Hne Hc. unfold trim, trim_start, trim_end. rewrite (drop_while_id _ (s ++ [c])).
  - rewrite rev_app_distr. cbn [rev app drop_while]. rewrite Hc, drop_while_id; [apply rev_involutive|].
    intros x u E. apply (H2 x (rev u)). by rewrite <- (rev_involutive s), E.
  - destruct s as [|y s]; [done|]. intros x u [= -> _]. by eapply H1.
Qed.

(** In the simple mode the message is trimmed at every keystroke: a space typed
    at its end is gone before the next word, whatever the message. *)
Lemma typed_space_lost m : (∀ o, json_parse (trim m) ≠ Some (JObj o)) → trim m ≠ [] →
  let d := parseReturnErrorDraft m in
  re_message (parseReturnErrorDraft (buildReturnErrorValueText (patch_return_error (REMessage (re_message d ++ js " ")) d)))
  = re_message d.
Proof.
  intros Ho Hne. cbv zeta. assert (∀ s, trim s = trim m → parseReturnErrorDraft s = parseReturnErrorDraft m) as Hp
    by (unfold parseReturnErrorDraft; by intros s ->).
  assert (re_message (parseReturnErrorDraft m) = trim m ∧ re_simpleMode (parseReturnErrorDraft m) = true) as [Hm Hs].
  { unfold parseReturnErrorDraft. rewrite (proj2 (truthy_nonempty _) Hne). cbn [negb].
    destruct (json_parse (trim m)) as [[]|]; try done. by destruct (Ho o). }
  assert (trim (trim m ++ js " ") = trim m) as Ht by (apply trim_snoc; [apply trim_trimmed|done|done]).
  unfold buildReturnErrorValueText. cbn [patch_return_error re_simpleMode re_message]. rewrite Hs, Hm, Ht.
  rewrite Hp; [done|]. apply trim_idemp.
Qed.

(** ** [prune_objects] *)

Lemma build_prune_rules d rs : pr_simpleMode d = false →
  filter (λ r, trim (c_path r) ≠ []) rs = filter (λ r, trim (c_path r) ≠ []) (pr_rules d) →
  buildPruneObjectsValueText (patch_prune (PRRules rs) d) = buildPruneObjectsValueText d.
Proof.
  intros Hs Hf. unfold buildPruneObjectsValueText. cbn [patch_prune pr_simpleMode pr_typeText pr_logic pr_recursive pr_rules].
  by rewrite Hs, Hf.
Qed.

(** The button that adds a condition to a prune rule adds none: the new rule
    has no path, and rules without a path are dropped when the value is printed,
    so the value is the same as when only the advanced mode is chosen. *)
Theorem added_rule_dropped (clock : N → num) (d : PruneObjectsDraft) (n m : N) (r : PruneRule) :
  normalizePruneRule clock (JObj []) n = Ret (r, m) →
  buildPruneObjectsValueText (patch_prune (PRSimpleMode false) (patch_prune (PRRules (pr_rules d ++ [r])) d))
  = buildPruneObjectsValueText (patch_prune (PRSimpleMode false) d).
Proof.
  intros H. assert (c_path r = []) as Hr.
  { unfold normalizePruneRule, normalizeCondition in H. rewrite (bind_run _ _ n (localId clock n) (n + 1)%N) in H by done.
    by injection H as <- _. }
  apply (build_prune_rules (patch_prune (PRSimpleMode false) d) (pr_rules d ++ [r])); [done|]. cbn [patch_prune pr_rules].
  rewrite filter_app, filter_cons_False by (by rewrite Hr; intros []). apply app_nil_r.
Qed.

Lemma mapM_ext_from {A B} (f g : A → gen B) lo l : (∀ x, yields (f x) (λ _ _ _, True)) →
  (∀ x n, (lo ≤ n)%N → f x n = g x n) → ∀ n, (lo ≤ n)%N → mapM f l n = mapM g l n.
Proof.
  intros Hy He. induction l as [|x l IH]; intros n Hn; [done|]. cbn [mapM]. unfold mbind, gen_bind. rewrite <- He by done.
  destruct (f x n) as [[y m]|] eqn:E; [|done]. destruct (Hy x n y m E) as [Hle _]. by rewrite IH by lia.
Qed.

Section Rules.
Context (clock : N → num).

Lemma updater_ext i (u u' : PruneObjectsDraft → gen PruneObjectsDraft) e :
  (∀ d, yields (u d) (λ _ _ _, True)) →
  (∀ lo hi d n, (seed e ≤ lo)%N → list_ok (cond_ok clock) c_id lo hi (pr_rules d) → u d n = u' d n) →
  updatePruneObjectsDraft clock i u e = updatePruneObjectsDraft clock i u' e.
Proof.
  intros Hy He. unfold updatePruneObjectsDraft, drawing. rewrite (mapM_ext_from _ (λ op,
    if has_id i op then
      draft ← parsePruneObjectsDraft clock (o_value_text op);
      nextDraft ← u' draft;
      mret (patch_operation (ValueText (buildPruneObjectsValueText nextDraft)) op)
    else mret op) (seed e)); [done| | |lia].
  - intros o. destruct (has_id i o); [|by apply yields_ret]. eapply yields_bind; [apply yields_prune_draft|]. intros lo mid d _ _.
    eapply yields_bind; [apply Hy|]. intros lo' mid' d' _ _. by apply yields_ret.
  - intros o n Hn. destruct (has_id i o); [|done]. unfold mbind, gen_bind.
    destruct (parsePruneObjectsDraft clock (o_value_text o) n) as [[d m]|] eqn:E; [|done].
    apply yields_prune_draft in E as [_ Hd]. by rewrite (He n m d m Hn Hd).
Qed.

(** Edits of a prune rule are lost: the rules get new identifiers whenever
    the value is read, so the identifier of a rule that is on the screen, which
    was drawn at the last render, matches none; changing a field of the rule or
    removing it has the effect of no change at all. *)
Theorem rule_edits_ignored (i ruleId : jstr) (p : ConditionField) (e : Editor) : fresh clock 0 (seed e) ruleId →
  updatePruneRule clock i ruleId p e = updatePruneObjectsDraft clock i mret e ∧
  removePruneRule clock i ruleId e = updatePruneObjectsDraft clock i mret e.
Proof.
  intros Hf. assert (∀ d, patch_prune (PRRules (pr_rules d)) d = d) as Hid by (by intros []).
  assert (∀ lo hi d r, (seed e ≤ lo)%N → list_ok (cond_ok clock) c_id lo hi (pr_rules d) → r ∈ pr_rules d → c_id r ≠ ruleId) as Hne.
  { intros lo hi d r Hlo [Hl _] Hr E. rewrite Forall_forall in Hl. destruct (Hl r Hr) as [Hfr _]. rewrite E in Hfr.
    apply (fresh_disjoint clock 0 lo hi ruleId); [|done]. by eapply fresh_mono; [reflexivity| |exact Hf]. }
  split; apply updater_ext; try (intros; by apply yields_ret); intros lo hi d n Hlo Hd.
  - assert (map (λ r, if str_eqb (c_id r) ruleId then patch_condition p r else r) (pr_rules d) = pr_rules d) as ->; [|by rewrite Hid].
    rewrite <- map_id. apply map_ext_in. intros r Hr%list_elem_of_In.
    destruct (str_eqb (c_id r) ruleId) eqn:E; [|done]. apply str_eqb_eq in E. by destruct (Hne lo hi d r Hlo Hd Hr).
  - rewrite filter_id; [by rewrite Hid|]. apply Forall_forall. intros r Hr. by eapply Hne.
Qed.
End Rules.

(** Choosing the advanced mode while a type is entered, and nothing else,
    returns to the simple mode: only the type is printed. *)
Lemma advanced_mode_refused :
  let d := pruneDefaults (js "redacted_thinking") in
  let text := buildPruneObjectsValueText (patch_prune (PRSimpleMode false) d) in
  match parsePruneObjectsDraft fixed_clock text 0%N with
  | Ret (d', _) => pr_simpleMode d' = true ∧ pr_typeText d' = pr_typeText d
  | Throw => False
  end.
Proof. vm_compute. split; reflexivity. Qed.

(** ** Witnesses *)

Lemma sync_target_roundtrip_witness :
  parseSyncTargetSpec (buildSyncTargetSpec (js "header") (js " X-A:b ")) = (js "header", js "X-A:b").
Proof.
  etransitivity; [apply (sync_target_roundtrip (js "header") (js " X-A:b ")); vm_compute; discriminate|].
  vm_compute. reflexivity.
Defined.

Definition sample_error : ReturnErrorDraft :=
  {| re_message := js " no "; re_statusCode := of_Z 429; re_code := []; re_type := js "rate_limit_error"; re_skipRetry := false;
     re_simpleMode := false |}.

Lemma return_error_roundtrip_witness :
  parseReturnErrorDraft (buildReturnErrorValueText sample_error) =
    {| re_message := trim (js " no "); re_statusCode := of_Z (clampStatus 429); re_code := trim []; re_type := trim (js "rate_limit_error");
       re_skipRetry := false; re_simpleMode := false |}.
Proof.
  apply (return_error_roundtrip sample_error 429); [reflexivity|reflexivity|vm_compute; reflexivity|].
  apply (bool_decide_unpack _). vm_compute. exact I.
Defined.

Lemma added_rule_dropped_witness :
  buildPruneObjectsValueText (patch_prune (PRSimpleMode false) (patch_prune (PRRules [
    {| c_id := localId fixed_clock 3; c_path := []; c_mode := js "full"; c_value_text := []; c_invert := false;
       c_pass_missing_key := false |}]) (pruneDefaults (js "x"))))
  = buildPruneObjectsValueText (patch_prune (PRSimpleMode false) (pruneDefaults (js "x"))).
Proof. apply (added_rule_dropped fixed_clock (pruneDefaults (js "x")) 3 4). vm_compute. reflexivity. Defined.

Lemma rule_edits_ignored_witness : ∃ e, updatePruneRule fixed_clock (js "a") (localId fixed_clock 1) (CPath (js "type")) e
  = updatePruneObjectsDraft fixed_clock (js "a") mret e.
Proof.
  destruct two_operations as (e & _). exists (setSeed 9 e).
  apply (rule_edits_ignored fixed_clock (js "a") (localId fixed_clock 1) (CPath (js "type")) (setSeed 9 e)).
  exists 1%N. split; [split; [discriminate|reflexivity]|reflexivity].
Defined.
