(* ===== verification/ChannelForm.v ===== *)
(** * Channel form (features/channels/lib/channel-form.ts)

    The values of the channel form, how a channel fills them and how they are
    sent to the server.  Options of a channel live in two JSON texts: [setting]
    is rebuilt from the form, [settings] is the stored object with the options
    of the channel's type written over it.

    Fields that are read from stored JSON are kept as values, since nothing
    checks their type when the form is filled.  Validation by the schema belongs
    to a library and is not modelled. *)

From S2P Require Import Prelude JsNumber JsString JsValue Host Channels.

Open Scope Z_scope.

(** ** Values *)

Record ChannelFormValues := {
  f_name : jstr;
  f_type : num;
  f_base_url : jstr;
  f_key : jstr;
  f_openai_organization : jstr;
  f_models : jstr;
  f_group : list jstr;
  f_model_mapping : jstr;
  f_priority : num;
  f_weight : num;
  f_test_model : jstr;
  f_auto_ban : num;
  f_status : num;
  f_status_code_mapping : jstr;
  f_tag : jstr;
  f_remark : jstr;
  f_setting : jstr;
  f_param_override : jstr;
  f_header_override : jstr;
  f_settings : jstr;
  f_other : jstr;
  f_multi_key_mode : jstr;
  f_multi_key_type : jstr;
  f_batch_add_set_key_prefix_2_name : bool;
  f_key_mode : jstr;
  f_force_format : jsval;
  f_thinking_to_content : jsval;
  f_proxy : jsval;
  f_pass_through_body_enabled : jsval;
  f_system_prompt : jsval;
  f_system_prompt_override : jsval;
  f_is_enterprise_account : bool;
  f_vertex_key_type : jsval;
  f_aws_key_type : jsval;
  f_azure_responses_version : jsval;
  f_allow_service_tier : bool;
  f_disable_store : bool;
  f_allow_safety_identifier : bool;
  f_allow_include_obfuscation : bool;
  f_allow_inference_geo : bool;
  f_allow_speed : bool;
  f_claude_beta_query : bool;
  f_upstream_model_update_check_enabled : bool;
  f_upstream_model_update_auto_sync_enabled : bool;
  f_upstream_model_update_ignored_models : jstr
}.

Definition jtext (s : string) : jsval := JStr (js_of_string s).

Definition CHANNEL_FORM_DEFAULT_VALUES : ChannelFormValues :=
  {| f_name := []; f_type := of_Z 1; f_base_url := []; f_key := []; f_openai_organization := []; f_models := [];
     f_group := [js "default"]; f_model_mapping := []; f_priority := of_Z 0; f_weight := of_Z 0; f_test_model := [];
     f_auto_ban := of_Z 1; f_status := of_Z 1; f_status_code_mapping := []; f_tag := []; f_remark := []; f_setting := [];
     f_param_override := []; f_header_override := []; f_settings := js "{}"; f_other := []; f_multi_key_mode := js "single";
     f_multi_key_type := js "random"; f_batch_add_set_key_prefix_2_name := false; f_key_mode := js "append";
     f_force_format := JBool false; f_thinking_to_content := JBool false; f_proxy := jtext "";
     f_pass_through_body_enabled := JBool false; f_system_prompt := jtext ""; f_system_prompt_override := JBool false;
     f_is_enterprise_account := false; f_vertex_key_type := jtext "json"; f_aws_key_type := jtext "ak_sk";
     f_azure_responses_version := jtext ""; f_allow_service_tier := false; f_disable_store := false;
     f_allow_safety_identifier := false; f_allow_include_obfuscation := false; f_allow_inference_geo := false;
     f_allow_speed := false; f_claude_beta_query := false; f_upstream_model_update_check_enabled := false;
     f_upstream_model_update_auto_sync_enabled := false; f_upstream_model_update_ignored_models := [] |}.

(** ** Lists *)

Definition parseModels (models : jstr) : list jstr := parse_list models.
Definition parseGroups (groups : jstr) : list jstr := parse_list groups.
Definition formatModels (models : list jstr) : jstr := join (js ",") models.
Definition formatGroups (groups : list jstr) : jstr := join (js ",") groups.

(** ** Validation of texts *)

Definition validateJSON (value : jstr) : bool :=
  if negb (str_truthy value) || str_eqb (trim value) [] then true
  else match json_parse value with Some _ => true | None => false end.

Definition validateModelMapping (value : jstr) : bool :=
  if negb (str_truthy value) || str_eqb (trim value) [] then true else validateJSON value.

(** ** From a channel to the form *)

(** [text || ''] of a nullish text. *)
Definition text_or_empty (s : option jstr) : jstr := default [] s.

(** [x || 0] of a nullish number. *)
Definition number_or_zero (v : jsval) : num := match v with JNum x => num_or x (of_Z 0) | _ => of_Z 0 end.

(** A stored text: its value, or undefined when it is empty or no JSON; reading
    a property of null throws and is caught, which leaves the defaults. *)
Definition stored (s : jstr) : jsval := if str_truthy s then default JUndef (json_parse s) else JUndef.

Definition is_true (k : string) (v : jsval) : bool := strict_eq (prop k v) (JBool true).

Definition transformChannelToFormDefaults (channel : Channel) : outcome ChannelFormValues :=
  let extra := stored (text_or_empty (setting channel)) in
  let parsed := stored (settings channel) in
  match channel_info channel with
  | None => Throw
  | Some info =>
      Ret {| f_name := name channel;
             f_type := type channel;
             f_base_url := text_or_empty (base_url channel);
             f_key := [];
             f_openai_organization := text_or_empty (openai_organization channel);
             f_models := models channel;
             f_group := parseGroups (str_or (group channel) (js "default"));
             f_model_mapping := text_or_empty (model_mapping channel);
             f_priority := number_or_zero (priority channel);
             f_weight := number_or_zero (weight channel);
             f_test_model := text_or_empty (test_model channel);
             f_auto_ban := default (of_Z 1) (auto_ban channel);
             f_status := status channel;
             f_status_code_mapping := text_or_empty (status_code_mapping channel);
             f_tag := text_or_empty (tag channel);
             f_remark := remark channel;
             f_setting := text_or_empty (setting channel);
             f_param_override := text_or_empty (param_override channel);
             f_header_override := text_or_empty (header_override channel);
             f_settings := str_or (settings channel) (js "{}");
             f_other := other channel;
             f_multi_key_mode := js "single";
             f_multi_key_type := str_or (multi_key_mode info) (js "random");
             f_batch_add_set_key_prefix_2_name := false;
             f_key_mode := js "append";
             f_force_format := js_or (prop "force_format" extra) (JBool false);
             f_thinking_to_content := js_or (prop "thinking_to_content" extra) (JBool false);
             f_proxy := js_or (prop "proxy" extra) (jtext "");
             f_pass_through_body_enabled := js_or (prop "pass_through_body_enabled" extra) (JBool false);
             f_system_prompt := js_or (prop "system_prompt" extra) (jtext "");
             f_system_prompt_override := js_or (prop "system_prompt_override" extra) (JBool false);
             f_is_enterprise_account := is_true "openrouter_enterprise" parsed;
             f_vertex_key_type := js_or (prop "vertex_key_type" parsed) (jtext "json");
             f_azure_responses_version := js_or (prop "azure_responses_version" parsed) (jtext "");
             f_aws_key_type := js_or (prop "aws_key_type" parsed) (jtext "ak_sk");
             f_allow_service_tier := is_true "allow_service_tier" parsed;
             f_disable_store := is_true "disable_store" parsed;
             f_allow_safety_identifier := is_true "allow_safety_identifier" parsed;
             f_allow_include_obfuscation := is_true "allow_include_obfuscation" parsed;
             f_allow_inference_geo := is_true "allow_inference_geo" parsed;
             f_allow_speed := is_true "allow_speed" parsed;
             f_claude_beta_query := is_true "claude_beta_query" parsed;
             f_upstream_model_update_check_enabled := is_true "upstream_model_update_check_enabled" parsed;
             f_upstream_model_update_auto_sync_enabled := is_true "upstream_model_update_auto_sync_enabled" parsed;
             f_upstream_model_update_ignored_models :=
               match prop "upstream_model_update_ignored_models" parsed with (JArr _) as l => to_string l | _ => [] end |}
  end.

(** ** The stored texts *)

Definition member (k : string) (v : jsval) : jstr * jsval := (js_of_string k, v).

Definition settingObject (f : ChannelFormValues) : obj jsval :=
  [member "force_format" (js_or (f_force_format f) (JBool false));
   member "thinking_to_content" (js_or (f_thinking_to_content f) (JBool false));
   member "proxy" (js_or (f_proxy f) (jtext ""));
   member "pass_through_body_enabled" (js_or (f_pass_through_body_enabled f) (JBool false));
   member "system_prompt" (js_or (f_system_prompt f) (jtext ""));
   member "system_prompt_override" (js_or (f_system_prompt_override f) (JBool false))].

Definition buildSettingJSON (formData : ChannelFormValues) : jstr := json_stringify (JObj (settingObject formData)).

Definition MODEL_FETCHABLE_TYPES : list Z := [1; 4; 14; 17; 20; 23; 24; 25; 26; 27; 31; 34; 35; 40; 42; 43; 47; 48].

Definition is_type (f : ChannelFormValues) (z : Z) : bool := n_eq (f_type f) (of_Z z).

(** An option is written when the type has it, and removed otherwise. *)
Definition put (here : bool) (k : string) (v : jsval) (o : obj jsval) : obj jsval :=
  if here then obj_set (js_of_string k) v o else obj_delete (js_of_string k) o.

(** Assignment of a property when a condition holds. *)
Definition put_if (here : bool) (k : string) (v : jsval) (o : obj jsval) : obj jsval :=
  if here then obj_set (js_of_string k) v o else o.

Definition ignoredModels (f : ChannelFormValues) : list jstr :=
  set_of_list (filter is_nonempty (map trim (split (f_upstream_model_update_ignored_models f) (js ",")))).

Definition upstreamSettings (f : ChannelFormValues) (o : obj jsval) : obj jsval :=
  let check := f_upstream_model_update_check_enabled f in
  let o := obj_set (js "upstream_model_update_check_enabled") (JBool check) o in
  let o := obj_set (js "upstream_model_update_auto_sync_enabled") (JBool (check && f_upstream_model_update_auto_sync_enabled f)) o in
  let o := obj_set (js "upstream_model_update_ignored_models") (JArr (map JStr (ignoredModels f))) o in
  let o := put_if (negb (is_array (prop "upstream_model_update_last_detected_models" (JObj o))) || negb check)
             "upstream_model_update_last_detected_models" (JArr []) o in
  put_if (negb (is_number (prop "upstream_model_update_last_check_time" (JObj o))))
    "upstream_model_update_last_check_time" (JNum (of_Z 0)) o.

(** The options of the channel's type. *)
Definition typedSettings (f : ChannelFormValues) (o : obj jsval) : obj jsval :=
  let openai := is_type f 1 in
  let anthropic := is_type f 14 in
  let o := put (is_type f 41) "vertex_key_type" (js_or (f_vertex_key_type f) (jtext "json")) o in
  let o := put (is_type f 3 && truthy (f_azure_responses_version f)) "azure_responses_version" (f_azure_responses_version f) o in
  let o := put (is_type f 20) "openrouter_enterprise" (JBool (f_is_enterprise_account f)) o in
  let o := put (is_type f 33) "aws_key_type" (js_or (f_aws_key_type f) (jtext "ak_sk")) o in
  let o := put (openai || anthropic) "allow_service_tier" (JBool (f_allow_service_tier f)) o in
  let o := put openai "disable_store" (JBool (f_disable_store f)) o in
  let o := put openai "allow_safety_identifier" (JBool (f_allow_safety_identifier f)) o in
  let o := put openai "allow_include_obfuscation" (JBool (f_allow_include_obfuscation f)) o in
  let o := if openai || negb anthropic then put openai "allow_inference_geo" (JBool (f_allow_inference_geo f)) o else o in
  let o := put_if anthropic "allow_inference_geo" (JBool (f_allow_inference_geo f)) o in
  let o := put anthropic "allow_speed" (JBool (f_allow_speed f)) o in
  put anthropic "claude_beta_query" (JBool (f_claude_beta_query f)) o.

Definition settingsObject (f : ChannelFormValues) (o : obj jsval) : obj jsval :=
  let o := typedSettings f o in
  if existsb (is_type f) MODEL_FETCHABLE_TYPES then upstreamSettings f o else o.

(** The stored settings, or an empty object. *)
Definition startSettings (f : ChannelFormValues) : jsval :=
  if str_truthy (f_settings f) && negb (str_eqb (f_settings f) (js "{}")) then default (JObj []) (json_parse (f_settings f))
  else JObj [].

(** Properties written to an array are not printed; a primitive cannot take
    them, and [in] needs an object. *)
Definition buildSettingsJSON (formData : ChannelFormValues) : outcome jstr :=
  match startSettings formData with
  | JObj o => Ret (json_stringify (JObj (settingsObject formData o)))
  | JArr l => Ret (json_stringify (JArr l))
  | _ => Throw
  end.

(** ** Payloads *)

(** [text || null] and [number || null] *)
Definition text_or_null (s : jstr) : jsval := match s with [] => JNull | _ => JStr s end.
Definition number_or_null (x : num) : jsval := if num_truthy x then JNum x else JNull.

(** Empty texts become null. *)
Definition clean_value (v : jsval) : jsval := match v with JStr [] => JNull | _ => v end.
Definition cleaned (o : obj jsval) : obj jsval := map (λ kv, (kv.1, clean_value kv.2)) o.

(** The fields that both payloads have after the key, with the stored texts. *)
Definition commonFields (f : ChannelFormValues) (setting settings : jstr) : obj jsval :=
  [member "openai_organization" (text_or_null (f_openai_organization f));
   member "models" (JStr (f_models f));
   member "group" (JStr (formatGroups (f_group f)));
   member "model_mapping" (text_or_null (f_model_mapping f));
   member "priority" (number_or_null (f_priority f));
   member "weight" (number_or_null (f_weight f));
   member "test_model" (text_or_null (f_test_model f));
   member "auto_ban" (JNum (f_auto_ban f));
   member "status" (JNum (f_status f));
   member "status_code_mapping" (text_or_null (f_status_code_mapping f));
   member "tag" (text_or_null (f_tag f));
   member "remark" (JStr (f_remark f));
   member "setting" (JStr setting);
   member "param_override" (text_or_null (f_param_override f));
   member "header_override" (text_or_null (f_header_override f));
   member "settings" (JStr settings);
   member "other" (JStr (f_other f))].

Record CreatePayload := {
  p_mode : jstr;
  p_multi_key_mode : option jstr;
  p_batch_add_set_key_prefix_2_name : option bool;
  p_channel : obj jsval
}.

Definition transformFormDataToCreatePayload (formData : ChannelFormValues) : outcome CreatePayload :=
  let mode := str_or (f_multi_key_mode formData) (js "single") in
  settings ← buildSettingsJSON formData;
  let channel := [member "name" (JStr (f_name formData)); member "type" (JNum (f_type formData));
                  member "base_url" (text_or_null (f_base_url formData)); member "key" (JStr (f_key formData))]
                 ++ commonFields formData (buildSettingJSON formData) settings in
  Ret {| p_mode := mode;
         p_multi_key_mode := if str_eqb mode (js "multi_to_single") then Some (f_multi_key_type formData) else None;
         p_batch_add_set_key_prefix_2_name :=
           if str_eqb mode (js "batch") then Some (f_batch_add_set_key_prefix_2_name formData) else None;
         p_channel := cleaned channel |}.

Definition transformFormDataToUpdatePayload (formData : ChannelFormValues) (channelId : num) : outcome (obj jsval) :=
  settings ← buildSettingsJSON formData;
  let payload := [member "id" (JNum channelId); member "name" (JStr (f_name formData)); member "type" (JNum (f_type formData));
                  member "base_url" (text_or_null (f_base_url formData))]
                 ++ commonFields formData (buildSettingJSON formData) settings in
  let payload := put_if (str_truthy (f_key formData) && str_truthy (trim (f_key formData))) "key" (JStr (f_key formData)) payload in
  let payload := cleaned payload in
  let payload := obj_set (js "model_mapping") (JStr (f_model_mapping formData)) payload in
  let payload := obj_set (js "status_code_mapping") (JStr (f_status_code_mapping formData)) payload in
  let payload := obj_set (js "param_override") (JStr (f_param_override formData)) payload in
  Ret (obj_set (js "header_override") (JStr (f_header_override formData)) payload).
