(* ===== verification/ChannelFormFacts.v ===== *)
(** * Channel form: what survives an edit

    A saved form is read back with the options its channel type has, foreign
    settings are kept, saving twice changes nothing, and a key is sent only when
    one was typed.  Emptied fields are sent as null. *)

From S2P Require Import Prelude JsNumber JsString JsValue JsonFacts JsonRoundtrip Host Channels ChannelsFacts ChannelForm.

Open Scope nat_scope.

(** ** Reading properties after assignments *)

Lemma get_put k here k' v o :
  obj_get k (put here k' v o) = if str_eqb k (js_of_string k') then (if here then Some v else None) else obj_get k o.
Proof. unfold put. destruct here; [apply obj_get_set|]. rewrite obj_get_delete. by destruct (str_eqb _ _). Qed.

Lemma get_put_if k here k' v o :
  obj_get k (put_if here k' v o) = if here && str_eqb k (js_of_string k') then Some v else obj_get k o.
Proof. unfold put_if. destruct here; [|done]. apply obj_get_set. Qed.

Lemma get_if (b : bool) k (x y : obj jsval) : obj_get k (if b then x else y) = if b then obj_get k x else obj_get k y.
Proof. by destruct b. Qed.

(** ** The options of a type *)

Definition fetchable (f : ChannelFormValues) : bool := existsb (is_type f) MODEL_FETCHABLE_TYPES.

(** An option with the condition under which the type has it, and its value. *)
Definition typed_options (f : ChannelFormValues) : list (string * (bool * jsval)) :=
  [("vertex_key_type", (is_type f 41, js_or (f_vertex_key_type f) (jtext "json")));
   ("azure_responses_version", (is_type f 3 && truthy (f_azure_responses_version f), f_azure_responses_version f));
   ("openrouter_enterprise", (is_type f 20, JBool (f_is_enterprise_account f)));
   ("aws_key_type", (is_type f 33, js_or (f_aws_key_type f) (jtext "ak_sk")));
   ("allow_service_tier", (is_type f 1 || is_type f 14, JBool (f_allow_service_tier f)));
   ("disable_store", (is_type f 1, JBool (f_disable_store f)));
   ("allow_safety_identifier", (is_type f 1, JBool (f_allow_safety_identifier f)));
   ("allow_include_obfuscation", (is_type f 1, JBool (f_allow_include_obfuscation f)));
   ("allow_inference_geo", (is_type f 1 || is_type f 14, JBool (f_allow_inference_geo f)));
   ("allow_speed", (is_type f 14, JBool (f_allow_speed f)));
   ("claude_beta_query", (is_type f 14, JBool (f_claude_beta_query f)))]%string.

(** The settings of upstream updates, and their values after a save. *)
Definition upstream_options (f : ChannelFormValues) (o : obj jsval) : list (string * jsval) :=
  let check := f_upstream_model_update_check_enabled f in
  let detected := prop "upstream_model_update_last_detected_models" (JObj o) in
  let time := prop "upstream_model_update_last_check_time" (JObj o) in
  [("upstream_model_update_check_enabled", JBool check);
   ("upstream_model_update_auto_sync_enabled", JBool (check && f_upstream_model_update_auto_sync_enabled f));
   ("upstream_model_update_ignored_models", JArr (map JStr (ignoredModels f)));
   ("upstream_model_update_last_detected_models", if is_array detected && check then detected else JArr []);
   ("upstream_model_update_last_check_time", if is_number time then time else JNum (of_Z 0))]%string.

Definition typed_keys : list string := map fst (typed_options CHANNEL_FORM_DEFAULT_VALUES).
Definition upstream_keys : list string := map fst (upstream_options CHANNEL_FORM_DEFAULT_VALUES []).

Lemma prop_get k o : prop k (JObj o) = default JUndef (obj_get (js_of_string k) o).
Proof. done. Qed.

Ltac read_settings :=
  unfold typedSettings, upstreamSettings; cbv zeta;
  repeat (rewrite ?get_if, ?get_put, ?get_put_if, ?obj_get_set, ?prop_get; eval_names; cbv iota).

Lemma typed_get f o : Forall (λ kv : string * (bool * jsval),
  obj_get (js_of_string kv.1) (typedSettings f o) = if kv.2.1 then Some kv.2.2 else None) (typed_options f).
Proof.
  assert (∀ (b : bool) (x : option jsval), (if b then x else x) = x) as same by (intros [] x; reflexivity).
  repeat constructor; cbn [fst snd]; read_settings; rewrite ?same; try done. by destruct (is_type f 1), (is_type f 14).
Qed.

Lemma upstream_get f o : Forall (λ kv : string * jsval,
  obj_get (js_of_string kv.1) (upstreamSettings f o) = Some kv.2) (upstream_options f o).
Proof.
  repeat constructor; cbn [fst snd]; read_settings; rewrite <- ?prop_get; try done.
  - destruct (f_upstream_model_update_check_enabled f), (is_array _) eqn:E; cbn [negb orb andb]; try done.
    unfold prop in *. by destruct (obj_get _ o).
  - destruct (is_number _) eqn:E; cbn [negb]; [|done]. unfold prop in *. by destruct (obj_get _ o).
Qed.

(** A name that is none of the listed ones. *)
Lemma not_listed k l s : k ∉ map js_of_string l → s ∈ l → str_eqb k (js_of_string s) = false.
Proof. intros Hk Hs. apply bool_decide_eq_false. intros ->. apply Hk. apply list_elem_of_fmap. by exists s. Qed.

Ltac skip_names H :=
  repeat match goal with
  | |- context [str_eqb ?k (js_of_string ?s)] =>
      rewrite (not_listed k _ s H) by (apply (bool_decide_unpack _); vm_compute; exact I)
  end; rewrite ?andb_false_r; cbv iota.

Lemma typed_other k f o : k ∉ map js_of_string typed_keys → obj_get k (typedSettings f o) = obj_get k o.
Proof.
  intros H. unfold typedSettings. cbv zeta. rewrite !get_put, get_put_if, get_if, !get_put. skip_names H. by destruct (_ || _).
Qed.

Lemma upstream_other k f o : k ∉ map js_of_string upstream_keys → obj_get k (upstreamSettings f o) = obj_get k o.
Proof. intros H. unfold upstreamSettings. cbv zeta. rewrite !get_put_if, !obj_get_set. by skip_names H. Qed.

(** Disjoint lists of names. *)
Lemma keys_disjoint : Forall (λ s, js_of_string s ∉ map js_of_string upstream_keys) typed_keys ∧
  Forall (λ s, js_of_string s ∉ map js_of_string typed_keys) upstream_keys.
Proof. split; apply (bool_decide_unpack _); vm_compute; exact I. Qed.

Lemma settings_typed f o : Forall (λ kv : string * (bool * jsval),
  obj_get (js_of_string kv.1) (settingsObject f o) = if kv.2.1 then Some kv.2.2 else None) (typed_options f).
Proof.
  unfold settingsObject. fold (fetchable f). destruct (fetchable f); [|apply typed_get].
  pose proof (typed_get f o) as H. pose proof (proj1 keys_disjoint) as Hd. rewrite !Forall_forall in *. intros kv Hkv.
  rewrite <- (H kv Hkv). apply upstream_other, Hd. change typed_keys with (map fst (typed_options f)).
  apply list_elem_of_fmap. by exists kv.
Qed.

Lemma upstream_options_typed f o : upstream_options f (typedSettings f o) = upstream_options f o.
Proof.
  unfold upstream_options, prop. rewrite !typed_other; [done|..]; apply (bool_decide_unpack _); vm_compute; exact I.
Qed.

Lemma settings_upstream f o : fetchable f = true → Forall (λ kv : string * jsval,
  obj_get (js_of_string kv.1) (settingsObject f o) = Some kv.2) (upstream_options f o).
Proof.
  intros Hf. unfold settingsObject. fold (fetchable f). rewrite Hf, <- (upstream_options_typed f o). apply upstream_get.
Qed.

(** Saving a channel writes the options its type has, with the values of the
    form, removes the options of other types, and keeps every stored setting the
    form does not know. *)
Theorem settings_exact (f : ChannelFormValues) (o : obj jsval) (k : jstr) :
  Forall (λ kv : string * (bool * jsval),
    obj_get (js_of_string kv.1) (settingsObject f o) = if kv.2.1 then Some kv.2.2 else None) (typed_options f) ∧
  (fetchable f = true → Forall (λ kv : string * jsval,
    obj_get (js_of_string kv.1) (settingsObject f o) = Some kv.2) (upstream_options f o)) ∧
  (k ∉ map js_of_string (typed_keys ++ upstream_keys) → obj_get k (settingsObject f o) = obj_get k o).
Proof.
  split; [apply settings_typed|]. split; [apply settings_upstream|]. rewrite map_app. intros Hk%not_elem_of_app.
  unfold settingsObject. fold (fetchable f). destruct (fetchable f); [rewrite upstream_other by apply Hk|]; apply typed_other, Hk.
Qed.

(** ** Saving twice *)

#[local] Opaque js_of_string.

Lemma put_same (here : bool) k v o : obj_get (js_of_string k) o = (if here then Some v else None) → put here k v o = o.
Proof. unfold put. destruct here; [apply obj_set_same|apply obj_delete_absent]. Qed.

Lemma typed_again f o : Forall (λ kv : string * (bool * jsval),
  obj_get (js_of_string kv.1) o = if kv.2.1 then Some kv.2.2 else None) (typed_options f) → typedSettings f o = o.
Proof.
  intros H. unfold typed_options in H. rewrite !Forall_cons in H. cbn [fst snd] in H.
  destruct H as (H1 & H2 & H3 & H4 & H5 & H6 & H7 & H8 & H9 & H10 & H11 & _). unfold typedSettings. cbv zeta.
  rewrite (put_same _ "vertex_key_type" _ o H1), (put_same _ "azure_responses_version" _ o H2),
    (put_same _ "openrouter_enterprise" _ o H3), (put_same _ "aws_key_type" _ o H4), (put_same _ "allow_service_tier" _ o H5),
    (put_same _ "disable_store" _ o H6), (put_same _ "allow_safety_identifier" _ o H7), (put_same _ "allow_include_obfuscation" _ o H8).
  assert ((if is_type f 1 || negb (is_type f 14) then put (is_type f 1) "allow_inference_geo" (JBool (f_allow_inference_geo f)) o else o) = o) as ->.
  { destruct (is_type f 1) eqn:E1, (is_type f 14) eqn:E2; cbn [orb negb] in *; try done; by apply put_same. }
  assert (put_if (is_type f 14) "allow_inference_geo" (JBool (f_allow_inference_geo f)) o = o) as ->.
  { unfold put_if. destruct (is_type f 14); [|done]. apply obj_set_same. by rewrite orb_true_r in H9. }
  by rewrite (put_same _ "allow_speed" _ o H10), (put_same _ "claude_beta_query" _ o H11).
Qed.

Lemma put_if_same (here : bool) k v o : (here = true → obj_get (js_of_string k) o = Some v) → put_if here k v o = o.
Proof. unfold put_if. destruct here; [|done]. intros H. by apply obj_set_same, H. Qed.

Lemma upstream_again f o o' : Forall (λ kv : string * jsval, obj_get (js_of_string kv.1) o' = Some kv.2) (upstream_options f o) →
  upstreamSettings f o' = o'.
Proof.
  intros H. unfold upstream_options in H. rewrite !Forall_cons in H. cbn [fst snd] in H.
  destruct H as (H1 & H2 & H3 & H4 & H5 & _). unfold upstreamSettings. cbv zeta.
  rewrite (obj_set_same _ _ o' H1), (obj_set_same _ _ o' H2), (obj_set_same _ _ o' H3).
  rewrite (put_if_same (negb (is_array _) || _)).
  - apply put_if_same. rewrite (prop_get _ o'), H5. cbn [default Datatypes.id]. destruct (is_number (prop _ (JObj o))) eqn:E; cbv iota; [by rewrite E|done].
  - rewrite (prop_get _ o'), H4. cbn [default Datatypes.id].
    destruct (f_upstream_model_update_check_enabled f), (is_array (prop _ (JObj o))) eqn:E; cbn [andb]; cbv iota; rewrite ?E; done.
Qed.

(** Saving the settings of a channel a second time with the same form changes
    nothing: the text that is stored is a fixed point. *)
Theorem settings_idempotent (f : ChannelFormValues) (o : obj jsval) :
  settingsObject f (settingsObject f o) = settingsObject f o.
Proof.
  assert (typedSettings f (settingsObject f o) = settingsObject f o) as Ht by (apply typed_again, settings_typed).
  unfold settingsObject at 1. rewrite Ht. fold (fetchable f). destruct (fetchable f) eqn:Hf; [|done].
  apply (upstream_again f o). by apply settings_upstream.
Qed.

(** ** Reading a saved channel *)

Lemma text_of_strings (l : list jstr) : to_string (JArr (map JStr l)) = join (js ",") l.
Proof. cbn [to_string]. f_equal. rewrite map_map. cbn [is_nullish to_string]. apply map_id. Qed.

Lemma get_member k k' v o : obj_get k (member k' v :: o) = if str_eqb k (js_of_string k') then Some v else obj_get k o.
Proof. done. Qed.

Lemma js_or_twice v d : js_or (js_or v d) d = js_or v d.
Proof. unfold js_or. destruct (truthy v) eqn:E; [by rewrite E|]. by destruct (truthy d). Qed.

Lemma stored_printed v : expressible v → stored (json_stringify v) = v.
Proof.
  intros He. destruct (json_roundtrip v He) as [Hr _]. unfold stored. destruct (json_stringify v) eqn:E; [done|].
  cbn [str_truthy]. by rewrite Hr.
Qed.

(** A saved channel is read back into the form: the general options are those
    of the form, an option of a channel type is kept when the channel has that
    type and takes its default otherwise, the settings of upstream updates are
    kept with the ignored models cleaned, and the key is never shown. *)
Theorem saved_channel_read_back (f : ChannelFormValues) (o : obj jsval) (c : Channel) (info : ChannelInfo) :
  startSettings f = JObj o → expressible (JObj (settingsObject f o)) → expressible (JObj (settingObject f)) →
  setting c = Some (buildSettingJSON f) → buildSettingsJSON f = Ret (settings c) → channel_info c = Some info →
  ∃ f', transformChannelToFormDefaults c = Ret f' ∧ f_key f' = [] ∧
    (f_force_format f' = js_or (f_force_format f) (JBool false) ∧
     f_thinking_to_content f' = js_or (f_thinking_to_content f) (JBool false) ∧ f_proxy f' = js_or (f_proxy f) (jtext "") ∧
     f_pass_through_body_enabled f' = js_or (f_pass_through_body_enabled f) (JBool false) ∧
     f_system_prompt f' = js_or (f_system_prompt f) (jtext "") ∧
     f_system_prompt_override f' = js_or (f_system_prompt_override f) (JBool false)) ∧
    (f_vertex_key_type f' = js_or (if is_type f 41 then f_vertex_key_type f else JUndef) (jtext "json") ∧
     f_azure_responses_version f' = js_or (if is_type f 3 then f_azure_responses_version f else JUndef) (jtext "") ∧
     f_aws_key_type f' = js_or (if is_type f 33 then f_aws_key_type f else JUndef) (jtext "ak_sk") ∧
     f_is_enterprise_account f' = is_type f 20 && f_is_enterprise_account f ∧
     f_allow_service_tier f' = (is_type f 1 || is_type f 14) && f_allow_service_tier f ∧
     f_disable_store f' = is_type f 1 && f_disable_store f ∧
     f_allow_safety_identifier f' = is_type f 1 && f_allow_safety_identifier f ∧
     f_allow_include_obfuscation f' = is_type f 1 && f_allow_include_obfuscation f ∧
     f_allow_inference_geo f' = (is_type f 1 || is_type f 14) && f_allow_inference_geo f ∧
     f_allow_speed f' = is_type f 14 && f_allow_speed f ∧
     f_claude_beta_query f' = is_type f 14 && f_claude_beta_query f) ∧
    (fetchable f = true →
     f_upstream_model_update_check_enabled f' = f_upstream_model_update_check_enabled f ∧
     f_upstream_model_update_auto_sync_enabled f' = f_upstream_model_update_check_enabled f && f_upstream_model_update_auto_sync_enabled f ∧
     f_upstream_model_update_ignored_models f' = join (js ",") (ignoredModels f)).
Proof.
  intros Hstart He1 He2 Hset Hsets Hinfo. unfold buildSettingsJSON in Hsets. rewrite Hstart in Hsets. injection Hsets as Hsets.
  unfold transformChannelToFormDefaults. rewrite Hinfo, Hset, <- Hsets. cbn [text_or_empty default Datatypes.id].
  unfold buildSettingJSON. rewrite !stored_printed by done. eexists. split; [reflexivity|].
  cbn [f_key f_force_format f_thinking_to_content f_proxy f_pass_through_body_enabled f_system_prompt f_system_prompt_override
    f_vertex_key_type f_azure_responses_version f_aws_key_type f_is_enterprise_account f_allow_service_tier f_disable_store
    f_allow_safety_identifier f_allow_include_obfuscation f_allow_inference_geo f_allow_speed f_claude_beta_query
    f_upstream_model_update_check_enabled f_upstream_model_update_auto_sync_enabled f_upstream_model_update_ignored_models].
  split; [done|]. split.
  { unfold settingObject, prop. rewrite !get_member. eval_names. cbv iota. cbn [default Datatypes.id]. by rewrite !js_or_twice. }
  split.
  - pose proof (settings_typed f o) as H. unfold typed_options in H. rewrite !Forall_cons in H. cbn [fst snd] in H.
    destruct H as (H1 & H2 & H3 & H4 & H5 & H6 & H7 & H8 & H9 & H10 & H11 & _). unfold is_true, prop.
    rewrite H1, H2, H3, H4, H5, H6, H7, H8, H9, H10, H11.
    split_and!.
    + by destruct (is_type f 41); [apply js_or_twice|].
    + unfold js_or. destruct (is_type f 3), (truthy (f_azure_responses_version f)) eqn:E; cbn [andb default Datatypes.id]; by rewrite ?E.
    + by destruct (is_type f 33); [apply js_or_twice|].
    + by destruct (is_type f 20), (f_is_enterprise_account f).
    + by destruct (_ || _), (f_allow_service_tier f).
    + by destruct (is_type f 1), (f_disable_store f).
    + by destruct (is_type f 1), (f_allow_safety_identifier f).
    + by destruct (is_type f 1), (f_allow_include_obfuscation f).
    + by destruct (_ || _), (f_allow_inference_geo f).
    + by destruct (is_type f 14), (f_allow_speed f).
    + by destruct (is_type f 14), (f_claude_beta_query f).
  - intros Hf. pose proof (settings_upstream f o Hf) as H. unfold upstream_options in H. rewrite !Forall_cons in H. cbn [fst snd] in H.
    destruct H as (H1 & H2 & H3 & _). unfold is_true, prop. rewrite H1, H2, H3. cbn [default Datatypes.id].
    rewrite text_of_strings. by destruct (f_upstream_model_update_check_enabled f), (f_upstream_model_update_auto_sync_enabled f).
Qed.

(** ** The payload of an update *)

Lemma get_cleaned k o : obj_get k (cleaned o) = option_map clean_value (obj_get k o).
Proof.
  induction o as [|[k' v] o IH]; [done|].
  change (cleaned ((k', v) :: o)) with ((k', clean_value v) :: cleaned o). cbn [obj_get]. destruct (str_eqb k k'); [reflexivity|exact IH].
Qed.

Lemma get_app k (o o' : obj jsval) : obj_get k (o ++ o') = match obj_get k o with Some v => Some v | None => obj_get k o' end.
Proof. induction o as [|[k' v] o IH]; [done|]. cbn [app obj_get]. by destruct (str_eqb k k'). Qed.

Ltac read_payload :=
  rewrite !obj_get_set, get_cleaned, get_put_if; unfold commonFields; cbn [app]; rewrite ?get_member; eval_names; cbv iota;
  cbn [option_map obj_get].

(** An update sends the key exactly when one was typed, and sends the mappings
    and overrides as texts, also when they were emptied, so that they can be
    cleared; every other emptied text, and a priority or weight of zero, is
    sent as null. *)
Theorem update_payload_fields (f : ChannelFormValues) (channelId : num) (p : obj jsval) :
  transformFormDataToUpdatePayload f channelId = Ret p →
  obj_get (js "key") p = (if str_truthy (trim (f_key f)) then Some (JStr (f_key f)) else None) ∧
  obj_get (js "model_mapping") p = Some (JStr (f_model_mapping f)) ∧
  obj_get (js "status_code_mapping") p = Some (JStr (f_status_code_mapping f)) ∧
  obj_get (js "param_override") p = Some (JStr (f_param_override f)) ∧
  obj_get (js "header_override") p = Some (JStr (f_header_override f)) ∧
  obj_get (js "base_url") p = Some (text_or_null (f_base_url f)) ∧
  obj_get (js "tag") p = Some (text_or_null (f_tag f)) ∧
  obj_get (js "remark") p = Some (text_or_null (f_remark f)) ∧
  obj_get (js "priority") p = Some (number_or_null (f_priority f)) ∧
  obj_get (js "weight") p = Some (number_or_null (f_weight f)).
Proof.
  unfold transformFormDataToUpdatePayload, mbind, outcome_bind. destruct (buildSettingsJSON f) as [s|]; [|done].
  intros [= <-]. cbv zeta. assert (∀ u, clean_value (text_or_null u) = text_or_null u) as Ht by (by intros []).
  assert (∀ x, clean_value (number_or_null x) = number_or_null x) as Hx by (intros x; unfold number_or_null; by destruct (num_truthy x)).
  split_and!; read_payload; rewrite ?Ht, ?Hx; try done.
  destruct (f_key f) as [|c k]; [done|]. cbn [str_truthy andb]. by destruct (str_truthy _).
Qed.

(** Stored settings that are a number, a text, a boolean or null make saving throw. *)
Lemma settings_throw f : buildSettingsJSON f = Throw ↔ is_array (startSettings f) = false ∧ ∀ o, startSettings f ≠ JObj o.
Proof. unfold buildSettingsJSON. destruct (startSettings f); split; try done; naive_solver. Qed.

(** ** Witnesses *)

Definition sample_form : ChannelFormValues :=
  {| f_name := js "main"; f_type := of_Z 14; f_base_url := []; f_key := []; f_openai_organization := []; f_models := js "claude";
     f_group := [js "default"]; f_model_mapping := []; f_priority := of_Z 0; f_weight := of_Z 3; f_test_model := [];
     f_auto_ban := of_Z 1; f_status := of_Z 1; f_status_code_mapping := []; f_tag := []; f_remark := []; f_setting := [];
     f_param_override := []; f_header_override := []; f_settings := quoted "{'disable_store':true,'custom':1}"; f_other := [];
     f_multi_key_mode := js "single"; f_multi_key_type := js "random"; f_batch_add_set_key_prefix_2_name := false;
     f_key_mode := js "append"; f_force_format := JBool true; f_thinking_to_content := JBool false; f_proxy := jtext "";
     f_pass_through_body_enabled := JBool false; f_system_prompt := jtext "be brief"; f_system_prompt_override := JBool false;
     f_is_enterprise_account := false; f_vertex_key_type := jtext "json"; f_aws_key_type := jtext "ak_sk";
     f_azure_responses_version := jtext ""; f_allow_service_tier := true; f_disable_store := true;
     f_allow_safety_identifier := false; f_allow_include_obfuscation := false; f_allow_inference_geo := true;
     f_allow_speed := false; f_claude_beta_query := true; f_upstream_model_update_check_enabled := true;
     f_upstream_model_update_auto_sync_enabled := true; f_upstream_model_update_ignored_models := js "a, b,a" |}.

Lemma update_payload_fields_witness : ∃ p, transformFormDataToUpdatePayload sample_form (of_Z 7) = Ret p ∧
  obj_get (js "key") p = None ∧ obj_get (js "priority") p = Some JNull.
Proof.
  destruct (transformFormDataToUpdatePayload sample_form (of_Z 7)) as [p|] eqn:E; [|vm_compute in E; discriminate E].
  exists p. split; [reflexivity|]. destruct (update_payload_fields sample_form (of_Z 7) p E) as (H1 & _ & _ & _ & _ & _ & _ & _ & H2 & _).
  split; [exact H1|exact H2].
Defined.

Definition sample_info : ChannelInfo :=
  {| is_multi_key := false; multi_key_size := of_Z 0; multi_key_status_list := None; multi_key_disabled_reason := None;
     multi_key_disabled_time := None; multi_key_polling_index := of_Z 0; multi_key_mode := js "random" |}.

Definition sample_channel : Channel :=
  {| id := of_Z 7; type := of_Z 14; key := []; openai_organization := None; test_model := None; status := of_Z 1; name := js "main";
     weight := JNull; created_time := Format.TNum (of_Z 0); test_time := Format.TNum (of_Z 0); response_time := of_Z 0; base_url := None; other := [];
     balance := of_Z 0; balance_updated_time := Format.TNum (of_Z 0); models := js "claude"; group := js "default"; used_quota := of_Z 0;
     model_mapping := None; status_code_mapping := None; priority := JNull; auto_ban := None; other_info := []; tag := None;
     setting := Some (buildSettingJSON sample_form); param_override := None; header_override := None; remark := [];
     max_input_tokens := of_Z 0;
     channel_info := Some sample_info;
     settings := match buildSettingsJSON sample_form with Ret s => s | Throw => [] end |}.

Lemma saved_channel_read_back_witness : ∃ f', transformChannelToFormDefaults sample_channel = Ret f' ∧
  f_claude_beta_query f' = true ∧ f_disable_store f' = false ∧ f_upstream_model_update_ignored_models f' = js "a,b".
Proof.
  assert (startSettings sample_form = JObj [member "disable_store" (JBool true); member "custom" (JNum (of_Z 1))]) as Hs
    by (vm_compute; reflexivity).
  destruct (saved_channel_read_back sample_form _ sample_channel sample_info Hs) as (f' & H1 & _ & _ & H3 & H4).
  - apply expressibleb_ok. vm_compute. reflexivity.
  - apply expressibleb_ok. vm_compute. reflexivity.
  - reflexivity.
  - vm_compute. reflexivity.
  - reflexivity.
  - exists f'. split; [exact H1|]. destruct H3 as (_ & _ & _ & _ & _ & H5 & _ & _ & _ & _ & H6).
    assert (fetchable sample_form = true) as Hf by (vm_compute; reflexivity). destruct (H4 Hf) as (_ & _ & H7).
    rewrite H5, H6, H7. split; [vm_compute; reflexivity|]. split; vm_compute; reflexivity.
Defined.
