(* ===== verification/Time.v ===== *)
(** * Time ranges and axis labels (lib/time.ts)

    A date object is its time in milliseconds.  The calendar of the reader's
    time zone and the calendar arithmetic of dayjs are the fields of the class
    [Calendar]; the current time is an argument [now]. *)

From S2P Require Import Prelude JsNumber JsNumberFacts JsString JsRegex JsValue Host Currency Format.

Open Scope Z_scope.

Inductive TimeGranularity := Hour | Day | Week.

#[export] Instance TimeGranularity_eq_dec : EqDecision TimeGranularity.
Proof. solve_decision. Defined.

Definition granularity_text (g : TimeGranularity) : jstr :=
  match g with Hour => js "hour" | Day => js "day" | Week => js "week" end.

(** The fields of a date in local time, and their setters, which return the
    new time. *)
Class Calendar := {
  get_month : num → num;                                  (* d.getMonth() *)
  get_date : num → num;                                   (* d.getDate() *)
  get_hours : num → num;                                  (* d.getHours() *)
  set_month : num → num → num;                            (* d.setMonth(m) *)
  set_date : num → num → num;                             (* d.setDate(n) *)
  set_hours : num → num → num;                            (* d.setHours(h) *)
  set_clock : num → num → num → num → num → num;          (* d.setHours(h, m, s, ms) *)
  dayjs_add_days : num → num → num                        (* dayjs(ms).add(n, 'day') *)
}.

(** [new Date(ms).getTime()]: whole milliseconds within 100 million days of
    the epoch. *)
Definition time_clip (ms : num) : num :=
  if isFinite ms && n_le (n_abs ms) (of_Z 8640000000000000) then of_Z (trunc_Z ms) else NaN.

Section Time.
Context `{H : Host} `{C : Calendar}.

(** Unlike [toTimestampMs] of lib/format.ts, it keeps dates of the year 1. *)
Definition toMs (value : option Timestamp) (unit : TimeUnit) : option num :=
  match value with
  | None => None
  | Some (TText []) => None
  | Some (TText s) => let ms := date_parse s in if isNaN ms then None else Some ms
  | Some (TNum n) =>
      if n_eq n (of_Z (-1)) || n_eq n (of_Z 0) then None
      else match unit with Seconds => Some (n_mul n (of_Z 1000)) | Milliseconds => Some n end
  end.

Definition dateToUnixTimestamp (date : num) : num := math_floor (n_div date (of_Z 1000)).

Definition toStartOfDay (tsSec : num) : num :=
  let d := time_clip (n_mul tsSec (of_Z 1000)) in
  let d := set_clock d (of_Z 0) (of_Z 0) (of_Z 0) (of_Z 0) in
  math_floor (n_div d (of_Z 1000)).

Definition getStartOfDay (date : num) : num := set_clock date (of_Z 0) (of_Z 0) (of_Z 0) (of_Z 0).
Definition getEndOfDay (date : num) : num := set_clock date (of_Z 23) (of_Z 59) (of_Z 59) (of_Z 999).

Record DateRange := { start : num; end_ : num }.

Definition getNormalizedDateRange (days fromDate : num) : DateRange :=
  let end' := fromDate in
  let start' := set_date fromDate (n_sub (get_date end') days) in
  {| start := getStartOfDay start'; end_ := getEndOfDay end' |}.

Definition getRollingDateRange (days fromDate : num) : DateRange :=
  let ms := n_mul (n_mul (n_mul (n_mul days (of_Z 24)) (of_Z 60)) (of_Z 60)) (of_Z 1000) in
  {| start := time_clip (n_sub fromDate ms); end_ := fromDate |}.

Record TimeRange := { start_timestamp : num; end_timestamp : num }.

(** [days * 24 * 3600] *)
Definition days_sec (days : num) : num := n_mul (n_mul days (of_Z 24)) (of_Z 3600).

Definition computeTimeRange (nowMs days : num) (startDate endDate : option num) (useStartOfDay : bool) : TimeRange :=
  let now := math_floor (n_div nowMs (of_Z 1000)) in
  if useStartOfDay then
    let defaultEnd := toStartOfDay now in
    let end' := match endDate with Some d => toStartOfDay (dateToUnixTimestamp d) | None => defaultEnd end in
    let start' := match startDate with
                  | Some d => toStartOfDay (dateToUnixTimestamp d)
                  | None => n_sub end' (days_sec days)
                  end in
    {| start_timestamp := start';
       end_timestamp := n_sub (n_add end' (n_mul (of_Z 24) (of_Z 3600))) (of_Z 1) |}
  else
    let end' := match endDate with Some d => dateToUnixTimestamp d | None => n_add now (of_Z 3600) end in
    let start' := match startDate with
                  | Some d => dateToUnixTimestamp d
                  | None => n_sub end' (days_sec days)
                  end in
    {| start_timestamp := start'; end_timestamp := end' |}.

Definition formatDate (tsSec : option Timestamp) : jstr :=
  match toMs tsSec Seconds with None => [] | Some ms => dayjs_format ms (js "YYYY-MM-DD") end.

Definition formatDateTimeObject (date : num) : jstr := dayjs_format date (js "YYYY-MM-DD HH:mm:ss").

Definition formatChartTime (timestamp : option Timestamp) (granularity : TimeGranularity) : jstr :=
  match toMs timestamp Seconds with
  | None => []
  | Some ms =>
      let result := dayjs_format ms (js "MM-DD") in
      match granularity with
      | Hour => result ++ js " " ++ dayjs_format ms (js "HH") ++ js ":00"
      | Week =>
          let weekEnd := dayjs_add_days ms (of_Z 6) in
          result ++ js " - " ++ dayjs_format weekEnd (js "MM-DD")
      | Day => result
      end
  end.

Definition addTimeToDate (months days hours baseDate : num) : option num :=
  if n_eq months (of_Z 0) && n_eq days (of_Z 0) && n_eq hours (of_Z 0) then None
  else
    let result := baseDate in
    let result := set_month result (n_add (get_month result) months) in
    let result := set_date result (n_add (get_date result) days) in
    let result := set_hours result (n_add (get_hours result) hours) in
    Some result.
End Time.

(** ** A host in coordinated universal time, for evaluation *)

(** Year, month and day of a day counted from 1970-01-01: days are counted
    from the first of March of year 0, in cycles of 400 years. *)
Definition civil_of_day (day : Z) : Z * Z * Z :=
  let z := day + 719468 in
  let era := z / 146097 in
  let doe := z mod 146097 in
  let yoe := (doe - doe / 1460 + doe / 36524 - doe / 146096) / 365 in
  let doy := doe - (365 * yoe + yoe / 4 - yoe / 100) in
  let mp := (5 * doy + 2) / 153 in
  let d := doy - (153 * mp + 2) / 5 + 1 in
  let m := if mp <? 10 then mp + 3 else mp - 9 in
  (yoe + era * 400 + (if m <=? 2 then 1 else 0), m, d).

Definition day_of_civil (y m d : Z) : Z :=
  let y := if m <=? 2 then y - 1 else y in
  let era := y / 400 in
  let yoe := y mod 400 in
  let doy := (153 * (if 2 <? m then m - 3 else m + 9) + 2) / 5 + d - 1 in
  era * 146097 + yoe * 365 + yoe / 4 - yoe / 100 + doy - 719468.

Definition two_digits (z : Z) : jstr := [digit (Z.to_N (z / 10 mod 10)); digit (Z.to_N (z mod 10))].

Definition ms_per_day : Z := 86400000.

Definition utc_format (ms : num) (pattern : jstr) : jstr :=
  let z := trunc_Z ms in
  let '(y, m, d) := civil_of_day (z / ms_per_day) in
  let month_day := two_digits m ++ js "-" ++ two_digits d in
  if str_eqb pattern (js "MM-DD") then month_day
  else if str_eqb pattern (js "HH") then two_digits (z mod ms_per_day / 3600000)
  else num_to_string (of_Z y) ++ js "-" ++ month_day.

Definition utc_host : Host := {|
  number_format o x := num_to_string x;
  math_pow x y := x;
  date_parse s := NaN;
  utc_full_year ms := of_Z (civil_of_day (trunc_Z ms / ms_per_day)).1.1;
  date_of_input s := NaN;
  dayjs_format := utc_format;
  from_now ms := num_to_string ms;
  localeCompare a b := if str_lt a b then of_Z (-1) else if str_lt b a then of_Z 1 else of_Z 0;
  year_month_label y m := num_to_string y
|}.

Definition utc_calendar : Calendar := {|
  get_month ms := of_Z ((civil_of_day (trunc_Z ms / ms_per_day)).1.2 - 1);
  get_date ms := of_Z (civil_of_day (trunc_Z ms / ms_per_day)).2;
  get_hours ms := of_Z (trunc_Z ms mod ms_per_day / 3600000);
  set_month ms x :=
    let z := trunc_Z ms in
    let '(y, _, d) := civil_of_day (z / ms_per_day) in
    let x := trunc_Z x in
    of_Z (day_of_civil (y + x / 12) (x mod 12 + 1) d * ms_per_day + z mod ms_per_day);
  set_date ms x :=
    let z := trunc_Z ms in
    of_Z (z + (trunc_Z x - (civil_of_day (z / ms_per_day)).2) * ms_per_day);
  set_hours ms x :=
    let z := trunc_Z ms in of_Z (z + (trunc_Z x - z mod ms_per_day / 3600000) * 3600000);
  set_clock ms h m s x :=
    of_Z (trunc_Z ms / ms_per_day * ms_per_day + trunc_Z h * 3600000 + trunc_Z m * 60000 + trunc_Z s * 1000 + trunc_Z x);
  dayjs_add_days ms n := of_Z (trunc_Z ms + trunc_Z n * ms_per_day)
|}.

(** The last day of February 2024, and the week that starts there. *)
Example chart_week : formatChartTime (H := utc_host) (C := utc_calendar) (Some (TNum (of_Z 1709164800))) Week = js "02-29 - 03-06".
Proof. vm_compute. reflexivity. Qed.

Example whole_day : computeTimeRange (C := utc_calendar) (of_Z 1709210000000) (of_Z 7) None None true =
  {| start_timestamp := of_Z 1708560000; end_timestamp := of_Z 1709251199 |}.
Proof. vm_compute. reflexivity. Qed.

(** One month after 31 January is in March: there is no 31 February. *)
Example month_overflow : addTimeToDate (C := utc_calendar) (of_Z 1) (of_Z 0) (of_Z 0) (of_Z 1706659200000) =
  Some (of_Z (day_of_civil 2024 3 2 * ms_per_day)).
Proof. vm_compute. reflexivity. Qed.
