(* ===== verification/Dashboard.v ===== *)
(** * The dashboard (features/dashboard: types.ts, constants.ts, lib/)

    Filters and saved chart preferences (lib/filters.ts) over the browser's
    local storage, totals (lib/stats.ts), texts (lib/text.ts, api-info.ts) and
    the aggregation behind the charts (lib/charts.ts).  A JavaScript [Map] with
    text keys is an [obj]: entries in the order in which their keys were first
    set.  Of the chart specifications the model has the values, the colours and
    the functions that fill the tooltips; the constant styling is left out. *)

From S2P Require Import Prelude JsNumber JsNumberFacts JsString JsRegex JsValue Host Currency Format Time.

Open Scope Z_scope.

(** ** Chart preferences *)

Inductive ConsumptionDistributionChartType := Bar | Area.
Inductive ModelAnalyticsChartTab := Trend | Proportion | Top.

#[export] Instance ConsumptionDistributionChartType_eq_dec : EqDecision ConsumptionDistributionChartType.
Proof. solve_decision. Defined.
#[export] Instance ModelAnalyticsChartTab_eq_dec : EqDecision ModelAnalyticsChartTab.
Proof. solve_decision. Defined.

Definition chart_type_text (c : ConsumptionDistributionChartType) : jstr :=
  match c with Bar => js "bar" | Area => js "area" end.
Definition chart_tab_text (c : ModelAnalyticsChartTab) : jstr :=
  match c with Trend => js "trend" | Proportion => js "proportion" | Top => js "top" end.

Record DashboardChartPreferences := {
  consumptionDistributionChart : ConsumptionDistributionChartType;
  modelAnalyticsChart : ModelAnalyticsChartTab;
  defaultTimeRangeDays : num;
  defaultTimeGranularity : TimeGranularity
}.

Record DashboardFilters := {
  f_start_timestamp : option num;
  f_end_timestamp : option num;
  f_time_granularity : option TimeGranularity;
  f_username : option jstr
}.

Definition TIME_GRANULARITY_STORAGE_KEY : jstr := js "data_export_default_time".
Definition DASHBOARD_CHART_PREFERENCES_STORAGE_KEY : jstr := js "dashboard_models_chart_preferences".
Definition DEFAULT_TIME_GRANULARITY : TimeGranularity := Hour.
Definition MAX_CHART_TREND_POINTS : nat := 7.

Definition DEFAULT_DASHBOARD_CHART_PREFERENCES : DashboardChartPreferences := {|
  consumptionDistributionChart := Bar;
  modelAnalyticsChart := Trend;
  defaultTimeRangeDays := of_Z 1;
  defaultTimeGranularity := DEFAULT_TIME_GRANULARITY |}.

Definition TIME_RANGE_BY_GRANULARITY (g : TimeGranularity) : num :=
  match g with Hour => of_Z 1 | Day => of_Z 7 | Week => of_Z 30 end.

Definition TIME_RANGE_PRESETS : list (jstr * num) :=
  [(js "1 Day", of_Z 1); (js "7 Days", of_Z 7); (js "14 Days", of_Z 14); (js "29 Days", of_Z 29)].

Definition EMPTY_DASHBOARD_FILTERS : DashboardFilters := {|
  f_start_timestamp := None; f_end_timestamp := None;
  f_time_granularity := Some Hour; f_username := Some [] |}.

(** The value a type guard lets through. *)
Definition as_text_of {A} (values : list A) (text : A → jstr) (value : jsval) : option A :=
  match value with
  | JStr s => List.find (λ a, str_eqb (text a) s) values
  | _ => None
  end.

Definition isTimeGranularity (value : jsval) : option TimeGranularity :=
  as_text_of [Hour; Day; Week] granularity_text value.

Definition isConsumptionDistributionChartType (value : jsval) : option ConsumptionDistributionChartType :=
  as_text_of [Bar; Area] chart_type_text value.

Definition isModelAnalyticsChartTab (value : jsval) : option ModelAnalyticsChartTab :=
  as_text_of [Trend; Proportion; Top] chart_tab_text value.

Definition isTimeRangePresetDays (value : jsval) : option num :=
  match value with
  | JNum x => if existsb (λ preset : jstr * num, n_eq preset.2 x) TIME_RANGE_PRESETS then Some x else None
  | _ => None
  end.

(** Local storage: texts under text keys. *)
Abbreviation storage := (obj jstr).

Definition getLegacySavedGranularity (localStorage : storage) : TimeGranularity :=
  match obj_get TIME_GRANULARITY_STORAGE_KEY localStorage with
  | Some saved => default DEFAULT_TIME_GRANULARITY (isTimeGranularity (JStr saved))
  | None => DEFAULT_TIME_GRANULARITY
  end.

(** [Object.entries] lists integer keys first. *)
Definition clean_step (cleaned : obj jsval) (kv : jstr * jsval) : obj jsval :=
  match kv.2 with
  | JUndef | JNull => cleaned
  | JStr value =>
      let trimmed := trim value in
      if str_truthy trimmed then obj_set kv.1 (JStr trimmed) cleaned else cleaned
  | value => obj_set kv.1 value cleaned
  end.

Definition cleanFilters (filters : obj jsval) : obj jsval := fold_left clean_step (own_entries filters) [].

Definition getSavedChartPreferences (localStorage : storage) : DashboardChartPreferences :=
  let fallbackPreferences := {|
    consumptionDistributionChart := consumptionDistributionChart DEFAULT_DASHBOARD_CHART_PREFERENCES;
    modelAnalyticsChart := modelAnalyticsChart DEFAULT_DASHBOARD_CHART_PREFERENCES;
    defaultTimeRangeDays := defaultTimeRangeDays DEFAULT_DASHBOARD_CHART_PREFERENCES;
    defaultTimeGranularity := getLegacySavedGranularity localStorage |} in
  match obj_get DASHBOARD_CHART_PREFERENCES_STORAGE_KEY localStorage with
  | None | Some [] => fallbackPreferences
  | Some raw =>
      match json_parse raw with
      | None | Some JNull => fallbackPreferences
      | Some parsed => {|
          consumptionDistributionChart :=
            default (consumptionDistributionChart fallbackPreferences)
              (isConsumptionDistributionChartType (prop "consumptionDistributionChart" parsed));
          modelAnalyticsChart :=
            default (modelAnalyticsChart fallbackPreferences)
              (isModelAnalyticsChartTab (prop "modelAnalyticsChart" parsed));
          defaultTimeRangeDays :=
            default (defaultTimeRangeDays fallbackPreferences)
              (isTimeRangePresetDays (prop "defaultTimeRangeDays" parsed));
          defaultTimeGranularity :=
            default (defaultTimeGranularity fallbackPreferences)
              (isTimeGranularity (prop "defaultTimeGranularity" parsed)) |}
      end
  end.

Definition preferences_value (p : DashboardChartPreferences) : jsval :=
  JObj [(js "consumptionDistributionChart", JStr (chart_type_text (consumptionDistributionChart p)));
        (js "modelAnalyticsChart", JStr (chart_tab_text (modelAnalyticsChart p)));
        (js "defaultTimeRangeDays", JNum (defaultTimeRangeDays p));
        (js "defaultTimeGranularity", JStr (granularity_text (defaultTimeGranularity p)))].

Definition saveChartPreferences (preferences : DashboardChartPreferences) (localStorage : storage) : storage :=
  obj_set DASHBOARD_CHART_PREFERENCES_STORAGE_KEY (json_stringify (preferences_value preferences)) localStorage.

Definition getSavedGranularity (override : option TimeGranularity) (localStorage : storage) : TimeGranularity :=
  match override with
  | Some g => g
  | None => defaultTimeGranularity (getSavedChartPreferences localStorage)
  end.

Definition saveGranularity (granularity : TimeGranularity) (localStorage : storage) : storage :=
  let saved := getSavedChartPreferences localStorage in
  let localStorage := saveChartPreferences {|
    consumptionDistributionChart := consumptionDistributionChart saved;
    modelAnalyticsChart := modelAnalyticsChart saved;
    defaultTimeRangeDays := defaultTimeRangeDays saved;
    defaultTimeGranularity := granularity |} localStorage in
  obj_set TIME_GRANULARITY_STORAGE_KEY (granularity_text granularity) localStorage.

Definition getDefaultDays (granularity : option TimeGranularity) (localStorage : storage) : num :=
  match granularity with
  | None => defaultTimeRangeDays (getSavedChartPreferences localStorage)
  | Some g => TIME_RANGE_BY_GRANULARITY (getSavedGranularity (Some g) localStorage)
  end.

Definition buildDefaultDashboardFilters (now : num) (preferences : DashboardChartPreferences) : DashboardFilters :=
  let range := getRollingDateRange (defaultTimeRangeDays preferences) now in
  {| f_start_timestamp := Some (start range);
     f_end_timestamp := Some (end_ range);
     f_time_granularity := Some (defaultTimeGranularity preferences);
     f_username := f_username EMPTY_DASHBOARD_FILTERS |}.

Record QueryParams := {
  q_start_timestamp : num;
  q_end_timestamp : num;
  q_default_time : TimeGranularity;
  q_username : option jstr
}.

Definition buildQueryParams (timeRange : TimeRange) (filters : option DashboardFilters) (localStorage : storage) : QueryParams := {|
  q_start_timestamp := start_timestamp timeRange;
  q_end_timestamp := end_timestamp timeRange;
  q_default_time := getSavedGranularity (filters ≫= f_time_granularity) localStorage;
  q_username :=
    match filters ≫= f_username with
    | Some u => if str_truthy u then Some u else None
    | None => None
    end |}.

(** ** Totals (lib/stats.ts) *)

Record QuotaDataItem := {
  i_username : option jstr;
  i_model_name : option jstr;
  i_created_at : Timestamp;
  i_token_used : option num;
  i_count : option num;
  i_quota : option num
}.

(** [Number(x) || 0] *)
Definition amount (x : option num) : num := num_or (default NaN x) (of_Z 0).

Record Stats := { quota : num; count : num; tokens : num }.

Definition no_stats : Stats := {| quota := of_Z 0; count := of_Z 0; tokens := of_Z 0 |}.

Definition add_stats (acc : Stats) (item : QuotaDataItem) : Stats := {|
  quota := n_add (quota acc) (amount (i_quota item));
  count := n_add (count acc) (amount (i_count item));
  tokens := n_add (tokens acc) (amount (i_token_used item)) |}.

Definition calculateDashboardStats (data : list QuotaDataItem) : Stats := fold_left add_stats data no_stats.

(** ** Texts (lib/text.ts, lib/api-info.ts) *)

Definition tag_re : regex := Seqs [Lit "<"; Star true (Chr (λ c, negb (N.eqb c (chr ">")))); Lit ">"].

Definition getPreviewText (content : jstr) (maxLength : nat) : jstr :=
  if negb (str_truthy content) then []
  else
    let plainText := trim (replace_units (λ c, existsb (N.eqb c) (js "#*_")) [] (re_replace_all tag_re (λ _, []) content)) in
    if (maxLength <? length plainText)%nat then substring plainText 0 maxLength ++ js "..." else plainText.

Definition getLatencyColorClass (latency : num) : jstr :=
  if n_lt latency (of_Z 200) then js "text-success"
  else if n_lt latency (of_Z 500) then js "text-warning"
  else js "text-destructive".

(** ** Charts (lib/charts.ts) *)

Section Charts.
Context `{H : Host} `{C : Calendar}.

Definition safeDivide (value divisor : num) (precision : num) : num :=
  let result := n_div value divisor in
  if isNaN result || negb (isFinite result) then of_Z 0
  else
    let factor := math_pow (of_Z 10) precision in
    n_div (math_round (n_mul result factor)) factor.

Definition toChartSec (value : Timestamp) : num :=
  match value with
  | TText s =>
      let ms := date_parse s in
      if isNaN ms then of_Z 0 else math_floor (n_div ms (of_Z 1000))
  | TNum n => num_or n (of_Z 0)
  end.

(** The colours of the page's theme come from its style sheet; those of the
    chart library are pairs of a largest number of series and its colours. *)
Record ColorScheme := { maxDomainLength : option num; scheme : list jstr }.

(** [Array.from({ length }, (_, index) => colors[index % colors.length])] *)
Definition cycle_colors (length_ : nat) (colors : list jstr) : list jstr :=
  map (λ i, default [] (colors !! (i mod length colors)%nat)) (seq 0 length_).

Definition getVChartDefaultColors (vchartDefaultDataScheme : list ColorScheme) (themeColors : list jstr)
    (domainLength : nat) : outcome (list jstr) :=
  match themeColors with
  | _ :: _ => Ret (cycle_colors (Nat.max domainLength (length themeColors)) themeColors)
  | [] =>
      let fits item := match maxDomainLength item with
                       | Some m => negb (num_truthy m) || n_le (of_Z (Z.of_nat domainLength)) m
                       | None => true
                       end in
      match List.find fits vchartDefaultDataScheme with
      | Some item => Ret (scheme item)
      | None => match last vchartDefaultDataScheme with Some item => Ret (scheme item) | None => Throw end
      end
  end.

Context (state : SystemConfigState) (tt_ : jstr → jstr).

Definition renderQuotaCompat (rawQuota : num) (digits : nat) : jstr :=
  let '(config, meta) := getCurrencyDisplay state in
  let money symbol rate :=
    let usd := n_div rawQuota (quotaPerUnit config) in
    let value := n_mul usd rate in
    let fixed := toFixed value digits in
    if n_eq (parseFloat fixed) (of_Z 0) && n_gt rawQuota (of_Z 0) && n_gt value (of_Z 0)
    then symbol ++ toFixed (math_pow (of_Z 10) (n_neg (of_Z (Z.of_nat digits)))) digits
    else symbol ++ fixed in
  match meta with
  | MTokens _ => number_format (nf None None None None None) rawQuota
  | MCurrency symbol _ exchangeRate => money symbol exchangeRate
  | MCustom symbol exchangeRate => money symbol exchangeRate
  end.

Definition otherLabel : jstr := tt_ (js "Other").

Definition formatInt (value : num) : jstr := number_format (nf None None None None (Some O)) value.
Definition formatQuotaValue (value : num) : jstr := renderQuotaCompat value 4.
Definition formatQuotaTotal (value : num) : jstr := renderQuotaCompat value 2.

(** *** Aggregation by time and by model *)

Context (timeGranularity : TimeGranularity).

Definition item_time (item : QuotaDataItem) : jstr := formatChartTime (Some (i_created_at item)) timeGranularity.
Definition item_model (item : QuotaDataItem) : jstr := str_or (default [] (i_model_name item)) (js "Unknown").

(** [map.set(model, existing + item)] *)
Definition add_to (key : QuotaDataItem → jstr) (m : obj Stats) (item : QuotaDataItem) : obj Stats :=
  let existing := default no_stats (obj_get (key item) m) in
  obj_set (key item) (add_stats existing item) m.

Definition aggregate_item (maps : obj (obj Stats) * obj Stats) (item : QuotaDataItem) : obj (obj Stats) * obj Stats :=
  let '(timeModelMap, modelTotalsMap) := maps in
  let timeKey := item_time item in
  let timeModelMap := if obj_has timeKey timeModelMap then timeModelMap else obj_set timeKey [] timeModelMap in
  let modelMap := default [] (obj_get timeKey timeModelMap) in
  (obj_set timeKey (add_to item_model modelMap item) timeModelMap, add_to item_model modelTotalsMap item).

Definition aggregate (data : list QuotaDataItem) : obj (obj Stats) * obj Stats := fold_left aggregate_item data ([], []).

(** *** The time axis *)

Definition intervalSec : num :=
  match timeGranularity with Week => of_Z 604800 | Day => of_Z 86400 | Hour => of_Z 3600 end.

Definition lastTime (data : list QuotaDataItem) : num :=
  fold_left math_max (map (λ item, toChartSec (i_created_at item)) data) (n_neg Infinity).

Definition fillTimePoints (data : list QuotaDataItem) (times : list jstr) : list jstr :=
  if (MAX_CHART_TREND_POINTS <=? length times)%nat then times
  else
    map (λ i, formatChartTime
                (Some (TNum (n_sub (lastTime data)
                  (n_mul (of_Z (Z.of_nat (MAX_CHART_TREND_POINTS - 1 - i))) intervalSec))))
                timeGranularity)
      (seq 0 MAX_CHART_TREND_POINTS).

(** *** The values of the charts *)

Record PieValue := { type_ : jstr; value_ : num }.
Record LineValue := { Time : jstr; Model : jstr; rawQuota : num; Usage : num; TimeSum : num }.
Record TrendValue := { t_Time : jstr; t_Model : jstr; t_Count : num }.
Record RankValue := { r_Model : jstr; r_Count : num }.

(** [(a, b) => b.x - a.x], [(a, b) => a.Time.localeCompare(b.Time)] *)
Definition descending {A} (f : A → num) (a b : A) : bool := n_lt (n_sub (f b) (f a)) (of_Z 0).
Definition by_time {A} (f : A → jstr) (a b : A) : bool := n_lt (localeCompare (f a) (f b)) (of_Z 0).

Definition total_of (f : Stats → num) (modelTotalsMap : obj Stats) : num :=
  fold_left (λ sum kv, n_add sum (num_or (f kv.2) (of_Z 0))) modelTotalsMap (of_Z 0).

Definition pieValues (modelTotalsMap : obj Stats) : list PieValue :=
  sort_stable (descending value_)
    (map (λ kv, {| type_ := kv.1; value_ := num_or (count kv.2) (of_Z 0) |}) modelTotalsMap).

(** [Number(timeModelMap.get(time)?.get(model)?.f) || 0] *)
Definition cell (timeModelMap : obj (obj Stats)) (f : Stats → num) (time model : jstr) : num :=
  amount (f <$> (obj_get time timeModelMap ≫= obj_get model)).

(** Dollars, to four digits. *)
Definition usage (raw : num) : num :=
  let quotaPerUnit := quotaPerUnit (getCurrencyDisplay state).1 in
  let usd := if num_truthy raw then n_div raw quotaPerUnit else of_Z 0 in
  if num_truthy usd then string_to_number (toFixed usd 4) else of_Z 0.

Definition line_at (timeModelMap : obj (obj Stats)) (sortedModels : list jstr) (time : jstr) : list LineValue :=
  let timeData := map (λ model,
    let raw := cell timeModelMap quota time model in
    {| Time := time; Model := model; rawQuota := raw; Usage := usage raw; TimeSum := of_Z 0 |}) sortedModels in
  let timeSum := fold_left (λ sum item, n_add sum (rawQuota item)) timeData (of_Z 0) in
  map (λ item, {| Time := Time item; Model := Model item; rawQuota := rawQuota item;
                  Usage := Usage item; TimeSum := timeSum |})
    (sort_stable (descending rawQuota) timeData).

Definition lineValues (timeModelMap : obj (obj Stats)) (sortedModels chartTimes : list jstr) : list LineValue :=
  sort_stable (by_time Time) (concat (map (line_at timeModelMap sortedModels) chartTimes)).

Definition MAX_AREA_MODELS : nat := 15.

Definition ranked (f : Stats → num) (modelTotalsMap : obj Stats) : list (jstr * num) :=
  sort_stable (descending snd) (map (λ kv : jstr * Stats, (kv.1, num_or (f kv.2) (of_Z 0))) modelTotalsMap).

Record Bucket := { b_rawQuota : num; b_usage : num }.

Definition area_step (timeModelMap : obj (obj Stats)) (topAreaModels : list jstr) (time : jstr)
    (acc : obj Bucket * num) (model : jstr) : obj Bucket * num :=
  let '(buckets, timeSum) := acc in
  let raw := cell timeModelMap quota time model in
  let timeSum := n_add timeSum raw in
  let key := if bool_decide (model ∈ topAreaModels) then model else otherLabel in
  let prev := default {| b_rawQuota := of_Z 0; b_usage := of_Z 0 |} (obj_get key buckets) in
  (obj_set key {| b_rawQuota := n_add (b_rawQuota prev) raw;
                  b_usage := string_to_number (toFixed (n_add (b_usage prev) (usage raw)) 4) |} buckets, timeSum).

Definition area_at (timeModelMap : obj (obj Stats)) (topAreaModels sortedModels : list jstr) (time : jstr) : list LineValue :=
  let '(buckets, timeSum) := fold_left (area_step timeModelMap topAreaModels time) sortedModels ([], of_Z 0) in
  map (λ kv : jstr * Bucket, {| Time := time; Model := kv.1; rawQuota := b_rawQuota kv.2;
                                Usage := b_usage kv.2; TimeSum := timeSum |}) buckets.

Definition areaValues (timeModelMap : obj (obj Stats)) (modelTotalsMap : obj Stats) (sortedModels chartTimes : list jstr) : list LineValue :=
  let topAreaModels := map fst (take MAX_AREA_MODELS (ranked quota modelTotalsMap)) in
  sort_stable (by_time Time) (concat (map (area_at timeModelMap topAreaModels sortedModels) chartTimes)).

Definition MAX_TREND_MODELS : nat := 20.

Definition trend_at (timeModelMap : obj (obj Stats)) (topTrendModels otherTrendModels : list jstr) (time : jstr) : list TrendValue :=
  map (λ model, {| t_Time := time; t_Model := model; t_Count := cell timeModelMap count time model |}) topTrendModels ++
  match otherTrendModels with
  | [] => []
  | _ => [{| t_Time := time; t_Model := otherLabel;
             t_Count := fold_left (λ sum model, n_add sum (cell timeModelMap count time model)) otherTrendModels (of_Z 0) |}]
  end.

Definition modelLineValues (timeModelMap : obj (obj Stats)) (modelTotalsMap : obj Stats) (chartTimes : list jstr) : list TrendValue :=
  let rankedTrendModels := map fst (ranked count modelTotalsMap) in
  sort_stable (by_time t_Time)
    (concat (map (trend_at timeModelMap (take MAX_TREND_MODELS rankedTrendModels) (drop MAX_TREND_MODELS rankedTrendModels)) chartTimes)).

Definition MAX_RANK_MODELS : nat := 20.

Definition rankValues (modelTotalsMap : obj Stats) : list RankValue :=
  let allRankValues := map (λ kv : jstr * num, {| r_Model := kv.1; r_Count := kv.2 |}) (ranked count modelTotalsMap) in
  if (MAX_RANK_MODELS <? length allRankValues)%nat then
    let topModels := take MAX_RANK_MODELS allRankValues in
    let otherCount := fold_left (λ sum item, n_add sum (r_Count item)) (drop MAX_RANK_MODELS allRankValues) (of_Z 0) in
    topModels ++ [{| r_Model := otherLabel; r_Count := otherCount |}]
  else allRankValues.

(** *** Colours *)

Definition sortedTimes (timeModelMap : obj (obj Stats)) : list jstr := sort_stable str_lt (map fst timeModelMap).
Definition sortedModels (modelTotalsMap : obj Stats) : list jstr := sort_stable str_lt (map fst modelTotalsMap).

Definition modelColorDomain (modelTotalsMap : obj Stats) : list jstr :=
  set_of_list (sortedModels modelTotalsMap ++ [otherLabel]).

(** [modelColorRange[modelColorDomain.indexOf(otherLabel)]], if it is a text *)
Definition otherTooltipColor (domain range : list jstr) : jstr :=
  match list_find (eq otherLabel) domain with
  | Some (i, _) => default (js "#FF8A00") (range !! i)
  | None => js "#FF8A00"
  end.

(** *** Tooltips *)

Record TooltipLineItem := {
  key : jstr;
  value : jsval;
  datum : option (obj jsval);
  shapeFill : option jstr
}.

(** [array[i].value = v]: the items keep their place. *)
Definition set_value (v : jstr) (item : TooltipLineItem) : TooltipLineItem :=
  {| key := key item; value := JStr v; datum := datum item; shapeFill := shapeFill item |}.

(** [Number(item.value) || 0], [Number(item.datum?.k) || 0] *)
Definition item_number (item : TooltipLineItem) : num := num_or (to_number (value item)) (of_Z 0).
Definition datum_field (k : string) (item : TooltipLineItem) : jsval :=
  match datum item with Some d => default JUndef (obj_get (js_of_string k) d) | None => JUndef end.
Definition datum_number (k : string) (item : TooltipLineItem) : num := num_or (to_number (datum_field k item)) (of_Z 0).

Definition isOtherTooltipKey (k : jstr) : bool := str_eqb k (js "Other") || str_eqb k otherLabel.

Definition tooltip_models (array : list TooltipLineItem) : list TooltipLineItem :=
  sort_stable (descending item_number) (List.filter (λ item, negb (isOtherTooltipKey (key item))) array).
Definition tooltip_others (array : list TooltipLineItem) : list TooltipLineItem :=
  List.filter (λ item, isOtherTooltipKey (key item)) array.

Definition MAX_TOOLTIP_MODELS : nat := 15.

(** [sum = Number(datum.TimeSum) || sum], for the items that have one *)
Definition time_sum_step (sum : num) (item : TooltipLineItem) : num :=
  if truthy (datum_field "TimeSum" item) then num_or (to_number (datum_field "TimeSum" item)) sum else sum.

Definition total_line (text : jstr) : TooltipLineItem :=
  {| key := tt_ (js "Total:"); value := JStr text; datum := None; shapeFill := None |}.

(** The loop formats the values in place, so the items of [modelItems] and
    [otherItems] are formatted too. *)
Definition dimensionUpdateContent (otherTooltipColor : jstr) (collapseOverflow : bool)
    (array : list TooltipLineItem) : list TooltipLineItem :=
  let modelItems := tooltip_models array in
  let otherItems := tooltip_others array in
  let array := modelItems ++ otherItems in
  let sum := fold_left time_sum_step array (of_Z 0) in
  let show item := set_value (formatQuotaValue (item_number item)) item in
  let modelItems := map show modelItems in
  let otherItems := map show otherItems in
  let array := map show array in
  let array :=
    if collapseOverflow && (MAX_TOOLTIP_MODELS <? length array)%nat then
      let visible := take MAX_TOOLTIP_MODELS modelItems in
      let otherSum := fold_left (λ sum item, n_add sum (datum_number "rawQuota" item))
                        (drop MAX_TOOLTIP_MODELS modelItems ++ otherItems) (of_Z 0) in
      visible ++ [{| key := otherLabel; value := JStr (formatQuotaValue otherSum);
                     datum := None; shapeFill := Some otherTooltipColor |}]
    else array in
  total_line (formatQuotaValue sum) :: array.

(** The tooltip of the call trend: counts, and their sum. *)
Definition countUpdateContent (array : list TooltipLineItem) : list TooltipLineItem :=
  let array := tooltip_models array ++ tooltip_others array in
  let sum := fold_left (λ sum item, n_add sum (item_number item)) array (of_Z 0) in
  total_line (formatInt sum) :: map (λ item, set_value (formatInt (item_number item)) item) array.

(** *** The whole computation

    Each specification is represented by the values of its data; the totals
    are the displayed texts.  Without data the values are empty. *)

Record ProcessedChartData := {
  pie_values : list PieValue;
  line_values : list LineValue;
  area_values : list LineValue;
  model_line_values : list TrendValue;
  rank_values : list RankValue;
  color_domain : list jstr;
  color_range : list jstr;
  totalQuotaDisplay : jstr;
  totalCountDisplay : jstr
}.

Definition chartTimes (data : list QuotaDataItem) : list jstr :=
  fillTimePoints data (sortedTimes (aggregate data).1).

Definition processChartData (vchartDefaultDataScheme : list ColorScheme) (themeColors : list jstr)
    (data : list QuotaDataItem) : outcome ProcessedChartData :=
  match data with
  | [] => Ret {|
      pie_values := []; line_values := []; area_values := []; model_line_values := []; rank_values := [];
      color_domain := []; color_range := [];
      totalQuotaDisplay := formatQuotaTotal (of_Z 0); totalCountDisplay := formatInt (of_Z 0) |}
  | _ =>
      let '(timeModelMap, modelTotalsMap) := aggregate data in
      let models := sortedModels modelTotalsMap in
      let domain := modelColorDomain modelTotalsMap in
      range ← getVChartDefaultColors vchartDefaultDataScheme themeColors (length domain);
      let times := fillTimePoints data (sortedTimes timeModelMap) in
      Ret {|
        pie_values := pieValues modelTotalsMap;
        line_values := lineValues timeModelMap models times;
        area_values := areaValues timeModelMap modelTotalsMap models times;
        model_line_values := modelLineValues timeModelMap modelTotalsMap times;
        rank_values := rankValues modelTotalsMap;
        color_domain := domain;
        color_range := range;
        totalQuotaDisplay := formatQuotaTotal (total_of quota modelTotalsMap);
        totalCountDisplay := formatInt (total_of count modelTotalsMap) |}
  end.

(** *** Users *)

Definition USER_COLOR_FALLBACKS : list jstr :=
  [js "#5B8FF9"; js "#5AD8A6"; js "#F6BD16"; js "#E8684A"; js "#6DC8EC";
   js "#9270CA"; js "#FF9D4D"; js "#269A99"; js "#FF99C3"; js "#5D7092"].

Definition userColorRange (limit : nat) (themeUserColors : list jstr) : list jstr :=
  match themeUserColors with
  | _ :: _ => cycle_colors (Nat.max limit (length themeUserColors)) themeUserColors
  | [] => USER_COLOR_FALLBACKS
  end.

Definition item_user (item : QuotaDataItem) : jstr := str_or (default [] (i_username item)) (js "unknown").

(** [map.set(user, (map.get(user) || 0) + (Number(item.quota) || 0))] *)
Definition add_quota (m : obj num) (item : QuotaDataItem) : obj num :=
  let prev := num_or (default NaN (obj_get (item_user item) m)) (of_Z 0) in
  obj_set (item_user item) (n_add prev (amount (i_quota item))) m.

Definition userQuotaTotal (data : list QuotaDataItem) : obj num := fold_left add_quota data [].

(** [Array.from(userQuotaTotal.entries()).sort((a, b) => b[1] - a[1])] *)
Definition sorted_users (data : list QuotaDataItem) : list (jstr * num) :=
  sort_stable (descending snd) (userQuotaTotal data).

Definition topUsers (limit : nat) (data : list QuotaDataItem) : list jstr := map fst (take limit (sorted_users data)).

(** The time axis has every time; the map only the quota of the top users. *)
Definition user_time_step (topUserSet : list jstr) (acc : obj (obj num) * list jstr) (item : QuotaDataItem) : obj (obj num) * list jstr :=
  let '(timeUserMap, allTimePoints) := acc in
  let timeKey := formatChartTime (Some (TNum (toChartSec (i_created_at item)))) timeGranularity in
  let allTimePoints := if bool_decide (timeKey ∈ allTimePoints) then allTimePoints else allTimePoints ++ [timeKey] in
  if bool_decide (item_user item ∈ topUserSet) then
    let timeUserMap := if obj_has timeKey timeUserMap then timeUserMap else obj_set timeKey [] timeUserMap in
    let map_ := default [] (obj_get timeKey timeUserMap) in
    (obj_set timeKey (add_quota map_ item) timeUserMap, allTimePoints)
  else (timeUserMap, allTimePoints).

Record UserRankValue := { u_User : jstr; u_rawQuota : num; u_Usage : num }.
Record UserTrendValue := { ut_Time : jstr; ut_User : jstr; ut_rawQuota : num; ut_Usage : num }.

(** [Number((quota / quotaPerUnit).toFixed(4))] *)
Definition user_usage (q : num) : num :=
  string_to_number (toFixed (n_div q (quotaPerUnit (getCurrencyDisplay state).1)) 4).

Definition userColorMap (range topUsers : list jstr) : obj jstr :=
  fold_left (λ acc iu, obj_set iu.2 (default (js "undefined") (range !! (iu.1 mod length range)%nat)) acc)
    (zip (seq 0 (length topUsers)) topUsers) [].

(** The values of the two specifications, their specified colours, and the
    total of their subtitles, absent when there is no data. *)
Record ProcessedUserChartData := {
  user_rank_values : list UserRankValue;
  user_trend_values : list UserTrendValue;
  user_colors : obj jstr;
  user_total : option num
}.

Definition processUserChartData (limit : nat) (themeUserColors : list jstr) (data : list QuotaDataItem) : ProcessedUserChartData :=
  match data with
  | [] => {| user_rank_values := []; user_trend_values := []; user_colors := []; user_total := None |}
  | _ =>
      let sorted := sorted_users data in
      let top := topUsers limit data in
      let totalQuota := fold_left (λ s uq, n_add s uq.2) (take limit sorted) (of_Z 0) in
      let '(timeUserMap, allTimePoints) := fold_left (user_time_step top) data ([], []) in
      {| user_rank_values := map (λ uq : jstr * num,
           {| u_User := uq.1; u_rawQuota := uq.2; u_Usage := user_usage uq.2 |}) (take limit sorted);
         user_trend_values := concat (map (λ time, map (λ user,
           let q := num_or (default NaN (obj_get time timeUserMap ≫= obj_get user)) (of_Z 0) in
           {| ut_Time := time; ut_User := user; ut_rawQuota := q; ut_Usage := user_usage q |}) top)
             (sort_stable str_lt allTimePoints));
         user_colors := userColorMap (userColorRange limit themeUserColors) top;
         user_total := Some totalQuota |}
  end.
End Charts.
