(* ===== verification/DashboardFacts.v ===== *)
(** * Facts about the dashboard

    Grouping and sums behind the charts: the folds over JavaScript maps are
    groupings by key, and whole amounts are neither lost nor counted twice. *)

From S2P Require Import Prelude JsNumber JsNumberFacts JsString JsRegex JsValue JsonFacts JsonRoundtrip Host Currency Format Time Dashboard.

Open Scope Z_scope.

(** ** Grouping by key *)

Section Grouping.
Context {A V : Type} (key : A → jstr).
Implicit Types (l : list A) (g : jstr → V).

(** The reference: for each key, in the order of first occurrence, what a
    function computes of the elements with that key. *)
Definition grouped (f : list A → V) l : obj V :=
  map (λ k, (k, f (filter (λ x, key x = k) l))) (set_of_list (map key l)).

Definition tabulate g (ks : list jstr) : obj V := map (λ k, (k, g k)) ks.

Lemma get_tabulate g k ks : obj_get k (tabulate g ks) = if decide (k ∈ ks) then Some (g k) else None.
Proof.
  induction ks as [|k' ks IH]; cbn [tabulate map obj_get]; [by rewrite decide_False by set_solver|].
  destruct (str_eqb k k') eqn:E; unfold str_eqb in E.
  - apply bool_decide_eq_true in E as ->. by rewrite decide_True by set_solver.
  - apply bool_decide_eq_false in E. fold (tabulate g ks). rewrite IH.
    destruct (decide (k ∈ ks)); [rewrite decide_True by set_solver|rewrite decide_False by set_solver]; done.
Qed.

Lemma set_tabulate g k v ks : NoDup ks → k ∈ ks →
  obj_set k v (tabulate g ks) = tabulate (λ k', if decide (k' = k) then v else g k') ks.
Proof.
  induction 1 as [|k' ks Hk Hks IH]; intros Hin; [set_solver|].
  simpl. destruct (str_eqb k k') eqn:E; unfold str_eqb in E.
  - apply bool_decide_eq_true in E as ->. rewrite decide_True by done. f_equal.
    apply map_ext_in. intros k Hk'. rewrite decide_False; [done|].
    intros ->. by apply Hk, list_elem_of_In.
  - apply bool_decide_eq_false in E. rewrite decide_False by congruence.
    f_equal. apply IH. set_solver.
Qed.

Lemma group_fold (f : V → A → V) (z : V) l :
  fold_left (λ o x, obj_set (key x) (f (default z (obj_get (key x) o)) x) o) l [] =
  grouped (λ xs, fold_left f xs z) l.
Proof.
  induction l as [|x l IH] using rev_ind; [done|].
  rewrite fold_left_app. cbn [fold_left]. rewrite IH. unfold grouped. rewrite map_app. cbn [map].
  rewrite set_of_list_snoc.
  change (map (λ k, (k, fold_left f (filter (λ x, key x = k) l) z)) ?ks)
    with (tabulate (λ k, fold_left f (filter (λ x, key x = k) l) z) ks).
  rewrite get_tabulate. rewrite (decide_ext (key x ∈ set_of_list (map key l)) (key x ∈ map key l)) by apply elem_of_set_of_list.
  assert (Hg : ∀ k, fold_left f (filter (λ x, key x = k) (l ++ [x])) z =
    if decide (k = key x) then f (fold_left f (filter (λ x, key x = k) l) z) x
    else fold_left f (filter (λ x, key x = k) l) z).
  { intros k. rewrite filter_app. destruct (decide (k = key x)) as [->|Hk].
    - rewrite filter_cons_True by done. by rewrite fold_left_app.
    - rewrite filter_cons_False by congruence. by rewrite app_nil_r. }
  destruct (decide (key x ∈ map key l)) as [Hin|Hin]; simpl.
  - rewrite set_tabulate; [|apply NoDup_set_of_list|by apply elem_of_set_of_list].
    apply map_ext. intros k. f_equal. rewrite Hg. case_decide as Hk; [by rewrite Hk|done].
  - rewrite obj_set_fresh.
    + unfold tabulate. rewrite map_app. cbn [map]. f_equal; [|f_equal; f_equal].
      * apply map_ext_in. intros k Hk. f_equal. rewrite Hg, decide_False; [done|].
        intros ->. apply Hin. apply elem_of_set_of_list, list_elem_of_In, Hk.
      * rewrite Hg, decide_True by done. do 2 f_equal. rewrite filter_none; [done|].
        apply Forall_forall. intros y Hy E. apply Hin. rewrite <- E. by apply list_elem_of_fmap_2.
    + unfold tabulate. rewrite map_map, map_id. by rewrite elem_of_set_of_list.
Qed.

Lemma get_grouped (f : list A → V) k l :
  obj_get k (grouped f l) = if decide (k ∈ map key l) then Some (f (filter (λ x, key x = k) l)) else None.
Proof.
  change (grouped f l) with (tabulate (λ k, f (filter (λ x, key x = k) l)) (set_of_list (map key l))).
  rewrite get_tabulate. apply decide_ext, elem_of_set_of_list.
Qed.

Lemma keys_grouped (f : list A → V) l : map fst (grouped f l) = set_of_list (map key l).
Proof. unfold grouped. by rewrite map_map, map_id. Qed.
End Grouping.

Lemma elem_of_concat_map {A B} (f : A → list B) l y : y ∈ concat (map f l) → ∃ x, x ∈ l ∧ y ∈ f x.
Proof.
  intros (ys & Hys & Hy)%list_elem_of_In%in_concat. apply in_map_iff in Hys as (x & <- & Hx).
  exists x. by rewrite !list_elem_of_In.
Qed.

(** ** Sums of whole amounts *)

Definition zsum (l : list Z) : Z := foldr Z.add 0 l.

Lemma zsum_app l1 l2 : zsum (l1 ++ l2) = zsum l1 + zsum l2.
Proof. induction l1 as [|x l1 IH]; simpl; [done|]. lia. Qed.

#[export] Instance zsum_proper : Proper ((≡ₚ) ==> eq) zsum.
Proof. induction 1; simpl in *; lia. Qed.

Lemma zsum_nonneg l : Forall (λ z, 0 <= z) l → 0 <= zsum l.
Proof. induction 1; simpl; lia. Qed.

Lemma zsum_zero {A} (l : list A) : zsum (map (λ _, 0) l) = 0.
Proof. induction l; simpl; lia. Qed.

Lemma zsum_map_add {A} (f g : A → Z) l : zsum (map (λ x, f x + g x) l) = zsum (map f l) + zsum (map g l).
Proof. induction l as [|x l IH]; simpl; [done|]. lia. Qed.

Lemma zsum_single {A} `{EqDecision A} (a : A) (w : Z) l : NoDup l → a ∈ l →
  zsum (map (λ x, if decide (a = x) then w else 0) l) = w.
Proof.
  induction 1 as [|x l Hx Hl IH]; intros Ha; [set_solver|]. simpl. case_decide as E.
  - subst. rewrite (map_ext_in _ (λ _, 0)), zsum_zero; [lia|].
    intros y Hy%list_elem_of_In. rewrite decide_False; [done|]. congruence.
  - rewrite IH; [lia|]. set_solver.
Qed.

Section Sums.
Context {A : Type} (key : A → jstr) (w : A → Z).

(** What the elements with a key weigh together. *)
Definition weight (l : list A) (k : jstr) : Z := zsum (map w (filter (λ x, key x = k) l)).

Lemma weight_cons x l k : weight (x :: l) k = (if decide (key x = k) then w x else 0) + weight l k.
Proof.
  unfold weight. destruct (decide (key x = k)); [rewrite filter_cons_True by done|rewrite filter_cons_False by done]; simpl; lia.
Qed.

(** Every element has one of the keys, so the groups weigh what the list does. *)
Lemma zsum_groups l ks : NoDup ks → (∀ x, x ∈ l → key x ∈ ks) → zsum (map (weight l) ks) = zsum (map w l).
Proof.
  intros Hks. induction l as [|x l IH]; intros Hl; [apply zsum_zero|].
  rewrite (map_ext _ _ (weight_cons x l)), zsum_map_add, IH by set_solver.
  rewrite zsum_single; [done|done|set_solver].
Qed.

Lemma weight_bounds l k : Forall (λ x, 0 <= w x) l → 0 <= weight l k <= zsum (map w l).
Proof.
  induction 1 as [|x l Hx Hl IH]; [done|]. rewrite weight_cons. simpl. case_decide; lia.
Qed.
End Sums.

(** [sums_to xs n]: the numbers are whole, none is negative, and [n] is their
    exact sum. *)
Definition sums_to (xs : list num) (n : Z) : Prop :=
  ∃ zs, xs = map of_Z zs ∧ Forall (λ z, 0 <= z) zs ∧ zsum zs = n.

Lemma sums_to_of {A} (f : A → num) (w : A → Z) l :
  Forall (λ x, f x = of_Z (w x) ∧ 0 <= w x) l → sums_to (map f l) (zsum (map w l)).
Proof.
  intros Hl. exists (map w l). split; [|split; [|done]].
  - rewrite map_map. apply map_ext_in. intros x Hx%list_elem_of_In. by apply (proj1 (Forall_forall _ _) Hl).
  - apply Forall_map. eapply Forall_impl; [exact Hl|]. naive_solver.
Qed.

#[export] Instance sums_to_proper : Proper ((≡ₚ) ==> eq ==> iff) sums_to.
Proof.
  assert (∀ xs ys n, xs ≡ₚ ys → sums_to xs n → sums_to ys n) as Hone.
  { intros xs ys n Hp (zs & -> & Hzs & <-).
    apply Permutation_sym, Permutation_map_inv in Hp as (zs' & -> & Hp). exists zs'. split; [done|].
    split; [by rewrite <- Hp|by rewrite Hp]. }
  intros xs ys Hp n _ <-. split; apply Hone; by rewrite ?Hp.
Qed.

Lemma sums_to_app xs ys n m : sums_to xs n → sums_to ys m → sums_to (xs ++ ys) (n + m).
Proof.
  intros (zs & -> & Hz & <-) (zs' & -> & Hz' & <-). exists (zs ++ zs').
  rewrite map_app, zsum_app. split; [done|]. split; [by apply Forall_app|done].
Qed.

Lemma sums_to_app_inv xs ys n : sums_to (xs ++ ys) n → ∃ a b, sums_to xs a ∧ sums_to ys b ∧ n = a + b.
Proof.
  intros (zs & E & Hz & <-). apply eq_sym, map_eq_app in E as (z1 & z2 & -> & <- & <-).
  apply Forall_app in Hz as [H1 H2]. exists (zsum z1), (zsum z2). rewrite zsum_app.
  split; [by exists z1|]. split; [by exists z2|done].
Qed.

Lemma sums_to_nonneg xs n : sums_to xs n → 0 <= n.
Proof. intros (zs & _ & Hz & <-). by apply zsum_nonneg. Qed.

Lemma sums_to_concat {A} (f : A → list num) (n : A → Z) l : (∀ x, x ∈ l → sums_to (f x) (n x)) →
  sums_to (concat (map f l)) (zsum (map n l)).
Proof.
  induction l as [|x l IH]; intros Hl; simpl; [by exists []|].
  apply sums_to_app; [|apply IH]; set_solver.
Qed.

(** Adding them up in floating point is exact. *)
Lemma fold_add_whole zs acc : Forall (λ z, 0 <= z) zs → 0 <= acc → acc + zsum zs < 2 ^ 53 →
  fold_left n_add (map of_Z zs) (of_Z acc) = of_Z (acc + zsum zs).
Proof.
  intros Hz. revert acc. induction Hz as [|z zs Hz Hzs IH]; intros acc Ha Hs; simpl in *; [by rewrite Z.add_0_r|].
  pose proof (zsum_nonneg _ Hzs).
  rewrite n_add_of_Z by (unfold safe; lia). rewrite IH by lia. f_equal. lia.
Qed.

Lemma sums_to_fold xs n : sums_to xs n → n < 2 ^ 53 → fold_left n_add xs (of_Z 0) = of_Z n.
Proof. intros (zs & -> & Hz & <-) Hn. by rewrite fold_add_whole. Qed.

(** The sum of a part may stand for the part. *)
Lemma sums_to_collapse xs ys n : sums_to (xs ++ ys) n → n < 2 ^ 53 →
  sums_to (xs ++ [fold_left n_add ys (of_Z 0)]) n.
Proof.
  intros (a & b & Ha & Hb & ->)%sums_to_app_inv Hn. pose proof (sums_to_nonneg _ _ Ha). pose proof (sums_to_nonneg _ _ Hb).
  apply sums_to_app; [done|]. rewrite (sums_to_fold _ b) by (done || lia).
  exists [b]. simpl. split; [done|]. split; [by repeat constructor|lia].
Qed.

Lemma sums_to_cons x xs n : sums_to (x :: xs) n ↔ ∃ z, x = of_Z z ∧ 0 <= z ∧ sums_to xs (n - z).
Proof.
  split.
  - intros ([|z zs] & E & Hz & <-); [done|]. simplify_eq/=. inv Hz. exists z. split; [done|]. split; [done|].
    exists zs. split; [done|]. split; [done|lia].
  - intros (z & -> & Hz & zs & -> & Hzs & Hn). exists (z :: zs). simpl.
    split; [done|]. split; [by constructor|lia].
Qed.

(** Adding an amount to an entry of a map. *)
Lemma sums_to_set {V} (v : V → num) k x (o : obj V) n z :
  sums_to (map (λ kv : jstr * V, v kv.2) o) n → 0 <= z → n + z < 2 ^ 53 →
  v x = n_add (default (of_Z 0) (v <$> obj_get k o)) (of_Z z) →
  sums_to (map (λ kv : jstr * V, v kv.2) (obj_set k x o)) (n + z).
Proof.
  intros Hs Hz. revert n Hs. induction o as [|[k' y] o IH]; intros n Hs Hn Hx.
  - destruct Hs as (zs & E & _ & <-). destruct zs; [|done]. cbn [obj_set map snd zsum foldr] in *. rewrite Hx.
    cbn [obj_get]. change (default (of_Z 0) (v <$> None)) with (of_Z 0).
    rewrite n_add_of_Z by (unfold safe; lia). apply sums_to_cons. exists z. split; [done|]. split; [done|].
    exists []. split; [done|]. split; [done|]. cbn. lia.
  - cbn [map obj_get obj_set snd fst] in *. apply sums_to_cons in Hs as (a & Ea & Ha & Hs).
    pose proof (sums_to_nonneg _ _ Hs). destruct (str_eqb k k'); cbn [map snd fmap option_fmap option_map default] in *.
    + apply sums_to_cons. exists (a + z). split; [|split; [lia|]].
      * rewrite Hx. simpl. rewrite Ea. apply n_add_of_Z; unfold safe; lia.
      * by replace (n + z - (a + z)) with (n - a) by lia.
    + apply sums_to_cons. exists a. split; [done|]. split; [done|].
      replace (n + z - a) with (n - a + z) by lia. apply IH; [done|lia|done].
Qed.

(** ** The maps behind the charts *)

Section Aggregation.
Context `{H : Host} `{C : Calendar} (g : TimeGranularity).

Lemma add_to_grouped data : fold_left (add_to item_model) data [] = grouped item_model calculateDashboardStats data.
Proof. apply (group_fold item_model add_stats no_stats). Qed.

Lemma time_step (m : obj (obj Stats)) item : let k := item_time g item in
  obj_set k (add_to item_model (default [] (obj_get k (if obj_has k m then m else obj_set k [] m))) item)
    (if obj_has k m then m else obj_set k [] m) =
  obj_set k (add_to item_model (default [] (obj_get k m)) item) m.
Proof.
  intros k. unfold obj_has. destruct (obj_get k m) eqn:E; [by rewrite E|].
  by rewrite obj_get_set_eq, obj_set_twice.
Qed.

Lemma aggregate_split data m1 m2 : fold_left (aggregate_item g) data (m1, m2) =
  (fold_left (λ o x, obj_set (item_time g x) (add_to item_model (default [] (obj_get (item_time g x) o)) x) o) data m1,
   fold_left (add_to item_model) data m2).
Proof.
  revert m1 m2. induction data as [|x data IH]; intros m1 m2; [done|]. cbn [fold_left].
  unfold aggregate_item at 2. rewrite time_step. apply IH.
Qed.

Lemma grouped_ext {A V} (key : A → jstr) (f f' : list A → V) l : (∀ xs, f xs = f' xs) → grouped key f l = grouped key f' l.
Proof. intros E. apply map_ext. intros k. by rewrite E. Qed.

Lemma aggregate_eq data : aggregate g data =
  (grouped (item_time g) (grouped item_model calculateDashboardStats) data,
   grouped item_model calculateDashboardStats data).
Proof.
  unfold aggregate. rewrite aggregate_split, add_to_grouped. f_equal.
  rewrite (group_fold (item_time g) (add_to item_model) []). apply grouped_ext, add_to_grouped.
Qed.

(** The loop over the quota records that fills the charts' two maps groups
    the records: under each model the totals of the records of that model, in
    the order in which the models first occur, and under each time label the
    same for the records with that label. *)
Theorem aggregation_grouped data : aggregate g data =
  (grouped (item_time g) (grouped item_model calculateDashboardStats) data,
   grouped item_model calculateDashboardStats data).
Proof. apply aggregate_eq. Qed.

(** ** Whole amounts *)

(** The amounts a record contributes, the records whose amounts are whole. *)
Definition units (f : QuotaDataItem → option num) (item : QuotaDataItem) : Z := trunc_Z (amount (f item)).

Definition whole (f : QuotaDataItem → option num) (data : list QuotaDataItem) : Prop :=
  Forall (λ item, amount (f item) = of_Z (units f item) ∧ 0 <= units f item) data ∧
  zsum (map (units f) data) < 2 ^ 53.

(** A field of the totals and the field of the records it adds up. *)
Class Metric (p : Stats → num) (f : QuotaDataItem → option num) : Prop := {
  metric_start : p no_stats = of_Z 0;
  metric_add s item : p (add_stats s item) = n_add (p s) (amount (f item))
}.

#[export] Instance metric_quota : Metric quota i_quota.
Proof. done. Qed.
#[export] Instance metric_count : Metric count i_count.
Proof. done. Qed.

Context (p : Stats → num) (f : QuotaDataItem → option num) `{!Metric p f}.

Lemma metric_fold data s : p (fold_left add_stats data s) = fold_left n_add (map (λ item, amount (f item)) data) (p s).
Proof. revert s. induction data as [|x data IH]; intros s; simpl; [done|]. by rewrite IH, metric_add. Qed.

Lemma whole_filter data (P : QuotaDataItem → Prop) `{∀ x, Decision (P x)} : whole f data →
  Forall (λ item, amount (f item) = of_Z (units f item) ∧ 0 <= units f item) (filter P data) ∧
  zsum (map (units f) (filter P data)) <= zsum (map (units f) data).
Proof.
  intros [Hw Hs]. clear Hs. induction Hw as [|x data Hx Hw IH]; [done|]. destruct IH as [IH1 IH2].
  rewrite filter_cons. case_decide; simpl; split; try lia; [by constructor|done].
Qed.

Lemma whole_of_filter data (P : QuotaDataItem → Prop) `{∀ x, Decision (P x)} : whole f data → whole f (filter P data).
Proof. intros Hw. destruct (whole_filter data P Hw) as [H1 H2], Hw as [_ Hs]. split; [done|lia]. Qed.

Lemma stats_whole data : whole f data → p (calculateDashboardStats data) = of_Z (zsum (map (units f) data)).
Proof.
  intros [Hw Hs]. unfold calculateDashboardStats. rewrite metric_fold, metric_start.
  apply sums_to_fold; [by apply sums_to_of|done].
Qed.

Lemma whole_safe data : whole f data → safe (zsum (map (units f) data)).
Proof.
  intros [Hw Hs]. assert (0 <= zsum (map (units f) data)); [|unfold safe; lia].
  apply zsum_nonneg, Forall_map. eapply Forall_impl; [exact Hw|]. naive_solver.
Qed.

Lemma whole_pos data : whole f data → Forall (λ x, 0 <= units f x) data.
Proof. intros [Hw _]. eapply Forall_impl; [exact Hw|]. naive_solver. Qed.

Lemma weight_safe (key : QuotaDataItem → jstr) data k : whole f data → safe (weight key (units f) data k).
Proof.
  intros Hw. pose proof (weight_bounds key (units f) data k (whole_pos _ Hw)). destruct Hw. unfold safe. lia.
Qed.

(** The values of a grouping are the weights of its groups. *)
Lemma grouped_value (key : QuotaDataItem → jstr) data k : whole f data →
  amount (p <$> obj_get k (grouped key calculateDashboardStats data)) = of_Z (weight key (units f) data k).
Proof.
  intros Hw. rewrite get_grouped. unfold amount. case_decide as Hk; simpl.
  - rewrite stats_whole by by apply whole_of_filter. apply num_or_whole. by apply (weight_safe key).
  - assert (weight key (units f) data k = 0) as ->; [|done].
    unfold weight. rewrite filter_none; [done|]. apply Forall_forall. intros x Hx E. apply Hk. rewrite <- E. by apply list_elem_of_fmap_2.
Qed.

Lemma grouped_values (key : QuotaDataItem → jstr) data : whole f data →
  sums_to (map (λ kv : jstr * Stats, num_or (p kv.2) (of_Z 0)) (grouped key calculateDashboardStats data))
    (zsum (map (units f) data)).
Proof.
  intros Hw. unfold grouped. rewrite map_map. cbn [snd].
  rewrite <- (zsum_groups key (units f) data (set_of_list (map key data))).
  - apply sums_to_of, Forall_forall. intros k _. split.
    + rewrite stats_whole by by apply whole_of_filter. apply num_or_whole. by apply (weight_safe key).
    + apply weight_bounds. by apply whole_pos.
  - apply NoDup_set_of_list.
  - intros x Hx. by apply elem_of_set_of_list, list_elem_of_fmap_2.
Qed.

Lemma total_whole data : whole f data → total_of p (aggregate g data).2 = of_Z (zsum (map (units f) data)).
Proof.
  intros Hw. rewrite aggregate_eq. unfold total_of. cbn [snd].
  rewrite <- (fold_left_map n_add (λ kv : jstr * Stats, num_or (p kv.2) (of_Z 0))).
  apply sums_to_fold; [by apply grouped_values|apply Hw].
Qed.

Lemma ranked_sums data : whole f data →
  sums_to (map snd (ranked p (aggregate g data).2)) (zsum (map (units f) data)).
Proof.
  intros Hw. unfold ranked. rewrite sort_stable_perm, map_map. rewrite aggregate_eq. by apply grouped_values.
Qed.

(** A cell of the chart: the records of a time label and of a model. *)
Lemma cell_whole data time model : whole f data →
  cell (aggregate g data).1 p time model =
  of_Z (weight item_model (units f) (filter (λ x, item_time g x = time) data) model).
Proof.
  intros Hw. unfold cell. rewrite aggregate_eq. cbn [fst]. rewrite get_grouped.
  case_decide as Ht; cbn [mbind option_bind]; simpl.
  - apply grouped_value. by apply whole_of_filter.
  - unfold weight. rewrite (filter_none (λ x, item_time g x = time)); [done|].
    apply Forall_forall. intros x Hx E. apply Ht. rewrite <- E. by apply list_elem_of_fmap_2.
Qed.

(** The cells of a time label, over models without repetition that include
    those of the data. *)
Lemma row_sums data time models : whole f data → NoDup models → (∀ x, x ∈ data → item_model x ∈ models) →
  sums_to (map (cell (aggregate g data).1 p time) models) (weight (item_time g) (units f) data time).
Proof.
  intros Hw Hnd Hall. unfold weight at 1.
  rewrite <- (zsum_groups item_model (units f) (filter (λ x, item_time g x = time) data) models).
  - apply sums_to_of, Forall_forall. intros m _. split; [by apply cell_whole|].
    apply weight_bounds, whole_pos. by apply whole_of_filter.
  - done.
  - intros x Hx%list_elem_of_filter. naive_solver.
Qed.
End Aggregation.

(** ** What the charts show *)

Section Shown.
Context `{H : Host} `{C : Calendar} (g : TimeGranularity) (state : SystemConfigState) (tt_ : jstr → jstr).

Lemma models_covered data : NoDup (sortedModels (aggregate g data).2) ∧
  ∀ x, x ∈ data → item_model x ∈ sortedModels (aggregate g data).2.
Proof.
  unfold sortedModels. rewrite aggregate_eq. cbn [snd]. rewrite keys_grouped. split.
  - rewrite sort_stable_perm. apply NoDup_set_of_list.
  - intros x Hx. rewrite elem_of_sort_stable, elem_of_set_of_list. by apply list_elem_of_fmap_2.
Qed.

(** No call is lost or counted twice: for whole call counts whose sum is a
    safe integer, the slices of the pie chart, the bars of the ranking (at most
    twenty models, the others in one bar), the displayed total and the total of
    the statistics cards are exactly the sum of the counts of the records. *)
Theorem calls_conserved data : whole i_count data →
  let totals := (aggregate g data).2 in
  let calls := zsum (map (units i_count) data) in
  sums_to (map value_ (pieValues totals)) calls ∧
  sums_to (map r_Count (rankValues tt_ totals)) calls ∧
  (length (rankValues tt_ totals) ≤ 21)%nat ∧
  total_of count totals = of_Z calls ∧
  count (calculateDashboardStats data) = of_Z calls.
Proof.
  intros Hw totals calls.
  assert (Hr : sums_to (map snd (ranked count totals)) calls) by by apply (ranked_sums g count i_count).
  split_and!.
  - unfold pieValues. rewrite sort_stable_perm, map_map. unfold totals. rewrite aggregate_eq. by apply (grouped_values count i_count).
  - unfold rankValues. rewrite length_map. destruct (MAX_RANK_MODELS <? _)%nat.
    + rewrite map_app, <- fmap_take, <- fmap_drop, map_map. cbn [map r_Count].
      rewrite <- (fold_left_map n_add r_Count), map_map. cbn [r_Count].
      change (λ x : jstr * num, x.2) with (@snd jstr num).
      apply sums_to_collapse; [|apply Hw]. by rewrite <- map_app, take_drop.
    + by rewrite map_map.
  - unfold rankValues. rewrite length_map. destruct (Nat.ltb_spec MAX_RANK_MODELS (length (ranked count totals))).
    + rewrite length_app, length_take. unfold MAX_RANK_MODELS. cbn [length]. lia.
    + rewrite length_map. unfold MAX_RANK_MODELS in *. lia.
  - by apply (total_whole g count i_count).
  - by apply (stats_whole count i_count).
Qed.

(** *** Quota by time *)

Lemma line_at_sums data time : whole i_quota data →
  let models := sortedModels (aggregate g data).2 in
  let total := weight (item_time g) (units i_quota) data time in
  sums_to (map rawQuota (line_at state (aggregate g data).1 models time)) total ∧
  Forall (λ v, Time v = time ∧ TimeSum v = of_Z total) (line_at state (aggregate g data).1 models time).
Proof.
  intros Hw models total. destruct (models_covered data) as [Hnd Hall].
  pose proof (row_sums g quota i_quota data time models Hw Hnd Hall) as Hrow. fold total in Hrow.
  unfold line_at. split.
  - rewrite map_map. cbn [rawQuota]. change (λ x, rawQuota x) with rawQuota.
    by rewrite sort_stable_perm, map_map.
  - apply Forall_map, Forall_forall. intros v Hv. cbn [Time TimeSum]. split.
    + apply elem_of_sort_stable, list_elem_of_fmap in Hv as (m & -> & _). done.
    + rewrite <- (fold_left_map n_add rawQuota), map_map. apply sums_to_fold; [done|].
      pose proof (weight_bounds (item_time g) (units i_quota) data time (whole_pos _ _ Hw)).
      destruct Hw. unfold total. lia.
Qed.

(** *** The area chart collects the smaller models *)

Lemma area_fold M top time models : ∀ B n m,
  sums_to (map (λ kv : jstr * Bucket, b_rawQuota kv.2) B) n →
  sums_to (map (cell M quota time) models) m → n + m < 2 ^ 53 →
  NoDup (map fst B) → map fst B ⊆ otherLabel tt_ :: top →
  let r := fold_left (area_step state tt_ M top time) models (B, of_Z n) in
  sums_to (map (λ kv : jstr * Bucket, b_rawQuota kv.2) r.1) (n + m) ∧ r.2 = of_Z (n + m) ∧
  NoDup (map fst r.1) ∧ map fst r.1 ⊆ otherLabel tt_ :: top.
Proof.
  induction models as [|x models IH]; intros B n m HB Hm Hlt Hnd Hin; cbn [fold_left].
  - destruct Hm as (zs & E & _ & <-). destruct zs; [|done]. simpl. by rewrite Z.add_0_r.
  - cbn [map] in Hm. apply sums_to_cons in Hm as (z & Ez & Hz & Hm).
    pose proof (sums_to_nonneg _ _ HB). pose proof (sums_to_nonneg _ _ Hm).
    cbn [area_step]. rewrite Ez, n_add_of_Z by (unfold safe; lia).
    replace (n + m) with (n + z + (m - z)) by lia. apply IH; [|done|lia|by apply NoDup_keys_set|].
    + apply sums_to_set; [done|done|lia|]. cbn [b_rawQuota]. by destruct (obj_get _ B).
    + intros k. rewrite elem_of_keys_set. intros [->|]; [|by apply Hin].
      case_bool_decide; set_solver.
Qed.

Lemma area_at_sums data top time : whole i_quota data →
  let models := sortedModels (aggregate g data).2 in
  let total := weight (item_time g) (units i_quota) data time in
  let area := area_at state tt_ (aggregate g data).1 top models time in
  sums_to (map rawQuota area) total ∧ Forall (λ v, Time v = time ∧ TimeSum v = of_Z total) area ∧
  (length area ≤ S (length top))%nat.
Proof.
  intros Hw models total area. destruct (models_covered data) as [Hnd Hall].
  pose proof (row_sums g quota i_quota data time models Hw Hnd Hall) as Hrow. fold total in Hrow.
  pose proof (weight_bounds (item_time g) (units i_quota) data time (whole_pos _ _ Hw)) as Hb.
  destruct (area_fold (aggregate g data).1 top time models [] 0 total) as (Hs & Ht & Hnk & Hk);
    [by exists []|done|destruct Hw; unfold total; lia|constructor|set_solver|].
  unfold area, area_at. destruct (fold_left _ models _) as [B t]. cbn [fst snd] in *. rewrite Z.add_0_l in *.
  rewrite map_map. cbn [rawQuota]. split; [done|]. split.
  - apply Forall_map, Forall_true. by intros [k b].
  - rewrite length_map, <- (length_map fst). change (S (length top)) with (length (otherLabel tt_ :: top)).
    apply submseteq_length, NoDup_submseteq; done.
Qed.

(** *** The trend of the calls *)

Lemma trend_at_sums data time : whole i_count data →
  let ms := map fst (ranked count (aggregate g data).2) in
  sums_to (map t_Count (trend_at tt_ (aggregate g data).1 (take MAX_TREND_MODELS ms) (drop MAX_TREND_MODELS ms) time))
    (weight (item_time g) (units i_count) data time).
Proof.
  intros Hw ms. destruct (models_covered data) as [Hnd Hall].
  assert (Hp : ms ≡ₚ sortedModels (aggregate g data).2).
  { unfold ms, ranked, sortedModels. rewrite !sort_stable_perm, map_map. done. }
  assert (Hrow : sums_to (map (cell (aggregate g data).1 count time) ms) (weight (item_time g) (units i_count) data time)).
  { rewrite Hp. by apply row_sums. }
  unfold trend_at. rewrite <- (take_drop MAX_TREND_MODELS ms) in Hrow at 1.
  rewrite map_app in Hrow. rewrite map_app, map_map. cbn [t_Count].
  destruct (drop MAX_TREND_MODELS ms) as [|o os] eqn:Ed; [done|]. cbn [map t_Count].
  rewrite <- (fold_left_map n_add (cell (aggregate g data).1 count time)).
  apply sums_to_collapse; [done|].
  pose proof (weight_bounds (item_time g) (units i_count) data time (whole_pos _ _ Hw)). destruct Hw. lia.
Qed.

(** *** The charts over the time axis *)

(** Over its axis a chart shows the quota and the calls of the records with
    those time labels, all of them and once: at each label the bars (one per
    model) and the areas (at most fifteen models and one for the others) add up
    to the quota of the records with that label, which every bar and area also
    carries as its sum, and the trend lines add up to their calls.  When the
    data has at least seven labels the axis is these labels, and the charts
    show everything. *)
Theorem charts_conserve data : whole i_quota data → whole i_count data →
  let '(M, totals) := aggregate g data in
  let models := sortedModels totals in
  let at_ f time := weight (item_time g) (units f) data time in
  let shown f := zsum (map (at_ f) (chartTimes g data)) in
  sums_to (map rawQuota (lineValues state M models (chartTimes g data))) (shown i_quota) ∧
  sums_to (map rawQuota (areaValues state tt_ M totals models (chartTimes g data))) (shown i_quota) ∧
  sums_to (map t_Count (modelLineValues tt_ M totals (chartTimes g data))) (shown i_count) ∧
  Forall (λ v, TimeSum v = of_Z (at_ i_quota (Time v)))
    (lineValues state M models (chartTimes g data) ++ areaValues state tt_ M totals models (chartTimes g data)) ∧
  (MAX_CHART_TREND_POINTS ≤ length (sortedTimes M) →
   shown i_quota = zsum (map (units i_quota) data) ∧ shown i_count = zsum (map (units i_count) data))%nat.
Proof.
  intros Hq Hc. destruct (aggregate g data) as [M totals] eqn:E.
  set (ts := chartTimes g data).
  assert (M = (aggregate g data).1 ∧ totals = (aggregate g data).2) as [-> ->] by by rewrite E. cbv zeta.
  split_and!.
  - unfold lineValues. rewrite sort_stable_perm, concat_map, map_map. apply sums_to_concat. intros t _. by apply line_at_sums.
  - unfold areaValues. rewrite sort_stable_perm, concat_map, map_map. apply sums_to_concat. intros t _. by apply area_at_sums.
  - unfold modelLineValues. rewrite sort_stable_perm, concat_map, map_map. apply sums_to_concat. intros t _. by apply trend_at_sums.
  - apply Forall_app. split; apply Forall_forall; intros v; unfold lineValues, areaValues; rewrite elem_of_sort_stable;
      intros (t & Ht & Hv)%elem_of_concat_map.
    + destruct (line_at_sums data t Hq) as [_ Hf]. by destruct (proj1 (Forall_forall _ _) Hf _ Hv) as [-> ->].
    + destruct (area_at_sums data (map fst (take MAX_AREA_MODELS (ranked quota (aggregate g data).2))) t Hq) as (_ & Hf & _). by destruct (proj1 (Forall_forall _ _) Hf _ Hv) as [-> ->].
  - intros Hn. assert (Ht : ts = sortedTimes (aggregate g data).1).
    { unfold ts, chartTimes, fillTimePoints. by rewrite (proj2 (Nat.leb_le _ _) Hn). }
    rewrite Ht. unfold sortedTimes. rewrite aggregate_eq. cbn [fst]. rewrite keys_grouped.
    split; apply zsum_groups; try (rewrite sort_stable_perm; apply NoDup_set_of_list);
      intros x Hx; rewrite elem_of_sort_stable, elem_of_set_of_list; by apply list_elem_of_fmap_2.
Qed.
End Shown.

(** ** Concrete records *)

Definition record_at (user model : string) (sec n : Z) : QuotaDataItem := {|
  i_username := Some (js_of_string user); i_model_name := Some (js_of_string model);
  i_created_at := TNum (of_Z sec); i_token_used := None; i_count := Some (of_Z n); i_quota := Some (of_Z (1000 * n)) |}.

(** Two calls ten days before the last three. *)
Definition two_days : list QuotaDataItem :=
  [record_at "ann" "gpt-4o" 1717200000 2; record_at "bob" "o3" 1718064000 3].

Definition sample_state : SystemConfigState := initialState (js "Love API") (js "/logo.png").

Lemma two_days_whole : whole i_quota two_days ∧ whole i_count two_days.
Proof. by repeat (constructor || vm_compute). Qed.

Lemma calls_conserved_witness : whole i_count two_days ∧
  sums_to (map r_Count (rankValues id (aggregate (H := utc_host) (C := utc_calendar) Day two_days).2)) 5.
Proof.
  split; [apply two_days_whole|].
  apply (calls_conserved (H := utc_host) (C := utc_calendar) Day id two_days). apply two_days_whole.
Defined.

Lemma charts_conserve_witness : whole i_quota two_days ∧ whole i_count two_days ∧
  sums_to (map rawQuota (lineValues (H := utc_host) sample_state (aggregate (H := utc_host) (C := utc_calendar) Day two_days).1
    (sortedModels (aggregate (H := utc_host) (C := utc_calendar) Day two_days).2)
    (chartTimes (H := utc_host) (C := utc_calendar) Day two_days))) 3000.
Proof.
  split; [apply two_days_whole|]. split; [apply two_days_whole|].
  apply (charts_conserve (H := utc_host) (C := utc_calendar) Day sample_state id two_days); apply two_days_whole.
Defined.

(** With fewer than seven labels the axis is not completed but replaced by the
    seven days up to the last record: the older calls are on no chart over
    time, although the totals and the ranking count them. *)
Lemma padding_hides_usage :
  let '(M, totals) := aggregate (H := utc_host) (C := utc_calendar) Day two_days in
  let times := chartTimes (H := utc_host) (C := utc_calendar) Day two_days in
  sortedTimes M = [js "06-01"; js "06-11"] ∧
  times = [js "06-05"; js "06-06"; js "06-07"; js "06-08"; js "06-09"; js "06-10"; js "06-11"] ∧
  total_of count totals = of_Z 5 ∧
  fold_left n_add (map t_Count (modelLineValues (H := utc_host) id M totals times)) (of_Z 0) = of_Z 3.
Proof. vm_compute. done. Qed.
