(* ===== verification/DashboardUsers.v ===== *)
(** * Users on the dashboard, and saved preferences

    The ranking and the trend of the users (lib/charts.ts) and the chart
    preferences kept in local storage (lib/filters.ts). *)

From S2P Require Import Prelude JsNumber JsNumberFacts JsString JsRegex JsValue JsonFacts JsonRoundtrip Host Currency Format Time Dashboard DashboardFacts.

Open Scope Z_scope.

(** ** Quota by user *)

(** [(map.get(user) || 0) + (Number(item.quota) || 0)] *)
Definition quota_step (v : num) (item : QuotaDataItem) : num := n_add (num_or v (of_Z 0)) (amount (i_quota item)).

Definition quota_fold (xs : list QuotaDataItem) : num := fold_left quota_step xs NaN.

Lemma quota_fold_acc xs a : whole i_quota xs → 0 <= a → a + zsum (map (units i_quota) xs) < 2 ^ 53 →
  fold_left quota_step xs (of_Z a) = of_Z (a + zsum (map (units i_quota) xs)).
Proof.
  intros [Hw _]. revert a. induction Hw as [|x xs [Hx Hp] Hw IH]; intros a Ha Hs; simpl; [by rewrite Z.add_0_r|].
  assert (0 <= zsum (map (units i_quota) xs)).
  { apply zsum_nonneg, Forall_map. eapply Forall_impl; [exact Hw|]. naive_solver. }
  simpl in Hs. unfold quota_step at 2. rewrite num_or_whole, Hx, n_add_of_Z by (unfold safe; lia).
  rewrite IH by lia. f_equal. lia.
Qed.

Lemma quota_fold_whole xs : whole i_quota xs → num_or (quota_fold xs) (of_Z 0) = of_Z (zsum (map (units i_quota) xs)).
Proof.
  intros Hw. pose proof (whole_safe _ _ Hw) as Hs. destruct xs as [|x xs]; [done|].
  assert (quota_fold (x :: xs) = fold_left quota_step (x :: xs) (of_Z 0)) as -> by done.
  rewrite quota_fold_acc, Z.add_0_l by (done || destruct Hw; lia). by apply num_or_whole.
Qed.

Lemma quota_fold_nonempty xs : xs ≠ [] → whole i_quota xs → quota_fold xs = of_Z (zsum (map (units i_quota) xs)).
Proof.
  intros Hne Hw. destruct xs as [|x xs]; [done|].
  assert (quota_fold (x :: xs) = fold_left quota_step (x :: xs) (of_Z 0)) as -> by done.
  rewrite quota_fold_acc, Z.add_0_l by (done || destruct Hw; lia). done.
Qed.

Lemma userQuotaTotal_grouped data : userQuotaTotal data = grouped item_user quota_fold data.
Proof. apply (group_fold item_user quota_step NaN). Qed.

Section Users.
Context `{H : Host} `{C : Calendar} (g : TimeGranularity) (state : SystemConfigState).

Abbreviation by_user := (weight item_user (units i_quota)).

(** The totals as whole numbers, in the order in which users first occur. *)
Definition user_weights (data : list QuotaDataItem) : list (jstr * Z) :=
  map (λ u, (u, by_user data u)) (set_of_list (map item_user data)).

Definition in_floats (uz : jstr * Z) : jstr * num := (uz.1, of_Z uz.2).

Lemma group_nonempty {A} (key : A → jstr) l k : k ∈ set_of_list (map key l) → filter (λ x, key x = k) l ≠ [].
Proof.
  rewrite elem_of_set_of_list. intros (x & -> & Hx)%list_elem_of_fmap E.
  assert (x ∈ filter (λ y, key y = key x) l) as Hin by by apply list_elem_of_filter. rewrite E in Hin. set_solver.
Qed.

Lemma userQuotaTotal_whole data : whole i_quota data → userQuotaTotal data = map in_floats (user_weights data).
Proof.
  intros Hw. rewrite userQuotaTotal_grouped. unfold grouped, user_weights. rewrite map_map.
  apply map_ext_in. intros u Hu%list_elem_of_In. unfold in_floats. cbn [fst snd]. f_equal.
  apply quota_fold_nonempty; [by apply group_nonempty|by apply whole_of_filter].
Qed.

(** Whole numbers in descending order. *)
Lemma sorted_users_whole data : whole i_quota data →
  sorted_users data = map in_floats (sort_stable (λ a b : jstr * Z, - a.2 <? - b.2) (user_weights data)).
Proof.
  intros Hw. unfold sorted_users. rewrite userQuotaTotal_whole by done. apply sort_stable_map.
  assert (Hb : ∀ uz, uz ∈ user_weights data → 0 <= uz.2 < 2 ^ 53).
  { intros uz (u & -> & _)%list_elem_of_fmap. cbn [snd].
    pose proof (weight_bounds item_user (units i_quota) data u (whole_pos _ _ Hw)). destruct Hw. lia. }
  intros x y Hx%Hb Hy%Hb. unfold descending, in_floats. cbn [snd].
  rewrite n_sub_of_Z, n_lt_of_Z by (unfold safe; lia). lia.
Qed.

Definition top_weights (limit : nat) (data : list QuotaDataItem) : list (jstr * Z) :=
  take limit (sort_stable (λ a b : jstr * Z, - a.2 <? - b.2) (user_weights data)).

Lemma topUsers_whole limit data : whole i_quota data → topUsers limit data = map fst (top_weights limit data).
Proof.
  intros Hw. unfold topUsers, top_weights. rewrite sorted_users_whole by done.
  rewrite firstn_map, map_map. done.
Qed.

(** *** The trend *)

Definition user_label (item : QuotaDataItem) : jstr :=
  formatChartTime (Some (TNum (toChartSec (i_created_at item)))) g.

Lemma user_time_map top data m ts : (fold_left (user_time_step g top) data (m, ts)).1 =
  fold_left (λ o x, obj_set (user_label x) (add_quota (default [] (obj_get (user_label x) o)) x) o)
    (filter (λ x, item_user x ∈ top) data) m.
Proof.
  revert m ts. induction data as [|x data IH]; intros m ts; [done|]. cbn [fold_left user_time_step].
  fold (user_label x). rewrite filter_cons. case_bool_decide as Ht; [rewrite decide_True by done|rewrite decide_False by done].
  - cbn [fold_left]. rewrite IH. f_equal. unfold obj_has.
    destruct (obj_get (user_label x) m) eqn:E; [by rewrite E|]. by rewrite obj_get_set_eq, obj_set_twice.
  - apply IH.
Qed.

Lemma user_time_points top data : (fold_left (user_time_step g top) data ([], [])).2 = set_of_list (map user_label data).
Proof.
  induction data as [|x data IH] using rev_ind; [done|]. rewrite fold_left_app, map_app. cbn [fold_left map].
  rewrite set_of_list_snoc, <- IH. destruct (fold_left _ data _) as [m ts]. cbn [snd user_time_step] in *.
  fold (user_label x). rewrite <- (decide_ext (user_label x ∈ ts) (user_label x ∈ map user_label data));
    [|by rewrite IH, elem_of_set_of_list].
  destruct (decide (user_label x ∈ ts)) as [Hk|Hk];
    [rewrite (bool_decide_eq_true_2 _ Hk)|rewrite (bool_decide_eq_false_2 _ Hk)]; by case_bool_decide.
Qed.

Lemma user_time_grouped top data : (fold_left (user_time_step g top) data ([], [])).1 =
  grouped user_label (grouped item_user quota_fold) (filter (λ x, item_user x ∈ top) data).
Proof.
  rewrite user_time_map. rewrite (group_fold user_label add_quota []). apply grouped_ext.
  intros xs. apply (group_fold item_user quota_step NaN).
Qed.

Lemma user_cell data top time user : whole i_quota data →
  num_or (default NaN (obj_get time (fold_left (user_time_step g top) data ([], [])).1 ≫= obj_get user)) (of_Z 0) =
  of_Z (weight user_label (units i_quota) (filter (λ x, item_user x = user) (filter (λ x, item_user x ∈ top) data)) time).
Proof.
  intros Hw. rewrite user_time_grouped, get_grouped.
  set (data' := filter (λ x, item_user x ∈ top) data).
  assert (Hw' : whole i_quota data') by by apply whole_of_filter.
  assert (E : zsum (map (units i_quota) (filter (λ x, item_user x = user) (filter (λ x, user_label x = time) data'))) =
    weight user_label (units i_quota) (filter (λ x, item_user x = user) data') time).
  { unfold weight. rewrite !list_filter_filter. do 2 f_equal. apply list_filter_iff. tauto. }
  rewrite <- E. case_decide as Ht; cbn [mbind option_bind].
  - rewrite get_grouped. case_decide as Hu; cbn [default].
    + apply quota_fold_whole. by apply whole_of_filter, whole_of_filter.
    + rewrite (filter_none (λ x, item_user x = user)); [done|]. apply Forall_forall.
      intros x Hx Ex. apply Hu. rewrite <- Ex. by apply list_elem_of_fmap_2.
  - rewrite (filter_none (λ x, user_label x = time)); [done|]. apply Forall_forall.
    intros x Hx Ex. apply Ht. rewrite <- Ex. by apply list_elem_of_fmap_2.
Qed.

(** The values of one user of the trend are its cells, one for each time. *)
Lemma trend_of_user {A B} `{EqDecision B} (times : list A) (top : list B) (u : B) {V} (f : A → B → V) (user : V → B) :
  NoDup top → u ∈ top → (∀ t x, user (f t x) = x) →
  filter (λ v, user v = u) (concat (map (λ t, map (f t) top) times)) = map (λ t, f t u) times.
Proof.
  intros Hnd Hu Hf. induction times as [|t times IH]; [done|]. cbn [map concat]. rewrite filter_app, IH.
  change (f t u :: map (λ t, f t u) times) with ([f t u] ++ map (λ t, f t u) times). f_equal.
  clear IH. induction Hnd as [|x top Hx Hnd IH]; [set_solver|]. cbn [map]. rewrite filter_cons, Hf.
  case_decide as E.
  - subst. f_equal. apply filter_none, Forall_map, Forall_forall. intros y Hy. rewrite Hf. congruence.
  - apply IH. set_solver.
Qed.

(** *** The ranking in whole numbers *)

Definition heavier (a b : jstr * Z) : Prop := b.2 <= a.2.

Lemma sorted_weights data : StronglySorted heavier (sort_stable (λ a b : jstr * Z, - a.2 <? - b.2) (user_weights data)).
Proof.
  pose proof (sort_stable_sorted (λ a b : jstr * Z, - a.2 <? - b.2) (user_weights data)) as Hs.
  induction Hs as [|a l Hl IH Ha]; constructor; [done|]. eapply Forall_impl; [exact Ha|].
  unfold heavier. cbn. intros b. lia.
Qed.

Lemma top_weights_spec limit data :
  NoDup (map fst (top_weights limit data)) ∧
  Forall (λ uz, uz.2 = by_user data uz.1) (top_weights limit data) ∧
  StronglySorted heavier (top_weights limit data) ∧
  ∀ v x, v ∈ top_weights limit data → x ∈ data → item_user x ∉ map fst (top_weights limit data) →
    by_user data (item_user x) <= v.2.
Proof.
  pose proof (sorted_weights data) as Hs. unfold top_weights.
  set (all := sort_stable _ _) in *.
  assert (Hp : all ≡ₚ user_weights data) by apply sort_stable_perm.
  assert (Hf : Forall (λ uz, uz.2 = by_user data uz.1) all).
  { rewrite Hp. apply Forall_map, Forall_true. done. }
  rewrite <- (take_drop limit all) in Hs, Hf. apply Forall_app in Hf as [Hf1 Hf2].
  apply StronglySorted_app in Hs as (Hcross & Hs & _). split_and!.
  - rewrite <- firstn_map. eapply sublist_NoDup; [|apply sublist_take]. rewrite Hp.
    unfold user_weights. rewrite map_map. cbn [fst]. rewrite map_id. apply NoDup_set_of_list.
  - done.
  - done.
  - intros v x Hv Hx Hn.
    assert (Hin : (item_user x, by_user data (item_user x)) ∈ all).
    { rewrite Hp. apply list_elem_of_fmap. exists (item_user x). split; [done|].
      apply elem_of_set_of_list. by apply list_elem_of_fmap_2. }
    rewrite <- (take_drop limit all), elem_of_app in Hin. destruct Hin as [Hin|Hin].
    + exfalso. apply Hn. exact (list_elem_of_fmap_2 fst _ _ Hin).
    + exact (Hcross _ _ Hv Hin).
Qed.

Lemma top_weights_total limit data : whole i_quota data →
  zsum (map (λ uz, by_user data uz.1) (top_weights limit data)) <= zsum (map (units i_quota) data).
Proof.
  intros Hw. rewrite <- (zsum_groups item_user (units i_quota) data (set_of_list (map item_user data)));
    [|apply NoDup_set_of_list|intros x Hx; by apply elem_of_set_of_list, list_elem_of_fmap_2].
  assert (Hp : map (λ uz, by_user data uz.1) (sort_stable (λ a b : jstr * Z, - a.2 <? - b.2) (user_weights data)) ≡ₚ
               map (by_user data) (set_of_list (map item_user data))).
  { rewrite sort_stable_perm. unfold user_weights. by rewrite map_map. }
  rewrite <- Hp. unfold top_weights. set (all := sort_stable _ _).
  rewrite <- (take_drop limit all) at 2. rewrite map_app, zsum_app.
  assert (0 <= zsum (map (λ uz, by_user data uz.1) (drop limit all))); [|lia].
  apply zsum_nonneg, Forall_map, Forall_true. intros uz. apply weight_bounds. by apply whole_pos.
Qed.

Lemma user_rank data limit theme : data ≠ [] → whole i_quota data →
  user_rank_values (processUserChartData state g limit theme data) =
  map (λ uz : jstr * Z, {| u_User := uz.1; u_rawQuota := of_Z uz.2; u_Usage := user_usage state (of_Z uz.2) |}) (top_weights limit data).
Proof.
  intros Hne Hw. unfold processUserChartData. destruct data as [|x data]; [done|].
  destruct (fold_left _ _ _) as [m ts]. cbn [user_rank_values]. rewrite sorted_users_whole by done.
  rewrite firstn_map, map_map. done.
Qed.

Lemma user_trend data limit theme u : data ≠ [] → whole i_quota data → u ∈ map fst (top_weights limit data) →
  sums_to (map ut_rawQuota (filter (λ t, ut_User t = u) (user_trend_values (processUserChartData state g limit theme data))))
    (by_user data u).
Proof.
  intros Hne Hw Hu. pose proof (topUsers_whole limit data Hw) as Ht.
  pose proof (λ top time user, user_cell data top time user Hw) as Hcell.
  pose proof (user_time_points (topUsers limit data) data) as Hpts. rewrite <- Ht in Hu.
  assert (E : user_trend_values (processUserChartData state g limit theme data) =
    let M := (fold_left (user_time_step g (topUsers limit data)) data ([], [])).1 in
    concat (map (λ time, map (λ user,
      let q := num_or (default NaN (obj_get time M ≫= obj_get user)) (of_Z 0) in
      {| ut_Time := time; ut_User := user; ut_rawQuota := q; ut_Usage := user_usage state q |}) (topUsers limit data))
      (sort_stable str_lt (set_of_list (map user_label data))))).
  { unfold processUserChartData. destruct data; [done|]. rewrite <- Hpts. by destruct (fold_left _ _ _). }
  rewrite E. cbv zeta.
  erewrite trend_of_user; [|rewrite Ht; apply top_weights_spec|done|done].
  rewrite map_map. cbn [ut_rawQuota].
  rewrite (map_ext _ _ (λ time, Hcell (topUsers limit data) time u)).
  set (mine := filter (λ x, item_user x = u) (filter (λ x, item_user x ∈ topUsers limit data) data)).
  assert (Em : mine = filter (λ x, item_user x = u) data).
  { unfold mine. rewrite list_filter_filter. apply list_filter_iff. intros x. naive_solver. }
  rewrite Em. unfold weight at 2.
  rewrite <- (zsum_groups user_label (units i_quota) (filter (λ x, item_user x = u) data)
                (sort_stable str_lt (set_of_list (map user_label data)))).
  - apply sums_to_of, Forall_forall. intros k _. split; [done|]. apply weight_bounds, whole_pos. by apply whole_of_filter.
  - rewrite sort_stable_perm. apply NoDup_set_of_list.
  - intros x [_ Hx]%list_elem_of_filter. rewrite elem_of_sort_stable, elem_of_set_of_list. by apply list_elem_of_fmap_2.
Qed.

(** For whole quotas whose sum is a safe integer, the ranking has the
    [limit] users with the greatest quota, or all if there are fewer, each
    once, in descending order, with the exact quota of its records; no user
    left out has more than one in it; the values of a ranked user on the trend
    add up to its quota in the ranking; and the displayed total is the sum of
    the ranking. *)
Theorem users_ranked limit theme data : data ≠ [] → whole i_quota data →
  let r := processUserChartData state g limit theme data in
  let ranking := user_rank_values r in
  NoDup (map u_User ranking) ∧
  length ranking = Nat.min limit (length (set_of_list (map item_user data))) ∧
  Forall (λ v, u_rawQuota v = of_Z (by_user data (u_User v))) ranking ∧
  StronglySorted (λ a b, by_user data (u_User b) <= by_user data (u_User a)) ranking ∧
  (∀ v x, v ∈ ranking → x ∈ data → item_user x ∉ map u_User ranking →
     by_user data (item_user x) <= by_user data (u_User v)) ∧
  (∀ v, v ∈ ranking →
     sums_to (map ut_rawQuota (filter (λ t, ut_User t = u_User v) (user_trend_values r))) (by_user data (u_User v))) ∧
  user_total r = Some (of_Z (zsum (map (by_user data) (map u_User ranking)))).
Proof.
  intros Hne Hw r ranking.
  pose proof (user_rank data limit theme Hne Hw) as Er. fold r in Er. fold ranking in Er.
  destruct (top_weights_spec limit data) as (Hnd & Hf & Hs & Hmax).
  assert (Eu : map u_User ranking = map fst (top_weights limit data)) by by rewrite Er, map_map.
  assert (Hv : ∀ v, v ∈ ranking → ∃ uz, uz ∈ top_weights limit data ∧ u_User v = uz.1 ∧
                 u_rawQuota v = of_Z uz.2 ∧ uz.2 = by_user data uz.1).
  { rewrite Er. intros v (uz & -> & Huz)%list_elem_of_fmap. exists uz.
    split; [done|]. split; [done|]. split; [done|]. by apply (proj1 (Forall_forall _ _) Hf). }
  split_and!.
  - by rewrite Eu.
  - rewrite Er, length_map. unfold top_weights, user_weights. by rewrite length_take, length_sort_stable, length_map.
  - apply Forall_forall. intros v (uz & _ & -> & -> & Ez)%Hv. by rewrite Ez.
  - rewrite Er. clear -Hf Hs. induction Hs as [|a l Hl IH Ha]; cbn [map]; [constructor|].
    apply Forall_cons in Hf as [Ea Hf]. constructor; [by apply IH|]. apply Forall_map. cbn [u_User].
    rewrite <- Ea. rewrite Forall_forall in Ha, Hf |- *. intros b Hb. rewrite <- (Hf b Hb). exact (Ha b Hb).
  - intros v x (uz & Huz & -> & _ & <-)%Hv Hx. rewrite Eu. by apply Hmax.
  - intros v Hin. apply user_trend; [done|done|]. rewrite <- Eu. by apply list_elem_of_fmap_2.
  - unfold r at 1, processUserChartData. destruct data as [|x0 data0] eqn:Ed; [done|]. rewrite <- Ed in *.
    destruct (fold_left (user_time_step _ _) _ _) as [m ts]. cbn [user_total].
    rewrite sorted_users_whole, <- (fold_left_map n_add snd), firstn_map, map_map by done.
    fold (top_weights limit data). cbn [in_floats snd]. rewrite Eu, map_map. f_equal.
    apply sums_to_fold.
    + apply sums_to_of. rewrite Forall_forall in Hf |- *. intros uz Huz. rewrite (Hf uz Huz).
      split; [done|]. apply weight_bounds. by apply whole_pos.
    + pose proof (top_weights_total limit data Hw). destruct Hw. lia.
Qed.
End Users.

(** Three records of two users, two of them in one hour. *)
Definition three_records : list QuotaDataItem :=
  [record_at "ann" "gpt-4o" 1717200000 2; record_at "bob" "o3" 1717203600 3; record_at "ann" "o3" 1717203700 4].

Lemma users_ranked_witness : three_records ≠ [] ∧ whole i_quota three_records ∧
  map u_User (user_rank_values (processUserChartData (H := utc_host) (C := utc_calendar) sample_state Hour 1 [] three_records)) = [js "ann"] ∧
  length (user_rank_values (processUserChartData (H := utc_host) (C := utc_calendar) sample_state Hour 1 [] three_records)) = 1%nat.
Proof.
  assert (whole i_quota three_records) as Hw by by repeat (constructor || vm_compute).
  split; [done|]. split; [done|]. split; [vm_compute; reflexivity|].
  apply (users_ranked (H := utc_host) (C := utc_calendar) Hour sample_state 1 [] three_records); done.
Defined.

(** ** Saved chart preferences *)

Definition valid_preferences (p : DashboardChartPreferences) : Prop :=
  defaultTimeRangeDays p ∈ map snd TIME_RANGE_PRESETS.

(** Equal finite numbers other than zero are the same number. *)
Lemma n_eq_same a b : n_eq a b = true → num_truthy a = true → a = b.
Proof.
  unfold n_eq, SFeqb. destruct a as [[]|[]| |s m e], b as [[]|[]| |s' m' e']; cbn; try done; intros E _; revert E;
    repeat case_match; simplify_eq; try done; intros _.
  all: match goal with H : Z.compare _ _ = Eq |- _ => apply Z.compare_eq in H as -> end; f_equal; apply Pos.compare_eq.
  - change (CompOpp (m ?= m')%positive = Eq) in H. by destruct (m ?= m')%positive.
  - done.
Qed.

Lemma preset_days v x : isTimeRangePresetDays v = Some x → x ∈ map snd TIME_RANGE_PRESETS.
Proof.
  unfold isTimeRangePresetDays. destruct v as [| | |y| | |]; try done.
  destruct (existsb _ _) eqn:E; [|done]. intros [= ->]. apply existsb_exists in E as ([l d] & Hin & Heq).
  cbn [snd] in Heq. apply n_eq_same in Heq as <-; [apply list_elem_of_In; exact (in_map snd _ _ Hin)|].
  assert (Forall (λ p : jstr * num, num_truthy p.2 = true) TIME_RANGE_PRESETS) as Hf by by repeat constructor.
  rewrite Forall_forall in Hf. apply (Hf (l, d)). by apply list_elem_of_In.
Qed.

Lemma saved_valid st : valid_preferences (getSavedChartPreferences st).
Proof.
  assert (of_Z 1 ∈ map snd TIME_RANGE_PRESETS) as H1 by by left.
  unfold valid_preferences, getSavedChartPreferences. repeat (case_match; try done); cbn [defaultTimeRangeDays];
    match goal with |- context [isTimeRangePresetDays ?v] => destruct (isTimeRangePresetDays v) eqn:E end; try done; by apply preset_days in E.
Qed.

Lemma preferences_text p : valid_preferences p →
  (∃ c t, json_stringify (preferences_value p) = c :: t) ∧
  json_parse (json_stringify (preferences_value p)) = Some (preferences_value p).
Proof.
  destruct p as [c m d g]. unfold valid_preferences. cbn [defaultTimeRangeDays TIME_RANGE_PRESETS map snd].
  rewrite !elem_of_cons, elem_of_nil. intros Hd.
  destruct c, m, g; destruct_or? Hd; subst; try done; (split; [by do 2 eexists; vm_compute|vm_compute; reflexivity]).
Qed.

(** Saved preferences are loaded back, whatever the older entry holds. *)
Lemma load_saved p st : valid_preferences p →
  obj_get DASHBOARD_CHART_PREFERENCES_STORAGE_KEY st = Some (json_stringify (preferences_value p)) →
  getSavedChartPreferences st = p.
Proof.
  intros Hp Hst. destruct (preferences_text p Hp) as [(c & t & Et) Ej].
  unfold getSavedChartPreferences. rewrite Hst. rewrite Et in *. rewrite Ej. clear Hst Et Ej.
  generalize (getLegacySavedGranularity st). intros g0. destruct p as [ch m d g]. revert Hp.
  unfold valid_preferences. cbn [defaultTimeRangeDays TIME_RANGE_PRESETS map snd].
  rewrite !elem_of_cons, elem_of_nil. intros Hd.
  destruct ch, m, g; destruct_or? Hd; subst; try done; vm_compute; reflexivity.
Qed.

Lemma keys_differ : DASHBOARD_CHART_PREFERENCES_STORAGE_KEY ≠ TIME_GRANULARITY_STORAGE_KEY.
Proof. by vm_compute. Qed.

Lemma legacy_saved g st :
  obj_get TIME_GRANULARITY_STORAGE_KEY st = Some (granularity_text g) → getLegacySavedGranularity st = g.
Proof. intros E. unfold getLegacySavedGranularity. rewrite E. by destruct g. Qed.

(** Whatever local storage holds, the loaded preferences are valid; valid
    preferences are loaded back as they were saved; saving a granularity
    changes that preference only, under the new key and under the older one;
    and no other entry of local storage is touched. *)
Theorem preferences_roundtrip st p g k : valid_preferences p →
  valid_preferences (getSavedChartPreferences st) ∧
  getSavedChartPreferences (saveChartPreferences p st) = p ∧
  getSavedChartPreferences (saveGranularity g st) =
    {| consumptionDistributionChart := consumptionDistributionChart (getSavedChartPreferences st);
       modelAnalyticsChart := modelAnalyticsChart (getSavedChartPreferences st);
       defaultTimeRangeDays := defaultTimeRangeDays (getSavedChartPreferences st);
       defaultTimeGranularity := g |} ∧
  getLegacySavedGranularity (saveGranularity g st) = g ∧
  (k ∉ [TIME_GRANULARITY_STORAGE_KEY; DASHBOARD_CHART_PREFERENCES_STORAGE_KEY] → obj_get k (saveGranularity g st) = obj_get k st).
Proof.
  intros Hp. pose proof (saved_valid st) as Hs. pose proof keys_differ as Hne.
  split; [done|]. split; [by apply load_saved, obj_get_set_eq|].
  unfold saveGranularity, saveChartPreferences. split_and!.
  - apply load_saved; [done|]. by rewrite obj_get_set_ne, obj_get_set_eq.
  - by apply legacy_saved, obj_get_set_eq.
  - intros [H1 [H2 _]%not_elem_of_cons]%not_elem_of_cons.
    rewrite (obj_get_set_ne _ _ _ _ H1). exact (obj_get_set_ne _ _ _ _ H2).
Qed.

Lemma preferences_roundtrip_witness :
  valid_preferences DEFAULT_DASHBOARD_CHART_PREFERENCES ∧
  getSavedChartPreferences (saveChartPreferences DEFAULT_DASHBOARD_CHART_PREFERENCES
    [(DASHBOARD_CHART_PREFERENCES_STORAGE_KEY, js "{")]) = DEFAULT_DASHBOARD_CHART_PREFERENCES.
Proof.
  assert (valid_preferences DEFAULT_DASHBOARD_CHART_PREFERENCES) as Hv by by left.
  split; [done|].
  apply (preferences_roundtrip [(DASHBOARD_CHART_PREFERENCES_STORAGE_KEY, js "{")] DEFAULT_DASHBOARD_CHART_PREFERENCES Hour []); done.
Defined.

(** ** Query filters *)

(** What [cleanFilters] leaves of a value. *)
Definition clean_filter (v : jsval) : option jsval :=
  match v with
  | JUndef | JNull => None
  | JStr s => if str_truthy (trim s) then Some (JStr (trim s)) else None
  | _ => Some v
  end.

Lemma clean_step_get k acc kv : obj_get k acc = None ∨ k ≠ kv.1 →
  obj_get k (clean_step acc kv) = if str_eqb k kv.1 then clean_filter kv.2 else obj_get k acc.
Proof.
  destruct kv as [k' v]. cbn [fst snd]. intros Hk. unfold clean_step, clean_filter. cbn [fst snd].
  destruct (str_eqb k k') eqn:E.
  - apply str_eqb_eq in E as ->. destruct Hk as [Hk|]; [|done].
    repeat case_match; by rewrite ?obj_get_set_eq.
  - assert (k ≠ k') by (intros ->; by rewrite str_eqb_refl in E).
    repeat case_match; by rewrite ?obj_get_set_ne by done.
Qed.

Lemma clean_filters_get k filters : NoDup (map fst filters) →
  obj_get k (cleanFilters filters) = obj_get k filters ≫= clean_filter.
Proof.
  intros Hnd. unfold cleanFilters.
  assert (Hnd' : NoDup (map fst (own_entries filters))) by by rewrite own_entries_perm.
  assert (Hget : obj_get k filters = obj_get k (own_entries filters)).
  { destruct (obj_get k filters) as [v|] eqn:E.
    - symmetry. apply obj_get_in; [done|]. apply elem_of_own_entries. by apply obj_get_entry.
    - destruct (obj_get k (own_entries filters)) as [v|] eqn:E'; [|done].
      apply obj_get_entry, elem_of_own_entries, (obj_get_in _ _ _ Hnd) in E'. congruence. }
  rewrite Hget. clear Hget Hnd. revert Hnd'. generalize (own_entries filters).
  clear filters. intros o Hnd. assert (Hgen : ∀ acc, (∀ v, (k, v) ∈ o → obj_get k acc = None) →
    obj_get k (fold_left clean_step o acc) = match obj_get k o with Some v => clean_filter v | None => obj_get k acc end).
  2: { rewrite Hgen by done. by destruct (obj_get k o). }
  induction o as [|[k' v] o IH]; intros acc Hacc; [done|]. cbn [fold_left map fst] in *.
  apply NoDup_cons in Hnd as [Hk' Hnd]. cbn [obj_get].
  rewrite IH; [|done|].
  - destruct (str_eqb k k') eqn:E.
    + apply str_eqb_eq in E as ->. destruct (obj_get k' o) eqn:E'; [by apply obj_get_key in E'|].
      rewrite clean_step_get by (left; by eapply Hacc, list_elem_of_here). cbn [fst snd]. by rewrite str_eqb_refl.
    + destruct (obj_get k o); [done|]. rewrite clean_step_get; cbn [fst snd]; [by rewrite E|].
      right. intros ->. by rewrite str_eqb_refl in E.
  - intros w Hw. assert (k ≠ k') as Hne by (intros ->; apply Hk'; exact (list_elem_of_fmap_2 fst _ _ Hw)).
    rewrite clean_step_get by by right. cbn [fst].
    destruct (str_eqb k k') eqn:E; [by apply str_eqb_eq in E|]. eapply Hacc. by right.
Qed.

(** ** Tooltips *)

Section Tooltips.
Context `{H : Host} (state : SystemConfigState) (tt_ : jstr → jstr).

Lemma filter_split {A} (f : A → bool) l : List.filter (λ x, negb (f x)) l ++ List.filter f l ≡ₚ l.
Proof.
  induction l as [|x l IH]; [done|]. cbn [List.filter]. destruct (f x); cbn [negb].
  - rewrite <- Permutation_middle. by rewrite IH.
  - cbn. by rewrite IH.
Qed.

Lemma tooltip_lines_perm array : tooltip_models tt_ array ++ tooltip_others tt_ array ≡ₚ array.
Proof. unfold tooltip_models, tooltip_others. rewrite sort_stable_perm. apply filter_split. Qed.

Lemma time_sum_fold (s acc : num) items : num_truthy s = true →
  Forall (λ item, datum_field "TimeSum" item = JNum s) items → items ≠ [] →
  fold_left time_sum_step items acc = s.
Proof.
  intros Hs Hf Hne. assert (Hstep : ∀ a item, datum_field "TimeSum" item = JNum s → time_sum_step a item = s).
  { intros a item E. unfold time_sum_step. rewrite E. cbn [truthy to_number]. rewrite Hs.
    unfold num_or. by rewrite Hs. }
  destruct items as [|x items]; [done|]. apply Forall_cons in Hf as [Hx Hf]. cbn [fold_left]. rewrite (Hstep _ _ Hx).
  clear Hne Hx. induction Hf as [|y items Hy Hf IH]; [done|]. cbn [fold_left]. by rewrite Hstep.
Qed.

(** The tooltip of a time label accounts for all of it: its first line is
    the sum that the values carry; when there are more than fifteen lines, the
    fifteen greatest models are followed by one line with the exact quota of
    all the others, so that there are at most seventeen lines; otherwise every
    line is kept. *)
Theorem tooltip_accounts color array s n :
  array ≠ [] → num_truthy s = true → Forall (λ item, datum_field "TimeSum" item = JNum s) array →
  sums_to (map (datum_number "rawQuota") array) n → n < 2 ^ 53 →
  let show item := set_value (formatQuotaValue state (item_number item)) item in
  let models := tooltip_models tt_ array in
  ∃ rows, dimensionUpdateContent state tt_ color true array = total_line tt_ (formatQuotaValue state s) :: rows ∧
  (length rows ≤ 16)%nat ∧
  if (15 <? length array)%nat then
    ∃ a b, sums_to (map (datum_number "rawQuota") (take 15 models)) a ∧ a + b = n ∧
      rows = map show (take 15 models) ++
        [{| key := otherLabel tt_; value := JStr (formatQuotaValue state (of_Z b)); datum := None; shapeFill := Some color |}]
  else rows = map show (models ++ tooltip_others tt_ array) ∧ models ++ tooltip_others tt_ array ≡ₚ array.
Proof.
  intros Hne Hs Hf Hsum Hn show models. unfold dimensionUpdateContent. fold models.
  set (others := tooltip_others tt_ array).
  assert (Hp : models ++ others ≡ₚ array) by apply tooltip_lines_perm.
  rewrite time_sum_fold with (s := s); [|done|by rewrite Hp|by intros E; rewrite E in Hp; apply Permutation_nil_l in Hp].
  eexists. split; [reflexivity|]. cbn [andb].
  assert (El : length (models ++ others) = length array) by by rewrite Hp.
  rewrite length_map, El. fold show.
  change (MAX_TOOLTIP_MODELS) with 15%nat. destruct (Nat.ltb_spec 15 (length array)) as [Hlen|Hlen].
  - split; [rewrite length_app, length_take; cbn [length]; lia|].
    rewrite <- Hp, <- (take_drop 15 models), <- app_assoc, map_app in Hsum.
    apply sums_to_app_inv in Hsum as (a & b & Ha & Hb & ->). exists a, b.
    split; [done|]. split; [done|]. rewrite firstn_map. do 4 f_equal.
    pose proof (sums_to_nonneg _ _ Ha). pose proof (sums_to_nonneg _ _ Hb).
    rewrite <- (fold_left_map n_add (datum_number "rawQuota")), skipn_map, <- map_app, map_map.
    rewrite (map_ext _ (datum_number "rawQuota")) by done.
    f_equal. apply sums_to_fold; [done|lia].
  - split; [rewrite length_map, El; lia|]. done.
Qed.
End Tooltips.

(** Sixteen bars of one hour: one call each, of sixteen models. *)
Definition sixteen_bars : list TooltipLineItem :=
  map (λ i, {| key := js_of_string "model-" ++ num_to_string (of_Z (Z.of_nat i)); value := JNum (of_Z 10);
               datum := Some [(js_of_string "rawQuota", JNum (of_Z 10)); (js_of_string "TimeSum", JNum (of_Z 160))];
               shapeFill := None |}) (seq 1 16).

Lemma tooltip_accounts_witness : (15 < length sixteen_bars)%nat ∧
  ∃ rows, dimensionUpdateContent (H := plain_host) sample_state id (js_of_string "#FF8A00") true sixteen_bars =
    total_line id (formatQuotaValue (H := plain_host) sample_state (of_Z 160)) :: rows ∧ (length rows ≤ 16)%nat.
Proof.
  split; [vm_compute; lia|].
  destruct (tooltip_accounts (H := plain_host) sample_state id (js_of_string "#FF8A00") sixteen_bars (of_Z 160) 160) as (rows & E & Hl & _).
  - done.
  - by vm_compute.
  - apply Forall_map, Forall_true. intros i. by vm_compute.
  - exists (replicate 16 10). split; [by vm_compute|]. split; [by repeat constructor|done].
  - lia.
  - exists rows. split; [exact E|exact Hl].
Defined.
