(* ===== verification/TieredEditor.v ===== *)
(** * The tiered price editor (features/system-settings/models/tiered-pricing-editor.tsx)

    The component that edits the billing expression and the request rules of a
    model, visually or as text.  Its state is the record [Editor]: what the
    component keeps, the mutable reference that tells whether it was
    initialised, and the two expressions, which are the state of the sheet
    around it (model-pricing-sheet.tsx passes its setters as the callbacks) and
    come back as properties.

    One [commit] is one rendering and the run of its effects: every effect sees
    the state of that rendering, effects run in the order of the source, an
    effect with dependencies runs when one of them has changed since the last
    commit and on the first, and what the effects set is the state of the next
    rendering.  Effects that compare before they call (the third and the fourth)
    are run on every commit, which makes no difference.  The readers of
    expressions may throw; then so does the component. *)

From S2P Require Import Prelude JsNumber JsString JsRegex JsValue Host Currency Format BillingExpr TierExpr.

Open Scope nat_scope.

(** ** Number fields *)

Definition unitCostToPrice (uc : jsval) : num := number_or_0 uc.
Definition priceToUnitCost (price : jsval) : num := number_or_0 price.

Section Hints.
Context `{H : Host}.

Definition local_number (x : num) : jstr := number_format (nf None None None None None) x.

Definition formatTokenHint (n : jsval) : jstr :=
  if is_nullish n || strict_eq n (JStr []) || isNaN (to_number n) then []
  else
    let v := to_number n in
    if n_eq v (of_Z 0) then js "= 0"
    else if n_ge v (of_Z 1000000) then js "= " ++ local_number (n_div v (of_Z 1000000)) ++ js "M tokens"
    else if n_ge v (of_Z 1000) then js "= " ++ local_number (n_div v (of_Z 1000)) ++ js "K tokens"
    else js "= " ++ local_number v ++ js " tokens".
End Hints.

Definition formatNumberDraft (value : jsval) : jstr :=
  match value with
  | JNum x => if isFinite x then num_to_string x else js "0"
  | JStr s => s
  | v => to_string v
  end.

Definition parseNumberDraft (value : jstr) : num :=
  match trim value with
  | [] => of_Z 0
  | _ => let next := string_to_number value in if isFinite next then next else of_Z 0
  end.

Definition isZeroDraft (value : jstr) : bool :=
  str_truthy (trim value) && n_eq (parseNumberDraft value) (of_Z 0).

(** [DraftNumberInput]: the text in the field, and whether it has the focus.
    The handlers also return the number they pass to [onValueChange]. *)
Record DraftInput := { draft : jstr; focused : bool }.

Definition draft_mount (value : jsval) : DraftInput := {| draft := formatNumberDraft value; focused := false |}.

(** The effect on [focused] and [value]. *)
Definition draft_effect (value : jsval) (d : DraftInput) : DraftInput :=
  if focused d then d else {| draft := formatNumberDraft value; focused := false |}.

Definition draft_change (text : jstr) (d : DraftInput) : DraftInput * num :=
  ({| draft := text; focused := focused d |}, parseNumberDraft text).

Definition draft_focus (d : DraftInput) : DraftInput := {| draft := draft d; focused := true |}.

(** Whether focusing or clicking selects the text. *)
Definition draft_selects (selectZeroOnFocus : bool) (d : DraftInput) : bool :=
  selectZeroOnFocus && isZeroDraft (draft d).

Definition draft_blur (d : DraftInput) : DraftInput * num :=
  let normalized := parseNumberDraft (draft d) in
  ({| draft := num_to_string normalized; focused := false |}, normalized).

(** ** Presets *)

Record Preset := { p_key : jstr; p_label : jstr; p_expr : jstr; p_requestRules : list RequestRuleGroup }.

Definition preset (key label : string) (expr : string) (rules : list RequestRuleGroup) : Preset :=
  {| p_key := js_of_string key; p_label := js_of_string label; p_expr := quoted expr; p_requestRules := rules |}.

Definition rule (c : RequestCondition) (mult : string) : RequestRuleGroup :=
  {| conditions := [c]; multiplier := js_of_string mult |}.

Definition weekday (d : string) : RequestCondition :=
  CTime {| tc_timeFunc := js "weekday"; tc_timezone := js "Asia/Shanghai"; tc_mode := MATCH_EQ;
           tc_value := js_of_string d; tc_rangeStart := []; tc_rangeEnd := [] |}.

Definition PRESET_GROUPS : list (jstr * list Preset) := [
  (js "Fixed price", [
     preset "flat" "Flat" "tier('base', p * 2 + c * 4)" [];
     preset "claude-opus" "Claude Opus 4.6" "tier('base', p * 5 + c * 25 + cr * 0.5 + cc * 6.25 + cc1h * 10)" [];
     preset "gpt-5.4" "GPT-5.4"
       "len <= 272000 ? tier('standard', p * 2.5 + c * 15 + cr * 0.25) : tier('long_context', p * 5 + c * 22.5 + cr * 0.5)" []]);
  (js "Tiered", [
     preset "claude-sonnet" "Claude Sonnet 4.5"
       "len <= 200000 ? tier('standard', p * 3 + c * 15 + cr * 0.3 + cc * 3.75 + cc1h * 6) : tier('long_context', p * 6 + c * 22.5 + cr * 0.6 + cc * 7.5 + cc1h * 12)" [];
     preset "qwen3-max" "Qwen3 Max"
       "len <= 32000 ? tier('short', p * 1.2 + c * 6 + cr * 0.24 + cc * 1.5) : len <= 128000 ? tier('mid', p * 2.4 + c * 12 + cr * 0.48 + cc * 3) : tier('long', p * 3 + c * 15 + cr * 0.6 + cc * 3.75)" [];
     preset "glm-4.5-air" "GLM-4.5 Air"
       "len < 32000 && c < 200 ? tier('short_output', p * 0.8 + c * 2 + cr * 0.16) : len < 32000 && c >= 200 ? tier('long_output', p * 0.8 + c * 6 + cr * 0.16) : tier('mid_context', p * 1.2 + c * 8 + cr * 0.24)" [];
     preset "doubao-seed-1.8" "Doubao Seed 1.8"
       "len <= 32000 && c <= 200 ? tier('discount', p * 0.8 + c * 2 + cr * 0.16 + cc * 0.17) : len <= 32000 ? tier('short', p * 0.8 + c * 8 + cr * 0.16 + cc * 0.17) : len <= 128000 ? tier('mid', p * 1.2 + c * 16 + cr * 0.16 + cc * 0.17) : tier('long', p * 2.4 + c * 24 + cr * 0.16 + cc * 0.17)" []]);
  (js "Multimodal", [
     preset "gpt-image-1-mini" "GPT Image 1 Mini" "tier('base', p * 2 + c * 8 + img * 2.5)" [];
     preset "gemini-2.5-flash" "Gemini 2.5 Flash" "tier('base', p * 0.3 + c * 2.5 + cr * 0.03 + ai * 1.0)" [];
     preset "gemini-3-pro-image" "Gemini 3 Pro Image" "tier('base', p * 2 + c * 12 + img_o * 120)" [];
     preset "qwen3-omni-flash" "Qwen3 Omni Flash" "tier('base', p * 0.43 + c * 3.06 + img * 0.78 + ai * 3.81 + ao * 15.11)" []]);
  (js "Request rule", [
     preset "claude-opus-fast" "Claude Opus 4.6 Fast" "tier('base', p * 5 + c * 25 + cr * 0.5 + cc * 6.25 + cc1h * 10)"
       [rule (ph Header (js "anthropic-beta") MATCH_CONTAINS (js "fast-mode-2026-02-01")) "6"];
     preset "gpt-5.4-tiers" "GPT-5.4 Priority/Flex"
       "len <= 272000 ? tier('standard', p * 2.5 + c * 15 + cr * 0.25) : tier('long_context', p * 5 + c * 22.5 + cr * 0.5)"
       [rule (ph Param (js "service_tier") MATCH_EQ (js "priority")) "2";
        rule (ph Param (js "service_tier") MATCH_EQ (js "flex")) "0.5"]]);
  (js "Time-based", [
     preset "night-discount" "Night discount (50%)" "tier('base', p * 3 + c * 15)"
       [rule (CTime {| tc_timeFunc := js "hour"; tc_timezone := js "Asia/Shanghai"; tc_mode := MATCH_RANGE;
                       tc_value := []; tc_rangeStart := js "21"; tc_rangeEnd := js "6" |}) "0.5"];
     preset "weekend-discount" "Weekend discount (80%)" "tier('base', p * 3 + c * 15)"
       [rule (weekday "0") "0.8"; rule (weekday "6") "0.8"]])].

Definition all_presets : list Preset := concat (map snd PRESET_GROUPS).

(** The groups shown before the list is expanded. *)
Definition visible_presets (expanded : bool) : list (jstr * list Preset) :=
  if expanded then PRESET_GROUPS else take 2 PRESET_GROUPS.

(** ** Tiers *)

(** [{ ...tier, [field]: value }] *)
Definition with_field (k : string) (v : jsval) (tier : VisualTier) : VisualTier := obj_set (js_of_string k) v tier.

Definition tier_conditions (tier : VisualTier) : list jsval :=
  match field (js "conditions") tier with JArr cs => cs | _ => [] end.

Definition condition_object (var op : string) (value : jsval) : jsval :=
  JObj [(js "var", JStr (js_of_string var)); (js "op", JStr (js_of_string op)); (js "value", value)].

Definition default_condition (var : string) : jsval := condition_object var "<" (JNum (of_Z 200000)).

(** [VisualTierCard] *)
Definition handleConditionChange (conditionIndex : nat) (next : jsval) (tier : VisualTier) : VisualTier :=
  with_field "conditions" (JArr (<[conditionIndex := next]> (tier_conditions tier))) tier.

Definition handleConditionRemove (conditionIndex : nat) (tier : VisualTier) : VisualTier :=
  with_field "conditions" (JArr (delete conditionIndex (tier_conditions tier))) tier.

Definition handlePriceChange (f : string) (value : num) (tier : VisualTier) : VisualTier :=
  with_field f (JNum value) tier.

Definition handleCacheModeChange (mode : jstr) (tier : VisualTier) : VisualTier :=
  let cost := field (js "cache_create_1h_unit_cost") tier in
  with_field "cache_create_1h_unit_cost"
    (if str_eqb mode CACHE_MODE_TIMED then (if is_nullish cost then JNum (of_Z 0) else cost) else JNum (of_Z 0))
    (with_field "cache_mode" (JStr mode) tier).

Definition handleLabelChange (label : jstr) (tier : VisualTier) : VisualTier := with_field "label" (JStr label) tier.

(** [VisualEditor]: the handlers act on the normalised configuration and
    return the one passed to [onChange]. *)
Definition handleTierChange (index : nat) (next : VisualTier) (config : VisualConfig) : VisualConfig :=
  <[index := normalizeVisualTier next]> config.

(** A last tier without conditions, which would always match, gets one. *)
Definition bound_last (tiers : VisualConfig) : VisualConfig :=
  match last tiers with
  | Some tier =>
      match tier_conditions tier with
      | [] => <[length tiers - 1 := normalizeVisualTier (with_field "conditions" (JArr [default_condition "len"]) tier)]> tiers
      | _ => tiers
      end
  | None => tiers
  end.

Definition handleAddTier (config : VisualConfig) : VisualConfig :=
  let tiers := bound_last config in
  tiers ++ [normalizeVisualTier
    [(js "label", JStr (js "tier_" ++ num_to_string (of_Z (Z.of_nat (length tiers) + 1))));
     (js "conditions", JArr []);
     (js "input_unit_cost", JNum (of_Z 0));
     (js "output_unit_cost", JNum (of_Z 0))]].

Definition handleRemoveTier (index : nat) (config : VisualConfig) : VisualConfig :=
  match delete index config with [] => config | tiers => tiers end.

Definition handleAddCondition (index : nat) (config : VisualConfig) : VisualConfig :=
  match config !! index with
  | None => config
  | Some tier =>
      let cs := tier_conditions tier in
      if (2 <=? length cs) then config
      else
        let uses_len := existsb (λ c, strict_eq (prop "var" c) (JStr (js "len"))) cs in
        let nextVar := if uses_len then "c"%string else "len"%string in
        <[index := with_field "conditions" (JArr (cs ++ [default_condition nextVar])) tier]> config
  end.

(** ** Request rules *)

(** [RuleConditionRow] *)
Definition handleSourceChange (source : jstr) (c : RequestCondition) : RequestCondition :=
  if str_eqb source SOURCE_TIME then CTime createEmptyTimeCondition
  else if str_eqb source SOURCE_HEADER then ph Header (ph_path createEmptyCondition) (ph_mode createEmptyCondition) (ph_value createEmptyCondition)
  else if str_eqb source SOURCE_PARAM then ph Param (ph_path createEmptyCondition) (ph_mode createEmptyCondition) (ph_value createEmptyCondition)
  else c.

Definition handleMatchModeChange (mode : jstr) (c : RequestCondition) : RequestCondition :=
  match c with
  | CTime t => CTime {| tc_timeFunc := tc_timeFunc t; tc_timezone := tc_timezone t; tc_mode := mode;
                        tc_value := tc_value t; tc_rangeStart := tc_rangeStart t; tc_rangeEnd := tc_rangeEnd t |}
  | CPH p => ph (ph_source p) (ph_path p) mode (ph_value p)
  end.

Inductive TimeField := TimeFunc | Timezone | TimeValue | RangeStart | RangeEnd.

(** The fields of a time condition; the number fields store [String(value)]. *)
Definition set_time_field (f : TimeField) (v : jstr) (t : TimeCondition) : TimeCondition :=
  {| tc_timeFunc := match f with TimeFunc => v | _ => tc_timeFunc t end;
     tc_timezone := match f with Timezone => v | _ => tc_timezone t end;
     tc_mode := tc_mode t;
     tc_value := match f with TimeValue => v | _ => tc_value t end;
     tc_rangeStart := match f with RangeStart => v | _ => tc_rangeStart t end;
     tc_rangeEnd := match f with RangeEnd => v | _ => tc_rangeEnd t end |}.

Definition typed_number (text : jstr) : jstr := num_to_string (parseNumberDraft text).

(** [RuleGroupCard] *)
Definition changeCondition (i : nat) (next : RequestCondition) (g : RequestRuleGroup) : RequestRuleGroup :=
  {| conditions := <[i := next]> (conditions g); multiplier := multiplier g |}.

Definition removeCondition (i : nat) (g : RequestRuleGroup) : RequestRuleGroup :=
  {| conditions := delete i (conditions g); multiplier := multiplier g |}.

Definition addCondition (timeMode : bool) (g : RequestRuleGroup) : RequestRuleGroup :=
  {| conditions := conditions g ++ [if timeMode then CTime createEmptyTimeCondition else CPH createEmptyCondition];
     multiplier := multiplier g |}.

Definition setMultiplier (text : jstr) (g : RequestRuleGroup) : RequestRuleGroup :=
  {| conditions := conditions g; multiplier := typed_number text |}.

(** ** The editor *)

Inductive EditorMode := Visual | Raw.

#[export] Instance EditorMode_eq_dec : EqDecision EditorMode.
Proof. solve_decision. Defined.

Record Editor := {
  editorMode : EditorMode;
  visualConfig : option VisualConfig;
  rawExpr : jstr;
  requestRuleGroups : list RequestRuleGroup;
  initRef : bool;
  (* the properties: the state of the sheet and the name of the model *)
  currentExpr : jstr;
  currentRequestRuleExpr : jstr;
  modelName : jstr;
  (* the properties of the last commit, for the dependencies *)
  committed : option (jstr * jstr * jstr)
}.

(** The initial values of the state. *)
Definition mountEditor (model expr ruleExpr : jstr) : outcome Editor :=
  groups ← tryParseRequestRuleExpr ruleExpr;
  Ret {| editorMode := Visual;
         visualConfig := tryParseVisualConfig expr;
         rawExpr := combineBillingExpr expr ruleExpr;
         requestRuleGroups := default [] groups;
         initRef := false;
         currentExpr := expr; currentRequestRuleExpr := ruleExpr; modelName := model;
         committed := None |}.

Definition canUseVisualRules (st : Editor) : outcome bool :=
  if negb (str_truthy (currentRequestRuleExpr st)) then Ret true
  else
    parsed ← tryParseRequestRuleExpr (currentRequestRuleExpr st);
    Ret (match parsed with Some _ => true | None => false end).

Definition effectiveExpr (st : Editor) : outcome jstr :=
  match editorMode st with
  | Visual => Ret (generateExprFromVisualConfig (visualConfig st))
  | Raw =>
      '(billingExpr, _) ← splitBillingExprAndRequestRules (rawExpr st);
      Ret billingExpr
  end.

(** The dependencies of the first effect, and of the second. *)
Definition expressions_changed (st : Editor) : bool :=
  match committed st with
  | None => true
  | Some (expr, ruleExpr, _) =>
      negb (str_eqb expr (currentExpr st)) || negb (str_eqb ruleExpr (currentRequestRuleExpr st))
  end.

Definition model_changed (st : Editor) : bool :=
  match committed st with
  | None => true
  | Some (_, _, model) => negb (str_eqb model (modelName st))
  end.

(** The state the component keeps. *)
Record Local := {
  l_mode : EditorMode;
  l_config : option VisualConfig;
  l_raw : jstr;
  l_groups : list RequestRuleGroup;
  l_init : bool
}.

Definition local (st : Editor) : Local := {|
  l_mode := editorMode st; l_config := visualConfig st; l_raw := rawExpr st;
  l_groups := requestRuleGroups st; l_init := initRef st |}.

(** The first effect: read the expressions, unless that was done. *)
Definition initEffect (st : Editor) : outcome Local :=
  if expressions_changed st && negb (initRef st) then
    groups ← tryParseRequestRuleExpr (currentRequestRuleExpr st);
    let parsedConfig := tryParseVisualConfig (currentExpr st) in
    Ret {|
      l_mode :=
        match parsedConfig with
        | Some _ => Visual
        | None => if str_truthy (currentExpr st) then Raw else editorMode st
        end;
      l_config :=
        match parsedConfig with
        | Some config => Some config
        | None => if str_truthy (currentExpr st) then None else Some createDefaultVisualConfig
        end;
      l_raw := combineBillingExpr (currentExpr st) (currentRequestRuleExpr st);
      l_groups := default [] groups;
      l_init := true |}
  else Ret (local st).

(** The fourth effect: in visual mode the rules are those of the groups. *)
Definition ruleEffect (st : Editor) : jstr :=
  match editorMode st with
  | Visual => buildRequestRuleExpr (requestRuleGroups st)
  | Raw => currentRequestRuleExpr st
  end.

Definition commit (st : Editor) : outcome Editor :=
  effective ← effectiveExpr st;
  _ ← canUseVisualRules st;
  l ← initEffect st;
  Ret {| editorMode := l_mode l; visualConfig := l_config l; rawExpr := l_raw l;
         requestRuleGroups := l_groups l;
         initRef := if model_changed st then false else l_init l;
         currentExpr := effective;
         currentRequestRuleExpr := ruleEffect st;
         modelName := modelName st;
         committed := Some (currentExpr st, currentRequestRuleExpr st, modelName st) |}.

Fixpoint commits (n : nat) (st : Editor) : outcome Editor :=
  match n with O => Ret st | S n => st' ← commit st; commits n st' end.

(** No effect changes anything any more. *)
Definition settled (st : Editor) : Prop := commit st = Ret st.

(** Five commits are enough ([editor_settles]). *)
Definition settle (st : Editor) : outcome Editor := commits 5 st.

Definition openEditor (model expr ruleExpr : jstr) : outcome Editor :=
  st ← mountEditor model expr ruleExpr;
  settle st.

(** A mounted editor that is given other properties keeps its own state. *)
Definition with_props (model expr ruleExpr : jstr) (st : Editor) : Editor := {|
  editorMode := editorMode st; visualConfig := visualConfig st; rawExpr := rawExpr st;
  requestRuleGroups := requestRuleGroups st; initRef := initRef st;
  currentExpr := expr; currentRequestRuleExpr := ruleExpr; modelName := model; committed := committed st |}.

(** *** Handlers *)

(** The component sets its own state; a callback sets the sheet's. *)
Definition update (st : Editor) (m : EditorMode) (c : option VisualConfig) (r : jstr)
    (gs : list RequestRuleGroup) (ruleExpr : jstr) : Editor := {|
  editorMode := m; visualConfig := c; rawExpr := r; requestRuleGroups := gs; initRef := initRef st;
  currentExpr := currentExpr st; currentRequestRuleExpr := ruleExpr; modelName := modelName st;
  committed := committed st |}.

Definition handleVisualChange (next : VisualConfig) (st : Editor) : outcome Editor :=
  Ret (update st (editorMode st) (Some next) (rawExpr st) (requestRuleGroups st) (currentRequestRuleExpr st)).

Definition handleRawChange (value : jstr) (st : Editor) : outcome Editor :=
  '(_, ruleStr) ← splitBillingExprAndRequestRules value;
  Ret (update st (editorMode st) (visualConfig st) value (requestRuleGroups st) ruleStr).

Definition handleModeChange (next : EditorMode) (st : Editor) : outcome Editor :=
  match next with
  | Visual =>
      '(billingExpr, ruleStr) ← splitBillingExprAndRequestRules (rawExpr st);
      let config := default createDefaultVisualConfig (tryParseVisualConfig billingExpr) in
      parsedGroups ← tryParseRequestRuleExpr ruleStr;
      Ret (update st Visual (Some config) (rawExpr st) (default [] parsedGroups) ruleStr)
  | Raw =>
      let expr := generateExprFromVisualConfig (visualConfig st) in
      let ruleExpr := buildRequestRuleExpr (requestRuleGroups st) in
      Ret (update st Raw (visualConfig st) (str_or (combineBillingExpr expr ruleExpr) expr)
             (requestRuleGroups st) (currentRequestRuleExpr st))
  end.

Definition applyPreset (p : Preset) (st : Editor) : outcome Editor :=
  let presetGroups := p_requestRules p in
  let ruleExpr := buildRequestRuleExpr presetGroups in
  let combined := str_or (combineBillingExpr (p_expr p) ruleExpr) (p_expr p) in
  let parsed := tryParseVisualConfig (p_expr p) in
  Ret (update st (match parsed with Some _ => Visual | None => Raw end) parsed combined presetGroups ruleExpr).

Definition handleRuleGroupsChange (next : list RequestRuleGroup) (st : Editor) : outcome Editor :=
  Ret (update st (editorMode st) (visualConfig st) (rawExpr st) next (currentRequestRuleExpr st)).

(** *** What the user can do, each followed by the commits it causes *)

Inductive TierEdit :=
  | EditLabel (label : jstr)
  | EditPrice (f : string) (typed : jstr)
  | EditCacheMode (mode : jstr)
  | EditCondition (i : nat) (next : jsval)
  | RemoveTierCondition (i : nat).

Definition edit_tier (e : TierEdit) (tier : VisualTier) : VisualTier :=
  match e with
  | EditLabel label => handleLabelChange label tier
  | EditPrice f typed => handlePriceChange f (priceToUnitCost (JNum (parseNumberDraft typed))) tier
  | EditCacheMode mode => handleCacheModeChange mode tier
  | EditCondition i next => handleConditionChange i next tier
  | RemoveTierCondition i => handleConditionRemove i tier
  end.

Inductive Event :=
  | ChangeMode (m : EditorMode)
  | TypeRaw (value : jstr)
  | ChoosePreset (p : Preset)
  | ChangeTier (i : nat) (e : TierEdit)
  | AddTier
  | RemoveTier (i : nat)
  | AddTierCondition (i : nat)
  | ChangeGroup (i : nat) (next : RequestRuleGroup)
  | RemoveGroup (i : nat)
  | AddGroup.

Definition with_config (f : VisualConfig → VisualConfig) (st : Editor) : outcome Editor :=
  handleVisualChange (f (normalizeVisualConfig (visualConfig st))) st.

Definition handle (e : Event) (st : Editor) : outcome Editor :=
  match e with
  | ChangeMode m => handleModeChange m st
  | TypeRaw value => handleRawChange value st
  | ChoosePreset p => applyPreset p st
  | ChangeTier i edit =>
      with_config (λ config, match config !! i with
                             | Some tier => handleTierChange i (edit_tier edit tier) config
                             | None => config
                             end) st
  | AddTier => with_config handleAddTier st
  | RemoveTier i => with_config (handleRemoveTier i) st
  | AddTierCondition i => with_config (handleAddCondition i) st
  | ChangeGroup i next => handleRuleGroupsChange (<[i := next]> (requestRuleGroups st)) st
  | RemoveGroup i => handleRuleGroupsChange (delete i (requestRuleGroups st)) st
  | AddGroup => handleRuleGroupsChange (requestRuleGroups st ++ [createEmptyRuleGroup]) st
  end.

Definition editor_step (e : Event) (st : Editor) : outcome Editor := st' ← handle e st; settle st'.
