(* ===== verification/TieredEditorFacts.v ===== *)
(** * Facts about the tiered price editor

    The effects of the editor settle, and what the sheet then holds; what opening
    it, turning to another model, switching its mode and choosing a preset do to
    the stored expressions. *)

From S2P Require Import Prelude JsNumber JsString JsRegex JsValue Host Currency Format BillingExpr BillingSplit BillingRules TierExpr TieredEditor.

Open Scope nat_scope.

(** ** Commits *)

Lemma str_eqb_sym s t : str_eqb s t = str_eqb t s.
Proof. unfold str_eqb. by apply bool_decide_ext. Qed.

Lemma commits_S n st st' : commits (S n) st = Ret st' → ∃ st1, commit st = Ret st1 ∧ commits n st1 = Ret st'.
Proof. simpl. destruct (commit st) as [st1|]; [|done]. by exists st1. Qed.

Lemma commits_step n st st1 : commit st = Ret st1 → commits (S n) st = commits n st1.
Proof. intros E. cbn [commits]. by rewrite E. Qed.

Lemma settled_commits n st : settled st → commits n st = Ret st.
Proof. intros Hs. induction n as [|n IH]; simpl; [done|]. unfold settled in Hs. by rewrite Hs. Qed.

(** What a commit does: the model is known from then on. *)
Lemma commit_inv st st' : commit st = Ret st' → ∃ e b l,
  effectiveExpr st = Ret e ∧ canUseVisualRules st = Ret b ∧ initEffect st = Ret l ∧
  st' = {| editorMode := l_mode l; visualConfig := l_config l; rawExpr := l_raw l; requestRuleGroups := l_groups l;
           initRef := if model_changed st then false else l_init l;
           currentExpr := e; currentRequestRuleExpr := ruleEffect st; modelName := modelName st;
           committed := Some (currentExpr st, currentRequestRuleExpr st, modelName st) |}.
Proof.
  unfold commit. destruct (effectiveExpr st) as [e|] eqn:He; [|done].
  destruct (canUseVisualRules st) as [b|] eqn:Hb; [|done].
  destruct (initEffect st) as [l|] eqn:Hl; [|done]. intros [= <-]. by exists e, b, l.
Qed.

Lemma commit_known st st' : commit st = Ret st' → model_changed st' = false.
Proof. intros (e & b & l & _ & _ & _ & ->)%commit_inv. unfold model_changed. simpl. by rewrite str_eqb_refl. Qed.

Lemma model_changed_false st : model_changed st = false →
  ∃ expr ruleExpr, committed st = Some (expr, ruleExpr, modelName st).
Proof.
  unfold model_changed. destruct (committed st) as [[[e r] m]|]; [|done].
  intros E%negb_false_iff%str_eqb_eq. subst. by exists e, r.
Qed.

Lemma effectiveExpr_local st st' : local st = local st' → effectiveExpr st = effectiveExpr st'.
Proof. unfold effectiveExpr. intros [= E1 E2 E3 _ _]. by rewrite E1, E2, E3. Qed.

(** A commit without the first effect keeps the component's state. *)
Lemma commit_idle st st' : model_changed st = false → expressions_changed st && negb (initRef st) = false →
  commit st = Ret st' →
  local st' = local st ∧ effectiveExpr st = Ret (currentExpr st') ∧
  currentRequestRuleExpr st' = ruleEffect st ∧ modelName st' = modelName st ∧
  committed st' = Some (currentExpr st, currentRequestRuleExpr st, modelName st).
Proof.
  intros Hm Hi (e & b & l & He & _ & Hl & ->)%commit_inv. unfold initEffect in Hl. rewrite Hi in Hl. injection Hl as <-.
  rewrite Hm. by destruct st.
Qed.

Lemma editor_eq st st' : local st = local st' → currentExpr st = currentExpr st' →
  currentRequestRuleExpr st = currentRequestRuleExpr st' → modelName st = modelName st' → committed st = committed st' → st = st'.
Proof. destruct st, st'. simpl. intros [= -> -> -> -> ->] -> -> -> ->. done. Qed.

Lemma ruleEffect_local st st' : local st = local st' → currentRequestRuleExpr st' = ruleEffect st → ruleEffect st' = ruleEffect st.
Proof. unfold ruleEffect. intros [= E1 _ _ E4 _]. rewrite E1, E4. by destruct (editorMode st'). Qed.

(** Once initialised, two commits settle. *)
Lemma done_settles st st' : model_changed st = false → initRef st = true → commits 2 st = Ret st' → settled st'.
Proof.
  intros Hm Hi (st1 & C1 & (st2 & C2 & [= <-])%commits_S)%commits_S.
  pose proof (commit_known _ _ C1) as Hm1. pose proof (commit_known _ _ C2) as Hm2.
  destruct (commit_idle st st1 Hm) as (L1 & E1 & R1 & M1 & D1); [by rewrite Hi, andb_false_r|done|].
  assert (Hi1 : initRef st1 = true) by (rewrite <- Hi; by injection L1).
  destruct (commit_idle st1 st2 Hm1) as (L2 & E2 & R2 & M2 & D2); [by rewrite Hi1, andb_false_r|done|].
  assert (Hi2 : initRef st2 = true) by (rewrite <- Hi1; by injection L2).
  assert (X2 : currentExpr st2 = currentExpr st1).
  { rewrite (effectiveExpr_local st1 st) in E2 by done. congruence. }
  assert (Q2 : currentRequestRuleExpr st2 = currentRequestRuleExpr st1).
  { rewrite R2. rewrite (ruleEffect_local st st1); [done|done|done]. }
  unfold settled. destruct (commit st2) as [st3|] eqn:C3.
  - destruct (commit_idle st2 st3 Hm2) as (L3 & E3 & R3 & M3 & D3); [by rewrite Hi2, andb_false_r|done|].
    f_equal. apply editor_eq; [done| | |done|].
    + rewrite (effectiveExpr_local st2 st1) in E3 by done. congruence.
    + rewrite R3. rewrite (ruleEffect_local st1 st2) by done. by rewrite <- R2.
    + rewrite D3, D2, X2, Q2, M2. done.
  - exfalso. revert C3. unfold commit. rewrite (effectiveExpr_local st2 st1), E2 by done. cbn [mbind outcome_bind].
    destruct (canUseVisualRules st2) as [b|] eqn:Hc.
    + unfold initEffect. by rewrite Hi2, andb_false_r.
    + exfalso. apply commit_inv in C2 as (_ & b & _ & _ & Hb & _). unfold canUseVisualRules in *. rewrite Q2 in Hc. congruence.
Qed.

Lemma init_done st st' : model_changed st = false → expressions_changed st && negb (initRef st) = true →
  commit st = Ret st' → initRef st' = true.
Proof.
  intros Hm Hi (e & b & l & _ & _ & Hl & ->)%commit_inv. simpl. rewrite Hm.
  unfold initEffect in Hl. rewrite Hi in Hl. destruct (tryParseRequestRuleExpr _); [|done]. by injection Hl as <-.
Qed.

(** Nothing to initialise from: the commit changes nothing, or it changes the
    expressions and the next one initialises. *)
Lemma idle_or_due st st' : model_changed st = false → initRef st = false → expressions_changed st = false →
  commit st = Ret st' → st' = st ∨ expressions_changed st' && negb (initRef st') = true.
Proof.
  intros Hm Hi Hc C1. destruct (commit_idle st st' Hm) as (L1 & E1 & R1 & M1 & D1); [by rewrite Hc|done|].
  assert (Hi' : initRef st' = false) by (rewrite <- Hi; by injection L1).
  destruct (model_changed_false st Hm) as (e & r & Hcom). unfold expressions_changed in Hc. rewrite Hcom in Hc.
  apply orb_false_iff in Hc as [->%negb_false_iff%str_eqb_eq ->%negb_false_iff%str_eqb_eq].
  destruct (decide (currentExpr st' = currentExpr st ∧ currentRequestRuleExpr st' = currentRequestRuleExpr st)) as [[X R]|Hne].
  - left. apply editor_eq; [done..|]. by rewrite D1, Hcom.
  - right. rewrite Hi', andb_true_r. unfold expressions_changed. rewrite D1. unfold str_eqb. rewrite <- negb_andb, <- bool_decide_and.
    apply negb_true_iff, bool_decide_eq_false. naive_solver.
Qed.

Lemma settled_shown st : settled st → effectiveExpr st = Ret (currentExpr st) ∧
  (editorMode st = Visual → currentRequestRuleExpr st = buildRequestRuleExpr (requestRuleGroups st)).
Proof.
  intros (e & b & l & He & _ & _ & E)%commit_inv. split.
  - rewrite He. f_equal. by rewrite E.
  - intros Hv. rewrite E at 1. cbn. unfold ruleEffect. by rewrite Hv.
Qed.

Lemma settle_settled st st' : settle st = Ret st' → settled st'.
Proof.
  unfold settle. intros (st1 & C1 & Hrest)%commits_S. pose proof (commit_known _ _ C1) as Hm1. clear C1 st.
  assert (Hdone : ∀ n st, 2 ≤ n → model_changed st = false → initRef st = true → commits n st = Ret st' → settled st').
  { intros n st Hn Hm Hi Hc. destruct n as [|[|n]]; [lia|lia|].
    apply commits_S in Hc as (sta & Ca & (stb & Cb & Hc)%commits_S).
    assert (Hs : settled stb) by (eapply (done_settles st); [done|done|]; simpl; rewrite Ca; simpl; by rewrite Cb).
    rewrite settled_commits in Hc by done. by injection Hc as <-. }
  destruct (initRef st1) eqn:Hi1; [by apply (Hdone 4 st1); [lia|..]|].
  apply commits_S in Hrest as (st2 & C2 & Hrest). pose proof (commit_known _ _ C2) as Hm2.
  destruct (expressions_changed st1) eqn:Hc1.
  - apply (Hdone 3 st2); [lia|done| |done]. eapply (init_done st1); [done| |done]. by rewrite Hc1, Hi1.
  - destruct (idle_or_due st1 st2) as [->|Hdue]; [done..| |].
    + assert (Hs : settled st1) by done. rewrite settled_commits in Hrest by done. by injection Hrest as <-.
    + apply commits_S in Hrest as (st3 & C3 & Hrest).
      apply (Hdone 2 st3); [lia|by eapply commit_known| |done]. by eapply (init_done st2).
Qed.

(** ** Opening the editor *)

(** A configuration the reader recovers from what it prints, and groups
    likewise. *)
Definition stable (c : VisualConfig) : Prop :=
  tryParseVisualConfig (generateExprFromVisualConfig (Some c)) = Some c.

Definition readable (gs : list RequestRuleGroup) : Prop :=
  tryParseRequestRuleExpr (buildRequestRuleExpr gs) = Ret (Some gs).

Definition mkEditor m c r gs i e q model d : Editor := {|
  editorMode := m; visualConfig := c; rawExpr := r; requestRuleGroups := gs; initRef := i;
  currentExpr := e; currentRequestRuleExpr := q; modelName := model; committed := d |}.

Lemma can_use_readable gs m c r gs' i e model d : readable gs →
  ∃ b, canUseVisualRules (mkEditor m c r gs' i e (buildRequestRuleExpr gs) model d) = Ret b.
Proof.
  intros Hg. unfold canUseVisualRules. simpl. destruct (str_truthy _); simpl; [|by eexists].
  unfold readable in Hg. rewrite Hg. by eexists.
Qed.

(** A commit in visual mode, initialised or with nothing to initialise from. *)
Lemma visual_commit c gs gs0 r i e model e0 r0 : readable gs0 →
  ((negb (str_eqb e0 e) || negb (str_eqb r0 (buildRequestRuleExpr gs0))) && negb i = false) →
  commit (mkEditor Visual (Some c) r gs i e (buildRequestRuleExpr gs0) model (Some (e0, r0, model))) =
  Ret (mkEditor Visual (Some c) r gs i (generateExprFromVisualConfig (Some c)) (buildRequestRuleExpr gs) model
         (Some (e, buildRequestRuleExpr gs0, model))).
Proof.
  intros Hg Hi. unfold commit.
  destruct (can_use_readable gs0 Visual (Some c) r gs i e model (Some (e0, r0, model)) Hg) as [b Hb].
  rewrite Hb. cbn [effectiveExpr editorMode mkEditor visualConfig mbind outcome_bind].
  unfold initEffect, expressions_changed, model_changed.
  cbn [mkEditor committed currentExpr currentRequestRuleExpr initRef modelName]. rewrite Hi, str_eqb_refl. reflexivity.
Qed.

(** A commit that initialises, from an expression the visual editor reads; the
    sheet gets what the editor showed before. *)
Lemma init_commit m c0 r gs0 i e gs model e0 r0 c eff q : readable gs → i = false →
  (negb (str_eqb e0 e) || negb (str_eqb r0 (buildRequestRuleExpr gs)) = true) →
  tryParseVisualConfig e = Some c →
  effectiveExpr (mkEditor m c0 r gs0 i e (buildRequestRuleExpr gs) model (Some (e0, r0, model))) = Ret eff →
  ruleEffect (mkEditor m c0 r gs0 i e (buildRequestRuleExpr gs) model (Some (e0, r0, model))) = q →
  commit (mkEditor m c0 r gs0 i e (buildRequestRuleExpr gs) model (Some (e0, r0, model))) =
  Ret (mkEditor Visual (Some c) (combineBillingExpr e (buildRequestRuleExpr gs)) gs true eff q model
         (Some (e, buildRequestRuleExpr gs, model))).
Proof.
  intros Hg -> Hch Hp He Hr. unfold commit. rewrite He. cbn [mbind outcome_bind].
  destruct (can_use_readable gs m c0 r gs0 false e model (Some (e0, r0, model)) Hg) as [b Hb]. rewrite Hb. cbn [mbind outcome_bind].
  unfold initEffect, expressions_changed, model_changed. rewrite Hr.
  cbn [mkEditor committed currentExpr currentRequestRuleExpr initRef modelName editorMode negb].
  rewrite Hch, str_eqb_refl. cbn [andb]. unfold readable in Hg. rewrite Hg. cbn [mbind outcome_bind]. rewrite Hp. reflexivity.
Qed.

Lemma readable_nil : readable [].
Proof. done. Qed.

(** The state after the commit in which the name of the model was new: the next
    commit reads the price and the rules that were just sent, or there is
    nothing to do. *)
Lemma reinitialised n c gs r X R model : stable c → readable gs →
  let E := generateExprFromVisualConfig (Some c) in
  let R' := buildRequestRuleExpr gs in
  ∃ st, commits (S n) (mkEditor Visual (Some c) r gs false E R' model (Some (X, R, model))) = Ret st ∧ settled st ∧
    editorMode st = Visual ∧ visualConfig st = Some c ∧ requestRuleGroups st = gs ∧ currentExpr st = E ∧ currentRequestRuleExpr st = R'.
Proof.
  intros Hc Hg E R'. destruct (negb (str_eqb X E) || negb (str_eqb R R')) eqn:Hch.
  - assert (C2 : commit (mkEditor Visual (Some c) r gs false E R' model (Some (X, R, model))) =
      Ret (mkEditor Visual (Some c) (combineBillingExpr E R') gs true E R' model (Some (E, R', model)))) by by apply init_commit.
    assert (Hs : settled (mkEditor Visual (Some c) (combineBillingExpr E R') gs true E R' model (Some (E, R', model)))).
    { apply visual_commit; [done|]. by rewrite andb_false_r. }
    eexists. rewrite (commits_step _ _ _ C2), (settled_commits n) by done. by split_and!.
  - assert (Hs : settled (mkEditor Visual (Some c) r gs false E R' model (Some (X, R, model)))).
    { unfold settled. etrans; [apply visual_commit; [exact Hg|]|].
      { change (negb (str_eqb R _)) with (negb (str_eqb R R')). change (str_eqb X _) with (str_eqb X E). by rewrite Hch. }
      do 2 f_equal.
      apply orb_false_iff in Hch as [->%negb_false_iff%str_eqb_eq ->%negb_false_iff%str_eqb_eq]. done. }
    eexists. rewrite (settled_commits (S n)) by done. by split_and!.
Qed.

(** Opening the editor on a price it can show visually keeps the price, as
    the editor prints it.  The rules are kept when the editor can read them;
    rules it cannot read are erased, not left for the expression mode. *)
Lemma opening_visual model X c R ogs :
  tryParseVisualConfig X = Some c → stable c →
  tryParseRequestRuleExpr R = Ret ogs → (∀ gs, ogs = Some gs → readable gs) →
  let gs := default [] ogs in
  ∃ st, openEditor model X R = Ret st ∧ settled st ∧ editorMode st = Visual ∧ visualConfig st = Some c ∧
    requestRuleGroups st = gs ∧ currentExpr st = generateExprFromVisualConfig (Some c) ∧
    currentRequestRuleExpr st = buildRequestRuleExpr gs ∧
    (ogs = None → currentRequestRuleExpr st = []).
Proof.
  intros HX Hc HR Hrd gs. set (E := generateExprFromVisualConfig (Some c)). set (R' := buildRequestRuleExpr gs).
  assert (Hg : readable gs) by (destruct ogs as [gs'|]; [by apply Hrd|done]).
  assert (Hnone : ogs = None → R' = []) by (unfold R', gs; by intros ->).
  assert (H0 : ∃ b, canUseVisualRules (mkEditor Visual (Some c) (combineBillingExpr X R) gs false X R model None) = Ret b).
  { unfold canUseVisualRules. simpl. destruct (str_truthy R); simpl; [rewrite HR|]; by eexists. }
  destruct H0 as [b0 H0].
  assert (C1 : commit (mkEditor Visual (Some c) (combineBillingExpr X R) gs false X R model None) =
    Ret (mkEditor Visual (Some c) (combineBillingExpr X R) gs false E R' model (Some (X, R, model)))).
  { unfold commit. rewrite H0. unfold initEffect.
    cbn [mkEditor committed currentExpr currentRequestRuleExpr initRef expressions_changed negb andb effectiveExpr editorMode visualConfig mbind outcome_bind].
    rewrite HR, HX. reflexivity. }
  assert (Hopen : openEditor model X R = commits 4 (mkEditor Visual (Some c) (combineBillingExpr X R) gs false E R' model (Some (X, R, model)))).
  { unfold openEditor, mountEditor. rewrite HR. cbn [mbind outcome_bind]. rewrite HX. unfold settle. cbn [commits].
    change (default [] ogs) with gs. change {| editorMode := Visual; visualConfig := Some c |} with (mkEditor Visual (Some c) (combineBillingExpr X R) gs false X R model None).
    rewrite C1. reflexivity. }
  rewrite Hopen. destruct (reinitialised 3 c gs (combineBillingExpr X R) X R model Hc Hg) as (st & H1 & H2 & H3 & H4 & H5 & H6 & H7).
  exists st. split_and!; try done. intros Ho. rewrite H7. by apply Hnone.
Qed.

Definition ZERO_PRICE : jstr := js "p * 0 + c * 0".

Lemma zero_not_visual : tryParseVisualConfig ZERO_PRICE = None.
Proof. vm_compute. reflexivity. Qed.

(** Splitting what the expression mode shows gives back its two parts. *)
Record base_ok (base : jstr) : Prop := {
  base_trimmed : trimmed base;
  base_nonempty : base ≠ [];
  base_balanced : balanced 0 base = true;
  base_no_rule : is_rule_part (js "(" ++ base ++ js ")") = Ret false;
  base_unwrapped : unwrapOuterParens base = base;
  base_alone : splitBillingExprAndRequestRules base = Ret (base, [])
}.

Lemma split_back base gs : base_ok base → Forall group_ok gs →
  splitBillingExprAndRequestRules (combineBillingExpr base (buildRequestRuleExpr gs)) = Ret (base, buildRequestRuleExpr gs).
Proof.
  intros [Ht Hne Hb Hr Hu Ha] Hg. destruct gs as [|g gs].
  - unfold combineBillingExpr. rewrite trim_id by done. destruct base; [done|]. exact Ha.
  - rewrite split_combined by done. by rewrite Hu.
Qed.

Lemma zero_base : base_ok ZERO_PRICE.
Proof. split; [by apply trimmed_b|done|by vm_compute|by vm_compute|by vm_compute|by vm_compute]. Qed.

(** A commit in expression mode, initialised or with nothing to initialise from. *)
Lemma raw_commit c gs gs0 r i e model e0 r0 e' q' : readable gs0 →
  ((negb (str_eqb e0 e) || negb (str_eqb r0 (buildRequestRuleExpr gs0))) && negb i = false) →
  splitBillingExprAndRequestRules r = Ret (e', q') →
  commit (mkEditor Raw c r gs i e (buildRequestRuleExpr gs0) model (Some (e0, r0, model))) =
  Ret (mkEditor Raw c r gs i e' (buildRequestRuleExpr gs0) model (Some (e, buildRequestRuleExpr gs0, model))).
Proof.
  intros Hg Hi Hs. unfold commit.
  destruct (can_use_readable gs0 Raw c r gs i e model (Some (e0, r0, model)) Hg) as [b Hb].
  rewrite Hb. cbn [effectiveExpr editorMode mkEditor rawExpr]. rewrite Hs. cbn [mbind outcome_bind].
  unfold initEffect, expressions_changed, model_changed.
  cbn [mkEditor committed currentExpr currentRequestRuleExpr initRef modelName]. rewrite Hi, str_eqb_refl. reflexivity.
Qed.

(** A commit that initialises from an expression the visual editor cannot read. *)
Lemma init_raw_commit m c0 r gs0 i e gs model d eff : readable gs → i = false → e ≠ [] →
  tryParseVisualConfig e = None →
  let st := mkEditor m c0 r gs0 i e (buildRequestRuleExpr gs) model d in
  expressions_changed st = true →
  effectiveExpr st = Ret eff →
  ruleEffect st = buildRequestRuleExpr gs →
  commit st =
  Ret (mkEditor Raw None (combineBillingExpr e (buildRequestRuleExpr gs)) gs
         (negb (model_changed st)) eff (buildRequestRuleExpr gs) model (Some (e, buildRequestRuleExpr gs, model))).
Proof.
  intros Hg -> Hne Hp st Hch He Hr. unfold commit. rewrite He. cbn [mbind outcome_bind].
  destruct (can_use_readable gs m c0 r gs0 false e model d Hg) as [b Hb].
  change (mkEditor m c0 r gs0 false e (buildRequestRuleExpr gs) model d) with st in Hb.
  rewrite Hb. cbn [mbind outcome_bind]. unfold initEffect. rewrite Hch, Hr.
  cbn [st mkEditor committed currentExpr currentRequestRuleExpr initRef modelName editorMode negb andb].
  unfold readable in Hg. rewrite Hg. cbn [mbind outcome_bind]. rewrite Hp. destruct e; [done|].
  cbn [str_truthy]. by destruct (model_changed st).
Qed.

(** Opening the editor on a price it cannot show visually destroys the
    price: whatever the expression, the editor ends in expression mode with the
    price zero in its place, in its text and in the sheet that saves it.  The
    effect that resets the initialisation when the name of the model changes
    also runs after mounting, so the editor initialises a second time, from the
    zero price that its own first rendering has sent to the sheet. *)
Lemma opening_loses_price model X gs e q :
  X ≠ [] → X ≠ ZERO_PRICE → tryParseVisualConfig X = None → Forall group_ok gs →
  splitBillingExprAndRequestRules (combineBillingExpr X (buildRequestRuleExpr gs)) = Ret (e, q) →
  ∃ st, openEditor model X (buildRequestRuleExpr gs) = Ret st ∧ settled st ∧ editorMode st = Raw ∧
    currentExpr st = ZERO_PRICE ∧ currentRequestRuleExpr st = buildRequestRuleExpr gs ∧
    rawExpr st = combineBillingExpr ZERO_PRICE (buildRequestRuleExpr gs).
Proof.
  intros Hne HneZ HX Hgs Hsplit. set (R := buildRequestRuleExpr gs).
  assert (Hg : readable gs) by by apply rules_roundtrip.
  pose proof (split_back _ _ zero_base Hgs) as Hz.
  set (st0 := mkEditor Visual None (combineBillingExpr X R) gs false X R model None).
  set (st1 := mkEditor Raw None (combineBillingExpr X R) gs false ZERO_PRICE R model (Some (X, R, model))).
  set (st2 := mkEditor Raw None (combineBillingExpr ZERO_PRICE R) gs true e R model (Some (ZERO_PRICE, R, model))).
  set (st3 := mkEditor Raw None (combineBillingExpr ZERO_PRICE R) gs true ZERO_PRICE R model (Some (e, R, model))).
  set (st4 := mkEditor Raw None (combineBillingExpr ZERO_PRICE R) gs true ZERO_PRICE R model (Some (ZERO_PRICE, R, model))).
  assert (C1 : commit st0 = Ret st1) by by apply (init_raw_commit Visual None _ gs false X gs model None ZERO_PRICE).
  assert (C2 : commit st1 = Ret st2).
  { unfold st1. etrans; [apply (init_raw_commit Raw None _ gs false ZERO_PRICE gs model _ e)|].
    - done.
    - done.
    - done.
    - apply zero_not_visual.
    - unfold expressions_changed. cbn [mkEditor committed currentExpr currentRequestRuleExpr].
      unfold str_eqb at 1. rewrite bool_decide_eq_false_2 by done. reflexivity.
    - unfold effectiveExpr. cbn [mkEditor editorMode rawExpr]. unfold R. by rewrite Hsplit.
    - done.
    - unfold model_changed. cbn [mkEditor committed modelName]. by rewrite str_eqb_refl. }
  assert (C3 : commit st2 = Ret st3) by (eapply raw_commit; [exact Hg|by rewrite andb_false_r|exact Hz]).
  assert (C4 : commit st3 = Ret st4) by (eapply raw_commit; [exact Hg|by rewrite andb_false_r|exact Hz]).
  assert (C5 : settled st4) by (eapply raw_commit; [exact Hg|by rewrite andb_false_r|exact Hz]).
  exists st4. split_and!; [|done..].
  unfold openEditor, mountEditor. unfold readable in Hg. fold R in Hg. rewrite Hg, HX.
  change (commits 5 st0 = Ret st4).
  by rewrite (commits_step _ _ _ C1), (commits_step _ _ _ C2), (commits_step _ _ _ C3), (commits_step _ _ _ C4), settled_commits.
Qed.

(** ** Switching modes *)

Lemma settled_shape st : settled st → st = mkEditor (editorMode st) (visualConfig st) (rawExpr st) (requestRuleGroups st)
  (initRef st) (currentExpr st) (currentRequestRuleExpr st) (modelName st)
  (Some (currentExpr st, currentRequestRuleExpr st, modelName st)).
Proof.
  intros (e & b & l & _ & _ & _ & E)%commit_inv. apply (f_equal committed) in E.
  destruct st. cbn in *. by subst.
Qed.

Lemma combine_nonempty base r : base_ok base → str_or (combineBillingExpr base r) base = combineBillingExpr base r.
Proof.
  intros [Ht Hne _ _ _ _]. unfold combineBillingExpr. rewrite trim_id by done. destruct base; [done|].
  by destruct (str_truthy (trim r)).
Qed.

(** Nothing to do in a state whose expressions are those it shows. *)
Lemma visual_at_rest c r gs i model : readable gs →
  settled (mkEditor Visual (Some c) r gs i (generateExprFromVisualConfig (Some c)) (buildRequestRuleExpr gs) model
    (Some (generateExprFromVisualConfig (Some c), buildRequestRuleExpr gs, model))).
Proof. intros Hg. apply visual_commit; [done|]. by rewrite !str_eqb_refl. Qed.

Lemma raw_at_rest c r gs i e gs0 q model : readable gs0 → splitBillingExprAndRequestRules r = Ret (e, q) →
  settled (mkEditor Raw c r gs i e (buildRequestRuleExpr gs0) model (Some (e, buildRequestRuleExpr gs0, model))).
Proof. intros Hg Hs. eapply raw_commit; [done| |done]. by rewrite !str_eqb_refl. Qed.

(** C7. Switching a settled editor from visual mode to the expression and back
    changes nothing, for tiers the reader recovers from what it prints, printed
    as a balanced price that is no rule, and for rule groups of plain conditions
    ([group_ok]: no comparison of a parameter, which is not read back): the
    expression mode shows price and rules combined, the sheet keeps both
    expressions throughout, and the visual editor comes back with the same tiers
    and the same rule groups. *)
Theorem mode_roundtrip st c :
  settled st → editorMode st = Visual → visualConfig st = Some c → stable c →
  base_ok (generateExprFromVisualConfig (Some c)) → Forall group_ok (requestRuleGroups st) →
  ∃ st1 st2, editor_step (ChangeMode Raw) st = Ret st1 ∧ editor_step (ChangeMode Visual) st1 = Ret st2 ∧
    editorMode st1 = Raw ∧ rawExpr st1 = combineBillingExpr (currentExpr st) (currentRequestRuleExpr st) ∧
    currentExpr st1 = currentExpr st ∧ currentRequestRuleExpr st1 = currentRequestRuleExpr st ∧
    st2 = mkEditor Visual (Some c) (rawExpr st1) (requestRuleGroups st) (initRef st) (currentExpr st)
            (currentRequestRuleExpr st) (modelName st) (committed st).
Proof.
  intros Hs Hm Hcfg Hc Hb Hgs. destruct (settled_shown st Hs) as [He Hr]. specialize (Hr Hm).
  unfold effectiveExpr in He. rewrite Hm, Hcfg in He. injection He as He.
  set (gs := requestRuleGroups st) in *. set (E := generateExprFromVisualConfig (Some c)) in *.
  assert (Hg : readable gs) by by apply rules_roundtrip.
  pose proof (split_back E gs Hb Hgs) as Hsplit. set (R := buildRequestRuleExpr gs) in *.
  set (st1 := mkEditor Raw (Some c) (combineBillingExpr E R) gs (initRef st) E R (modelName st) (Some (E, R, modelName st))).
  set (st2 := mkEditor Visual (Some c) (combineBillingExpr E R) gs (initRef st) E R (modelName st) (Some (E, R, modelName st))).
  assert (S1 : settled st1) by (eapply raw_at_rest; [exact Hg|exact Hsplit]).
  assert (S2 : settled st2) by by apply visual_at_rest.
  assert (Hd : committed st = Some (E, R, modelName st)) by (rewrite (settled_shape st Hs); cbn [mkEditor committed]; by rewrite Hr, <- He).
  exists st1, st2. split_and!.
  - unfold editor_step, handle, handleModeChange. rewrite Hcfg. fold gs. fold E. fold R.
    rewrite combine_nonempty by exact Hb. cbn [mbind outcome_bind].
    assert (update st Raw (Some c) (combineBillingExpr E R) gs (currentRequestRuleExpr st) = st1) as ->.
    { unfold update, st1, mkEditor. by rewrite <- He, Hr, Hd. }
    apply (settled_commits 5 st1 S1).
  - unfold editor_step, handle, handleModeChange. cbn [st1 mkEditor rawExpr]. rewrite Hsplit. cbn [mbind outcome_bind].
    unfold stable in Hc. fold E in Hc. rewrite Hc. unfold readable in Hg. fold R in Hg. rewrite Hg. cbn [mbind outcome_bind default].
    apply (settled_commits 5 st2 S2).
  - reflexivity.
  - rewrite Hr, <- He. reflexivity.
  - exact He.
  - rewrite Hr. reflexivity.
  - rewrite Hd, Hr, <- He. reflexivity.
Qed.

(** ** Presets *)

Definition preset_ok (p : Preset) : Prop :=
  ∃ c, tryParseVisualConfig (p_expr p) = Some c ∧ stable c ∧ readable (p_requestRules p).

Lemma presets_ok p : p ∈ all_presets → preset_ok p.
Proof.
  assert (Forall preset_ok all_presets) as Hf; [|by rewrite Forall_forall in Hf; auto].
  unfold all_presets. cbn [PRESET_GROUPS map snd concat app].
  repeat apply Forall_cons_2; try apply Forall_nil_2;
    (eexists; split; [vm_compute; reflexivity|]; split; unfold stable, readable; vm_compute; reflexivity).
Qed.

Lemma commits_add n m st : commits (n + m) st = st' ← commits n st; commits m st'.
Proof. revert st. induction n as [|n IH]; intros st; [done|]. cbn [commits Nat.add]. destruct (commit st); [apply IH|done]. Qed.

(** Initialised and in visual mode, the expressions follow the tiers and the
    rules. *)
Lemma visual_follows n c r gs e gs0 model e0 r0 : readable gs → readable gs0 →
  let E := generateExprFromVisualConfig (Some c) in
  let R := buildRequestRuleExpr gs in
  commits (2 + n) (mkEditor Visual (Some c) r gs true e (buildRequestRuleExpr gs0) model (Some (e0, r0, model))) =
    Ret (mkEditor Visual (Some c) r gs true E R model (Some (E, R, model))).
Proof.
  intros Hg Hg0 E R. rewrite commits_add.
  rewrite (commits_step _ _ _ (visual_commit c gs gs0 r true e model e0 r0 Hg0 (andb_false_r _))).
  rewrite (commits_step _ _ _ (visual_commit c gs gs r true E model e (buildRequestRuleExpr gs0) Hg (andb_false_r _))).
  apply settled_commits. by apply visual_at_rest.
Qed.

Lemma update_of_settled st m c r gs q : settled st →
  update st m c r gs q = mkEditor m c r gs (initRef st) (currentExpr st) q (modelName st)
    (Some (currentExpr st, currentRequestRuleExpr st, modelName st)).
Proof. intros Hs. unfold update, mkEditor. f_equal. exact (f_equal committed (settled_shape st Hs)). Qed.

(** A text that makes a reader throw when the state is committed: the one of the
    expression mode, or the rules the sheet holds. *)
Definition unreadable (st : Editor) : Prop :=
  (editorMode st = Raw ∧ splitBillingExprAndRequestRules (rawExpr st) = Throw) ∨
  tryParseRequestRuleExpr (currentRequestRuleExpr st) = Throw.

Lemma commit_throws st : commit st = Throw → unreadable st.
Proof.
  unfold commit, unreadable. destruct (effectiveExpr st) as [e|] eqn:He.
  - destruct (tryParseRequestRuleExpr (currentRequestRuleExpr st)) as [o|] eqn:Hq; [|by right].
    unfold canUseVisualRules, initEffect. rewrite Hq.
    by destruct (negb (str_truthy (currentRequestRuleExpr st))), (expressions_changed st && negb (initRef st)).
  - left. unfold effectiveExpr in He. destruct (editorMode st); [done|]. split; [done|].
    by destruct (splitBillingExprAndRequestRules (rawExpr st)) as [[e q]|].
Qed.

Lemma commits_throw n st : commits n st = Throw → ∃ m st1, m < n ∧ commits m st = Ret st1 ∧ commit st1 = Throw.
Proof.
  revert st. induction n as [|n IH]; intros st; [done|]. cbn [commits]. destruct (commit st) as [st'|] eqn:E.
  - intros (m & st1 & Hm & H1 & H2)%IH. exists (S m), st1. split_and!; [lia| |done]. by rewrite (commits_step _ _ _ E).
  - intros _. exists 0, st. split_and!; [lia|done|done].
Qed.

(** Typing in the expression mode of an editor that is initialised. *)
Lemma typed_commit c r gs e q model e0 q0 e' q' o :
  splitBillingExprAndRequestRules r = Ret (e', q') → tryParseRequestRuleExpr q = Ret o →
  let st e d := {| editorMode := Raw; visualConfig := c; rawExpr := r; requestRuleGroups := gs; initRef := true;
                   currentExpr := e; currentRequestRuleExpr := q; modelName := model; committed := Some d |} in
  commit (st e (e0, q0, model)) = Ret (st e' (e, q, model)).
Proof.
  intros Hs Hq st. unfold commit, effectiveExpr, canUseVisualRules, initEffect. cbn [st editorMode rawExpr currentRequestRuleExpr initRef].
  rewrite Hs, Hq, andb_false_r. unfold model_changed. cbn [st committed modelName]. rewrite str_eqb_refl. destruct (negb (str_truthy q)); reflexivity.
Qed.

(** The commit in which the name of the model is new. *)
Lemma renamed_commit c r gs i X R model d ogs l : model_changed (mkEditor Visual (Some c) r gs i X R model (Some d)) = true →
  tryParseRequestRuleExpr R = Ret ogs → initEffect (mkEditor Visual (Some c) r gs i X R model (Some d)) = Ret l →
  commit (mkEditor Visual (Some c) r gs i X R model (Some d)) =
  Ret (mkEditor (l_mode l) (l_config l) (l_raw l) (l_groups l) false (generateExprFromVisualConfig (Some c)) (buildRequestRuleExpr gs)
         model (Some (X, R, model))).
Proof.
  intros Hm HR Hl. unfold commit. rewrite Hl, Hm. unfold effectiveExpr, canUseVisualRules.
  cbn [mkEditor editorMode visualConfig currentRequestRuleExpr mbind outcome_bind]. rewrite HR.
  destruct (negb (str_truthy R)); reflexivity.
Qed.

(** A settled editor that stays mounted while the sheet turns to another model
    sends its own price and rules to the sheet, in place of that model's. *)
Lemma other_model_overwritten st c model X cX R ogs :
  settled st → editorMode st = Visual → visualConfig st = Some c → stable c → readable (requestRuleGroups st) →
  model ≠ modelName st → tryParseVisualConfig X = Some cX →
  tryParseRequestRuleExpr R = Ret ogs → (∀ gs, ogs = Some gs → readable gs) →
  ∃ st', settle (with_props model X R st) = Ret st' ∧ settled st' ∧ visualConfig st' = Some c ∧
    requestRuleGroups st' = requestRuleGroups st ∧
    currentExpr st' = currentExpr st ∧ currentRequestRuleExpr st' = currentRequestRuleExpr st.
Proof.
  intros Hs Hm Hcfg Hc Hg Hne HX HR Hrd. destruct (settled_shown st Hs) as [He Hq]. specialize (Hq Hm).
  unfold effectiveExpr in He. rewrite Hm, Hcfg in He. injection He as He. set (gs := requestRuleGroups st) in *.
  assert (Hst : with_props model X R st = mkEditor Visual (Some c) (rawExpr st) gs (initRef st) X R model
    (Some (currentExpr st, currentRequestRuleExpr st, modelName st))).
  { unfold with_props, mkEditor. rewrite Hm, Hcfg. f_equal. exact (f_equal committed (settled_shape st Hs)). }
  rewrite Hst, Hq, <- He. set (E := generateExprFromVisualConfig (Some c)). set (Q := buildRequestRuleExpr gs).
  assert (Hmc : model_changed (mkEditor Visual (Some c) (rawExpr st) gs (initRef st) X R model (Some (E, Q, modelName st))) = true).
  { unfold model_changed. cbn [mkEditor committed modelName]. unfold str_eqb. by rewrite bool_decide_eq_false_2 by congruence. }
  unfold settle. destruct (expressions_changed (mkEditor Visual (Some c) (rawExpr st) gs (initRef st) X R model (Some (E, Q, modelName st)))
    && negb (initRef st)) eqn:Hi.
  - set (gX := default [] ogs). assert (HgX : readable gX) by (destruct ogs as [g|]; [by apply Hrd|done]).
    pose proof Hi as [Hch Hir%negb_true_iff]%andb_prop.
    assert (C1 : commit (mkEditor Visual (Some c) (rawExpr st) gs (initRef st) X R model (Some (E, Q, modelName st))) =
      Ret (mkEditor Visual (Some cX) (combineBillingExpr X R) gX false E Q model (Some (X, R, model)))).
    { etrans; [eapply renamed_commit; [exact Hmc|exact HR|]|].
      - unfold initEffect. cbn [mkEditor initRef]. rewrite Hi. cbn [mkEditor currentRequestRuleExpr currentExpr]. rewrite HR, HX. reflexivity.
      - reflexivity. }
    assert (C2 : commit (mkEditor Visual (Some cX) (combineBillingExpr X R) gX false E Q model (Some (X, R, model))) =
      Ret (mkEditor Visual (Some c) (combineBillingExpr E Q) gs true (generateExprFromVisualConfig (Some cX)) (buildRequestRuleExpr gX) model
             (Some (E, Q, model)))).
    { apply init_commit; [exact Hg|done| |exact Hc|reflexivity|reflexivity].
      revert Hch. unfold expressions_changed. cbn [mkEditor committed currentExpr currentRequestRuleExpr].
      rewrite (str_eqb_sym E), (str_eqb_sym Q). done. }
    eexists. rewrite (commits_step _ _ _ C1), (commits_step _ _ _ C2).
    split; [by apply (visual_follows 1)|]. split; [by apply visual_at_rest|]. by split_and!.
  - assert (C1 : commit (mkEditor Visual (Some c) (rawExpr st) gs (initRef st) X R model (Some (E, Q, modelName st))) =
      Ret (mkEditor Visual (Some c) (rawExpr st) gs false E Q model (Some (X, R, model)))).
    { etrans; [eapply renamed_commit; [exact Hmc|exact HR|]|].
      - unfold initEffect. cbn [mkEditor initRef]. rewrite Hi. reflexivity.
      - reflexivity. }
    rewrite (commits_step _ _ _ C1).
    destruct (reinitialised 3 c gs (rawExpr st) X R model Hc Hg) as (st' & H1 & H2 & _ & H4 & H5 & H6 & H7).
    exists st'. by split_and!.
Qed.

(** C4. The effects of the editor never run in circles.  From any state (after
    mounting, after any handler) five commits lead to a state that no effect
    changes, in which the price held by the sheet is the one the editor shows,
    and in visual mode the rules are those of the shown groups; the only
    exception is a commit that has to read a text on which a reader throws.  In
    expression mode the rules follow the text when it is typed: once the editor
    is initialised, a text that can be split, with rules that can be read, leaves
    the sheet with exactly the two parts of that text. *)
Theorem editor_settles :
  (∀ st, (∃ st', settle st = Ret st' ∧ settled st' ∧ effectiveExpr st' = Ret (currentExpr st') ∧
            (editorMode st' = Visual → currentRequestRuleExpr st' = buildRequestRuleExpr (requestRuleGroups st'))) ∨
         (∃ n st1, n < 5 ∧ commits n st = Ret st1 ∧ unreadable st1)) ∧
  (∀ st text e q o, settled st → initRef st = true → editorMode st = Raw →
     splitBillingExprAndRequestRules text = Ret (e, q) → tryParseRequestRuleExpr q = Ret o →
     ∃ st', editor_step (TypeRaw text) st = Ret st' ∧ settled st' ∧ editorMode st' = Raw ∧ rawExpr st' = text ∧
       currentExpr st' = e ∧ currentRequestRuleExpr st' = q).
Proof.
  split.
  - intros st. destruct (settle st) as [st'|] eqn:E.
    + left. exists st'. split; [done|]. apply settle_settled in E. split; [done|]. by apply settled_shown.
    + right. apply commits_throw in E as (n & st1 & Hn & H1 & H2%commit_throws). by exists n, st1.
  - intros st text e q o Hs Hi Hm Hsp Hq. unfold editor_step, handle, handleRawChange. rewrite Hsp. cbn [mbind outcome_bind].
    rewrite update_of_settled, Hi, Hm by done. unfold settle, mkEditor.
    rewrite (commits_step _ _ _ (typed_commit _ _ _ _ _ _ _ _ _ _ _ Hsp Hq)), (commits_step _ _ _ (typed_commit _ _ _ _ _ _ _ _ _ _ _ Hsp Hq)).
    eexists. split; [apply settled_commits; exact (typed_commit _ _ _ _ _ _ _ _ _ _ _ Hsp Hq)|]. split; [exact (typed_commit _ _ _ _ _ _ _ _ _ _ _ Hsp Hq)|done].
Qed.

(** Once the editor is initialised, every preset is applied completely:
    its tiers, printed by the visual editor, become the price and its rules
    the rules. *)
Theorem preset_applied p st :
  p ∈ all_presets → settled st → initRef st = true →
  ∃ c st', tryParseVisualConfig (p_expr p) = Some c ∧ editor_step (ChoosePreset p) st = Ret st' ∧ settled st' ∧
    editorMode st' = Visual ∧ visualConfig st' = Some c ∧ requestRuleGroups st' = p_requestRules p ∧
    currentExpr st' = generateExprFromVisualConfig (Some c) ∧
    currentRequestRuleExpr st' = buildRequestRuleExpr (p_requestRules p).
Proof.
  intros (c & Hp & Hc & Hg)%presets_ok Hs Hi. exists c. eexists. split; [exact Hp|]. split; [|split].
  - unfold editor_step, handle, applyPreset. rewrite Hp. cbn [mbind outcome_bind].
    rewrite update_of_settled, Hi by done. by apply (visual_follows 3).
  - by apply visual_at_rest.
  - by split_and!.
Qed.

(** Before, it is not: a preset with other rules, chosen first after
    opening, only brings its rules.  The change of the rules makes the editor
    initialise again, from the price it had, which then replaces that of the
    preset. *)
Theorem first_preset_loses_price p c c0 st :
  tryParseVisualConfig (p_expr p) = Some c → readable (p_requestRules p) →
  settled st → initRef st = false → editorMode st = Visual → visualConfig st = Some c0 → stable c0 →
  buildRequestRuleExpr (p_requestRules p) ≠ currentRequestRuleExpr st →
  ∃ st', editor_step (ChoosePreset p) st = Ret st' ∧ settled st' ∧ visualConfig st' = Some c0 ∧
    currentExpr st' = currentExpr st ∧ currentRequestRuleExpr st' = buildRequestRuleExpr (p_requestRules p).
Proof.
  intros Hp Hg Hs Hi Hm Hcfg Hc0 Hne. destruct (settled_shown st Hs) as [He _].
  unfold effectiveExpr in He. rewrite Hm, Hcfg in He. injection He as He.
  set (R := buildRequestRuleExpr (p_requestRules p)) in *.
  eexists. split; [|split; [|split_and!]].
  - unfold editor_step, handle, applyPreset. rewrite Hp. cbn [mbind outcome_bind].
    rewrite update_of_settled, Hi by done. unfold settle.
    erewrite commits_step; [|apply init_commit; [exact Hg|done| |rewrite <- He; exact Hc0|reflexivity|reflexivity]].
    + by apply (visual_follows 2).
    + unfold str_eqb. rewrite (bool_decide_eq_false_2 (currentRequestRuleExpr st = _)) by (intros E; by apply Hne).
      by rewrite orb_true_r.
  - by apply visual_at_rest.
  - reflexivity.
  - exact He.
  - reflexivity.
Qed.

(** Typing in expression mode, first after opening, leads back to the visual
    editor as soon as the price changes and can be read. *)
Lemma first_raw_edit_leaves_mode value c e gs st :
  settled st → initRef st = false → editorMode st = Raw → readable gs →
  currentRequestRuleExpr st = buildRequestRuleExpr gs →
  splitBillingExprAndRequestRules value = Ret (e, buildRequestRuleExpr gs) →
  e ≠ currentExpr st → tryParseVisualConfig e = Some c →
  ∃ st', editor_step (TypeRaw value) st = Ret st' ∧ editorMode st' = Visual.
Proof.
  intros Hs Hi Hm Hg Hr Hsplit Hne Hp. eexists. split; [|].
  - unfold editor_step, handle, handleRawChange. rewrite Hsplit. cbn [mbind outcome_bind].
    rewrite update_of_settled, Hi, Hr, Hm by done. unfold settle.
    erewrite commits_step; [|eapply raw_commit; [exact Hg|by rewrite !str_eqb_refl|exact Hsplit]].
    erewrite commits_step; [|apply init_commit; [exact Hg|done| |exact Hp| |reflexivity]].
    + by apply (visual_follows 1).
    + unfold str_eqb. by rewrite (bool_decide_eq_false_2 (currentExpr st = e)) by congruence.
    + unfold effectiveExpr. cbn [mkEditor editorMode rawExpr]. by rewrite Hsplit.
  - reflexivity.
Qed.

(** ** Concrete editors *)

Definition flat_price : jstr := quoted "tier('base', p * 2 + c * 4)".
Definition flat_config : VisualConfig := default [] (tryParseVisualConfig flat_price).

Lemma flat_parsed : tryParseVisualConfig flat_price = Some flat_config.
Proof. vm_compute. reflexivity. Qed.

Lemma flat_stable : stable flat_config.
Proof. unfold stable. vm_compute. reflexivity. Qed.

Lemma flat_base : base_ok (generateExprFromVisualConfig (Some flat_config)).
Proof. split; [by apply trimmed_b|by vm_compute|by vm_compute|by vm_compute|by vm_compute|by vm_compute]. Qed.

(** A settled editor of that price with some rules. *)
Definition flat_editor (i : bool) (gs : list RequestRuleGroup) : Editor :=
  let E := generateExprFromVisualConfig (Some flat_config) in
  let R := buildRequestRuleExpr gs in
  mkEditor Visual (Some flat_config) [] gs i E R (js "m") (Some (E, R, js "m")).

Lemma flat_settled i gs : readable gs → settled (flat_editor i gs).
Proof. apply visual_at_rest. Qed.

(** The same editor in expression mode. *)
Definition raw_editor : Editor :=
  mkEditor Raw None flat_price [] true flat_price [] (js "m") (Some (flat_price, [], js "m")).

Lemma editor_settles_witness :
  ∃ st', editor_step (TypeRaw (quoted "tier('base', p * 3 + c * 6)")) raw_editor = Ret st' ∧
    currentExpr st' = quoted "tier('base', p * 3 + c * 6)" ∧ currentRequestRuleExpr st' = [].
Proof.
  destruct (proj2 editor_settles raw_editor (quoted "tier('base', p * 3 + c * 6)") (quoted "tier('base', p * 3 + c * 6)") [] (Some []))
    as (st' & H1 & _ & _ & _ & H2 & H3).
  - unfold settled. vm_compute. reflexivity.
  - reflexivity.
  - reflexivity.
  - vm_compute. reflexivity.
  - vm_compute. reflexivity.
  - exists st'. split; [exact H1|]. split; [exact H2|exact H3].
Defined.

(** A comparison with a parameter, which the rule editor itself prints and
    cannot read. *)
Definition comparison_rule : jstr := quoted "(param('max_tokens') != nil && param('max_tokens') > 4096 ? 2 : 1)".

Lemma opening_visual_witness : tryParseRequestRuleExpr comparison_rule = Ret None ∧
  ∃ st, openEditor (js "m") flat_price comparison_rule = Ret st ∧ currentRequestRuleExpr st = [].
Proof.
  assert (tryParseRequestRuleExpr comparison_rule = Ret None) as HR by (vm_compute; reflexivity).
  split; [exact HR|].
  destruct (opening_visual (js "m") flat_price flat_config comparison_rule None flat_parsed flat_stable HR)
    as (st & Ho & _ & _ & _ & _ & _ & _ & Hr); [intros gs [=]|].
  exists st. split; [exact Ho|]. by apply Hr.
Defined.

Definition minimum_price : jstr := quoted "max(tier('base', p * 2 + c * 4), 1)".

Lemma opening_loses_price_witness :
  ∃ st, openEditor (js "m") minimum_price [] = Ret st ∧ currentExpr st = ZERO_PRICE.
Proof.
  destruct (opening_loses_price (js "m") minimum_price [] minimum_price []) as (st & Ho & _ & _ & Hc & _).
  - by vm_compute.
  - by vm_compute.
  - by vm_compute.
  - constructor.
  - by vm_compute.
  - exists st. split; [exact Ho|exact Hc].
Defined.

Lemma mode_roundtrip_witness : settled (flat_editor true sample_groups) ∧
  ∃ st1 st2, editor_step (ChangeMode Raw) (flat_editor true sample_groups) = Ret st1 ∧
    editor_step (ChangeMode Visual) st1 = Ret st2 ∧ editorMode st1 = Raw.
Proof.
  assert (settled (flat_editor true sample_groups)) as Hs by (apply flat_settled, rules_roundtrip, sample_groups_ok).
  split; [exact Hs|].
  destruct (mode_roundtrip (flat_editor true sample_groups) flat_config) as (st1 & st2 & H1 & H2 & H3 & _).
  - exact Hs.
  - reflexivity.
  - reflexivity.
  - exact flat_stable.
  - exact flat_base.
  - exact sample_groups_ok.
  - exists st1, st2. split; [exact H1|]. split; [exact H2|exact H3].
Defined.

Definition night_discount : Preset := nth 13 all_presets (preset "" "" "" []).

Lemma preset_applied_witness : settled (flat_editor true []) ∧
  ∃ c st', tryParseVisualConfig (p_expr night_discount) = Some c ∧
    editor_step (ChoosePreset night_discount) (flat_editor true []) = Ret st'.
Proof.
  split; [by apply flat_settled|].
  destruct (preset_applied night_discount (flat_editor true [])) as (c & st' & H1 & H2 & _).
  - apply list_elem_of_In, nth_In. vm_compute. lia.
  - by apply flat_settled.
  - reflexivity.
  - exists c, st'. split; [exact H1|exact H2].
Defined.

Lemma first_preset_loses_price_witness :
  ∃ st', editor_step (ChoosePreset night_discount) (flat_editor false []) = Ret st' ∧
    currentExpr st' = currentExpr (flat_editor false []).
Proof.
  destruct (presets_ok night_discount) as (c & Hp & _ & Hg); [apply list_elem_of_In, nth_In; vm_compute; lia|].
  destruct (first_preset_loses_price night_discount c flat_config (flat_editor false [])) as (st' & H1 & _ & _ & H2 & _).
  - exact Hp.
  - exact Hg.
  - by apply flat_settled.
  - reflexivity.
  - reflexivity.
  - reflexivity.
  - exact flat_stable.
  - by vm_compute.
  - exists st'. split; [exact H1|exact H2].
Defined.

(** ** Number fields *)

(** Leaving a number field shows the number it passes on. *)
Lemma draft_blur_shows d : let '(d', x) := draft_blur d in
  isFinite x = true ∧ draft_effect (JNum x) d' = d' ∧ parseNumberDraft (draft d) = x.
Proof.
  unfold draft_blur, draft_effect, formatNumberDraft. cbn [focused draft].
  assert (isFinite (parseNumberDraft (draft d)) = true) as Hf.
  { unfold parseNumberDraft. destruct (trim (draft d)); [done|]. destruct (isFinite (string_to_number (draft d))) eqn:E; [done|done]. }
  by rewrite Hf.
Qed.

(** ** Tiers *)

Lemma length_bound_last tiers : length (bound_last tiers) = length tiers.
Proof. unfold bound_last. destruct (last tiers); [|done]. destruct (tier_conditions _); [|done]. apply length_insert. Qed.

(** The handlers never leave the editor without a tier. *)
Lemma handlers_keep_tiers config : config ≠ [] →
  (∀ i next, handleTierChange i next config ≠ []) ∧ handleAddTier config ≠ [] ∧
  (∀ i, handleRemoveTier i config ≠ []) ∧ (∀ i, handleAddCondition i config ≠ []).
Proof.
  intros Hne. assert (Hl : ∀ l : VisualConfig, length l = length config → l ≠ []).
  { intros l El ->. by destruct config. }
  split_and!.
  - intros i next. apply Hl, length_insert.
  - unfold handleAddTier. intros [_ [=]]%app_eq_nil.
  - intros i. unfold handleRemoveTier. case_match; [exact Hne|discriminate].
  - intros i. apply Hl. unfold handleAddCondition. repeat case_match; (reflexivity || apply length_insert).
Qed.
