(* ===== verification/PricingSheet.v ===== *)
(** * The price sheet of one model (features/system-settings/models/model-pricing-sheet.tsx)

    The panel that edits the price of a model: per token, as an input price and
    six lanes whose prices are kept in the form as ratios, per request, or as a
    billing expression.  Its state is the record [Panel]; [load] is the effect
    that fills it when the model changes, an [Event] is what the user can do,
    and [dispatch] runs the handler behind it, where the control is enabled.
    The translation [t] is a parameter. *)

From S2P Require Import Prelude JsNumber JsString JsRegex JsValue BillingExpr.

Open Scope nat_scope.

(** ** Data *)

Inductive PricingMode := PerToken | PerRequest | TieredExpr.
Inductive LaneKey := Completion | Cache | CreateCache | Image | AudioInput | AudioOutput.
Inductive FormField :=
  | FName | FPrice | FRatio | FCacheRatio | FCreateCacheRatio | FCompletionRatio
  | FImageRatio | FAudioRatio | FAudioCompletionRatio.

#[export] Instance PricingMode_eq_dec : EqDecision PricingMode.
Proof. solve_decision. Defined.
#[export] Instance LaneKey_eq_dec : EqDecision LaneKey.
Proof. solve_decision. Defined.
#[export] Instance FormField_eq_dec : EqDecision FormField.
Proof. solve_decision. Defined.

Definition mode_text (mode : PricingMode) : jstr :=
  match mode with PerToken => js "per-token" | PerRequest => js "per-request" | TieredExpr => js "tiered_expr" end.

(** An optional field is [None] where it is undefined. *)
Record ModelRatioData := {
  d_name : jstr;
  d_price : option jstr;
  d_ratio : option jstr;
  d_cacheRatio : option jstr;
  d_createCacheRatio : option jstr;
  d_completionRatio : option jstr;
  d_imageRatio : option jstr;
  d_audioRatio : option jstr;
  d_audioCompletionRatio : option jstr;
  d_billingMode : option PricingMode;
  d_billingExpr : option jstr;
  d_requestRuleExpr : option jstr
}.

Record ModelPricingFormValues := {
  name : jstr;
  price : jstr;
  ratio : jstr;
  cacheRatio : jstr;
  createCacheRatio : jstr;
  completionRatio : jstr;
  imageRatio : jstr;
  audioRatio : jstr;
  audioCompletionRatio : jstr
}.

Definition empty_form : ModelPricingFormValues :=
  {| name := []; price := []; ratio := []; cacheRatio := []; createCacheRatio := []; completionRatio := [];
     imageRatio := []; audioRatio := []; audioCompletionRatio := [] |}.

Definition form_get (f : FormField) (v : ModelPricingFormValues) : jstr :=
  match f with
  | FName => name v | FPrice => price v | FRatio => ratio v
  | FCacheRatio => cacheRatio v | FCreateCacheRatio => createCacheRatio v | FCompletionRatio => completionRatio v
  | FImageRatio => imageRatio v | FAudioRatio => audioRatio v | FAudioCompletionRatio => audioCompletionRatio v
  end.

(** [setFormValue] *)
Definition form_set (f : FormField) (s : jstr) (v : ModelPricingFormValues) : ModelPricingFormValues :=
  {| name := match f with FName => s | _ => name v end;
     price := match f with FPrice => s | _ => price v end;
     ratio := match f with FRatio => s | _ => ratio v end;
     cacheRatio := match f with FCacheRatio => s | _ => cacheRatio v end;
     createCacheRatio := match f with FCreateCacheRatio => s | _ => createCacheRatio v end;
     completionRatio := match f with FCompletionRatio => s | _ => completionRatio v end;
     imageRatio := match f with FImageRatio => s | _ => imageRatio v end;
     audioRatio := match f with FAudioRatio => s | _ => audioRatio v end;
     audioCompletionRatio := match f with FAudioCompletionRatio => s | _ => audioCompletionRatio v end |}.

(** [Record<LaneKey, A>] *)
Record Lanes (A : Type) := mkLanes {
  completion : A; cache : A; createCache : A; image : A; audioInput : A; audioOutput : A
}.
Arguments mkLanes {A}.
Arguments completion {A}.
Arguments cache {A}.
Arguments createCache {A}.
Arguments image {A}.
Arguments audioInput {A}.
Arguments audioOutput {A}.

Definition lane {A} (r : Lanes A) (key : LaneKey) : A :=
  match key with
  | Completion => completion r | Cache => cache r | CreateCache => createCache r
  | Image => image r | AudioInput => audioInput r | AudioOutput => audioOutput r
  end.

(** [{ ...r, [key]: a }] *)
Definition set_lane {A} (key : LaneKey) (a : A) (r : Lanes A) : Lanes A :=
  mkLanes (match key with Completion => a | _ => completion r end)
          (match key with Cache => a | _ => cache r end)
          (match key with CreateCache => a | _ => createCache r end)
          (match key with Image => a | _ => image r end)
          (match key with AudioInput => a | _ => audioInput r end)
          (match key with AudioOutput => a | _ => audioOutput r end).

Definition EMPTY_LANE_PRICES : Lanes jstr := mkLanes [] [] [] [] [] [].
Definition EMPTY_LANE_ENABLED : Lanes bool := mkLanes false false false false false false.

(** The empty text, digits with an optional point and more digits, or a point
    and digits. *)
Definition numericDraftRegex : regex :=
  Seqs [Bol;
        Opt (Alt (Seqs [Plus Digit; Opt (Seqs [Lit "."; Star true Digit])])
                 (Seqs [Lit "."; Star true Digit]));
        Eol].

Definition is_draft (s : jstr) : bool := re_test numericDraftRegex s.

Definition ratioFieldByLane (key : LaneKey) : FormField :=
  match key with
  | Completion => FCompletionRatio
  | Cache => FCacheRatio
  | CreateCache => FCreateCacheRatio
  | Image => FImageRatio
  | AudioInput => FAudioRatio
  | AudioOutput => FAudioCompletionRatio
  end.

Record LaneConfig := { l_key : LaneKey; l_title : jstr; l_description : jstr; l_placeholder : jstr }.

Definition laneConfigs : list LaneConfig := [
  {| l_key := Completion; l_title := js "Completion price";
     l_description := js "Output token price for generated tokens."; l_placeholder := js "15" |};
  {| l_key := Cache; l_title := js "Cache read price";
     l_description := js "Token price for cache reads."; l_placeholder := js "0.3" |};
  {| l_key := CreateCache; l_title := js "Cache write price";
     l_description := js "Token price for creating cache entries."; l_placeholder := js "3.75" |};
  {| l_key := Image; l_title := js "Image input price";
     l_description := js "Token price for image input."; l_placeholder := js "2.5" |};
  {| l_key := AudioInput; l_title := js "Audio input price";
     l_description := js "Token price for audio input."; l_placeholder := js "3.81" |};
  {| l_key := AudioOutput; l_title := js "Audio output price";
     l_description := js "Token price for audio output."; l_placeholder := js "15.11" |}].

(** ** Numbers *)

Definition hasValue (value : jsval) : bool :=
  negb (strict_eq value (JStr [])) && negb (is_nullish value) && negb (strict_eq value (JBool false)).

Definition toNumberOrNull (value : jsval) : option num :=
  if negb (hasValue value) && negb (strict_eq value (JNum (of_Z 0))) then None
  else let n := to_number value in if isFinite n then Some n else None.

Definition formatNumber (value : jsval) : jstr :=
  match toNumberOrNull value with
  | None => []
  | Some n => num_to_string (parseFloat (toFixed n 5))
  end.

Definition ratioToBasePrice (r : jsval) : jstr :=
  match toNumberOrNull r with
  | None => []
  | Some n => formatNumber (JNum (n_mul n (of_Z 2)))
  end.

(** The source never passes a fallback. *)
Definition deriveLanePrice (r denominator : jsval) : jstr :=
  match toNumberOrNull r, toNumberOrNull denominator with
  | Some n, Some d => formatNumber (JNum (n_mul n d))
  | _, _ => []
  end.

Definition optional (s : option jstr) : jsval := match s with Some s => JStr s | None => JUndef end.

(** The ratio that a lane has in the stored data. *)
Definition data_ratio (key : LaneKey) (d : ModelRatioData) : option jstr :=
  match key with
  | Completion => d_completionRatio d
  | Cache => d_cacheRatio d
  | CreateCache => d_createCacheRatio d
  | Image => d_imageRatio d
  | AudioInput => d_audioRatio d
  | AudioOutput => d_audioCompletionRatio d
  end.

Definition createInitialLaneState (data : option ModelRatioData) : jstr * Lanes jstr * Lanes bool :=
  match data with
  | None => ([], EMPTY_LANE_PRICES, EMPTY_LANE_ENABLED)
  | Some d =>
      let promptPrice := ratioToBasePrice (optional (d_ratio d)) in
      let from r := deriveLanePrice (optional r) (JStr promptPrice) in
      let audioInputPrice := from (d_audioRatio d) in
      (promptPrice,
       mkLanes (from (d_completionRatio d)) (from (d_cacheRatio d)) (from (d_createCacheRatio d))
               (from (d_imageRatio d)) audioInputPrice
               (deriveLanePrice (optional (d_audioCompletionRatio d)) (JStr audioInputPrice)),
       mkLanes (hasValue (optional (d_completionRatio d))) (hasValue (optional (d_cacheRatio d)))
               (hasValue (optional (d_createCacheRatio d))) (hasValue (optional (d_imageRatio d)))
               (hasValue (optional (d_audioRatio d))) (hasValue (optional (d_audioCompletionRatio d))))
  end.

Definition getModeLabel (mode : PricingMode) : jstr :=
  match mode with PerRequest => js "Per-request" | TieredExpr => js "Expression" | PerToken => js "Per-token" end.

Definition getModeBadgeVariant (mode : PricingMode) : jstr :=
  match mode with PerRequest => js "secondary" | TieredExpr => js "default" | PerToken => js "outline" end.

(** ** State *)

Record Panel := {
  pricingMode : PricingMode;
  promptPrice : jstr;
  lanePrices : Lanes jstr;
  laneEnabled : Lanes bool;
  billingExpr : jstr;
  requestRuleExpr : jstr;
  previewOpen : bool;
  form : ModelPricingFormValues;
  form_defaults : ModelPricingFormValues;   (* what [form.reset()] goes back to *)
  editData : option ModelRatioData          (* the property *)
}.

Definition mountPanel : Panel :=
  {| pricingMode := PerToken; promptPrice := []; lanePrices := EMPTY_LANE_PRICES; laneEnabled := EMPTY_LANE_ENABLED;
     billingExpr := []; requestRuleExpr := []; previewOpen := true;
     form := empty_form; form_defaults := empty_form; editData := None |}.

Definition form_of (d : ModelRatioData) : ModelPricingFormValues :=
  {| name := d_name d; price := default [] (d_price d); ratio := default [] (d_ratio d);
     cacheRatio := default [] (d_cacheRatio d); createCacheRatio := default [] (d_createCacheRatio d);
     completionRatio := default [] (d_completionRatio d); imageRatio := default [] (d_imageRatio d);
     audioRatio := default [] (d_audioRatio d); audioCompletionRatio := default [] (d_audioCompletionRatio d) |}.

Definition mode_of (d : ModelRatioData) : PricingMode :=
  if decide (d_billingMode d = Some TieredExpr) then TieredExpr
  else if str_truthy (default [] (d_price d)) then PerRequest else PerToken.

(** The effect on [editData]; whatever the panel held is replaced. *)
Definition load (data : option ModelRatioData) : Panel :=
  let '(prompt, prices, enabled) := createInitialLaneState data in
  let values := match data with Some d => form_of d | None => empty_form end in
  {| pricingMode := match data with Some d => mode_of d | None => PerToken end;
     promptPrice := prompt; lanePrices := prices; laneEnabled := enabled;
     billingExpr := match data with Some d => default [] (d_billingExpr d) | None => [] end;
     requestRuleExpr := match data with Some d => default [] (d_requestRuleExpr d) | None => [] end;
     previewOpen := true; form := values; form_defaults := values; editData := data |}.

Definition with_form (f : ModelPricingFormValues → ModelPricingFormValues) (st : Panel) : Panel :=
  {| pricingMode := pricingMode st; promptPrice := promptPrice st; lanePrices := lanePrices st;
     laneEnabled := laneEnabled st; billingExpr := billingExpr st; requestRuleExpr := requestRuleExpr st;
     previewOpen := previewOpen st; form := f (form st); form_defaults := form_defaults st; editData := editData st |}.

Definition with_lanes (prices : Lanes jstr) (enabled : Lanes bool) (st : Panel) : Panel :=
  {| pricingMode := pricingMode st; promptPrice := promptPrice st; lanePrices := prices;
     laneEnabled := enabled; billingExpr := billingExpr st; requestRuleExpr := requestRuleExpr st;
     previewOpen := previewOpen st; form := form st; form_defaults := form_defaults st; editData := editData st |}.

Definition setPromptPrice (v : jstr) (st : Panel) : Panel :=
  {| pricingMode := pricingMode st; promptPrice := v; lanePrices := lanePrices st;
     laneEnabled := laneEnabled st; billingExpr := billingExpr st; requestRuleExpr := requestRuleExpr st;
     previewOpen := previewOpen st; form := form st; form_defaults := form_defaults st; editData := editData st |}.

Definition setExpressions (mode : PricingMode) (expr rules : jstr) (st : Panel) : Panel :=
  {| pricingMode := mode; promptPrice := promptPrice st; lanePrices := lanePrices st;
     laneEnabled := laneEnabled st; billingExpr := expr; requestRuleExpr := rules;
     previewOpen := previewOpen st; form := form st; form_defaults := form_defaults st; editData := editData st |}.

Definition setPreviewOpen (open : bool) (st : Panel) : Panel :=
  {| pricingMode := pricingMode st; promptPrice := promptPrice st; lanePrices := lanePrices st;
     laneEnabled := laneEnabled st; billingExpr := billingExpr st; requestRuleExpr := requestRuleExpr st;
     previewOpen := open; form := form st; form_defaults := form_defaults st; editData := editData st |}.

(** ** Handlers *)

Definition deriveLaneRatio (key : LaneKey) (price nextPromptPrice : jstr) (nextLanePrices : Lanes jstr) : jstr :=
  match toNumberOrNull (JStr price) with
  | None => []
  | Some priceNumber =>
      let base := match key with
                  | AudioOutput => toNumberOrNull (JStr (audioInput nextLanePrices))
                  | _ => toNumberOrNull (JStr nextPromptPrice)
                  end in
      match base with
      | None => []
      | Some b => if n_eq b (of_Z 0) then [] else formatNumber (JNum (n_div priceNumber b))
      end
  end.

(** The input ratio that goes with an input price. *)
Definition base_ratio (price : jstr) : jstr :=
  match toNumberOrNull (JStr price) with
  | Some inputPrice => formatNumber (JNum (n_div inputPrice (of_Z 2)))
  | None => []
  end.

(** What a lane's field of the form should hold. *)
Definition lane_ratio (key : LaneKey) (prompt : jstr) (prices : Lanes jstr) (enabled : Lanes bool) : jstr :=
  if lane enabled key then deriveLaneRatio key (lane prices key) prompt prices else [].

Definition syncLaneRatios (prompt : jstr) (prices : Lanes jstr) (enabled : Lanes bool)
    (v : ModelPricingFormValues) : ModelPricingFormValues :=
  fold_left (λ v c, form_set (ratioFieldByLane (l_key c)) (lane_ratio (l_key c) prompt prices enabled) v)
    laneConfigs (form_set FRatio (base_ratio prompt) v).

Definition handlePromptPriceChange (value : jstr) (st : Panel) : Panel :=
  if negb (is_draft value) then st
  else with_form (syncLaneRatios value (lanePrices st) (laneEnabled st)) (setPromptPrice value st).

Definition handleLanePriceChange (key : LaneKey) (value : jstr) (st : Panel) : Panel :=
  if negb (is_draft value) then st
  else
    let nextLanePrices := set_lane key value (lanePrices st) in
    let own v :=
      if lane (laneEnabled st) key
      then form_set (ratioFieldByLane key) (deriveLaneRatio key value (promptPrice st) nextLanePrices) v
      else v in
    let dependent v :=
      if bool_decide (key = AudioInput) && audioOutput (laneEnabled st)
      then form_set FAudioCompletionRatio
             (deriveLaneRatio AudioOutput (audioOutput nextLanePrices) (promptPrice st) nextLanePrices) v
      else v in
    with_form (λ v, dependent (own v)) (with_lanes nextLanePrices (laneEnabled st) st).

Definition handleLaneToggle (key : LaneKey) (checked : bool) (st : Panel) : Panel :=
  let nextEnabled := set_lane key checked (laneEnabled st) in
  if checked then
    with_form (form_set (ratioFieldByLane key) (deriveLaneRatio key (lane (lanePrices st) key) (promptPrice st) (lanePrices st)))
      (with_lanes (lanePrices st) nextEnabled st)
  else
    let nextPrices := set_lane key [] (lanePrices st) in
    if decide (key = AudioInput) then
      with_form (λ v, form_set FAudioCompletionRatio [] (form_set (ratioFieldByLane key) [] v))
        (with_lanes (set_lane AudioOutput [] nextPrices) (set_lane AudioOutput false nextEnabled) st)
    else
      with_form (form_set (ratioFieldByLane key) []) (with_lanes nextPrices nextEnabled st).

Definition ZERO_TIER : jstr := quoted "tier('base', p * 0 + c * 0)".

Definition handleModeChange (nextMode : PricingMode) (st : Panel) : Panel :=
  let expr := if bool_decide (nextMode = TieredExpr) && negb (str_truthy (billingExpr st))
              then ZERO_TIER else billingExpr st in
  setExpressions nextMode expr (requestRuleExpr st) st.

(** ** The controls *)

(** The audio output lane needs an audio input price. *)
Definition lane_disabled (key : LaneKey) (st : Panel) : bool :=
  match key with
  | AudioOutput => negb (audioInput (laneEnabled st)) || negb (hasValue (JStr (audioInput (lanePrices st))))
  | _ => false
  end.

(** What the user can do; the last two are the callbacks of the tiered price
    editor, which is mounted in the expression mode. *)
Inductive Event :=
  | TypeName (s : jstr)
  | TypePrice (s : jstr)
  | TypePromptPrice (s : jstr)
  | TypeLanePrice (key : LaneKey) (s : jstr)
  | ToggleLane (key : LaneKey) (checked : bool)
  | ChangeMode (mode : PricingMode)
  | TogglePreview (open : bool)
  | BillingExprChange (s : jstr)
  | RequestRuleExprChange (s : jstr).

Definition dispatch (ev : Event) (st : Panel) : Panel :=
  match ev with
  | TypeName s => match editData st with None => with_form (form_set FName s) st | Some _ => st end
  | TypePrice s =>
      if bool_decide (pricingMode st = PerRequest) && is_draft s then with_form (form_set FPrice s) st else st
  | TypePromptPrice s => if decide (pricingMode st = PerToken) then handlePromptPriceChange s st else st
  | TypeLanePrice key s =>
      if bool_decide (pricingMode st = PerToken) && negb (lane_disabled key st || negb (lane (laneEnabled st) key))
      then handleLanePriceChange key s st else st
  | ToggleLane key checked =>
      if bool_decide (pricingMode st = PerToken) && negb (lane_disabled key st)
      then handleLaneToggle key checked st else st
  | ChangeMode mode => handleModeChange mode st
  | TogglePreview open => setPreviewOpen open st
  | BillingExprChange s =>
      if decide (pricingMode st = TieredExpr) then setExpressions TieredExpr s (requestRuleExpr st) st else st
  | RequestRuleExprChange s =>
      if decide (pricingMode st = TieredExpr) then setExpressions TieredExpr (billingExpr st) s st else st
  end.

Definition run (evs : list Event) (st : Panel) : Panel := fold_left (λ st ev, dispatch ev st) evs st.

(** ** What the panel shows and saves *)

Record PreviewRow := { r_key : jstr; r_label : jstr; r_value : jstr; r_multiline : bool }.

Section Texts.
Context (t : jstr → jstr).

Definition row (key : string) (label value : jstr) : PreviewRow :=
  {| r_key := js_of_string key; r_label := label; r_value := value; r_multiline := false |}.

Definition dollars (shown : bool) (p : jstr) : jstr :=
  if shown && str_truthy p then js "$" ++ p else t (js "Empty").

Definition buildPreviewRows (values : ModelPricingFormValues) (mode : PricingMode) (expr rules prompt : jstr)
    (prices : Lanes jstr) (enabled : Lanes bool) : list PreviewRow :=
  match mode with
  | TieredExpr =>
      [row "mode" (js "BillingMode") (js "tiered_expr");
       {| r_key := js "expr"; r_label := t (js "Expression");
          r_value := str_or (combineBillingExpr expr rules) (t (js "Empty")); r_multiline := true |}]
  | PerRequest => [row "price" (js "ModelPrice") (str_or (price values) (t (js "Empty")))]
  | PerToken =>
      [row "inputPrice" (t (js "Input price")) (dollars true prompt);
       row "completion" (t (js "Completion price")) (dollars (completion enabled) (completion prices));
       row "cache" (t (js "Cache read price")) (dollars (cache enabled) (cache prices));
       row "createCache" (t (js "Cache write price")) (dollars (createCache enabled) (createCache prices));
       row "image" (t (js "Image input price")) (dollars (image enabled) (image prices));
       row "audio" (t (js "Audio input price")) (dollars (audioInput enabled) (audioInput prices));
       row "audioCompletion" (t (js "Audio output price")) (dollars (audioOutput enabled) (audioOutput prices))]
  end.

Definition previewRows (st : Panel) : list PreviewRow :=
  buildPreviewRows (form st) (pricingMode st) (billingExpr st) (requestRuleExpr st)
    (promptPrice st) (lanePrices st) (laneEnabled st).

Definition conflict_warning : jstr :=
  js "This model has both fixed-price and token-price settings. Saving the current mode will rewrite the conflicting fields.".
Definition input_required : jstr := js "Input price is required before saving dependent prices.".
Definition audio_required : jstr := js "Audio output price requires an audio input price.".

Definition hasConflict (data : option ModelRatioData) : bool :=
  match data with
  | None => false
  | Some d =>
      str_truthy (default [] (d_price d)) &&
      existsb (λ r, hasValue (optional r))
        [d_ratio d; d_completionRatio d; d_cacheRatio d; d_createCacheRatio d; d_imageRatio d; d_audioRatio d;
         d_audioCompletionRatio d]
  end.

(** The two conditions under which saving is refused. *)
Definition input_missing (st : Panel) : bool :=
  bool_decide (pricingMode st = PerToken) && match toNumberOrNull (JStr (promptPrice st)) with None => true | Some _ => false end &&
  existsb (λ c, lane (laneEnabled st) (l_key c) && hasValue (JStr (lane (lanePrices st) (l_key c)))) laneConfigs.

Definition audio_missing (st : Panel) : bool :=
  bool_decide (pricingMode st = PerToken) && audioOutput (laneEnabled st) && negb (hasValue (JStr (audioInput (lanePrices st)))).

Definition warnings (st : Panel) : list jstr :=
  (if hasConflict (editData st) then [t conflict_warning] else []) ++
  (if input_missing st then [t input_required] else []) ++
  (if audio_missing st then [t audio_required] else []).

Inductive SubmitResult :=
  | Refused (f : FormField) (message : jstr)
  | Saved (data : ModelRatioData).

Definition submitted (st : Panel) : ModelRatioData :=
  let v := form st in
  {| d_name := trim (name v); d_price := Some (price v); d_ratio := Some (ratio v);
     d_cacheRatio := Some (cacheRatio v); d_createCacheRatio := Some (createCacheRatio v);
     d_completionRatio := Some (completionRatio v); d_imageRatio := Some (imageRatio v);
     d_audioRatio := Some (audioRatio v); d_audioCompletionRatio := Some (audioCompletionRatio v);
     d_billingMode := Some (pricingMode st);
     d_billingExpr := if decide (pricingMode st = TieredExpr) then Some (billingExpr st) else None;
     d_requestRuleExpr := if decide (pricingMode st = TieredExpr) then Some (requestRuleExpr st) else None |}.

(** The schema, then [handleSubmit]: what is passed to [onSave], and the panel
    after [form.reset()]. *)
Definition handleSubmit (st : Panel) : SubmitResult * Panel :=
  if negb (str_truthy (name (form st))) then (Refused FName (t (js "Model name is required")), st)
  else if input_missing st then (Refused FRatio (t input_required), st)
  else if audio_missing st then (Refused FAudioRatio (t audio_required), st)
  else (Saved (submitted st), with_form (λ _, form_defaults st) st).

Definition activeName (st : Panel) : jstr :=
  str_or (name (form st)) (str_or (default [] (d_name <$> editData st)) (t (js "New model"))).
End Texts.
