(* ===== verification/PricingSheetFacts.v ===== *)
(** * Facts about the price sheet

    The ratios in the form against the prices on the screen
    ([ratios_of_prices], with [synced] as the invariant behind it), lanes
    that are switched off, what is saved and when saving is refused, and two
    ways in which the sheet loses a price. *)

From S2P Require Import Prelude JsNumber JsString JsRegex JsValue BillingExpr PricingSheet.

Open Scope nat_scope.

(** ** Fields and lanes *)

Lemma form_get_set f g s v : form_get f (form_set g s v) = if decide (f = g) then s else form_get f v.
Proof. by destruct f, g. Qed.

Lemma lane_set_lane {A} k l (a : A) r : lane (set_lane k a r) l = if decide (l = k) then a else lane r l.
Proof. by destruct k, l. Qed.

Lemma ratioFieldByLane_inj k l : ratioFieldByLane k = ratioFieldByLane l → k = l.
Proof. by destruct k, l. Qed.

Lemma form_get_lane k l s v :
  form_get (ratioFieldByLane k) (form_set (ratioFieldByLane l) s v) =
  if decide (k = l) then s else form_get (ratioFieldByLane k) v.
Proof. by destruct k, l. Qed.

Lemma form_get_base k s v : form_get FRatio (form_set (ratioFieldByLane k) s v) = form_get FRatio v.
Proof. by destruct k. Qed.

Lemma sync_lane k prompt prices enabled v :
  form_get (ratioFieldByLane k) (syncLaneRatios prompt prices enabled v) = lane_ratio k prompt prices enabled.
Proof. by destruct k. Qed.

Lemma sync_base prompt prices enabled v : form_get FRatio (syncLaneRatios prompt prices enabled v) = base_ratio prompt.
Proof. reflexivity. Qed.

(** Only the audio output lane looks at the price of another lane. *)
Lemma derive_other k p prompt prices prices' :
  (k = AudioOutput → audioInput prices = audioInput prices') →
  deriveLaneRatio k p prompt prices = deriveLaneRatio k p prompt prices'.
Proof. intros H. unfold deriveLaneRatio. destruct k; try reflexivity. by rewrite H. Qed.

(** ** The form follows the prices *)

(** The ratios in the form are those of the prices on the screen. *)
Definition synced (st : Panel) : Prop :=
  ratio (form st) = base_ratio (promptPrice st) ∧
  ∀ k, form_get (ratioFieldByLane k) (form st) = lane_ratio k (promptPrice st) (lanePrices st) (laneEnabled st).

(** The handlers compute on a panel whose six switches are variables: a goal
    about one lane is the hypothesis or a conversion once the switches it
    depends on are known. *)
Ltac switch_cases H :=
  first [exact H | reflexivity
        | match goal with e : bool |- _ => destruct e; (exact H || reflexivity) end
        | match goal with e : bool, e' : bool |- _ => destruct e, e'; (exact H || reflexivity) end].

Lemma lane_price_synced k s st : synced st → synced (handleLanePriceChange k s st).
Proof.
  intros [HB HL]. unfold handleLanePriceChange. destruct (negb (is_draft s)); [done|].
  destruct st as [m p [? ? ? ? ? ?] [e1 e2 e3 e4 e5 e6] ex ru o [? ? ? ? ? ? ? ? ?] fd ed].
  split; [destruct k; switch_cases HB|]. intros j. specialize (HL j). destruct k, j; switch_cases HL.
Qed.

Lemma lane_toggle_synced k b st : synced st → synced (handleLaneToggle k b st).
Proof.
  intros [HB HL]. unfold handleLaneToggle.
  destruct st as [m p [? ? ? ? ? ?] [e1 e2 e3 e4 e5 e6] ex ru o [? ? ? ? ? ? ? ? ?] fd ed].
  split; [by destruct k, b|]. intros j. specialize (HL j).
  destruct k, j, b; exact HL || reflexivity.
Qed.

Lemma prompt_synced s st : is_draft s = true → synced (handlePromptPriceChange s st).
Proof.
  intros Hs. unfold handlePromptPriceChange. rewrite Hs. split; [reflexivity|]. intros k. apply sync_lane.
Qed.

(** Fields that hold no ratio. *)
Lemma other_field_synced f s st : f = FName ∨ f = FPrice → synced st → synced (with_form (form_set f s) st).
Proof.
  intros Hf [HB HL]. split; [by destruct Hf as [->| ->]|]. intros k. etrans; [|exact (HL k)].
  by destruct Hf as [->| ->], k.
Qed.

Lemma dispatch_synced ev st : synced st → synced (dispatch ev st).
Proof.
  intros H. destruct ev as [s|s|s|k s|k b|m|b|s|s]; cbn [dispatch].
  - destruct (editData st); [done|]. apply other_field_synced; auto.
  - destruct (_ && _); [|done]. apply other_field_synced; auto.
  - case_decide; [|done]. destruct (is_draft s) eqn:E; [by apply prompt_synced|].
    unfold handlePromptPriceChange. by rewrite E.
  - destruct (_ && _); [by apply lane_price_synced|done].
  - destruct (_ && _); [by apply lane_toggle_synced|done].
  - done.
  - done.
  - by case_decide.
  - by case_decide.
Qed.

(** An invariant of the handlers holds after any sequence of events. *)
Lemma run_invariant (P : Panel → Prop) evs st : (∀ ev st, P st → P (dispatch ev st)) → P st → P (run evs st).
Proof. intros Hd. revert st. induction evs as [|ev evs IH]; intros st H; [done|]. by apply IH, Hd. Qed.

(** *** The ratios a sheet should hold

    Said without the functions of the sheet: [reads s x], the text [s] of a
    price field is the finite number [x]; [five_digits x], the shortest text of
    [x] rounded to five digits after the point; [quotient_text own base r], [r]
    is what should be stored for a price [own] that is counted against [base]. *)
Definition reads (s : jstr) (x : num) : Prop := s ≠ [] ∧ string_to_number s = x ∧ isFinite x = true.

Definition five_digits (x : num) : jstr := num_to_string (parseFloat (toFixed x 5)).

Definition quotient_text (own base r : jstr) : Prop :=
  (∀ x b, reads own x → reads base b → n_eq b (of_Z 0) = false → isFinite (n_div x b) = true → r = five_digits (n_div x b)) ∧
  ((∃ x b, reads own x ∧ reads base b ∧ n_eq b (of_Z 0) = false ∧ isFinite (n_div x b) = true) ∨ r = []).

(** The price a lane is counted against: audio output against audio input,
    every other lane against the input price. *)
Definition counted_against (k : LaneKey) (st : Panel) : jstr :=
  match k with AudioOutput => audioInput (lanePrices st) | _ => promptPrice st end.

Record ratios_of_prices (st : Panel) : Prop := {
  base_halved : ∀ x, reads (promptPrice st) x → isFinite (n_div x (of_Z 2)) = true →
    ratio (form st) = five_digits (n_div x (of_Z 2));
  base_absent : (¬ ∃ x, reads (promptPrice st) x) → ratio (form st) = [];
  lane_on : ∀ k, lane (laneEnabled st) k = true →
    quotient_text (lane (lanePrices st) k) (counted_against k st) (form_get (ratioFieldByLane k) (form st));
  lane_off : ∀ k, lane (laneEnabled st) k = false → form_get (ratioFieldByLane k) (form st) = []
}.

Lemma number_read s x : toNumberOrNull (JStr s) = Some x ↔ reads s x.
Proof.
  unfold toNumberOrNull, hasValue, reads. destruct s as [|c s]; [by split; [|intros [? _]]|].
  cbn [strict_eq is_nullish negb andb to_number]. unfold str_eqb. rewrite bool_decide_eq_false_2 by done. cbn [negb andb].
  destruct (isFinite (string_to_number (c :: s))) eqn:E; (split; [try done|intros (_ & <- & Hf); congruence]).
  by intros [= <-].
Qed.

Lemma number_unread s : toNumberOrNull (JStr s) = None ↔ ¬ ∃ x, reads s x.
Proof.
  destruct (toNumberOrNull (JStr s)) as [x|] eqn:E; split; try done.
  - apply number_read in E. intros []. by exists x.
  - intros _ [x Hx%number_read]. congruence.
Qed.

(** A number that is not finite is not written. *)
Lemma format_num x : formatNumber (JNum x) = if isFinite x then five_digits x else [].
Proof.
  unfold formatNumber, toNumberOrNull, hasValue. cbn [strict_eq is_nullish negb andb to_number].
  by destruct (isFinite x).
Qed.

Lemma derive_quotient k p prompt prices :
  quotient_text p (match k with AudioOutput => audioInput prices | _ => prompt end) (deriveLaneRatio k p prompt prices).
Proof.
  set (base := match k with AudioOutput => _ | _ => _ end).
  assert (E : deriveLaneRatio k p prompt prices =
    match toNumberOrNull (JStr p), toNumberOrNull (JStr base) with
    | Some x, Some b => if n_eq b (of_Z 0) then [] else formatNumber (JNum (n_div x b))
    | _, _ => []
    end) by (unfold deriveLaneRatio, base; by destruct k, (toNumberOrNull (JStr p))).
  rewrite E. clear E. split.
  - intros x b Hx%number_read Hb%number_read Hz Hf. by rewrite Hx, Hb, Hz, format_num, Hf.
  - destruct (toNumberOrNull (JStr p)) as [x|] eqn:Hx; [|by right]. apply number_read in Hx.
    destruct (toNumberOrNull (JStr base)) as [b|] eqn:Hb; [|by right]. apply number_read in Hb.
    destruct (n_eq b (of_Z 0)) eqn:Hz; [by right|]. rewrite format_num.
    destruct (isFinite (n_div x b)) eqn:Hf; [left; by exists x, b|by right].
Qed.

Lemma synced_ratios st : synced st → ratios_of_prices st.
Proof.
  intros [HB HL]. split.
  - intros x Hx%number_read Hf. rewrite HB. unfold base_ratio. by rewrite Hx, format_num, Hf.
  - intros Hn%number_unread. rewrite HB. unfold base_ratio. by rewrite Hn.
  - intros k Hk. rewrite HL. unfold lane_ratio. rewrite Hk. apply derive_quotient.
  - intros k Hk. rewrite HL. unfold lane_ratio. by rewrite Hk.
Qed.

(** C14. The ratios that will be saved follow the prices on the screen: on a new
    model, and on any model from the moment the input price is edited, whatever
    the user then does.  The base ratio is the input price divided by two; a lane
    that is on has its price divided by the price it is counted against (audio
    output: audio input; the others: the input price), or nothing where one of
    them is not a number, the divisor is zero or the quotient overflows; a lane
    that is off has none.  Quotients are doubles, written rounded to five digits
    after the point. *)
Theorem ratios_follow_prices :
  (∀ evs, ratios_of_prices (run evs (load None))) ∧
  (∀ st s evs, pricingMode st = PerToken → is_draft s = true → ratios_of_prices (run (TypePromptPrice s :: evs) st)).
Proof.
  split.
  - intros evs. apply synced_ratios, run_invariant; [apply dispatch_synced|]. split; [reflexivity|]. by intros [].
  - intros st s evs Hm Hs. cbn [run fold_left]. apply synced_ratios, (run_invariant synced); [apply dispatch_synced|].
    cbn [dispatch]. rewrite decide_True by done. by apply prompt_synced.
Qed.

(** ** What the number fields accept *)

Definition all_digits (s : jstr) : Prop := Forall (λ c, is_digit c = true) s.

(** A text the fields accept: nothing, digits, or digits around a point. *)
Lemma draft_shape s : is_draft s = true →
  s = [] ∨ ∃ int frac, all_digits int ∧ all_digits frac ∧ ((int ≠ [] ∧ frac = [] ∧ s = int) ∨ s = int ++ 46%N :: frac).
Proof.
  unfold is_draft, numericDraftRegex, Opt. intros (st & (st1 & [_ ->]%Mr_bol_iff & HM)%Mr_seq_iff)%(re_test_anchored (Seqs [_; Eol])).
  apply Mr_seq_iff in HM as (st2 & HM & (st3 & [He ->]%Mr_eol_iff & _)%Mr_seq_iff).
  assert (Hpoint : ∀ st st', Mr (Seqs [Lit "."; Star true Digit]) st st' → ahead st' = [] →
            ∃ f, all_digits f ∧ ahead st = 46%N :: f).
  { intros u u' (u1 & (t1 & E1 & ->)%Mr_lit_units & (u2 & (f & t2 & E2 & Hf & ->)%Mr_star_chr & ->%Mr_eps_iff)%Mr_seq_iff)%Mr_seq_iff Hu.
    simpl in E2, Hu. subst. exists f. by rewrite app_nil_r in E1. }
  apply Mr_alt_iff in HM as [[HM|HM]%Mr_alt_iff|HM%Mr_eps_iff].
  - right. apply Mr_seq_iff in HM as (u & (int & t & E & Hne & Hi & ->)%Mr_plus_chr & HM). simpl in E.
    apply Mr_seq_iff in HM as (u & [HM|HM%Mr_eps_iff]%Mr_alt_iff & ->%Mr_eps_iff).
    + destruct (Hpoint _ _ HM He) as (f & Hf & E'). simpl in E'. subst. exists int, f. auto.
    + subst u. simpl in He. subst. exists int, []. split_and!; [done|by constructor|]. left. by rewrite app_nil_r.
  - right. destruct (Hpoint _ _ HM He) as (f & Hf & E'). simpl in E'. exists [], f. split_and!; [by constructor|done|auto].
  - left. subst st2. exact He.
Qed.

Lemma span_digits int t : all_digits int → (∀ c r, t = c :: r → is_digit c = false) → span is_digit (int ++ t) = (int, t).
Proof.
  intros Hi Ht. induction Hi as [|c int Hc _ IH]; cbn [span app].
  - destruct t as [|c r]; [done|]. cbn [span]. by rewrite (Ht c r).
  - by rewrite Hc, IH.
Qed.

Lemma digit_range c : is_digit c = true ↔ (48 <= c <= 57)%N.
Proof. unfold is_digit. rewrite andb_true_iff, !N.leb_le. done. Qed.

Definition draft_unit (c : N) : Prop := c = 46%N ∨ is_digit c = true.

Lemma draft_unit_cases c : draft_unit c → c ∈ [46; 48; 49; 50; 51; 52; 53; 54; 55; 56; 57]%N.
Proof. intros [->|H%digit_range]; [set_solver|]. rewrite !elem_of_cons. lia. Qed.

Lemma draft_unit_facts c s : draft_unit c →
  is_space c = false ∧ scan_sign (c :: s) = (false, c :: s) ∧ str_eqb (c :: s) text_Infinity = false ∧
  ∀ d t, draft_unit d → radix_literal (c :: d :: t) = None.
Proof.
  intros Hc%draft_unit_cases. split_and!.
  - repeat (apply elem_of_cons in Hc as [->|Hc]; [reflexivity|]). by apply elem_of_nil in Hc.
  - repeat (apply elem_of_cons in Hc as [->|Hc]; [reflexivity|]). by apply elem_of_nil in Hc.
  - unfold str_eqb. apply bool_decide_eq_false_2. intros [= -> _]. vm_compute in Hc. set_solver.
  - intros d t Hd%draft_unit_cases. unfold radix_literal. destruct t as [|e t]; [by repeat case_match|].
    assert (Hb : (if (d =? 120) || (d =? 88) then 16 else if (d =? 111) || (d =? 79) then 8
                  else if (d =? 98) || (d =? 66) then 2 else 0)%N = 0%N).
    { repeat (apply elem_of_cons in Hd as [->|Hd]; [reflexivity|]). by apply elem_of_nil in Hd. }
    cbv zeta. rewrite Hb. by repeat case_match.
Qed.

Lemma draft_units s : is_draft s = true → Forall draft_unit s.
Proof.
  intros [->|(int & frac & Hi & Hf & [(_ & _ & ->)| ->])]%draft_shape; [constructor| |].
  - eapply Forall_impl; [exact Hi|]. by right.
  - apply Forall_app. split; [|constructor; [by left|]]; (eapply Forall_impl; [eassumption|]; by right).
Qed.

(** Reading a text of digits and points takes neither sign nor radix. *)
Lemma draft_to_number s : Forall draft_unit s → s ≠ [] →
  string_to_number s = match scan_decimal s with Some (x, []) => x | _ => NaN end.
Proof.
  intros Hs Hne. unfold string_to_number. rewrite trim_id.
  2:{ apply trimmed_no_space. eapply Forall_impl; [exact Hs|]. intros c Hc. by apply (draft_unit_facts c []). }
  destruct Hs as [|c s Hc Hs]; [done|]. destruct (draft_unit_facts c s Hc) as (_ & E1 & E2 & E3). cbv zeta.
  replace (radix_literal (c :: s)) with (@None num).
  - by rewrite E1, E2.
  - symmetry. destruct Hs as [|d s Hd _]; [|by apply E3]. unfold radix_literal. by repeat case_match.
Qed.

Lemma scan_digits int frac p : all_digits int → all_digits frac → int ++ frac ≠ [] → (frac = [] ∧ p = [] ∨ p = 46%N :: frac) →
  scan_decimal (int ++ p) = Some (of_decimal false (undigits (int ++ frac)) (- Z.of_nat (length frac)), []).
Proof.
  intros Hi Hf Hne Hp.
  assert (Hu : Forall draft_unit (int ++ p)).
  { apply Forall_app. split; [eapply Forall_impl; [exact Hi|]; by right|].
    destruct Hp as [[_ ->]| ->]; [constructor|]. constructor; [by left|]. eapply Forall_impl; [exact Hf|]. by right. }
  assert (Hs : scan_sign (int ++ p) = (false, int ++ p)).
  { destruct Hu as [|c u Hc _]; [done|]. by apply draft_unit_facts. }
  unfold scan_decimal. rewrite Hs, span_digits; [|done|destruct Hp as [[_ ->]| ->]; [done|by intros c r [= <- _]]].
  destruct Hp as [[-> ->]| ->].
  - rewrite app_nil_r in Hne. by destruct int.
  - pose proof (span_digits frac [] Hf ltac:(done)) as Hspan. rewrite app_nil_r in Hspan. rewrite Hspan.
    destruct int, frac; done.
Qed.

(** The price fields accept exactly what they can read as a price: a text
    they take is empty, a lone point, or decimal digits around an optional point,
    and then [Number] gives the double nearest to that decimal, which has no
    sign, exponent or other radix. *)
Theorem draft_is_decimal s : is_draft s = true →
  s = [] ∨ s = js "." ∨
  ∃ int frac, all_digits int ∧ all_digits frac ∧ int ++ frac ≠ [] ∧ (frac = [] ∧ s = int ∨ s = int ++ js "." ++ frac) ∧
    string_to_number s = of_decimal false (undigits (int ++ frac)) (- Z.of_nat (length frac)).
Proof.
  intros Hd. pose proof (draft_units s Hd) as Hu. change (js ".") with [46%N].
  destruct (draft_shape s Hd) as [->|(int & frac & Hi & Hf & Hs)]; [by left|right].
  destruct Hs as [(Hne & -> & ->)| ->].
  - right. exists int, []. rewrite app_nil_r. split_and!; auto. rewrite draft_to_number by done.
    pose proof (scan_digits int [] [] Hi Hf) as E. rewrite !app_nil_r in E. by rewrite E; auto.
  - destruct (decide (int ++ frac = [])) as [[-> ->]%app_eq_nil|Hne]; [by left|right]. exists int, frac.
    split_and!; auto. rewrite draft_to_number; [|done|by destruct int]. by rewrite (scan_digits int frac); auto.
Qed.

Lemma draft_is_decimal_witness :
  is_draft (js "12.50") = true ∧ is_draft (js "-1") = false ∧ is_draft (js "1e3") = false ∧
  string_to_number (js "12.50") = of_decimal false 1250 (-2).
Proof.
  assert (H : is_draft (js "12.50") = true) by (vm_compute; reflexivity).
  destruct (draft_is_decimal (js "12.50") H) as [E|[E|_]]; [discriminate E|discriminate E|].
  repeat split; vm_compute; reflexivity.
Defined.

(** ** Lanes that are off *)

(** A lane that is off has neither a price nor a ratio. *)
Definition off_clean (st : Panel) : Prop :=
  ∀ k, lane (laneEnabled st) k = false → lane (lanePrices st) k = [] ∧ form_get (ratioFieldByLane k) (form st) = [].

Lemma hasValue_optional r : hasValue (optional r) = str_truthy (default [] r).
Proof. by destruct r as [[]|]. Qed.

Lemma no_value r : hasValue (optional r) = false → default [] r = [] ∧ toNumberOrNull (optional r) = None.
Proof. by destruct r as [[]|]. Qed.

Lemma load_off_clean data : off_clean (load data).
Proof.
  destruct data as [d|]; [|by intros []].
  assert (Hd : ∀ r den, hasValue (optional r) = false → deriveLanePrice (optional r) den = [] ∧ default [] r = []).
  { intros r den [E1 E2]%no_value. unfold deriveLanePrice. by rewrite E2. }
  intros k Hk. destruct k; cbn in Hk |- *; by apply Hd.
Qed.

Lemma dispatch_off_clean ev st : off_clean st → off_clean (dispatch ev st).
Proof.
  intros H. destruct ev as [s|s|s|k s|k b|m|b|s|s]; cbn [dispatch]; try (by repeat case_match).
  - destruct (editData st); [done|]. intros j Hj. destruct (H j Hj) as [Hp Hf]. split; [done|]. etrans; [|exact Hf]. by destruct j.
  - destruct (_ && _); [|done]. intros j Hj. destruct (H j Hj) as [Hp Hf]. split; [done|]. etrans; [|exact Hf]. by destruct j.
  - case_decide; [|done]. unfold handlePromptPriceChange. destruct (negb _); [done|]. intros j Hj.
    split; [by apply H|]. cbn [with_form form]. rewrite sync_lane. unfold lane_ratio.
    cbn [with_form setPromptPrice laneEnabled] in Hj. by rewrite Hj.
  - destruct (bool_decide _); [|done]. destruct (lane_disabled k st); [done|]. cbn [orb andb].
    destruct (lane (laneEnabled st) k) eqn:E; [|done]. cbn [negb]. unfold handleLanePriceChange. destruct (negb _); [done|].
    intros j Hj. change (lane (laneEnabled st) j = false) in Hj. destruct (H j Hj) as [Hp Hf]. rewrite E.
    assert (j ≠ k) by congruence. cbn [with_form with_lanes lanePrices form].
    split; [by rewrite lane_set_lane, decide_False|]. etrans; [|exact Hf].
    destruct (bool_decide _ && _) eqn:Ea; [|by rewrite form_get_lane, decide_False].
    apply andb_prop in Ea as [_ Ea]. rewrite form_get_set, decide_False; [by rewrite form_get_lane, decide_False|].
    intros ?. destruct j; try discriminate. cbn in Hj. congruence.
  - destruct (_ && _); [|done]. destruct st as [m p [? ? ? ? ? ?] [e1 e2 e3 e4 e5 e6] ex ru o [? ? ? ? ? ? ? ? ?] fd ed].
    intros j Hj. specialize (H j). destruct k, j, b; first [exact (H Hj)|split; reflexivity|discriminate Hj].
Qed.

(** What the panel promises under a lane that is switched off, [Disabled
    lanes are omitted on save]: whatever model was opened and whatever was
    done, a lane that is off shows no price and is saved with an empty ratio. *)
Theorem off_lanes_omitted data evs k :
  let st := run evs (load data) in
  lane (laneEnabled st) k = false →
  lane (lanePrices st) k = [] ∧ data_ratio k (submitted st) = Some [].
Proof.
  intros st Hk. assert (H : off_clean st) by (apply run_invariant; [apply dispatch_off_clean|apply load_off_clean]).
  destruct (H k Hk) as [Hp Hf]. split; [done|]. transitivity (Some (form_get (ratioFieldByLane k) (form st))); [by destruct k|by f_equal].
Qed.

(** ** Saving *)

(** Saving goes through exactly when the model has a name and no warning but
    that of conflicting settings is shown; then the saved data are the fields of
    the form and the form goes back to what was loaded, and otherwise nothing
    changes. *)
Theorem submit_iff_clear t st :
  let shown := warnings t st in
  let conflict := if hasConflict (editData st) then [t conflict_warning] else [] in
  (name (form st) ≠ [] ∧ shown = conflict ∧ handleSubmit t st = (Saved (submitted st), with_form (λ _, form_defaults st) st)) ∨
  ((name (form st) = [] ∨ ∃ w, shown = conflict ++ w ∧ w ≠ []) ∧ ∃ f m, handleSubmit t st = (Refused f m, st)).
Proof.
  cbv zeta. unfold handleSubmit, warnings.
  destruct (name (form st)) as [|c s]; cbn [str_truthy negb]; [right; eauto|].
  destruct (input_missing st); [right; split; [right; eexists; split; [reflexivity|done]|eauto]|].
  destruct (audio_missing st); [right; split; [right; eexists; split; [reflexivity|done]|eauto]|].
  left. by rewrite !app_nil_r.
Qed.

(** ** Prices that are lost *)

Lemma derive_no_price k prompt prices : deriveLaneRatio k [] prompt prices = [].
Proof. reflexivity. Qed.

(** A model that has ratios but no input ratio loses them all when its input
    price is set: the lanes are on but have no price, since none can be derived,
    and the ratios are derived anew from those prices.  No warning is shown and
    nothing refuses to save. *)
Theorem input_price_erases_ratios d s k t :
  default [] (d_ratio d) = [] → mode_of d = PerToken → default [] (d_audioCompletionRatio d) = [] → is_draft s = true →
  let st := run [TypePromptPrice s] (load (Some d)) in
  lane (laneEnabled st) k = str_truthy (default [] (data_ratio k d)) ∧
  data_ratio k (submitted st) = Some [] ∧ warnings t st = [].
Proof.
  intros Hr Hm Ha Hs. cbn [run fold_left dispatch]. change (pricingMode (load (Some d))) with (mode_of d).
  rewrite decide_True by done. unfold handlePromptPriceChange. rewrite Hs. cbn [negb].
  assert (Hb : toNumberOrNull (JStr (ratioToBasePrice (optional (d_ratio d)))) = None).
  { unfold ratioToBasePrice. assert (E : toNumberOrNull (optional (d_ratio d)) = None) by (by destruct (d_ratio d) as [[]|]).
    by rewrite E. }
  assert (Hp : ∀ j, lane (lanePrices (load (Some d))) j = []).
  { intros j. unfold load, createInitialLaneState, deriveLanePrice. destruct j; cbn [lanePrices lane completion cache
      createCache image audioInput audioOutput]; rewrite Hb; repeat case_match; done. }
  assert (He : ∀ j, lane (laneEnabled (load (Some d))) j = str_truthy (default [] (data_ratio j d))).
  { intros j. rewrite <- hasValue_optional. by destruct j. }
  split_and!.
  - rewrite <- He. by destruct k.
  - transitivity (Some (lane_ratio k s (lanePrices (load (Some d))) (laneEnabled (load (Some d))))); [by destruct k|].
    unfold lane_ratio. rewrite Hp. by destruct (lane _ _).
  - unfold warnings. change (editData (with_form _ _)) with (Some d). unfold mode_of in Hm. unfold hasConflict.
    destruct (decide _); [done|]. destruct (str_truthy (default [] (d_price d))); [done|]. cbn [andb app].
    unfold input_missing, audio_missing.
    pose proof (He AudioOutput) as H6. cbn [lane data_ratio] in H6. rewrite Ha in H6.
    change (laneEnabled (with_form _ _)) with (laneEnabled (load (Some d))).
    change (lanePrices (with_form _ _)) with (lanePrices (load (Some d))).
    rewrite H6. cbn [str_truthy]. rewrite !andb_false_r. cbn [andb app].
    replace (existsb _ laneConfigs) with false; [by rewrite andb_false_r|].
    symmetry. apply not_true_iff_false. rewrite existsb_exists. intros (c & _ & Hc). rewrite Hp in Hc.
    by rewrite andb_false_r in Hc.
Qed.

(** ** Examples *)

Definition stored (ratio completionRatio audioRatio : option jstr) : ModelRatioData :=
  {| d_name := js "model"; d_price := Some []; d_ratio := ratio; d_cacheRatio := None; d_createCacheRatio := None;
     d_completionRatio := completionRatio; d_imageRatio := None; d_audioRatio := audioRatio; d_audioCompletionRatio := None;
     d_billingMode := Some PerToken; d_billingExpr := None; d_requestRuleExpr := None |}.

Lemma ratios_follow_prices_witness :
  let st := run [TypePromptPrice (js "4"); TypeLanePrice Completion (js "10")] (load (Some (stored (Some (js "1.5")) (Some (js "5")) None))) in
  ratios_of_prices st ∧ ratio (form st) = js "2" ∧ completionRatio (form st) = js "2.5".
Proof.
  split; [|split; vm_compute; reflexivity].
  refine (proj2 ratios_follow_prices (load (Some (stored (Some (js "1.5")) (Some (js "5")) None))) (js "4")
           [TypeLanePrice Completion (js "10")] _ _); vm_compute; reflexivity.
Defined.

Lemma off_lanes_omitted_witness :
  let st := run [TypePromptPrice (js "4"); ToggleLane AudioInput false] (load (Some (stored (Some (js "1.5")) (Some (js "5")) (Some (js "2"))))) in
  lane (laneEnabled st) AudioInput = false ∧ lane (lanePrices st) AudioInput = [] ∧ data_ratio AudioInput (submitted st) = Some [] ∧
  data_ratio Completion (submitted st) = Some (js "3.75").
Proof.
  cbv zeta. assert (H : lane (laneEnabled (run [TypePromptPrice (js "4"); ToggleLane AudioInput false]
    (load (Some (stored (Some (js "1.5")) (Some (js "5")) (Some (js "2"))))))) AudioInput = false) by (vm_compute; reflexivity).
  split; [exact H|].
  destruct (off_lanes_omitted _ [TypePromptPrice (js "4"); ToggleLane AudioInput false] AudioInput H) as [H1 H2].
  split; [exact H1|]. split; [exact H2|]. vm_compute. reflexivity.
Defined.

Lemma input_price_erases_ratios_witness :
  let st := run [TypePromptPrice (js "3")] (load (Some (stored None (Some (js "5")) None))) in
  completionRatio (form (load (Some (stored None (Some (js "5")) None)))) = js "5" ∧
  lane (laneEnabled st) Completion = true ∧ data_ratio Completion (submitted st) = Some [] ∧ warnings id st = [].
Proof.
  split; [reflexivity|].
  refine (input_price_erases_ratios (stored None (Some (js "5")) None) (js "3") Completion id _ _ _ _); vm_compute; reflexivity.
Defined.

(** Ratios keep five digits after the point, so prices move when a model is
    saved and opened again: with an input price of 3, an output price of 10
    comes back as 9.99999. *)
Lemma price_drifts :
  let opened := load (Some (stored (Some (js "1.5")) (Some (js "5")) None)) in
  let st := run [TypeLanePrice Completion (js "10")] opened in
  completion (lanePrices st) = js "10" ∧ (handleSubmit id st).1 = Saved (submitted st) ∧
  completion (lanePrices (load (Some (submitted st)))) = js "9.99999".
Proof. vm_compute. auto. Qed.

(** The schema asks for a name before it is trimmed: a name of blanks is saved
    as the empty name. *)
Lemma blank_name_saved :
  let st := run [TypeName (js "  ")] (load None) in
  (handleSubmit id st).1 = Saved (submitted st) ∧ d_name (submitted st) = [].
Proof. vm_compute. auto. Qed.
