(* ===== verification/PriceSettings.v ===== *)
(** * The price settings of all models

    features/system-settings/utils/json-parser.ts ([safeJsonParse]),
    features/system-settings/models/utils.ts (texts of settings),
    ratio-settings-card.tsx ([saveModelRatios]) and
    model-ratio-visual-editor.tsx, the table of models above the price sheet.

    The settings are ten JSON texts, each a record from model names to numbers
    or strings: [Texts] is what the form holds, [Maps] the ten records.  A text
    that holds JSON but no object is outside the types of the source and of the
    model ([read_settings] is [None]).  Reading a billing expression may throw. *)

From S2P Require Import Prelude JsNumber JsString JsRegex JsValue Host BillingExpr PricingSheet.

Open Scope nat_scope.

(** ** JSON texts *)

Definition safeJsonParse (value : jstr) (fallback : jsval) : jsval :=
  if negb (str_truthy value) || str_eqb (trim value) [] then fallback
  else default fallback (json_parse (trim value)).

(** [tryJsonParse]; the message of a parse error is the engine's. *)
Inductive JsonParseResult := JsonData (data : jsval) | EmptyValue | SyntaxError.

Definition tryJsonParse (value : jstr) : JsonParseResult :=
  if negb (str_truthy value) || str_eqb (trim value) [] then EmptyValue
  else match json_parse (trim value) with Some data => JsonData data | None => SyntaxError end.

Definition safeJsonParseWithValidation (value : jstr) (fallback : jsval) (validator : jsval → bool) : jsval :=
  let parsed := safeJsonParse value fallback in
  if validator parsed then parsed else fallback.

Definition formatJsonForTextarea (value : jstr) : jstr :=
  if negb (str_truthy value) || negb (str_truthy (trim value)) then []
  else match json_parse value with Some parsed => json_pretty parsed | None => value end.

Definition normalizeJsonString (value : jstr) : jstr :=
  let trimmed := trim value in
  if negb (str_truthy trimmed) then []
  else match json_parse trimmed with Some parsed => json_stringify parsed | None => trimmed end.

(** The validity of [validateJsonString]. *)
Definition validateJsonString (allowEmpty : bool) (predicate : option (jsval → bool)) (value : jstr) : bool :=
  let trimmed := trim value in
  if negb (str_truthy trimmed) then allowEmpty
  else match json_parse trimmed with
       | None => false
       | Some parsed => match predicate with Some p => p parsed | None => true end
       end.

(** ** The ten settings *)

Inductive Setting :=
  | ModelPrice | ModelRatio | CacheRatio | CreateCacheRatio | CompletionRatio | ImageRatio | AudioRatio
  | AudioCompletionRatio | BillingMode | BillingExpr.

#[export] Instance Setting_eq_dec : EqDecision Setting.
Proof. solve_decision. Defined.

(** In the order in which the editor reads and writes them. *)
Definition all_settings : list Setting :=
  [ModelPrice; ModelRatio; CacheRatio; CreateCacheRatio; CompletionRatio; ImageRatio; AudioRatio;
   AudioCompletionRatio; BillingMode; BillingExpr].

(** The name under which the editor reports a change and the server keeps the
    setting ([apiKeyMap] for the fields of the form). *)
Definition option_key (s : Setting) : jstr :=
  match s with
  | ModelPrice => js "ModelPrice"
  | ModelRatio => js "ModelRatio"
  | CacheRatio => js "CacheRatio"
  | CreateCacheRatio => js "CreateCacheRatio"
  | CompletionRatio => js "CompletionRatio"
  | ImageRatio => js "ImageRatio"
  | AudioRatio => js "AudioRatio"
  | AudioCompletionRatio => js "AudioCompletionRatio"
  | BillingMode => js "billing_setting.billing_mode"
  | BillingExpr => js "billing_setting.billing_expr"
  end.

Definition Texts := Setting → jstr.
Definition Maps := Setting → obj jsval.

Definition read_record (text : jstr) : option (obj jsval) :=
  match safeJsonParse text (JObj []) with JObj o => Some o | _ => None end.

Definition read_settings (texts : Texts) : option Maps :=
  if forallb (λ s, bool_decide (is_Some (read_record (texts s)))) all_settings
  then Some (λ s, default [] (read_record (texts s)))
  else None.

(** The calls of [onChange], and what [handleFieldChange] of the form makes of
    them. *)
Definition changes (maps : Maps) : list (Setting * jstr) :=
  map (λ s, (s, json_pretty (JObj (maps s)))) all_settings.

Definition apply_changes (cs : list (Setting * jstr)) (texts : Texts) : Texts :=
  fold_left (λ texts c s, if decide (s = c.1) then c.2 else texts s) cs texts.

(** [saveModelRatios]: one request per setting whose normalised text differs
    from that of the defaults, in the order of [normalized]; the switch for the
    public ratios is one more setting, between the ratios and the billing mode. *)
Inductive OptionValue := TextValue (s : jstr) | BoolValue (b : bool).

Definition text_updates (defaults values : Texts) (ss : list Setting) : list (jstr * OptionValue) :=
  map (λ s, (option_key s, TextValue (normalizeJsonString (values s))))
    (List.filter (λ s, negb (str_eqb (normalizeJsonString (values s)) (normalizeJsonString (defaults s)))) ss).

Definition saveModelRatios (defaults : Texts) (default_expose : bool) (values : Texts) (expose : bool) :
    list (jstr * OptionValue) :=
  text_updates defaults values (take 8 all_settings) ++
  (if Bool.eqb expose default_expose then [] else [(js "ExposeRatioEnabled", BoolValue expose)]) ++
  text_updates defaults values (drop 8 all_settings).

(** ** Rows *)

Record ModelRow := {
  w_name : jstr;
  w_price : jstr;
  w_ratio : jstr;
  w_cacheRatio : jstr;
  w_createCacheRatio : jstr;
  w_completionRatio : jstr;
  w_imageRatio : jstr;
  w_audioRatio : jstr;
  w_audioCompletionRatio : jstr;
  w_billingMode : PricingMode;
  w_billingExpr : option jstr;
  w_requestRuleExpr : option jstr;
  w_hasConflict : bool
}.

(** [map[name]?.toString() || ''] *)
Definition entry_text (o : obj jsval) (n : jstr) : jstr :=
  match obj_get n o with
  | None | Some JUndef | Some JNull => []
  | Some v => to_string v
  end.

Definition row_of (maps : Maps) (n : jstr) : outcome ModelRow :=
  let text s := entry_text (maps s) n in
  let mk mode expr rules conflict :=
    {| w_name := n; w_price := text ModelPrice; w_ratio := text ModelRatio; w_cacheRatio := text CacheRatio;
       w_createCacheRatio := text CreateCacheRatio; w_completionRatio := text CompletionRatio;
       w_imageRatio := text ImageRatio; w_audioRatio := text AudioRatio;
       w_audioCompletionRatio := text AudioCompletionRatio;
       w_billingMode := mode; w_billingExpr := expr; w_requestRuleExpr := rules; w_hasConflict := conflict |} in
  if strict_eq (default JUndef (obj_get n (maps BillingMode))) (JStr (js "tiered_expr")) then
    match js_or (default JUndef (obj_get n (maps BillingExpr))) (JStr []) with
    | JStr fullExpr =>
        '(pureExpr, rules) ← splitBillingExprAndRequestRules fullExpr;
        Ret (mk TieredExpr (Some pureExpr) (Some rules) false)
    | _ => Throw
    end
  else
    let priced := str_truthy (text ModelPrice) in
    Ret (mk (if priced then PerRequest else PerToken) None None
           (priced && (str_truthy (text ModelRatio) || str_truthy (text CompletionRatio) || str_truthy (text CacheRatio) ||
                       str_truthy (text CreateCacheRatio) || str_truthy (text ImageRatio) || str_truthy (text AudioRatio) ||
                       str_truthy (text AudioCompletionRatio)))).

Definition model_names (maps : Maps) : list jstr :=
  set_of_list (concat (map (λ s, own_keys (maps s)) all_settings)).

Section Rows.
Context `{H : Host}.

Definition row_before (a b : ModelRow) : bool := n_lt (localeCompare (w_name a) (w_name b)) (of_Z 0).

Definition models (maps : Maps) : outcome (list ModelRow) :=
  modelData ← mapM (row_of maps) (model_names maps);
  Ret (sort_stable row_before modelData).
End Rows.

(** The numbers beside the mode filter: per token, per request, expressions. *)
Definition modeCounts (rows : list ModelRow) : num * num * num :=
  fold_left (λ '(pt, pr, te) m,
    match w_billingMode m with
    | PerToken => (n_add pt (of_Z 1), pr, te)
    | PerRequest => (pt, n_add pr (of_Z 1), te)
    | TieredExpr => (pt, pr, n_add te (of_Z 1))
    end) rows (of_Z 0, of_Z 0, of_Z 0).

(** [toNumberOrNull] of a text that may be missing, and the price of a ratio;
    without a denominator a ratio of one is two dollars. *)
Definition text_number (value : option jstr) : option num :=
  match value with
  | None | Some [] => None
  | Some s => let n := string_to_number s in if isFinite n then Some n else None
  end.

Definition formatPrice (x : num) : jstr := num_to_string (parseFloat (toFixed x 5)).

Definition ratioToPrice (r : option jstr) (denominator : option jstr) : jstr :=
  let d := if str_truthy (default [] denominator) then text_number denominator else Some (of_Z 2) in
  match text_number r, d with
  | Some n, Some d => formatPrice (n_mul n d)
  | _, _ => []
  end.

Section Summaries.
Context (t : jstr → jstr).

Definition getExpressionSummary (r : ModelRow) : jstr :=
  let tierCount := match w_billingExpr r with Some e => length (all_matches (Lit "tier(") e) | None => 0 end in
  if 0 <? tierCount
  then t (js "Tiered pricing") ++ js " · " ++ num_to_string (of_Z (Z.of_nat tierCount)) ++ js " " ++ t (js "tiers")
  else t (js "Expression pricing").

Definition getPriceSummary (r : ModelRow) : jstr :=
  match w_billingMode r with
  | TieredExpr => getExpressionSummary r
  | PerRequest => if str_truthy (w_price r) then js "$" ++ w_price r ++ js " / " ++ t (js "request") else t (js "Unset price")
  | PerToken =>
      let inputPrice := ratioToPrice (Some (w_ratio r)) None in
      if negb (str_truthy inputPrice) then t (js "Unset price")
      else
        let extraCount := length (List.filter str_truthy
          [w_completionRatio r; w_cacheRatio r; w_createCacheRatio r; w_imageRatio r; w_audioRatio r; w_audioCompletionRatio r]) in
        let input := t (js "Input") ++ js " $" ++ inputPrice in
        if 0 <? extraCount
        then input ++ js " · " ++ num_to_string (of_Z (Z.of_nat extraCount)) ++ js " " ++ t (js "extras")
        else input
  end.

Definition getPriceDetail (r : ModelRow) : jstr :=
  match w_billingMode r with
  | TieredExpr => if str_truthy (default [] (w_requestRuleExpr r)) then t (js "Includes request rules") else t (js "Expression based")
  | PerRequest => t (js "Fixed request price")
  | PerToken =>
      let inputPrice := ratioToPrice (Some (w_ratio r)) None in
      if negb (str_truthy inputPrice) then t (js "No base input price")
      else
        let detail label r := if str_truthy r then [t (js_of_string label) ++ js " $" ++ ratioToPrice (Some r) (Some inputPrice)] else [] in
        let details := detail "Output" (w_completionRatio r) ++ detail "Cache" (w_cacheRatio r) ++
                       detail "Cache write" (w_createCacheRatio r) in
        match details with [] => t (js "Base input price only") | _ => join (js " · ") details end
  end.
End Summaries.

(** The filters of the table. *)
Definition matches_search (filterValue : jstr) (r : ModelRow) : bool :=
  includes (toLowerCase (w_name r)) (toLowerCase filterValue).

Definition filterBySelectedValues (filterValue : list jstr) (rowValue : jstr) : bool :=
  match filterValue with [] => true | _ => bool_decide (rowValue ∈ filterValue) end.

(** ** Editing *)

(** [handleEdit]: the data given to the price sheet. *)
Definition edit_data (r : ModelRow) : ModelRatioData :=
  {| d_name := w_name r; d_price := Some (w_price r); d_ratio := Some (w_ratio r); d_cacheRatio := Some (w_cacheRatio r);
     d_createCacheRatio := Some (w_createCacheRatio r); d_completionRatio := Some (w_completionRatio r);
     d_imageRatio := Some (w_imageRatio r); d_audioRatio := Some (w_audioRatio r);
     d_audioCompletionRatio := Some (w_audioCompletionRatio r);
     d_billingMode := Some (if decide (w_billingMode r = TieredExpr) then TieredExpr
                            else if str_truthy (w_price r) then PerRequest else PerToken);
     d_billingExpr := w_billingExpr r; d_requestRuleExpr := w_requestRuleExpr r |}.

Definition update (s : Setting) (f : obj jsval → obj jsval) (maps : Maps) : Maps :=
  λ s', if decide (s' = s) then f (maps s') else maps s'.

Definition delete_model (n : jstr) (maps : Maps) : Maps := λ s, obj_delete n (maps s).

Definition setIfPresent (s : Setting) (n : jstr) (value : option jstr) (maps : Maps) : Maps :=
  match value with
  | None | Some [] => maps
  | Some text =>
      let parsed := parseFloat text in
      if isFinite parsed then update s (obj_set n (JNum parsed)) maps else maps
  end.

Definition set_ratios (data : ModelRatioData) (n : jstr) (maps : Maps) : Maps :=
  setIfPresent AudioCompletionRatio n (d_audioCompletionRatio data)
    (setIfPresent AudioRatio n (d_audioRatio data)
       (setIfPresent ImageRatio n (d_imageRatio data)
          (setIfPresent CompletionRatio n (d_completionRatio data)
             (setIfPresent CreateCacheRatio n (d_createCacheRatio data)
                (setIfPresent CacheRatio n (d_cacheRatio data)
                   (setIfPresent ModelRatio n (d_ratio data) maps)))))).

(** One target of [persistPricingData]. *)
Definition persist_one (data : ModelRatioData) (n : jstr) (maps0 : Maps) : Maps :=
  let maps := delete_model n maps0 in
  if decide (d_billingMode data = Some TieredExpr) then
    let combined := combineBillingExpr (default [] (d_billingExpr data)) (default [] (d_requestRuleExpr data)) in
    let maps := if str_truthy combined
                then update BillingExpr (obj_set n (JStr combined))
                       (update BillingMode (obj_set n (JStr (js "tiered_expr"))) maps)
                else maps in
    set_ratios data n (setIfPresent ModelPrice n (d_price data) maps)
  else if str_truthy (default [] (d_price data)) then setIfPresent ModelPrice n (d_price data) maps
  else set_ratios data n maps.

Definition persistPricingData (data : ModelRatioData) (targetNames : list jstr) (maps : Maps) : Maps :=
  fold_left (λ maps n, persist_one data n maps) targetNames maps.

(** ** The editor around the sheet *)

Record Table := {
  texts : Texts;
  editing : option ModelRatioData;   (* [editData] *)
  editorOpen : bool;
  sheetOpen : bool;
  globalFilter : jstr
}.

Definition with_editing (data : option ModelRatioData) (open : bool) (sheet : bool) (tb : Table) : Table :=
  {| texts := texts tb; editing := data; editorOpen := open; sheetOpen := sheet; globalFilter := globalFilter tb |}.

Definition with_texts (f : Texts → Texts) (tb : Table) : Table :=
  {| texts := f (texts tb); editing := editing tb; editorOpen := editorOpen tb; sheetOpen := sheetOpen tb;
     globalFilter := globalFilter tb |}.

Definition handleEdit (isMobile : bool) (r : ModelRow) (tb : Table) : Table :=
  with_editing (Some (edit_data r)) true (isMobile || sheetOpen tb) tb.

Definition handleAdd (isMobile : bool) (tb : Table) : Table := with_editing None true (isMobile || sheetOpen tb) tb.

Definition handleCancel (tb : Table) : Table := with_editing None false false tb.

Definition handleGlobalFilterChange (next : jstr) (tb : Table) : Table :=
  let tb' := if str_eqb next (globalFilter tb) then tb else handleCancel tb in
  {| texts := texts tb'; editing := editing tb'; editorOpen := editorOpen tb'; sheetOpen := sheetOpen tb'; globalFilter := next |}.

(** The handlers that write return [None] where a text is not a record. *)
Definition write_maps (f : Maps → Maps) (tb : Table) : option Table :=
  maps ← read_settings (texts tb);
  Some (with_texts (apply_changes (changes (f maps))) tb).

Definition handleDelete (n : jstr) (tb : Table) : option Table := write_maps (delete_model n) tb.

Definition handleSave (data : ModelRatioData) (tb : Table) : option Table :=
  tb ← write_maps (persistPricingData data [d_name data]) tb;
  Some (with_editing (Some data) true (sheetOpen tb) tb).

(** [handleBatchCopy] on the selected rows that the filters show. *)
Inductive CopyResult := NoSource | NoTarget | Applied (count : nat).

Definition handleBatchCopy (targetNames : list jstr) (tb : Table) : option (CopyResult * Table) :=
  match editing tb with
  | None => Some (NoSource, tb)
  | Some data =>
      match targetNames with
      | [] => Some (NoTarget, tb)
      | _ => tb ← write_maps (persistPricingData data targetNames) tb; Some (Applied (length targetNames), tb)
      end
  end.

(** The sheet's save button: [handleSubmit] of the panel, with the table's
    handlers as its [onSave] and [onCancel]. *)
Definition save_panel (t : jstr → jstr) (st : Panel) (tb : Table) : option Table :=
  match (handleSubmit t st).1 with
  | Refused _ _ => Some tb
  | Saved data => tb ← handleSave data tb; Some (handleCancel tb)
  end.
