(* ===== verification/PriceSettingsFacts.v ===== *)
(** * Facts about the price settings

    What the records hold after a model was saved, copied or deleted, through
    the JSON texts they are kept in; the rows of the table; the sheet and the
    table together. *)

From S2P Require Import Prelude JsNumber JsString JsRegex JsValue JsonFacts JsonRoundtrip Host BillingExpr BillingSplit BillingRules.
From S2P Require Import PricingSheet PricingSheetFacts PriceSettings.

Open Scope nat_scope.

(** ** Records as texts *)

Definition writable (o : obj jsval) : Prop := NoDup (map fst o) ∧ Forall (λ kv, utf16_ok kv.1 ∧ expressible kv.2) o.

Lemma pretty_object o : json_pretty (JObj o) = bracketed true 0 123 125
  (omap (λ kv, option_map (λ t, json_quote kv.1 ++ js ": " ++ t) kv.2) (own_entries (map (λ kv, (kv.1, stringify true 1 kv.2)) o))).
Proof. reflexivity. Qed.

Lemma pretty_own o : json_pretty (JObj o) = json_pretty (JObj (own_entries o)).
Proof.
  rewrite !pretty_object. by rewrite !(own_entries_map (stringify true 1)), own_entries_idemp.
Qed.

Lemma pretty_trimmed o : ∃ m, json_pretty (JObj o) = 123%N :: m ++ [125%N].
Proof.
  rewrite pretty_object. unfold bracketed. destruct (omap _ _) as [|x l]; [by exists []|].
  exists (line_break true 1 ++ join (44%N :: line_break true 1) (x :: l) ++ line_break true 0). by rewrite <- !app_assoc.
Qed.

Lemma pretty_trim o : trim (json_pretty (JObj o)) = json_pretty (JObj o).
Proof.
  destruct (pretty_trimmed o) as [m ->]. apply trim_id. change (123%N :: m ++ [125%N]) with ([123%N] ++ m ++ [125%N]).
  apply trimmed_mid; [done|done|by apply trimmed_b|by apply trimmed_b].
Qed.

(** A record read from the text it was written to has the same entries, in the
    order of enumeration. *)
Lemma record_roundtrip o : writable o → read_record (json_pretty (JObj o)) = Some (own_entries o).
Proof.
  intros [Hd Hv]. unfold read_record, safeJsonParse. destruct (pretty_trimmed o) as [m E].
  rewrite pretty_trim. replace (_ || _) with false by (rewrite E; reflexivity). rewrite pretty_own.
  destruct (json_roundtrip (JObj (own_entries o))) as [_ ->]; [|done].
  apply expressible_obj. split; [apply own_entries_idemp|]. split; [by apply own_keys_NoDup|].
  by rewrite own_entries_perm.
Qed.

(** ** Writing the settings *)

Lemma all_settings_all s : s ∈ all_settings.
Proof. destruct s; unfold all_settings; rewrite !elem_of_cons; tauto. Qed.

Lemma applied maps texts s : apply_changes (changes maps) texts s = json_pretty (JObj (maps s)).
Proof. by destruct s. Qed.

Lemma read_settings_all texts (maps : Maps) : (∀ s, read_record (texts s) = Some (maps s)) →
  read_settings texts = Some (λ s, default [] (read_record (texts s))).
Proof.
  intros Hr. unfold read_settings. replace (forallb _ all_settings) with true; [done|].
  symmetry. apply forallb_forall. intros s _. rewrite Hr. by apply bool_decide_eq_true_2.
Qed.

(** The settings after a handler has written them. *)
Lemma written f tb maps : read_settings (texts tb) = Some maps → (∀ s, writable (f maps s)) →
  ∃ tb' maps', write_maps f tb = Some tb' ∧ read_settings (texts tb') = Some maps' ∧
    editing tb' = editing tb ∧ editorOpen tb' = editorOpen tb ∧ sheetOpen tb' = sheetOpen tb ∧ globalFilter tb' = globalFilter tb ∧
    ∀ s, maps' s = own_entries (f maps s).
Proof.
  intros Hr Hw. unfold write_maps. rewrite Hr. cbn [mbind option_bind].
  assert (Hrec : ∀ s, read_record (apply_changes (changes (f maps)) (texts tb) s) = Some (own_entries (f maps s))).
  { intros s. rewrite applied. by apply record_roundtrip. }
  eexists _, _. split; [reflexivity|]. split; [by apply (read_settings_all _ (λ s, own_entries (f maps s)))|].
  split_and!; try done. intros s. cbn [texts with_texts]. by rewrite Hrec.
Qed.

(** ** What saving means *)

(** The field of the data behind a numeric setting. *)
Definition numeric_field (s : Setting) (data : ModelRatioData) : option jstr :=
  match s with
  | ModelPrice => d_price data
  | ModelRatio => d_ratio data
  | CacheRatio => d_cacheRatio data
  | CreateCacheRatio => d_createCacheRatio data
  | CompletionRatio => d_completionRatio data
  | ImageRatio => d_imageRatio data
  | AudioRatio => d_audioRatio data
  | AudioCompletionRatio => d_audioCompletionRatio data
  | BillingMode | BillingExpr => None
  end.

Definition number_entry (value : option jstr) : option jsval :=
  match value with
  | None | Some [] => None
  | Some text => if isFinite (parseFloat text) then Some (JNum (parseFloat text)) else None
  end.

Definition combined_expr (data : ModelRatioData) : jstr :=
  combineBillingExpr (default [] (d_billingExpr data)) (default [] (d_requestRuleExpr data)).

(** The entry a model has in a setting after it was saved: an expression keeps
    every number beside it, a price stands alone, ratios stand without a price. *)
Definition saved_entry (data : ModelRatioData) (s : Setting) : option jsval :=
  let tiered := bool_decide (d_billingMode data = Some TieredExpr) in
  match s with
  | BillingMode => if tiered && str_truthy (combined_expr data) then Some (JStr (js "tiered_expr")) else None
  | BillingExpr => if tiered && str_truthy (combined_expr data) then Some (JStr (combined_expr data)) else None
  | ModelPrice => number_entry (d_price data)
  | _ => if tiered || negb (str_truthy (default [] (d_price data))) then number_entry (numeric_field s data) else None
  end.

Lemma update_get s f maps s' : update s f maps s' = if decide (s' = s) then f (maps s') else maps s'.
Proof. reflexivity. Qed.

Lemma setIfPresent_get s n value maps s' m : m ≠ n → obj_get m (setIfPresent s n value maps s') = obj_get m (maps s').
Proof.
  intros Hm. unfold setIfPresent. destruct value as [[|c text]|]; try done. destruct (isFinite _); [|done].
  rewrite update_get. case_decide; [|done]. by rewrite obj_get_set_ne.
Qed.

Lemma setIfPresent_other s n value maps s' : s' ≠ s → setIfPresent s n value maps s' = maps s'.
Proof.
  intros Hs. unfold setIfPresent. destruct value as [[|c text]|]; try done. destruct (isFinite _); [|done].
  rewrite update_get. by rewrite decide_False.
Qed.

Lemma setIfPresent_new s n value maps : obj_get n (maps s) = None →
  obj_get n (setIfPresent s n value maps s) = number_entry value.
Proof.
  intros Hn. unfold setIfPresent, number_entry. destruct value as [[|c text]|]; try done. destruct (isFinite _); [|done].
  rewrite update_get, decide_True by done. by rewrite obj_get_set_eq.
Qed.

Lemma set_ratios_other data n maps s m : m ≠ n → obj_get m (set_ratios data n maps s) = obj_get m (maps s).
Proof. intros Hm. unfold set_ratios. by rewrite !setIfPresent_get. Qed.

Lemma set_ratios_kept data n maps s : s ∈ [ModelPrice; BillingMode; BillingExpr] → set_ratios data n maps s = maps s.
Proof.
  intros Hs. unfold set_ratios. rewrite !elem_of_cons, elem_of_nil in Hs.
  repeat (rewrite setIfPresent_other by naive_solver). done.
Qed.

Lemma set_ratios_new data n maps s : s ∉ [ModelPrice; BillingMode; BillingExpr] → obj_get n (maps s) = None →
  obj_get n (set_ratios data n maps s) = number_entry (numeric_field s data).
Proof.
  intros Hs Hn. unfold set_ratios.
  destruct s; try (exfalso; apply Hs; rewrite !elem_of_cons; tauto);
    repeat (rewrite setIfPresent_other by done); (rewrite setIfPresent_new; [done|]);
    repeat (rewrite setIfPresent_other by done); done.
Qed.

Lemma get_delete {V} m n (o : obj V) : obj_get m (obj_delete n o) = if decide (m = n) then None else obj_get m o.
Proof.
  rewrite obj_get_delete. case_decide; [subst; by rewrite str_eqb_refl|].
  unfold str_eqb. by rewrite bool_decide_eq_false_2.
Qed.

Lemma deleted_get n maps s m : obj_get m (delete_model n maps s) = if decide (m = n) then None else obj_get m (maps s).
Proof. apply get_delete. Qed.

Lemma persist_other data n maps s m : m ≠ n → obj_get m (persist_one data n maps s) = obj_get m (maps s).
Proof.
  intros Hm. unfold persist_one. cbv zeta. assert (Hd : ∀ s, obj_get m (delete_model n maps s) = obj_get m (maps s)).
  { intros s'. by rewrite deleted_get, decide_False. }
  case_decide; [|case_match].
  - rewrite set_ratios_other, setIfPresent_get by done. case_match; [|done].
    rewrite !update_get. repeat case_decide; by rewrite ?obj_get_set_ne.
  - by rewrite setIfPresent_get.
  - by rewrite set_ratios_other.
Qed.

Lemma persist_own data n maps s : obj_get n (persist_one data n maps s) = saved_entry data s.
Proof.
  unfold persist_one, saved_entry. cbv zeta. fold (combined_expr data).
  assert (Hd : ∀ s, obj_get n (delete_model n maps s) = None).
  { intros s'. by rewrite deleted_get, decide_True. }
  destruct (decide (d_billingMode data = Some TieredExpr)) as [Ht|Ht].
  - rewrite bool_decide_eq_true_2 by done. cbn [andb orb].
    set (maps1 := if str_truthy (combined_expr data) then _ else _).
    assert (H1 : ∀ s, s ∉ [BillingMode; BillingExpr] → obj_get n (maps1 s) = None).
    { intros s' Hs'. unfold maps1. case_match; [|done]. rewrite !update_get.
      rewrite !decide_False; [done|..]; intros ->; apply Hs'; rewrite !elem_of_cons; tauto. }
    destruct (decide (s ∈ [ModelPrice; BillingMode; BillingExpr])) as [Hs|Hs].
    + rewrite set_ratios_kept by done.
      rewrite !elem_of_cons, elem_of_nil in Hs. destruct Hs as [->|[->|[->|[]]]].
      * apply setIfPresent_new, H1. rewrite !elem_of_cons, elem_of_nil. naive_solver.
      * rewrite setIfPresent_other by done. unfold maps1. case_match; [|done]. rewrite !update_get. rewrite decide_False, decide_True by done. by rewrite obj_get_set_eq.
      * rewrite setIfPresent_other by done. unfold maps1. case_match; [|done]. rewrite update_get, decide_True by done. by rewrite obj_get_set_eq.
    + rewrite set_ratios_new; [by destruct s; try (exfalso; apply Hs; rewrite !elem_of_cons; tauto)|done|].
      rewrite setIfPresent_other by (intros ->; apply Hs; rewrite !elem_of_cons; tauto). apply H1.
      rewrite !elem_of_cons in *. tauto.
  - rewrite bool_decide_eq_false_2 by done. cbn [andb orb]. destruct (d_price data) as [[|c p]|] eqn:Ep; cbn [from_option id str_truthy negb].
    1, 3: (destruct s; try (by rewrite set_ratios_new; [|rewrite !elem_of_cons, elem_of_nil; naive_solver|]);
      (rewrite set_ratios_kept by (rewrite !elem_of_cons; tauto)); by rewrite Hd).
    destruct s; try (rewrite setIfPresent_other by done; apply Hd). by apply setIfPresent_new.
Qed.

Lemma persist_get data targets maps s m :
  obj_get m (persistPricingData data targets maps s) =
  if decide (m ∈ targets) then saved_entry data s else obj_get m (maps s).
Proof.
  unfold persistPricingData. revert maps. induction targets as [|n targets IH]; intros maps.
  - rewrite decide_False by set_solver. done.
  - cbn [fold_left]. rewrite IH. destruct (decide (m ∈ targets)) as [Hm|Hm]; [by rewrite decide_True by set_solver|].
    destruct (decide (m = n)) as [->|Hn].
    + rewrite decide_True by set_solver. apply persist_own.
    + rewrite decide_False by set_solver. by apply persist_other.
Qed.

Lemma persist_single data n maps s : obj_get n (persistPricingData data [n] maps s) = saved_entry data s.
Proof. apply persist_own. Qed.

(** ** Records stay writable *)

Lemma writable_set k v o : writable o → utf16_ok k → expressible v → writable (obj_set k v o).
Proof.
  intros [Hd Hv] Hk He. split; [by apply NoDup_keys_set|]. clear Hd.
  induction Hv as [|[j w] o Hj Hv IH]; cbn [obj_set]; [by repeat constructor|].
  destruct (str_eqb k j) eqn:E; [|by constructor]. apply str_eqb_eq in E as ->. constructor; [done|exact Hv].
Qed.

Lemma writable_delete k o : writable o → writable (obj_delete k o).
Proof.
  intros [Hd Hv]. unfold obj_delete. split.
  - by apply NoDup_keys_delete.
  - rewrite Forall_forall in *. intros kv [_ Hkv]%list_elem_of_filter. by apply Hv.
Qed.

Lemma writable_own o : writable o → writable (own_entries o).
Proof. intros [Hd Hv]. split; [by apply own_keys_NoDup|]. by rewrite own_entries_perm. Qed.

(** What the sheet saves can be printed: its numbers, and its expression. *)
Definition data_writable (data : ModelRatioData) : Prop :=
  (∀ s x, number_entry (numeric_field s data) = Some (JNum x) → num_prints x) ∧ utf16_ok (combined_expr data).

Lemma writable_setIfPresent s n value maps : (∀ s, writable (maps s)) → utf16_ok n →
  (∀ x, number_entry value = Some (JNum x) → num_prints x) → ∀ s', writable (setIfPresent s n value maps s').
Proof.
  intros Hw Hn Hx s'. unfold setIfPresent, number_entry in *. destruct value as [[|c text]|]; try apply Hw.
  destruct (isFinite _) eqn:E; [|apply Hw]. rewrite update_get. case_decide; [|apply Hw].
  apply writable_set; [apply Hw|done|]. by apply Hx.
Qed.

Lemma writable_ratios data n maps : (∀ s, writable (maps s)) → utf16_ok n → data_writable data →
  ∀ s, writable (set_ratios data n maps s).
Proof.
  intros Hw Hn [Hx _]. unfold set_ratios.
  repeat (apply writable_setIfPresent; [|done|first [exact (Hx ModelRatio)|exact (Hx CacheRatio)|exact (Hx CreateCacheRatio)
    |exact (Hx CompletionRatio)|exact (Hx ImageRatio)|exact (Hx AudioRatio)|exact (Hx AudioCompletionRatio)]]).
  exact Hw.
Qed.

Lemma writable_persist data n maps : (∀ s, writable (maps s)) → utf16_ok n → data_writable data →
  ∀ s, writable (persist_one data n maps s).
Proof.
  intros Hw Hn Hdata. pose proof Hdata as [Hx Hc].
  assert (Hd : ∀ s, writable (delete_model n maps s)) by (intros s; apply writable_delete, Hw).
  unfold persist_one. cbv zeta. fold (combined_expr data). case_decide; [|case_match].
  - apply writable_ratios; [|done|done]. apply writable_setIfPresent; [|done|apply (Hx ModelPrice)]. case_match; [|done].
    intros s. rewrite !update_get. assert (utf16_ok (js "tiered_expr")) by (apply (bool_decide_unpack _); vm_compute; exact I).
    repeat case_decide; repeat (apply writable_set; [|done|done]); apply Hd.
  - apply writable_setIfPresent; [done|done|apply (Hx ModelPrice)].
  - by apply writable_ratios.
Qed.

Lemma writable_persist_all data targets maps : (∀ s, writable (maps s)) → Forall utf16_ok targets → data_writable data →
  ∀ s, writable (persistPricingData data targets maps s).
Proof.
  intros Hw Ht Hd. revert maps Hw. induction Ht as [|n targets Hn _ IH]; intros maps Hw; [done|].
  unfold persistPricingData. cbn [fold_left]. apply IH. by apply writable_persist.
Qed.

(** ** The handlers of the table *)

(** The settings of a table, written and read back: their entries, by model and
    setting. *)
Definition holds (tb : Table) (entry : Setting → jstr → option jsval) : Prop :=
  ∃ maps, read_settings (texts tb) = Some maps ∧ (∀ s, writable (maps s)) ∧ ∀ s m, obj_get m (maps s) = entry s m.

Lemma written_holds f tb maps : read_settings (texts tb) = Some maps → (∀ s, writable (f maps s)) →
  ∃ tb', write_maps f tb = Some tb' ∧ holds tb' (λ s m, obj_get m (f maps s)) ∧
    editing tb' = editing tb ∧ editorOpen tb' = editorOpen tb ∧ sheetOpen tb' = sheetOpen tb ∧ globalFilter tb' = globalFilter tb.
Proof.
  intros Hr Hw. destruct (written f tb maps Hr Hw) as (tb' & maps' & E & Hr' & H1 & H2 & H3 & H4 & Hm).
  exists tb'. split; [done|]. split; [|done]. exists maps'. split; [done|]. split.
  - intros s. rewrite Hm. apply writable_own, Hw.
  - intros s m. rewrite Hm. apply obj_get_own, Hw.
Qed.

Lemma holds_ext tb e e' : (∀ s m, e s m = e' s m) → holds tb e → holds tb e'.
Proof. intros He (maps & Hr & Hw & Hm). exists maps. split; [done|]. split; [done|]. intros s m. by rewrite Hm. Qed.

Lemma save_holds data targets tb e : holds tb e → Forall utf16_ok targets → data_writable data →
  ∃ tb', write_maps (persistPricingData data targets) tb = Some tb' ∧
    holds tb' (λ s m, if decide (m ∈ targets) then saved_entry data s else e s m) ∧
    editing tb' = editing tb ∧ editorOpen tb' = editorOpen tb ∧ sheetOpen tb' = sheetOpen tb ∧ globalFilter tb' = globalFilter tb.
Proof.
  intros (maps & Hr & Hw & Hm) Ht Hd.
  destruct (written_holds (persistPricingData data targets) tb maps Hr) as (tb' & E & Hh & Hrest); [by apply writable_persist_all|].
  exists tb'. split; [done|]. split; [|done]. eapply holds_ext; [|exact Hh]. intros s m. cbv beta. rewrite persist_get.
  by rewrite Hm.
Qed.

(** C5. The handlers of the table refine operations on a table from settings and
    models to entries, through the ten JSON texts that they parse and print:
    saving writes what the data say at one model, copying at every target,
    deleting removes the model from all settings, and no handler changes an
    entry of any other model. *)
Theorem table_refines tb e data : holds tb e → utf16_ok (d_name data) → data_writable data →
  (∃ tb', handleSave data tb = Some tb' ∧ holds tb' (λ s m, if decide (m = d_name data) then saved_entry data s else e s m)) ∧
  (∀ targets, targets ≠ [] → Forall utf16_ok targets → editing tb = Some data →
     ∃ tb', handleBatchCopy targets tb = Some (Applied (length targets), tb') ∧
       holds tb' (λ s m, if decide (m ∈ targets) then saved_entry data s else e s m)) ∧
  (∀ n, ∃ tb', handleDelete n tb = Some tb' ∧ holds tb' (λ s m, if decide (m = n) then None else e s m)).
Proof.
  intros Hh Hn Hd. split_and!.
  - destruct (save_holds data [d_name data] tb e Hh) as (tb' & E & Hh' & _); [by constructor|done|].
    unfold handleSave. rewrite E. eexists. split; [reflexivity|]. eapply holds_ext; [|exact Hh']. intros s m. cbv beta.
    destruct (decide (m = d_name data)) as [->|Hm]; [by rewrite decide_True by set_solver|by rewrite decide_False by set_solver].
  - intros targets Hne Ht He. destruct (save_holds data targets tb e Hh Ht Hd) as (tb' & E & Hh' & _).
    unfold handleBatchCopy. rewrite He. destruct targets as [|n targets]; [done|]. rewrite E. by eexists.
  - intros n. destruct Hh as (maps & Hr & Hw & Hm).
    destruct (written_holds (delete_model n) tb maps Hr) as (tb' & E & Hh' & _); [intros s; apply writable_delete, Hw|].
    exists tb'. split; [done|]. eapply holds_ext; [|exact Hh']. intros s m. cbv beta. rewrite deleted_get. by rewrite Hm.
Qed.

(** ** The sheet and the table *)

(** Nothing but the price field changes the price in the form. *)
Definition types_price (ev : Event) : bool := match ev with TypePrice _ => true | _ => false end.

Lemma price_kept ev st : types_price ev = false → price (form (dispatch ev st)) = price (form st).
Proof.
  intros Hev. destruct ev as [s|s|s|k s|k b|m|b|s|s]; try discriminate; cbn [dispatch].
  - by destruct (editData st).
  - case_decide; [|done]. unfold handlePromptPriceChange. by destruct (negb _).
  - destruct (_ && _); [|done]. unfold handleLanePriceChange. destruct (negb _); [done|].
    cbn [with_form form]. destruct (bool_decide _ && _), (lane (laneEnabled st) k), k; done.
  - destruct (_ && _); [|done]. unfold handleLaneToggle. destruct b; [by destruct k|].
    case_decide; [by subst|by destruct k].
  - done.
  - done.
  - by case_decide.
  - by case_decide.
Qed.

Lemma run_price_kept evs st : Forall (λ ev, types_price ev = false) evs → price (form (run evs st)) = price (form st).
Proof.
  intros H. revert st. induction H as [|ev evs Hev _ IH]; intros st; [done|]. cbn [run fold_left].
  change (price (form (run evs (dispatch ev st))) = price (form st)). rewrite IH. by apply price_kept.
Qed.

(** C40. Switching a model from a price per request to prices per token is not
    saved as long as the price per request itself is not edited: the sheet sends
    the old price along, and the table goes by the price and not by the mode.
    Whatever prices per token were entered, the model keeps its price per request
    and none of the ratios is stored.  (Clearing the price before switching is
    saved.) *)
Theorem switch_to_tokens_ignored d evs maps n :
  let st := run evs (load (Some d)) in
  default [] (d_price d) ≠ [] → Forall (λ ev, types_price ev = false) evs → pricingMode st = PerToken →
  let maps' := persistPricingData (submitted st) [n] maps in
  obj_get n (maps' ModelPrice) = number_entry (d_price d) ∧
  ∀ s, s ≠ ModelPrice → obj_get n (maps' s) = None.
Proof.
  intros st Hp Hevs Hm maps'. unfold maps'.
  assert (Hprice : d_price (submitted st) = Some (default [] (d_price d))).
  { unfold submitted. cbn [d_price]. f_equal. unfold st. by rewrite run_price_kept. }
  assert (Hmode : d_billingMode (submitted st) = Some PerToken) by (unfold submitted; cbn [d_billingMode]; by rewrite Hm).
  split.
  - rewrite persist_single. unfold saved_entry. rewrite Hprice. by destruct (d_price d) as [[]|].
  - intros s Hs. rewrite persist_single. unfold saved_entry. rewrite Hprice, Hmode.
    rewrite bool_decide_eq_false_2 by done. destruct (d_price d) as [[]|]; try done. by destruct s.
Qed.

(** ** Opening and saving *)

(** An entry that the table prints and the sheet reads back as the same number. *)
Definition stable_number (v : option jsval) : Prop :=
  v = None ∨ ∃ x, v = Some (JNum x) ∧ isFinite x = true ∧ num_to_string x ≠ [] ∧ parseFloat (num_to_string x) = x.

Lemma stable_entry o n : stable_number (obj_get n o) → number_entry (Some (entry_text o n)) = obj_get n o.
Proof.
  intros [E|(x & E & Hf & Hne & Hp)]; unfold entry_text; rewrite E; [done|]. cbn [to_string]. unfold number_entry.
  rewrite Hp, Hf. by destruct (num_to_string x).
Qed.

Lemma stable_empty o n : stable_number (obj_get n o) → str_truthy (entry_text o n) = false → obj_get n o = None.
Proof.
  intros [E|(x & E & _ & Hne & _)]; unfold entry_text; rewrite E; [done|]. cbn [to_string]. by destruct (num_to_string x).
Qed.

Definition numeric (s : Setting) : bool := match s with BillingMode | BillingExpr => false | _ => true end.

(** The fields of a row, by setting. *)
Definition row_text (s : Setting) (r : ModelRow) : jstr :=
  match s with
  | ModelPrice => w_price r
  | ModelRatio => w_ratio r
  | CacheRatio => w_cacheRatio r
  | CreateCacheRatio => w_createCacheRatio r
  | CompletionRatio => w_completionRatio r
  | ImageRatio => w_imageRatio r
  | AudioRatio => w_audioRatio r
  | AudioCompletionRatio => w_audioCompletionRatio r
  | BillingMode | BillingExpr => []
  end.

Lemma row_fields maps n r : row_of maps n = Ret r → w_name r = n ∧ ∀ s, numeric s = true → row_text s r = entry_text (maps s) n.
Proof.
  unfold row_of. cbv zeta. case_match.
  - destruct (js_or _ _); try done. unfold mbind, outcome_bind. destruct (splitBillingExprAndRequestRules _) as [[b q]|]; [|done].
    intros [= <-]. split; [done|]. by intros [].
  - intros [= <-]. split; [done|]. by intros [].
Qed.

(** What a row is saved as when it is opened and saved without a change. *)
Definition resaved (r : ModelRow) : ModelRatioData := submitted (load (Some (edit_data r))).

Lemma resaved_field r s : numeric s = true → numeric_field s (resaved r) = Some (row_text s r).
Proof. by destruct s. Qed.

Lemma resaved_mode r : d_billingMode (resaved r) =
  Some (if decide (w_billingMode r = TieredExpr) then TieredExpr else if str_truthy (w_price r) then PerRequest else PerToken).
Proof.
  unfold resaved, submitted. cbn [d_billingMode]. change (pricingMode (load (Some (edit_data r)))) with (mode_of (edit_data r)).
  unfold mode_of, edit_data. cbn [d_billingMode d_price from_option id]. f_equal.
  destruct (decide (w_billingMode r = TieredExpr)); [by rewrite decide_True|].
  destruct (str_truthy (w_price r)); by rewrite decide_False.
Qed.

Lemma resaved_plain r : w_billingMode r ≠ TieredExpr → bool_decide (d_billingMode (resaved r) = Some TieredExpr) = false.
Proof.
  intros H. rewrite resaved_mode, decide_False by done. apply bool_decide_eq_false_2. by destruct (str_truthy (w_price r)).
Qed.

Lemma conflict_free maps n r s : row_of maps n = Ret r → w_billingMode r ≠ TieredExpr → w_hasConflict r = false →
  str_truthy (w_price r) = true → numeric s = true → s ≠ ModelPrice → str_truthy (entry_text (maps s) n) = false.
Proof.
  unfold row_of. cbv zeta. case_match.
  - destruct (js_or _ _); try done. unfold mbind, outcome_bind. destruct (splitBillingExprAndRequestRules _) as [[b q]|]; [|done].
    by intros [= <-].
  - intros [= <-] _ Hc Hp Hs Hne. cbn [w_hasConflict w_price] in *. rewrite Hp in Hc. cbn [andb] in Hc.
    rewrite !orb_false_iff in Hc. by destruct s; naive_solver.
Qed.

(** C24. Opening a model with a price per request or prices per token and saving
    it without a change leaves every one of its settings as it was, under the same
    name.  The model has no billing expression (those are opened in the tiered
    editor, which prints them anew), no price beside ratios, a name without blanks
    around it, and numbers that are read back as they are printed. *)
Theorem resave_unchanged maps n r : trimmed n → row_of maps n = Ret r → w_billingMode r ≠ TieredExpr → w_hasConflict r = false →
  obj_get n (maps BillingMode) = None → obj_get n (maps BillingExpr) = None →
  (∀ s, numeric s = true → stable_number (obj_get n (maps s))) →
  d_name (resaved r) = n ∧ ∀ s, obj_get n (persistPricingData (resaved r) [n] maps s) = obj_get n (maps s).
Proof.
  intros Htr Hr Ht Hc Hm He Hnum. destruct (row_fields maps n r Hr) as [Hname Htext]. split.
  { change (trim (w_name r) = n). rewrite Hname. by apply trim_id. }
  intros s. rewrite persist_single.
  assert (Hentry : ∀ s, numeric s = true → number_entry (numeric_field s (resaved r)) = obj_get n (maps s)).
  { intros s' Hs'. rewrite resaved_field, Htext by done. by apply stable_entry, Hnum. }
  unfold saved_entry. rewrite (resaved_plain r Ht). cbn [andb orb].
  change (d_price (resaved r)) with (Some (w_price r)). cbn [from_option id]. destruct (str_truthy (w_price r)) eqn:Ep; cbn [negb].
  - assert (Hnone : ∀ s, numeric s = true → s ≠ ModelPrice → None = obj_get n (maps s)).
    { intros s' H1 H2. symmetry. apply stable_empty; [by apply Hnum|]. by eapply conflict_free. }
    destruct s; try (by apply Hnone); [exact (Hentry ModelPrice eq_refl)|by symmetry..].
  - destruct s; first [by symmetry|match goal with |- _ = obj_get n (maps ?s) => exact (Hentry s eq_refl) end].
Qed.

(** ** The rows *)

Lemma mapM_outcome {A B} (f : A → outcome B) l ys : mapM f l = Ret ys ↔ Forall2 (λ x y, f x = Ret y) l ys.
Proof.
  split.
  - revert ys. induction l as [|x l IH]; intros ys; cbn [mapM]; [by intros [= <-]; constructor|].
    unfold mbind, outcome_bind. destruct (f x) as [y|] eqn:E; [|done]. destruct (mapM f l) as [ys'|]; [|done].
    intros [= <-]. constructor; [done|]. by apply IH.
  - induction 1 as [|x y l ys E _ IH]; cbn [mapM]; [done|]. rewrite E. cbn [mbind outcome_bind]. by rewrite IH.
Qed.

Lemma obj_key_get {V} k (o : obj V) : k ∈ map fst o ↔ ∃ v, obj_get k o = Some v.
Proof.
  split; [|intros [v Hv]; by eapply obj_get_key]. induction o as [|[j w] o IH]; cbn [map fst obj_get]; [by intros ?%elem_of_nil|].
  rewrite elem_of_cons. intros [->|Hk]; [rewrite str_eqb_refl; eauto|]. destruct (str_eqb k j); eauto.
Qed.

Lemma elem_of_model_names maps n : n ∈ model_names maps ↔ ∃ s v, obj_get n (maps s) = Some v.
Proof.
  unfold model_names. rewrite elem_of_set_of_list, list_elem_of_In, in_concat. split.
  - intros (ks & Hks & Hn). apply in_map_iff in Hks as (s & <- & _). exists s. apply obj_key_get.
    rewrite <- list_elem_of_In in Hn. unfold own_keys in Hn. by rewrite own_entries_perm in Hn.
  - intros (s & Hv). apply obj_key_get in Hv. exists (own_keys (maps s)). split.
    + apply in_map_iff. exists s. split; [done|]. rewrite <- list_elem_of_In. apply all_settings_all.
    + rewrite <- list_elem_of_In. unfold own_keys. by rewrite own_entries_perm.
Qed.

Section Listing.
Context `{!Host} {HC : Collation _}.

#[local] Instance row_order : StrictWeak row_before.
Proof.
  destruct (collation_strict_weak) as [Ha Hn]. split.
  - intros x y. apply Ha.
  - intros x y z. apply Hn.
Qed.

(** The table lists every model that has an entry in any of the ten settings
    once, in the order of the names, each with the row of its entries. *)
Theorem models_listed maps rows : models maps = Ret rows →
  NoDup (map w_name rows) ∧
  (∀ n, n ∈ map w_name rows ↔ ∃ s v, obj_get n (maps s) = Some v) ∧
  Forall (λ r, row_of maps (w_name r) = Ret r) rows ∧
  StronglySorted (λ a b, n_lt (localeCompare (w_name b) (w_name a)) (of_Z 0) = false) rows.
Proof.
  unfold models, mbind, outcome_bind. destruct (mapM _ _) as [ys|] eqn:E; [|done]. intros [= <-].
  apply mapM_outcome in E.
  assert (Hn : map w_name ys = model_names maps).
  { clear HC. induction E as [|n r ns ys Hr _ IH]; [done|]. cbn [map]. rewrite IH. by destruct (row_fields maps n r Hr) as [-> _]. }
  assert (Hp : map w_name (sort_stable row_before ys) ≡ₚ model_names maps) by by rewrite sort_stable_perm, Hn.
  split_and!.
  - rewrite Hp. apply NoDup_set_of_list.
  - intros n. rewrite Hp. apply elem_of_model_names.
  - rewrite sort_stable_perm. clear Hn Hp HC. induction E as [|n r ns ys Hr _ IH]; constructor; [|done].
    by destruct (row_fields maps n r Hr) as [-> _].
  - apply (sort_stable_sorted row_before).
Qed.
End Listing.

(** ** Saving the settings *)

(** Opening the settings and saving them without a change sends nothing: each
    text is shown indented and compared in compact form, whether it is empty, a
    JSON object or no JSON at all. *)
Theorem untouched_settings_not_sent (defaults : Texts) expose :
  (∀ s, trimmed (defaults s) ∧ match json_parse (defaults s) with Some v => expressible v ∧ ∃ o, v = JObj o | None => True end) →
  saveModelRatios defaults expose (λ s, formatJsonForTextarea (defaults s)) expose = [].
Proof.
  intros Hd.
  assert (Hs : ∀ s, normalizeJsonString (formatJsonForTextarea (defaults s)) = normalizeJsonString (defaults s)).
  { intros s. destruct (Hd s) as [Ht Hv]. unfold formatJsonForTextarea. rewrite (trim_id _ Ht).
    destruct (str_truthy (defaults s)) eqn:Et; cbn [negb orb].
    - destruct (json_parse (defaults s)) as [v|] eqn:Ep; [|done].
      destruct Hv as [Hv [o ->]]. destruct (json_roundtrip _ Hv) as [_ Hr].
      unfold normalizeJsonString. rewrite (trim_id (defaults s) Ht), Et, Ep. cbn [negb].
      rewrite pretty_trim, Hr. by destruct (pretty_trimmed o) as [m ->].
    - by destruct (defaults s). }
  unfold saveModelRatios, text_updates. rewrite eqb_reflx. cbn [app].
  assert (Hf : ∀ ss, List.filter (λ s, negb (str_eqb (normalizeJsonString (formatJsonForTextarea (defaults s)))
                       (normalizeJsonString (defaults s)))) ss = []).
  { induction ss as [|s ss IH]; [done|]. cbn [List.filter]. rewrite Hs, str_eqb_refl. exact IH. }
  by rewrite !Hf.
Qed.

(** ** Examples *)

Definition sample_texts : Texts := λ s,
  match s with
  | ModelPrice => quoted "{'dall-e':0.04}"
  | ModelRatio => quoted "{'gpt':1.25}"
  | CompletionRatio => quoted "{'gpt':4}"
  | _ => []
  end.

Definition sample_maps : Maps := λ s, default [] (read_record (sample_texts s)).

Definition sample_table : Table :=
  {| texts := sample_texts; editing := Some (stored (Some (js "1.5")) (Some (js "5")) None); editorOpen := true; sheetOpen := false;
     globalFilter := [] |}.

Definition writableb (o : obj jsval) : bool :=
  bool_decide (NoDup (map fst o)) && forallb (λ kv, bool_decide (utf16_ok kv.1) && expressibleb kv.2) o.

Lemma writableb_ok o : writableb o = true → writable o.
Proof.
  intros [Hd%bool_decide_eq_true Hv]%andb_prop. split; [done|]. rewrite forallb_forall in Hv. rewrite Forall_forall.
  intros kv Hkv%list_elem_of_In. apply Hv in Hkv as [H1%bool_decide_eq_true H2]%andb_prop. split; [done|].
  by apply expressibleb_ok.
Qed.

Lemma sample_holds : holds sample_table (λ s m, obj_get m (sample_maps s)).
Proof.
  exists sample_maps. split; [|split; [|reflexivity]].
  { apply (read_settings_all sample_texts sample_maps). intros s. destruct s; vm_compute; reflexivity. }
  intros s. apply writableb_ok. destruct s; vm_compute; reflexivity.
Qed.

Lemma stored_writable : data_writable (stored (Some (js "1.5")) (Some (js "5")) None).
Proof.
  split; [|apply (bool_decide_unpack _); vm_compute; exact I].
  intros s x Hx. destruct s; vm_compute in Hx; try discriminate Hx; injection Hx as <-; apply num_printsb_ok; vm_compute; reflexivity.
Qed.

Lemma table_refines_witness :
  ∃ tb', handleBatchCopy [js "gpt"; js "dall-e"] sample_table = Some (Applied 2, tb') ∧
    ∃ maps, read_settings (texts tb') = Some maps ∧ obj_get (js "dall-e") (maps ModelPrice) = None ∧
      obj_get (js "dall-e") (maps CompletionRatio) = Some (JNum (of_Z 5)).
Proof.
  destruct (table_refines sample_table _ (stored (Some (js "1.5")) (Some (js "5")) None) sample_holds) as (_ & Hcopy & _).
  - apply (bool_decide_unpack _). vm_compute. exact I.
  - exact stored_writable.
  - destruct (Hcopy [js "gpt"; js "dall-e"]) as (tb' & E & maps & Hr & _ & Hm).
    + discriminate.
    + apply (bool_decide_unpack _). vm_compute. exact I.
    + reflexivity.
    + exists tb'. split; [exact E|]. exists maps. split; [exact Hr|]. rewrite !Hm. split; vm_compute; reflexivity.
Defined.

Lemma switch_to_tokens_ignored_witness :
  let row := edit_data {| w_name := js "dall-e"; w_price := js "0.04"; w_ratio := []; w_cacheRatio := []; w_createCacheRatio := [];
    w_completionRatio := []; w_imageRatio := []; w_audioRatio := []; w_audioCompletionRatio := []; w_billingMode := PerRequest;
    w_billingExpr := None; w_requestRuleExpr := None; w_hasConflict := false |} in
  let st := run [ChangeMode PerToken; TypePromptPrice (js "3")] (load (Some row)) in
  let maps' := persistPricingData (submitted st) [js "dall-e"] sample_maps in
  d_ratio (submitted st) = Some (js "1.5") ∧ obj_get (js "dall-e") (maps' ModelRatio) = None.
Proof.
  cbv zeta. split; [vm_compute; reflexivity|].
  refine (proj2 (switch_to_tokens_ignored _ [ChangeMode PerToken; TypePromptPrice (js "3")] sample_maps (js "dall-e") _ _ _) ModelRatio _);
    [discriminate|repeat constructor|vm_compute; reflexivity|discriminate].
Defined.

(** With the price cleared before, the switch is saved. *)
Lemma cleared_price_switches :
  let row := edit_data {| w_name := js "dall-e"; w_price := js "0.04"; w_ratio := []; w_cacheRatio := []; w_createCacheRatio := [];
    w_completionRatio := []; w_imageRatio := []; w_audioRatio := []; w_audioCompletionRatio := []; w_billingMode := PerRequest;
    w_billingExpr := None; w_requestRuleExpr := None; w_hasConflict := false |} in
  let st := run [TypePrice []; ChangeMode PerToken; TypePromptPrice (js "3")] (load (Some row)) in
  let maps' := persistPricingData (submitted st) [js "dall-e"] sample_maps in
  obj_get (js "dall-e") (maps' ModelPrice) = None ∧ obj_get (js "dall-e") (maps' ModelRatio) = Some (JNum (parseFloat (js "1.5"))).
Proof. vm_compute. split; reflexivity. Qed.

Lemma resave_unchanged_witness :
  ∃ r, row_of sample_maps (js "gpt") = Ret r ∧ w_ratio r = js "1.25" ∧
    ∀ s, obj_get (js "gpt") (persistPricingData (resaved r) [js "gpt"] sample_maps s) = obj_get (js "gpt") (sample_maps s).
Proof.
  destruct (row_of sample_maps (js "gpt")) as [r|] eqn:E; [|vm_compute in E; discriminate E].
  exists r. assert (Hw : w_billingMode r = PerToken ∧ w_hasConflict r = false ∧ w_ratio r = js "1.25").
  { vm_compute in E. injection E as <-. auto. }
  destruct Hw as (H1 & H2 & H3). split; [reflexivity|]. split; [exact H3|].
  apply (resave_unchanged sample_maps (js "gpt") r).
  - by apply trimmed_b.
  - exact E.
  - rewrite H1. discriminate.
  - exact H2.
  - vm_compute. reflexivity.
  - vm_compute. reflexivity.
  - intros s Hs. destruct s; try discriminate Hs; try (left; vm_compute; reflexivity);
      right; eexists; (split; [vm_compute; reflexivity|]); repeat split; vm_compute; (reflexivity || discriminate).
Defined.

Lemma models_listed_witness :
  ∃ rows, models (H := plain_host) sample_maps = Ret rows ∧ map w_name rows = [js "dall-e"; js "gpt"] ∧ NoDup (map w_name rows).
Proof.
  destruct (models (H := plain_host) sample_maps) as [rows|] eqn:E; [|vm_compute in E; discriminate E].
  exists rows. split; [reflexivity|]. split; [vm_compute in E; injection E as <-; vm_compute; reflexivity|].
  exact (proj1 (models_listed (HC := plain_host_collation) sample_maps rows E)).
Defined.

Lemma untouched_settings_not_sent_witness :
  formatJsonForTextarea (sample_texts ModelRatio) ≠ sample_texts ModelRatio ∧
  saveModelRatios sample_texts true (λ s, formatJsonForTextarea (sample_texts s)) true = [].
Proof.
  split; [vm_compute; discriminate|]. apply untouched_settings_not_sent.
  intros s. split; [destruct s; by apply trimmed_b|].
  destruct s; try (vm_compute; exact I);
    match goal with |- match json_parse ?t with _ => _ end =>
      destruct (json_parse t) as [v|] eqn:E; [|exact I]; vm_compute in E; injection E as <- end;
    (split; [apply expressibleb_ok; vm_compute; reflexivity|eexists; reflexivity]).
Defined.
