(* ===== verification/ExpressionFlow.v ===== *)
(** * From the table of models to a saved billing expression

    A model that is billed by an expression, opened from the table
    (model-ratio-visual-editor.tsx) in the price sheet (model-pricing-sheet.tsx),
    which shows the tiered price editor (tiered-pricing-editor.tsx) on the
    expression and takes over what its effects call back, and saved again.  The
    editor is mounted anew when the sheet was closed or showed another way of
    pricing, and stays mounted, with its state, when the sheet turns from one
    model billed by an expression to another. *)

From S2P Require Import Prelude JsNumber JsString JsValue BillingExpr BillingSplit BillingRules TierExpr TieredEditor TieredEditorFacts.
From S2P Require Import PricingSheet PricingSheetFacts PriceSettings PriceSettingsFacts.

Open Scope nat_scope.

(** The editor that the sheet shows for a model: a new one, or the one that is
    already mounted, with the properties of the model.  The tab of the
    expression is mounted only while it is selected. *)
Definition show_editor (mounted : option Editor) (model expr ruleExpr : jstr) : outcome Editor :=
  match mounted with
  | None => mountEditor model expr ruleExpr
  | Some ed => Ret (with_props model expr ruleExpr ed)
  end.

(** A row of the table is clicked: the sheet, opened by it or already open with
    the editor [mounted], loads the model; then the editor it shows settles.
    The result is the sheet and the editor that is mounted from then on. *)
Definition open_model (mounted : option Editor) (r : ModelRow) : outcome (Panel * option Editor) :=
  let st := load (Some (edit_data r)) in
  match pricingMode st with
  | TieredExpr =>
      ed ← show_editor mounted (name (form st)) (billingExpr st) (requestRuleExpr st);
      ed ← settle ed;
      Ret (run [BillingExprChange (currentExpr ed); RequestRuleExprChange (currentRequestRuleExpr ed)] st, Some ed)
  | _ => Ret (st, None)
  end.

(** The expression that is saved is the one the editor has settled on, the
    numbers are those of the row. *)
Lemma open_tiered mounted r ed maps : w_billingMode r = TieredExpr →
  (ed ← show_editor mounted (w_name r) (default [] (w_billingExpr r)) (default [] (w_requestRuleExpr r)); settle ed) = Ret ed →
  ∃ st, open_model mounted r = Ret (st, Some ed) ∧
    let maps' := persistPricingData (submitted st) [w_name r] maps in
    let E := combineBillingExpr (currentExpr ed) (currentRequestRuleExpr ed) in
    obj_get (w_name r) (maps' BillingMode) = (if str_truthy E then Some (JStr (js "tiered_expr")) else None) ∧
    obj_get (w_name r) (maps' BillingExpr) = (if str_truthy E then Some (JStr E) else None) ∧
    ∀ s, numeric s = true → obj_get (w_name r) (maps' s) = number_entry (Some (row_text s r)).
Proof.
  intros Hm He. unfold open_model. cbv zeta.
  assert (Hp : pricingMode (load (Some (edit_data r))) = TieredExpr).
  { change (mode_of (edit_data r) = TieredExpr). unfold mode_of, edit_data. cbn [d_billingMode]. rewrite Hm. reflexivity. }
  rewrite Hp. change (name (form (load (Some (edit_data r))))) with (w_name r).
  change (billingExpr (load (Some (edit_data r)))) with (default [] (w_billingExpr r)).
  change (requestRuleExpr (load (Some (edit_data r)))) with (default [] (w_requestRuleExpr r)).
  destruct (show_editor _ _ _ _) as [ed0|]; [|done]. cbn [mbind outcome_bind] in He |- *. rewrite He. cbn [mbind outcome_bind].
  eexists. split; [reflexivity|]. cbn [run fold_left dispatch]. rewrite Hp. rewrite decide_True by done.
  split_and!; [by rewrite persist_single|by rewrite persist_single|].
  intros s Hs. rewrite persist_single. by destruct s.
Qed.

(** C33. Looking at a price can destroy it: a model billed by an expression that
    the editor cannot show visually, opened from the table while no other
    expression is being edited, and saved without a change, is stored with the
    price zero, whatever its expression was.  The numbers kept beside the
    expression survive, and so do its request rules where they are printed
    groups of plain conditions ([group_ok]). *)
Theorem look_and_save_makes_free r maps gs e q :
  let X := default [] (w_billingExpr r) in
  w_billingMode r = TieredExpr → w_requestRuleExpr r = Some (buildRequestRuleExpr gs) →
  X ≠ [] → X ≠ ZERO_PRICE → tryParseVisualConfig X = None → Forall group_ok gs →
  splitBillingExprAndRequestRules (combineBillingExpr X (buildRequestRuleExpr gs)) = Ret (e, q) →
  ∃ st ed, open_model None r = Ret (st, Some ed) ∧
    let maps' := persistPricingData (submitted st) [w_name r] maps in
    obj_get (w_name r) (maps' BillingMode) = Some (JStr (js "tiered_expr")) ∧
    obj_get (w_name r) (maps' BillingExpr) = Some (JStr (combineBillingExpr ZERO_PRICE (buildRequestRuleExpr gs))) ∧
    ∀ s, numeric s = true → obj_get (w_name r) (maps' s) = number_entry (Some (row_text s r)).
Proof.
  intros X Hm Hq Hne HneZ HX Hgs Hsplit.
  destruct (opening_loses_price (w_name r) X gs e q Hne HneZ HX Hgs Hsplit) as (ed & Ho & _ & _ & Hc & Hr & _).
  destruct (open_tiered None r ed maps Hm) as (st & Hst & Hrest); [rewrite Hq; exact Ho|].
  exists st, ed. split; [done|]. cbv zeta in Hrest |- *. rewrite Hc, Hr in Hrest.
  assert (Ht : str_truthy (combineBillingExpr ZERO_PRICE (buildRequestRuleExpr gs)) = true).
  { rewrite <- (combine_nonempty ZERO_PRICE) by apply zero_base. by destruct (combineBillingExpr ZERO_PRICE (buildRequestRuleExpr gs)). }
  by rewrite Ht in Hrest.
Qed.

(** C31. A model billed by an expression that the editor shows visually keeps it:
    opened from the table while no other expression is being edited, and saved,
    it is stored as the editor prints the same tiers and rules, with the numbers
    beside it unchanged.  The tiers and the rules are those the readers recover
    from what is printed ([stable], [readable]). *)
Theorem look_and_save_keeps_tiers r maps c gs :
  let X := default [] (w_billingExpr r) in
  w_billingMode r = TieredExpr → tryParseVisualConfig X = Some c → stable c →
  tryParseRequestRuleExpr (default [] (w_requestRuleExpr r)) = Ret (Some gs) → readable gs →
  ∃ st ed, open_model None r = Ret (st, Some ed) ∧
    let maps' := persistPricingData (submitted st) [w_name r] maps in
    let E := combineBillingExpr (generateExprFromVisualConfig (Some c)) (buildRequestRuleExpr gs) in
    obj_get (w_name r) (maps' BillingExpr) = (if str_truthy E then Some (JStr E) else None) ∧
    ∀ s, numeric s = true → obj_get (w_name r) (maps' s) = number_entry (Some (row_text s r)).
Proof.
  intros X Hm HX Hc HR Hrd.
  destruct (opening_visual (w_name r) X c (default [] (w_requestRuleExpr r)) (Some gs) HX Hc HR) as (ed & Ho & _ & _ & _ & _ & He & Hr & _);
    [by intros gs' [= <-]|].
  destruct (open_tiered None r ed maps Hm Ho) as (st & Hst & _ & H2 & H3).
  exists st, ed. split; [done|]. cbv zeta in H2 |- *. rewrite He, Hr in H2. done.
Qed.

(** Turning to another model can overwrite its price: while the editor shows
    the tiers of one model, settled in visual mode, clicking the row of another
    model billed by an expression the editor could show as well, and saving,
    stores the price and the rules of the first model for the second.  The
    editor stays mounted, and its effects send what it shows to the sheet before
    it reads the other expression. *)
Theorem next_row_takes_price r maps ed c cX ogs :
  settled ed → editorMode ed = Visual → visualConfig ed = Some c → stable c → readable (requestRuleGroups ed) →
  w_billingMode r = TieredExpr → w_name r ≠ modelName ed → tryParseVisualConfig (default [] (w_billingExpr r)) = Some cX →
  tryParseRequestRuleExpr (default [] (w_requestRuleExpr r)) = Ret ogs → (∀ gs, ogs = Some gs → readable gs) →
  ∃ st ed', open_model (Some ed) r = Ret (st, Some ed') ∧ visualConfig ed' = Some c ∧
    let maps' := persistPricingData (submitted st) [w_name r] maps in
    let E := combineBillingExpr (currentExpr ed) (currentRequestRuleExpr ed) in
    obj_get (w_name r) (maps' BillingExpr) = (if str_truthy E then Some (JStr E) else None).
Proof.
  intros Hs Hv Hcfg Hc Hg Hm Hne HX HR Hrd.
  destruct (other_model_overwritten ed c (w_name r) _ cX _ ogs Hs Hv Hcfg Hc Hg Hne HX HR Hrd) as (ed' & H1 & _ & H2 & _ & H3 & H4).
  destruct (open_tiered (Some ed) r ed' maps Hm H1) as (st & Hst & _ & H5 & _).
  exists st, ed'. split; [done|]. split; [done|]. cbv zeta in H5 |- *. by rewrite H3, H4 in H5.
Qed.

(** ** Examples *)

Definition tiered_row (expr : jstr) : ModelRow :=
  {| w_name := js "m"; w_price := []; w_ratio := js "1.5"; w_cacheRatio := []; w_createCacheRatio := []; w_completionRatio := [];
     w_imageRatio := []; w_audioRatio := []; w_audioCompletionRatio := []; w_billingMode := TieredExpr;
     w_billingExpr := Some expr; w_requestRuleExpr := Some []; w_hasConflict := false |}.

Definition no_maps : Maps := λ _, [].

Lemma look_and_save_makes_free_witness :
  ∃ st ed, open_model None (tiered_row minimum_price) = Ret (st, Some ed) ∧
    obj_get (js "m") (persistPricingData (submitted st) [js "m"] no_maps BillingExpr) = Some (JStr ZERO_PRICE).
Proof.
  destruct (look_and_save_makes_free (tiered_row minimum_price) no_maps [] minimum_price []) as (st & ed & Ho & _ & He & _).
  - reflexivity.
  - reflexivity.
  - vm_compute. discriminate.
  - vm_compute. discriminate.
  - vm_compute. reflexivity.
  - constructor.
  - vm_compute. reflexivity.
  - exists st, ed. split; [exact Ho|]. exact He.
Defined.

Lemma look_and_save_keeps_tiers_witness :
  ∃ st ed, open_model None (tiered_row flat_price) = Ret (st, Some ed) ∧
    obj_get (js "m") (persistPricingData (submitted st) [js "m"] no_maps BillingExpr) = Some (JStr flat_price) ∧
    obj_get (js "m") (persistPricingData (submitted st) [js "m"] no_maps ModelRatio) = number_entry (Some (js "1.5")).
Proof.
  destruct (look_and_save_keeps_tiers (tiered_row flat_price) no_maps flat_config []) as (st & ed & Ho & He & Hn).
  - reflexivity.
  - exact flat_parsed.
  - exact flat_stable.
  - vm_compute. reflexivity.
  - exact readable_nil.
  - exists st, ed. split; [exact Ho|]. split; [|exact (Hn ModelRatio eq_refl)].
    assert (E : combineBillingExpr (generateExprFromVisualConfig (Some flat_config)) (buildRequestRuleExpr []) = flat_price)
      by (vm_compute; reflexivity).
    cbv zeta in He. rewrite E in He. exact He.
Defined.

(** Another model at a hundred times the price. *)
Definition dear_price : jstr := quoted "tier('base', p * 200 + c * 400)".

Definition dear_row : ModelRow :=
  {| w_name := js "other"; w_price := []; w_ratio := []; w_cacheRatio := []; w_createCacheRatio := []; w_completionRatio := [];
     w_imageRatio := []; w_audioRatio := []; w_audioCompletionRatio := []; w_billingMode := TieredExpr;
     w_billingExpr := Some dear_price; w_requestRuleExpr := Some []; w_hasConflict := false |}.

Lemma next_row_takes_price_witness :
  ∃ st ed', open_model (Some (flat_editor false [])) dear_row = Ret (st, Some ed') ∧
    obj_get (js "other") (persistPricingData (submitted st) [js "other"] no_maps BillingExpr) = Some (JStr flat_price).
Proof.
  destruct (next_row_takes_price dear_row no_maps (flat_editor false []) flat_config
              (default [] (tryParseVisualConfig dear_price)) (Some [])) as (st & ed' & Ho & _ & He).
  - by apply flat_settled.
  - reflexivity.
  - reflexivity.
  - exact flat_stable.
  - exact readable_nil.
  - reflexivity.
  - vm_compute. discriminate.
  - vm_compute. reflexivity.
  - vm_compute. reflexivity.
  - intros gs [= <-]. exact readable_nil.
  - exists st, ed'. split; [exact Ho|].
    assert (E : combineBillingExpr (currentExpr (flat_editor false [])) (currentRequestRuleExpr (flat_editor false [])) = flat_price)
      by (vm_compute; reflexivity).
    cbv zeta in He. rewrite E in He. exact He.
Defined.
