(* ===== verification/UpstreamSync.v ===== *)
(** * Synchronising prices with upstream channels

    features/system-settings/models/upstream-ratio-sync.tsx, its table
    (upstream-ratio-sync-table.tsx, upstream-ratio-sync-columns.tsx) and helpers
    (upstream-ratio-sync-helpers.ts, constants.ts).

    The server compares the prices of the channels with the local ones
    ([Differences]); the user picks values ([Resolutions], from models and fields
    to values), confirms where a model changes its kind of price, and the ten
    settings are written back.  [Sync] is the state of the page and [sync_step]
    one event; the requests to the server are events with their answers. *)

From stdpp Require Import gmap.
From S2P Require Import Prelude JsNumber JsString JsValue PriceSettings.

Open Scope nat_scope.

(** ** Fields *)

Definition RATIO_SYNC_FIELDS : list jstr :=
  [js "model_ratio"; js "completion_ratio"; js "cache_ratio"; js "create_cache_ratio"; js "image_ratio"; js "audio_ratio";
   js "audio_completion_ratio"].

Definition model_price : jstr := js "model_price".
Definition billing_mode : jstr := js "billing_mode".
Definition billing_expr : jstr := js "billing_expr".

Definition SYNC_FIELD_ORDER : list jstr := RATIO_SYNC_FIELDS ++ [model_price; billing_mode; billing_expr].
Definition NUMERIC_SYNC_FIELDS : list jstr := RATIO_SYNC_FIELDS ++ [model_price].

(** Labels and values of the field filter. *)
Definition RATIO_TYPE_OPTIONS : list (jstr * jstr) :=
  [(js "Model ratio", js "model_ratio"); (js "Completion ratio", js "completion_ratio"); (js "Cache ratio", js "cache_ratio");
   (js "Create cache ratio", js "create_cache_ratio"); (js "Image ratio", js "image_ratio"); (js "Audio ratio", js "audio_ratio");
   (js "Audio completion ratio", js "audio_completion_ratio"); (js "Fixed price", js "model_price");
   (js "Expression billing", js "billing_expr")].

Definition getSyncFieldLabel (t : jstr → jstr) (ratioType : jstr) : jstr :=
  match List.find (λ o, str_eqb o.2 ratioType) RATIO_TYPE_OPTIONS with Some o => t o.1 | None => ratioType end.

Inductive Category := CPrice | CRatio | CTiered.

#[export] Instance Category_eq_dec : EqDecision Category.
Proof. solve_decision. Defined.

Definition getBillingCategory (ratioType : jstr) : Category :=
  if str_eqb ratioType model_price then CPrice
  else if str_eqb ratioType billing_mode || str_eqb ratioType billing_expr then CTiered
  else CRatio.

(** [word.charAt(0).toUpperCase() + word.slice(1)] *)
Definition capitalize (word : jstr) : jstr := toUpperCase (take 1 word) ++ drop 1 word.

Definition optionKeyBySyncField (ratioType : jstr) : jstr :=
  if str_eqb ratioType billing_mode then js "billing_setting.billing_mode"
  else if str_eqb ratioType billing_expr then js "billing_setting.billing_expr"
  else concat (map capitalize (split ratioType (js "_"))).

(** ** Differences *)

Record RatioDifference := { df_current : jsval; df_upstreams : obj jsval; df_confidence : obj jsval }.

(** The fields of a model, and the models. *)
Definition ModelDiffs := obj RatioDifference.
Definition Differences := obj ModelDiffs.
Definition Resolutions := obj (obj jsval).

Definition isSelectableUpstreamValue (value : jsval) : bool :=
  negb (is_nullish value) && negb (strict_eq value (JStr (js "same"))).

(** [ratioTypes[field]?.upstreams?.[sourceName]] *)
Definition upstream_value (d : ModelDiffs) (f sourceName : jstr) : jsval :=
  match obj_get f d with Some e => default JUndef (obj_get sourceName (df_upstreams e)) | None => JUndef end.

Definition getOrderedRatioTypes (d : ModelDiffs) (filterBy : jstr) : list jstr :=
  let keys := own_keys d in
  let ordered := filter (λ f, f ∈ keys) SYNC_FIELD_ORDER ++ filter (λ f, f ∉ SYNC_FIELD_ORDER) keys in
  if negb (str_truthy filterBy) || str_eqb filterBy (js "__all__") then ordered
  else filter (λ f, f = filterBy) ordered.

Definition getPreferredSyncField (d : ModelDiffs) (ratioType sourceName : jstr) : jstr :=
  if negb (str_eqb ratioType billing_expr) && isSelectableUpstreamValue (upstream_value d billing_expr sourceName)
  then billing_expr else ratioType.

(** ** Channels *)

Record UpstreamChannel := { ch_id : Z; ch_name : jstr; ch_base_url : jstr; ch_status : Z; ch_type : option Z }.
Record UpstreamConfig := { uc_id : Z; uc_name : jstr; uc_base_url : jstr; uc_endpoint : jstr }.

Definition DEFAULT_ENDPOINT : jstr := js "/api/pricing".
Definition OFFICIAL_CHANNEL_ID : Z := (-100)%Z.
Definition OFFICIAL_CHANNEL_ENDPOINT : jstr := js "/llm-metadata/api/newapi/ratio_config-v1-base.json".
Definition MODELS_DEV_PRESET_ID : Z := (-101)%Z.
Definition MODELS_DEV_PRESET_ENDPOINT : jstr := js "https://models.dev/api.json".
Definition OPENROUTER_ENDPOINT : jstr := js "openrouter".
Definition OPENROUTER_CHANNEL_TYPE : Z := 20%Z.

Definition getDefaultEndpointForChannel (c : UpstreamChannel) : jstr :=
  if (ch_id c =? MODELS_DEV_PRESET_ID)%Z then MODELS_DEV_PRESET_ENDPOINT
  else if (ch_id c =? OFFICIAL_CHANNEL_ID)%Z then OFFICIAL_CHANNEL_ENDPOINT
  else if decide (ch_type c = Some OPENROUTER_CHANNEL_TYPE) then OPENROUTER_ENDPOINT
  else DEFAULT_ENDPOINT.

(** The effect that completes the endpoints when channels arrive; the record has
    channel numbers as keys. *)
Definition complete_endpoints (channels : list UpstreamChannel) (endpoints : gmap Z jstr) : gmap Z jstr :=
  fold_left (λ next c,
    if str_truthy (default [] (next !! ch_id c)) then next
    else <[ch_id c := getDefaultEndpointForChannel c]> next) channels endpoints.

(** [handleConfirmChannelSelection]: the request, or [None] with a warning. *)
Definition upstreams_of (channels : list UpstreamChannel) (endpoints : gmap Z jstr) (selectedIds : list Z) :
    option (list UpstreamConfig) :=
  match filter (λ c, ch_id c ∈ selectedIds) channels with
  | [] => None
  | selected => Some (map (λ c, {| uc_id := ch_id c; uc_name := ch_name c; uc_base_url := ch_base_url c;
                                   uc_endpoint := str_or (default [] (endpoints !! ch_id c)) DEFAULT_ENDPOINT |}) selected)
  end.

(** ** Resolutions *)

Definition deleteResolutionField (res : Resolutions) (model ratioType : jstr) : Resolutions :=
  match obj_get model res with
  | None => res
  | Some fields =>
      let fields := obj_delete ratioType fields in
      let fields := if str_eqb ratioType billing_expr then obj_delete billing_mode fields else fields in
      let fields := if str_eqb ratioType billing_mode then obj_delete billing_expr fields else fields in
      match fields with [] => obj_delete model res | _ => obj_set model fields res end
  end.

(** The fields of another kind of price are given up. *)
Definition conflicting (category : Category) (f : jstr) : bool :=
  bool_decide (category ≠ CTiered) && bool_decide (getBillingCategory f ≠ CTiered) &&
  bool_decide (getBillingCategory f ≠ category).

Definition clear_conflicting (category : Category) (fields : obj jsval) : obj jsval :=
  filter (λ kv, conflicting category kv.1 = false) fields.

(** Mode and expression come from the same source. *)
Definition pair_tiered (d : ModelDiffs) (sourceName finalType : jstr) (fields : obj jsval) : obj jsval :=
  let modeVal := upstream_value d billing_mode sourceName in
  let exprVal := upstream_value d billing_expr sourceName in
  let fields := if isSelectableUpstreamValue modeVal then obj_set billing_mode modeVal fields
                else if str_eqb finalType billing_expr then obj_set billing_mode (JStr (js "tiered_expr")) fields
                else fields in
  if isSelectableUpstreamValue exprVal then obj_set billing_expr exprVal fields else fields.

Definition handleSelectValue (differences : Differences) (model ratioType : jstr) (value : jsval) (sourceName : jstr)
    (prev : Resolutions) : Resolutions :=
  let modelDiffs := obj_get model differences in
  let finalType := if str_truthy sourceName then getPreferredSyncField (default [] modelDiffs) ratioType sourceName else ratioType in
  let finalValue :=
    if str_eqb finalType ratioType then value
    else let v := upstream_value (default [] modelDiffs) finalType sourceName in if is_nullish v then value else v in
  let category := getBillingCategory finalType in
  let fields := obj_set finalType finalValue (clear_conflicting category (default [] (obj_get model prev))) in
  let fields := match modelDiffs with
                | Some d => if bool_decide (category = CTiered) && str_truthy sourceName
                            then pair_tiered d sourceName finalType fields else fields
                | None => fields
                end in
  obj_set model fields prev.

(** ** The table *)

Record SyncRow := { sr_model : jstr; sr_ratioTypes : ModelDiffs; sr_billingConflict : bool }.

Definition dataSource (differences : Differences) : list SyncRow :=
  map (λ kv, {| sr_model := kv.1; sr_ratioTypes := kv.2;
                sr_billingConflict := obj_has model_price kv.2 && existsb (λ f, obj_has f kv.2) RATIO_SYNC_FIELDS |})
    (own_entries differences).

Definition filteredData (search ratioTypeFilter : jstr) (rows : list SyncRow) : list SyncRow :=
  let rows := if str_truthy (trim search)
              then List.filter (λ r, includes (toLowerCase (sr_model r)) (toLowerCase search)) rows else rows in
  if str_truthy ratioTypeFilter && negb (str_eqb ratioTypeFilter (js "__all__"))
  then List.filter (λ r, obj_has ratioTypeFilter (sr_ratioTypes r)) rows else rows.

Definition upstreamNames (ratioTypeFilter : jstr) (rows : list SyncRow) : list jstr :=
  set_of_list (concat (map (λ r,
    concat (map (λ f, match obj_get f (sr_ratioTypes r) with Some e => own_keys (df_upstreams e) | None => [] end)
                (getOrderedRatioTypes (sr_ratioTypes r) ratioTypeFilter))) rows)).

(** A cell offers a value that is not shadowed by an expression of the channel. *)
Definition offered (r : SyncRow) (f upstream : jstr) : bool :=
  str_eqb (getPreferredSyncField (sr_ratioTypes r) f upstream) f &&
  isSelectableUpstreamValue (upstream_value (sr_ratioTypes r) f upstream).

Definition handleBulkSelect (differences : Differences) (ratioTypeFilter upstream : jstr) (rows : list SyncRow) (res : Resolutions) :
    Resolutions :=
  fold_left (λ res r,
    fold_left (λ res f,
      if offered r f upstream
      then handleSelectValue differences (sr_model r) f (upstream_value (sr_ratioTypes r) f upstream) upstream res
      else res) (getOrderedRatioTypes (sr_ratioTypes r) ratioTypeFilter) res) rows res.

Definition handleBulkUnselect (ratioTypeFilter upstream : jstr) (rows : list SyncRow) (res : Resolutions) : Resolutions :=
  fold_left (λ res r,
    fold_left (λ res f,
      match upstream_value (sr_ratioTypes r) f upstream with
      | JUndef => res
      | _ => deleteResolutionField res (sr_model r) f
      end) (getOrderedRatioTypes (sr_ratioTypes r) ratioTypeFilter) res) rows res.

(** How many of the values a channel offers are selected, and how many it offers. *)
Definition selection_counts (res : Resolutions) (ratioTypeFilter upstream : jstr) (rows : list SyncRow) : nat * nat :=
  let offers := concat (map (λ r, map (λ f, (r, f))
                  (List.filter (λ f, offered r f upstream) (getOrderedRatioTypes (sr_ratioTypes r) ratioTypeFilter))) rows) in
  (length (List.filter (λ '(r, f), strict_eq (default JUndef (obj_get f (default [] (obj_get (sr_model r) res))))
                                    (upstream_value (sr_ratioTypes r) f upstream)) offers), length offers).

(** ** Writing *)

Definition parseJsonRecord (raw : jstr) : jsval := default (JObj []) (json_parse (str_or raw (js "{}"))).

Definition sync_record (raw : jstr) : option (obj jsval) :=
  match parseJsonRecord raw with JObj o => Some o | _ => None end.

(** In the order of [finalRatios]. *)
Definition sync_settings : list Setting :=
  [ModelRatio; CompletionRatio; CacheRatio; CreateCacheRatio; ImageRatio; AudioRatio; AudioCompletionRatio; ModelPrice;
   BillingMode; BillingExpr].

Definition ratio_settings : list Setting := take 7 sync_settings.

Definition setting_of_key (key : jstr) : option Setting := List.find (λ s, str_eqb (option_key s) key) sync_settings.

(** One chosen value; a field without a setting makes the assignment throw. *)
Definition write_field (model : jstr) (maps : Maps) (kv : jstr * jsval) : outcome Maps :=
  match setting_of_key (optionKeyBySyncField kv.1) with
  | None => Throw
  | Some s => Ret (update s (obj_set model (if bool_decide (kv.1 ∈ NUMERIC_SYNC_FIELDS) then JNum (to_number kv.2) else kv.2)) maps)
  end.

Definition has_ratio (fields : obj jsval) : bool := existsb (λ f, bool_decide (f ∈ RATIO_SYNC_FIELDS)) (own_keys fields).

Definition sync_model (maps : Maps) (entry : jstr * obj jsval) : outcome Maps :=
  let '(model, fields) := entry in
  let maps := if obj_has model_price fields
              then λ s, if decide (s ∈ ratio_settings) then obj_delete model (maps s) else maps s else maps in
  let maps := if has_ratio fields then update ModelPrice (obj_delete model) maps else maps in
  fold_left (λ acc kv, maps ← acc; write_field model maps kv) (own_entries fields) (Ret maps).

Definition finalRatios (resolutions : Resolutions) (current : Maps) : outcome Maps :=
  fold_left (λ acc entry, maps ← acc; sync_model maps entry) (own_entries resolutions) (Ret current).

(** [performSync] up to the requests: the options to send, all ten. *)
Definition sync_updates (maps : Maps) : list (jstr * jstr) :=
  map (λ s, (option_key s, json_pretty (JObj (maps s)))) sync_settings.

(** ** Conflicts *)

Definition getLocalBillingCategory (model : jstr) (current : Maps) : option Category :=
  if obj_has model (current ModelPrice) then Some CPrice
  else if existsb (λ s, obj_has model (current s)) ratio_settings then Some CRatio
  else None.

Definition new_category (fields : obj jsval) : Category :=
  if obj_has model_price fields then CPrice
  else if existsb (λ f, bool_decide (f ∈ own_keys fields)) RATIO_SYNC_FIELDS then CRatio
  else CTiered.

Definition is_conflict (current : Maps) (model : jstr) (fields : obj jsval) : bool :=
  match getLocalBillingCategory model current with
  | None => false
  | Some localCat => bool_decide (new_category fields ≠ CTiered) && bool_decide (localCat ≠ new_category fields)
  end.

Definition findSourceChannel (differences : Differences) (model ratioType : jstr) (value : jsval) : jstr :=
  match obj_get ratioType (default [] (obj_get model differences)) with
  | None => js "Unknown"
  | Some e => match List.find (λ kv, strict_eq kv.2 value) (own_entries (df_upstreams e)) with
              | Some kv => kv.1
              | None => js "Unknown"
              end
  end.

Record ConflictItem := { ci_channel : jstr; ci_model : jstr; ci_current : jstr; ci_newVal : jstr }.

Definition shown_or_dash (v : option jsval) : jstr :=
  match v with None | Some JUndef | Some JNull => js "-" | Some v => to_string v end.

Definition conflict_items (t : jstr → jstr) (differences : Differences) (current : Maps) (resolutions : Resolutions) :
    list ConflictItem :=
  let describe (price ratio completion : option jsval) (c : Category) :=
    match c with
    | CPrice => t (js "Fixed price") ++ js ": " ++ to_string (default JUndef price)
    | _ => t (js "Model ratio") ++ js ": " ++ shown_or_dash ratio ++ [10%N] ++ t (js "Completion ratio") ++ js ": " ++
           shown_or_dash completion
    end in
  concat (map (λ '(model, fields),
    match getLocalBillingCategory model current with
    | Some localCat =>
        if is_conflict current model fields then
          [{| ci_channel := join (js ", ") (set_of_list (map (λ kv, findSourceChannel differences model kv.1 kv.2) (own_entries fields)));
              ci_model := model;
              ci_current := describe (obj_get model (current ModelPrice)) (obj_get model (current ModelRatio))
                              (obj_get model (current CompletionRatio)) localCat;
              ci_newVal := describe (obj_get model_price fields) (obj_get (js "model_ratio") fields)
                              (obj_get (js "completion_ratio") fields) (new_category fields) |}]
        else []
    | None => []
    end) (own_entries resolutions)).

(** ** The page *)

Record Sync := {
  differences : Differences;
  resolutions : Resolutions;
  conflictItems : list ConflictItem;
  conflictOpen : bool
}.

Definition mountSync : Sync := {| differences := []; resolutions := []; conflictItems := []; conflictOpen := false |}.

(** After a successful synchronisation: the chosen fields are no differences any
    more, and a model without fields disappears. *)
Definition drop_field (model : jstr) (diffs : Differences) (f : jstr) : Differences :=
  match obj_get model diffs with
  | None => diffs
  | Some d =>
      if obj_has f d then
        match obj_delete f d with [] => obj_delete model diffs | d => obj_set model d diffs end
      else diffs
  end.

Definition drop_resolved (diffs : Differences) (entry : jstr * obj jsval) : Differences :=
  fold_left (drop_field entry.1) (own_keys entry.2) diffs.

Inductive SyncEvent :=
  | Fetched (diffs : Differences)                                   (* the comparison arrives *)
  | SelectCell (row : SyncRow) (f upstream : jstr)                  (* a checkbox in a cell *)
  | UnselectCell (row : SyncRow) (f : jstr)
  | BulkSelect (ratioTypeFilter upstream : jstr) (rows : list SyncRow)   (* the checkbox of a column *)
  | BulkUnselect (ratioTypeFilter upstream : jstr) (rows : list SyncRow)
  | Synced.                                                         (* the requests have succeeded *)

Definition with_resolutions (f : Resolutions → Resolutions) (st : Sync) : Sync :=
  {| differences := differences st; resolutions := f (resolutions st); conflictItems := conflictItems st;
     conflictOpen := conflictOpen st |}.

Definition sync_step (ev : SyncEvent) (st : Sync) : Sync :=
  match ev with
  | Fetched diffs => {| differences := diffs; resolutions := []; conflictItems := conflictItems st; conflictOpen := conflictOpen st |}
  | SelectCell row f upstream =>
      if offered row f upstream
      then with_resolutions (handleSelectValue (differences st) (sr_model row) f (upstream_value (sr_ratioTypes row) f upstream) upstream) st
      else st
  | UnselectCell row f => with_resolutions (λ res, deleteResolutionField res (sr_model row) f) st
  | BulkSelect ratioTypeFilter upstream rows => with_resolutions (handleBulkSelect (differences st) ratioTypeFilter upstream rows) st
  | BulkUnselect ratioTypeFilter upstream rows => with_resolutions (handleBulkUnselect ratioTypeFilter upstream rows) st
  | Synced => {| differences := fold_left drop_resolved (own_entries (resolutions st)) (differences st); resolutions := [];
                 conflictItems := conflictItems st; conflictOpen := conflictOpen st |}
  end.

(** [handleApplySync]: a dialog of conflicts, or the options to send. *)
Definition handleApplySync (t : jstr → jstr) (current : Maps) (st : Sync) : outcome (Sync * option (list (jstr * jstr))) :=
  match conflict_items t (differences st) current (resolutions st) with
  | [] => maps ← finalRatios (resolutions st) current; Ret (st, Some (sync_updates maps))
  | conflicts =>
      Ret ({| differences := differences st; resolutions := resolutions st; conflictItems := conflicts; conflictOpen := true |}, None)
  end.
