(* ===== verification/UpstreamSyncFacts.v ===== *)
(** * Facts about the synchronisation of prices

    The choices of the user stay consistent whatever is selected ([reach]), the
    settings that are sent are those of the choices and of nothing else, and where
    no model has both kinds of price no setting disappears without a question. *)

From stdpp Require Import gmap.
From S2P Require Import Prelude JsNumber JsString JsValue JsonRoundtrip PriceSettings PriceSettingsFacts UpstreamSync.

Open Scope nat_scope.

(** ** Fields and settings *)

Definition field_of (s : Setting) : jstr :=
  match s with
  | ModelRatio => js "model_ratio"
  | CompletionRatio => js "completion_ratio"
  | CacheRatio => js "cache_ratio"
  | CreateCacheRatio => js "create_cache_ratio"
  | ImageRatio => js "image_ratio"
  | AudioRatio => js "audio_ratio"
  | AudioCompletionRatio => js "audio_completion_ratio"
  | ModelPrice => model_price
  | BillingMode => billing_mode
  | BillingExpr => billing_expr
  end.

(** The key computed for a field is that of its setting. *)
Lemma setting_of_field s : setting_of_key (optionKeyBySyncField (field_of s)) = Some s.
Proof. destruct s; vm_compute; reflexivity. Qed.

Lemma field_numeric s : bool_decide (field_of s ∈ NUMERIC_SYNC_FIELDS) = numeric s.
Proof. destruct s; vm_compute; reflexivity. Qed.

Lemma field_of_inj s s' : field_of s = field_of s' → s = s'.
Proof. intros E. pose proof (setting_of_field s) as H. rewrite E, setting_of_field in H. by injection H. Qed.

Lemma known_fields : SYNC_FIELD_ORDER = map field_of sync_settings.
Proof. vm_compute. reflexivity. Qed.

Lemma known_field f : f ∈ SYNC_FIELD_ORDER → ∃ s, f = field_of s.
Proof. rewrite known_fields. intros (s & -> & _)%list_elem_of_fmap. by exists s. Qed.

(** Kinds of price. *)
Definition kind (s : Setting) : Category :=
  match s with ModelPrice => CPrice | BillingMode | BillingExpr => CTiered | _ => CRatio end.

Lemma field_category s : getBillingCategory (field_of s) = kind s.
Proof. destruct s; vm_compute; reflexivity. Qed.

Lemma ratio_field s : field_of s ∈ RATIO_SYNC_FIELDS ↔ kind s = CRatio.
Proof.
  assert (E : bool_decide (field_of s ∈ RATIO_SYNC_FIELDS) = bool_decide (kind s = CRatio)) by (destruct s; vm_compute; reflexivity).
  split; intros Hs; apply (bool_decide_eq_true_1 _); [rewrite <- E|rewrite E]; by apply bool_decide_eq_true_2.
Qed.

Lemma ratio_setting s : s ∈ ratio_settings ↔ kind s = CRatio.
Proof.
  assert (E : bool_decide (s ∈ ratio_settings) = bool_decide (kind s = CRatio)) by (destruct s; vm_compute; reflexivity).
  split; intros Hs; apply (bool_decide_eq_true_1 _); [rewrite <- E|rewrite E]; by apply bool_decide_eq_true_2.
Qed.

(** ** Consistent choices *)

(** The fields chosen for a model: known, of one kind of price but for the
    expression, and an expression only with a mode. *)
Record chosen_ok (fields : obj jsval) : Prop := {
  co_nodup : NoDup (map fst fields);
  co_known : ∀ f, f ∈ map fst fields → f ∈ SYNC_FIELD_ORDER;
  co_kind : ∀ f g, f ∈ map fst fields → g ∈ map fst fields → getBillingCategory f ≠ CTiered → getBillingCategory g ≠ CTiered →
              getBillingCategory f = getBillingCategory g;
  co_pair : billing_expr ∈ map fst fields → billing_mode ∈ map fst fields
}.

Definition choices_ok (res : Resolutions) : Prop :=
  NoDup (map fst res) ∧ ∀ m fields, obj_get m res = Some fields → chosen_ok fields.

Lemma chosen_nil : chosen_ok [].
Proof. split; [apply NoDup_nil_2|by intros ? ?%elem_of_nil|by intros ?? ?%elem_of_nil|by intros ?%elem_of_nil]. Qed.

Lemma choices_get res m : choices_ok res → chosen_ok (default [] (obj_get m res)).
Proof. intros [_ H]. destruct (obj_get m res) eqn:E; [by eapply H|apply chosen_nil]. Qed.

Lemma choices_set res m fields : choices_ok res → chosen_ok fields → choices_ok (obj_set m fields res).
Proof.
  intros [Hd H] Hf. split; [by apply NoDup_keys_set|]. intros m' fields'. rewrite obj_get_set.
  destruct (str_eqb m' m); [by intros [= <-]|apply H].
Qed.

Lemma keys_delete {V} k k' (o : obj V) : k' ∈ map fst (obj_delete k o) ↔ k' ≠ k ∧ k' ∈ map fst o.
Proof.
  unfold obj_delete. rewrite !list_elem_of_fmap. split.
  - intros (kv & -> & [? ?]%list_elem_of_filter). eauto.
  - intros [Hne (kv & -> & ?)]. exists kv. split; [done|]. by apply list_elem_of_filter.
Qed.

Lemma choices_delete res m : choices_ok res → choices_ok (obj_delete m res).
Proof.
  intros [Hd H]. split; [by apply NoDup_keys_delete|]. intros m' fields'. rewrite obj_get_delete.
  destruct (str_eqb m' m); [done|apply H].
Qed.

(** Giving up fields keeps the choices consistent, if expression and mode go
    together. *)
Lemma chosen_delete f fields : chosen_ok fields → f ≠ billing_mode → chosen_ok (obj_delete f fields).
Proof.
  intros [Hd Hk Hc Hp] Hf. split.
  - by apply NoDup_keys_delete.
  - intros g [_ Hg]%keys_delete. auto.
  - intros g h [_ Hg]%keys_delete [_ Hh]%keys_delete. auto.
  - intros [_ He]%keys_delete. apply keys_delete. auto.
Qed.

Lemma chosen_delete_pair fields : chosen_ok fields → chosen_ok (obj_delete billing_mode (obj_delete billing_expr fields)).
Proof.
  intros [Hd Hk Hc Hp]. split.
  - by apply NoDup_keys_delete, NoDup_keys_delete.
  - intros g [_ [_ Hg]%keys_delete]%keys_delete. auto.
  - intros g h [_ [_ Hg]%keys_delete]%keys_delete [_ [_ Hh]%keys_delete]%keys_delete. auto.
  - intros [_ [He _]%keys_delete]%keys_delete. done.
Qed.

Lemma obj_delete_comm {V} k k' (o : obj V) : obj_delete k (obj_delete k' o) = obj_delete k' (obj_delete k o).
Proof. unfold obj_delete. rewrite !list_filter_filter. apply list_filter_iff. tauto. Qed.

Lemma unselect_ok res m f : choices_ok res → choices_ok (deleteResolutionField res m f).
Proof.
  intros Hr. unfold deleteResolutionField. destruct (obj_get m res) as [fields|] eqn:E; [|done]. cbv zeta.
  assert (Hf : chosen_ok fields) by by eapply Hr.
  set (fields' := if str_eqb f billing_mode then _ else _).
  assert (Hok : chosen_ok fields').
  { unfold fields'. destruct (str_eqb f billing_expr) eqn:E1.
    - apply str_eqb_eq in E1 as ->. change (str_eqb billing_expr billing_mode) with false. by apply chosen_delete_pair.
    - destruct (str_eqb f billing_mode) eqn:E2.
      + apply str_eqb_eq in E2 as ->. rewrite obj_delete_comm. by apply chosen_delete_pair.
      + apply chosen_delete; [done|]. intros ->. by rewrite str_eqb_refl in E2. }
  destruct fields' as [|kv fields']; [by apply choices_delete|by apply choices_set].
Qed.

(** ** Selecting *)

Lemma tiered_fields : getBillingCategory billing_mode = CTiered ∧ getBillingCategory billing_expr = CTiered ∧
  billing_mode ∈ SYNC_FIELD_ORDER ∧ billing_expr ∈ SYNC_FIELD_ORDER.
Proof.
  split; [vm_compute; reflexivity|]. split; [vm_compute; reflexivity|].
  rewrite known_fields. split; apply list_elem_of_fmap; [exists BillingMode|exists BillingExpr]; (split; [done|]);
    apply (bool_decide_eq_true_1 _); vm_compute; reflexivity.
Qed.

Lemma tiered_field f : f ∈ SYNC_FIELD_ORDER → getBillingCategory f = CTiered → f = billing_mode ∨ f = billing_expr.
Proof. intros (s & ->)%known_field. rewrite field_category. destruct s; try discriminate; auto. Qed.

(** Choosing a field after those that conflict with it were given up; the pair of
    mode and expression is completed afterwards. *)
Lemma chosen_select f v (fields : obj jsval) : chosen_ok fields → f ∈ SYNC_FIELD_ORDER →
  let fields' := obj_set f v (clear_conflicting (getBillingCategory f) fields) in
  NoDup (map fst fields') ∧ (∀ g, g ∈ map fst fields' → g ∈ SYNC_FIELD_ORDER) ∧ f ∈ map fst fields' ∧
  (∀ g h, g ∈ map fst fields' → h ∈ map fst fields' → getBillingCategory g ≠ CTiered → getBillingCategory h ≠ CTiered →
     getBillingCategory g = getBillingCategory h) ∧
  (f ≠ billing_expr → billing_expr ∈ map fst fields' → billing_mode ∈ map fst fields').
Proof.
  intros [Hd Hk Hc Hp] Hf fields'. unfold fields'.
  assert (Hin : ∀ g, g ∈ map fst (clear_conflicting (getBillingCategory f) fields) ↔
            g ∈ map fst fields ∧ conflicting (getBillingCategory f) g = false).
  { intros g. unfold clear_conflicting. rewrite !list_elem_of_fmap. split.
    - intros (kv & -> & [? ?]%list_elem_of_filter). eauto.
    - intros [(kv & -> & ?) ?]. exists kv. split; [done|]. by apply list_elem_of_filter. }
  assert (Hkeep : ∀ g, g ∈ map fst fields → conflicting (getBillingCategory f) g = false →
            getBillingCategory g ≠ CTiered → getBillingCategory f ≠ CTiered → getBillingCategory g = getBillingCategory f).
  { intros g _ Hg Hg1 Hf1. unfold conflicting in Hg. rewrite !bool_decide_eq_true_2 in Hg by done.
    cbn [andb] in Hg. apply bool_decide_eq_false in Hg. by apply dec_stable. }
  split_and!.
  - apply NoDup_keys_set. eapply sublist_NoDup; [exact Hd|]. apply (fmap_sublist fst), sublist_filter.
  - intros g [->|[Hg _]%Hin]%elem_of_keys_set; auto.
  - apply elem_of_keys_set. by left.
  - intros g h [->|[Hg Hg']%Hin]%elem_of_keys_set [->|[Hh Hh']%Hin]%elem_of_keys_set Eg Eh; auto.
    symmetry. auto.
  - intros Hne [Heq|[He _]%Hin]%elem_of_keys_set; [by destruct Hne|]. apply elem_of_keys_set. right. apply Hin.
    split; [by apply Hp|]. unfold conflicting. destruct tiered_fields as [-> _].
    rewrite (bool_decide_eq_false_2 (CTiered ≠ CTiered)) by tauto. by rewrite andb_false_r.
Qed.

(** Setting a field of the expression. *)
Lemma set_tiered_keys f v (fields : obj jsval) : getBillingCategory f = CTiered → f ∈ SYNC_FIELD_ORDER →
  (NoDup (map fst fields) ∧ (∀ g, g ∈ map fst fields → g ∈ SYNC_FIELD_ORDER) ∧
   (∀ g h, g ∈ map fst fields → h ∈ map fst fields → getBillingCategory g ≠ CTiered → getBillingCategory h ≠ CTiered →
      getBillingCategory g = getBillingCategory h)) →
  NoDup (map fst (obj_set f v fields)) ∧ (∀ g, g ∈ map fst (obj_set f v fields) → g ∈ SYNC_FIELD_ORDER) ∧
  (∀ g h, g ∈ map fst (obj_set f v fields) → h ∈ map fst (obj_set f v fields) → getBillingCategory g ≠ CTiered →
     getBillingCategory h ≠ CTiered → getBillingCategory g = getBillingCategory h).
Proof.
  intros Hf Hk (Hd & Hn & Hc). split_and!.
  - by apply NoDup_keys_set.
  - intros g [->|Hg]%elem_of_keys_set; auto.
  - intros g h [->|Hg]%elem_of_keys_set [->|Hh]%elem_of_keys_set Eg Eh; auto; by destruct (Eg Hf) || destruct (Eh Hf).
Qed.

Lemma select_ok diffs m d f v source res : choices_ok res → obj_get m diffs = Some d → f ∈ SYNC_FIELD_ORDER → source ≠ [] →
  choices_ok (handleSelectValue diffs m f v source res).
Proof.
  intros Hr Hd Hf Hs. unfold handleSelectValue. rewrite Hd. cbv zeta. cbn [from_option id].
  replace (str_truthy source) with true by by destruct source.
  set (ft := getPreferredSyncField d f source).
  set (fv := if str_eqb ft f then v else _).
  assert (Hft : ft ∈ SYNC_FIELD_ORDER).
  { unfold ft, getPreferredSyncField. case_match; [apply tiered_fields|done]. }
  apply choices_set; [done|].
  destruct (chosen_select ft fv _ (choices_get res m Hr) Hft) as (K1 & K2 & K3 & K4 & K5).
  destruct tiered_fields as (T1 & T2 & T3 & T4).
  destruct (decide (getBillingCategory ft = CTiered)) as [Ht|Ht].
  - rewrite bool_decide_eq_true_2 by done. cbn [andb]. unfold pair_tiered.
    set (fields1 := if isSelectableUpstreamValue (upstream_value d billing_mode source) then _ else _).
    assert (H1 : (NoDup (map fst fields1) ∧ (∀ g, g ∈ map fst fields1 → g ∈ SYNC_FIELD_ORDER) ∧
       (∀ g h, g ∈ map fst fields1 → h ∈ map fst fields1 → getBillingCategory g ≠ CTiered → getBillingCategory h ≠ CTiered →
          getBillingCategory g = getBillingCategory h)) ∧ billing_mode ∈ map fst fields1).
    { unfold fields1. case_match; [|case_match].
      - split; [by apply set_tiered_keys|]. apply elem_of_keys_set. by left.
      - split; [by apply set_tiered_keys|]. apply elem_of_keys_set. by left.
      - split; [done|]. destruct (tiered_field ft Hft Ht) as [E| E]; [by rewrite <- E|].
        rewrite E in *. by rewrite str_eqb_refl in *. }
    destruct H1 as [H1 Hmode]. case_match.
    + destruct (set_tiered_keys billing_expr (upstream_value d billing_expr source) fields1 T2 T4 H1) as (J1 & J2 & J3).
      split; [done..|]. intros _. apply elem_of_keys_set. by right.
    + destruct H1 as (J1 & J2 & J3). by split.
  - rewrite bool_decide_eq_false_2 by done. cbn [andb]. split; [done..|]. apply K5. intros E. by rewrite E in Ht.
Qed.

(** ** Reachable choices *)

Definition diffs_ok (diffs : Differences) : Prop :=
  NoDup (map fst diffs) ∧ ∀ m d, obj_get m diffs = Some d → NoDup (map fst d) ∧ ∀ f, f ∈ map fst d → f ∈ SYNC_FIELD_ORDER.

(** What the page can do: the server compares the fields it knows, the table
    shows the rows of the differences, and columns have names. *)
Inductive can : SyncEvent → Sync → Prop :=
  | can_fetch diffs st : diffs_ok diffs → can (Fetched diffs) st
  | can_select row f upstream st : row ∈ dataSource (differences st) →
      f ∈ getOrderedRatioTypes (sr_ratioTypes row) [] → upstream ≠ [] → can (SelectCell row f upstream) st
  | can_unselect row f st : can (UnselectCell row f) st
  | can_bulk ratioTypeFilter upstream rows st : Forall (λ r, r ∈ dataSource (differences st)) rows → upstream ≠ [] →
      can (BulkSelect ratioTypeFilter upstream rows) st
  | can_bulk_unselect ratioTypeFilter upstream rows st : can (BulkUnselect ratioTypeFilter upstream rows) st
  | can_sync st : can Synced st.

Inductive reach : Sync → Prop :=
  | reach_mount : reach mountSync
  | reach_step ev st : reach st → can ev st → reach (sync_step ev st).

Lemma elem_of_ordered d flt f : f ∈ getOrderedRatioTypes d flt → f ∈ map fst d.
Proof.
  unfold getOrderedRatioTypes. cbv zeta.
  assert (H : f ∈ filter (λ f, f ∈ own_keys d) SYNC_FIELD_ORDER ++ filter (λ f, f ∉ SYNC_FIELD_ORDER) (own_keys d) → f ∈ map fst d).
  { intros [[Hf _]%list_elem_of_filter|[_ Hf]%list_elem_of_filter]%elem_of_app; unfold own_keys in Hf; by rewrite own_entries_perm in Hf. }
  case_match; [exact H|]. intros [_ Hf]%list_elem_of_filter. by apply H.
Qed.

Lemma data_row diffs r : diffs_ok diffs → r ∈ dataSource diffs → obj_get (sr_model r) diffs = Some (sr_ratioTypes r).
Proof.
  intros [Hd _] ([m d] & -> & Hin)%list_elem_of_fmap. cbn [sr_model sr_ratioTypes fst snd].
  apply obj_get_in; [done|]. by rewrite elem_of_own_entries in Hin.
Qed.

Lemma row_field_known diffs r flt f : diffs_ok diffs → r ∈ dataSource diffs → f ∈ getOrderedRatioTypes (sr_ratioTypes r) flt →
  f ∈ SYNC_FIELD_ORDER.
Proof. intros Hd Hr Hf%elem_of_ordered. pose proof (data_row diffs r Hd Hr) as E. by eapply Hd. Qed.

(** A fold keeps what each of its steps keeps. *)
Lemma fold_keeps {A B} (P : A → Prop) (f : A → B → A) l a : P a → (∀ a b, b ∈ l → P a → P (f a b)) → P (fold_left f l a).
Proof.
  revert a. induction l as [|b l IH]; intros a Ha Hf; cbn [fold_left]; [done|].
  apply IH; [apply Hf; [left|done]|]. intros a' b' Hb. apply Hf. by right.
Qed.

Lemma bulk_select_ok diffs flt upstream rows res : diffs_ok diffs → Forall (λ r, r ∈ dataSource diffs) rows → upstream ≠ [] →
  choices_ok res → choices_ok (handleBulkSelect diffs flt upstream rows res).
Proof.
  intros Hd Hrows Hu Hr. unfold handleBulkSelect. apply fold_keeps; [done|]. intros res1 r Hin H1.
  rewrite Forall_forall in Hrows. apply fold_keeps; [done|]. intros res2 f Hf H2. case_match; [|done].
  eapply select_ok; [done|by apply data_row, Hrows|by eapply row_field_known; [|apply Hrows|]|done].
Qed.

Lemma bulk_unselect_ok flt upstream rows res : choices_ok res → choices_ok (handleBulkUnselect flt upstream rows res).
Proof.
  intros Hr. unfold handleBulkUnselect. apply fold_keeps; [done|]. intros res1 r _ H1.
  apply fold_keeps; [done|]. intros res2 f _ H2. case_match; [done|by apply unselect_ok..].
Qed.

Lemma drop_field_ok m diffs f : diffs_ok diffs → diffs_ok (drop_field m diffs f).
Proof.
  intros [Hd Hf]. unfold drop_field. destruct (obj_get m diffs) as [d|] eqn:E; [|done]. destruct (obj_has f d); [|done].
  destruct (Hf m d E) as [Hnd Hk].
  assert (Hdel : NoDup (map fst (obj_delete f d)) ∧ ∀ g, g ∈ map fst (obj_delete f d) → g ∈ SYNC_FIELD_ORDER).
  { split; [by apply NoDup_keys_delete|]. intros g [_ Hg]%keys_delete. auto. }
  destruct (obj_delete f d) as [|kv d'] eqn:E'.
  - split; [by apply NoDup_keys_delete|]. intros m' d''. rewrite obj_get_delete. case_match; [done|apply Hf].
  - split; [by apply NoDup_keys_set|]. intros m' d''. rewrite obj_get_set. case_match; [intros [= <-]; exact Hdel|apply Hf].
Qed.

Lemma step_ok ev st : can ev st → diffs_ok (differences st) → choices_ok (resolutions st) →
  diffs_ok (differences (sync_step ev st)) ∧ choices_ok (resolutions (sync_step ev st)).
Proof.
  assert (Hnil : choices_ok []) by (split; [apply NoDup_nil_2|done]).
  intros Hc Hd Hr. destruct Hc; cbn [sync_step]; try done.
  - case_match; [|done]. split; [done|]. eapply select_ok; [done|by apply data_row|by eapply row_field_known|done].
  - split; [done|]. by apply unselect_ok.
  - split; [done|]. by apply bulk_select_ok.
  - split; [done|]. by apply bulk_unselect_ok.
  - split; [|done]. cbn [differences]. apply fold_keeps; [done|]. intros diffs entry _ H1. unfold drop_resolved.
    apply fold_keeps; [done|]. intros diffs' f _ H2. by apply drop_field_ok.
Qed.

Lemma reach_ok st : reach st → diffs_ok (differences st) ∧ choices_ok (resolutions st).
Proof.
  induction 1 as [|ev st _ [Hd Hr] Hc]; [|by apply step_ok].
  split; (split; [apply NoDup_nil_2|done]).
Qed.

(** C17. Whatever the user selects, one by one or by columns, and however often
    prices are fetched and synchronised, the choices for a model never mix a
    price per request with ratios, hold an expression only with a billing mode,
    and name only known fields, each once. *)
Theorem choices_consistent st m fields : reach st → obj_get m (resolutions st) = Some fields → chosen_ok fields.
Proof. intros [_ [_ H]]%reach_ok. apply H. Qed.

(** ** What is written *)

Definition sent_value (s : Setting) (v : jsval) : jsval := if numeric s then JNum (to_number v) else v.

(** The entry of a model in a setting after the synchronisation: the chosen
    value; nothing where the choice is of the other kind of price; else what it
    was. *)
Definition synced_entry (fields : obj jsval) (s : Setting) (old : option jsval) : option jsval :=
  match obj_get (field_of s) fields with
  | Some v => Some (sent_value s v)
  | None =>
      match kind s with
      | CRatio => if obj_has model_price fields then None else old
      | CPrice => if has_ratio fields then None else old
      | CTiered => old
      end
  end.

Lemma write_fields m l maps : NoDup (map fst l) → (∀ f, f ∈ map fst l → f ∈ SYNC_FIELD_ORDER) →
  ∃ maps', fold_left (λ acc kv, maps ← acc; write_field m maps kv) l (Ret maps) = Ret maps' ∧
    ∀ s n, obj_get n (maps' s) =
      if decide (n = m) then match obj_get (field_of s) l with Some v => Some (sent_value s v) | None => obj_get n (maps s) end
      else obj_get n (maps s).
Proof.
  revert maps. induction l as [|[f v] l IH]; intros maps Hd Hk.
  - exists maps. split; [done|]. intros s n. by case_decide.
  - cbn [map fst] in *. apply NoDup_cons in Hd as [Hf Hd]. destruct (known_field f) as [s0 ->]; [apply Hk; by left|].
    assert (Hw : write_field m maps (field_of s0, v) = Ret (update s0 (obj_set m (if numeric s0 then JNum (to_number v) else v)) maps)).
    { unfold write_field. cbn [fst snd]. by rewrite setting_of_field, field_numeric. }
    cbn [fold_left mbind outcome_bind]. rewrite Hw.
    destruct (IH (update s0 (obj_set m (if numeric s0 then JNum (to_number v) else v)) maps) Hd) as (maps' & E & Hm).
    { intros f Hf'. apply Hk. by right. }
    exists maps'. split; [exact E|]. intros s n. rewrite Hm. cbn [obj_get]. rewrite update_get.
    destruct (decide (s = s0)) as [->|Hs].
    + rewrite str_eqb_refl. destruct (decide (n = m)) as [->|Hn]; [|by rewrite obj_get_set_ne].
      destruct (obj_get (field_of s0) l) eqn:El; [by apply obj_get_key in El|]. by rewrite obj_get_set_eq.
    + replace (str_eqb (field_of s) (field_of s0)) with false; [done|].
      symmetry. unfold str_eqb. apply bool_decide_eq_false_2. by intros ?%field_of_inj.
Qed.

Lemma sync_model_entry maps m fields : chosen_ok fields →
  ∃ maps', sync_model maps (m, fields) = Ret maps' ∧
    ∀ s n, obj_get n (maps' s) = if decide (n = m) then synced_entry fields s (obj_get n (maps s)) else obj_get n (maps s).
Proof.
  intros [Hd Hk _ _]. unfold sync_model. cbv zeta.
  set (maps1 := if obj_has model_price fields then _ else _). set (maps2 := if has_ratio fields then _ else _).
  destruct (write_fields m (own_entries fields) maps2) as (maps' & E & Hm).
  { by apply own_keys_NoDup. } { intros f Hf. apply Hk. by rewrite own_entries_perm in Hf. }
  exists maps'. split; [exact E|]. intros s n. rewrite Hm, obj_get_own by done.
  assert (H1 : obj_get n (maps1 s) = if decide (n = m) then (if obj_has model_price fields && bool_decide (kind s = CRatio) then None
                                        else obj_get n (maps s)) else obj_get n (maps s)).
  { unfold maps1. destruct (obj_has model_price fields); cbn [andb]; [|by case_decide].
    destruct (decide (s ∈ ratio_settings)) as [Hs|Hs]; rewrite ratio_setting in Hs.
    - rewrite bool_decide_eq_true_2, get_delete by done. done.
    - rewrite bool_decide_eq_false_2 by done. by case_decide. }
  assert (H2 : obj_get n (maps2 s) = if decide (n = m) then (if has_ratio fields && bool_decide (kind s = CPrice) then None
                                        else obj_get n (maps1 s)) else obj_get n (maps s)).
  { assert (Ho : ¬ n = m → obj_get n (maps1 s) = obj_get n (maps s)) by (intros ?; by rewrite H1, decide_False).
    unfold maps2. destruct (has_ratio fields); cbn [andb]; [|case_decide; auto]. rewrite update_get.
    destruct (decide (s = ModelPrice)) as [->|Hs].
    - rewrite get_delete. case_decide; auto.
    - rewrite bool_decide_eq_false_2 by by destruct s. case_decide; auto. }
  rewrite H2, H1. unfold synced_entry. case_decide; [|done]. destruct (obj_get (field_of s) fields); [done|].
  destruct (kind s); cbn [bool_decide]; destruct (has_ratio fields), (obj_has model_price fields); reflexivity.
Qed.

Lemma sync_all_entries l maps : NoDup (map fst l) → Forall (λ e, chosen_ok e.2) l →
  ∃ maps', fold_left (λ acc entry, maps ← acc; sync_model maps entry) l (Ret maps) = Ret maps' ∧
    ∀ s n, obj_get n (maps' s) = match obj_get n l with Some fields => synced_entry fields s (obj_get n (maps s)) | None => obj_get n (maps s) end.
Proof.
  revert maps. induction l as [|[m fields] l IH]; intros maps Hd Hl; [by exists maps|].
  cbn [map fst] in Hd. apply NoDup_cons in Hd as [Hm Hd]. apply Forall_cons in Hl as [Hf Hl]. cbn [snd] in Hf.
  destruct (sync_model_entry maps m fields Hf) as (maps1 & E1 & H1). destruct (IH maps1 Hd Hl) as (maps' & E & H').
  exists maps'. cbn [fold_left mbind outcome_bind]. rewrite E1. split; [exact E|]. intros s n. rewrite H', H1. cbn [obj_get].
  destruct (str_eqb n m) eqn:En.
  - apply str_eqb_eq in En as ->. rewrite decide_True by done. destruct (obj_get m l) eqn:El; [by apply obj_get_key in El|done].
  - rewrite decide_False; [done|]. intros ->. by rewrite str_eqb_refl in En.
Qed.

Lemma final_entries res current : choices_ok res →
  ∃ maps', finalRatios res current = Ret maps' ∧
    ∀ s n, obj_get n (maps' s) =
      match obj_get n res with Some fields => synced_entry fields s (obj_get n (current s)) | None => obj_get n (current s) end.
Proof.
  intros [Hd Hr]. unfold finalRatios. destruct (sync_all_entries (own_entries res) current) as (maps' & E & Hm).
  - by apply own_keys_NoDup.
  - rewrite own_entries_perm. apply Forall_forall. intros [m fields] Hin. apply (Hr m). by apply obj_get_in.
  - exists maps'. split; [exact E|]. intros s n. by rewrite Hm, obj_get_own.
Qed.

Lemma has_ratio_swap fields : has_ratio fields = existsb (λ f, bool_decide (f ∈ own_keys fields)) RATIO_SYNC_FIELDS.
Proof.
  unfold has_ratio. apply eq_true_iff_eq. rewrite !existsb_exists. split.
  - intros (f & Hf & Hr%bool_decide_eq_true). exists f. split; [by apply list_elem_of_In|]. apply bool_decide_eq_true. by apply list_elem_of_In.
  - intros (f & Hf & Hr%bool_decide_eq_true). exists f. split; [by apply list_elem_of_In|]. apply bool_decide_eq_true. by apply list_elem_of_In.
Qed.

(** The kind of price chosen is that of a chosen field, or an expression. *)
Lemma new_kind fields : NoDup (map fst fields) → (∀ f, f ∈ map fst fields → f ∈ SYNC_FIELD_ORDER) →
  new_category fields = CTiered ∨ ∃ f, f ∈ map fst fields ∧ getBillingCategory f = new_category fields.
Proof.
  intros Hd Hk. unfold new_category. destruct (obj_has model_price fields) eqn:Ep.
  - right. exists model_price. split; [|vm_compute; reflexivity]. unfold obj_has in Ep.
    destruct (obj_get model_price fields) eqn:E; [|done]. by eapply obj_get_key.
  - rewrite <- has_ratio_swap. destruct (has_ratio fields) eqn:Er; [|by left]. right.
    unfold has_ratio in Er. apply existsb_exists in Er as (f & Hf & Hr%bool_decide_eq_true). exists f.
    apply list_elem_of_In in Hf. unfold own_keys in Hf. rewrite own_entries_perm in Hf. split; [done|].
    destruct (known_field f (Hk f Hf)) as [s ->]. rewrite field_category. by apply ratio_field.
Qed.

(** C26. Synchronising refines the update of the settings by the choices: every
    chosen field of every model gets the chosen value (as a number but for mode
    and expression), the other kind of price of that model is removed, and all
    other entries stay.  It never throws, and afterwards a model for which a price
    or a ratio was chosen does not have both; one for which only an expression was
    chosen keeps what it had. *)
Theorem sync_refines st current : reach st →
  ∃ maps', finalRatios (resolutions st) current = Ret maps' ∧
    (∀ s n, obj_get n (maps' s) =
       match obj_get n (resolutions st) with
       | Some fields => synced_entry fields s (obj_get n (current s))
       | None => obj_get n (current s)
       end) ∧
    ∀ n fields s, obj_get n (resolutions st) = Some fields → new_category fields ≠ CTiered → kind s ≠ CTiered →
      kind s ≠ new_category fields → obj_get n (maps' s) = None.
Proof.
  intros [_ Hr]%reach_ok. destruct (final_entries (resolutions st) current Hr) as (maps' & E & Hm).
  exists maps'. split; [done|]. split; [done|]. intros n fields s Hn Hc Hs Hne. rewrite Hm, Hn.
  pose proof (proj2 Hr n fields Hn) as [Hd Hk Hkind _]. unfold synced_entry.
  pose proof (new_kind fields Hd Hk) as Hnew.
  destruct (obj_get (field_of s) fields) as [v|] eqn:Es.
  - exfalso. apply obj_get_key in Es. destruct Hnew as [Hnew|(f & Hf & Hfc)]; [done|].
    apply Hne. rewrite <- field_category, <- Hfc. apply Hkind; [done|done|by rewrite field_category|by rewrite Hfc].
  - unfold new_category in *. destruct (obj_has model_price fields).
    + destruct (kind s); done.
    + replace (existsb _ RATIO_SYNC_FIELDS) with (has_ratio fields) in * by apply has_ratio_swap.
      destruct (has_ratio fields); [by destruct (kind s)|done].
Qed.

(** ** Questions *)

Lemma conflict_models t diffs current res :
  map ci_model (conflict_items t diffs current res) = map fst (List.filter (λ e, is_conflict current e.1 e.2) (own_entries res)).
Proof.
  unfold conflict_items. cbv zeta. induction (own_entries res) as [|[m fields] l IH]; [done|].
  cbn [map concat List.filter fst snd]. rewrite map_app, IH.
  destruct (getLocalBillingCategory m current) as [c|] eqn:E.
  - destruct (is_conflict current m fields); done.
  - unfold is_conflict. by rewrite E.
Qed.

Lemma local_price m current : obj_has m (current ModelPrice) = true → getLocalBillingCategory m current = Some CPrice.
Proof. intros H. unfold getLocalBillingCategory. by rewrite H. Qed.

Lemma local_ratio m s current : obj_has m (current ModelPrice) = false → kind s = CRatio → obj_has m (current s) = true →
  getLocalBillingCategory m current = Some CRatio.
Proof.
  intros Hp Hs H. unfold getLocalBillingCategory. rewrite Hp. replace (existsb _ ratio_settings) with true; [done|].
  symmetry. apply existsb_exists. exists s. split; [|done]. apply list_elem_of_In. by apply ratio_setting.
Qed.

Lemma has_get {V} k (o : obj V) v : obj_get k o = Some v → obj_has k o = true.
Proof. intros E. unfold obj_has. by rewrite E. Qed.

(** A model without both kinds of price and without a conflict loses nothing. *)
Lemma no_conflict_keeps current m fields s v :
  (∀ s', kind s' = CRatio → obj_has m (current s') = true → obj_has m (current ModelPrice) = false) →
  is_conflict current m fields = false → obj_get m (current s) = Some v → is_Some (synced_entry fields s (obj_get m (current s))).
Proof.
  intros Hone Hc Hv. unfold synced_entry. destruct (obj_get (field_of s) fields) eqn:Ef; [done|]. rewrite Hv.
  unfold is_conflict, new_category in Hc. rewrite <- has_ratio_swap in Hc. apply has_get in Hv.
  destruct (kind s) eqn:Ek.
  - assert (s = ModelPrice) as -> by by destruct s. rewrite (local_price m current Hv) in Hc.
    destruct (has_ratio fields); [|done]. change (field_of ModelPrice) with model_price in Ef.
    unfold obj_has in Hc. rewrite Ef in Hc. by vm_compute in Hc.
  - destruct (obj_has model_price fields); [|done]. rewrite (local_ratio m s current) in Hc; [by vm_compute in Hc|by eapply Hone|done|done].
  - done.
Qed.

(** Nothing disappears without a question: when no model has both a price and
    ratios, applying the choices either lists exactly the models that would
    change their kind of price and sends nothing, or sends all ten settings with
    every entry of every model still there or replaced. *)
Theorem sync_asks_first t current st : reach st →
  (∀ m s, kind s = CRatio → obj_has m (current s) = true → obj_has m (current ModelPrice) = false) →
  (∃ st' items, handleApplySync t current st = Ret (st', None) ∧ conflictOpen st' = true ∧ conflictItems st' = items ∧ items ≠ [] ∧
     map ci_model items = map fst (List.filter (λ e, is_conflict current e.1 e.2) (own_entries (resolutions st)))) ∨
  (∃ maps', handleApplySync t current st = Ret (st, Some (sync_updates maps')) ∧
     ∀ s m v, obj_get m (current s) = Some v → is_Some (obj_get m (maps' s))).
Proof.
  intros [_ Hr]%reach_ok Hone. unfold handleApplySync.
  pose proof (conflict_models t (differences st) current (resolutions st)) as Hm.
  destruct (conflict_items _ _ _ _) as [|item items].
  - right. destruct (final_entries (resolutions st) current Hr) as (maps' & E & He). rewrite E. exists maps'. split; [done|].
    intros s m v Hv. rewrite He. destruct (obj_get m (resolutions st)) as [fields|] eqn:Ef; [|by rewrite Hv].
    apply (no_conflict_keeps current m fields s v); [by apply Hone| |done].
    destruct (is_conflict current m fields) eqn:Ec; [|done]. exfalso.
    assert (Hin : In (m, fields) (List.filter (λ e, is_conflict current e.1 e.2) (own_entries (resolutions st)))).
    { apply filter_In. split; [|done]. apply list_elem_of_In, elem_of_own_entries. by apply obj_get_entry. }
    apply (in_map fst) in Hin. by rewrite <- Hm in Hin.
  - left. eexists _, _. split; [reflexivity|]. done.
Qed.

(** Choices of prices and ratios leave the billing mode and the expression of a
    model alone, and these do not count as a conflict: a model billed by an
    expression is still billed by it after its price was synchronised. *)
Lemma tiered_model_keeps_mode st current n fields : reach st → obj_get n (resolutions st) = Some fields →
  obj_get billing_mode fields = None → obj_get billing_expr fields = None →
  ∃ maps', finalRatios (resolutions st) current = Ret maps' ∧
    obj_get n (maps' BillingMode) = obj_get n (current BillingMode) ∧ obj_get n (maps' BillingExpr) = obj_get n (current BillingExpr).
Proof.
  intros [_ Hr]%reach_ok Hn Hm He. destruct (final_entries (resolutions st) current Hr) as (maps' & E & Hent).
  exists maps'. split; [done|]. rewrite !Hent, Hn. unfold synced_entry. cbn [field_of kind]. by rewrite Hm, He.
Qed.

(** ** The fields of a row *)

(** A row shows every field of a model that differs, once: the known ones in
    their fixed order, then any others. *)
Theorem ordered_types_complete d : NoDup (map fst d) → 
  getOrderedRatioTypes d [] ≡ₚ own_keys d ∧
  sublist (filter (λ f, f ∈ SYNC_FIELD_ORDER) (getOrderedRatioTypes d [])) SYNC_FIELD_ORDER.
Proof.
  intros Hd. unfold getOrderedRatioTypes. cbv zeta. cbn [str_truthy negb orb].
  assert (Hk : NoDup (own_keys d)) by by apply own_keys_NoDup.
  assert (Ho : NoDup SYNC_FIELD_ORDER) by (apply (bool_decide_eq_true_1 _); vm_compute; reflexivity).
  set (K := filter (λ f, f ∈ own_keys d) SYNC_FIELD_ORDER). set (R := filter (λ f, f ∉ SYNC_FIELD_ORDER) (own_keys d)).
  assert (HK : Forall (λ f, f ∈ SYNC_FIELD_ORDER) K) by (apply Forall_forall; by intros f [_ ?]%list_elem_of_filter).
  assert (HR : Forall (λ f, ¬ f ∈ SYNC_FIELD_ORDER) R) by (apply Forall_forall; by intros f [? _]%list_elem_of_filter).
  split.
  - apply NoDup_Permutation; [|done|].
    + apply NoDup_app. split; [by apply NoDup_filter|]. split; [|by apply NoDup_filter].
      intros f Hf Hf'. rewrite Forall_forall in HK, HR. by apply (HR f), HK.
    + intros f. unfold K, R. rewrite elem_of_app, !list_elem_of_filter. destruct (decide (f ∈ SYNC_FIELD_ORDER)); tauto.
  - rewrite filter_app, filter_id by done. rewrite (filter_none _ R) by done. rewrite app_nil_r. apply sublist_filter.
Qed.

(** ** Examples *)

Definition differing (upstream : jstr) (v : jsval) : RatioDifference :=
  {| df_current := JNull; df_upstreams := [(upstream, v)]; df_confidence := [] |}.

(** A channel with a price per request for a model, and another one with a ratio. *)
Definition sample_diffs : Differences :=
  [(js "gpt", [(js "model_ratio", differing (js "B") (JNum (of_Z 3))); (js "model_price", differing (js "A") (JNum (of_Z 1)))])].

Definition sample_row : SyncRow := {| sr_model := js "gpt"; sr_ratioTypes := default [] (obj_get (js "gpt") sample_diffs);
  sr_billingConflict := true |}.

Definition sample_sync (f upstream : jstr) : Sync := sync_step (SelectCell sample_row f upstream) (sync_step (Fetched sample_diffs) mountSync).

Lemma sample_diffs_ok : diffs_ok sample_diffs.
Proof.
  split; [apply (bool_decide_eq_true_1 _); vm_compute; reflexivity|]. intros m d E. apply obj_get_entry in E.
  apply list_elem_of_singleton in E. injection E as -> ->.
  split; [apply (bool_decide_eq_true_1 _); vm_compute; reflexivity|]. intros f Hf.
  cbn [map fst] in Hf. rewrite !elem_of_cons, elem_of_nil in Hf.
  destruct Hf as [->|[->|[]]]; apply (bool_decide_eq_true_1 _); vm_compute; reflexivity.
Qed.

Lemma sample_reach f upstream : f ∈ getOrderedRatioTypes (sr_ratioTypes sample_row) [] → upstream ≠ [] → reach (sample_sync f upstream).
Proof.
  intros Hf Hu. constructor; [constructor; [constructor|constructor; apply sample_diffs_ok]|]. constructor; [|done|done].
  apply list_elem_of_singleton. reflexivity.
Qed.

Lemma sample_fields : js "model_ratio" ∈ getOrderedRatioTypes (sr_ratioTypes sample_row) [] ∧
  js "model_price" ∈ getOrderedRatioTypes (sr_ratioTypes sample_row) [].
Proof. split; apply (bool_decide_eq_true_1 _); vm_compute; reflexivity. Qed.

Lemma choices_consistent_witness :
  let st := sync_step (SelectCell sample_row (js "model_price") (js "A")) (sample_sync (js "model_ratio") (js "B")) in
  reach st ∧ chosen_ok [(js "model_price", JNum (of_Z 1))].
Proof.
  assert (Hr : reach (sync_step (SelectCell sample_row (js "model_price") (js "A")) (sample_sync (js "model_ratio") (js "B")))).
  { constructor; [apply sample_reach; [apply sample_fields|discriminate]|]. constructor; [|apply sample_fields|discriminate].
    apply list_elem_of_singleton. reflexivity. }
  split; [exact Hr|]. apply (choices_consistent _ (js "gpt") [(js "model_price", JNum (of_Z 1))] Hr). vm_compute. reflexivity.
Defined.

(** The model has a ratio; the price of a channel is chosen. *)
Definition local_maps (price : obj jsval) : Maps := λ s,
  match s with ModelRatio => [(js "gpt", JNum (of_Z 2))] | ModelPrice => price | _ => [] end.

Lemma sync_refines_witness :
  ∃ maps', finalRatios (resolutions (sample_sync (js "model_price") (js "A"))) (local_maps []) = Ret maps' ∧
    obj_get (js "gpt") (maps' ModelPrice) = Some (JNum (of_Z 1)) ∧ obj_get (js "gpt") (maps' ModelRatio) = None.
Proof.
  destruct (sync_refines (sample_sync (js "model_price") (js "A")) (local_maps [])) as (maps' & E & Hm & _).
  - apply sample_reach; [apply sample_fields|discriminate].
  - exists maps'. split; [exact E|]. rewrite !Hm. split; vm_compute; reflexivity.
Defined.

Lemma sync_asks_first_witness :
  let st := sample_sync (js "model_price") (js "A") in
  reach st ∧ ∃ st' items, handleApplySync id (local_maps []) st = Ret (st', None) ∧ conflictItems st' = items ∧ map ci_model items = [js "gpt"].
Proof.
  assert (Hr : reach (sample_sync (js "model_price") (js "A"))) by (apply sample_reach; [apply sample_fields|discriminate]).
  split; [exact Hr|].
  destruct (sync_asks_first id (local_maps []) (sample_sync (js "model_price") (js "A")) Hr)
    as [(st' & items & E & _ & Hi & _ & Hm)|(maps' & E & _)].
  - intros m s _ _. reflexivity.
  - exists st', items. split; [exact E|]. split; [exact Hi|]. etransitivity; [exact Hm|]. vm_compute. reflexivity.
  - exfalso. assert (E' : match handleApplySync id (local_maps []) (sample_sync (js "model_price") (js "A")) with
                          Ret (_, None) => true | _ => false end = true) by (vm_compute; reflexivity).
    rewrite E in E'. discriminate E'.
Defined.

Lemma ordered_types_complete_witness :
  NoDup (map fst (sr_ratioTypes sample_row)) ∧ getOrderedRatioTypes (sr_ratioTypes sample_row) [] ≡ₚ own_keys (sr_ratioTypes sample_row).
Proof.
  assert (H : NoDup (map fst (sr_ratioTypes sample_row))) by (apply (bool_decide_eq_true_1 _); vm_compute; reflexivity).
  split; [exact H|]. exact (proj1 (ordered_types_complete (sr_ratioTypes sample_row) H)).
Defined.

(** A model that has both a price and a ratio counts as priced: choosing another
    price for it deletes the ratio without a question. *)
Lemma both_kinds_unasked :
  let st := sample_sync (js "model_price") (js "A") in
  let current := local_maps [(js "gpt", JNum (of_Z 5))] in
  conflict_items id (differences st) current (resolutions st) = [] ∧
  ∃ maps', finalRatios (resolutions st) current = Ret maps' ∧ obj_get (js "gpt") (maps' ModelRatio) = None.
Proof.
  cbv zeta. split; [vm_compute; reflexivity|].
  destruct (final_entries (resolutions (sample_sync (js "model_price") (js "A"))) (local_maps [(js "gpt", JNum (of_Z 5))])) as (maps' & E & Hm).
  - apply reach_ok, sample_reach; [apply sample_fields|discriminate].
  - exists maps'. split; [exact E|]. rewrite Hm. vm_compute. reflexivity.
Qed.
