(* ===== verification/Encoding.v ===== *)
(** * Encodings of the platform

    [atob] and [btoa], the UTF-8 decoder of [TextDecoder] and
    [encodeURIComponent], written out from their standards, with encoders and
    decoders as specifications and the laws that connect them. *)

From S2P Require Import Prelude JsNumber JsString.

Open Scope N_scope.

(** ** Base64 and UTF-8, read *)

Definition b64_value (c : N) : option N :=
  (if (65 <=? c) && (c <=? 90) then Some (c - 65)
   else if (97 <=? c) && (c <=? 122) then Some (c - 71)
   else if (48 <=? c) && (c <=? 57) then Some (c + 4)
   else if c =? 43 then Some 62 else if c =? 47 then Some 63 else None).

Definition ascii_space (c : N) : bool := ((c =? 9) || (c =? 10) || (c =? 12) || (c =? 13) || (c =? 32)).

Definition strip_padding (s : jstr) : jstr :=
  match rev s with
  | 61 :: 61 :: t => rev t
  | 61 :: t => rev t
  | _ => s
  end.

(** Groups of four six-bit values are three bytes; a last group of two or three
    values is one or two, and the bits left over are dropped. *)
Fixpoint b64_bytes (l : list N) : list N :=
  match l with
  | a :: b :: c :: d :: l =>
      let n := (((a * 64 + b) * 64 + c) * 64 + d) in (n / 65536 :: n / 256 mod 256 :: n mod 256 :: b64_bytes l)
  | [a; b; c] => let n := ((a * 64 + b) * 64 + c) in [n / 1024; n / 4 mod 256]
  | [a; b] => [(a * 64 + b) / 16]
  | _ => []
  end.

(** [window.atob]: the forgiving decoder; [None] where it throws. *)
Definition atob (data : jstr) : option (list N) :=
  let data := List.filter (λ c, negb (ascii_space c)) data in
  let data := if Nat.eqb (length data mod 4) 0 then strip_padding data else data in
  if Nat.eqb (length data mod 4) 1 then None else b64_bytes <$> mapM b64_value data.

(** The decoder of [TextDecoder]: [needed] continuation bytes are missing from
    the code point [cp]; the next one is in a range. *)
Record utf8_state := { needed : nat; cp : N; lower : N; upper : N }.

Definition utf8_ready : utf8_state := {| needed := 0; cp := 0; lower := 128; upper := 191 |}.
Definition replacement : N := 65533.

Definition utf8_start (b : N) : utf8_state * list N :=
  (if b <? 128 then (utf8_ready, [b])
   else if (194 <=? b) && (b <=? 223) then ({| needed := 1; cp := b - 192; lower := 128; upper := 191 |}, [])
   else if (224 <=? b) && (b <=? 239) then
     ({| needed := 2; cp := b - 224; lower := if b =? 224 then 160 else 128; upper := if b =? 237 then 159 else 191 |}, [])
   else if (240 <=? b) && (b <=? 244) then
     ({| needed := 3; cp := b - 240; lower := if b =? 240 then 144 else 128; upper := if b =? 244 then 143 else 191 |}, [])
   else (utf8_ready, [replacement])).

Definition utf8_next (st : utf8_state) (b : N) : utf8_state * list N :=
  match needed st with
  | O => utf8_start b
  | S n =>
      if ((lower st <=? b) && (b <=? upper st)) then
        let c := (cp st * 64 + (b - 128)) in
        match n with
        | O => (utf8_ready, [c])
        | S _ => ({| needed := n; cp := c; lower := 128; upper := 191 |}, [])
        end
      else let '(st', out) := utf8_start b in (st', replacement :: out)
  end.

Fixpoint utf8_points (st : utf8_state) (bytes : list N) : list N :=
  match bytes with
  | [] => match needed st with O => [] | S _ => [replacement] end
  | b :: bytes => let '(st', out) := utf8_next st b in out ++ utf8_points st' bytes
  end.

(** [new TextDecoder().decode(bytes)], which drops a byte order mark. *)
Definition text_decode (bytes : list N) : jstr :=
  let points := utf8_points utf8_ready bytes in
  concat (map utf16 (match points with c :: l => if (c =? 65279) then l else points | [] => [] end)).

(** ** Base64 and UTF-8, written *)

Definition b64_char (d : N) : N :=
  if d <? 26 then d + 65 else if d <? 52 then d + 71 else if d <? 62 then d - 4 else if d =? 62 then 43 else 47.

(** The six-bit digits of a sequence of bytes, and the padding. *)
Fixpoint b64_digits (bytes : list N) : list N :=
  match bytes with
  | a :: b :: c :: l => a / 4 :: a mod 4 * 16 + b / 16 :: b mod 16 * 4 + c / 64 :: c mod 64 :: b64_digits l
  | [a; b] => [a / 4; a mod 4 * 16 + b / 16; b mod 16 * 4]
  | [a] => [a / 4; a mod 4 * 16]
  | [] => []
  end.

Fixpoint b64_padding (bytes : list N) : list N :=
  match bytes with
  | _ :: _ :: _ :: l => b64_padding l
  | [_; _] => [61]
  | [_] => [61; 61]
  | [] => []
  end.

Definition base64 (bytes : list N) : jstr := map b64_char (b64_digits bytes) ++ b64_padding bytes.

(** A code point that is no surrogate. *)
Definition scalar (c : N) : Prop := c < 55296 ∨ (57344 ≤ c ∧ c < 1114112).

Definition utf8 (c : N) : list N :=
  if c <? 128 then [c]
  else if c <? 2048 then [192 + c / 64; 128 + c mod 64]
  else if c <? 65536 then [224 + c / 4096; 128 + c / 64 mod 64; 128 + c mod 64]
  else [240 + c / 262144; 128 + c / 4096 mod 64; 128 + c / 64 mod 64; 128 + c mod 64].

Definition is_byte (b : N) : Prop := b < 256.

(** ** What is written is read *)

Ltac euclid := zify; Z.to_euclidean_division_equations; lia.

(** Induction by groups of three bytes. *)
Lemma bytes_ind (P : list N → Prop) :
  P [] → (∀ a, P [a]) → (∀ a b, P [a; b]) → (∀ a b c l, P l → P (a :: b :: c :: l)) → ∀ l, P l.
Proof.
  intros H0 H1 H2 H3. fix IH 1. intros [|a [|b [|c l]]]; [exact H0|apply H1|apply H2|apply H3, IH].
Qed.

Lemma b64_digits_lt bytes : Forall is_byte bytes → Forall (λ d, d < 64) (b64_digits bytes).
Proof.
  unfold is_byte. induction bytes as [|a|a b|a b c l IH] using bytes_ind; intros H; repeat (apply Forall_cons in H as [? H]);
    cbn [b64_digits]; repeat (apply Forall_cons; split; [euclid|]); auto.
Qed.

Lemma b64_bytes_digits bytes : Forall is_byte bytes → b64_bytes (b64_digits bytes) = bytes.
Proof.
  unfold is_byte. induction bytes as [|a|a b|a b c l IH] using bytes_ind; intros H; repeat (apply Forall_cons in H as [? H]);
    cbn [b64_digits b64_bytes]; [done| | |rewrite IH by done]; repeat (apply (f_equal2 cons); [euclid|]); done.
Qed.

Lemma b64_length bytes :
  ((length (b64_digits bytes) + length (b64_padding bytes)) mod 4 = 0 ∧ length (b64_digits bytes) mod 4 ≠ 1)%nat.
Proof.
  induction bytes as [|a|a b|a b c l [IH1 IH2]] using bytes_ind; cbn [b64_digits b64_padding length]; try done.
  split; [rewrite <- IH1|intros E; apply IH2; rewrite <- E]; euclid.
Qed.

Lemma b64_char_facts d : d < 64 →
  b64_value (b64_char d) = Some d ∧ ascii_space (b64_char d) = false ∧ b64_char d ≠ 61.
Proof.
  intros Hd. assert (Forall (λ d, b64_value (b64_char d) = Some d ∧ ascii_space (b64_char d) = false ∧ b64_char d ≠ 61)
    (map N.of_nat (seq 0 64))) as H by (apply (bool_decide_unpack _); vm_compute; exact I).
  rewrite Forall_forall in H. apply H, list_elem_of_In, in_map_iff. exists (N.to_nat d). rewrite N2Nat.id, in_seq. lia.
Qed.

Lemma strip_padding_digits bytes ds : Forall (λ c, c ≠ 61) ds → strip_padding (ds ++ b64_padding bytes) = ds.
Proof.
  intros Hds. assert (b64_padding bytes ∈ [[]; [61]; [61; 61]]) as Hp.
  { induction bytes as [|a|a b|a b c l IH] using bytes_ind; cbn [b64_padding]; [by left|by right; right; left|by right; left|exact IH]. }
  assert (∀ c l, rev ds = c :: l → c ≠ 61) as Hr.
  { intros c l E. rewrite Forall_forall in Hds. apply Hds. apply list_elem_of_In, in_rev. rewrite E. by left. }
  pose proof (rev_involutive ds) as Hi. unfold strip_padding. rewrite rev_app_distr.
  destruct (rev ds) as [|c l]; [rewrite <- Hi|specialize (Hr c l eq_refl)];
    repeat (apply elem_of_cons in Hp as [->|Hp]); cbn [rev app]; try done; try by apply not_elem_of_nil in Hp.
  all: rewrite ?app_nil_r; destruct c as [|p]; try done; repeat (destruct p as [p|p|]; try done).
Qed.

Lemma atob_base64 bytes : Forall is_byte bytes → atob (base64 bytes) = Some bytes.
Proof.
  intros H. pose proof (b64_digits_lt bytes H) as Hd. destruct (b64_length bytes) as [L1 L2].
  assert (List.filter (λ c, negb (ascii_space c)) (base64 bytes) = base64 bytes) as Hf.
  { unfold base64. rewrite List.filter_app. f_equal; [|clear; induction bytes using bytes_ind; done].
    clear -Hd. induction Hd as [|d ds Hd _ IH]; [done|]. cbn [map List.filter].
    destruct (b64_char_facts d Hd) as (_ & -> & _). by rewrite IH. }
  unfold atob. rewrite Hf. replace (length (base64 bytes) mod 4)%nat with 0%nat
    by (unfold base64; rewrite length_app, length_map; done).
  cbn [Nat.eqb]. unfold base64. rewrite strip_padding_digits.
  - rewrite length_map. destruct (Nat.eqb_spec (length (b64_digits bytes) mod 4) 1); [done|].
    replace (mapM b64_value (map b64_char (b64_digits bytes))) with (Some (b64_digits bytes)); cbn [fmap option_fmap option_map];
      [by rewrite b64_bytes_digits|].
    symmetry. apply mapM_Some. clear -Hd. induction Hd as [|d ds Hd _ IH]; constructor; [by apply b64_char_facts|done].
  - apply Forall_map. eapply Forall_impl; [exact Hd|]. intros d Hd'. by apply b64_char_facts.
Qed.

(** *** Code points *)

Lemma utf8_first b l st : b ≠ 0 → utf8_start b = (st, []) → utf8_points utf8_ready (b :: l) = utf8_points st l.
Proof. intros _ E. cbn [utf8_points]. unfold utf8_next. cbn [needed utf8_ready]. by rewrite E. Qed.

Lemma utf8_continue n c lo hi b l : lo ≤ b → b ≤ hi →
  utf8_points {| needed := S (S n); cp := c; lower := lo; upper := hi |} (b :: l) =
  utf8_points {| needed := S n; cp := c * 64 + (b - 128); lower := 128; upper := 191 |} l.
Proof.
  intros H1 H2. cbn [utf8_points]. unfold utf8_next. cbn [needed cp lower upper].
  by rewrite (proj2 (N.leb_le _ _) H1), (proj2 (N.leb_le _ _) H2).
Qed.

Lemma utf8_last c lo hi b l : lo ≤ b → b ≤ hi →
  utf8_points {| needed := 1; cp := c; lower := lo; upper := hi |} (b :: l) = c * 64 + (b - 128) :: utf8_points utf8_ready l.
Proof.
  intros H1 H2. cbn [utf8_points]. unfold utf8_next. cbn [needed cp lower upper].
  by rewrite (proj2 (N.leb_le _ _) H1), (proj2 (N.leb_le _ _) H2).
Qed.

(** Comparisons whose outcome arithmetic decides. *)
Ltac decide_order :=
  repeat match goal with
  | |- context [?a <? ?b] => first
      [rewrite (proj2 (N.ltb_lt a b)) by euclid | rewrite (proj2 (N.ltb_ge a b)) by euclid]
  | |- context [?a <=? ?b] => first
      [rewrite (proj2 (N.leb_le a b)) by euclid | rewrite (proj2 (N.leb_gt a b)) by euclid]
  end; cbn [andb].

(** The decoder reads a code point from its encoding. *)
Lemma utf8_points_cons c l : scalar c → utf8_points utf8_ready (utf8 c ++ l) = c :: utf8_points utf8_ready l.
Proof.
  unfold scalar, utf8. intros Hc.
  destruct (N.ltb_spec c 128); [|destruct (N.ltb_spec c 2048); [|destruct (N.ltb_spec c 65536)]]; cbn [app].
  - cbn [utf8_points]. unfold utf8_next, utf8_start. cbn [needed utf8_ready]. by decide_order.
  - erewrite utf8_first; [|lia|unfold utf8_start; by decide_order]. rewrite utf8_last by euclid. f_equal. euclid.
  - erewrite utf8_first; [|lia|unfold utf8_start; by decide_order].
    rewrite utf8_continue; [|destruct (N.eqb_spec (224 + c / 4096) 224); euclid|destruct (N.eqb_spec (224 + c / 4096) 237); euclid].
    rewrite utf8_last by euclid. f_equal. euclid.
  - erewrite utf8_first; [|lia|unfold utf8_start; by decide_order].
    rewrite utf8_continue; [|destruct (N.eqb_spec (240 + c / 262144) 240); euclid|destruct (N.eqb_spec (240 + c / 262144) 244); euclid].
    rewrite utf8_continue by euclid. rewrite utf8_last by euclid. f_equal. euclid.
Qed.

Lemma utf8_points_encode cs : Forall scalar cs → utf8_points utf8_ready (concat (map utf8 cs)) = cs.
Proof.
  induction 1 as [|c cs Hc _ IH]; [done|]. cbn [map concat]. by rewrite utf8_points_cons, IH.
Qed.

Lemma utf8_bytes cs : Forall scalar cs → Forall is_byte (concat (map utf8 cs)).
Proof.
  induction 1 as [|c cs Hc _ IH]; [done|]. cbn [map concat]. apply Forall_app. split; [|done].
  unfold scalar in Hc. unfold utf8, is_byte. repeat case_match; rewrite ?N.ltb_lt, ?N.ltb_ge in *;
    repeat (apply Forall_cons; split; [euclid|]); by apply Forall_nil.
Qed.

(** ** [btoa] and [encodeURIComponent] *)

(** [window.btoa]; it throws on a unit beyond Latin-1. *)
Definition btoa (s : jstr) : option jstr :=
  if forallb (λ c, c <? 256) s then Some (base64 s) else None.

(** The code points of a text; [None] where a surrogate stands alone. *)
Fixpoint code_points (s : jstr) : option (list N) :=
  match s with
  | [] => Some []
  | c :: s =>
      if (55296 <=? c) && (c <? 56320) then
        match s with
        | d :: s => if (56320 <=? d) && (d <? 57344)
                    then cons (65536 + (c - 55296) * 1024 + (d - 56320)) <$> code_points s else None
        | [] => None
        end
      else if (56320 <=? c) && (c <? 57344) then None
      else cons c <$> code_points s
  end.

Definition unreserved (c : N) : bool :=
  ((65 <=? c) && (c <=? 90)) || ((97 <=? c) && (c <=? 122)) || ((48 <=? c) && (c <=? 57)) ||
  bool_decide (c ∈ js "-_.!~*'()").

Definition hex_upper (d : N) : N := if d <? 10 then d + 48 else d + 55.

Definition percent (b : N) : jstr := [37; hex_upper (b / 16); hex_upper (b mod 16)].

Definition encode_point (c : N) : jstr := if unreserved c then [c] else concat (map percent (utf8 c)).

(** [None] where it throws. *)
Definition encodeURIComponent (s : jstr) : option jstr := (λ cs, concat (map encode_point cs)) <$> code_points s.

(** The bytes of an encoded text. *)
Definition hex_upper_value (c : N) : N := if c <? 58 then c - 48 else c - 55.

Fixpoint percent_decode (s : jstr) : list N :=
  match s with
  | [] => []
  | c :: s =>
      if c =? 37 then match s with a :: b :: s => hex_upper_value a * 16 + hex_upper_value b :: percent_decode s | _ => [] end
      else c :: percent_decode s
  end.

Lemma code_points_utf16 cs : Forall scalar cs → code_points (concat (map utf16 cs)) = Some cs.
Proof.
  unfold scalar. induction 1 as [|c cs Hc _ IH]; [done|]. cbn [map concat]. unfold utf16 at 1.
  destruct (N.ltb_spec c 65536); cbn [app code_points].
  - destruct ((55296 <=? c) && (c <? 56320)) eqn:E1; [lia|]. destruct ((56320 <=? c) && (c <? 57344)) eqn:E2; [lia|]. by rewrite IH.
  - assert ((c - 65536) / 1024 < 1024) by euclid. assert ((c - 65536) mod 1024 < 1024) by euclid.
    decide_order. rewrite IH. cbn [fmap option_fmap option_map]. do 2 f_equal. euclid.
Qed.

Lemma hex_upper_read d : d < 16 → hex_upper_value (hex_upper d) = d.
Proof. intros H. unfold hex_upper, hex_upper_value. destruct (N.ltb_spec d 10); decide_order; lia. Qed.

Lemma percent_read b l : is_byte b → percent_decode (percent b ++ l) = b :: percent_decode l.
Proof.
  unfold is_byte. intros Hb. unfold percent. cbn [app percent_decode]. change (37 =? 37) with true. cbn iota.
  rewrite !hex_upper_read by euclid. f_equal. euclid.
Qed.

Lemma unreserved_ascii c : unreserved c = true → c < 128 ∧ c ≠ 37.
Proof.
  unfold unreserved. rewrite !orb_true_iff, bool_decide_eq_true. intros [[[H|H]|H]|H]; [lia..|].
  assert (Forall (λ c, c < 128 ∧ c ≠ 37) (js "-_.!~*'()")) as Hf by (apply (bool_decide_unpack _); vm_compute; exact I).
  rewrite Forall_forall in Hf. by apply Hf.
Qed.

Lemma encoded_point_read c l : scalar c → percent_decode (encode_point c ++ l) = utf8 c ++ percent_decode l.
Proof.
  intros Hc. unfold encode_point. destruct (unreserved c) eqn:E.
  - apply unreserved_ascii in E as [H1 H2]. cbn [app percent_decode]. rewrite (proj2 (N.eqb_neq c 37)) by done.
    unfold utf8. by rewrite (proj2 (N.ltb_lt c 128)) by done.
  - assert (Forall is_byte (utf8 c)) as Hb.
    { pose proof (utf8_bytes [c] (Forall_cons_2 _ _ _ Hc (Forall_nil_2 _))) as H. cbn [map concat] in H. by rewrite app_nil_r in H. }
    induction Hb as [|b bs Hb _ IH]; [done|]. cbn [map concat app]. by rewrite <- app_assoc, percent_read, IH.
Qed.

(** What is sent in an address is read back byte by byte. *)
Lemma uri_roundtrip cs : Forall scalar cs →
  ∃ t, encodeURIComponent (concat (map utf16 cs)) = Some t ∧ percent_decode t = concat (map utf8 cs).
Proof.
  intros Hcs. unfold encodeURIComponent. rewrite code_points_utf16 by done. eexists. split; [reflexivity|].
  induction Hcs as [|c cs Hc _ IH]; [done|]. cbn [map concat]. by rewrite encoded_point_read, IH.
Qed.

Lemma utf16_basic cs : Forall (λ c, c < 65536) cs → concat (map utf16 cs) = cs.
Proof.
  induction 1 as [|c cs Hc _ IH]; [done|]. cbn [map concat]. unfold utf16 at 1. by rewrite (proj2 (N.ltb_lt c 65536)), IH by done.
Qed.

Lemma utf8_ascii cs : Forall (λ c, c < 128) cs → concat (map utf8 cs) = cs.
Proof.
  induction 1 as [|c cs Hc _ IH]; [done|]. cbn [map concat]. unfold utf8 at 1. by rewrite (proj2 (N.ltb_lt c 128)), IH by done.
Qed.

Lemma base64_ascii bytes : Forall is_byte bytes → Forall (λ c, c < 128) (base64 bytes).
Proof.
  intros H%b64_digits_lt. unfold base64. apply Forall_app. split.
  - apply Forall_map. eapply Forall_impl; [exact H|]. intros d Hd. cbn in *. unfold b64_char. repeat case_match; rewrite ?N.ltb_lt, ?N.ltb_ge, ?N.eqb_eq in *; lia.
  - clear H. induction bytes as [|a|a b|a b c l IH] using bytes_ind; cbn [b64_padding]; repeat constructor; done.
Qed.

(** A text of Latin-1 characters put into a link in base64 arrives as it was:
    decoding the escapes of the address and then base64 gives the characters. *)
Lemma base64_in_address s : Forall is_byte s → ∃ t, btoa s ≫= encodeURIComponent = Some t ∧ atob (percent_decode t) = Some s.
Proof.
  intros Hs. unfold btoa. rewrite (proj2 (forallb_forall _ _)) by (intros c Hc; apply N.ltb_lt; rewrite Forall_forall in Hs; by apply Hs, list_elem_of_In).
  cbn [mbind option_bind]. pose proof (base64_ascii s Hs) as Ha.
  destruct (uri_roundtrip (base64 s)) as (t & E & D); [eapply Forall_impl; [exact Ha|]; intros c Hc; left; cbn in *; lia|].
  rewrite utf16_basic in E by (eapply Forall_impl; [exact Ha|]; intros c Hc; cbn in *; lia). rewrite utf8_ascii in D by done.
  exists t. split; [done|]. rewrite D. by apply atob_base64.
Qed.
