(* ===== verification/UsageLogs.v ===== *)
(** * Usage logs (features/usage-logs)

    constants.ts, api.ts and lib (filter.ts, utils.ts, format.ts, status.ts,
    mappers.ts): the filters of the log pages, the requests they become, and the
    display of a log, whose [other] field is JSON text from the server and may
    carry the billing expression in base64 (see Encoding.v).  The current time and the calendar are parameters. *)

From S2P Require Import Prelude JsNumber JsString JsRegex JsValue Encoding Host Currency Format Time BillingExpr.

Open Scope nat_scope.

(** ** Constants *)

Inductive LogCategory := Common | Drawing | Task.

Definition getLogCategoryLabel (category : LogCategory) : jstr :=
  match category with Common => js "Common" | Drawing => js "Drawing" | Task => js "Task" end.

Record LogType := { lt_value : Z; lt_label : jstr; lt_color : jstr }.

Definition log_type (value : Z) (label color : string) : LogType :=
  {| lt_value := value; lt_label := js_of_string label; lt_color := js_of_string color |}.

Definition LOG_TYPES : list LogType :=
  [log_type 0 "Unknown" "default"; log_type 1 "Top-up" "cyan"; log_type 2 "Consume" "green"; log_type 3 "Manage" "orange";
   log_type 4 "System" "purple"; log_type 5 "Error" "red"; log_type 6 "Refund" "blue"].

Definition LOG_TYPE_FILTERS : list (jstr * jstr) := map (λ t, (lt_label t, int_to_string 10 (lt_value t))) LOG_TYPES.

Definition DISPLAYABLE_LOG_TYPES : list Z := [0; 2; 5; 6]%Z.
Definition TIMING_LOG_TYPES : list Z := [2; 5]%Z.

Definition isDisplayableLogType (type : num) : bool := existsb (λ z, n_eq (of_Z z) type) DISPLAYABLE_LOG_TYPES.
Definition isTimingLogType (type : num) : bool := existsb (λ z, n_eq (of_Z z) type) TIMING_LOG_TYPES.

Definition getLogTypeConfig (type : num) : LogType :=
  default (log_type 0 "Unknown" "default") (List.find (λ t, n_eq (of_Z (lt_value t)) type) LOG_TYPES).

Definition isPerCallBilling (modelPrice : option num) : bool := n_gt (default (of_Z 0) modelPrice) (of_Z 0).

(** ** Statuses *)

Record StatusMapping := { sm_label : jstr; sm_variant : jstr }.

Definition status (key label variant : string) : jstr * StatusMapping :=
  (js_of_string key, {| sm_label := js_of_string label; sm_variant := js_of_string variant |}).

Definition MJ_TASK_TYPE_MAPPINGS : obj StatusMapping :=
  [status "IMAGINE" "Draw" "blue"; status "UPSCALE" "Upscale" "orange"; status "VIDEO" "Video" "orange";
   status "EDITS" "Edit" "orange"; status "VARIATION" "Vary" "violet"; status "HIGH_VARIATION" "Vary (Strong)" "violet";
   status "LOW_VARIATION" "Vary (Subtle)" "violet"; status "PAN" "Pan" "cyan"; status "DESCRIBE" "Describe" "yellow";
   status "BLEND" "Blend" "lime"; status "UPLOAD" "Upload" "blue"; status "SHORTEN" "Shorten" "pink";
   status "REROLL" "Reroll" "indigo"; status "INPAINT" "Inpaint" "teal"; status "SWAP_FACE" "Swap Face" "purple";
   status "ZOOM" "Zoom" "green"; status "CUSTOM_ZOOM" "Custom Zoom" "green"].

Definition MJ_STATUS_MAPPINGS : obj StatusMapping :=
  [status "SUCCESS" "Success" "green"; status "NOT_START" "Not Started" "neutral"; status "SUBMITTED" "Queued" "yellow";
   status "IN_PROGRESS" "In Progress" "blue"; status "FAILURE" "Failed" "red"; status "MODAL" "Waiting" "amber"].

Definition MJ_SUBMIT_RESULT_MAPPINGS : obj StatusMapping :=
  [status "1" "Submitted" "green"; status "21" "Waiting" "lime"; status "22" "Duplicate" "orange";
   status "0" "Not Submitted" "yellow"].

Definition TASK_ACTION_MAPPINGS : obj StatusMapping :=
  [status "MUSIC" "Generate Music" "neutral"; status "LYRICS" "Generate Lyrics" "pink"; status "generate" "Image to Video" "blue";
   status "textGenerate" "Text to Video" "blue"; status "firstTailGenerate" "First/Last Frame to Video" "blue";
   status "referenceGenerate" "Reference Video" "blue"; status "remixGenerate" "Video Remix" "blue"].

Definition TASK_STATUS_MAPPINGS : obj StatusMapping :=
  [status "SUCCESS" "Success" "green"; status "NOT_START" "Not Started" "neutral"; status "SUBMITTED" "Queued" "yellow";
   status "IN_PROGRESS" "In Progress" "blue"; status "FAILURE" "Failed" "red"; status "QUEUED" "Queued" "orange";
   status "UNKNOWN" "Unknown" "neutral"].

Definition TASK_PLATFORM_MAPPINGS : obj StatusMapping :=
  [status "suno" "suno" "green"; status "kling" "kling" "blue"; status "runway" "runway" "violet"; status "luma" "luma" "orange";
   status "viggle" "viggle" "pink"].

(** [createStatusMapper] *)
Definition getLabel (mapping : obj StatusMapping) (s defaultLabel : jstr) : jstr :=
  match obj_get s mapping with Some m => sm_label m | None => defaultLabel end.
Definition getVariant (mapping : obj StatusMapping) (s defaultVariant : jstr) : jstr :=
  match obj_get s mapping with Some m => sm_variant m | None => defaultVariant end.

(** ** Filters and search parameters *)

Record LogFilters := {
  f_startTime : option num; f_endTime : option num; f_channel : option jstr;
  f_model : option jstr; f_token : option jstr; f_group : option jstr; f_username : option jstr;
  f_requestId : option jstr; f_upstreamRequestId : option jstr;
  f_mjId : option jstr; f_taskId : option jstr
}.

(** [...(text && { key: text })] *)
Definition text_param (key : string) (v : option jstr) : obj jsval :=
  match v with None | Some [] => [] | Some s => [(js_of_string key, JStr s)] end.

Definition time_param (key : string) (v : option num) : obj jsval :=
  match v with None => [] | Some ms => [(js_of_string key, JNum ms)] end.

Definition buildSearchParams (filters : LogFilters) (category : LogCategory) : obj jsval :=
  let baseParams := time_param "startTime" (f_startTime filters) ++ time_param "endTime" (f_endTime filters) ++
                    text_param "channel" (f_channel filters) in
  match category with
  | Common =>
      baseParams ++ text_param "model" (f_model filters) ++ text_param "token" (f_token filters) ++
      text_param "group" (f_group filters) ++ text_param "username" (f_username filters) ++
      text_param "requestId" (f_requestId filters) ++ text_param "upstreamRequestId" (f_upstreamRequestId filters)
  | Drawing => baseParams ++ text_param "filter" (f_mjId filters)
  | Task => baseParams ++ text_param "filter" (f_taskId filters)
  end.

(** ** Requests *)

Definition param (k : string) (o : obj jsval) : jsval := default JUndef (obj_get (js_of_string k) o).

Section Requests.
Context `{H : Host} `{C : Calendar} (now : num).

(** From midnight to an hour from now. *)
Definition getDefaultTimeRange : DateRange :=
  {| start := set_clock now (of_Z 0) (of_Z 0) (of_Z 0) (of_Z 0); end_ := time_clip (n_add now (n_mul (of_Z 3600) (of_Z 1000))) |}.

Definition timestampToSeconds (ms : jsval) : num :=
  match ms with
  | JStr s => let t := date_parse s in if isNaN t then of_Z 0 else math_floor (n_div t (of_Z 1000))
  | v => math_floor (n_div (to_number v) (of_Z 1000))
  end.

Definition getTimestamp (useMilliseconds : bool) (paramTime : jsval) (defaultTime : option num) : jsval :=
  let time := if truthy paramTime then paramTime else match defaultTime with Some ms => JNum ms | None => JUndef end in
  if truthy time then (if useMilliseconds then time else JNum (timestampToSeconds time)) else JUndef.

Definition buildTimeRangeParams (searchParams : obj jsval) (useMilliseconds : bool) : obj jsval :=
  let startTime := param "startTime" searchParams in
  let endTime := param "endTime" searchParams in
  let hasTimeParams := if is_nullish startTime then endTime else startTime in
  let defaults := if truthy hasTimeParams then None else Some getDefaultTimeRange in
  [(js "start_timestamp", getTimestamp useMilliseconds startTime (start <$> defaults));
   (js "end_timestamp", getTimestamp useMilliseconds endTime (end_ <$> defaults))].

Definition buildBaseParams (page pageSize : num) (searchParams : obj jsval) (useMilliseconds : bool) : obj jsval :=
  let channel := param "channel" searchParams in
  [(js "p", JNum page); (js "page_size", JNum pageSize)] ++
  (if truthy channel then [(js "channel_id", JStr (to_string channel))] else []) ++
  buildTimeRangeParams searchParams useMilliseconds.

Definition processType (value : jsval) : jsval :=
  match value with JArr [v] => JNum (to_number v) | _ => JUndef end.

Definition number_param (v : jsval) : jsval := JNum (num_or (to_number v) (of_Z 0)).

(** [...(searchParams.from ? { to: f(searchParams.from) } : {})] *)
Definition carry (allowed : bool) (f : jsval → jsval) (from to : string) (searchParams : obj jsval) : obj jsval :=
  let v := param from searchParams in
  if allowed && truthy v then [(js_of_string to, f v)] else [].

Definition as_text (v : jsval) : jsval := JStr (to_string v).

(** A filter of a column overrides the parameter. *)
Definition column_filter (isAdmin : bool) (params : obj jsval) (f : jstr * jsval) : obj jsval :=
  let '(id, value) := f in
  if is_nullish value || strict_eq value (JStr []) then params
  else if str_eqb id (js "type") then obj_set id (processType value) params
  else if str_eqb id (js "model_name") || str_eqb id (js "token_name") || str_eqb id (js "group") then obj_set id (as_text value) params
  else if str_eqb id (js "channel") then (if isAdmin then obj_set id (number_param value) params else params)
  else if str_eqb id (js "username") then (if isAdmin then obj_set id (as_text value) params else params)
  else params.

Definition buildApiParams (page pageSize : num) (searchParams : obj jsval) (columnFilters : list (jstr * jsval)) (isAdmin : bool) :
    obj jsval :=
  fold_left (column_filter isAdmin) columnFilters
    ([(js "p", JNum page); (js "page_size", JNum pageSize)] ++
     carry true processType "type" "type" searchParams ++
     carry true as_text "model" "model_name" searchParams ++
     carry true as_text "token" "token_name" searchParams ++
     carry true as_text "group" "group" searchParams ++
     carry isAdmin number_param "channel" "channel" searchParams ++
     carry isAdmin as_text "username" "username" searchParams ++
     carry true as_text "requestId" "request_id" searchParams ++
     carry true as_text "upstreamRequestId" "upstream_request_id" searchParams ++
     buildTimeRangeParams searchParams false).

(** [buildQueryParams]: names and values in order. *)
Definition buildQueryParams (params : obj jsval) : list (jstr * jstr) :=
  map (λ kv, (kv.1, to_string kv.2))
    (List.filter (λ kv, negb (is_nullish kv.2) && negb (strict_eq kv.2 (JStr []))) (own_entries params)).

(** api.ts: the path and the query of a request. *)
Definition buildApiPath (endpoint : jstr) (isAdmin : bool) : jstr := if isAdmin then endpoint else endpoint ++ js "/self".

Definition fetchLogs (endpoint : jstr) (params : obj jsval) (isAdmin : bool) : jstr * list (jstr * jstr) :=
  (buildApiPath endpoint isAdmin,
   buildQueryParams (obj_assign [(js "p", js_or (param "p" params) (JNum (of_Z 1)));
                                 (js "page_size", js_or (param "page_size" params) (JNum (of_Z 20)))] params)).

Definition fetchLogStats (endpoint : jstr) (params : obj jsval) (isAdmin : bool) : jstr * list (jstr * jstr) :=
  (buildApiPath endpoint isAdmin ++ js "/stat", buildQueryParams params).

Definition fetchLogsByCategory (category : LogCategory) (isAdmin : bool) (page pageSize : num) (searchParams : obj jsval)
    (columnFilters : list (jstr * jsval)) : jstr * list (jstr * jstr) :=
  match category with
  | Common => fetchLogs (js "/api/log") (buildApiParams page pageSize searchParams columnFilters isAdmin) isAdmin
  | Drawing =>
      fetchLogs (js "/api/mj") (buildBaseParams page pageSize searchParams true ++ [(js "mj_id", param "filter" searchParams)]) isAdmin
  | Task =>
      fetchLogs (js "/api/task") (buildBaseParams page pageSize searchParams false ++ [(js "task_id", param "filter" searchParams)]) isAdmin
  end.
End Requests.

(** ** Display *)

Definition PARAM_OVERRIDE_ACTION_MAP : obj jstr :=
  map (λ kv, (js_of_string kv.1, js_of_string kv.2))
  [("set", "Set"); ("delete", "Delete"); ("copy", "Copy"); ("move", "Move"); ("append", "Append"); ("prepend", "Prepend");
   ("trim_prefix", "Trim Prefix"); ("trim_suffix", "Trim Suffix"); ("ensure_prefix", "Ensure Prefix");
   ("ensure_suffix", "Ensure Suffix"); ("trim_space", "Trim Space"); ("to_lower", "To Lower"); ("to_upper", "To Upper");
   ("replace", "Replace"); ("regex_replace", "Regex Replace"); ("set_header", "Set Header"); ("delete_header", "Delete Header");
   ("copy_header", "Copy Header"); ("move_header", "Move Header"); ("pass_headers", "Pass Headers"); ("sync_fields", "Sync Fields");
   ("return_error", "Return Error")]%string.

Definition getParamOverrideActionLabel (t : jstr → jstr) (action : jstr) : jstr :=
  match obj_get (toLowerCase action) PARAM_OVERRIDE_ACTION_MAP with Some k => t k | None => action end.

(** Action and content of an audit line. *)
Definition parseAuditLine (line : jstr) : jstr * jstr :=
  match index_of line (js " ") with
  | None | Some O => (line, line)
  | Some firstSpace => (take firstSpace line, drop (S firstSpace) line)
  end.

(** The parsed [other] field; [null] where there is none or no JSON. *)
Definition parseLogOther (other : jstr) : jsval :=
  if negb (str_truthy other) then JNull else default JNull (json_parse other).

Definition isViolationFeeLog (other : jsval) : bool :=
  truthy other &&
  (strict_eq (prop "violation_fee" other) (JBool true) || truthy (prop "violation_fee_code" other) ||
   truthy (prop "violation_fee_marker" other)).

Record ImageBilling := {
  ib_resolvedUrl : jsval; ib_size : jsval; ib_quality : jsval; ib_tier : jsval; ib_multiplier : jsval; ib_count : jsval;
  ib_unitPrice : jsval; ib_actualQuota : jsval; ib_actualPriceUsd : jsval; ib_estimatedQuota : jsval; ib_hasBilling : bool
}.

Definition getImageBilling (other : jsval) : ImageBilling :=
  let billing := prop "image_billing" other in
  let or_empty v := js_or v (JStr []) in
  {| ib_resolvedUrl := js_or (prop "generated_image_url" billing) (or_empty (prop "image_generated_url" other));
     ib_size := or_empty (prop "size" billing); ib_quality := or_empty (prop "quality" billing);
     ib_tier := or_empty (prop "resolution_tier" billing); ib_multiplier := prop "group_multiplier" billing;
     ib_count := prop "requested_images" billing; ib_unitPrice := prop "unit_price_usd" billing;
     ib_actualQuota := prop "actual_quota" billing; ib_actualPriceUsd := prop "actual_price_usd" billing;
     ib_estimatedQuota := prop "estimated_quota" billing; ib_hasBilling := truthy billing |}.

Inductive LogColor := Success | Warning | Danger.

Definition getTimeColor (seconds : num) : LogColor :=
  if n_lt seconds (of_Z 10) then Success else if n_lt seconds (of_Z 30) then Warning else Danger.

Definition getFirstResponseTimeColor (seconds : num) : LogColor :=
  if n_lt seconds (of_Z 5) then Success else if n_lt seconds (of_Z 10) then Warning else Danger.

Definition getThroughputColor (tokensPerSecond : num) : LogColor :=
  if n_ge tokensPerSecond (of_Z 30) then Success else if n_ge tokensPerSecond (of_Z 15) then Warning else Danger.

Definition getResponseTimeColor (seconds completionTokens : num) : LogColor :=
  if n_lt completionTokens (of_Z 100) || n_le seconds (of_Z 0) then getTimeColor seconds
  else getThroughputColor (n_div completionTokens seconds).

(** Name, whether it is mapped, and the model it is mapped to. *)
Definition formatModelName (model_name other : jstr) : jstr * bool * jsval :=
  let o := parseLogOther other in
  let upstream := prop "upstream_model_name" o in
  let isMapped := truthy (prop "is_model_mapped" o) && truthy upstream && negb (strict_eq upstream (JStr [])) in
  (model_name, isMapped, if isMapped then upstream else JUndef).

(** *** The billing expression *)

Definition decodeBillingExprB64 (exprB64 : option jstr) : jstr :=
  match exprB64 with
  | None | Some [] => []
  | Some s => match atob s with Some bytes => text_decode bytes | None => [] end
  end.

(** *** The tier of a log *)

Definition resolveMatchedTier (tiers : list ParsedTier) (matchedLabel : option jstr) : option ParsedTier :=
  match tiers, matchedLabel with
  | [], _ | _, None | _, Some [] => None
  | _, Some label =>
      List.find (λ tier,
        let l1 := normalizeTierLabel (Some (pt_label tier)) in
        let l2 := normalizeTierLabel (Some label) in
        str_eqb l1 l2 && negb (str_eqb l1 [])) tiers
  end.

Definition positive_tokens (k : string) (other : jsval) : bool := n_gt (to_number (js_or (prop k other) (JNum (of_Z 0)))) (of_Z 0).

Definition hasAnyCacheTokens (other : jsval) : bool :=
  truthy other &&
  (positive_tokens "cache_tokens" other || positive_tokens "cache_creation_tokens" other ||
   positive_tokens "cache_creation_tokens_5m" other || positive_tokens "cache_creation_tokens_1h" other).

Record PriceEntry := { pe_field : jstr; pe_shortLabel : jstr; pe_price : num }.
Record TieredBillingSummary := { ts_tiers : list ParsedTier; ts_tier : ParsedTier; ts_priceEntries : list PriceEntry }.

Definition tier_price (cacheTokensPresent : bool) (tier : ParsedTier) (v : BillingVar) : option PriceEntry :=
  match bv_field v with
  | None | Some [] => None
  | Some field =>
      if bool_decide (bv_group v = Some (js "cache")) && negb cacheTokensPresent then None
      else
        let price := default NaN (obj_get field (pt_fields tier)) in
        if isFinite price && n_gt price (of_Z 0)
        then Some {| pe_field := field; pe_shortLabel := bv_shortLabel v; pe_price := price |} else None
  end.

(** A text field of [other], whose type is a string or absent. *)
Definition text_field (k : string) (other : jsval) : option jstr :=
  match prop k other with JStr s => Some s | _ => None end.

Definition getTieredBillingSummary (other : jsval) : option TieredBillingSummary :=
  if negb (truthy other) || negb (strict_eq (prop "billing_mode" other) (JStr (js "tiered_expr"))) then None
  else
    let exprStr := decodeBillingExprB64 (text_field "expr_b64" other) in
    if negb (str_truthy exprStr) then None
    else
      let tiers := parseTiersFromExpr exprStr in
      match resolveMatchedTier tiers (text_field "matched_tier" other) with
      | None => None
      | Some tier =>
          Some {| ts_tiers := tiers; ts_tier := tier;
                  ts_priceEntries := omap (tier_price (hasAnyCacheTokens other) tier) BILLING_PRICING_VARS |}
      end.

(** *** Durations *)

Section Durations.
Context `{H : Host}.

Definition toDurationMs (value : option Timestamp) (unit : TimeUnit) : option num :=
  match value with
  | None | Some (TText []) => None
  | Some (TText s) => let ms := date_parse s in if isNaN ms then None else Some ms
  | Some (TNum n) =>
      if n_eq n (of_Z (-1)) || n_eq n (of_Z 0) then None
      else Some (match unit with Seconds => n_mul n (of_Z 1000) | Milliseconds => n end)
  end.

(** Seconds, and whether they are shown in red. *)
Definition formatDuration (submitTime finishTime : option Timestamp) (unit : TimeUnit) : option (num * bool) :=
  match toDurationMs submitTime unit, toDurationMs finishTime unit with
  | Some s, Some f => let durationSec := n_div (n_sub f s) (of_Z 1000) in Some (durationSec, n_gt durationSec (of_Z 60))
  | _, _ => None
  end.
End Durations.
