(* ===== verification/UsageLogsFacts.v ===== *)
(** * Facts about the usage logs

    The billing expression of a log is read back from its base64 text, whatever
    characters it holds; a user's own request for logs goes to their own path and
    never names a user (nor, for common logs, a channel), and carries exactly the
    filters that are set; the tier shown
    for a log is the one that was billed, with its own prices and no others. *)

From S2P Require Import Prelude JsNumber JsString JsRegex JsValue Encoding Host Currency Format Time BillingExpr UsageLogs.

Open Scope nat_scope.

(** ** The billing expression *)

Lemma expression_decoded cs : Forall scalar cs → head cs ≠ Some 65279%N →
  decodeBillingExprB64 (Some (base64 (concat (map utf8 cs)))) = concat (map utf16 cs).
Proof.
  intros Hcs Hbom. pose proof (atob_base64 _ (utf8_bytes cs Hcs)) as Ha. unfold decodeBillingExprB64.
  destruct (base64 _) as [|c s].
  - injection Ha as Hn. apply (f_equal (utf8_points utf8_ready)) in Hn. rewrite utf8_points_encode in Hn by done.
    cbn in Hn. by subst cs.
  - rewrite Ha. unfold text_decode. rewrite utf8_points_encode by done. do 2 f_equal.
    destruct cs as [|x cs]; [done|]. destruct (N.eqb_spec x 65279); [|done]. by subst x.
Qed.

(** C8. The billing expression a log carries in base64 is read back character
    by character: for every sequence of Unicode scalar values that does not
    start with a byte order mark, the base64 text of its UTF-8 bytes decodes to
    the UTF-16 code units of the same characters. *)
Theorem log_expression_roundtrip cs : Forall scalar cs → head cs ≠ Some 65279%N →
  decodeBillingExprB64 (Some (base64 (concat (map utf8 cs)))) = concat (map utf16 cs).
Proof.
  apply expression_decoded.
Qed.

(** A name with characters inside and beyond the basic plane. *)
Lemma log_expression_roundtrip_witness :
  decodeBillingExprB64 (Some (base64 (concat (map utf8 [128640; 20013; 25991]%N)))) = js "🚀中文".
Proof.
  rewrite (log_expression_roundtrip [128640; 20013; 25991]%N); [vm_compute; reflexivity| |done].
  repeat (apply Forall_cons; split; [unfold scalar; lia|]). by apply Forall_nil.
Defined.

(** ** Requests *)

Section RequestFacts.
Context `{H : Host} `{C : Calendar} (now : num).

Definition own_log_params : list jstr :=
  map js_of_string ["p"; "page_size"; "type"; "model_name"; "token_name"; "group"; "request_id"; "upstream_request_id";
                    "start_timestamp"; "end_timestamp"]%string.

Lemma query_keys params k v : (k, v) ∈ buildQueryParams params → k ∈ map fst params.
Proof.
  unfold buildQueryParams. intros ([k' w] & E & Hin)%list_elem_of_fmap. cbn in E. injection E as -> ->.
  apply list_elem_of_In, filter_In in Hin as [Hin _]. apply list_elem_of_In in Hin. rewrite elem_of_own_entries in Hin.
  apply list_elem_of_fmap. by exists (k', w).
Qed.

Lemma assign_keys {V} k (o o' : obj V) : k ∈ map fst (obj_assign o o') → k ∈ map fst o ∨ k ∈ map fst o'.
Proof.
  revert o. induction o' as [|[k' v] o' IH]; intros o; [by left|]. unfold obj_assign. cbn [fold_left fst snd map].
  intros [Hk|Hk]%IH; [apply elem_of_keys_set in Hk as [Hk|Hk]|]; rewrite ?elem_of_cons; tauto.
Qed.

Lemma carry_keys allowed f from to sp k : k ∈ map fst (carry allowed f from to sp) → allowed = true ∧ k = js_of_string to.
Proof.
  unfold carry. destruct allowed, (truthy _); cbn [andb map fst]; try by intros ?%not_elem_of_nil.
  by intros ->%list_elem_of_singleton.
Qed.

Definition column_params : list jstr := map js_of_string ["type"; "model_name"; "token_name"; "group"]%string.

Lemma column_filter_keys params f k :
  k ∈ map fst (column_filter false params f) → k ∈ map fst params ∨ k ∈ column_params.
Proof.
  destruct f as [id value]. unfold column_filter. case_match; [by left|].
  destruct (str_eqb id (js "type")) eqn:E1; [|destruct (str_eqb id (js "model_name")) eqn:E2;
    [|destruct (str_eqb id (js "token_name")) eqn:E3; [|destruct (str_eqb id (js "group")) eqn:E4]]]; cbn [orb];
    [..|repeat case_match; by left]; intros [->|Hk]%elem_of_keys_set; try by left.
  all: right; first [apply str_eqb_eq in E4|apply str_eqb_eq in E3|apply str_eqb_eq in E2|apply str_eqb_eq in E1]; subst;
    apply (bool_decide_unpack _); vm_compute; exact I.
Qed.

Lemma column_filters_keys cfs params k :
  k ∈ map fst (fold_left (column_filter false) cfs params) → k ∈ map fst params ∨ k ∈ column_params.
Proof.
  revert params. induction cfs as [|f cfs IH]; intros params; [by left|]. cbn [fold_left].
  intros [Hk|]%IH; [by apply column_filter_keys in Hk|by right].
Qed.

Lemma own_params_keys page pageSize sp cfs k :
  k ∈ map fst (buildApiParams now page pageSize sp cfs false) → k ∈ own_log_params.
Proof.
  unfold buildApiParams. intros [Hk|Hk]%column_filters_keys.
  - rewrite !map_app, !elem_of_app in Hk. cbn [map fst buildTimeRangeParams] in Hk. rewrite !elem_of_cons, !elem_of_nil in Hk.
    repeat match goal with Hk : _ ∨ _ |- _ => destruct Hk as [Hk|Hk] end;
      try (apply carry_keys in Hk as [? Hk]); try done; subst k; apply (bool_decide_unpack _); vm_compute; exact I.
  - unfold column_params in Hk. cbn [map] in Hk. rewrite !elem_of_cons, !elem_of_nil in Hk.
    repeat match goal with Hk : _ ∨ _ |- _ => destruct Hk as [Hk|Hk] end; try done; subst k;
      apply (bool_decide_unpack _); vm_compute; exact I.
Qed.

(** The path of a user's own logs, and the parameters their request may have. *)
Definition own_path (category : LogCategory) : jstr :=
  match category with Common => js "/api/log/self" | Drawing => js "/api/mj/self" | Task => js "/api/task/self" end.

Definition own_params (category : LogCategory) : list jstr :=
  match category with
  | Common => own_log_params
  | Drawing => map js_of_string ["p"; "page_size"; "channel_id"; "start_timestamp"; "end_timestamp"; "mj_id"]%string
  | Task => map js_of_string ["p"; "page_size"; "channel_id"; "start_timestamp"; "end_timestamp"; "task_id"]%string
  end.

Lemma base_params_keys page pageSize sp ms id k :
  k ∈ map fst (buildBaseParams now page pageSize sp ms ++ [(js_of_string id, param "filter" sp)]) →
  k ∈ map js_of_string ["p"; "page_size"; "channel_id"; "start_timestamp"; "end_timestamp"; id]%string.
Proof.
  unfold buildBaseParams. rewrite !map_app, !elem_of_app. cbn [map fst buildTimeRangeParams]. destruct (truthy _); cbn [map fst]; set_solver.
Qed.

Lemma own_query_keys category page pageSize sp cfs k v :
  (k, v) ∈ (fetchLogsByCategory now category false page pageSize sp cfs).2 → k ∈ own_params category.
Proof.
  assert (∀ endpoint params, (k, v) ∈ (fetchLogs endpoint params false).2 → k ∈ [js "p"; js "page_size"] ∨ k ∈ map fst params) as Hf.
  { intros endpoint params Hk. by apply query_keys, assign_keys in Hk. }
  assert (k ∈ [js "p"; js "page_size"] → k ∈ own_params category) as H2.
  { rewrite !elem_of_cons, elem_of_nil. intros [->|[->|[]]]; destruct category; apply (bool_decide_unpack _); vm_compute; exact I. }
  destruct category; cbn [fetchLogsByCategory]; (intros [Hk|Hk]%Hf; [by apply H2|]);
    [by apply own_params_keys in Hk|by apply (base_params_keys _ _ _ true "mj_id") in Hk|by apply (base_params_keys _ _ _ false "task_id") in Hk].
Qed.

(** C22. A user who is no administrator asks only for their own logs: whatever the
    address of the page and the filters of the columns hold, the request for each
    kind of log goes to the user's own path, has only the parameters of
    [own_params] and never names a user; the one for common logs names no
    channel.  (Those for drawing and task logs can: [own_drawing_names_channel].) *)
Theorem own_request_scoped category page pageSize searchParams columnFilters :
  let '(path, query) := fetchLogsByCategory now category false page pageSize searchParams columnFilters in
  path = own_path category ∧
  ∀ k v, (k, v) ∈ query → k ∈ own_params category ∧ k ≠ js "username" ∧ (category = Common → k ≠ js "channel" ∧ k ≠ js "channel_id").
Proof.
  pose proof (own_query_keys category page pageSize searchParams columnFilters) as Ho.
  destruct (fetchLogsByCategory _ _ _ _ _ _ _) as [path query] eqn:E. split.
  - destruct category; injection E as <- _; vm_compute; reflexivity.
  - intros k v Hk. specialize (Ho k v Hk). split; [done|]. split; [|intros ->; split];
      intros ->; revert Ho; try destruct category; apply (bool_decide_eq_false_1 _); vm_compute; reflexivity.
Qed.

(** The channel in the address of the page is passed on for drawing and task
    logs, whoever asks. *)
Lemma own_drawing_names_channel page pageSize sp : param "channel" sp = JStr (js "7") →
  (js "channel_id", js "7") ∈ (fetchLogsByCategory now Drawing false page pageSize sp []).2.
Proof.
  intros Hc. cbn [fetchLogsByCategory fetchLogs snd]. unfold buildQueryParams. apply list_elem_of_fmap. exists (js "channel_id", JStr (js "7")).
  split; [reflexivity|]. apply list_elem_of_In, filter_In. split; [|vm_compute; reflexivity]. apply list_elem_of_In. rewrite elem_of_own_entries.
  apply obj_get_entry. unfold obj_assign. rewrite fold_left_app. unfold buildBaseParams. rewrite Hc.
  cbn [truthy str_truthy app fold_left buildTimeRangeParams fst snd to_string].
  rewrite !obj_get_set. eval_names. done.
Qed.

(** *** What a filter asks for *)

(** A text that is set. *)
Definition wanted (key : string) (v : option jstr) : list (jstr * jstr) :=
  match v with None | Some [] => [] | Some s => [(js_of_string key, s)] end.

Definition wanted_channel (v : option jstr) : list (jstr * jstr) :=
  match v with
  | None | Some [] => []
  | Some s => [(js "channel", num_to_string (num_or (string_to_number s) (of_Z 0)))]
  end.

Definition seconds (ms : num) : jstr := num_to_string (math_floor (n_div ms (of_Z 1000))).

Definition request_spec (category : LogCategory) (isAdmin : bool) (page pageSize : num) (f : LogFilters) (s e : num) :
    jstr * list (jstr * jstr) :=
  let path p := js_of_string p ++ (if isAdmin then [] else js "/self") in
  let pages := [(js "p", num_to_string page); (js "page_size", num_to_string pageSize)] in
  match category with
  | Common =>
      (path "/api/log",
       pages ++ wanted "model_name" (f_model f) ++ wanted "token_name" (f_token f) ++ wanted "group" (f_group f) ++
       (if isAdmin then wanted_channel (f_channel f) else []) ++ (if isAdmin then wanted "username" (f_username f) else []) ++
       wanted "request_id" (f_requestId f) ++ wanted "upstream_request_id" (f_upstreamRequestId f) ++
       [(js "start_timestamp", seconds s); (js "end_timestamp", seconds e)])
  | Drawing =>
      (path "/api/mj",
       pages ++ wanted "channel_id" (f_channel f) ++
       [(js "start_timestamp", num_to_string s); (js "end_timestamp", num_to_string e)] ++ wanted "mj_id" (f_mjId f))
  | Task =>
      (path "/api/task",
       pages ++ wanted "channel_id" (f_channel f) ++
       [(js "start_timestamp", seconds s); (js "end_timestamp", seconds e)] ++ wanted "task_id" (f_taskId f))
  end.

Definition text_value (v : option jstr) : jsval :=
  match v with None | Some [] => JUndef | Some s => JStr s end.

Lemma param_text k k' v o :
  param k (text_param k' v ++ o) =
  match v with
  | None | Some [] => param k o
  | Some s => if str_eqb (js_of_string k) (js_of_string k') then JStr s else param k o
  end.
Proof.
  unfold param. destruct v as [[|c s]|]; [done| |done]. cbn [text_param app obj_get]. by destruct (str_eqb _ _).
Qed.

Lemma param_text_same k v o : param k o = JUndef → param k (text_param k v ++ o) = text_value v.
Proof. intros Ho. rewrite param_text, str_eqb_refl, Ho. by destruct v as [[|c s]|]. Qed.

Lemma param_text_other k k' v o : str_eqb (js_of_string k) (js_of_string k') = false →
  param k (text_param k' v ++ o) = param k o.
Proof. intros Hk. rewrite param_text, Hk. by destruct v as [[|c s]|]. Qed.

Lemma param_time_same k t o : param k (time_param k (Some t) ++ o) = JNum t.
Proof. unfold param. cbn [time_param app obj_get]. by rewrite str_eqb_refl. Qed.

Lemma param_time_other k k' v o : str_eqb (js_of_string k) (js_of_string k') = false →
  param k (time_param k' v ++ o) = param k o.
Proof. intros Hk. unfold param. destruct v; [|done]. cbn [time_param app obj_get]. by rewrite Hk. Qed.

Lemma text_param_last k v : text_param k v = text_param k v ++ [].
Proof. by rewrite app_nil_r. Qed.

(** Reads a parameter of the search from the filters. *)
Ltac read_param :=
  repeat first
    [ apply param_time_same
    | rewrite param_time_other by (vm_compute; reflexivity)
    | rewrite param_text_other by (vm_compute; reflexivity)
    | apply param_text_same ]; try reflexivity.

Lemma common_params f s e : f_startTime f = Some s → f_endTime f = Some e →
  let sp := buildSearchParams f Common in
  param "startTime" sp = JNum s ∧ param "endTime" sp = JNum e ∧ param "type" sp = JUndef ∧
  param "channel" sp = text_value (f_channel f) ∧ param "model" sp = text_value (f_model f) ∧
  param "token" sp = text_value (f_token f) ∧ param "group" sp = text_value (f_group f) ∧
  param "username" sp = text_value (f_username f) ∧ param "requestId" sp = text_value (f_requestId f) ∧
  param "upstreamRequestId" sp = text_value (f_upstreamRequestId f).
Proof.
  intros Hs He. cbn [buildSearchParams]. rewrite Hs, He, <- !app_assoc, (text_param_last "upstreamRequestId").
  split_and!; read_param.
Qed.

Lemma filter_params category f s e : f_startTime f = Some s → f_endTime f = Some e → category ≠ Common →
  let sp := buildSearchParams f category in
  param "startTime" sp = JNum s ∧ param "endTime" sp = JNum e ∧ param "channel" sp = text_value (f_channel f) ∧
  param "filter" sp = text_value (match category with Drawing => f_mjId f | _ => f_taskId f end).
Proof.
  intros Hs He Hc. destruct category; [done|..]; cbn [buildSearchParams]; rewrite Hs, He, <- !app_assoc, (text_param_last "filter");
    split_and!; read_param.
Qed.

Lemma time_range sp ms s e : param "startTime" sp = JNum s → param "endTime" sp = JNum e →
  num_truthy s = true → num_truthy e = true →
  buildTimeRangeParams now sp ms =
  [(js "start_timestamp", JNum (if ms then s else math_floor (n_div s (of_Z 1000))));
   (js "end_timestamp", JNum (if ms then e else math_floor (n_div e (of_Z 1000))))].
Proof.
  intros Hs He Ts Te. unfold buildTimeRangeParams. rewrite Hs, He. cbn [is_nullish truthy]. rewrite Ts.
  unfold getTimestamp. cbn [fmap option_fmap option_map truthy]. rewrite Ts, Te. cbn [truthy]. rewrite Ts, Te. by destruct ms.
Qed.
(** Entries whose value is sent. *)
Definition sent (kv : jstr * jsval) : list (jstr * jstr) :=
  if negb (is_nullish kv.2) && negb (strict_eq kv.2 (JStr [])) then [(kv.1, to_string kv.2)] else [].

Lemma query_sent o : Forall (λ k, array_index k = None) (map fst o) → buildQueryParams o = concat (map sent o).
Proof.
  intros Ho. unfold buildQueryParams. rewrite own_entries_names by done. clear Ho. induction o as [|kv o IH]; [done|].
  cbn [List.filter map concat]. unfold sent at 1. destruct (_ && _); cbn [map app]; by rewrite IH.
Qed.

Lemma carry_sent allowed from to sp v : param from sp = text_value v →
  concat (map sent (carry allowed as_text from to sp)) = if allowed then wanted to v else [].
Proof. unfold carry. intros ->. by destruct allowed, v as [[|c s]|]. Qed.

Lemma channel_sent allowed sp v : param "channel" sp = text_value v →
  concat (map sent (carry allowed number_param "channel" "channel" sp)) = if allowed then wanted_channel v else [].
Proof. unfold carry. intros ->. by destruct allowed, v as [[|c s]|]. Qed.

Lemma value_sent key v : concat (map sent [(js_of_string key, text_value v)]) = wanted key v.
Proof. by destruct v as [[|c s]|]. Qed.

(** The pages of the parameters replace the defaults. *)
Lemma fetch_pages endpoint params rest isAdmin page pageSize :
  params = [(js "p", JNum page); (js "page_size", JNum pageSize)] ++ rest → NoDup (map fst params) →
  Forall (λ k, array_index k = None) (map fst params) →
  fetchLogs endpoint params isAdmin =
  (endpoint ++ (if isAdmin then [] else js "/self"),
   [(js "p", num_to_string page); (js "page_size", num_to_string pageSize)] ++ concat (map sent rest)).
Proof.
  intros -> Hd Hn. unfold fetchLogs, buildApiPath. f_equal; [destruct isAdmin; [by rewrite app_nil_r|done]|].
  replace (obj_assign _ _) with ([(js "p", JNum page); (js "page_size", JNum pageSize)] ++ rest).
  - by rewrite query_sent.
  - etransitivity; [symmetry; by apply obj_assign_fresh|]. unfold obj_assign. cbn [app fold_left fst snd obj_set].
    rewrite str_eqb_refl. cbn [obj_set]. rewrite str_eqb_refl.
    by replace (str_eqb (js "page_size") (js "p")) with false by (vm_compute; reflexivity).
Qed.

(** Keys that are a part of a list of names. *)
Definition names_part (o : obj jsval) (l : list string) : Prop := map fst o `sublist_of` map js_of_string l.

Lemma names_part_nil : names_part [] [].
Proof. apply sublist_nil_l. Qed.

Lemma names_part_one o k o' l : names_part o [k] → names_part o' l → names_part (o ++ o') (k :: l).
Proof. unfold names_part. rewrite map_app. intros Ho Hl. apply (sublist_app _ [_] _ (map _ l) Ho Hl). Qed.

Lemma names_part_cons k v o l : names_part o l → names_part ((js_of_string k, v) :: o) (k :: l).
Proof. intros Ho. apply (names_part_one [(js_of_string k, v)]); [unfold names_part; reflexivity|done]. Qed.

Lemma names_part_carry allowed f from to sp : names_part (carry allowed f from to sp) [to].
Proof. unfold names_part, carry. destruct (_ && _); [reflexivity|apply sublist_nil_l]. Qed.

Ltac name_params := repeat first
  [ apply names_part_nil | apply names_part_cons | apply names_part_one; [first [apply names_part_carry|assumption]|] ].

Definition names_ok (l : list string) : bool :=
  bool_decide (NoDup (map js_of_string l)) && bool_decide (Forall (λ k, array_index k = None) (map js_of_string l)).

Lemma names_part_ok o l : names_ok l = true → names_part o l →
  NoDup (map fst o) ∧ Forall (λ k, array_index k = None) (map fst o).
Proof.
  intros [Hd%bool_decide_eq_true Hn%bool_decide_eq_true]%andb_prop Ho. split; [by eapply sublist_NoDup|].
  rewrite Forall_forall in *. intros k Hk. apply Hn. by eapply elem_of_sublist.
Qed.
Lemma sent_number key x : concat (map sent [(js_of_string key, JNum x)]) = [(js_of_string key, num_to_string x)].
Proof. done. Qed.

Lemma common_request isAdmin page pageSize f s e : f_startTime f = Some s → f_endTime f = Some e →
  num_truthy s = true → num_truthy e = true →
  fetchLogsByCategory now Common isAdmin page pageSize (buildSearchParams f Common) [] =
  request_spec Common isAdmin page pageSize f s e.
Proof.
  intros Hs He Ts Te. destruct (common_params f s e Hs He) as (P1 & P2 & P3 & P4 & P5 & P6 & P7 & P8 & P9 & P10).
  cbn [fetchLogsByCategory]. set (sp := buildSearchParams f Common) in *. clearbody sp.
  assert (carry true processType "type" "type" sp = []) as Ht by (unfold carry; by rewrite P3).
  pose proof (time_range sp false s e P1 P2 Ts Te) as Hr.
  unfold buildApiParams. cbn [fold_left]. rewrite Ht. cbn [app].
  match goal with |- fetchLogs _ (_ :: _ :: ?r) _ = _ => set (rest := r) end.
  destruct (names_part_ok ([(js "p", JNum page); (js "page_size", JNum pageSize)] ++ rest)
    ["p"; "page_size"; "model_name"; "token_name"; "group"; "channel"; "username"; "request_id"; "upstream_request_id";
     "start_timestamp"; "end_timestamp"]%string) as [Hd Hn]; [vm_compute; reflexivity| |].
  { subst rest. rewrite Hr. cbn [app]. name_params. }
  rewrite (fetch_pages _ _ rest _ page pageSize) by done. subst rest. rewrite Hr. unfold request_spec. f_equal. f_equal.
  by rewrite !map_app, !concat_app, !(carry_sent _ _ _ sp _ P5), (carry_sent _ _ _ sp _ P6), (carry_sent _ _ _ sp _ P7),
    (channel_sent _ sp _ P4), (carry_sent _ _ _ sp _ P8), (carry_sent _ _ _ sp _ P9), (carry_sent _ _ _ sp _ P10).
Qed.

Lemma filtered_request endpoint key ms isAdmin page pageSize sp s e channel v :
  names_ok ["p"; "page_size"; "channel_id"; "start_timestamp"; "end_timestamp"; key]%string = true →
  param "startTime" sp = JNum s → param "endTime" sp = JNum e → param "channel" sp = text_value channel →
  param "filter" sp = text_value v → num_truthy s = true → num_truthy e = true →
  fetchLogs endpoint (buildBaseParams now page pageSize sp ms ++ [(js_of_string key, param "filter" sp)]) isAdmin =
  (endpoint ++ (if isAdmin then [] else js "/self"),
   [(js "p", num_to_string page); (js "page_size", num_to_string pageSize)] ++ wanted "channel_id" channel ++
   [(js "start_timestamp", if ms then num_to_string s else seconds s);
    (js "end_timestamp", if ms then num_to_string e else seconds e)] ++ wanted key v).
Proof.
  intros Hk Hs He Hc Hf Ts Te. unfold buildBaseParams. rewrite (time_range sp ms s e Hs He Ts Te), Hf, Hc.
  set (ch := if truthy (text_value channel) then _ else []).
  assert (concat (map sent ch) = wanted "channel_id" channel) as Hch by (subst ch; by destruct channel as [[|c l]|]).
  assert (names_part ch ["channel_id"]%string) as Hp
    by (subst ch; destruct (truthy _); [unfold names_part; reflexivity|apply sublist_nil_l]).
  clearbody ch. rewrite <- !app_assoc.
  match goal with |- fetchLogs _ (_ ++ ?r) _ = _ => set (rest := r) end.
  destruct (names_part_ok ([(js "p", JNum page); (js "page_size", JNum pageSize)] ++ rest)
    ["p"; "page_size"; "channel_id"; "start_timestamp"; "end_timestamp"; key]%string) as [Hd Hn]; [done| |].
  { subst rest. cbn [app]. name_params. }
  rewrite (fetch_pages _ _ rest _ page pageSize) by done. subst rest.
  rewrite !map_app, !concat_app, Hch, value_sent. by destruct ms.
Qed.

(** A log page asks the server for exactly what its filters say: from a set
    of filters with a start and an end time, through the address of the page,
    the request of each of the three kinds of log holds the page, the times (in
    seconds, for drawings in milliseconds), every filter that is set under the
    name the server knows, in order, and nothing for a filter that is blank; the
    channel and the user are only there for an administrator on the common log. *)
Theorem request_follows_filters category isAdmin page pageSize f s e : f_startTime f = Some s → f_endTime f = Some e →
  num_truthy s = true → num_truthy e = true →
  fetchLogsByCategory now category isAdmin page pageSize (buildSearchParams f category) [] =
  request_spec category isAdmin page pageSize f s e.
Proof.
  intros Hs He Ts Te. destruct category; [by apply common_request|..].
  - destruct (filter_params Drawing f s e Hs He) as (P1 & P2 & P3 & P4); [done|]. cbn [fetchLogsByCategory].
    by apply (filtered_request (js "/api/mj") "mj_id" true).
  - destruct (filter_params Task f s e Hs He) as (P1 & P2 & P3 & P4); [done|]. cbn [fetchLogsByCategory].
    by apply (filtered_request (js "/api/task") "task_id" false).
Qed.
End RequestFacts.

Definition sample_filters : LogFilters :=
  {| f_startTime := Some (of_Z 1700000000500); f_endTime := Some (of_Z 1700003600000); f_channel := Some (js "12");
     f_model := Some (js "gpt-4o"); f_token := Some []; f_group := None; f_username := Some (js "ann"); f_requestId := None;
     f_upstreamRequestId := None; f_mjId := None; f_taskId := None |}.

Lemma request_follows_filters_witness :
  fetchLogsByCategory (H := utc_host) (C := utc_calendar) (of_Z 0) Common false (of_Z 2) (of_Z 20) (buildSearchParams sample_filters Common) [] =
  (js "/api/log/self", [(js "p", js "2"); (js "page_size", js "20"); (js "model_name", js "gpt-4o");
    (js "start_timestamp", js "1700000000"); (js "end_timestamp", js "1700003600")]).
Proof.
  rewrite (request_follows_filters (H := utc_host) (C := utc_calendar) (of_Z 0) Common false (of_Z 2) (of_Z 20) sample_filters
    (of_Z 1700000000500) (of_Z 1700003600000)); vm_compute; reflexivity.
Defined.

(** ** The tier of a log *)

Definition same_label (label : jstr) (tier : ParsedTier) : Prop :=
  normalizeTierLabel (Some (pt_label tier)) = normalizeTierLabel (Some label) ∧ normalizeTierLabel (Some label) ≠ [].

Lemma matched_tier tiers label tier : resolveMatchedTier tiers (Some label) = Some tier →
  ∃ before after, tiers = before ++ tier :: after ∧ same_label label tier ∧ Forall (λ t, ¬ same_label label t) before.
Proof.
  unfold resolveMatchedTier. destruct tiers as [|t0 tiers]; [done|]. destruct label as [|c label]; [done|].
  generalize (t0 :: tiers) as l. set (lab := c :: label). clearbody lab. clear. intros l.
  induction l as [|t l IH]; cbn [List.find]; [done|]. destruct (_ && _) eqn:E.
  - intros [= ->]. apply andb_prop in E as [E1%str_eqb_eq E2%negb_true_iff]. exists [], l. split_and!; [done| |by apply Forall_nil].
    split; [done|]. rewrite <- E1. intros E. by rewrite E in E2.
  - intros (b & a & -> & H1 & H2)%IH. exists (t :: b), a. split_and!; [done|done|]. apply Forall_cons. split; [|done].
    intros [E1 E2]. rewrite E1, str_eqb_refl in E. cbn [andb] in E. apply negb_false_iff, str_eqb_eq in E. done.
Qed.

Lemma unmatched_tier tiers label : resolveMatchedTier tiers (Some label) = None ↔ Forall (λ t, ¬ same_label label t) tiers.
Proof.
  split.
  - unfold resolveMatchedTier. destruct tiers as [|t0 tiers]; [intros; by apply Forall_nil|].
    destruct label as [|c label]; [intros _; apply Forall_forall; by intros t _ [_ E]|].
    generalize (t0 :: tiers) as l. set (lab := c :: label). clearbody lab. clear. intros l Hl.
    apply Forall_forall. intros t Ht [E1 E2]. apply list_elem_of_In in Ht. eapply find_none in Hl; [|exact Ht].
    cbn beta zeta in Hl. rewrite E1, str_eqb_refl in Hl. cbn [andb] in Hl. by apply negb_false_iff, str_eqb_eq in Hl.
  - intros Hl. destruct (resolveMatchedTier tiers (Some label)) as [t|] eqn:E; [|done].
    apply matched_tier in E as (b & a & -> & Ht & _). apply Forall_app in Hl as [_ Hl]. by apply Forall_cons in Hl as [[]].
Qed.

Lemma tier_price_spec cached tier v e : tier_price cached tier v = Some e ↔
  bv_field v = Some (pe_field e) ∧ pe_field e ≠ [] ∧ bv_shortLabel v = pe_shortLabel e ∧
  obj_get (pe_field e) (pt_fields tier) = Some (pe_price e) ∧ isFinite (pe_price e) = true ∧ n_gt (pe_price e) (of_Z 0) = true ∧
  (bv_group v = Some (js "cache") → cached = true).
Proof.
  unfold tier_price. destruct (bv_field v) as [[|c f]|]; [by split; [|intros ([= <-] & H & _)]| |by split; [|intros []]].
  case_bool_decide as Hg; destruct cached; cbn [andb negb]; try (split; [done|]; intros (_ & _ & _ & _ & _ & _ & H); by apply H in Hg).
  all: destruct (obj_get (c :: f) (pt_fields tier)) as [p|] eqn:Ep; cbn [from_option id];
    [destruct (isFinite p && n_gt p (of_Z 0)) eqn:E; [apply andb_prop in E as [E1 E2]|]|].
  all: split; [try done; try (intros [= <-]; split_and!; by cbn)|intros ([= H1] & H2 & H3 & H4 & H5 & H6 & H7); destruct e as [fe le pr];
    cbn [pe_field pe_shortLabel pe_price] in *; subst; rewrite Ep in H4; try done; injection H4 as <-; try done].
  all: by rewrite H5, H6 in E.
Qed.

(** C19. The tier a log shows is the one that was billed.  Of a log in tiered
    billing whose expression (any text of Unicode characters) is sent in base64
    and whose matched tier is named: nothing is shown when no tier of the
    expression has the name, up to the spelling of the comparisons, and
    otherwise the first tier that has it, with exactly the prices of that tier
    which are finite and positive, the cache prices among them only when the
    request used the cache. *)
Theorem log_shows_billed_tier other cs label : prop "billing_mode" other = JStr (js "tiered_expr") →
  prop "expr_b64" other = JStr (base64 (concat (map utf8 cs))) → prop "matched_tier" other = JStr label →
  Forall scalar cs → head cs ≠ Some 65279%N →
  let tiers := parseTiersFromExpr (concat (map utf16 cs)) in
  match getTieredBillingSummary other with
  | None => Forall (λ t, ¬ same_label label t) tiers
  | Some s =>
      ts_tiers s = tiers ∧
      (∃ before after, tiers = before ++ ts_tier s :: after ∧ same_label label (ts_tier s) ∧ Forall (λ t, ¬ same_label label t) before) ∧
      ∀ e, e ∈ ts_priceEntries s ↔ ∃ v, v ∈ BILLING_PRICING_VARS ∧
        bv_field v = Some (pe_field e) ∧ pe_field e ≠ [] ∧ bv_shortLabel v = pe_shortLabel e ∧
        obj_get (pe_field e) (pt_fields (ts_tier s)) = Some (pe_price e) ∧ isFinite (pe_price e) = true ∧
        n_gt (pe_price e) (of_Z 0) = true ∧ (bv_group v = Some (js "cache") → hasAnyCacheTokens other = true)
  end.
Proof.
  intros Hm He Hl Hcs Hbom tiers. unfold getTieredBillingSummary.
  assert (truthy other = true) as -> by (destruct other; try done).
  rewrite Hm. cbn [strict_eq]. rewrite str_eqb_refl. cbn [negb orb]. unfold text_field. rewrite He, Hl, expression_decoded by done.
  fold tiers. destruct (str_truthy _) eqn:Et; cbn [negb].
  - destruct (resolveMatchedTier tiers (Some label)) as [tier|] eqn:E; [|by apply unmatched_tier].
    cbn [ts_tiers ts_tier ts_priceEntries]. split; [done|]. split; [by apply matched_tier|].
    intros e. rewrite list_elem_of_omap. by setoid_rewrite tier_price_spec.
  - unfold tiers, parseTiersFromExpr. rewrite Et. by apply Forall_nil.
Qed.

Definition sample_expression : jstr := quoted "len <= 200000 ? tier('标准', p * 3 + c * 15 + cr * 0.3) : tier('long', p * 6 + c * 22.5)".

Definition sample_log : jsval :=
  JObj [(js "billing_mode", JStr (js "tiered_expr")); (js "expr_b64", JStr (base64 (concat (map utf8 sample_expression))));
        (js "matched_tier", JStr (js "标准")); (js "cache_tokens", JNum (of_Z 7))].

Lemma log_shows_billed_tier_witness :
  match getTieredBillingSummary sample_log with
  | Some s => ts_tiers s = parseTiersFromExpr (concat (map utf16 sample_expression)) ∧ pt_label (ts_tier s) = js "标准" ∧
              map (λ e, num_to_string (pe_price e)) (ts_priceEntries s) = [js "3"; js "15"; js "0.3"]
  | None => False
  end.
Proof.
  pose proof (log_shows_billed_tier sample_log sample_expression (js "标准")
    ltac:(vm_compute; reflexivity) ltac:(vm_compute; reflexivity) ltac:(vm_compute; reflexivity)) as L.
  assert (Forall scalar sample_expression) as Hs.
  { eapply Forall_impl; [apply (bool_decide_unpack (Forall (λ c, c < 55296)%N sample_expression)); vm_compute; exact I|].
    intros c Hc. by left. }
  specialize (L Hs ltac:(by vm_compute)). cbv zeta in L.
  destruct (getTieredBillingSummary sample_log) as [s|] eqn:E; [|vm_compute in E; discriminate].
  split; [apply L|]. vm_compute in E. injection E as <-. split; vm_compute; reflexivity.
Defined.
