(* ===== verification/GroupSettings.v ===== *)
(** * The settings of user groups

    features/system-settings/models/group-ratio-form.tsx,
    group-ratio-visual-editor.tsx and group-special-usable-editor.tsx, with the
    schema of the group form and [saveGroupRatios] of ratio-settings-card.tsx.

    The form holds six JSON texts and a switch.  The visual editor shows three of
    them directly, through dialogs ([SimpleDialog], [OverrideDialog] and two
    inputs); the table of pricing groups and the list of special rules keep rows
    of their own, with identifiers from counters of the modules, and write the
    texts whenever a row changes.  A text whose JSON is not of the type the source
    gives it is outside the model: the operation is [None]. *)

From S2P Require Import Prelude JsNumber JsString JsValue PriceSettings.

Open Scope nat_scope.

(** ** The form *)

Record GroupFormValues := {
  GroupRatio : jstr; TopupGroupRatio : jstr; UserUsableGroups : jstr; GroupGroupRatio : jstr; AutoGroups : jstr;
  DefaultUseAutoGroup : bool; GroupSpecialUsableGroup : jstr
}.

Inductive GroupField :=
  | FGroupRatio | FTopupGroupRatio | FUserUsableGroups | FGroupGroupRatio | FAutoGroups | FGroupSpecialUsableGroup.

Definition group_field (f : GroupField) (v : GroupFormValues) : jstr :=
  match f with
  | FGroupRatio => GroupRatio v
  | FTopupGroupRatio => TopupGroupRatio v
  | FUserUsableGroups => UserUsableGroups v
  | FGroupGroupRatio => GroupGroupRatio v
  | FAutoGroups => AutoGroups v
  | FGroupSpecialUsableGroup => GroupSpecialUsableGroup v
  end.

#[export] Instance GroupField_eq_dec : EqDecision GroupField.
Proof. solve_decision. Defined.

Definition handleFieldChange (field : GroupField) (value : jstr) (v : GroupFormValues) : GroupFormValues :=
  let get f := if decide (f = field) then value else group_field f v in
  {| GroupRatio := get FGroupRatio; TopupGroupRatio := get FTopupGroupRatio; UserUsableGroups := get FUserUsableGroups;
     GroupGroupRatio := get FGroupGroupRatio; AutoGroups := get FAutoGroups; DefaultUseAutoGroup := DefaultUseAutoGroup v;
     GroupSpecialUsableGroup := get FGroupSpecialUsableGroup |}.

(** The validity of [groupSchema]. *)
Definition string_array (v : jsval) : bool := match v with JArr l => forallb is_string l | _ => false end.

Definition groupSchema (v : GroupFormValues) : bool :=
  let valid := validateJsonString true None in
  valid (GroupRatio v) && valid (TopupGroupRatio v) && valid (UserUsableGroups v) && valid (GroupGroupRatio v) &&
  validateJsonString true (Some string_array) (AutoGroups v) && valid (GroupSpecialUsableGroup v).

(** The name of the server for a field ([apiKeyMap]). *)
Definition group_key (f : GroupField) : jstr :=
  match f with
  | FGroupRatio => js "GroupRatio"
  | FTopupGroupRatio => js "TopupGroupRatio"
  | FUserUsableGroups => js "UserUsableGroups"
  | FGroupGroupRatio => js "GroupGroupRatio"
  | FAutoGroups => js "AutoGroups"
  | FGroupSpecialUsableGroup => js "group_ratio_setting.group_special_usable_group"
  end.

Definition group_updates (defaults values : GroupFormValues) (fs : list GroupField) : list (jstr * OptionValue) :=
  map (λ f, (group_key f, TextValue (normalizeJsonString (group_field f values))))
    (List.filter (λ f, negb (str_eqb (normalizeJsonString (group_field f values)) (normalizeJsonString (group_field f defaults)))) fs).

Definition saveGroupRatios (defaults values : GroupFormValues) : list (jstr * OptionValue) :=
  group_updates defaults values [FGroupRatio; FTopupGroupRatio; FUserUsableGroups; FGroupGroupRatio; FAutoGroups] ++
  (if Bool.eqb (DefaultUseAutoGroup values) (DefaultUseAutoGroup defaults) then []
   else [(js "DefaultUseAutoGroup", BoolValue (DefaultUseAutoGroup values))]) ++
  group_updates defaults values [FGroupSpecialUsableGroup].

(** ** The table of pricing groups *)

Record GroupPricingRow := {
  gp_id : N; gp_name : jstr; gp_ratio : num; gp_selectable : bool; gp_description : jstr
}.

Definition normalizeRatio (value : jsval) : num :=
  let parsed := to_number value in if isFinite parsed then parsed else of_Z 1.

(** [String(v ?? '')] *)
Definition text_or_empty (v : option jsval) : jstr :=
  match v with None | Some JUndef | Some JNull => [] | Some v => to_string v end.

Definition pricing_row (ratioMap usableMap : obj jsval) (id : N) (name : jstr) : GroupPricingRow :=
  {| gp_id := id; gp_name := name; gp_ratio := normalizeRatio (default JUndef (obj_get name ratioMap));
     gp_selectable := obj_has name usableMap; gp_description := text_or_empty (obj_get name usableMap) |}.

(** Items numbered by a counter, which is increased before each of them. *)
Definition number_from {A B} (counter : N) (f : N → A → B) (l : list A) : list B :=
  imap (λ i x, f (counter + N.of_nat i + 1)%N x) l.

(** The rows and the counter after them. *)
Definition buildGroupPricingRows (groupRatio userUsableGroups : jstr) (counter : N) : option (list GroupPricingRow * N) :=
  ratioMap ← read_record groupRatio;
  usableMap ← read_record userUsableGroups;
  let names := set_of_list (own_keys ratioMap ++ own_keys usableMap) in
  Some (number_from counter (pricing_row ratioMap usableMap) names, (counter + N.of_nat (length names))%N).

Definition serialize_row (acc : obj jsval * obj jsval) (row : GroupPricingRow) : obj jsval * obj jsval :=
  let '(groupRatio, userUsableGroups) := acc in
  let name := trim (gp_name row) in
  if negb (str_truthy name) then acc
  else (obj_set name (JNum (normalizeRatio (JNum (gp_ratio row)))) groupRatio,
        if gp_selectable row then obj_set name (JStr (gp_description row)) userUsableGroups else userUsableGroups).

Definition serialized_records (rows : list GroupPricingRow) : obj jsval * obj jsval := fold_left serialize_row rows ([], []).

Definition serializeGroupPricingRows (rows : list GroupPricingRow) : jstr * jstr :=
  (json_pretty (JObj (serialized_records rows).1), json_pretty (JObj (serialized_records rows).2)).

Definition sourceGroupPricingSignature (groupRatio userUsableGroups : jstr) : jstr :=
  json_stringify (JObj [(js "groupRatio", safeJsonParse groupRatio (JObj []));
                        (js "userUsableGroups", safeJsonParse userUsableGroups (JObj []))]).

Definition groupPricingSignature (rows : list GroupPricingRow) : jstr :=
  let serialized := serializeGroupPricingRows rows in sourceGroupPricingSignature serialized.1 serialized.2.

Record GroupTable := { gt_rows : list GroupPricingRow; gt_counter : N }.

(** The effect of [GroupPricingTable] on a change of its texts. *)
Definition syncRows (v : GroupFormValues) (tb : GroupTable) : option GroupTable :=
  if str_eqb (groupPricingSignature (gt_rows tb)) (sourceGroupPricingSignature (GroupRatio v) (UserUsableGroups v)) then Some tb
  else '(rows, counter) ← buildGroupPricingRows (GroupRatio v) (UserUsableGroups v) (gt_counter tb);
       Some {| gt_rows := rows; gt_counter := counter |}.

(** The rows shown next, the two texts, and the effect they cause. *)
Definition emitRows (nextRows : list GroupPricingRow) (counter : N) (v : GroupFormValues) : option (GroupFormValues * GroupTable) :=
  let serialized := serializeGroupPricingRows nextRows in
  let v' := handleFieldChange FUserUsableGroups serialized.2 (handleFieldChange FGroupRatio serialized.1 v) in
  tb ← syncRows v' {| gt_rows := nextRows; gt_counter := counter |};
  Some (v', tb).

Inductive RowChange := RowName (s : jstr) | RowRatio (text : jstr) | RowSelectable (b : bool) | RowDescription (s : jstr).

Definition change_row (c : RowChange) (row : GroupPricingRow) : GroupPricingRow :=
  let mk name ratio selectable description :=
    {| gp_id := gp_id row; gp_name := name; gp_ratio := ratio; gp_selectable := selectable; gp_description := description |} in
  match c with
  | RowName s => mk s (gp_ratio row) (gp_selectable row) (gp_description row)
  | RowRatio text => mk (gp_name row) (normalizeRatio (JStr text)) (gp_selectable row) (gp_description row)
  | RowSelectable b => mk (gp_name row) (gp_ratio row) b (gp_description row)
  | RowDescription s => mk (gp_name row) (gp_ratio row) (gp_selectable row) s
  end.

Definition updateRow (id : N) (c : RowChange) (rows : list GroupPricingRow) : list GroupPricingRow :=
  map (λ row, if (gp_id row =? id)%N then change_row c row else row) rows.

Definition removeRow (id : N) (rows : list GroupPricingRow) : list GroupPricingRow :=
  List.filter (λ row, negb (gp_id row =? id)%N) rows.

Definition group_name (index : nat) : jstr := js "group_" ++ int_to_string 10 (Z.of_nat index).

(** The loop of [addRow]; it ends at an index that no row uses. *)
Fixpoint free_name (fuel : nat) (names : list jstr) (index : nat) : option jstr :=
  if decide (group_name index ∈ names)
  then match fuel with O => None | S fuel => free_name fuel names (S index) end
  else Some (group_name index).

Definition addRow (tb : GroupTable) : option (list GroupPricingRow * N) :=
  name ← free_name (length (gt_rows tb)) (map gp_name (gt_rows tb)) 1;
  let id := (gt_counter tb + 1)%N in
  Some (gt_rows tb ++ [{| gp_id := id; gp_name := name; gp_ratio := of_Z 1; gp_selectable := true; gp_description := [] |}], id).

(** Names of more than one row, in the order in which they appear. *)
Definition duplicateNames (rows : list GroupPricingRow) : list jstr :=
  let names := List.filter str_truthy (map (λ row, trim (gp_name row)) rows) in
  List.filter (λ n, 1 <? length (List.filter (str_eqb n) names)) (set_of_list names).

(** ** Top-up ratios *)

Inductive SimpleType := SGroupRatio | STopupGroupRatio.

Record SimpleGroup := { sg_name : jstr; sg_value : jstr }.

(** The dialog with the state the editor keeps for it. *)
Record SimpleDialog := {
  sd_open : bool; sd_type : option SimpleType; sd_edit : option SimpleGroup; sd_name : jstr; sd_value : jstr
}.

Definition simple_field (type : SimpleType) : GroupField :=
  match type with SGroupRatio => FGroupRatio | STopupGroupRatio => FTopupGroupRatio end.

Definition topupRatioList (text : jstr) : option (list SimpleGroup) :=
  map (λ kv, {| sg_name := kv.1; sg_value := to_string kv.2 |}) ∘ own_entries <$> read_record text.

(** [handleSimpleAdd] and [handleSimpleEdit], with the effect that fills the
    inputs. *)
Definition openSimple (type : SimpleType) (edit : option SimpleGroup) : SimpleDialog :=
  {| sd_open := true; sd_type := Some type; sd_edit := edit;
     sd_name := match edit with Some g => sg_name g | None => [] end;
     sd_value := match edit with Some g => sg_value g | None => [] end |}.

Definition handleSimpleAdd (type : SimpleType) : SimpleDialog := openSimple type None.
Definition handleSimpleEdit (type : SimpleType) (group : SimpleGroup) : SimpleDialog := openSimple type (Some group).

Definition closeSimple (d : SimpleDialog) : SimpleDialog :=
  {| sd_open := false; sd_type := sd_type d; sd_edit := sd_edit d; sd_name := []; sd_value := [] |}.

Definition with_simple (name value : jstr) (d : SimpleDialog) : SimpleDialog :=
  {| sd_open := sd_open d; sd_type := sd_type d; sd_edit := sd_edit d; sd_name := name; sd_value := value |}.

(** An input that takes the start of a number. *)
Definition ratio_input (val old : jstr) : jstr := if str_eqb val [] || negb (isNaN (parseFloat val)) then val else old.

(** The record after [handleSimpleSave]. *)
Definition simple_saved (edit : option SimpleGroup) (name value : jstr) (map : obj jsval) : obj jsval :=
  let map := match edit with
             | Some g => if str_eqb (sg_name g) name then map else obj_delete (sg_name g) map
             | None => map
             end in
  obj_set name (JNum (parseFloat value)) map.

Definition handleSimpleSave (name value : jstr) (d : SimpleDialog) (v : GroupFormValues) : option (SimpleDialog * GroupFormValues) :=
  match sd_type d with
  | None => Some (d, v)
  | Some type =>
      map ← read_record (group_field (simple_field type) v);
      Some (closeSimple d, handleFieldChange (simple_field type) (json_pretty (JObj (simple_saved (sd_edit d) name value map))) v)
  end.

(** [handleSave] of [SimpleGroupDialog]. *)
Definition saveSimple (d : SimpleDialog) (v : GroupFormValues) : option (SimpleDialog * GroupFormValues) :=
  if negb (str_truthy (trim (sd_name d))) || negb (str_truthy (trim (sd_value d))) then Some (d, v)
  else '(d, v) ← handleSimpleSave (trim (sd_name d)) (trim (sd_value d)) d v; Some (with_simple [] [] d, v).

Definition handleSimpleDelete (type : SimpleType) (name : jstr) (v : GroupFormValues) : option GroupFormValues :=
  map ← read_record (group_field (simple_field type) v);
  Some (handleFieldChange (simple_field type) (json_pretty (JObj (obj_delete name map))) v).

(** ** Automatic groups *)

(** A dialog with one input. *)
Record InputDialog := { in_open : bool; in_text : jstr }.

Definition open_input : InputDialog := {| in_open := true; in_text := [] |}.
Definition close_input (d : InputDialog) : InputDialog := {| in_open := false; in_text := in_text d |}.

Definition autoGroupsList (text : jstr) : option (list jsval) :=
  match safeJsonParse text (JArr []) with JArr l => Some l | _ => None end.

Definition write_auto (l : list jsval) (v : GroupFormValues) : GroupFormValues :=
  handleFieldChange FAutoGroups (json_pretty (JArr l)) v.

Definition handleAutoGroupSave (d : InputDialog) (v : GroupFormValues) : option (InputDialog * GroupFormValues) :=
  let name := trim (in_text d) in
  if negb (str_truthy name) then Some (d, v)
  else l ← autoGroupsList (AutoGroups v); Some (close_input d, write_auto (l ++ [JStr name]) v).

Definition handleAutoGroupDelete (index : nat) (v : GroupFormValues) : option GroupFormValues :=
  l ← autoGroupsList (AutoGroups v); Some (write_auto (delete index l) v).

Inductive Direction := Up | Down.

(** Two elements change places. *)
Definition swap (i j : nat) (l : list jsval) : list jsval :=
  match l !! i, l !! j with Some x, Some y => <[j := x]> (<[i := y]> l) | _, _ => l end.

Definition handleAutoGroupMove (index : nat) (direction : Direction) (v : GroupFormValues) : option GroupFormValues :=
  l ← autoGroupsList (AutoGroups v);
  Some match direction with
       | Up => if (index =? 0) || (length l <=? index - 1) then v else write_auto (swap index (index - 1) l) v
       | Down => if length l <=? index + 1 then v else write_auto (swap index (index + 1) l) v
       end.

(** ** Ratios of one group for another *)

Definition inner_record (kv : jstr * jsval) : option (jstr * obj jsval) :=
  match kv.2 with JObj o => Some (kv.1, o) | _ => None end.

Definition read_nested (text : jstr) : option (obj (obj jsval)) := o ← read_record text; mapM inner_record o.

Definition nested_text (o : obj (obj jsval)) : jstr := json_pretty (JObj (map (λ kv, (kv.1, JObj kv.2)) o)).

Record GroupOverride := { go_targetGroup : jstr; go_ratio : jsval }.

Definition groupGroupRatioList (text : jstr) : option (list (jstr * list GroupOverride)) :=
  o ← read_nested text;
  Some (map (λ kv, (kv.1, map (λ tr, {| go_targetGroup := tr.1; go_ratio := tr.2 |}) (own_entries kv.2))) (own_entries o)).

Definition write_nested (f : obj (obj jsval) → obj (obj jsval)) (v : GroupFormValues) : option GroupFormValues :=
  o ← read_nested (GroupGroupRatio v); Some (handleFieldChange FGroupGroupRatio (nested_text (f o)) v).

Definition add_user_group (u : jstr) (o : obj (obj jsval)) : obj (obj jsval) :=
  if obj_has u o then o else obj_set u [] o.

Definition handleUserGroupSave (d : InputDialog) (v : GroupFormValues) : option (InputDialog * GroupFormValues) :=
  let u := trim (in_text d) in
  if negb (str_truthy u) then Some (d, v)
  else v' ← write_nested (add_user_group u) v; Some (close_input d, v').

Definition handleUserGroupDelete (u : jstr) (v : GroupFormValues) : option GroupFormValues := write_nested (obj_delete u) v.

Record OverrideDialog := {
  od_open : bool; od_user : option jstr; od_edit : option GroupOverride; od_target : jstr; od_ratio : jstr
}.

(** [handleOverrideAdd] and [handleOverrideEdit], with the effect that fills the
    inputs. *)
Definition openOverride (u : jstr) (edit : option GroupOverride) : OverrideDialog :=
  {| od_open := true; od_user := Some u; od_edit := edit;
     od_target := match edit with Some g => go_targetGroup g | None => [] end;
     od_ratio := match edit with Some g => to_string (go_ratio g) | None => [] end |}.

Definition closeOverride (d : OverrideDialog) : OverrideDialog :=
  {| od_open := false; od_user := od_user d; od_edit := od_edit d; od_target := []; od_ratio := [] |}.

Definition with_override (target ratio : jstr) (d : OverrideDialog) : OverrideDialog :=
  {| od_open := od_open d; od_user := od_user d; od_edit := od_edit d; od_target := target; od_ratio := ratio |}.

Definition override_saved (u target : jstr) (ratio : num) (old : option jstr) (o : obj (obj jsval)) : obj (obj jsval) :=
  let inner := default [] (obj_get u o) in
  let inner := match old with
               | None | Some [] => inner
               | Some old => if str_eqb old target then inner else obj_delete old inner
               end in
  obj_set u (obj_set target (JNum ratio) inner) o.

Definition handleOverrideSave (target : jstr) (ratio : num) (old : option jstr) (d : OverrideDialog) (v : GroupFormValues) :
    option (OverrideDialog * GroupFormValues) :=
  match od_user d with
  | None | Some [] => Some (d, v)
  | Some u => v' ← write_nested (override_saved u target ratio old) v; Some (closeOverride d, v')
  end.

(** [handleSave] of [GroupOverrideDialog]. *)
Definition saveOverride (d : OverrideDialog) (v : GroupFormValues) : option (OverrideDialog * GroupFormValues) :=
  let target := trim (od_target d) in
  if negb (str_truthy target) || negb (str_truthy (trim (od_ratio d))) then Some (d, v)
  else
    let parsedRatio := parseFloat (od_ratio d) in
    if isNaN parsedRatio then Some (d, v)
    else '(d, v) ← handleOverrideSave target parsedRatio (go_targetGroup <$> od_edit d) d v; Some (with_override [] [] d, v).

Definition override_deleted (u target : jstr) (o : obj (obj jsval)) : obj (obj jsval) :=
  match obj_get u o with
  | None => o
  | Some inner => match obj_delete target inner with [] => obj_delete u o | inner' => obj_set u inner' o end
  end.

Definition handleOverrideDelete (u target : jstr) (v : GroupFormValues) : option GroupFormValues :=
  write_nested (override_deleted u target) v.

(** ** Rules for special groups *)

Inductive OpType := OP_ADD | OP_REMOVE | OP_APPEND.

#[export] Instance OpType_eq_dec : EqDecision OpType.
Proof. solve_decision. Defined.

Record Rule := { r_id : N; r_userGroup : jstr; r_op : OpType; r_targetGroup : jstr; r_description : jstr }.

Definition parsePrefix (rawKey : jstr) : OpType * jstr :=
  match strip_prefix (js "+:") rawKey with
  | Some g => (OP_ADD, g)
  | None => match strip_prefix (js "-:") rawKey with Some g => (OP_REMOVE, g) | None => (OP_APPEND, rawKey) end
  end.

Definition toRawKey (op : OpType) (groupName : jstr) : jstr :=
  match op with OP_ADD => js "+:" ++ groupName | OP_REMOVE => js "-:" ++ groupName | OP_APPEND => groupName end.

Definition safeParseJson (str : jstr) : jsval :=
  if negb (str_truthy str) || negb (str_truthy (trim str)) then JObj [] else default (JObj []) (json_parse str).

(** [Object.entries] of what is stored for a user group. *)
Definition inner_entries (inner : jsval) : obj jsval :=
  match inner with
  | JObj o => own_entries o
  | JArr l => imap (λ i v, (int_to_string 10 (Z.of_nat i), v)) l
  | _ => []
  end.

Definition flatten_entry (userGroup : jstr) (e : jstr * jsval) (id : N) : Rule :=
  let '(op, groupName) := parsePrefix e.1 in
  {| r_id := id; r_userGroup := userGroup; r_op := op; r_targetGroup := groupName;
     r_description := if decide (op = OP_REMOVE) then js "remove" else match e.2 with JStr s => s | _ => [] end |}.

(** The rules and the counter after them. *)
Definition flattenRules (nested : jsval) (counter : N) : option (list Rule * N) :=
  match nested with
  | JObj o =>
      let entries := concat (map (λ ui, map (λ e, (ui.1, e)) (inner_entries ui.2)) (own_entries o)) in
      Some (number_from counter (λ id ue, flatten_entry ue.1 ue.2 id) entries, (counter + N.of_nat (length entries))%N)
  | _ => None
  end.

Definition nest_rule (result : obj (obj jsval)) (r : Rule) : obj (obj jsval) :=
  if negb (str_truthy (r_userGroup r)) || negb (str_truthy (r_targetGroup r)) then result
  else
    let inner := default [] (obj_get (r_userGroup r) result) in
    obj_set (r_userGroup r) (obj_set (toRawKey (r_op r) (r_targetGroup r)) (JStr (r_description r)) inner) result.

Definition nestRules (rules : list Rule) : obj (obj jsval) := fold_left nest_rule rules [].

Definition serializeRules (rules : list Rule) : jstr :=
  match nestRules rules with [] => js "{}" | nested => nested_text nested end.

(** The state of [GroupSpecialUsableRulesEditor]. *)
Record RuleEditor := { re_rules : list Rule; re_counter : N; re_newGroupName : jstr }.

Definition mountRules (value : jstr) (counter : N) : option RuleEditor :=
  '(rules, counter) ← flattenRules (safeParseJson value) counter;
  Some {| re_rules := rules; re_counter := counter; re_newGroupName := [] |}.

Inductive RuleChange := RuleOp (op : OpType) | RuleTarget (s : jstr) | RuleDescription (s : jstr).

Definition change_rule (c : RuleChange) (r : Rule) : Rule :=
  let mk op target description :=
    {| r_id := r_id r; r_userGroup := r_userGroup r; r_op := op; r_targetGroup := target; r_description := description |} in
  match c with
  | RuleTarget s => mk (r_op r) s (r_description r)
  | RuleDescription s => mk (r_op r) (r_targetGroup r) s
  | RuleOp op =>
      mk op (r_targetGroup r)
        (if decide (op = OP_REMOVE) then js "remove"
         else if decide (r_op r = OP_REMOVE) then (if str_eqb (r_description r) (js "remove") then [] else r_description r)
         else r_description r)
  end.

Definition updateRule (id : N) (c : RuleChange) (rules : list Rule) : list Rule :=
  map (λ r, if (r_id r =? id)%N then change_rule c r else r) rules.

Definition removeRule (id : N) (rules : list Rule) : list Rule := List.filter (λ r, negb (r_id r =? id)%N) rules.

Definition removeGroup (groupName : jstr) (rules : list Rule) : list Rule :=
  List.filter (λ r, negb (str_eqb (r_userGroup r) groupName)) rules.

Definition new_rule (id : N) (groupName : jstr) : Rule :=
  {| r_id := id; r_userGroup := groupName; r_op := OP_APPEND; r_targetGroup := []; r_description := [] |}.

(** [emitChange] *)
Definition emitChange (newRules : list Rule) (counter : N) (newGroupName : jstr) (v : GroupFormValues) : RuleEditor * GroupFormValues :=
  ({| re_rules := newRules; re_counter := counter; re_newGroupName := newGroupName |},
   handleFieldChange FGroupSpecialUsableGroup (serializeRules newRules) v).

Inductive RuleEvent :=
  | UpdateRule (id : N) (c : RuleChange)
  | RemoveRule (id : N)
  | RemoveGroup (groupName : jstr)
  | AddRuleToGroup (groupName : jstr)
  | NewGroupName (s : jstr)
  | AddNewGroup.

Definition rule_step (e : RuleEvent) (ed : RuleEditor) (v : GroupFormValues) : RuleEditor * GroupFormValues :=
  let name := re_newGroupName ed in
  match e with
  | UpdateRule id c => emitChange (updateRule id c (re_rules ed)) (re_counter ed) name v
  | RemoveRule id => emitChange (removeRule id (re_rules ed)) (re_counter ed) name v
  | RemoveGroup g => emitChange (removeGroup g (re_rules ed)) (re_counter ed) name v
  | AddRuleToGroup g => emitChange (re_rules ed ++ [new_rule (re_counter ed + 1)%N g]) (re_counter ed + 1)%N name v
  | NewGroupName s => ({| re_rules := re_rules ed; re_counter := re_counter ed; re_newGroupName := s |}, v)
  | AddNewGroup =>
      if negb (str_truthy (trim name)) then (ed, v)
      else emitChange (re_rules ed ++ [new_rule (re_counter ed + 1)%N (trim name)]) (re_counter ed + 1)%N [] v
  end.

(** The sections shown, in the order in which their groups appear. *)
Definition grouped (rules : list Rule) : list (jstr * list Rule) :=
  map (λ name, (name, List.filter (λ r, str_eqb (r_userGroup r) name) rules))
    (set_of_list (List.filter str_truthy (map r_userGroup rules))).

(** ** The whole editor *)

(** The parts of the visual editor that keep a state; they live while the form
    is in visual mode. *)
Record Visual := {
  vi_table : GroupTable; vi_rules : RuleEditor; vi_simple : SimpleDialog; vi_auto : InputDialog; vi_user : InputDialog;
  vi_override : OverrideDialog
}.

(** The counters belong to the modules and survive the editor. *)
Record GroupEditor := { ge_form : GroupFormValues; ge_rowIds : N; ge_ruleIds : N; ge_visual : option Visual }.

Definition closed_input : InputDialog := {| in_open := false; in_text := [] |}.
Definition closed_simple : SimpleDialog := {| sd_open := false; sd_type := None; sd_edit := None; sd_name := []; sd_value := [] |}.
Definition closed_override : OverrideDialog :=
  {| od_open := false; od_user := None; od_edit := None; od_target := []; od_ratio := [] |}.

Definition with_visual (vi : Visual) (v : GroupFormValues) : GroupEditor :=
  {| ge_form := v; ge_rowIds := gt_counter (vi_table vi); ge_ruleIds := re_counter (vi_rules vi); ge_visual := Some vi |}.

(** The first render and its effect, which finds the texts unchanged or builds
    the rows again. *)
Definition mountVisual (v : GroupFormValues) (rowIds ruleIds : N) : option GroupEditor :=
  '(rows, counter) ← buildGroupPricingRows (GroupRatio v) (UserUsableGroups v) rowIds;
  table ← syncRows v {| gt_rows := rows; gt_counter := counter |};
  rules ← mountRules (GroupSpecialUsableGroup v) ruleIds;
  Some (with_visual {| vi_table := table; vi_rules := rules; vi_simple := closed_simple; vi_auto := closed_input;
                       vi_user := closed_input; vi_override := closed_override |} v).

Definition set_table tb vi := {| vi_table := tb; vi_rules := vi_rules vi; vi_simple := vi_simple vi; vi_auto := vi_auto vi;
  vi_user := vi_user vi; vi_override := vi_override vi |}.
Definition set_rules r vi := {| vi_table := vi_table vi; vi_rules := r; vi_simple := vi_simple vi; vi_auto := vi_auto vi;
  vi_user := vi_user vi; vi_override := vi_override vi |}.
Definition set_simple d vi := {| vi_table := vi_table vi; vi_rules := vi_rules vi; vi_simple := d; vi_auto := vi_auto vi;
  vi_user := vi_user vi; vi_override := vi_override vi |}.
Definition set_auto d vi := {| vi_table := vi_table vi; vi_rules := vi_rules vi; vi_simple := vi_simple vi; vi_auto := d;
  vi_user := vi_user vi; vi_override := vi_override vi |}.
Definition set_user d vi := {| vi_table := vi_table vi; vi_rules := vi_rules vi; vi_simple := vi_simple vi; vi_auto := vi_auto vi;
  vi_user := d; vi_override := vi_override vi |}.
Definition set_override d vi := {| vi_table := vi_table vi; vi_rules := vi_rules vi; vi_simple := vi_simple vi; vi_auto := vi_auto vi;
  vi_user := vi_user vi; vi_override := d |}.

Inductive VisualEvent :=
  | ChangeRow (id : N) (c : RowChange) | AddRow | RemoveRow (id : N)
  | OpenSimple (type : SimpleType) (edit : option SimpleGroup) | CloseSimple | SimpleName (s : jstr) | SimpleValue (s : jstr)
  | SaveSimple | DeleteSimple (type : SimpleType) (name : jstr)
  | OpenAuto | CloseAuto | AutoInput (s : jstr) | SaveAuto | DeleteAuto (index : nat) | MoveAuto (index : nat) (d : Direction)
  | OpenUser | CloseUser | UserInput (s : jstr) | SaveUser | DeleteUser (u : jstr)
  | OpenOverride (u : jstr) (edit : option GroupOverride) | CloseOverride | OverrideTarget (s : jstr) | OverrideRatio (s : jstr)
  | SaveOverride | DeleteOverride (u target : jstr)
  | OnRules (e : RuleEvent)
  | UseAutoGroup (b : bool).

Definition set_default_auto (b : bool) (v : GroupFormValues) : GroupFormValues :=
  {| GroupRatio := GroupRatio v; TopupGroupRatio := TopupGroupRatio v; UserUsableGroups := UserUsableGroups v;
     GroupGroupRatio := GroupGroupRatio v; AutoGroups := AutoGroups v; DefaultUseAutoGroup := b;
     GroupSpecialUsableGroup := GroupSpecialUsableGroup v |}.

(** A change of the ratios outside the table reaches it through its effect. *)
Definition with_form (vi : Visual) (v : GroupFormValues) : option GroupEditor :=
  table ← syncRows v (vi_table vi); Some (with_visual (set_table table vi) v).

Definition visual_step (e : VisualEvent) (vi : Visual) (v : GroupFormValues) : option GroupEditor :=
  let rows := gt_rows (vi_table vi) in
  let counter := gt_counter (vi_table vi) in
  let emit rows counter := '(v, tb) ← emitRows rows counter v; Some (with_visual (set_table tb vi) v) in
  match e with
  | ChangeRow id c => emit (updateRow id c rows) counter
  | AddRow => '(rows, counter) ← addRow (vi_table vi); emit rows counter
  | RemoveRow id => emit (removeRow id rows) counter
  | OpenSimple type edit => Some (with_visual (set_simple (openSimple type edit) vi) v)
  | CloseSimple => Some (with_visual (set_simple (closeSimple (vi_simple vi)) vi) v)
  | SimpleName s => Some (with_visual (set_simple (with_simple s (sd_value (vi_simple vi)) (vi_simple vi)) vi) v)
  | SimpleValue s =>
      let d := vi_simple vi in Some (with_visual (set_simple (with_simple (sd_name d) (ratio_input s (sd_value d)) d) vi) v)
  | SaveSimple => '(d, v) ← saveSimple (vi_simple vi) v; with_form (set_simple d vi) v
  | DeleteSimple type name => v ← handleSimpleDelete type name v; with_form vi v
  | OpenAuto => Some (with_visual (set_auto open_input vi) v)
  | CloseAuto => Some (with_visual (set_auto (close_input (vi_auto vi)) vi) v)
  | AutoInput s => Some (with_visual (set_auto {| in_open := in_open (vi_auto vi); in_text := s |} vi) v)
  | SaveAuto => '(d, v) ← handleAutoGroupSave (vi_auto vi) v; Some (with_visual (set_auto d vi) v)
  | DeleteAuto index => v ← handleAutoGroupDelete index v; Some (with_visual vi v)
  | MoveAuto index direction => v ← handleAutoGroupMove index direction v; Some (with_visual vi v)
  | OpenUser => Some (with_visual (set_user open_input vi) v)
  | CloseUser => Some (with_visual (set_user (close_input (vi_user vi)) vi) v)
  | UserInput s => Some (with_visual (set_user {| in_open := in_open (vi_user vi); in_text := s |} vi) v)
  | SaveUser => '(d, v) ← handleUserGroupSave (vi_user vi) v; Some (with_visual (set_user d vi) v)
  | DeleteUser u => v ← handleUserGroupDelete u v; Some (with_visual vi v)
  | OpenOverride u edit => Some (with_visual (set_override (openOverride u edit) vi) v)
  | CloseOverride => Some (with_visual (set_override (closeOverride (vi_override vi)) vi) v)
  | OverrideTarget s => Some (with_visual (set_override (with_override s (od_ratio (vi_override vi)) (vi_override vi)) vi) v)
  | OverrideRatio s =>
      let d := vi_override vi in Some (with_visual (set_override (with_override (od_target d) (ratio_input s (od_ratio d)) d) vi) v)
  | SaveOverride => '(d, v) ← saveOverride (vi_override vi) v; Some (with_visual (set_override d vi) v)
  | DeleteOverride u target => v ← handleOverrideDelete u target v; Some (with_visual vi v)
  | OnRules e => let '(r, v) := rule_step e (vi_rules vi) v in Some (with_visual (set_rules r vi) v)
  | UseAutoGroup b => Some (with_visual vi (set_default_auto b v))
  end.

Inductive GroupEvent :=
  | InVisual (e : VisualEvent)
  | EditText (f : GroupField) (s : jstr)   (* in JSON mode *)
  | ToggleEditMode
  | ResetForm (v : GroupFormValues).       (* the settings were loaded again *)

Definition group_step (e : GroupEvent) (ed : GroupEditor) : option GroupEditor :=
  match e, ge_visual ed with
  | InVisual e, Some vi => visual_step e vi (ge_form ed)
  | InVisual _, None => Some ed
  | EditText f s, None =>
      Some {| ge_form := handleFieldChange f s (ge_form ed); ge_rowIds := ge_rowIds ed; ge_ruleIds := ge_ruleIds ed; ge_visual := None |}
  | EditText _ _, Some _ => Some ed
  | ToggleEditMode, Some _ =>
      Some {| ge_form := ge_form ed; ge_rowIds := ge_rowIds ed; ge_ruleIds := ge_ruleIds ed; ge_visual := None |}
  | ToggleEditMode, None => mountVisual (ge_form ed) (ge_rowIds ed) (ge_ruleIds ed)
  | ResetForm v, Some vi => with_form vi v
  | ResetForm v, None => Some {| ge_form := v; ge_rowIds := ge_rowIds ed; ge_ruleIds := ge_ruleIds ed; ge_visual := None |}
  end.
