(* ===== verification/GroupSettingsFacts.v ===== *)
(** * Facts about the settings of user groups

    What the tables of the group editor hold after an edit, through the JSON
    texts they are kept in; rows and rules written and read back; the name of a
    new group; what holds in every state of the editor. *)

From stdpp Require Import gmap.
From S2P Require Import Prelude JsNumber JsNumberFacts JsString JsValue JsonFacts JsonRoundtrip PriceSettings PriceSettingsFacts GroupSettings.

Open Scope nat_scope.

(** ** Records as finite maps *)

Definition to_map {V} (o : obj V) : gmap jstr V := list_to_map o.

Lemma to_map_lookup {V} (o : obj V) k : to_map o !! k = obj_get k o.
Proof.
  induction o as [|[k' v] o IH]; [done|]. unfold to_map in *. cbn [list_to_map foldr obj_get uncurry fst snd].
  rewrite lookup_insert, IH. unfold str_eqb. repeat case_decide; repeat case_bool_decide; congruence.
Qed.

Lemma to_map_set {V} k (v : V) o : to_map (obj_set k v o) = <[k := v]> (to_map o).
Proof.
  apply map_eq. intros j. rewrite to_map_lookup, obj_get_set, lookup_insert, to_map_lookup.
  unfold str_eqb. case_decide; case_bool_decide; congruence.
Qed.

Lemma to_map_delete {V} k (o : obj V) : to_map (obj_delete k o) = delete k (to_map o).
Proof.
  apply map_eq. intros j. rewrite to_map_lookup, obj_get_delete, lookup_delete, to_map_lookup.
  unfold str_eqb. case_decide; case_bool_decide; congruence.
Qed.

Lemma to_map_own {V} (o : obj V) : NoDup (map fst o) → to_map (own_entries o) = to_map o.
Proof. intros Hd. apply map_eq. intros k. by rewrite !to_map_lookup, obj_get_own. Qed.

Lemma to_map_fmap {V W} (f : V → W) (o : obj V) : to_map (map (λ kv, (kv.1, f kv.2)) o) = f <$> to_map o.
Proof.
  induction o as [|[k v] o IH]; [done|]. unfold to_map in *. cbn [map list_to_map foldr uncurry fst snd].
  by rewrite fmap_insert, <- IH.
Qed.

(** ** Nested records as texts *)

Definition nested_ok (o : obj (obj jsval)) : Prop :=
  NoDup (map fst o) ∧ Forall (λ kv, utf16_ok kv.1 ∧ writable kv.2) o.

Lemma stringify_own gap d o : stringify gap d (JObj o) = stringify gap d (JObj (own_entries o)).
Proof. cbn [stringify]. by rewrite !(own_entries_map (stringify gap (S d))), own_entries_idemp. Qed.

Definition own_nested (o : obj (obj jsval)) : obj (obj jsval) := map (λ kv, (kv.1, own_entries kv.2)) o.

Lemma nested_text_own o : nested_text o = nested_text (own_nested o).
Proof.
  unfold nested_text, own_nested. rewrite !pretty_object, !map_map. do 3 f_equal. apply map_ext. intros [k inner]. cbn [fst snd].
  f_equal. apply stringify_own.
Qed.

Lemma map_keys {V W} (f : V → W) (o : obj V) : map fst (map (λ kv, (kv.1, f kv.2)) o) = map fst o.
Proof. rewrite map_map. by apply map_ext. Qed.

Lemma nested_roundtrip o : nested_ok o → read_nested (nested_text o) = Some (own_nested (own_entries o)).
Proof.
  intros [Hd Ho]. rewrite nested_text_own. unfold read_nested, nested_text.
  set (o' := map (λ kv, (kv.1, JObj kv.2)) (own_nested o)).
  assert (writable o') as Hw.
  { split; [unfold o', own_nested; by rewrite !map_keys|]. unfold o', own_nested. rewrite !Forall_map. cbn [fst snd].
    eapply Forall_impl; [exact Ho|]. intros [k inner] [Hk [Hi1 Hi2]]. cbn [fst snd] in *. split; [done|].
    apply expressible_obj. split_and!; [apply own_entries_idemp|by apply own_keys_NoDup|by rewrite own_entries_perm]. }
  rewrite record_roundtrip by done. cbn [mbind option_bind]. unfold o', own_nested.
  rewrite (own_entries_map JObj), (own_entries_map own_entries). rewrite map_map. cbn [fst snd].
  generalize (own_entries o). clear. intros o. induction o as [|[k inner] o IH]; [done|].
  cbn [map mapM inner_record fst snd mbind option_bind]. by rewrite IH.
Qed.

(** ** Abstract tables *)

Abbreviation Overrides := (gmap jstr (gmap jstr jsval)).

Definition overrides_of (text : jstr) : option Overrides := (λ o, to_map <$> to_map o) <$> read_nested text.

Definition ratios_of (text : jstr) : option (gmap jstr jsval) := to_map <$> read_record text.

Definition override_save (u t : jstr) (ratio : num) (old : option jstr) (m : Overrides) : Overrides :=
  let row := default ∅ (m !! u) in
  let row := match old with None | Some [] => row | Some old => if decide (old = t) then row else delete old row end in
  <[u := <[t := JNum ratio]> row]> m.

Definition override_delete (u t : jstr) (m : Overrides) : Overrides :=
  match m !! u with
  | None => m
  | Some row => let row' := delete t row in if decide (row' = ∅) then delete u m else <[u := row']> m
  end.

Definition user_group_add (u : jstr) (m : Overrides) : Overrides := if decide (is_Some (m !! u)) then m else <[u := ∅]> m.

Definition nested_map (o : obj (obj jsval)) : Overrides := to_map <$> to_map o.

Lemma nested_map_lookup o u : nested_map o !! u = to_map <$> obj_get u o.
Proof. unfold nested_map. by rewrite lookup_fmap, to_map_lookup. Qed.

Lemma nested_map_set u inner o : nested_map (obj_set u inner o) = <[u := to_map inner]> (nested_map o).
Proof. unfold nested_map. by rewrite to_map_set, fmap_insert. Qed.

Lemma nested_map_delete u o : nested_map (obj_delete u o) = delete u (nested_map o).
Proof. unfold nested_map. by rewrite to_map_delete, fmap_delete. Qed.

Lemma nested_map_own o : nested_ok o → nested_map (own_nested (own_entries o)) = nested_map o.
Proof.
  intros [Hd Ho]. apply map_eq. intros u. rewrite !nested_map_lookup. unfold own_nested.
  rewrite <- to_map_lookup, to_map_fmap, lookup_fmap, to_map_lookup, obj_get_own by done.
  destruct (obj_get u o) as [inner|] eqn:E; [|done]. cbn. f_equal. apply to_map_own.
  apply obj_get_entry in E. rewrite Forall_forall in Ho. by apply (Ho _ E).
Qed.

Lemma override_saved_map u t ratio old o : nested_map (override_saved u t ratio old o) = override_save u t ratio old (nested_map o).
Proof.
  unfold override_saved, override_save. rewrite nested_map_set, to_map_set, nested_map_lookup. f_equal. f_equal.
  assert (to_map (default [] (obj_get u o)) = default ∅ (to_map <$> obj_get u o)) as E by by destruct (obj_get u o).
  destruct old as [[|c old]|]; [done| |done]. unfold str_eqb. case_bool_decide; case_decide; try done.
  by rewrite to_map_delete, E.
Qed.

Lemma override_deleted_map u t o : nested_map (override_deleted u t o) = override_delete u t (nested_map o).
Proof.
  unfold override_deleted, override_delete. rewrite nested_map_lookup. destruct (obj_get u o) as [inner|]; [|done]. cbn [fmap option_fmap option_map].
  rewrite <- to_map_delete. destruct (obj_delete t inner) as [|[k v] l].
  - rewrite decide_True by done. apply nested_map_delete.
  - rewrite decide_False; [apply nested_map_set|]. intros E. apply (f_equal (lookup k)) in E.
    unfold to_map in E. cbn in E. by rewrite lookup_insert_eq in E.
Qed.

Lemma add_user_group_map u o : nested_map (add_user_group u o) = user_group_add u (nested_map o).
Proof.
  unfold add_user_group, user_group_add, obj_has. rewrite nested_map_lookup. destruct (obj_get u o); cbn [fmap option_fmap option_map].
  - by rewrite decide_True by eauto.
  - rewrite decide_False by (intros [? ?]; done). apply nested_map_set.
Qed.

(** *** Nested records stay printable *)

Lemma Forall_set {V} (P : jstr * V → Prop) k v (o : obj V) : Forall P o → P (k, v) → Forall P (obj_set k v o).
Proof.
  induction 1 as [|[j w] o Hj Ho IH]; intros Hv; cbn [obj_set]; [by constructor|].
  destruct (str_eqb k j) eqn:E; constructor; try by auto. by apply str_eqb_eq in E as ->.
Qed.

Lemma Forall_delete {V} (P : jstr * V → Prop) k (o : obj V) : Forall P o → Forall P (obj_delete k o).
Proof. rewrite !Forall_forall. intros Ho kv [_ Hkv]%list_elem_of_filter. by apply Ho. Qed.

Lemma nested_ok_set u inner o : nested_ok o → utf16_ok u → writable inner → nested_ok (obj_set u inner o).
Proof. intros [Hd Ho] Hu Hi. split; [by apply NoDup_keys_set|by apply Forall_set]. Qed.

Lemma nested_ok_delete u o : nested_ok o → nested_ok (obj_delete u o).
Proof. intros [Hd Ho]. split; [by apply NoDup_keys_delete|by apply Forall_delete]. Qed.

Lemma writable_nil : writable [].
Proof. split; [apply NoDup_nil_2|done]. Qed.

Lemma nested_ok_get u o : nested_ok o → writable (default [] (obj_get u o)).
Proof.
  intros [_ Ho]. destruct (obj_get u o) as [inner|] eqn:E; [|apply writable_nil].
  apply obj_get_entry in E. rewrite Forall_forall in Ho. by apply (Ho _ E).
Qed.

Lemma nested_ok_own o : nested_ok o → nested_ok (own_nested (own_entries o)).
Proof.
  intros [Hd Ho]. split; unfold own_nested; [rewrite map_keys; by apply own_keys_NoDup|]. rewrite Forall_map, own_entries_perm.
  eapply Forall_impl; [exact Ho|]. intros [k inner] [Hk Hi]. cbn [fst snd] in *. split; [done|by apply writable_own].
Qed.

Lemma override_saved_ok u t ratio old o : nested_ok o → utf16_ok u → utf16_ok t → num_prints ratio →
  nested_ok (override_saved u t ratio old o).
Proof.
  intros Ho Hu Ht Hr. unfold override_saved. apply nested_ok_set; [done|done|]. apply writable_set; [|done|exact Hr].
  pose proof (nested_ok_get u o Ho). destruct old as [[|c old]|]; [done| |done]. destruct (str_eqb _ _); [done|by apply writable_delete].
Qed.

Lemma override_deleted_ok u t o : nested_ok o → nested_ok (override_deleted u t o).
Proof.
  intros Ho. unfold override_deleted. destruct (obj_get u o) as [inner|] eqn:E; [|done].
  pose proof (writable_delete t inner) as Hw. pose proof (nested_ok_get u o Ho) as Hi. rewrite E in Hi. specialize (Hw Hi).
  destruct (obj_delete t inner); [by apply nested_ok_delete|]. apply nested_ok_set; [done| |done].
  apply obj_get_entry in E. destruct Ho as [_ Ho]. rewrite Forall_forall in Ho. by apply (Ho _ E).
Qed.

Lemma add_user_group_ok u o : nested_ok o → utf16_ok u → nested_ok (add_user_group u o).
Proof.
  intros Ho Hu. unfold add_user_group. destruct (obj_has u o); [done|]. by apply nested_ok_set; [..|apply writable_nil].
Qed.

(** ** What the form holds *)

Definition overrides_hold (v : GroupFormValues) (m : Overrides) : Prop :=
  ∃ o, read_nested (GroupGroupRatio v) = Some o ∧ nested_ok o ∧ nested_map o = m.

Definition ratios_hold (type : SimpleType) (v : GroupFormValues) (m : gmap jstr jsval) : Prop :=
  ∃ o, read_record (group_field (simple_field type) v) = Some o ∧ writable o ∧ to_map o = m.

(** Only one text of the form has changed. *)
Definition only_changed (f : GroupField) (v v' : GroupFormValues) : Prop :=
  DefaultUseAutoGroup v' = DefaultUseAutoGroup v ∧ ∀ g, g ≠ f → group_field g v' = group_field g v.

Lemma field_changed f s v : group_field f (handleFieldChange f s v) = s ∧ only_changed f v (handleFieldChange f s v).
Proof. split; [by destruct f|]. split; [done|]. intros g Hg. destruct f, g; done. Qed.

Lemma write_nested_holds f g v m : (∀ o, nested_ok o → nested_ok (f o)) → (∀ o, nested_map (f o) = g (nested_map o)) →
  overrides_hold v m → ∃ v', write_nested f v = Some v' ∧ overrides_hold v' (g m) ∧ only_changed FGroupGroupRatio v v'.
Proof.
  intros Hf Hg (o & Hr & Ho & <-). unfold write_nested. rewrite Hr. cbn [mbind option_bind]. eexists. split; [reflexivity|].
  destruct (field_changed FGroupGroupRatio (nested_text (f o)) v) as [E Hc]. cbn [group_field] in E. split; [|done].
  exists (own_nested (own_entries (f o))). rewrite E. split; [by apply nested_roundtrip, Hf|]. split; [by apply nested_ok_own, Hf|].
  by rewrite nested_map_own, Hg by by apply Hf.
Qed.

Lemma write_record_holds type f g v m o : read_record (group_field (simple_field type) v) = Some o → writable (f o) →
  to_map (f o) = g (to_map o) → to_map o = m →
  let v' := handleFieldChange (simple_field type) (json_pretty (JObj (f o))) v in
  ratios_hold type v' (g m) ∧ only_changed (simple_field type) v v'.
Proof.
  intros Hr Hw Hg <- v'. destruct (field_changed (simple_field type) (json_pretty (JObj (f o))) v) as [E Hc]. split; [|done].
  exists (own_entries (f o)). unfold v'. rewrite E. split; [by apply record_roundtrip|]. split; [by apply writable_own|].
  by rewrite to_map_own, Hg by apply Hw.
Qed.

(** C29. The ratios of one group for another are a finite map of finite maps, and
    the handlers are updates of it: through the JSON text of the form, saving an
    override sets one entry (and removes the one it replaces), deleting one
    removes it, and the user group with its last one, adding a user group never
    loses entries, and deleting one removes its row; no other setting changes. *)
Theorem overrides_refine v m : overrides_hold v m →
  (∀ d u t ratio old, od_user d = Some u → u ≠ [] → utf16_ok u → utf16_ok t → num_prints ratio →
     ∃ v', handleOverrideSave t ratio old d v = Some (closeOverride d, v') ∧ overrides_hold v' (override_save u t ratio old m) ∧
       only_changed FGroupGroupRatio v v') ∧
  (∀ u t, ∃ v', handleOverrideDelete u t v = Some v' ∧ overrides_hold v' (override_delete u t m) ∧ only_changed FGroupGroupRatio v v') ∧
  (∀ d, utf16_ok (trim (in_text d)) → trim (in_text d) ≠ [] →
     ∃ v', handleUserGroupSave d v = Some (close_input d, v') ∧ overrides_hold v' (user_group_add (trim (in_text d)) m) ∧
       only_changed FGroupGroupRatio v v') ∧
  (∀ u, ∃ v', handleUserGroupDelete u v = Some v' ∧ overrides_hold v' (delete u m) ∧ only_changed FGroupGroupRatio v v').
Proof.
  intros Hm. split_and!.
  - intros d [|c u] t ratio old Hd Hne Hu Ht Hr; [done|]. unfold handleOverrideSave. rewrite Hd.
    destruct (write_nested_holds (override_saved (c :: u) t ratio old) (override_save (c :: u) t ratio old) v m) as (v' & -> & H);
      [intros; by apply override_saved_ok|apply override_saved_map|done|by exists v'].
  - intros u t. apply (write_nested_holds (override_deleted u t) (override_delete u t)); [apply override_deleted_ok|apply override_deleted_map|done].
  - intros d Hu Hne. unfold handleUserGroupSave. destruct (trim (in_text d)) as [|c u]; [done|]. cbn [str_truthy negb].
    destruct (write_nested_holds (add_user_group (c :: u)) (user_group_add (c :: u)) v m) as (v' & -> & H);
      [intros; by apply add_user_group_ok|apply add_user_group_map|done|by exists v'].
  - intros u. apply (write_nested_holds (obj_delete u) (delete u)); [apply nested_ok_delete|apply nested_map_delete|done].
Qed.

Definition topup_save (edit : option SimpleGroup) (name : jstr) (x : num) (m : gmap jstr jsval) : gmap jstr jsval :=
  <[name := JNum x]> (match edit with Some g => if decide (sg_name g = name) then m else delete (sg_name g) m | None => m end).

Lemma topup_refines type v m : ratios_hold type v m →
  (∀ d name value, sd_type d = Some type → utf16_ok name → num_prints (parseFloat value) →
     ∃ v', handleSimpleSave name value d v = Some (closeSimple d, v') ∧ ratios_hold type v' (topup_save (sd_edit d) name (parseFloat value) m) ∧
       only_changed (simple_field type) v v') ∧
  (∀ name, ∃ v', handleSimpleDelete type name v = Some v' ∧ ratios_hold type v' (delete name m) ∧ only_changed (simple_field type) v v').
Proof.
  intros (o & Hr & Hw & Hm). split.
  - intros d name value Hd Hn Hx. unfold handleSimpleSave. rewrite Hd, Hr. cbn [mbind option_bind]. eexists. split; [reflexivity|].
    apply (write_record_holds type _ (topup_save (sd_edit d) name (parseFloat value))); [done| | |done]; unfold simple_saved, topup_save.
    + apply writable_set; [|done|exact Hx]. destruct (sd_edit d) as [g|]; [|done]. destruct (str_eqb _ _); [done|by apply writable_delete].
    + rewrite to_map_set. f_equal. destruct (sd_edit d) as [g|]; [|done]. unfold str_eqb. case_bool_decide; case_decide; try done.
      apply to_map_delete.
  - intros name. unfold handleSimpleDelete. rewrite Hr. cbn [mbind option_bind]. eexists. split; [reflexivity|].
    apply (write_record_holds type _ (delete name)); [done|by apply writable_delete|apply to_map_delete|done].
Qed.

(** ** The name of a new group *)

Lemma group_name_inj i j : group_name i = group_name j → i = j.
Proof.
  unfold group_name. intros E%app_inv_head. unfold int_to_string in E.
  rewrite !(proj2 (Z.ltb_ge _ _)) in E by lia. cbn [app] in E. apply digits_inj in E. lia.
Qed.

Lemma some_name_free names : ∃ i, 1 ≤ i ≤ S (length names) ∧ group_name i ∉ names.
Proof.
  destruct (decide (Exists (λ i, group_name i ∉ names) (seq 1 (S (length names))))) as [(i & Hi & Hn)%Exists_exists|Hno].
  - apply elem_of_seq in Hi. exists i. split; [lia|done].
  - exfalso. assert (map group_name (seq 1 (S (length names))) ⊆+ names) as Hl%submseteq_length.
    + apply NoDup_submseteq; [apply (NoDup_fmap_2_strong group_name); [intros; by apply group_name_inj|apply NoDup_seq]|].
      intros n (i & -> & Hi)%list_elem_of_fmap. destruct (decide (group_name i ∈ names)) as [|Hn]; [done|].
      exfalso. apply Hno, Exists_exists. by exists i.
    + rewrite length_map, length_seq in Hl. lia.
Qed.

Lemma free_name_first fuel names index i : index ≤ i → i ≤ index + fuel → group_name i ∉ names →
  ∃ k, index ≤ k ≤ i ∧ free_name fuel names index = Some (group_name k) ∧ (group_name k ∉ names) ∧
    ∀ j, index ≤ j < k → group_name j ∈ names.
Proof.
  revert index. induction fuel as [|fuel IH]; intros index H1 H2 Hi; cbn [free_name]; case_decide as Hd.
  - replace i with index in Hi by lia. done.
  - exists index. split_and!; [lia..|done|done|]. intros; lia.
  - assert (index ≠ i) by (intros ->; done). destruct (IH (S index)) as (k & Hk & E & Hn & Hj); [lia|lia|done|].
    exists k. split_and!; [lia|lia|done|done|]. intros j Hjk. destruct (decide (j = index)) as [->|]; [done|]. apply Hj. lia.
  - exists index. split_and!; [lia..|done|done|]. intros; lia.
Qed.

(** Adding a pricing group always succeeds: the search for a name ends, at
    the first of the names group_1, group_2, ... that no row has, and the rows
    before it stay as they are. *)
Theorem new_group_named tb : ∃ k id,
  addRow tb = Some (gt_rows tb ++ [{| gp_id := id; gp_name := group_name k; gp_ratio := of_Z 1; gp_selectable := true; gp_description := [] |}], id) ∧
  1 ≤ k ∧ (group_name k ∉ map gp_name (gt_rows tb)) ∧ ∀ j, 1 ≤ j < k → group_name j ∈ map gp_name (gt_rows tb).
Proof.
  destruct (some_name_free (map gp_name (gt_rows tb))) as (i & Hi & Hn). rewrite length_map in Hi.
  destruct (free_name_first (length (gt_rows tb)) (map gp_name (gt_rows tb)) 1 i) as (k & Hk & E & Hf & Hj); [lia|lia|done|].
  unfold addRow. rewrite E. cbn [mbind option_bind]. exists k, (gt_counter tb + 1)%N. split_and!; [done|lia|done|done].
Qed.

(** ** Rows and records *)

Definition named_row (n : jstr) (row : GroupPricingRow) : Prop := trim (gp_name row) = n.

#[export] Instance named_row_dec n row : Decision (named_row n row).
Proof. unfold named_row. apply _. Defined.

Lemma serialized_snoc rows row : serialized_records (rows ++ [row]) = serialize_row (serialized_records rows) row.
Proof. unfold serialized_records. by rewrite fold_left_app. Qed.

Lemma last_filter_snoc {A} (P : A → Prop) `{∀ x, Decision (P x)} l x :
  last (filter P (l ++ [x])) = if decide (P x) then Some x else last (filter P l).
Proof.
  rewrite filter_app, filter_cons, filter_nil. case_decide; [by rewrite last_snoc|by rewrite app_nil_r].
Qed.

(** What the table of pricing groups stores: the ratio of a group is that of
    the last row with its (trimmed) name, and a group can be selected exactly when
    some row with its name is ticked, with the description of the last such row;
    rows with a blank name store nothing. *)
Theorem rows_stored rows n : n ≠ [] →
  obj_get n (serialized_records rows).1 = (λ row, JNum (normalizeRatio (JNum (gp_ratio row)))) <$> last (filter (named_row n) rows) ∧
  obj_get n (serialized_records rows).2 =
    (λ row, JStr (gp_description row)) <$> last (filter (λ row, named_row n row ∧ gp_selectable row = true) rows) ∧
  obj_get [] (serialized_records rows).1 = None ∧ obj_get [] (serialized_records rows).2 = None.
Proof.
  intros Hn. induction rows as [|row rows IH] using rev_ind; [done|]. rewrite serialized_snoc, !last_filter_snoc.
  unfold serialize_row. destruct (serialized_records rows) as [r u]. cbn [fst snd] in *. destruct IH as (IH1 & IH2 & IH3 & IH4).
  assert (named_row n row ↔ trim (gp_name row) = n) as Hr by done.
  destruct (trim (gp_name row)) as [|c s] eqn:E; cbn [str_truthy negb fst snd].
  - rewrite !decide_False by (try intros [Hx _]; try intros Hx; apply Hr in Hx; congruence). done.
  - rewrite !obj_get_set. unfold str_eqb. rewrite (bool_decide_eq_false_2 ([] = c :: s)) by done.
    destruct (decide (named_row n row)) as [Hx|Hx]; [pose proof (proj1 Hr Hx) as <-|].
    + rewrite bool_decide_eq_true_2 by done. split; [done|]. destruct (gp_selectable row) eqn:Es.
      * rewrite decide_True by done. rewrite !obj_get_set. unfold str_eqb.
        rewrite bool_decide_eq_true_2 by done. by rewrite bool_decide_eq_false_2 by done.
      * rewrite decide_False by (intros [_ ?]; done). done.
    + assert (n ≠ c :: s) by (intros ->; by apply Hx, Hr).
      rewrite (bool_decide_eq_false_2 (n = c :: s)) by done. rewrite decide_False by (intros [? _]; done). split; [done|].
      destruct (gp_selectable row); [|done]. rewrite !obj_get_set. unfold str_eqb.
      rewrite (bool_decide_eq_false_2 (n = c :: s)) by done. by rewrite bool_decide_eq_false_2 by done.
Qed.

(** *** Rows written and read *)

Definition key_of (row : GroupPricingRow) : jstr := trim (gp_name row).

(** Rows that lose nothing: names that differ and are not blank, texts and
    numbers that JSON can express. *)
Definition rows_ok (rows : list GroupPricingRow) : Prop :=
  NoDup (map key_of rows) ∧
  Forall (λ row, key_of row ≠ [] ∧ utf16_ok (key_of row) ∧ utf16_ok (gp_description row) ∧ num_prints (gp_ratio row)) rows.

Definition shown_row (row : GroupPricingRow) : jstr * num * bool * jstr :=
  (gp_name row, gp_ratio row, gp_selectable row, gp_description row).

Definition stored_row (row : GroupPricingRow) : jstr * num * bool * jstr :=
  (key_of row, gp_ratio row, gp_selectable row, if gp_selectable row then gp_description row else []).

Definition selectable (row : GroupPricingRow) : Prop := gp_selectable row = true.

#[export] Instance selectable_dec row : Decision (selectable row).
Proof. unfold selectable. apply _. Defined.

Lemma number_finite x : num_prints x → normalizeRatio (JNum x) = x.
Proof. intros [Hf _]. unfold normalizeRatio. cbn [to_number]. by rewrite Hf. Qed.

Lemma serialized_ok rows : rows_ok rows →
  serialized_records rows = (map (λ row, (key_of row, JNum (gp_ratio row))) rows,
                             map (λ row, (key_of row, JStr (gp_description row))) (filter selectable rows)).
Proof.
  induction rows as [|row rows IH] using rev_ind; [done|]. intros [Hd Ho]. rewrite map_app in Hd.
  apply NoDup_app in Hd as (Hd & Hx & _). apply Forall_app in Ho as [Ho Hr]. apply Forall_singleton in Hr as (Hk & _ & _ & Hn).
  specialize (IH (conj Hd Ho)). rewrite serialized_snoc, IH. unfold serialize_row. fold (key_of row).
  assert (key_of row ∉ map key_of rows) as Hf by (intros Hin; apply (Hx _ Hin); by left).
  destruct (key_of row) as [|c s] eqn:E; [done|]. cbn [str_truthy negb]. rewrite <- E in *. rewrite number_finite by done.
  rewrite obj_set_fresh by (rewrite map_map; exact Hf). rewrite map_app, filter_app, map_app. f_equal.
  rewrite filter_cons, filter_nil. destruct (gp_selectable row) eqn:Es; [rewrite decide_True by done|rewrite decide_False by (unfold selectable; congruence)].
  - apply obj_set_fresh. rewrite map_map. cbn [fst]. intros (r & Er & Hin)%list_elem_of_fmap.
    apply list_elem_of_filter in Hin as [_ Hin]. apply Hf, list_elem_of_fmap. by exists r.
  - by rewrite app_nil_r.
Qed.

Lemma get_keyed {A V} (key : A → jstr) (f : A → V) l x : NoDup (map key l) → x ∈ l →
  obj_get (key x) (map (λ x, (key x, f x)) l) = Some (f x).
Proof.
  intros Hd Hx. apply obj_get_in; [by rewrite map_map|]. apply list_elem_of_fmap. by exists x.
Qed.

Lemma get_unkeyed {A V} (key : A → jstr) (f : A → V) l k : k ∉ map key l → obj_get k (map (λ x, (key x, f x)) l) = None.
Proof.
  intros Hk. destruct (obj_get k _) eqn:E; [|done]. apply obj_get_key in E. rewrite map_map in E. by destruct Hk.
Qed.

Lemma selectable_keys rows : NoDup (map key_of rows) → NoDup (map key_of (filter selectable rows)).
Proof. intros Hd. eapply sublist_NoDup; [exact Hd|]. apply (fmap_sublist key_of), sublist_filter. Qed.

Lemma key_inj {A} (key : A → jstr) l x y : NoDup (map key l) → x ∈ l → y ∈ l → key x = key y → x = y.
Proof.
  intros Hd Hx Hy E. pose proof (get_keyed key (λ x, x) l x Hd Hx) as H1. pose proof (get_keyed key (λ x, x) l y Hd Hy) as H2. rewrite E, H2 in H1. by injection H1.
Qed.

Lemma unselected_key rows row : NoDup (map key_of rows) → row ∈ rows → gp_selectable row = false →
  key_of row ∉ map key_of (filter selectable rows).
Proof.
  intros Hd Hr Hs (r & E & [Hr1 Hr2]%list_elem_of_filter)%list_elem_of_fmap.
  rewrite (key_inj key_of rows row r) in Hs by done. unfold selectable in Hr1. congruence.
Qed.

Lemma rows_writable rows : rows_ok rows →
  writable (serialized_records rows).1 ∧ writable (serialized_records rows).2.
Proof.
  intros Hok. rewrite serialized_ok by done. destruct Hok as [Hd Ho]. cbn [fst snd]. rewrite Forall_forall in Ho. split; split.
  - by rewrite map_map.
  - apply Forall_map, Forall_forall. intros row Hr. destruct (Ho row Hr) as (_ & ? & _ & ?). by split.
  - rewrite map_map. by apply selectable_keys.
  - apply Forall_map, Forall_forall. intros row [_ Hr]%list_elem_of_filter. destruct (Ho row Hr) as (_ & ? & ? & _). by split.
Qed.

(** What does not depend on the number of an item. *)
Lemma map_numbered {A B C} (shown : B → C) counter (f : N → A → B) g l : (∀ i x, shown (f i x) = g x) →
  map shown (number_from counter f l) = map g l.
Proof.
  intros Hf. unfold number_from. assert (∀ h, (∀ i x, shown (h i x) = g x) → map shown (imap h l) = map g l) as H; [|by apply H].
  clear Hf. induction l as [|x l IH]; intros h Hh; [done|]. rewrite imap_cons. cbn [map]. rewrite Hh. f_equal. apply IH. intros i y. apply Hh.
Qed.

(** Rows whose names differ and are not blank are stored without loss: the
    table built from the texts they were written to shows the same groups, in
    some order, with their names trimmed, their ratios, the ticks, and the
    descriptions of the groups that can be selected. *)
Theorem rows_read_back rows counter : rows_ok rows → ∃ rows' counter',
  buildGroupPricingRows (serializeGroupPricingRows rows).1 (serializeGroupPricingRows rows).2 counter = Some (rows', counter') ∧
  map shown_row rows' ≡ₚ map stored_row rows.
Proof.
  intros Hok. destruct (rows_writable rows Hok) as [Hw1 Hw2]. unfold buildGroupPricingRows, serializeGroupPricingRows. cbn [fst snd].
  rewrite !record_roundtrip by done. cbn [mbind option_bind]. eexists _, _. split; [reflexivity|].
  set (r := (serialized_records rows).1) in *. set (u := (serialized_records rows).2) in *.
  rewrite (map_numbered shown_row _ _ (λ n, (n, normalizeRatio (default JUndef (obj_get n r)), obj_has n u, text_or_empty (obj_get n u))))
    by (intros i n; unfold shown_row, pricing_row, obj_has; cbn; by rewrite !obj_get_own by (apply Hw1 || apply Hw2)).
  assert (set_of_list (own_keys (own_entries r) ++ own_keys (own_entries u)) ≡ₚ map key_of rows) as ->.
  { apply NoDup_Permutation; [apply NoDup_set_of_list|apply Hok|]. intros k.
    rewrite elem_of_set_of_list, elem_of_app, !elem_of_own_keys. setoid_rewrite elem_of_own_entries. subst r u.
    rewrite serialized_ok by done. cbn [fst snd]. rewrite list_elem_of_fmap. split.
    - intros [[v (row & [= -> ->] & Hr)%list_elem_of_fmap]|[v (row & [= -> ->] & [_ Hr]%list_elem_of_filter)%list_elem_of_fmap]]; eauto.
    - intros (row & -> & Hr). left. eexists. apply list_elem_of_fmap. by exists row. }
  rewrite map_map. apply reflexive_eq. subst r u. rewrite serialized_ok by done. cbn [fst snd]. destruct Hok as [Hd Ho].
  apply map_ext_in. intros row Hr%list_elem_of_In. rewrite Forall_forall in Ho. destruct (Ho row Hr) as (_ & _ & _ & Hn).
  rewrite (get_keyed key_of (λ row, JNum (gp_ratio row))) by done. cbn [from_option id]. rewrite number_finite by done.
  unfold stored_row, obj_has. destruct (gp_selectable row) eqn:Es.
  - rewrite (get_keyed key_of (λ row, JStr (gp_description row))); [done|by apply selectable_keys|]. by apply list_elem_of_filter.
  - by rewrite (get_unkeyed key_of) by by apply unselected_key.
Qed.

(** ** Rules written and read *)

(** A target that is not read as a prefix. *)
Definition plain_target (s : jstr) : Prop := strip_prefix (js "+:") s = None ∧ strip_prefix (js "-:") s = None.

Definition rule_key (r : Rule) : jstr := toRawKey (r_op r) (r_targetGroup r).

Definition rule_ok (r : Rule) : Prop :=
  r_userGroup r ≠ [] ∧ r_targetGroup r ≠ [] ∧ utf16_ok (r_userGroup r) ∧ utf16_ok (rule_key r) ∧ utf16_ok (r_description r) ∧
  (r_op r = OP_REMOVE → r_description r = js "remove") ∧ (r_op r = OP_APPEND → plain_target (r_targetGroup r)).

Definition rules_ok (rules : list Rule) : Prop := NoDup (map (λ r, (r_userGroup r, rule_key r)) rules) ∧ Forall rule_ok rules.

Definition shown_rule (r : Rule) : jstr * OpType * jstr * jstr := (r_userGroup r, r_op r, r_targetGroup r, r_description r).

Lemma prefix_read op g : (op = OP_APPEND → plain_target g) → parsePrefix (toRawKey op g) = (op, g).
Proof.
  unfold parsePrefix. destruct op; cbn [toRawKey]; intros H.
  - by rewrite (proj2 (strip_prefix_Some (js "+:") _ g)).
  - rewrite (proj2 (strip_prefix_Some (js "-:") _ g)) by done. done.
  - destruct (H eq_refl) as [-> ->]. done.
Qed.

(** A key that is read is written again as it was. *)
Lemma prefix_written k : toRawKey (parsePrefix k).1 (parsePrefix k).2 = k.
Proof.
  unfold parsePrefix. destruct (strip_prefix (js "+:") k) eqn:E1; [by apply strip_prefix_Some in E1 as ->|].
  destruct (strip_prefix (js "-:") k) eqn:E2; [by apply strip_prefix_Some in E2 as ->|done].
Qed.

(** All the entries of a nested record. *)
Definition entries_of (o : obj (obj jsval)) : list (jstr * (jstr * jsval)) :=
  concat (map (λ ui, map (λ e, (ui.1, e)) ui.2) o).

Lemma elem_of_entries u k v o : (u, (k, v)) ∈ entries_of o ↔ ∃ inner, (u, inner) ∈ o ∧ (k, v) ∈ inner.
Proof.
  unfold entries_of. rewrite list_elem_of_In, in_concat. setoid_rewrite in_map_iff. setoid_rewrite list_elem_of_In. split.
  - intros (l & ([u' inner] & <- & Ho) & ([k' v'] & [= -> -> ->] & Hi)%in_map_iff). by exists inner.
  - intros (inner & Ho & Hi). eexists. split; [by exists (u, inner)|]. apply in_map_iff. by exists (k, v).
Qed.

Lemma entries_set u k v o : NoDup (map fst o) → (∀ w, (u, (k, w)) ∉ entries_of o) →
  entries_of (obj_set u (obj_set k v (default [] (obj_get u o))) o) ≡ₚ (u, (k, v)) :: entries_of o.
Proof.
  induction o as [|[u' inner] o IH]; intros Hd Hf; [done|]. cbn [map fst] in Hd. apply NoDup_cons in Hd as [Hu Hd].
  cbn [obj_get obj_set]. destruct (str_eqb u u') eqn:E.
  - apply str_eqb_eq in E as <-. cbn [from_option id]. rewrite obj_set_fresh.
    + unfold entries_of. cbn [map concat fst snd]. rewrite map_app, <- app_assoc. cbn [map app]. by rewrite <- Permutation_middle.
    + intros ([k' w] & -> & Hin)%list_elem_of_fmap. apply (Hf w). apply elem_of_entries. exists inner. split; [by left|done].
  - unfold entries_of in *. cbn [map concat fst snd]. rewrite IH; [by rewrite Permutation_middle|done|].
    intros w Hw. apply (Hf w). cbn [map concat]. apply elem_of_app. by right.
Qed.

Lemma nestRules_snoc rules r : nestRules (rules ++ [r]) = nest_rule (nestRules rules) r.
Proof. unfold nestRules. by rewrite fold_left_app. Qed.

Definition rule_entry (r : Rule) : jstr * (jstr * jsval) := (r_userGroup r, (rule_key r, JStr (r_description r))).

Lemma nested_rules rules : rules_ok rules → nested_ok (nestRules rules) ∧ entries_of (nestRules rules) ≡ₚ map rule_entry rules.
Proof.
  induction rules as [|r rules IH] using rev_ind; [intros _; split; [split; [apply NoDup_nil_2|done]|done]|].
  intros [Hd Ho]. rewrite map_app in Hd. apply NoDup_app in Hd as (Hd & Hx & _). apply Forall_app in Ho as [Ho Hr].
  apply Forall_singleton in Hr as (H1 & H2 & H3 & H4 & H5 & _). destruct (IH (conj Hd Ho)) as [IH1 IH2].
  rewrite nestRules_snoc. unfold nest_rule. replace (negb _ || negb _) with false by (by destruct (r_userGroup r), (r_targetGroup r)).
  fold (rule_key r). split.
  - apply nested_ok_set; [done|done|]. by apply writable_set; [apply nested_ok_get|..].
  - rewrite entries_set; [|apply IH1|].
    + rewrite IH2, map_app. cbn [map]. by rewrite Permutation_app_comm.
    + intros w Hw. rewrite IH2 in Hw. apply list_elem_of_fmap in Hw as (r' & [= E1 E2 E3] & Hr').
      apply (Hx (r_userGroup r, rule_key r)); [|by left]. rewrite E1, E2. apply list_elem_of_fmap. by exists r'.
Qed.

Lemma nested_parse o : nested_ok o →
  json_parse (nested_text o) = Some (JObj (map (λ kv, (kv.1, JObj kv.2)) (own_nested (own_entries o)))).
Proof.
  intros Ho. rewrite nested_text_own. unfold nested_text. rewrite pretty_own. unfold own_nested.
  rewrite (own_entries_map JObj), (own_entries_map own_entries). apply json_roundtrip, expressible_obj.
  destruct Ho as [Hd Hi]. split_and!.
  - by rewrite (own_entries_map JObj), (own_entries_map own_entries), own_entries_idemp.
  - rewrite !map_keys. by apply own_keys_NoDup.
  - rewrite !Forall_map, own_entries_perm. eapply Forall_impl; [exact Hi|]. intros [k inner] [Hk [Hi1 Hi2]]. cbn [fst snd] in *.
    split; [done|]. apply expressible_obj.
    split_and!; [apply own_entries_idemp|by apply own_keys_NoDup|by rewrite own_entries_perm].
Qed.

Lemma serialized_text rules : serializeRules rules = nested_text (nestRules rules).
Proof. unfold serializeRules. by destruct (nestRules rules). Qed.

Lemma rules_parsed rules : rules_ok rules →
  safeParseJson (serializeRules rules) = JObj (map (λ kv, (kv.1, JObj kv.2)) (own_nested (own_entries (nestRules rules)))).
Proof.
  intros Hok. destruct (nested_rules rules Hok) as [Ho _]. rewrite serialized_text. unfold safeParseJson.
  rewrite nested_parse by done. unfold nested_text. rewrite pretty_trim.
  destruct (pretty_trimmed (map (λ kv, (kv.1, JObj kv.2)) (nestRules rules))) as [m ->]. done.
Qed.

Lemma concat_map_perm {A B} (f g : A → list B) l l' : l ≡ₚ l' → (∀ x, f x ≡ₚ g x) → concat (map f l) ≡ₚ concat (map g l').
Proof.
  intros Hl Hf. transitivity (concat (map f l')).
  - clear Hf. induction Hl as [|x l l' _ IH|x y l|l1 l2 l3 _ IH1 _ IH2]; cbn [map concat]; [done|by rewrite IH| |by rewrite IH1].
    rewrite !app_assoc. by rewrite (Permutation_app_comm (f y)).
  - clear Hl. induction l' as [|x l' IH]; [done|]. cbn [map concat]. by rewrite Hf, IH.
Qed.

(** C30. The rules of the special groups are stored without loss: rules that
    differ in their user group, operation or target, name both groups, and have
    no target that looks like a prefix, are the rules shown, in some order, when
    the text they were written to is opened again. *)
Theorem rules_read_back rules counter : rules_ok rules → ∃ rules' counter',
  flattenRules (safeParseJson (serializeRules rules)) counter = Some (rules', counter') ∧
  map shown_rule rules' ≡ₚ map shown_rule rules.
Proof.
  intros Hok. rewrite rules_parsed by done. destruct (nested_rules rules Hok) as [Ho Hp]. cbn [flattenRules].
  eexists _, _. split; [reflexivity|]. set (g := λ ue : jstr * (jstr * jsval), shown_rule (flatten_entry ue.1 ue.2 0)).
  rewrite (map_numbered shown_rule _ _ g) by (intros i [u e]; unfold g, shown_rule, flatten_entry; by destruct (parsePrefix _)).
  transitivity (map g (map rule_entry rules)).
  - apply Permutation_map. rewrite <- Hp. unfold entries_of, own_nested. rewrite map_map. cbn [fst snd].
    rewrite (own_entries_map (λ inner, JObj (own_entries inner))), own_entries_idemp, map_map.
    apply concat_map_perm; [apply own_entries_perm|]. intros [u inner]. cbn [fst snd inner_entries]. apply Permutation_map.
    by rewrite own_entries_idemp, own_entries_perm.
  - rewrite map_map. apply reflexive_eq, map_ext_in. intros r Hr%list_elem_of_In. destruct Hok as [_ Hok].
    rewrite Forall_forall in Hok. destruct (Hok r Hr) as (_ & _ & _ & _ & _ & H6 & H7).
    unfold g, shown_rule, flatten_entry, rule_entry, rule_key. cbn [fst snd]. rewrite prefix_read by done. cbn [r_userGroup r_op r_targetGroup r_description].
    f_equal. case_decide; [by rewrite H6|done].
Qed.

(** ** Every state of the editor *)

Definition ids_ok (ids : list N) (counter : N) : Prop := NoDup ids ∧ Forall (λ i, i ≤ counter)%N ids.

(** The table shows the groups of the form: it would store what the form holds,
    or it is what the form is shown as. *)
Definition shows_form (v : GroupFormValues) (tb : GroupTable) : Prop :=
  groupPricingSignature (gt_rows tb) = sourceGroupPricingSignature (GroupRatio v) (UserUsableGroups v) ∨
  ∃ c c', buildGroupPricingRows (GroupRatio v) (UserUsableGroups v) c = Some (gt_rows tb, c').

Definition table_ok (v : GroupFormValues) (tb : GroupTable) : Prop :=
  ids_ok (map gp_id (gt_rows tb)) (gt_counter tb) ∧ shows_form v tb.

Definition removal_named (r : Rule) : Prop := r_op r = OP_REMOVE → r_description r = js "remove".

Definition rule_editor_ok (ed : RuleEditor) : Prop :=
  ids_ok (map r_id (re_rules ed)) (re_counter ed) ∧ Forall removal_named (re_rules ed).

Definition editor_ok (ed : GroupEditor) : Prop :=
  match ge_visual ed with
  | None => True
  | Some vi => ge_rowIds ed = gt_counter (vi_table vi) ∧ ge_ruleIds ed = re_counter (vi_rules vi) ∧
               table_ok (ge_form ed) (vi_table vi) ∧ rule_editor_ok (vi_rules vi)
  end.

(** A rule that removes a group has no input for a description. *)
Definition offered (e : GroupEvent) (ed : GroupEditor) : Prop :=
  match e, ge_visual ed with
  | InVisual (OnRules (UpdateRule id (RuleDescription _))), Some vi =>
      Forall (λ r, r_id r = id → r_op r ≠ OP_REMOVE) (re_rules (vi_rules vi))
  | _, _ => True
  end.

Inductive reachable : GroupEditor → Prop :=
  | reach_mount v rowIds ruleIds ed : mountVisual v rowIds ruleIds = Some ed → reachable ed
  | reach_step e ed ed' : reachable ed → offered e ed → group_step e ed = Some ed' → reachable ed'.

Lemma numbered_ids {A B} (id : B → N) counter (f : N → A → B) l : (∀ i x, id (f i x) = i) →
  ids_ok (map id (number_from counter f l)) (counter + N.of_nat (length l))%N.
Proof.
  intros Hid. replace (map id (number_from counter f l)) with (map (λ i, counter + N.of_nat i + 1)%N (seq 0 (length l))).
  - split.
    + apply (NoDup_fmap_2_strong (λ i, counter + N.of_nat i + 1)%N); [intros; lia|apply NoDup_seq].
    + rewrite Forall_map, Forall_forall. intros i Hi%elem_of_seq. lia.
  - unfold number_from. assert (∀ h k, (∀ i x, id (h i x) = (counter + N.of_nat (k + i) + 1)%N) →
      map (λ i, counter + N.of_nat i + 1)%N (seq k (length l)) = map id (imap h l)) as H; [|apply H; intros; apply Hid].
    clear Hid. induction l as [|x l IH]; intros h k Hh; [done|]. rewrite imap_cons. cbn [length seq map]. rewrite Hh, Nat.add_0_r.
    f_equal. apply IH. intros i y. unfold compose. rewrite Hh. do 3 f_equal. lia.
Qed.

Lemma ids_ok_sublist ids ids' c : ids_ok ids c → ids' `sublist_of` ids → ids_ok ids' c.
Proof.
  intros [Hd Hl] Hs. split; [by eapply sublist_NoDup|]. rewrite Forall_forall in *. intros i Hi. apply Hl. by eapply elem_of_sublist.
Qed.

Lemma ids_ok_snoc ids c : ids_ok ids c → ids_ok (ids ++ [c + 1]%N) (c + 1)%N.
Proof.
  intros [Hd Hl]. split.
  - apply NoDup_app. split_and!; [done| |apply NoDup_singleton]. rewrite Forall_forall in Hl.
    intros i Hi ->%list_elem_of_singleton. specialize (Hl _ Hi). lia.
  - apply Forall_app. split; [|by apply Forall_singleton]. eapply Forall_impl; [exact Hl|]. intros i Hi. cbn in *. lia.
Qed.

Lemma ids_kept {A} (id : A → N) (f : A → A) (b : A → bool) l : (∀ x, id (f x) = id x) → map id (map (λ x, if b x then f x else x) l) = map id l.
Proof. intros Hf. rewrite map_map. apply map_ext. intros x. by destruct (b x). Qed.

Lemma filter_ids {A} (id : A → N) (b : A → bool) l : map id (List.filter b l) `sublist_of` map id l.
Proof. apply (fmap_sublist id). induction l as [|x l IH]; [done|]. cbn [List.filter]. destruct (b x); [by apply sublist_skip|by apply sublist_cons]. Qed.

Lemma Forall_filter_bool {A} (P : A → Prop) (b : A → bool) l : Forall P l → Forall P (List.filter b l).
Proof. induction 1 as [|x l Hx _ IH]; [done|]. cbn [List.filter]. destruct (b x); [by constructor|done]. Qed.

Lemma build_table v c rows c' : buildGroupPricingRows (GroupRatio v) (UserUsableGroups v) c = Some (rows, c') →
  table_ok v {| gt_rows := rows; gt_counter := c' |}.
Proof.
  intros E. split; [|right; by eexists _, _]. unfold buildGroupPricingRows in E. cbn [gt_rows gt_counter].
  destruct (read_record (GroupRatio v)); [|done]. destruct (read_record (UserUsableGroups v)); [|done].
  cbn [mbind option_bind] in E. injection E as <- <-. by apply numbered_ids.
Qed.

Lemma sync_table v tb tb' : ids_ok (map gp_id (gt_rows tb)) (gt_counter tb) → syncRows v tb = Some tb' → table_ok v tb'.
Proof.
  intros Hi. unfold syncRows. destruct (str_eqb _ _) eqn:E; [intros [= <-]; split; [done|left; by apply str_eqb_eq]|].
  destruct (buildGroupPricingRows _ _ _) as [[rows c]|] eqn:Eb; [|done]. intros [= <-]. by eapply build_table.
Qed.

Lemma table_ok_form v v' tb : GroupRatio v' = GroupRatio v → UserUsableGroups v' = UserUsableGroups v → table_ok v tb → table_ok v' tb.
Proof. intros E1 E2 [Hi Hs]. split; [done|]. unfold shows_form. by rewrite E1, E2. Qed.

Lemma emitted_table rows counter v v' tb : ids_ok (map gp_id rows) counter → emitRows rows counter v = Some (v', tb) → table_ok v' tb.
Proof.
  intros Hi. unfold emitRows. destruct (syncRows _ _) as [tb'|] eqn:E; [|done]. cbn [mbind option_bind]. intros [= <- <-].
  by eapply sync_table; [|exact E].
Qed.

Lemma change_rule_named c r : (∀ s, c = RuleDescription s → r_op r ≠ OP_REMOVE) → removal_named r → removal_named (change_rule c r).
Proof.
  unfold removal_named. intros Hc Hr. destruct c as [op|s|s]; cbn [change_rule r_op r_description]; intros Ho; [|by apply Hr|by destruct (Hc s)].
  by rewrite decide_True.
Qed.

Lemma rule_step_ok e ed v : rule_editor_ok ed →
  (∀ id s, e = UpdateRule id (RuleDescription s) → Forall (λ r, r_id r = id → r_op r ≠ OP_REMOVE) (re_rules ed)) →
  rule_editor_ok (rule_step e ed v).1.
Proof.
  intros [Hi Hr] Hoff. assert (∀ g, rule_editor_ok {| re_rules := re_rules ed ++ [new_rule (re_counter ed + 1)%N g];
    re_counter := (re_counter ed + 1)%N; re_newGroupName := [] |}) as Hnew.
  { intros g. split; cbn [re_rules re_counter]; [rewrite map_app; by apply ids_ok_snoc|]. apply Forall_app. split; [done|by apply Forall_singleton]. }
  destruct e as [id c|id|g|g|s|]; cbn [rule_step emitChange fst].
  - split; cbn [re_rules re_counter]; unfold updateRule; [by rewrite ids_kept by by destruct c|]. rewrite Forall_map.
    rewrite Forall_forall in Hr |- *. intros r Hin. destruct (N.eqb_spec (r_id r) id) as [E|]; [|by apply Hr].
    apply change_rule_named; [|by apply Hr]. intros s ->. specialize (Hoff id s eq_refl). rewrite Forall_forall in Hoff. by apply Hoff.
  - split; cbn [re_rules re_counter]; [eapply ids_ok_sublist; [exact Hi|apply filter_ids]|]. by apply Forall_filter_bool.
  - split; cbn [re_rules re_counter]; [eapply ids_ok_sublist; [exact Hi|apply filter_ids]|]. by apply Forall_filter_bool.
  - apply (Hnew g).
  - by split.
  - destruct (negb _); [by split|]. apply Hnew.
Qed.

Definition visual_ok (v : GroupFormValues) (vi : Visual) : Prop := table_ok v (vi_table vi) ∧ rule_editor_ok (vi_rules vi).

Lemma visual_editor v vi : visual_ok v vi → editor_ok (with_visual vi v).
Proof. intros [Ht Hr]. by split_and!. Qed.

Lemma with_form_ok vi v ed : ids_ok (map gp_id (gt_rows (vi_table vi))) (gt_counter (vi_table vi)) → rule_editor_ok (vi_rules vi) →
  with_form vi v = Some ed → editor_ok ed.
Proof.
  intros Hi Hr. unfold with_form. destruct (syncRows _ _) as [tb|] eqn:E; [|done]. intros [= <-]. apply visual_editor.
  split; [by eapply sync_table|done].
Qed.

Lemma emit_ok rows counter vi v ed : ids_ok (map gp_id rows) counter → rule_editor_ok (vi_rules vi) →
  ('(v, tb) ← emitRows rows counter v; Some (with_visual (set_table tb vi) v)) = Some ed → editor_ok ed.
Proof.
  intros Hi Hr. destruct (emitRows rows counter v) as [[v' tb]|] eqn:E; [|done]. intros [= <-]. apply visual_editor.
  split; [by eapply emitted_table|done].
Qed.

(** Handlers that write another text leave the table as it is. *)
Lemma other_text_ok f s vi vi' v : f ≠ FGroupRatio → f ≠ FUserUsableGroups → vi_table vi' = vi_table vi → rule_editor_ok (vi_rules vi') →
  visual_ok v vi → editor_ok (with_visual vi' (handleFieldChange f s v)).
Proof.
  intros H1 H2 Ht Hr [Hv _]. apply visual_editor. split; [|done]. rewrite Ht.
  eapply table_ok_form; [..|exact Hv]; cbn; by rewrite decide_False.
Qed.

Lemma auto_handler_ok vi v v' : visual_ok v vi → v' = v ∨ (∃ s, v' = handleFieldChange FAutoGroups s v) → editor_ok (with_visual vi v').
Proof. intros Hv [->|[s ->]]; [by apply visual_editor|]. by eapply other_text_ok; [..|apply Hv|exact Hv]. Qed.

Lemma nested_handler_ok f vi vi' v v' : visual_ok v vi → vi_table vi' = vi_table vi → vi_rules vi' = vi_rules vi → write_nested f v = Some v' →
  editor_ok (with_visual vi' v').
Proof.
  intros Hv Ht Hr. unfold write_nested. destruct (read_nested _); [|done]. intros [= <-].
  eapply other_text_ok; [done|done|exact Ht| |exact Hv]. rewrite Hr. apply Hv.
Qed.

Lemma table_step_ok e vi v ed : visual_ok v vi →
  match e with ChangeRow _ _ | AddRow | RemoveRow _ => True | _ => False end → visual_step e vi v = Some ed → editor_ok ed.
Proof.
  intros [[Hi _] Hr] He. destruct e; try done; cbn [visual_step].
  - apply emit_ok; [|done]. unfold updateRow. by rewrite ids_kept by by destruct c.
  - destruct (addRow (vi_table vi)) as [[rows c]|] eqn:E; [|done]. cbn [mbind option_bind]. apply emit_ok; [|done].
    unfold addRow in E. destruct (free_name _ _ _); [|done]. injection E as <- <-. rewrite map_app. by apply ids_ok_snoc.
  - apply emit_ok; [|done]. eapply ids_ok_sublist; [exact Hi|apply filter_ids].
Qed.

Lemma dialog_step_ok e vi v ed : visual_ok v vi →
  match e with SaveSimple | DeleteSimple _ _ | SaveAuto | DeleteAuto _ | MoveAuto _ _ | SaveUser | DeleteUser _ | SaveOverride | DeleteOverride _ _ => True
  | _ => False end → visual_step e vi v = Some ed → editor_ok ed.
Proof.
  intros Hv He. pose proof Hv as [[Hi _] Hr]. destruct e; try done; cbn [visual_step].
  - destruct (saveSimple _ _) as [[d v']|]; [|done]. by apply with_form_ok.
  - destruct (handleSimpleDelete _ _ _) as [v'|]; [|done]. by apply with_form_ok.
  - unfold handleAutoGroupSave. destruct (negb _); [intros [= <-]; by apply visual_editor|].
    destruct (autoGroupsList _); [|done]. intros [= <-]. by eapply other_text_ok; [..|exact Hv].
  - unfold handleAutoGroupDelete. destruct (autoGroupsList _); [|done]. intros [= <-]. eapply auto_handler_ok; [exact Hv|]. right. by eexists.
  - unfold handleAutoGroupMove. destruct (autoGroupsList _); [|done]. intros [= <-]. eapply auto_handler_ok; [exact Hv|].
    destruct d; case_match; first [by left|right; by eexists].
  - unfold handleUserGroupSave. destruct (negb _); [intros [= <-]; by apply visual_editor|].
    destruct (write_nested _ v) as [v'|] eqn:E; [|done]. intros [= <-]. by eapply (nested_handler_ok _ vi); [..|exact E].
  - unfold handleUserGroupDelete. destruct (write_nested _ v) as [v'|] eqn:E; [|done]. intros [= <-]. by eapply (nested_handler_ok _ vi); [..|exact E].
  - unfold saveOverride, handleOverrideSave. destruct (_ || _); [intros [= <-]; by apply visual_editor|].
    destruct (isNaN _); [intros [= <-]; by apply visual_editor|]. destruct (od_user _) as [[|c u]|]; try (intros [= <-]; by apply visual_editor).
    destruct (write_nested _ v) as [v'|] eqn:E; [|done]. intros [= <-]. by eapply (nested_handler_ok _ vi); [..|exact E].
  - unfold handleOverrideDelete. destruct (write_nested _ v) as [v'|] eqn:E; [|done]. intros [= <-]. by eapply (nested_handler_ok _ vi); [..|exact E].
Qed.

Lemma visual_step_ok e vi v ed : visual_ok v vi → offered (InVisual e) (with_visual vi v) → visual_step e vi v = Some ed → editor_ok ed.
Proof.
  intros Hv Hoff Hs. destruct e; try (refine (table_step_ok _ vi v ed Hv _ Hs); exact I);
    try (refine (dialog_step_ok _ vi v ed Hv _ Hs); exact I);
    cbn [visual_step] in Hs; try (injection Hs as <-; apply visual_editor; exact Hv).
  destruct (rule_step e (vi_rules vi) v) as [r v'] eqn:E. injection Hs as <-.
  assert (rule_editor_ok r) as Hr.
  { pose proof (rule_step_ok e (vi_rules vi) v) as H. rewrite E in H. apply H; [apply Hv|]. intros id s ->. exact Hoff. }
  assert (v' = v ∨ ∃ s, v' = handleFieldChange FGroupSpecialUsableGroup s v) as [->|[s ->]].
  { destruct e; cbn [rule_step emitChange] in E; try (injection E as _ <-; first [by left|right; by eexists]).
    destruct (negb _); injection E as _ <-; [by left|right; by eexists]. }
  - apply visual_editor. split; [apply Hv|done].
  - by eapply other_text_ok; [..|exact Hv].
Qed.

Lemma mount_ok v a b ed : mountVisual v a b = Some ed → editor_ok ed.
Proof.
  unfold mountVisual. destruct (buildGroupPricingRows _ _ _) as [[rows c]|] eqn:Eb; [|done]. cbn [mbind option_bind].
  destruct (syncRows _ _) as [tb|] eqn:Es; [|done]. cbn [mbind option_bind]. destruct (mountRules _ _) as [r|] eqn:Er; [|done].
  intros [= <-]. apply visual_editor. split; cbn [vi_table vi_rules].
  - eapply sync_table; [|exact Es]. by apply (build_table v a rows c).
  - unfold mountRules, flattenRules in Er. destruct (safeParseJson _) as [| | | | | |o]; try done. injection Er as <-.
    split; cbn [re_rules re_counter]; [apply numbered_ids; intros i [u e]; unfold flatten_entry; by destruct (parsePrefix _)|].
    unfold number_from. apply Forall_forall. intros r (i & [u e] & -> & _)%elem_of_lookup_imap. unfold removal_named, flatten_entry.
    cbn [fst snd]. destruct (parsePrefix e.1). cbn [r_op r_description]. intros ->. by rewrite decide_True.
Qed.

(** *** What the table should show

    Said of the two records of the form alone, [g] (GroupRatio) and [u]
    (UserUsableGroups).  A table that was filled from them lists every group of
    either record once, with the number stored for it (or 1 where there is
    none), ticked exactly when it is in [u], described by the text there. *)
Definition groups_listed (g u : obj jsval) (rows : list GroupPricingRow) : Prop :=
  NoDup (map gp_name rows) ∧
  (∀ n, n ∈ map gp_name rows ↔ n ∈ map fst g ∨ n ∈ map fst u) ∧
  Forall (λ row,
    let x := to_number (default JUndef (obj_get (gp_name row) g)) in
    gp_ratio row = (if isFinite x then x else of_Z 1) ∧
    gp_selectable row = bool_decide (is_Some (obj_get (gp_name row) u)) ∧
    gp_description row = match obj_get (gp_name row) u with None | Some JUndef | Some JNull => [] | Some d => to_string d end) rows.

(** A table the user has edited was written to them: a group has the ratio of
    the last row with its (trimmed) name and the description of the last ticked
    one, and there are no other groups. *)
Definition groups_written (g u : obj jsval) (rows : list GroupPricingRow) : Prop :=
  ∀ n, obj_get n g = (if decide (n = []) then None else (λ row, JNum (gp_ratio row)) <$> last (filter (named_row n) rows)) ∧
       obj_get n u = (if decide (n = []) then None
                      else (λ row, JStr (gp_description row)) <$> last (filter (λ row, named_row n row ∧ gp_selectable row = true) rows)).

(** Names, descriptions and numbers that JSON can express. *)
Definition rows_expressible (rows : list GroupPricingRow) : Prop :=
  Forall (λ row, utf16_ok (key_of row) ∧ utf16_ok (gp_description row) ∧ num_prints (gp_ratio row)) rows.

Definition table_shows (v : GroupFormValues) (rows : list GroupPricingRow) : Prop :=
  ∀ g u, read_record (GroupRatio v) = Some g → read_record (UserUsableGroups v) = Some u →
    groups_listed g u rows ∨ (writable g → writable u → rows_expressible rows → groups_written g u rows).

Definition editor_consistent (ed : GroupEditor) : Prop :=
  match ge_visual ed with
  | None => True
  | Some vi =>
      ids_ok (map gp_id (gt_rows (vi_table vi))) (ge_rowIds ed) ∧ ids_ok (map r_id (re_rules (vi_rules vi))) (ge_ruleIds ed) ∧
      Forall removal_named (re_rules (vi_rules vi)) ∧ table_shows (ge_form ed) (gt_rows (vi_table vi))
  end.

Lemma expressible_records rows : rows_expressible rows →
  writable (serialized_records rows).1 ∧ writable (serialized_records rows).2.
Proof.
  induction rows as [|row rows IH] using rev_ind; [by repeat constructor|].
  intros [Hr (Hk & Hd & Hn)%Forall_singleton]%Forall_app. specialize (IH Hr). rewrite serialized_snoc. unfold serialize_row.
  destruct (serialized_records rows) as [r u]. cbn [fst snd] in IH. destruct IH as [[W1 W2] [W3 W4]]. fold (key_of row).
  destruct (negb _); [done|]. rewrite number_finite by done. destruct (gp_selectable row); cbn [fst snd]; (split; [|try done]);
    (split; [by apply NoDup_keys_set|by apply Forall_set]).
Qed.

Lemma finite_row rows row : rows_expressible rows → row ∈ rows → JNum (normalizeRatio (JNum (gp_ratio row))) = JNum (gp_ratio row).
Proof. intros Hr Hin. unfold rows_expressible in Hr. rewrite Forall_forall in Hr. f_equal. apply number_finite, (Hr row Hin). Qed.

Lemma records_written rows : rows_expressible rows → groups_written (serialized_records rows).1 (serialized_records rows).2 rows.
Proof.
  intros Hr n. destruct (decide (n = [])) as [->|Hn]; [by destruct (rows_stored rows (js "x")) as (_ & _ & ? & ?)|].
  destruct (rows_stored rows n Hn) as (E1 & E2 & _). rewrite E1, E2. split; [|done].
  destruct (last (filter (named_row n) rows)) as [row|] eqn:E; [|done]. cbn [fmap option_fmap option_map]. f_equal.
  apply (finite_row rows); [done|]. apply last_Some_elem_of, list_elem_of_filter in E. apply E.
Qed.

Lemma record_value text o : read_record text = Some o → safeJsonParse text (JObj []) = JObj o.
Proof. unfold read_record. destruct (safeJsonParse text (JObj [])); congruence. Qed.

(** The signature of two records determines them. *)
Lemma signature_parsed text text' g u : read_record text = Some g → read_record text' = Some u → writable g → writable u →
  json_parse (sourceGroupPricingSignature text text') =
  Some (JObj [(js "groupRatio", JObj (own_entries g)); (js "userUsableGroups", JObj (own_entries u))]).
Proof.
  intros Hg%record_value Hu%record_value [G1 G2] [U1 U2]. unfold sourceGroupPricingSignature. rewrite Hg, Hu.
  assert (json_stringify (JObj [(js "groupRatio", JObj g); (js "userUsableGroups", JObj u)]) =
          json_stringify (JObj [(js "groupRatio", JObj (own_entries g)); (js "userUsableGroups", JObj (own_entries u))])) as ->.
  { unfold json_stringify. f_equal. cbn [stringify map fst snd].
    by rewrite !(own_entries_map (stringify false 2)), !own_entries_idemp. }
  apply json_roundtrip, expressible_obj. split_and!; [reflexivity|apply (bool_decide_unpack _); vm_compute; exact I|].
  repeat (apply Forall_cons; split); [..|by apply Forall_nil]; cbn [fst snd]; (split; [apply (bool_decide_unpack _); vm_compute; exact I|]);
    apply expressible_obj; (split_and!; [apply own_entries_idemp|by apply own_keys_NoDup|by rewrite own_entries_perm]).
Qed.

Lemma own_get {V} (o o' : obj V) n : NoDup (map fst o) → NoDup (map fst o') → own_entries o = own_entries o' → obj_get n o = obj_get n o'.
Proof. intros H H' E. by rewrite <- (obj_get_own n o), <- (obj_get_own n o'), E. Qed.

Lemma signed_written v rows g u : groupPricingSignature rows = sourceGroupPricingSignature (GroupRatio v) (UserUsableGroups v) →
  read_record (GroupRatio v) = Some g → read_record (UserUsableGroups v) = Some u → writable g → writable u → rows_expressible rows →
  groups_written g u rows.
Proof.
  intros E Hg Hu Wg Wu Hr. destruct (expressible_records rows Hr) as [W1 W2]. apply (f_equal json_parse) in E.
  rewrite (signature_parsed _ _ g u) in E by done. unfold groupPricingSignature, serializeGroupPricingRows in E. cbn [fst snd] in E.
  rewrite (signature_parsed _ _ _ _ (record_roundtrip _ W1) (record_roundtrip _ W2)) in E by by apply writable_own.
  rewrite !own_entries_idemp in E. injection E as E1 E2. intros n.
  rewrite (own_get g (serialized_records rows).1), (own_get u (serialized_records rows).2) by (done || apply Wg || apply Wu || apply W1 || apply W2).
  by apply records_written.
Qed.

Lemma built_listed text text' g u c rows c' : buildGroupPricingRows text text' c = Some (rows, c') →
  read_record text = Some g → read_record text' = Some u → groups_listed g u rows.
Proof.
  unfold buildGroupPricingRows. intros E Hg Hu. rewrite Hg, Hu in E. cbn [mbind option_bind] in E. injection E as <- _.
  assert (map gp_name (number_from c (pricing_row g u) (set_of_list (own_keys g ++ own_keys u))) =
          set_of_list (own_keys g ++ own_keys u)) as En by (rewrite (map_numbered gp_name _ _ id) by done; apply map_id).
  split; [rewrite En; apply NoDup_set_of_list|]. split.
  - intros n. rewrite En, elem_of_set_of_list, elem_of_app. unfold own_keys. by rewrite !own_entries_perm.
  - unfold number_from. apply Forall_forall. intros row (i & n & -> & _)%elem_of_lookup_imap. cbn [pricing_row gp_name gp_ratio gp_selectable gp_description].
    split_and!; [done| |done]. unfold obj_has. by destruct (obj_get n u).
Qed.

Lemma editor_ok_consistent ed : editor_ok ed → editor_consistent ed.
Proof.
  unfold editor_ok, editor_consistent. destruct (ge_visual ed) as [vi|]; [|done]. intros (-> & -> & [Hi Hs] & [Hj Hn]). split_and!; try done.
  intros g u Hg Hu. destruct Hs as [E|(c & c' & E)]; [right; by eapply signed_written|left; by eapply built_listed].
Qed.

Lemma reachable_ok ed : reachable ed → editor_ok ed.
Proof.
  induction 1 as [v a b ed Hm|e ed ed' _ IH Hoff Hs]; [by eapply mount_ok|].
  destruct ed as [v a b [vi|]]; destruct e as [e|f s| |v']; cbn [group_step ge_visual ge_form ge_rowIds ge_ruleIds] in Hs;
    try (injection Hs as <-; done).
  - destruct IH as (E1 & E2 & Ht & Hr). cbn in E1, E2. eapply visual_step_ok; [|exact Hoff|exact Hs]. by split.
  - destruct IH as (_ & _ & [Hi _] & Hr). by eapply with_form_ok.
  - by eapply mount_ok.
Qed.

(** C18. In every state of the group editor the rows of the table and the rules
    have identifiers of their own, a rule that removes a group is described as
    such, and the table of pricing groups agrees with the two records the form
    holds, also after the texts were edited as JSON or the settings were loaded
    again: the table lists the groups of both records with the stored ratio, the
    tick of the groups users may select and their description, or it is what was
    written to them, each group with its last row.  The second case needs names,
    descriptions and numbers that JSON can express. *)
Theorem group_editor_invariant ed : reachable ed → editor_consistent ed.
Proof. intros H. apply editor_ok_consistent, reachable_ok, H. Qed.

(** ** Where the editor loses something *)

(** Emptying the input of a ratio stores the ratio zero, which makes the group
    free; every other text that is no number counts as one. *)
Lemma cleared_ratio_free row : gp_ratio (change_row (RowRatio []) row) = of_Z 0 ∧ normalizeRatio (JStr (js "abc")) = of_Z 1.
Proof. by vm_compute. Qed.

(** Loading the settings again does not reach the list of rules: the next change
    of a rule writes the rules from before over those that were loaded. *)
Lemma reloaded_rules_overwritten vi v a b v' id ed ed' :
  group_step (ResetForm v') {| ge_form := v; ge_rowIds := a; ge_ruleIds := b; ge_visual := Some vi |} = Some ed →
  group_step (InVisual (OnRules (RemoveRule id))) ed = Some ed' →
  GroupSpecialUsableGroup (ge_form ed') = serializeRules (removeRule id (re_rules (vi_rules vi))).
Proof.
  cbn [group_step ge_visual]. unfold with_form. destruct (syncRows _ _); [|done]. intros [= <-]. cbn. by intros [= <-].
Qed.

Definition plain_form (overrides rules : jstr) : GroupFormValues :=
  {| GroupRatio := quoted "{'default': 1, 'vip': 0.5}"; TopupGroupRatio := []; UserUsableGroups := quoted "{'default': 'all'}";
     GroupGroupRatio := overrides; AutoGroups := []; DefaultUseAutoGroup := false; GroupSpecialUsableGroup := rules |}.

(** A ratio that is too large for a number is stored as [null]. *)
Lemma infinite_ratio_null :
  (λ dv, read_nested (GroupGroupRatio dv.2)) <$>
    saveOverride (with_override (js "pro") (js "1e999") (openOverride (js "vip") None)) (plain_form [] []) =
  Some (Some [(js "vip", [(js "pro", JNull)])]).
Proof. vm_compute. reflexivity. Qed.

(** ** Instances *)

Definition sample_overrides : jstr := quoted "{'vip': {'pro': 0.9}}".

Lemma overrides_refine_witness : ∃ v',
  handleOverrideDelete (js "vip") (js "pro") (plain_form sample_overrides []) = Some v' ∧ overrides_hold v' ∅ ∧
  only_changed FGroupGroupRatio (plain_form sample_overrides []) v'.
Proof.
  assert (overrides_hold (plain_form sample_overrides []) {[js "vip" := {[js "pro" := JNum (parseFloat (js "0.9"))]}]}) as H.
  { exists [(js "vip", [(js "pro", JNum (parseFloat (js "0.9")))])]. split; [vm_compute; reflexivity|]. split; [|reflexivity].
    split; [apply NoDup_singleton|]. apply Forall_singleton. split; [apply (bool_decide_unpack _); vm_compute; exact I|].
    split; [apply NoDup_singleton|]. apply Forall_singleton. split; [apply (bool_decide_unpack _); vm_compute; exact I|].
    apply num_printsb_ok. vm_compute. reflexivity. }
  destruct (overrides_refine _ _ H) as (_ & Hd & _). destruct (Hd (js "vip") (js "pro")) as (v' & E & Ho & Hc). exists v'.
  split; [exact E|]. split; [|exact Hc].
  replace (override_delete _ _ _) with (∅ : Overrides) in Ho by (vm_compute; reflexivity). exact Ho.
Defined.

Definition sample_rows : list GroupPricingRow :=
  [{| gp_id := 1; gp_name := js "vip "; gp_ratio := parseFloat (js "0.5"); gp_selectable := true; gp_description := js "fast" |};
   {| gp_id := 2; gp_name := js "2"; gp_ratio := of_Z 3; gp_selectable := false; gp_description := js "hidden" |}].

Lemma rows_stored_witness : obj_get (js "vip") (serialized_records sample_rows).1 = Some (JNum (parseFloat (js "0.5"))).
Proof. rewrite (proj1 (rows_stored sample_rows (js "vip") ltac:(discriminate))). vm_compute. reflexivity. Defined.

Lemma rows_read_back_witness : ∃ rows' counter',
  buildGroupPricingRows (serializeGroupPricingRows sample_rows).1 (serializeGroupPricingRows sample_rows).2 0 = Some (rows', counter') ∧
  map shown_row rows' ≡ₚ map stored_row sample_rows.
Proof.
  apply (rows_read_back sample_rows 0). split; [apply (bool_decide_unpack _); vm_compute; exact I|].
  repeat (apply Forall_cons; split); [..|by apply Forall_nil];
    (split; [discriminate|]; split; [apply (bool_decide_unpack _); vm_compute; exact I|];
     split; [apply (bool_decide_unpack _); vm_compute; exact I|]; apply num_printsb_ok; vm_compute; reflexivity).
Defined.

Definition sample_rules : list Rule :=
  [{| r_id := 1; r_userGroup := js "vip"; r_op := OP_ADD; r_targetGroup := js "pro"; r_description := js "Pro" |};
   {| r_id := 2; r_userGroup := js "new"; r_op := OP_APPEND; r_targetGroup := js "trial"; r_description := [] |};
   {| r_id := 3; r_userGroup := js "vip"; r_op := OP_REMOVE; r_targetGroup := js "default"; r_description := js "remove" |}].

Lemma rules_read_back_witness : ∃ rules' counter',
  flattenRules (safeParseJson (serializeRules sample_rules)) 0 = Some (rules', counter') ∧
  map shown_rule rules' ≡ₚ map shown_rule sample_rules.
Proof.
  apply (rules_read_back sample_rules 0). split; [apply (bool_decide_unpack _); vm_compute; exact I|].
  repeat (apply Forall_cons; split); [..|by apply Forall_nil];
    (split; [discriminate|]; split; [discriminate|]; split; [apply (bool_decide_unpack _); vm_compute; exact I|];
     split; [apply (bool_decide_unpack _); vm_compute; exact I|]; split; [apply (bool_decide_unpack _); vm_compute; exact I|];
     split; intros; first [discriminate|reflexivity|split; vm_compute; reflexivity]).
Defined.

Lemma group_editor_invariant_witness :
  match mountVisual (plain_form sample_overrides (quoted "{'vip': {'-:default': 'x'}}")) 0 0 ≫= group_step (InVisual AddRow) with
  | Some ed => editor_consistent ed
  | None => False
  end.
Proof.
  destruct (mountVisual _ 0 0) as [ed|] eqn:E; [|vm_compute in E; discriminate]. cbn [mbind option_bind].
  destruct (group_step (InVisual AddRow) ed) as [ed'|] eqn:E'.
  - apply group_editor_invariant. eapply reach_step; [eapply reach_mount, E| |exact E']. exact I.
  - vm_compute in E. injection E as <-. vm_compute in E'. discriminate.
Defined.
