(* ===== verification/Navigation.v ===== *)
(** * Navigation: the sidebar and the tables in the address

    hooks/use-sidebar-config.ts with the items of hooks/use-sidebar-data.ts: the
    sidebar shows what the administrator and then the user leave enabled, each in
    a JSON text.  hooks/use-table-url-state.ts: pages and filters of a table live
    in the search parameters of the address.

    Going to an address makes its parameters the ones given; what the router does
    to them on the way (validation by the page, dropping what is undefined) is
    outside the repository's hooks, and reading treats what is undefined and what
    is missing alike. *)

From S2P Require Import Prelude JsNumber JsString JsValue.

Open Scope nat_scope.

(** ** The sidebar *)

Definition flags (l : list string) : jsval := JObj (map (λ k, (js_of_string k, JBool true)) l).

Definition DEFAULT_SIDEBAR_MODULES : obj jsval :=
  [(js "chat", flags ["enabled"; "playground"; "chat"]%string);
   (js "console", flags ["enabled"; "detail"; "token"; "log"; "midjourney"; "task"]%string);
   (js "personal", flags ["enabled"; "topup"; "personal"]%string);
   (js "admin", flags ["enabled"; "channel"; "models"; "redemption"; "user"; "setting"; "subscription"]%string)].

(** The properties [{...v}] copies. *)
Definition spread (v : jsval) : obj jsval :=
  match v with
  | JObj o => o
  | JArr l => imap (λ i v, (int_to_string 10 (Z.of_nat i), v)) l
  | JStr s => imap (λ i c, (int_to_string 10 (Z.of_nat i), JStr [c])) s
  | _ => []
  end.

(** Modules the stored section leaves undefined get their default. *)
Definition default_modules (defaults section : obj jsval) : obj jsval :=
  fold_left (λ section d, match obj_get d.1 section with None | Some JUndef => obj_set d.1 d.2 section | _ => section end)
    defaults section.

Definition merge_section (merged : obj jsval) (d : jstr * jsval) : obj jsval :=
  let '(sectionKey, defaultSection) := d in
  let existingSection := default JUndef (obj_get sectionKey merged) in
  if negb (truthy existingSection) then obj_set sectionKey (JObj (spread defaultSection)) merged
  else obj_set sectionKey
         (JObj (default_modules (spread defaultSection) (obj_assign (spread defaultSection) (spread existingSection)))) merged.

Definition mergeWithDefaultSidebarModules (config : jsval) : obj jsval :=
  fold_left merge_section DEFAULT_SIDEBAR_MODULES (spread config).

Definition url_map (url section module : string) : jstr * (string * string) := (js_of_string url, (section, module)).

Definition URL_TO_CONFIG_MAP : obj (string * string) :=
  [url_map "/playground" "chat" "playground"; url_map "/dashboard" "console" "detail";
   url_map "/dashboard/overview" "console" "detail"; url_map "/dashboard/models" "console" "detail";
   url_map "/dashboard/users" "console" "detail"; url_map "/keys" "console" "token"; url_map "/usage-logs" "console" "log";
   url_map "/usage-logs/common" "console" "log"; url_map "/usage-logs/drawing" "console" "midjourney";
   url_map "/usage-logs/task" "console" "task"; url_map "/wallet" "personal" "topup"; url_map "/profile" "personal" "personal";
   url_map "/channels" "admin" "channel"; url_map "/models" "admin" "models"; url_map "/models/metadata" "admin" "models";
   url_map "/models/deployments" "admin" "models"; url_map "/users" "admin" "user";
   url_map "/redemption-codes" "admin" "redemption"; url_map "/subscriptions" "admin" "subscription";
   url_map "/system-settings" "admin" "setting"; url_map "/system-settings/site" "admin" "setting"].

Definition parseSidebarConfig (value : option jstr) : obj jsval :=
  match value with
  | None => DEFAULT_SIDEBAR_MODULES
  | Some value =>
      if negb (str_truthy value) || str_eqb (trim value) [] then DEFAULT_SIDEBAR_MODULES
      else match json_parse value with
           | Some parsed => mergeWithDefaultSidebarModules parsed
           | None => DEFAULT_SIDEBAR_MODULES
           end
  end.

(** [None] does not narrow the view. *)
Definition parseUserSidebarConfig (value : option jstr) : option jsval :=
  match value with
  | None => None
  | Some value =>
      if negb (str_truthy value) || str_eqb (trim value) [] then None
      else match json_parse value with
           | Some parsed => if negb (truthy parsed) || negb (typeof_object parsed) then None else Some parsed
           | None => None
           end
  end.

(** The two layers for a module of a section. *)
Definition module_enabled (section module : string) (adminConfig : obj jsval) (userConfig : option jsval) : bool :=
  let adminSection := default JUndef (obj_get (js_of_string section) adminConfig) in
  let adminAllowed := truthy adminSection && truthy (prop "enabled" adminSection) &&
                      strict_eq (prop module adminSection) (JBool true) in
  if negb adminAllowed then false
  else match userConfig with
       | None => true
       | Some userConfig =>
           let userSection := prop section userConfig in
           if negb (truthy userSection) then true
           else if strict_eq (prop "enabled" userSection) (JBool false) then false
           else negb (strict_eq (prop module userSection) (JBool false))
       end.

Definition isModuleEnabled (url : jstr) (adminConfig : obj jsval) (userConfig : option jsval) : bool :=
  match obj_get url URL_TO_CONFIG_MAP with
  | None => true
  | Some (section, module) => module_enabled section module adminConfig userConfig
  end.

Inductive NavItem :=
  | NavLink (title url : jstr) (configUrls : option (list jstr))
  | NavCollapsible (title : jstr) (items : list (jstr * jstr))   (* titles and addresses *)
  | NavChatPresets (title : jstr).

Record NavGroup := { ng_title : jstr; ng_items : list NavItem }.

Definition isNavItemVisible (item : NavItem) (adminConfig : obj jsval) (userConfig : option jsval) : bool :=
  match item with
  | NavChatPresets _ => module_enabled "chat" "chat" adminConfig userConfig
  | NavLink _ url configUrls =>
      if str_truthy url then existsb (λ url, isModuleEnabled url adminConfig userConfig) (default [url] configUrls) else true
  | NavCollapsible _ items => existsb (λ sub, isModuleEnabled sub.2 adminConfig userConfig) items
  end.

Definition filterNavItems (items : list NavItem) (adminConfig : obj jsval) (userConfig : option jsval) : list NavItem :=
  List.filter (λ item, isNavItemVisible item adminConfig userConfig)
    (map (λ item, match item with
                  | NavCollapsible title items => NavCollapsible title (List.filter (λ sub, isModuleEnabled sub.2 adminConfig userConfig) items)
                  | item => item
                  end) items).

(** [sidebarSettings] is the permission of that name, where the server sends it. *)
Definition useSidebarConfig (navGroups : list NavGroup) (SidebarModulesAdmin sidebar_modules : option jstr)
    (sidebarSettings : option bool) : list NavGroup :=
  let adminConfig := parseSidebarConfig SidebarModulesAdmin in
  let userConfig := if decide (sidebarSettings = Some false) then None else parseUserSidebarConfig sidebar_modules in
  List.filter (λ group, 0 <? length (ng_items group))
    (map (λ group, {| ng_title := ng_title group; ng_items := filterNavItems (ng_items group) adminConfig userConfig |}) navGroups).

Section SidebarData.
Context (t : jstr → jstr).

Definition link (title url : string) : NavItem := NavLink (t (js_of_string title)) (js_of_string url) None.

Definition useSidebarData : list NavGroup :=
  [{| ng_title := t (js "Chat"); ng_items := [link "Playground" "/playground"; NavChatPresets (t (js "Chat"))] |};
   {| ng_title := t (js "General");
      ng_items := [link "Overview" "/dashboard/overview"; link "Dashboard" "/dashboard/models"; link "API Keys" "/keys";
                   link "Usage Logs" "/usage-logs/common";
                   NavLink (t (js "Task Logs")) (js "/usage-logs/task") (Some [js "/usage-logs/drawing"; js "/usage-logs/task"])] |};
   {| ng_title := t (js "Personal"); ng_items := [link "Wallet" "/wallet"; link "Profile" "/profile"] |};
   {| ng_title := t (js "Admin");
      ng_items := [link "Channels" "/channels"; link "Models" "/models/metadata"; link "Users" "/users";
                   link "Redemption Codes" "/redemption-codes"; link "Subscription Management" "/subscriptions";
                   link "System Settings" "/system-settings/site"] |}].
End SidebarData.

(** ** Tables in the address *)

(** [type] is ['string'], or anything else for an array. *)
Record ColumnFilterConfig := {
  cf_columnId : jstr; cf_searchKey : jstr; cf_isString : bool;
  cf_serialize : jsval → jsval; cf_deserialize : jsval → jsval
}.

Record TableConfig := {
  tc_pageKey : jstr; tc_pageSizeKey : jstr; tc_defaultPage : num; tc_defaultPageSize : num;
  tc_globalFilterKey : jstr; tc_globalFilterEnabled : bool; tc_trimGlobal : bool; tc_columnFilters : list ColumnFilterConfig
}.

Definition ColumnFiltersState := list (jstr * jsval).

Record TableState := { ts_search : obj jsval; ts_columnFilters : ColumnFiltersState; ts_globalFilter : option jstr }.

Definition search_value (k : jstr) (search : obj jsval) : jsval := default JUndef (obj_get k search).

(** [v ?? d] *)
Definition nullish_or (v d : jsval) : jsval := if is_nullish v then d else v.

Definition initial_filter (search : obj jsval) (cfg : ColumnFilterConfig) : option (jstr * jsval) :=
  let raw := search_value (cf_searchKey cfg) search in
  if cf_isString cfg then
    match nullish_or (cf_deserialize cfg raw) (JStr []) with
    | JStr value => if str_eqb (trim value) [] then None else Some (cf_columnId cfg, JStr value)
    | _ => None
    end
  else
    match nullish_or (cf_deserialize cfg raw) (JArr []) with
    | JArr [] => None
    | JArr value => Some (cf_columnId cfg, JArr value)
    | _ => None
    end.

Definition initialColumnFilters (cfgs : list ColumnFilterConfig) (search : obj jsval) : ColumnFiltersState :=
  omap (initial_filter search) cfgs.

(** [pageIndex] and [pageSize]. *)
Definition pagination (c : TableConfig) (search : obj jsval) : num * num :=
  let pageNum := match search_value (tc_pageKey c) search with JNum n => n | _ => tc_defaultPage c end in
  let pageSizeNum := match search_value (tc_pageSizeKey c) search with JNum n => n | _ => tc_defaultPageSize c end in
  (math_max (of_Z 0) (n_sub pageNum (of_Z 1)), pageSizeNum).

(** The first render. *)
Definition mountTable (c : TableConfig) (search : obj jsval) : TableState :=
  {| ts_search := search; ts_columnFilters := initialColumnFilters (tc_columnFilters c) search;
     ts_globalFilter := if tc_globalFilterEnabled c
                        then Some (match search_value (tc_globalFilterKey c) search with JStr raw => raw | _ => [] end)
                        else None |}.

(** [navigate] with the effect on the change of the search parameters. *)
Definition navigateTo (c : TableConfig) (search : obj jsval) (st : TableState) : TableState :=
  {| ts_search := search; ts_columnFilters := initialColumnFilters (tc_columnFilters c) search; ts_globalFilter := ts_globalFilter st |}.

Definition onPaginationChange (c : TableConfig) (next : num * num) (st : TableState) : TableState :=
  let nextPage := n_add next.1 (of_Z 1) in
  navigateTo c (obj_assign (ts_search st)
    [(tc_pageKey c, if n_le nextPage (tc_defaultPage c) then JUndef else JNum nextPage);
     (tc_pageSizeKey c, if n_eq next.2 (tc_defaultPageSize c) then JUndef else JNum next.2)]) st.

Definition onGlobalFilterChange (c : TableConfig) (next : jstr) (st : TableState) : TableState :=
  if negb (tc_globalFilterEnabled c) then st
  else
    let value := if tc_trimGlobal c then trim next else next in
    let st := navigateTo c (obj_assign (ts_search st)
      [(tc_pageKey c, JUndef); (tc_globalFilterKey c, if str_truthy value then JStr value else JUndef)]) st in
    {| ts_search := ts_search st; ts_columnFilters := ts_columnFilters st; ts_globalFilter := Some value |}.

Definition filter_patch (next : ColumnFiltersState) (cfg : ColumnFilterConfig) : jstr * jsval :=
  let found := default JUndef (snd <$> List.find (λ f, str_eqb f.1 (cf_columnId cfg)) next) in
  (cf_searchKey cfg,
   if cf_isString cfg then
     match found with JStr value => if str_eqb (trim value) [] then JUndef else cf_serialize cfg (JStr value) | _ => JUndef end
   else match found with JArr (v :: l) => cf_serialize cfg (JArr (v :: l)) | _ => JUndef end).

Definition onColumnFiltersChange (c : TableConfig) (next : ColumnFiltersState) (st : TableState) : TableState :=
  let patch := obj_assign [] (map (filter_patch next) (tc_columnFilters c)) in
  navigateTo c (obj_assign (obj_assign (ts_search st) [(tc_pageKey c, JUndef)]) patch) st.

Inductive ResetTo := First | Last.

Definition ensurePageInRange (c : TableConfig) (pageCount : num) (resetTo : ResetTo) (st : TableState) : TableState :=
  let pageNum := match search_value (tc_pageKey c) (ts_search st) with JNum n => n | _ => tc_defaultPage c end in
  if n_gt pageCount (of_Z 0) && n_gt pageNum pageCount
  then navigateTo c (obj_set (tc_pageKey c) (match resetTo with Last => JNum pageCount | First => JUndef end) (ts_search st)) st
  else st.
