(* ===== verification/NavigationFacts.v ===== *)
(** * Facts about the sidebar and the tables in the address

    The sidebar shows exactly the entries both layers leave enabled, and a user
    can only hide what the administrator shows; the pages and filters of a table
    are read back from the address they are written to. *)

From S2P Require Import Prelude JsNumber JsNumberFacts JsString JsValue Navigation.

Open Scope nat_scope.

(** ** Entries of the sidebar *)

(** A sub-item is an entry with the title it is folded under. *)
Definition item_entries (item : NavItem) : list NavItem :=
  match item with NavCollapsible title items => map (λ sub, NavCollapsible title [sub]) items | item => [item] end.

Definition entries (groups : list NavGroup) : list (jstr * NavItem) :=
  concat (map (λ g, map (λ e, (ng_title g, e)) (concat (map item_entries (ng_items g)))) groups).

(** What the administrator turned on, and what the user turned off. *)
Definition admin_on (section module : string) (adminConfig : obj jsval) : Prop :=
  ∃ s, obj_get (js_of_string section) adminConfig = Some s ∧ truthy (prop "enabled" s) = true ∧ prop module s = JBool true.

Definition user_off (section module : string) (userConfig : option jsval) : Prop :=
  ∃ u, userConfig = Some u ∧ truthy (prop section u) = true ∧
    (prop "enabled" (prop section u) = JBool false ∨ prop module (prop section u) = JBool false).

Lemma strict_bool v b : strict_eq v (JBool b) = true ↔ v = JBool b.
Proof. destruct v as [| |c| | | |]; try done. cbn [strict_eq]. destruct b, c; naive_solver. Qed.

(** The layers decide as their descriptions say. *)
Lemma module_enabled_spec section module a u :
  module_enabled section module a u = true ↔ admin_on section module a ∧ ¬ user_off section module u.
Proof.
  unfold module_enabled. destruct (obj_get (js_of_string section) a) as [s|] eqn:Es; cbn [from_option id];
    [|split; [done|]; intros [(s & E & _) _]; congruence].
  assert (admin_on section module a ↔ truthy (prop "enabled" s) = true ∧ prop module s = JBool true) as Ha.
  { split; [intros (s' & E & H); rewrite Es in E; injection E as <-; exact H|intros H; by exists s]. }
  rewrite Ha, <- strict_bool. destruct (truthy (prop "enabled" s)) eqn:E1; [|rewrite andb_false_r; split; [done|by intros [[? _] _]]].
  assert (truthy s = true) as -> by (by destruct s). cbn [andb].
  destruct (strict_eq (prop module s) (JBool true)); cbn [negb]; [|split; [done|by intros [[_ ?] _]]].
  destruct u as [u|]; [|split; [intros _; split; [done|by intros (u & ? & _)]|done]].
  assert (user_off section module (Some u) ↔ truthy (prop section u) = true ∧
    (prop "enabled" (prop section u) = JBool false ∨ prop module (prop section u) = JBool false)) as ->.
  { split; [by intros (u' & [= <-] & H)|intros H; by exists u]. }
  rewrite <- !strict_bool. destruct (truthy (prop section u)), (strict_eq (prop "enabled" (prop section u)) (JBool false)),
    (strict_eq (prop module (prop section u)) (JBool false)); cbn [negb]; intuition congruence.
Qed.

(** *** The filter *)

Definition visible (a : obj jsval) (u : option jsval) (e : jstr * NavItem) : bool := isNavItemVisible e.2 a u.

Lemma filter_map_comm {A B} (f : A → B) (p : B → bool) l : List.filter p (map f l) = map f (List.filter (λ x, p (f x)) l).
Proof. induction l as [|x l IH]; [done|]. cbn [map List.filter]. destruct (p (f x)); cbn [map]; by rewrite IH. Qed.

Lemma filter_ext_bool {A} (p q : A → bool) l : (∀ x, p x = q x) → List.filter p l = List.filter q l.
Proof. intros H. induction l as [|x l IH]; [done|]. cbn [List.filter]. by rewrite H, IH. Qed.

Lemma existsb_filter {A} (p : A → bool) l : existsb p (List.filter p l) = negb (Nat.eqb (length (List.filter p l)) 0).
Proof. induction l as [|x l IH]; [done|]. cbn [List.filter]. destruct (p x) eqn:E; [cbn; by rewrite E|done]. Qed.

(** An item after the filter of its sub-items. *)
Definition narrowed (a : obj jsval) (u : option jsval) (item : NavItem) : NavItem :=
  match item with
  | NavCollapsible title items => NavCollapsible title (List.filter (λ sub, isModuleEnabled sub.2 a u) items)
  | item => item
  end.

Lemma filtered_entries items a u :
  concat (map item_entries (filterNavItems items a u)) =
  List.filter (λ e, isNavItemVisible e a u) (concat (map item_entries items)).
Proof.
  unfold filterNavItems. fold (narrowed a u). induction items as [|item items IH]; [done|]. cbn [map List.filter concat].
  rewrite List.filter_app, <- IH. clear IH.
  destruct item as [title url cfgs|title subs|title]; cbn [narrowed item_entries].
  - cbn [List.filter]. by destruct (isNavItemVisible (NavLink title url cfgs) a u).
  - cbn [isNavItemVisible]. rewrite existsb_filter, (filter_map_comm (λ sub, NavCollapsible title [sub])). cbv beta.
    rewrite (filter_ext_bool (λ x, isNavItemVisible (NavCollapsible title [x]) a u) (λ sub, isModuleEnabled sub.2 a u))
      by (intros x; cbn; by rewrite orb_false_r).
    destruct (List.filter _ subs) as [|s subs'] eqn:E; [done|]. cbn [length Nat.eqb negb map concat item_entries]. done.
  - cbn [List.filter]. by destruct (isNavItemVisible (NavChatPresets title) a u).
Qed.

Definition user_layer (user : option jstr) (sidebarSettings : option bool) : option jsval :=
  if decide (sidebarSettings = Some false) then None else parseUserSidebarConfig user.

Lemma sidebar_entries groups admin user perm :
  entries (useSidebarConfig groups admin user perm) =
  List.filter (visible (parseSidebarConfig admin) (user_layer user perm)) (entries groups).
Proof.
  unfold useSidebarConfig. fold (user_layer user perm). generalize (parseSidebarConfig admin) (user_layer user perm). intros a u.
  induction groups as [|g groups IH]; [done|]. unfold entries in *. cbn [map List.filter concat ng_items ng_title].
  rewrite List.filter_app, (filter_map_comm (λ e, (ng_title g, e))).
  change (λ x, visible a u (ng_title g, x)) with (λ e, isNavItemVisible e a u). rewrite <- filtered_entries, <- IH.
  destruct (filterNavItems (ng_items g) a u) as [|i l]; [done|]. cbn [length Nat.ltb Nat.leb map concat ng_items ng_title]. done.
Qed.

Lemma filter_sublist {A} (p q : A → bool) l : (∀ x, p x = true → q x = true) → List.filter p l `sublist_of` List.filter q l.
Proof.
  intros H. induction l as [|x l IH]; [done|]. cbn [List.filter]. destruct (p x) eqn:Ep.
  - rewrite (H x Ep). by apply sublist_skip.
  - destruct (q x); [by apply sublist_cons|done].
Qed.

Lemma enabled_without_user section module a u : module_enabled section module a u = true → module_enabled section module a None = true.
Proof. rewrite !module_enabled_spec. intros [Ha _]. split; [done|]. by intros (? & ? & _). Qed.

Lemma visible_without_user a u e : visible a u e = true → visible a None e = true.
Proof.
  assert (∀ url, isModuleEnabled url a u = true → isModuleEnabled url a None = true) as Hm.
  { intros url. unfold isModuleEnabled. destruct (obj_get url _) as [[s m]|]; [apply enabled_without_user|done]. }
  unfold visible. destruct e.2 as [title url cfgs|title subs|title]; cbn [isNavItemVisible].
  - destruct (str_truthy url); [|done]. rewrite !existsb_exists. intros (x & Hx & E). exists x. auto.
  - rewrite !existsb_exists. intros (x & Hx & E). exists x. auto.
  - apply enabled_without_user.
Qed.

(** *** Which entries the two layers allow

    Said with [admin_on] and [user_off] alone: a page is allowed when it belongs
    to no module, or the administrator has its section and module on and the user
    has switched neither off; a user who stored nothing for a section or for the
    section's module has switched nothing off.  A link is allowed with one of the
    pages it stands for, a folded link with its page, the chat presets with the
    module for chat. *)
Definition module_allowed (section module : string) (a : obj jsval) (u : option jsval) : Prop :=
  admin_on section module a ∧ ¬ user_off section module u.

Definition page_allowed (a : obj jsval) (u : option jsval) (url : jstr) : Prop :=
  ∀ section module, obj_get url URL_TO_CONFIG_MAP = Some (section, module) → module_allowed section module a u.

Definition entry_allowed (a : obj jsval) (u : option jsval) (item : NavItem) : Prop :=
  match item with
  | NavLink _ url None => url = [] ∨ page_allowed a u url
  | NavLink _ url (Some urls) => url = [] ∨ Exists (page_allowed a u) urls
  | NavCollapsible _ items => Exists (λ sub, page_allowed a u sub.2) items
  | NavChatPresets _ => module_allowed "chat" "chat" a u
  end.

Lemma page_enabled url a u : isModuleEnabled url a u = true ↔ page_allowed a u url.
Proof.
  unfold isModuleEnabled, page_allowed. destruct (obj_get url _) as [[s m]|]; [|by split].
  rewrite module_enabled_spec. split; [by intros H s' m' [= <- <-]|intros H; by apply H].
Qed.

Lemma some_page_enabled {A} (f : A → jstr) l a u : existsb (λ x, isModuleEnabled (f x) a u) l = true ↔ Exists (λ x, page_allowed a u (f x)) l.
Proof.
  rewrite existsb_exists, Exists_exists. setoid_rewrite page_enabled. by setoid_rewrite <- list_elem_of_In.
Qed.

Lemma visible_spec a u e : visible a u e = true ↔ entry_allowed a u e.2.
Proof.
  unfold visible. destruct e.2 as [title url cfgs|title subs|title]; cbn [isNavItemVisible entry_allowed].
  - destruct url as [|c url]; cbn [str_truthy]; [destruct cfgs; split; by auto|].
    destruct cfgs as [urls|]; cbn [from_option id].
    + rewrite (some_page_enabled id). split; [by right|by intros [?|?]].
    + cbn [existsb]. rewrite orb_false_r, page_enabled. split; [by right|by intros [?|?]].
  - apply (some_page_enabled snd).
  - apply module_enabled_spec.
Qed.

(** C37. The sidebar shows, in their order, exactly the entries (links, folded
    links, chat presets) that both layers allow, and no empty group: what the
    administrator has on and the user has not switched off, where a section or
    module the user stored nothing for is not switched off; so the user can only
    hide entries, and a user without the permission to configure the sidebar
    hides none. *)
Theorem sidebar_layers groups admin user perm :
  (∃ shown, (∀ e, shown e = true ↔ entry_allowed (parseSidebarConfig admin) (user_layer user perm) e.2) ∧
     entries (useSidebarConfig groups admin user perm) = List.filter shown (entries groups)) ∧
  Forall (λ g, ng_items g ≠ []) (useSidebarConfig groups admin user perm) ∧
  entries (useSidebarConfig groups admin user perm) `sublist_of` entries (useSidebarConfig groups admin None perm) ∧
  useSidebarConfig groups admin user (Some false) = useSidebarConfig groups admin None (Some false).
Proof.
  split_and!.
  - exists (visible (parseSidebarConfig admin) (user_layer user perm)). split; [apply visible_spec|apply sidebar_entries].
  - unfold useSidebarConfig. apply Forall_forall. intros g Hg%list_elem_of_In. apply filter_In in Hg as [_ Hg]. by destruct (ng_items g).
  - rewrite !sidebar_entries. apply filter_sublist. unfold user_layer at 2. case_decide; apply visible_without_user.
  - done.
Qed.

(** Without settings everything is shown. *)
Lemma sidebar_default t perm : useSidebarConfig (useSidebarData t) None None perm = useSidebarData t.
Proof. unfold useSidebarConfig, parseUserSidebarConfig. by case_decide. Qed.

(** ** Tables *)

Definition codec_ok (cfg : ColumnFilterConfig) : Prop :=
  (∀ v, cf_deserialize cfg (cf_serialize cfg v) = v) ∧ is_nullish (cf_deserialize cfg JUndef) = true.

Definition config_ok (c : TableConfig) : Prop :=
  NoDup (map cf_searchKey (tc_columnFilters c)) ∧ (tc_pageKey c ∉ map cf_searchKey (tc_columnFilters c)) ∧
  Forall codec_ok (tc_columnFilters c).

(** The filter a change leaves for a column: a text that is not blank or an array
    that is not empty. *)
Definition kept (next : ColumnFiltersState) (cfg : ColumnFilterConfig) : option (jstr * jsval) :=
  match snd <$> List.find (λ f, str_eqb f.1 (cf_columnId cfg)) next with
  | Some (JStr value) => if cf_isString cfg && negb (str_eqb (trim value) []) then Some (cf_columnId cfg, JStr value) else None
  | Some (JArr (v :: l)) => if cf_isString cfg then None else Some (cf_columnId cfg, JArr (v :: l))
  | _ => None
  end.

Lemma patch_fresh next cfgs : NoDup (map cf_searchKey cfgs) → obj_assign [] (map (filter_patch next) cfgs) = map (filter_patch next) cfgs.
Proof. intros Hd. apply (obj_assign_fresh []). cbn [app]. by rewrite map_map. Qed.

Lemma patch_get next cfgs cfg : NoDup (map cf_searchKey cfgs) → cfg ∈ cfgs →
  obj_get (cf_searchKey cfg) (map (filter_patch next) cfgs) = Some (filter_patch next cfg).2.
Proof.
  intros Hd Hc. apply obj_get_in; [by rewrite map_map|]. apply list_elem_of_fmap. exists cfg. by split.
Qed.

Lemma initial_of_patch next cfg search : codec_ok cfg → search_value (cf_searchKey cfg) search = (filter_patch next cfg).2 →
  initial_filter search cfg = kept next cfg.
Proof.
  intros [Hc Hu] Hs. unfold initial_filter, kept. rewrite Hs. unfold filter_patch. cbn [snd].
  assert (∀ d, nullish_or (cf_deserialize cfg JUndef) d = d) as Hn by (intros d; unfold nullish_or; by rewrite Hu).
  destruct (snd <$> List.find _ next) as [[| | | |s|[|v l]|]|]; cbn [from_option id]; destruct (cf_isString cfg); rewrite ?Hn; try done.
  - destruct (str_eqb (trim s) []) eqn:E; cbn [andb negb]; [by rewrite Hn|]. rewrite Hc. cbn [nullish_or is_nullish]. by rewrite E.
  - by rewrite Hc.
Qed.

Lemma omap_ext_in {A B} (f g : A → option B) (l : list A) : (∀ x, x ∈ l → f x = g x) → omap f l = omap g l.
Proof.
  induction l as [|x l IH]; intros H; [done|]. cbn [omap list_omap]. rewrite (H x) by by left.
  destruct (g x); [f_equal|]; apply IH; intros; apply H; by right.
Qed.

(** The column filters of a table are read back from the address: after a
    change the filters in use are, column by column, the ones that were set and
    are not blank, the table is at its first page, and no other parameter of the
    address has changed; setting the same filters again changes nothing. *)
Theorem filters_read_back c next st : config_ok c →
  let st' := onColumnFiltersChange c next st in
  ts_columnFilters st' = omap (kept next) (tc_columnFilters c) ∧
  search_value (tc_pageKey c) (ts_search st') = JUndef ∧
  (∀ k, k ≠ tc_pageKey c → k ∉ map cf_searchKey (tc_columnFilters c) → search_value k (ts_search st') = search_value k (ts_search st)) ∧
  ts_columnFilters (onColumnFiltersChange c next st') = ts_columnFilters st'.
Proof.
  intros (Hd & Hp & Hc) st'.
  assert (∀ st k, search_value k (ts_search (onColumnFiltersChange c next st)) =
    match obj_get k (map (filter_patch next) (tc_columnFilters c)) with
    | Some v => v
    | None => if str_eqb k (tc_pageKey c) then JUndef else search_value k (ts_search st)
    end) as Hs.
  { intros st0 k. unfold onColumnFiltersChange, search_value. cbn [ts_search navigateTo]. rewrite patch_fresh by done.
    rewrite obj_get_assign by by rewrite map_map. destruct (obj_get k _); [done|]. unfold obj_assign. cbn [fold_left fst snd].
    rewrite obj_get_set. by destruct (str_eqb k (tc_pageKey c)). }
  assert (∀ st, ts_columnFilters (onColumnFiltersChange c next st) = omap (kept next) (tc_columnFilters c)) as Hf.
  { intros st0. change (initialColumnFilters (tc_columnFilters c) (ts_search (onColumnFiltersChange c next st0)) = omap (kept next) (tc_columnFilters c)).
    apply omap_ext_in. intros cfg Hin. apply initial_of_patch; [rewrite Forall_forall in Hc; by apply Hc|]. by rewrite Hs, patch_get. }
  assert (∀ k, k ∉ map cf_searchKey (tc_columnFilters c) → obj_get k (map (filter_patch next) (tc_columnFilters c)) = None) as Hn.
  { intros k Hk. destruct (obj_get k _) eqn:E; [|done]. apply obj_get_key in E. rewrite map_map in E. by destruct Hk. }
  split_and!; [apply Hf| | |unfold st'; by rewrite !Hf].
  - unfold st'. by rewrite Hs, Hn, str_eqb_refl.
  - intros k H1 H2. unfold st'. rewrite Hs, Hn by done. unfold str_eqb. by rewrite bool_decide_eq_false_2.
Qed.

(** A page and its size are read back from the address they are written to,
    for every whole page and size. *)
Theorem page_read_back c st i size : tc_defaultPage c = of_Z 1 → tc_pageKey c ≠ tc_pageSizeKey c → (0 <= i < 2 ^ 52)%Z →
  (∃ d, tc_defaultPageSize c = of_Z d ∧ safe d) → safe size →
  pagination c (ts_search (onPaginationChange c (of_Z i, of_Z size) st)) = (of_Z i, of_Z size).
Proof.
  intros Hd Hk Hi (d & Hds & Hsd) Hsz. unfold onPaginationChange, pagination. cbn [ts_search navigateTo fst snd]. rewrite Hd, Hds.
  assert (safe i ∧ safe 1 ∧ safe (i + 1)) as (S1 & S2 & S3) by (unfold safe; lia).
  rewrite n_add_of_Z, n_le_of_Z, n_eq_of_Z by done.
  unfold search_value, obj_assign. cbn [fold_left fst snd]. rewrite !obj_get_set.
  unfold str_eqb. rewrite (bool_decide_eq_false_2 (tc_pageKey c = tc_pageSizeKey c)) by done. rewrite !bool_decide_eq_true_2 by done.
  cbn [from_option id]. f_equal.
  - destruct (Z.leb_spec (i + 1) 1).
    + replace i with 0%Z by lia. by vm_compute.
    + rewrite n_sub_of_Z by (unfold safe in *; lia). rewrite math_max_of_Z by (unfold safe in *; lia). f_equal. lia.
  - destruct (Z.eqb_spec size d) as [->|]; done.
Qed.

(** A page beyond the last is corrected: afterwards the page is within the
    pages there are, the last one or the first as asked. *)
Theorem page_in_range c st p n r : tc_defaultPage c = of_Z 1 → search_value (tc_pageKey c) (ts_search st) = JNum (of_Z p) →
  safe p → (1 <= n < 2 ^ 52)%Z →
  ∃ p', match search_value (tc_pageKey c) (ts_search (ensurePageInRange c (of_Z n) r st)) with JNum x => x | _ => tc_defaultPage c end = of_Z p' ∧
    (p' <= n)%Z ∧ ((p <= n)%Z → p' = p) ∧ ((n < p)%Z → p' = match r with First => 1 | Last => n end)%Z.
Proof.
  intros Hd Hp Hsp Hn. assert (safe n ∧ safe 0 ∧ safe 1) as (S1 & S2 & S3) by (unfold safe; lia).
  unfold ensurePageInRange. rewrite Hp. unfold n_gt. rewrite !n_lt_of_Z by done.
  rewrite (proj2 (Z.ltb_lt 0 n)) by lia. cbn [andb]. destruct (Z.ltb_spec n p).
  - cbn [ts_search navigateTo]. unfold search_value. rewrite obj_get_set_eq. cbn [from_option id].
    destruct r; [exists 1%Z; rewrite Hd|exists n]; split_and!; try done; lia.
  - rewrite Hp. exists p. split_and!; try done; lia.
Qed.

(** Going to another address, as the back button does, leaves the text of the
    search box as it was. *)
Lemma search_text_stale c search st : ts_globalFilter (navigateTo c search st) = ts_globalFilter st.
Proof. done. Qed.

(** ** Instances *)

Definition plain_filter (column key : string) (isString : bool) : ColumnFilterConfig :=
  {| cf_columnId := js_of_string column; cf_searchKey := js_of_string key; cf_isString := isString;
     cf_serialize := λ v, v; cf_deserialize := λ v, v |}.

Definition sample_table : TableConfig :=
  {| tc_pageKey := js "page"; tc_pageSizeKey := js "pageSize"; tc_defaultPage := of_Z 1; tc_defaultPageSize := of_Z 20;
     tc_globalFilterKey := js "filter"; tc_globalFilterEnabled := true; tc_trimGlobal := true;
     tc_columnFilters := [plain_filter "status" "status" false; plain_filter "model_name" "model" true] |}.

Lemma sample_table_ok : config_ok sample_table.
Proof.
  split; [apply (bool_decide_unpack _); vm_compute; exact I|]. split; [apply (bool_decide_unpack _); vm_compute; exact I|].
  repeat (apply Forall_cons; split; [by split|]). by apply Forall_nil.
Qed.

Lemma filters_read_back_witness :
  ts_columnFilters (onColumnFiltersChange sample_table [(js "model_name", JStr (js "gpt")); (js "status", JArr [])]
    (mountTable sample_table [(js "page", JNum (of_Z 3))])) = [(js "model_name", JStr (js "gpt"))].
Proof.
  rewrite (proj1 (filters_read_back sample_table [(js "model_name", JStr (js "gpt")); (js "status", JArr [])]
    (mountTable sample_table [(js "page", JNum (of_Z 3))]) sample_table_ok)). vm_compute. reflexivity.
Defined.

Lemma page_read_back_witness :
  pagination sample_table (ts_search (onPaginationChange sample_table (of_Z 4, of_Z 50) (mountTable sample_table []))) = (of_Z 4, of_Z 50).
Proof.
  apply page_read_back; [reflexivity|discriminate|lia| |apply (bool_decide_unpack _); vm_compute; exact I].
  exists 20%Z. split; [reflexivity|]. apply (bool_decide_unpack _). vm_compute. exact I.
Defined.

Lemma page_in_range_witness : ∃ p',
  match search_value (js "page") (ts_search (ensurePageInRange sample_table (of_Z 5) Last (mountTable sample_table [(js "page", JNum (of_Z 9))]))) with
  | JNum x => x
  | _ => tc_defaultPage sample_table
  end = of_Z p' ∧ p' = 5%Z.
Proof.
  destruct (page_in_range sample_table (mountTable sample_table [(js "page", JNum (of_Z 9))]) 9 5 Last) as (p' & E & _ & _ & H);
    [reflexivity|reflexivity|apply (bool_decide_unpack _); vm_compute; exact I|lia|].
  exists p'. split; [exact E|]. apply H. lia.
Defined.
