(* ===== verification/PlaygroundPage.v ===== *)
(** * The playground page: storage, state and user actions (features/playground)

    lib/storage.ts keeps the configuration, the switches of the parameters and
    the conversation in local storage; hooks/use-playground-state.ts loads them
    when the page opens and saves every change; index.tsx, playground-chat.tsx,
    message-actions.tsx and playground-input.tsx turn clicks into changes of the
    conversation and into requests of the chat handler (Playground.v).

    A write to local storage that the browser refuses (no room left) is not
    modelled.  Stored messages are read through a cast in the source; the model
    reads those that have the type [Message] and says so where they have not. *)

From S2P Require Import Prelude JsNumber JsString JsValue Playground Navigation.

Open Scope nat_scope.

(** ** Storage (lib/storage.ts) *)

Definition CONFIG_KEY := js "playground_config".
Definition MESSAGES_KEY := js "playground_messages".
Definition PARAMETER_ENABLED_KEY := js "playground_parameter_enabled".

(** Local storage: texts under text keys. *)
Abbreviation local_storage := (obj jstr).

(** *** Messages as JSON.  [JSON.stringify] leaves out undefined properties; the
    order of the members, which depends on how an object was made, is not read by
    anything and is fixed here. *)

Definition status_text (s : MessageStatus) : jstr :=
  match s with LOADING => js "loading" | STREAMING => js "streaming" | COMPLETE => js "complete" | ERROR => js "error" end.

Definition member (k : string) (v : option jsval) : obj jsval :=
  match v with Some v => [(js_of_string k, v)] | None => [] end.

Definition version_value (v : MessageVersion) : jsval :=
  JObj (member "id" (JStr <$> id v) ++ [(js "content", JStr (content v))]).

Definition source_value (s : jstr * jstr) : jsval := JObj [(js "href", JStr s.1); (js "title", JStr s.2)].

Definition reasoning_value (r : Reasoning) : jsval :=
  JObj [(js "content", JStr (reasoningContent r)); (js "duration", JNum (duration r))].

Definition stored_message (m : Message) : jsval :=
  JObj ([(js "key", JStr (key m)); (js "from", JStr (MESSAGE_ROLES (from m)));
         (js "versions", JArr (map version_value (versions m)))]
        ++ member "sources" ((λ l, JArr (map source_value l)) <$> sources m)
        ++ member "reasoning" (reasoning_value <$> reasoning m)
        ++ member "isReasoningStreaming" (JBool <$> isReasoningStreaming m)
        ++ member "isReasoningComplete" (JBool <$> isReasoningComplete m)
        ++ member "isContentComplete" (JBool <$> isContentComplete m)
        ++ member "status" ((λ s, JStr (status_text s)) <$> status m)
        ++ member "errorCode" (match errorCode m with JUndef => None | v => Some v end)).

(** *** JSON as messages: [None] where the value has not the type. *)

Definition as_text (v : jsval) : option jstr := match v with JStr s => Some s | _ => None end.
Definition as_number (v : jsval) : option num := match v with JNum x => Some x | _ => None end.
Definition as_flag (v : jsval) : option bool := match v with JBool b => Some b | _ => None end.

Definition as_role (v : jsval) : option MessageRole :=
  s ← as_text v; snd <$> find (λ p, str_eqb p.1 s) (map (λ r, (MESSAGE_ROLES r, r)) [USER; ASSISTANT; SYSTEM]).

Definition as_status (v : jsval) : option MessageStatus :=
  s ← as_text v; snd <$> find (λ p, str_eqb p.1 s) (map (λ r, (status_text r, r)) [LOADING; STREAMING; COMPLETE; ERROR]).

(** A property that may be missing. *)
Definition optional {A} (read : jsval → option A) (v : jsval) : option (option A) :=
  match v with JUndef => Some None | v => Some <$> read v end.

Definition as_list {A} (read : jsval → option A) (v : jsval) : option (list A) :=
  match v with JArr l => mapM read l | _ => None end.

Definition as_version (v : jsval) : option MessageVersion :=
  i ← optional as_text (prop "id" v); c ← as_text (prop "content" v); Some {| id := i; content := c |}.

Definition as_source (v : jsval) : option (jstr * jstr) :=
  h ← as_text (prop "href" v); t ← as_text (prop "title" v); Some (h, t).

Definition as_reasoning (v : jsval) : option Reasoning :=
  c ← as_text (prop "content" v); d ← as_number (prop "duration" v); Some {| reasoningContent := c; duration := d |}.

Definition as_message (v : jsval) : option Message :=
  k ← as_text (prop "key" v); f ← as_role (prop "from" v); vs ← as_list as_version (prop "versions" v);
  so ← optional (as_list as_source) (prop "sources" v); re ← optional as_reasoning (prop "reasoning" v);
  rs ← optional as_flag (prop "isReasoningStreaming" v); rc ← optional as_flag (prop "isReasoningComplete" v);
  cc ← optional as_flag (prop "isContentComplete" v); st ← optional as_status (prop "status" v);
  Some {| key := k; from := f; versions := vs; sources := so; reasoning := re; isReasoningStreaming := rs;
          isReasoningComplete := rc; isContentComplete := cc; status := st; errorCode := prop "errorCode" v |}.

(** *** Loading and saving *)

(** A stored object: an empty one where there is no text or it does not parse. *)
Definition load_object (k : jstr) (ls : local_storage) : jsval :=
  match obj_get k ls with
  | Some ((_ :: _) as saved) => default (JObj []) (json_parse saved)
  | _ => JObj []
  end.

Definition loadConfig : local_storage → jsval := load_object CONFIG_KEY.
Definition saveConfig (config : obj jsval) (ls : local_storage) : local_storage :=
  obj_set CONFIG_KEY (json_stringify (JObj config)) ls.
Definition loadParameterEnabled : local_storage → jsval := load_object PARAMETER_ENABLED_KEY.
Definition saveParameterEnabled (enabled : obj jsval) (ls : local_storage) : local_storage :=
  obj_set PARAMETER_ENABLED_KEY (json_stringify (JObj enabled)) ls.

Definition messages_text (ms : list Message) : jstr := json_stringify (JArr (map stored_message ms)).

Definition saveMessages (ms : list Message) (ls : local_storage) : local_storage :=
  obj_set MESSAGES_KEY (messages_text ms) ls.

Inductive LoadResult :=
  | Loaded (ms : list Message)
  | NoMessages
  | Mistyped.

Definition loadMessages (ls : local_storage) : LoadResult * local_storage :=
  match obj_get MESSAGES_KEY ls with
  | Some ((_ :: _) as saved) =>
      match json_parse saved with
      | None => (NoMessages, ls)
      | Some (JArr l) =>
          match mapM as_message l with
          | None => (Mistyped, ls)
          | Some parsed =>
              let sanitized := sanitizeMessagesOnLoad parsed in
              (Loaded sanitized,
               match last_stuck (length parsed) parsed with Some _ => saveMessages sanitized ls | None => ls end)
          end
      | Some _ => (NoMessages, obj_delete MESSAGES_KEY ls)
      end
  | _ => (NoMessages, ls)
  end.

Definition clearPlaygroundData (ls : local_storage) : local_storage :=
  obj_delete MESSAGES_KEY (obj_delete PARAMETER_ENABLED_KEY (obj_delete CONFIG_KEY ls)).

(** ** The lists of models and groups (api.ts) *)

Record ModelOption := { mo_label : jsval; mo_value : jsval }.
Record GroupOption := { go_label : jstr; go_value : jstr; go_ratio : jsval; go_desc : jsval }.

(** The answer's body; reading a property of null throws. *)
Definition getUserModels (data : jsval) : outcome (list ModelOption) :=
  if is_nullish data then Throw
  else if negb (truthy (prop "success" data)) then Ret []
  else match prop "data" data with
       | JArr l => Ret (map (λ model, {| mo_label := model; mo_value := model |}) l)
       | _ => Ret []
       end.

Definition group_option (kv : jstr * jsval) : outcome GroupOption :=
  if is_nullish kv.2 then Throw
  else Ret {| go_label := kv.1; go_value := kv.1; go_ratio := prop "ratio" kv.2; go_desc := prop "desc" kv.2 |}.

Fixpoint outcomes {A B} (f : A → outcome B) (l : list A) : outcome (list B) :=
  match l with
  | [] => Ret []
  | x :: l => y ← f x; ys ← outcomes f l; Ret (y :: ys)
  end.

Definition getUserGroups (data : jsval) : outcome (list GroupOption) :=
  if is_nullish data then Throw
  else if negb (truthy (prop "success" data)) || negb (truthy (prop "data" data)) then Ret []
  else outcomes group_option (own_entries (spread (prop "data" data))).

(** ** The page *)

Record Page := {
  chat : ChatState;
  config : obj jsval;
  parameterEnabled : obj jsval;
  modelsData : option (list ModelOption);
  groupsData : option (list GroupOption);
  editingMessageKey : option jstr;
  editText : jstr;
  originalText : jstr;
  warnings : nat;            (* times the user was told to wait *)
  localStorage : local_storage
}.

Definition set_chat (st : ChatState) (ls : local_storage) (p : Page) : Page :=
  {| chat := st; config := config p; parameterEnabled := parameterEnabled p; modelsData := modelsData p; groupsData := groupsData p;
     editingMessageKey := editingMessageKey p; editText := editText p; originalText := originalText p; warnings := warnings p; localStorage := ls |}.
Definition set_config (c : obj jsval) (ls : local_storage) (p : Page) : Page :=
  {| chat := chat p; config := c; parameterEnabled := parameterEnabled p; modelsData := modelsData p; groupsData := groupsData p;
     editingMessageKey := editingMessageKey p; editText := editText p; originalText := originalText p; warnings := warnings p; localStorage := ls |}.
Definition set_enabled (e : obj jsval) (ls : local_storage) (p : Page) : Page :=
  {| chat := chat p; config := config p; parameterEnabled := e; modelsData := modelsData p; groupsData := groupsData p;
     editingMessageKey := editingMessageKey p; editText := editText p; originalText := originalText p; warnings := warnings p; localStorage := ls |}.
Definition set_lists ms gs (p : Page) : Page :=
  {| chat := chat p; config := config p; parameterEnabled := parameterEnabled p; modelsData := ms; groupsData := gs;
     editingMessageKey := editingMessageKey p; editText := editText p; originalText := originalText p; warnings := warnings p; localStorage := localStorage p |}.
Definition set_editing k t o (p : Page) : Page :=
  {| chat := chat p; config := config p; parameterEnabled := parameterEnabled p; modelsData := modelsData p; groupsData := groupsData p;
     editingMessageKey := k; editText := t; originalText := o; warnings := warnings p; localStorage := localStorage p |}.
Definition warn (p : Page) : Page :=
  {| chat := chat p; config := config p; parameterEnabled := parameterEnabled p; modelsData := modelsData p; groupsData := groupsData p;
     editingMessageKey := editingMessageKey p; editText := editText p; originalText := originalText p; warnings := S (warnings p); localStorage := localStorage p |}.

Definition isGenerating (p : Page) : bool := sseSource (chat p).
Definition page_messages (p : Page) : list Message := messages (chat p).

Definition initial_chat (ms : list Message) : ChatState :=
  {| messages := ms; sseSource := false; isStreamComplete := false; toasts := []; requests := [] |}.

(** Opening the page: the initial values of [usePlaygroundState]. *)
Definition mount (ls : local_storage) : option Page :=
  let '(loaded, ls') := loadMessages ls in
  let page ms := Some {|
    chat := initial_chat ms; config := obj_assign DEFAULT_CONFIG (spread (loadConfig ls));
    parameterEnabled := obj_assign DEFAULT_PARAMETER_ENABLED (spread (loadParameterEnabled ls));
    modelsData := None; groupsData := None; editingMessageKey := None; editText := []; originalText := [];
    warnings := 0; localStorage := ls' |} in
  match loaded with Loaded ms => page ms | NoMessages => page [] | Mistyped => None end.

(** *** Changes with automatic saving (hooks/use-playground-state.ts) *)

Definition updateConfig (k : jstr) (v : jsval) (p : Page) : Page :=
  let updated := obj_set k v (config p) in set_config updated (saveConfig updated (localStorage p)) p.

Definition updateParameterEnabled (k : jstr) (b : bool) (p : Page) : Page :=
  let updated := obj_set k (JBool b) (parameterEnabled p) in
  set_enabled updated (saveParameterEnabled updated (localStorage p)) p.

Definition resetConfig (p : Page) : Page :=
  let p := set_enabled DEFAULT_PARAMETER_ENABLED (localStorage p) (set_config DEFAULT_CONFIG (localStorage p) p) in
  let p := set_config (config p) (saveConfig DEFAULT_CONFIG (localStorage p)) p in
  set_enabled (parameterEnabled p) (saveParameterEnabled DEFAULT_PARAMETER_ENABLED (localStorage p)) p.

(** The effect of playground-chat.tsx on the key or a new list of messages: the
    text being edited is the message's again. *)
Definition syncEditText (p : Page) : Page :=
  match editingMessageKey p with
  | Some ((_ :: _) as k) =>
      let c := match find (λ m, str_eqb (key m) k) (page_messages p) with
               | Some m => match versions m with v :: _ => content v | [] => [] end
               | None => [] end in
      set_editing (Some k) c c p
  | _ => p
  end.

Definition updateMessages (updater : list Message → list Message) (p : Page) : Page :=
  let newMessages := updater (page_messages p) in
  syncEditText (set_chat (onMessageUpdate (chat p) updater) (saveMessages newMessages (localStorage p)) p).

Definition clearMessages : Page → Page := updateMessages (λ _, []).

(** Whether an event of the chat handler calls [onMessageUpdate]. *)
Definition calls_update (e : chat_event) (st : ChatState) : bool :=
  match e with
  | Stop => true
  | Response NoChoice => false
  | Response _ => true
  | Sse (OnMessage data) =>
      if str_eqb data (js "[DONE]") then true
      else match json_parse data with
           | None => negb (isStreamComplete st)
           | Some chunk =>
               match chunk_delta chunk with
               | Throw => negb (isStreamComplete st)
               | Ret delta => truthy delta && (truthy (prop "reasoning_content" delta) || truthy (prop "content" delta))
               end
           end
  | Sse (OnError readyState _) => negb (n_eq readyState (of_Z 2)) && negb (isStreamComplete st)
  | Sse (OnReadyStateChange (Some r) (Some s)) =>
      n_ge r (of_Z 2) && negb (n_eq s (of_Z 200)) && negb (isStreamComplete st)
  | Sse (OnReadyStateChange _ _) => false
  end.

(** [updateLastAssistantMessage] makes a new list only where there is a last
    message of the assistant. *)
Definition ends_with_assistant (ms : list Message) : bool :=
  match last ms with Some m => bool_decide (from m = ASSISTANT) | None => false end.

(** An event of the chat handler, whose updates go through [updateMessages]. *)
Definition on_chat (e : chat_event) (p : Page) : Page :=
  let st := chat_step (chat p) e in
  let p' := set_chat st (if calls_update e (chat p) then saveMessages (messages st) (localStorage p) else localStorage p) p in
  if calls_update e (chat p) && ends_with_assistant (page_messages p) then syncEditText p' else p'.

(** *** Handlers of index.tsx *)

(** What a click brings from outside: fresh identifiers ([nanoid]), and whether
    starting the stream throws. *)
Record Fresh := { user_key : jstr; user_version : jstr; answer_key : jstr; answer_version : jstr; stream_throws : bool }.

Definition loading_message (f : Fresh) : Message := createLoadingAssistantMessage (answer_key f) (answer_version f).

(** [updateMessages(newMessages); sendChat(newMessages)]; a stream that cannot be
    started changes the messages once more. *)
Definition send (f : Fresh) (newMessages : list Message) (p : Page) : Page :=
  let p := updateMessages (λ _, newMessages) p in
  let st := sendChat (stream_throws f) (config p) (parameterEnabled p) newMessages (chat p) in
  syncEditText (set_chat st (saveMessages (messages st) (localStorage p)) p).

Definition handleSendMessage (f : Fresh) (text : jstr) (p : Page) : Page :=
  send f (page_messages p ++ [createUserMessage (user_key f) (user_version f) text; loading_message f]) p.

Definition message_index (k : jstr) (ms : list Message) : option nat := fst <$> list_find (λ m, key m = k) ms.

Definition handleRegenerateMessage (f : Fresh) (m : Message) (p : Page) : Page :=
  match message_index (key m) (page_messages p) with
  | None => p
  | Some messageIndex => send f (take messageIndex (page_messages p) ++ [loading_message f]) p
  end.

Definition handleEditMessage (m : Message) (p : Page) : Page :=
  if bool_decide (editingMessageKey p = Some (key m)) then p
  else syncEditText (set_editing (Some (key m)) (editText p) (originalText p) p).

Definition handleEditOpenChange (open : bool) (p : Page) : Page :=
  if open then p else set_editing None (editText p) (originalText p) p.

Definition edited_message (k newContent : jstr) (m : Message) : Message :=
  if str_eqb (key m) k
  then with_versions m [{| id := match versions m with v :: _ => id v | [] => None end; content := newContent |}]
  else m.

Definition applyEdit (f : Fresh) (newContent : jstr) (submit : bool) (p : Page) : Page :=
  match editingMessageKey p with
  | Some ((_ :: _) as k) =>
      match message_index k (page_messages p) with
      | None => p
      | Some index =>
          let updated := map (edited_message k newContent) (page_messages p) in
          let p := set_editing None (editText p) (originalText p) p in
          let is_user := match updated !! index with Some m => bool_decide (from m = USER) | None => false end in
          if negb submit || negb is_user then updateMessages (λ _, updated) p
          else send f (take (S index) updated ++ [loading_message f]) p
      end
  | _ => p
  end.

Definition handleDeleteMessage (m : Message) (p : Page) : Page :=
  updateMessages (λ _, filter (λ x, key x ≠ key m) (page_messages p)) p.

(** The effects on the lists and on the chosen model and group. *)
Definition modelEffect (p : Page) : Page :=
  match modelsData p with
  | Some ((first :: _) as l) =>
      if existsb (λ m, strict_eq (mo_value m) (read (config p) (js "model"))) l then p
      else updateConfig (js "model") (mo_value first) p
  | _ => p
  end.

Definition groupEffect (p : Page) : Page :=
  match groupsData p with
  | Some ((first :: _) as l) =>
      if existsb (λ g, strict_eq (JStr (go_value g)) (read (config p) (js "group"))) l then p
      else let fallback := match find (λ g, str_eqb (go_value g) (js "default")) l with
                           | Some g => go_value g | None => go_value first end in
           updateConfig (js "group") (JStr fallback) p
  | _ => p
  end.

(** *** Guards of the buttons *)

(** hooks/use-message-action-guard.ts *)
Definition guardAction (action : Page → Page) (p : Page) : Page := if isGenerating p then warn p else action p.

(** playground-input.tsx: the text of the form, and a suggestion. *)
Definition handleSubmit (f : Fresh) (text : jstr) (p : Page) : Page :=
  if negb (str_truthy (trim text)) || isGenerating p then p else handleSendMessage f text p.

Definition handleSuggestionClick (f : Fresh) (suggestion : jstr) (p : Page) : Page := handleSendMessage f suggestion p.

(** playground-chat.tsx: the buttons of the edited message. *)
Definition save_enabled (p : Page) : bool := str_truthy (trim (editText p)) && negb (str_eqb (editText p) (originalText p)).

Definition saveEdit (f : Fresh) (submit : bool) (p : Page) : Page :=
  if save_enabled p then applyEdit f (editText p) submit p else p.

Inductive PageEvent :=
  | Submit (f : Fresh) (text : jstr)
  | Suggest (f : Fresh) (text : jstr)
  | Regenerate (f : Fresh) (m : Message)
  | Edit (m : Message)
  | TypeEdit (text : jstr)
  | CancelEdit
  | Save (f : Fresh)
  | SaveAndSubmit (f : Fresh)
  | Delete (m : Message)
  | Choose (k : jstr) (v : jsval)
  | ModelsLoaded (l : list ModelOption)
  | GroupsLoaded (l : list GroupOption)
  | Chat (e : chat_event).

Definition page_step (p : Page) (e : PageEvent) : Page :=
  match e with
  | Submit f text => handleSubmit f text p
  | Suggest f text => handleSuggestionClick f text p
  | Regenerate f m => guardAction (handleRegenerateMessage f m) p
  | Edit m => guardAction (handleEditMessage m) p
  | TypeEdit text => set_editing (editingMessageKey p) text (originalText p) p
  | CancelEdit => handleEditOpenChange false p
  | Save f => saveEdit f false p
  | SaveAndSubmit f => saveEdit f true p
  | Delete m => guardAction (handleDeleteMessage m) p
  | Choose k v => groupEffect (modelEffect (updateConfig k v p))
  | ModelsLoaded l => modelEffect (set_lists (Some l) (groupsData p) p)
  | GroupsLoaded l => groupEffect (set_lists (modelsData p) (Some l) p)
  | Chat e => on_chat e p
  end.

(** ** What is shown of a message (playground-chat.tsx, message-actions.tsx) *)

Record MessageView := {
  hasSources : bool; showReasoning : bool; showLoader : bool; showMessageContent : bool;
  displayContent : jstr; showActions : bool
}.

Definition message_view (m : Message) (v : MessageVersion) : MessageView :=
  let isAssistant := bool_decide (from m = ASSISTANT) in
  let streaming := default false (isReasoningStreaming m) in
  let showMessageContent := (bool_decide (from m = USER) || negb streaming) && str_truthy (content v) in
  {| hasSources := match sources m with Some (_ :: _) => true | _ => false end;
     showReasoning := isAssistant && match reasoning m with Some r => str_truthy (reasoningContent r) | None => false end;
     showLoader := isAssistant && negb streaming &&
       (bool_decide (status m = Some LOADING) || (bool_decide (status m = Some STREAMING) && negb (str_truthy (content v))));
     showMessageContent := showMessageContent;
     displayContent := if isAssistant then visibleContent (parseThinkTags (content v)) else content v;
     showActions := bool_decide (status m = Some ERROR) || showMessageContent |}.

(** The buttons below a message. *)
Record Actions := { a_copy : bool; a_regenerate : bool; a_edit : bool; a_delete : bool }.

Definition message_actions (m : Message) : Actions :=
  let hasContent := existsb (λ v, str_truthy (content v)) (versions m) in
  let isLoading := bool_decide (status m = Some LOADING) || bool_decide (status m = Some STREAMING) in
  {| a_copy := hasContent; a_regenerate := bool_decide (from m = ASSISTANT) && negb isLoading;
     a_edit := hasContent; a_delete := true |}.
