(* ===== verification/PlaygroundPageFacts.v ===== *)
(** * The playground page: conversations settle and survive a reload

    Facts about PlaygroundPage.v: in an orderly session only the last message can
    be unfinished, and only while its stream is open, so that the end of the
    stream, the stop button and a reload leave no message unfinished; what is
    saved is what a reload brings back; the chosen model and group are among those
    offered.  The last part shows where the page misbehaves: mixed answers and a
    message that stays unfinished outside an orderly session, and in any session an
    empty answer without buttons and a lost edit. *)

From S2P Require Import Prelude JsNumber JsString JsValue JsonFacts JsonRoundtrip Playground PlaygroundChat Navigation PlaygroundPage.

Open Scope nat_scope.

(** ** Unfinished messages *)

(** Only the last message is unfinished, and only while [g]. *)
Definition tidy (g : bool) (ms : list Message) : Prop :=
  ∀ i m, ms !! i = Some m → stuck m → S i = length ms ∧ g = true.

Definition all_finished (ms : list Message) : Prop := Forall (λ m, ¬ stuck m) ms.

Lemma tidy_closed ms : tidy false ms ↔ all_finished ms.
Proof.
  unfold tidy, all_finished. rewrite Forall_lookup. split.
  - intros H i m Hi Hs. by destruct (H i m Hi Hs).
  - intros H i m Hi Hs. by destruct (H i m Hi).
Qed.

Lemma finished_tidy g ms : all_finished ms → tidy g ms.
Proof. unfold all_finished. rewrite Forall_lookup. intros H i m Hi Hs. by destruct (H i m Hi). Qed.

Lemma tidy_snoc ms m : tidy true (ms ++ [m]) ↔ all_finished ms.
Proof.
  unfold tidy, all_finished. rewrite Forall_lookup. split.
  - intros H i x Hi Hs. destruct (H i x) as [H1 _]; [by apply lookup_app_l_Some|done|].
    rewrite length_app in H1. cbn in H1. apply lookup_lt_Some in Hi. lia.
  - intros H i x Hi Hs. split; [|done]. rewrite length_app. cbn. apply lookup_app_Some in Hi as [Hi|[Hl Hi]].
    + by destruct (H i x Hi).
    + apply list_lookup_singleton_Some in Hi as [Hi _]. lia.
Qed.

Lemma settled_finished m : settled m → ¬ stuck m.
Proof.
  unfold stuck, is_stuck. intros [-> | ->]; rewrite !(bool_decide_false (Some _ = _)) by done; by rewrite andb_false_r.
Qed.

Lemma other_finished m : from m ≠ ASSISTANT → ¬ stuck m.
Proof. unfold stuck, is_stuck. intros H. by rewrite bool_decide_false. Qed.

(** An update of the last message keeps the earlier ones finished; one that
    settles it leaves all finished. *)
Lemma tidy_update g ms f : tidy g ms → g = true → tidy true (updateLastAssistantMessage ms f).
Proof.
  intros H ->. destruct ms as [|m init] using rev_ind; [done|]. rewrite updateLast_snoc. apply tidy_snoc in H.
  case_bool_decide; by apply tidy_snoc.
Qed.

Lemma finished_update_last g ms f : tidy g ms → (∀ m, ¬ stuck (f m)) →
  all_finished (updateLastAssistantMessage ms f).
Proof.
  intros H Hf. destruct ms as [|m init] using rev_ind; [by constructor|]. rewrite updateLast_snoc.
  assert (all_finished init) as Hi. { apply (tidy_snoc init m). intros i x Hx Hs. by destruct (H i x Hx Hs). }
  case_bool_decide; apply Forall_app; (split; [done|]); repeat constructor; auto using other_finished.
Qed.

Lemma error_finished e c m : ¬ stuck (error_message e c m).
Proof. apply settled_finished. by right. Qed.
Lemma completed_finished m : ¬ stuck (completed_message m).
Proof. apply settled_finished, completed_settled. Qed.
Lemma stopped_finished m : ¬ stuck (stopped_message m).
Proof.
  unfold stopped_message. case_match eqn:E; [apply settled_finished; by left|].
  unfold stuck, is_stuck. rewrite E. by rewrite andb_false_r.
Qed.

#[local] Hint Resolve error_finished completed_finished stopped_finished finished_tidy : core.

(** ** Chat events on an open stream *)

Definition tidy_chat (st : ChatState) : Prop := tidy (sseSource st) (messages st).

Lemma handleError_tidy e c st : tidy_chat st → tidy_chat (handleError e c st).
Proof.
  unfold tidy_chat, handleError. intros H. destruct (isStreamComplete st); [done|]. cbn.
  apply finished_tidy, (finished_update_last _ _ _ H), error_finished.
Qed.

Lemma apply_delta_tidy d st : sseSource st = true → tidy_chat st → tidy_chat (apply_delta d st).
Proof.
  intros Hs H. unfold apply_delta. destruct (truthy d); [|done].
  assert (∀ ty c st, sseSource st = true → tidy_chat st →
    sseSource (handleStreamUpdate ty c st) = true ∧ tidy_chat (handleStreamUpdate ty c st)) as Hu.
  { intros ty c st' Hs' H'. split; [done|]. unfold tidy_chat in *. cbn. rewrite Hs' in *. by apply (tidy_update true). }
  destruct (truthy (prop "reasoning_content" d)), (truthy (prop "content" d)); try done.
  - edestruct Hu as [H1 H2]; [exact Hs|exact H|]. by apply Hu.
  - by apply Hu.
  - by apply Hu.
Qed.

Lemma on_message_tidy data st : sseSource st = true → tidy_chat st → tidy_chat (on_message data st).
Proof.
  intros Hs H. unfold on_message. destruct (str_eqb data _).
  - unfold tidy_chat. cbn. apply finished_tidy, (finished_update_last _ _ _ H), completed_finished.
  - destruct (json_parse data) as [c|]; [|by apply handleError_tidy].
    destruct (chunk_delta c); [by apply apply_delta_tidy|by apply handleError_tidy].
Qed.

Lemma on_sse_event_tidy e st : sseSource st = true → tidy_chat st → tidy_chat (on_sse_event e st).
Proof.
  intros Hs H. destruct e as [data|rs data|rs s]; cbn [on_sse_event].
  - by apply on_message_tidy.
  - unfold on_error. destruct (n_eq _ _); [done|]. destruct (error_details data). by apply handleError_tidy.
  - unfold on_ready_state_change. repeat case_match; auto using handleError_tidy.
Qed.

Lemma stopGeneration_finished st : tidy_chat st →
  all_finished (messages (stopGeneration st)) ∧ sseSource (stopGeneration st) = false.
Proof.
  intros H. unfold stopGeneration, stopStream. split; [|by destruct (sseSource st) eqn:E].
  replace (messages (onMessageUpdate _ _)) with (updateLastAssistantMessage (messages st) stopped_message)
    by (by destruct (sseSource st)).
  apply (finished_update_last _ _ _ H), stopped_finished.
Qed.

(** [calls_update] tells exactly the events that reach the conversation. *)
Lemma no_update_kept e st : calls_update e st = false → messages (chat_step st e) = messages st.
Proof.
  destruct e as [[data|rs data|[r|] [s|]]|[c| |x y z]|]; cbn [calls_update chat_step on_sse_event]; try done.
  - unfold on_message. destruct (str_eqb data _); [done|]. unfold handleError.
    destruct (json_parse data) as [c|]; [destruct (chunk_delta c) as [d|]|]; [|by destruct (isStreamComplete st)..].
    unfold apply_delta. intros [-> | [-> ->]%orb_false_iff]%andb_false_iff; [done|]. by destruct (truthy d).
  - unfold on_error, handleError. intros [->%negb_false_iff | ->%negb_false_iff]%andb_false_iff; [done|].
    by destruct (n_eq _ _), (error_details data).
  - unfold on_ready_state_change, handleError.
    intros [H | ->%negb_false_iff]%andb_false_iff; [by rewrite H|by destruct (_ && _)].
Qed.

(** ** Sessions *)

(** The conversation is the one in storage. *)
Definition stored (p : Page) : Prop :=
  match obj_get MESSAGES_KEY (localStorage p) with
  | Some t => t = messages_text (page_messages p)
  | None => page_messages p = []
  end.

Record orderly_page (p : Page) : Prop := {
  op_stream : truthy (read (config p) (js "stream")) = true;
  op_tidy : tidy_chat (chat p);
  op_stored : stored p
}.

(** A page that was just opened, with streamed answers. *)
Definition resumed (p : Page) : Prop := orderly_page p ∧ isGenerating p = false.

(** What the page expects of its surroundings: a closed event source sends
    nothing more, only a streamed answer was asked for, model and group are what
    can be chosen; and of its user: while an answer is generated, no suggestion is
    clicked and no edited message submitted. *)
Definition orderly (p : Page) (e : PageEvent) : Prop :=
  match e with
  | Suggest _ _ | SaveAndSubmit _ => isGenerating p = false
  | Chat (Sse _) => isGenerating p = true
  | Chat (Response _) => False
  | Choose k _ => k = js "model" ∨ k = js "group"
  | _ => True
  end.

Inductive session (p0 : Page) : Page → Prop :=
  | session_start : session p0 p0
  | session_step p e : session p0 p → orderly p e → session p0 (page_step p e).

Lemma sync_chat p : chat (syncEditText p) = chat p.
Proof. unfold syncEditText. by repeat case_match. Qed.
Lemma sync_config p : config (syncEditText p) = config p.
Proof. unfold syncEditText. by repeat case_match. Qed.
Lemma sync_storage p : localStorage (syncEditText p) = localStorage p.
Proof. unfold syncEditText. by repeat case_match. Qed.
Create Rewrite HintDb page.
#[local] Hint Rewrite sync_chat sync_config sync_storage : page.

Lemma sync_orderly p : orderly_page p → orderly_page (syncEditText p).
Proof. intros [H1 H2 H3]. split; unfold stored, page_messages in *; by autorewrite with page. Qed.

Lemma saved_text ms ls : obj_get MESSAGES_KEY (saveMessages ms ls) = Some (messages_text ms).
Proof. apply obj_get_set_eq. Qed.

Lemma other_text k t (ls : local_storage) : k ≠ MESSAGES_KEY → obj_get MESSAGES_KEY (obj_set k t ls) = obj_get MESSAGES_KEY ls.
Proof. intros H. by apply obj_get_set_ne. Qed.

Lemma update_orderly p f : truthy (read (config p) (js "stream")) = true →
  tidy (sseSource (chat p)) (f (page_messages p)) → orderly_page (updateMessages f p).
Proof.
  intros Hs Ht. apply sync_orderly. split; [done|done|]. unfold stored. cbn [set_chat localStorage]. by rewrite saved_text.
Qed.

Lemma sendChat_streamed throws c e ms st : truthy (read c (js "stream")) = true →
  messages (sendChat throws c e ms st) =
    (if throws then updateAssistantMessageWithError (messages st) (JStr STREAM_START_ERROR) JUndef else messages st) ∧
  sseSource (sendChat throws c e ms st) = negb throws.
Proof. intros Hs. unfold sendChat. rewrite Hs. unfold sendStreamingChat, sendStreamRequest. by destruct throws. Qed.

Lemma send_orderly f ms p : truthy (read (config p) (js "stream")) = true → all_finished ms →
  orderly_page (send f (ms ++ [loading_message f]) p).
Proof.
  intros Hs Hf. unfold send. apply sync_orderly. split.
  - cbn [set_chat config]. unfold updateMessages. by rewrite sync_config.
  - unfold tidy_chat. cbn [set_chat chat].
    destruct (sendChat_streamed (stream_throws f) (config (updateMessages (λ _, ms ++ [loading_message f]) p))
      (parameterEnabled (updateMessages (λ _, ms ++ [loading_message f]) p)) (ms ++ [loading_message f])
      (chat (updateMessages (λ _, ms ++ [loading_message f]) p))) as [-> ->]; [unfold updateMessages; by rewrite sync_config|].
    unfold updateMessages. rewrite sync_chat. cbn [set_chat chat onMessageUpdate messages]. destruct (stream_throws f).
    + apply finished_tidy. eapply (finished_update_last true); [by apply tidy_snoc|apply error_finished].
    + by apply tidy_snoc.
  - unfold stored. cbn [set_chat localStorage]. by rewrite saved_text.
Qed.

Lemma closed_finished p : orderly_page p → isGenerating p = false → all_finished (page_messages p).
Proof. intros [_ H _] Hg. unfold tidy_chat, isGenerating in *. rewrite Hg in H. by apply tidy_closed. Qed.

Lemma sendMessage_orderly f text p : orderly_page p → isGenerating p = false → orderly_page (handleSendMessage f text p).
Proof.
  intros H Hg. unfold handleSendMessage. change [?a; ?b] with ([a] ++ [b]). rewrite app_assoc. apply send_orderly; [apply H|].
  apply Forall_app. split; [by apply closed_finished|]. repeat constructor. by apply other_finished.
Qed.

Lemma regenerate_orderly f m p : orderly_page p → isGenerating p = false → orderly_page (handleRegenerateMessage f m p).
Proof.
  intros H Hg. unfold handleRegenerateMessage. destruct (message_index _ _); [|done].
  apply send_orderly; [apply H|]. by apply Forall_take, closed_finished.
Qed.

Lemma delete_orderly m p : orderly_page p → isGenerating p = false → orderly_page (handleDeleteMessage m p).
Proof.
  intros H Hg. apply update_orderly; [apply H|]. apply finished_tidy. apply Forall_forall. intros x [_ Hx]%list_elem_of_filter.
  revert x Hx. apply Forall_forall. by apply closed_finished.
Qed.

(** An edit changes no status. *)
Lemma edited_stuck k c m : stuck (edited_message k c m) ↔ stuck m.
Proof. unfold edited_message, stuck, is_stuck. by destruct (str_eqb (key m) k). Qed.

Lemma tidy_map g (f : Message → Message) ms : (∀ m, stuck (f m) ↔ stuck m) → tidy g ms → tidy g (map f ms).
Proof.
  intros Hf H i m Hi Hs. rewrite length_map. change (map f) with (@fmap list list_fmap _ _ f) in Hi.
  rewrite list_lookup_fmap in Hi. apply fmap_Some in Hi as (x & Hx & ->). apply (H i x Hx). by apply Hf.
Qed.

Lemma finished_map (f : Message → Message) ms : (∀ m, stuck (f m) ↔ stuck m) → all_finished ms → all_finished (map f ms).
Proof. intros Hf H. apply tidy_closed, tidy_map; [done|]. by apply tidy_closed. Qed.

Lemma editing_orderly k t o p : orderly_page p → orderly_page (set_editing k t o p).
Proof. by intros [H1 H2 H3]. Qed.

Lemma applyEdit_orderly f c submit p : orderly_page p → (submit = true → isGenerating p = false) →
  orderly_page (applyEdit f c submit p).
Proof.
  intros H Hg. unfold applyEdit. destruct (editingMessageKey p) as [[|u k]|]; [done| |done].
  destruct (message_index _ _) as [i|]; [|done]. cbv zeta. destruct (negb submit || _) eqn:E.
  - apply update_orderly; [apply H|]. apply tidy_map; [apply edited_stuck|apply H].
  - apply orb_false_iff in E as [E _]. apply negb_false_iff in E. apply send_orderly; [apply H|].
    apply Forall_take, finished_map; [apply edited_stuck|]. by apply closed_finished; [|apply Hg].
Qed.

Lemma updateConfig_orderly k v p : k ≠ js "stream" → orderly_page p → orderly_page (updateConfig k v p).
Proof.
  intros Hk [H1 H2 H3]. split.
  - cbn [updateConfig set_config config]. unfold read in *. by rewrite obj_get_set_ne by congruence.
  - done.
  - unfold stored in *. cbn [updateConfig set_config localStorage]. unfold saveConfig. by rewrite other_text.
Qed.

Lemma effects_orderly p : orderly_page p → orderly_page (modelEffect p) ∧ orderly_page (groupEffect p).
Proof.
  intros H. unfold modelEffect, groupEffect. split; repeat case_match; try done; apply updateConfig_orderly; done.
Qed.

Lemma on_chat_orderly e p : orderly_page p → orderly p (Chat e) → orderly_page (on_chat e p).
Proof.
  intros H He. assert (tidy_chat (chat_step (chat p) e)) as Ht.
  { destruct e as [e|r|]; cbn in He |- *; [|done|].
    - apply on_sse_event_tidy; [done|apply H].
    - apply finished_tidy, stopGeneration_finished, H. }
  assert (orderly_page (set_chat (chat_step (chat p) e)
    (if calls_update e (chat p) then saveMessages (messages (chat_step (chat p) e)) (localStorage p) else localStorage p) p)) as Hp.
  { split; [apply H|done|]. pose proof (op_stored p H) as Hs. unfold stored, page_messages in *. cbn [set_chat localStorage chat].
    destruct (calls_update e (chat p)) eqn:E.
    - by rewrite saved_text.
    - by rewrite no_update_kept. }
  unfold on_chat. destruct (calls_update e (chat p) && _); [by apply sync_orderly|done].
Qed.

Lemma step_orderly p e : orderly_page p → orderly p e → orderly_page (page_step p e).
Proof.
  intros H He. destruct e; cbn [page_step]; unfold guardAction.
  - unfold handleSubmit. case_match eqn:E; [done|]. apply orb_false_iff in E as [_ E]. by apply sendMessage_orderly.
  - by apply sendMessage_orderly.
  - destruct (isGenerating p) eqn:E; [by destruct H|by apply regenerate_orderly].
  - destruct (isGenerating p) eqn:E; [by destruct H|]. unfold handleEditMessage. case_match; [done|].
    by apply sync_orderly, editing_orderly.
  - by apply editing_orderly.
  - by apply editing_orderly.
  - unfold saveEdit. case_match; [|done]. by apply applyEdit_orderly.
  - unfold saveEdit. case_match; [|done]. by apply applyEdit_orderly.
  - destruct (isGenerating p) eqn:E; [by destruct H|by apply delete_orderly].
  - apply effects_orderly, effects_orderly, updateConfig_orderly; [|done]. by destruct He as [-> | ->].
  - apply effects_orderly. by destruct H.
  - apply effects_orderly. by destruct H.
  - by apply on_chat_orderly.
Qed.

Lemma session_orderly p0 p : resumed p0 → session p0 p → orderly_page p.
Proof. intros [H0 _]. induction 1; auto using step_orderly. Qed.

(** C23. Every conversation can settle: at every moment of an orderly session (any
    sequence of sends, regenerations, edits, deletions, choices, chunks and
    errors, in streamed mode) at most the last message is unfinished, and only
    while its stream is open, so that the stop button is offered; pressing it, and
    the end marker of the stream, leave every message finished, the stream closed,
    and the conversation in storage. *)
Theorem conversation_settles (p0 p : Page) (H0 : resumed p0) (Hp : session p0 p) :
  (∀ i m, page_messages p !! i = Some m → stuck m → S i = length (page_messages p) ∧ isGenerating p = true) ∧
  (let p' := page_step p (Chat Stop) in
   all_finished (page_messages p') ∧ isGenerating p' = false ∧ stored p') ∧
  (isGenerating p = true →
   let p' := page_step p (Chat (Sse (OnMessage (js "[DONE]")))) in
   all_finished (page_messages p') ∧ isGenerating p' = false ∧ stored p').
Proof.
  pose proof (session_orderly p0 p H0 Hp) as H. split_and!; [apply H| |].
  - cbv zeta. assert (orderly_page (page_step p (Chat Stop))) as H' by by apply step_orderly.
    assert (isGenerating (page_step p (Chat Stop)) = false) as Hg.
    { cbn [page_step]. unfold isGenerating, on_chat. destruct (_ && _); autorewrite with page; apply stopGeneration_finished, H. }
    split_and!; [by apply closed_finished|done|apply H'].
  - intros Hl. cbv zeta. assert (orderly_page (page_step p (Chat (Sse (OnMessage (js "[DONE]")))))) as H' by by apply step_orderly.
    assert (isGenerating (page_step p (Chat (Sse (OnMessage (js "[DONE]"))))) = false) as Hg.
    { cbn [page_step]. unfold isGenerating, on_chat. destruct (_ && _); autorewrite with page;
        apply (done_finished (chat p)). }
    split_and!; [by apply closed_finished|done|apply H'].
Qed.

(** A page opened for the first time, and an answer that has begun. *)
Definition first_page : Page :=
  {| chat := initial_chat []; config := DEFAULT_CONFIG; parameterEnabled := DEFAULT_PARAMETER_ENABLED; modelsData := None;
     groupsData := None; editingMessageKey := None; editText := []; originalText := []; warnings := 0; localStorage := [] |}.

Definition sample_fresh : Fresh :=
  {| user_key := js "k1"; user_version := js "v1"; answer_key := js "k2"; answer_version := js "v2"; stream_throws := false |}.

Definition answering_page : Page :=
  page_step (page_step first_page (Submit sample_fresh (js "hello"))) (Chat (Sse (OnMessage (chunk_data (js "Hi"))))).

Lemma first_page_resumed : resumed first_page.
Proof. split; [|done]. split; [done| |done]. by intros i m Hi. Qed.

Lemma answering_session : session first_page answering_page.
Proof. apply session_step; [|vm_compute; reflexivity]. apply session_step; [apply session_start|exact I]. Qed.

Lemma conversation_settles_witness :
  mount [] = Some first_page ∧ isGenerating answering_page = true ∧
  map status (page_messages answering_page) = [None; Some STREAMING] ∧
  all_finished (page_messages (page_step answering_page (Chat Stop))).
Proof.
  split_and!; [vm_compute; reflexivity..|].
  exact (proj1 (proj1 (proj2 (conversation_settles first_page answering_page first_page_resumed answering_session)))).
Defined.

(** ** Messages read back *)

Lemma obj_get_app {V} k (o o' : obj V) : obj_get k (o ++ o') = match obj_get k o with Some v => Some v | None => obj_get k o' end.
Proof. induction o as [|[k' v] o IH]; cbn [app obj_get]; [done|]. by destruct (str_eqb _ _). Qed.

Lemma read_member k s v : obj_get k (member s v) = if str_eqb k (js_of_string s) then v else None.
Proof. destruct v; cbn [member obj_get]; [done|]. by destruct (str_eqb _ _). Qed.

Lemma get_cons s k (v : jsval) o : obj_get k ((js_of_string s, v) :: o) = if str_eqb k (js_of_string s) then Some v else obj_get k o.
Proof. done. Qed.

(** Reads a property of an object written with [member]. *)
Ltac read_members :=
  unfold prop; rewrite ?obj_get_app; repeat (rewrite get_cons || rewrite read_member); eval_names; cbn [obj_get default from_option].

Lemma mapM_map {A B} (f : A → B) (g : B → option A) l : (∀ x, g (f x) = Some x) → mapM g (map f l) = Some l.
Proof. intros H. induction l as [|x l IH]; [done|]. cbn. by rewrite H, IH. Qed.

Lemma optional_member {A} (g : jsval → option A) (f : A → jsval) (o : option A) :
  (∀ x, g (f x) = Some x) → (∀ x, f x ≠ JUndef) → optional g (default JUndef (f <$> o)) = Some o.
Proof.
  intros H1 H2. destruct o as [x|]; [|done]. cbn. specialize (H1 x). specialize (H2 x). unfold optional.
  destruct (f x); try done; by rewrite H1.
Qed.

Lemma as_role_ok r : as_role (JStr (MESSAGE_ROLES r)) = Some r.
Proof. destruct r; vm_compute; reflexivity. Qed.
Lemma as_status_ok s : as_status (JStr (status_text s)) = Some s.
Proof. destruct s; vm_compute; reflexivity. Qed.

Lemma as_version_ok v : as_version (version_value v) = Some v.
Proof. destruct v as [[i|] c]; unfold as_version, version_value; read_members; reflexivity. Qed.
Lemma as_source_ok s : as_source (source_value s) = Some s.
Proof. destruct s. unfold as_source, source_value. read_members. reflexivity. Qed.
Lemma as_reasoning_ok r : as_reasoning (reasoning_value r) = Some r.
Proof. destruct r. unfold as_reasoning, reasoning_value. read_members. reflexivity. Qed.

Lemma option_same {A} (o : option A) : match o with Some x => Some x | None => None end = o.
Proof. by destruct o. Qed.

Lemma as_message_ok m : as_message (stored_message m) = Some m.
Proof.
  unfold as_message, stored_message. read_members. rewrite ?option_same. unfold Datatypes.id. cbn [as_text mbind option_bind].
  rewrite as_role_ok. cbn [as_list mbind option_bind]. rewrite (mapM_map _ _ _ as_version_ok). cbn [mbind option_bind].
  rewrite (optional_member _ (λ l, JArr (map source_value l))) by (intros; cbn [as_list]; auto using mapM_map, as_source_ok).
  cbn [mbind option_bind]. rewrite (optional_member _ reasoning_value) by auto using as_reasoning_ok. cbn [mbind option_bind].
  rewrite !(optional_member as_flag JBool) by done. cbn [mbind option_bind].
  rewrite (optional_member as_status (λ s, JStr (status_text s))) by auto using as_status_ok. cbn [mbind option_bind].
  f_equal. destruct m as [k f vs so re rs rc cc st e]. cbn [errorCode]. f_equal. by destruct e.
Qed.

(** ** Reloading *)

(** The conversation can be written as JSON: texts of 16-bit units, and finite
    durations other than -0. *)
Definition storable (m : Message) : Prop := expressible (stored_message m).

Lemma messages_text_read ms : Forall storable ms →
  json_parse (messages_text ms) = Some (JArr (map stored_message ms)) ∧ ∃ c t, messages_text ms = c :: t.
Proof.
  intros H. split.
  - apply json_roundtrip, expressible_arr. by apply Forall_map.
  - unfold messages_text, json_stringify. cbn [stringify from_option]. unfold bracketed. case_match; eauto.
Qed.

Lemma loadMessages_saved ms ls : Forall storable ms → obj_get MESSAGES_KEY ls = Some (messages_text ms) →
  loadMessages ls = (Loaded (sanitizeMessagesOnLoad ms),
    match last_stuck (length ms) ms with Some _ => saveMessages (sanitizeMessagesOnLoad ms) ls | None => ls end).
Proof.
  intros Hm Hl. destruct (messages_text_read ms Hm) as (Hp & c & t & Ht). unfold loadMessages. rewrite Hl, Ht, <- Ht, Hp.
  by rewrite (mapM_map _ _ _ as_message_ok).
Qed.

(** Repairing a tidy conversation leaves nothing unfinished and only its last
    message changed. *)
Lemma sanitize_tidy g ms : tidy g ms →
  all_finished (sanitizeMessagesOnLoad ms) ∧
  (sanitizeMessagesOnLoad ms = ms ∨
   ∃ init m, ms = init ++ [m] ∧ stuck m ∧ sanitizeMessagesOnLoad ms = init ++ [sanitizeMessage m]).
Proof.
  intros H. unfold sanitizeMessagesOnLoad. destruct (last_stuck _ _) as [i|] eqn:E.
  - pose proof E as (m & Hm & Hs & _)%last_stuck_Some. rewrite Hm. destruct (H i m Hm Hs) as [Hi ->].
    destruct ms as [|y init] using rev_ind; [done|]. clear IHinit. rewrite length_app in Hi. cbn in Hi.
    assert (i = length init) as -> by lia. rewrite lookup_app_r, Nat.sub_diag in Hm by done. injection Hm as ->.
    rewrite insert_app_r_alt, Nat.sub_diag by done. cbn. apply tidy_snoc in H. split.
    + apply Forall_app. split; [done|]. repeat constructor. apply sanitizeMessage_not_stuck.
    + right. by exists init, m.
  - split; [|by left]. apply Forall_lookup. intros i m Hi. eapply last_stuck_None; eauto using lookup_lt_Some.
Qed.

Lemma mount_saved ms ls : Forall storable ms → obj_get MESSAGES_KEY ls = Some (messages_text ms) →
  ∃ p', mount ls = Some p' ∧ page_messages p' = sanitizeMessagesOnLoad ms ∧ isGenerating p' = false ∧ stored p'.
Proof.
  intros Hm Hl. unfold mount. rewrite (loadMessages_saved ms) by done. eexists. split_and!; [done..|].
  unfold stored. cbn [localStorage page_messages chat initial_chat messages].
  destruct (last_stuck _ _) as [i|] eqn:E.
  - by rewrite saved_text.
  - rewrite Hl. unfold sanitizeMessagesOnLoad. by rewrite E.
Qed.

(** C25. A reload brings the conversation back: at every moment of an orderly
    session, in the middle of an answer too, opening the page from what is in
    storage gives every message as it was, except that an unfinished last message
    becomes complete with what was received, or an error that tells of the
    interruption; no message is unfinished, no stream open, and the conversation
    is again the one in storage. *)
Theorem reload_restores (p0 p : Page) (H0 : resumed p0) (Hp : session p0 p) (Hm : Forall storable (page_messages p)) :
  ∃ p', mount (localStorage p) = Some p' ∧ all_finished (page_messages p') ∧ isGenerating p' = false ∧ stored p' ∧
    (page_messages p' = page_messages p ∨
     ∃ init m, page_messages p = init ++ [m] ∧ stuck m ∧ page_messages p' = init ++ [sanitizeMessage m]).
Proof.
  destruct (session_orderly p0 p H0 Hp) as [_ Ht Hs]. unfold stored in Hs.
  destruct (obj_get MESSAGES_KEY (localStorage p)) as [t|] eqn:El.
  - rewrite Hs in El. destruct (mount_saved _ _ Hm El) as (p' & H1 & H2 & H3 & H4).
    destruct (sanitize_tidy _ _ Ht) as [H5 H6]. exists p'. rewrite H2. by split_and!.
  - eexists. unfold mount, loadMessages. rewrite El. split; [reflexivity|]; split_and!; [by constructor|done| |left; by rewrite Hs].
    unfold stored. cbn [localStorage]. by rewrite El.
Qed.

Lemma answering_storable : Forall storable (page_messages answering_page).
Proof.
  assert (forallb (λ m, expressibleb (stored_message m)) (page_messages answering_page) = true) as H by (vm_compute; reflexivity).
  apply Forall_forall. intros m Hm. apply expressibleb_ok. rewrite forallb_forall in H. by apply H, list_elem_of_In.
Qed.

Lemma reload_restores_witness :
  ∃ p', mount (localStorage answering_page) = Some p' ∧ all_finished (page_messages p').
Proof.
  destruct (reload_restores first_page answering_page first_page_resumed answering_session answering_storable) as (p' & H1 & H2 & _).
  by exists p'.
Defined.

(** ** Settings *)

Lemma spread_assign k (o o' : obj jsval) : NoDup (map fst o') →
  read (obj_assign o (own_entries o')) k = match obj_get k o' with Some v => v | None => read o k end.
Proof.
  intros Hd. unfold read. rewrite obj_get_assign by by apply own_keys_NoDup. rewrite obj_get_own by done. by destruct (obj_get k o').
Qed.

Lemma load_object_saved k o ls : NoDup (map fst o) → Forall (λ kv, utf16_ok kv.1 ∧ expressible kv.2) o →
  obj_get k ls = Some (json_stringify (JObj o)) → load_object k ls = JObj (own_entries o).
Proof.
  intros Hd Ho Hl. pose proof (json_object_roundtrip o Hd Ho) as Hp. destruct (json_object_text o) as [t Ht].
  unfold load_object. rewrite Hl, Ht, <- Ht, Hp. done.
Qed.

(** A configuration that is complete and can be written as JSON. *)
Definition complete_object (defaults o : obj jsval) : Prop :=
  NoDup (map fst o) ∧ Forall (λ kv, utf16_ok kv.1 ∧ expressible kv.2) o ∧ Forall (λ k, obj_has k o = true) (map fst defaults).

Lemma object_restored defaults k0 o ls k : complete_object defaults o → obj_get k0 ls = Some (json_stringify (JObj o)) →
  read (obj_assign defaults (spread (load_object k0 ls))) k = read o k.
Proof.
  intros (Hd & Ho & Hc) Hl. rewrite (load_object_saved k0 o) by done. cbn [spread]. rewrite spread_assign by done.
  unfold read at 2. destruct (obj_get k o) as [v|] eqn:E; [done|]. unfold read. destruct (obj_get k defaults) as [v|] eqn:E'; [|done].
  apply obj_get_key in E'. rewrite Forall_forall in Hc. specialize (Hc k E'). unfold obj_has in Hc. by rewrite E in Hc.
Qed.

(** What was chosen last is what the page opens with, for every setting. *)
Theorem settings_restored (p p' : Page) (k : jstr) (v : jsval) (k' : jstr) :
  complete_object DEFAULT_CONFIG (config (updateConfig k v p)) →
  mount (localStorage (updateConfig k v p)) = Some p' →
  read (config p') k' = read (config (updateConfig k v p)) k'.
Proof.
  intros Hc Hm. set (q := updateConfig k v p) in *.
  assert (config p' = obj_assign DEFAULT_CONFIG (spread (loadConfig (localStorage q)))) as ->.
  { unfold mount in Hm. destruct (loadMessages _) as [[ms| |] ls]; [by injection Hm as <-..|done]. }
  apply object_restored; [done|]. unfold q, updateConfig. cbn [set_config localStorage config]. apply obj_get_set_eq.
Qed.

(** The model and the group of the requests are among those offered, whatever was
    chosen or stored, once the lists are there; the group falls back to "default"
    where that is offered. *)
Definition model_offered (p : Page) : Prop :=
  ∀ l, modelsData p = Some l → l ≠ [] → ∃ m, m ∈ l ∧ strict_eq (mo_value m) (read (config p) (js "model")) = true.
Definition group_offered (p : Page) : Prop :=
  ∀ l, groupsData p = Some l → l ≠ [] → ∃ g, g ∈ l ∧ strict_eq (JStr (go_value g)) (read (config p) (js "group")) = true.

Lemma existsb_elem {A} (f : A → bool) l : existsb f l = true → ∃ x, x ∈ l ∧ f x = true.
Proof. intros (x & Hx & Hf)%existsb_exists. exists x. split; [by apply list_elem_of_In|done]. Qed.

(** The lists hold texts. *)
Definition text_options (l : list ModelOption) : Prop := Forall (λ m, is_string (mo_value m) = true) l.

Lemma modelEffect_offered p : (∀ l, modelsData p = Some l → text_options l) → model_offered (modelEffect p).
Proof.
  intros Ht l. unfold modelEffect. destruct (modelsData p) as [[|m ms]|] eqn:E.
  - rewrite E. intros [= <-]. done.
  - specialize (Ht _ eq_refl). set (L := m :: ms) in *. destruct (existsb _ L) eqn:Ex.
    + rewrite E. intros [= <-] _. by apply existsb_elem in Ex.
    + cbn [updateConfig set_config modelsData config]. rewrite E. intros [= <-] _. exists m. split; [unfold L; left|].
      unfold read. rewrite obj_get_set_eq. apply Forall_cons in Ht as [Hm _]. cbn [from_option].
      destruct (mo_value m) as [| | | |s| |]; try done. apply str_eqb_refl.
  - by rewrite E.
Qed.

Lemma groupEffect_offered p : group_offered (groupEffect p).
Proof.
  intros l. unfold groupEffect. destruct (groupsData p) as [[|g gs]|] eqn:E.
  - rewrite E. intros [= <-]. done.
  - set (L := g :: gs) in *. destruct (existsb _ L) eqn:Ex.
    + rewrite E. intros [= <-] _. by apply existsb_elem in Ex.
    + cbn [updateConfig set_config groupsData config]. rewrite E. intros [= <-] _. unfold read. rewrite obj_get_set_eq. cbn [from_option].
      destruct (find _ L) as [d|] eqn:Ef.
      * exists d. split; [|apply str_eqb_refl]. by apply find_some in Ef as [?%list_elem_of_In _].
      * exists g. split; [unfold L; left|apply str_eqb_refl].
  - by rewrite E.
Qed.

(** The effect on the group touches nothing of the model. *)
Lemma groupEffect_model p : model_offered p → model_offered (groupEffect p).
Proof.
  intros H l. unfold groupEffect. destruct (groupsData p) as [[|g gs]|]; [apply H| |apply H].
  destruct (existsb _ _); [apply H|]. cbn [updateConfig set_config modelsData config]. intros Hl Hn.
  destruct (H l Hl Hn) as (m & Hm & He). exists m. split; [done|]. unfold read in *. by rewrite obj_get_set_ne.
Qed.

Theorem choice_offered (p : Page) (k : jstr) (v : jsval) : (∀ l, modelsData p = Some l → text_options l) →
  model_offered (page_step p (Choose k v)) ∧ group_offered (page_step p (Choose k v)).
Proof.
  intros Ht. cbn [page_step]. split; [|apply groupEffect_offered]. apply groupEffect_model, modelEffect_offered, Ht.
Qed.

(** ** Where the page misbehaves *)

Definition second_fresh : Fresh :=
  {| user_key := js "k3"; user_version := js "v3"; answer_key := js "k4"; answer_version := js "v4"; stream_throws := false |}.

Definition answers (p : Page) : list (option MessageStatus * jstr) :=
  map (λ m, (status m, content (getCurrentVersion m))) (page_messages p).

(** A suggestion is not disabled while an answer is generated: what follows of the
    first answer is added to the second one, and the first stays unfinished when
    no stream is open any more and the stop button is gone. *)
Theorem suggestion_mixes_answers :
  let p := fold_left page_step [Suggest second_fresh (js "Code"); Chat (Sse (OnMessage (chunk_data (js " there"))));
                                Chat (Sse (OnMessage (js "[DONE]")))] answering_page in
  answers p = [(None, js "hello"); (Some STREAMING, js "Hi"); (None, js "Code"); (Some COMPLETE, js " there")] ∧
  isGenerating p = false.
Proof. vm_compute. split; reflexivity. Qed.

(** Without streaming, an answer without choices leaves the message loading, and
    as nothing is generated the stop button is not offered. *)
Theorem no_choice_hangs :
  let p := page_step (page_step (updateConfig (js "stream") (JBool false) first_page) (Submit sample_fresh (js "hello")))
             (Chat (Response NoChoice)) in
  answers p = [(None, js "hello"); (Some LOADING, [])] ∧ isGenerating p = false.
Proof. vm_compute. split; reflexivity. Qed.

(** An answer stopped before its first chunk is complete and empty: nothing of it
    is shown, neither text nor the buttons to regenerate or delete it. *)
Theorem stopped_answer_hidden :
  let p := page_step (page_step first_page (Submit sample_fresh (js "hello"))) (Chat Stop) in
  ∃ m, last (page_messages p) = Some m ∧ status m = Some COMPLETE ∧
    let v := message_view m (getCurrentVersion m) in
    showLoader v = false ∧ showReasoning v = false ∧ showMessageContent v = false ∧ showActions v = false.
Proof. eexists. split; [vm_compute; reflexivity|]. vm_compute. auto. Qed.

(** What the user typed into an edited message is lost with the next chunk. *)
Theorem edit_text_lost :
  let p := fold_left page_step [Chat (Sse (OnMessage (js "[DONE]")));
             Edit (createUserMessage (js "k1") (js "v1") (js "hello")); Submit second_fresh (js "more"); TypeEdit (js "hello world");
             Chat (Sse (OnMessage (chunk_data (js "Well"))))] answering_page in
  editingMessageKey p = Some (js "k1") ∧ editText p = js "hello".
Proof. vm_compute. split; reflexivity. Qed.
