(* ===== verification/ChatLinks.v ===== *)
(** * Links to chat programs (features/chat/lib/chat-links.ts)

    The administrator stores a list of links; each becomes a preset, and opening
    one fills in the address of the server and a key of the user.  A link may
    carry both in a configuration: JSON in base64, escaped for an address.
    Base64 and the escapes throw on texts they cannot express. *)

From S2P Require Import Prelude JsNumber JsString JsValue JsonFacts JsonRoundtrip Encoding.

Open Scope nat_scope.

Inductive ChatLinkType := Web | CustomProtocol | Fluent.

Record ChatPreset := { cp_id : jstr; cp_name : jstr; cp_url : jstr; cp_type : ChatLinkType }.

Record ActiveApiKey := { ak_key : jstr; ak_status : num }.

(** [API_KEY_STATUS.ENABLED] *)
Definition API_KEY_ENABLED : num := of_Z 1.

Definition detectChatLinkType (url : jstr) : ChatLinkType :=
  let lower := toLowerCase url in
  if startsWith lower (js "http://") || startsWith lower (js "https://") then Web
  else if startsWith lower (js "fluent") then Fluent else CustomProtocol.

Definition chatLinkRequiresApiKey (url : jstr) : bool :=
  includes url (js "{key}") || includes url (js "{cherryConfig}") || includes url (js "{aionuiConfig}") ||
  includes url (js "{deepchatConfig}").

Definition parse_entry (index : nat) (entry : jsval) : option ChatPreset :=
  match entry with
  | JObj o =>
      match own_entries o with
      | [(name, JStr value)] =>
          let url := trim value in
          if negb (str_truthy url) then None
          else Some {| cp_id := int_to_string 10 (Z.of_nat index); cp_name := name; cp_url := url; cp_type := detectChatLinkType url |}
      | _ => None
      end
  | _ => None
  end.

Definition parseChatConfig (raw : jsval) : list ChatPreset :=
  let parsed := match raw with JStr s => json_parse s | raw => Some raw end in
  match parsed with
  | Some (JArr l) => omap (λ o, o) (imap parse_entry l)
  | _ => []
  end.

Definition replaceToken (source token value : jstr) : jstr := join value (split source token).

Definition normalizeApiKey (apiKey : jstr) : jstr :=
  let trimmed := trim apiKey in
  if negb (str_truthy trimmed) then [] else if startsWith trimmed (js "sk-") then trimmed else js "sk-" ++ trimmed.

Definition or_throw {A} (o : option A) : outcome A := match o with Some x => Ret x | None => Throw end.

(** The configuration as it stands in a link. *)
Definition encoded_config (payload : jsval) : outcome jstr :=
  b ← or_throw (btoa (json_stringify payload)); or_throw (encodeURIComponent b).

Definition config_payload (first : string) (baseUrl apiKey : jstr) : jsval :=
  JObj [(js_of_string first, JStr (js "new-api")); (js "baseUrl", JStr baseUrl); (js "apiKey", JStr apiKey)].

Definition resolveChatUrl (template : jstr) (apiKey : option jstr) (serverAddress : jstr) : outcome jstr :=
  let safeApiKey := normalizeApiKey (default [] apiKey) in
  let config token first :=
    encoded ← encoded_config (config_payload first serverAddress safeApiKey); Ret (replaceToken template token encoded) in
  if includes template (js "{cherryConfig}") then config (js "{cherryConfig}") "id"%string
  else if includes template (js "{aionuiConfig}") then config (js "{aionuiConfig}") "platform"%string
  else if includes template (js "{deepchatConfig}") then config (js "{deepchatConfig}") "id"%string
  else
    url ← (if str_truthy serverAddress
           then encodedAddress ← or_throw (encodeURIComponent serverAddress); Ret (replaceToken template (js "{address}") encodedAddress)
           else Ret template);
    Ret (if str_truthy safeApiKey then replaceToken url (js "{key}") safeApiKey else url).

Definition getFirstActiveKey (keys : option (list ActiveApiKey)) : option ActiveApiKey :=
  keys ≫= List.find (λ item, n_eq (ak_status item) API_KEY_ENABLED).

(** ** Presets *)

Lemma parsed_entries l k p : p ∈ omap (λ o, o) (imap (λ i, parse_entry (k + i)) l) ↔
  ∃ i e, l !! i = Some e ∧ parse_entry (k + i) e = Some p.
Proof.
  rewrite list_elem_of_omap. split.
  - intros (o & Ho & ->). apply elem_of_lookup_imap in Ho as (i & e & E & Hl). exists i, e. by split.
  - intros (i & e & Hl & E). exists (Some p). split; [|done]. apply elem_of_lookup_imap. by exists i, e.
Qed.

(** The presets are the entries with one name and a link that is not blank, each
    with its place in the list as identifier. *)
Lemma presets_exact l p : p ∈ parseChatConfig (JArr l) ↔
  ∃ i o name value, l !! i = Some (JObj o) ∧ own_entries o = [(name, JStr value)] ∧ trim value ≠ [] ∧
    p = {| cp_id := int_to_string 10 (Z.of_nat i); cp_name := name; cp_url := trim value; cp_type := detectChatLinkType (trim value) |}.
Proof.
  unfold parseChatConfig. rewrite (parsed_entries l 0). cbn [Nat.add]. split.
  - intros (i & e & Hl & E). destruct e as [| | | | | |o]; try done. cbn [parse_entry] in E.
    destruct (own_entries o) as [|[name [| | | |value| |]] [|? ?]] eqn:Eo; try done.
    destruct (str_truthy (trim value)) eqn:Et; [|done]. injection E as <-. exists i, o, name, value.
    split_and!; try done. intros E. by rewrite E in Et.
  - intros (i & o & name & value & Hl & Ho & Hv & ->). exists i, (JObj o). split; [done|]. cbn [parse_entry]. rewrite Ho.
    by destruct (trim value).
Qed.

(** ** Keys *)

Lemma startsWith_prefix p s : startsWith (p ++ s) p = true.
Proof. apply startsWith_true. by exists s. Qed.

Lemma key_normalized k : normalizeApiKey (normalizeApiKey k) = normalizeApiKey k.
Proof.
  unfold normalizeApiKey. pose proof (trim_trimmed k) as Ht. destruct (trim k) as [|c s] eqn:E; [done|]. cbn [str_truthy negb].
  destruct (startsWith (c :: s) (js "sk-")) eqn:Es.
  - by rewrite (trim_id (c :: s)), Es.
  - rewrite trim_id; [by rewrite startsWith_prefix|]. apply trimmed_app; [done|done|by apply trimmed_b|done].
Qed.

(** ** Configurations in links *)

Lemma latin_quote s : Forall is_byte s → Forall is_byte (json_quote s).
Proof.
  intros Hs. unfold json_quote. apply Forall_cons. split; [done|]. apply Forall_app. split; [|by apply Forall_singleton].
  induction Hs as [|c s Hc Hs IH]; [done|]. unfold is_byte in Hc. cbn [quote_body].
  assert (Forall (λ c, Forall (λ x, x < 256)%N (default [] (escape_unit c))) (map N.of_nat (seq 0 256))) as He
    by (apply (bool_decide_unpack _); vm_compute; exact I).
  rewrite Forall_forall in He. specialize (He c). destruct (escape_unit c) as [e|] eqn:E.
  - cbn [from_option id] in He. apply Forall_app. split; [|done]. apply He, list_elem_of_In, in_map_iff. exists (N.to_nat c). rewrite N2Nat.id, in_seq. lia.
  - assert (is_lead c = false ∧ is_trail c = false) as [-> ->] by (unfold is_lead, is_trail; lia). by constructor.
Qed.

Lemma payload_latin first url key : js_of_string first ∈ [js "id"; js "platform"] → Forall is_byte url → Forall is_byte key →
  Forall is_byte (json_stringify (config_payload first url key)).
Proof.
  intros Hf Hu Hk. rewrite !elem_of_cons, elem_of_nil in Hf. unfold json_stringify, config_payload. cbn [stringify map fst snd].
  rewrite own_entries_names by (cbn [map fst]; destruct Hf as [->|[->|[]]]; apply (bool_decide_unpack _); vm_compute; exact I).
  cbn [omap list_omap option_map snd fst bracketed join line_break from_option id app].
  assert (Forall is_byte (js_of_string first)) as Hn
    by (destruct Hf as [->|[->|[]]]; apply (bool_decide_unpack (Forall (λ c, c < 256)%N _)); vm_compute; exact I).
  repeat match goal with
  | |- Forall is_byte (_ ++ _) => apply Forall_app; split
  | |- Forall is_byte (_ :: _) => apply Forall_cons; split; [done|]
  | |- Forall is_byte [] => by apply Forall_nil
  | |- Forall is_byte (json_quote _) => apply latin_quote
  | |- Forall is_byte ?s => first [assumption|by apply (bool_decide_unpack (Forall (λ c, c < 256)%N s))]
  end.
Qed.

Lemma payload_expressible first url key : js_of_string first ∈ [js "id"; js "platform"] → utf16_ok url → utf16_ok key →
  expressible (config_payload first url key).
Proof.
  intros Hf Hu Hk. rewrite !elem_of_cons, elem_of_nil in Hf. unfold config_payload. apply expressible_obj. split_and!.
  - apply own_entries_names. cbn [map fst]. destruct Hf as [->|[->|[]]]; apply (bool_decide_unpack _); vm_compute; exact I.
  - cbn [map fst]. destruct Hf as [->|[->|[]]]; apply (bool_decide_unpack _); vm_compute; exact I.
  - repeat (apply Forall_cons; split); cbn [fst snd expressible]; try done.
    + split; [|apply (bool_decide_unpack _); vm_compute; exact I]. destruct Hf as [->|[->|[]]]; apply (bool_decide_unpack _); vm_compute; exact I.
    + split; [|done]. apply (bool_decide_unpack _); vm_compute; exact I.
    + split; [|done]. apply (bool_decide_unpack _); vm_compute; exact I.
Qed.

(** C38. A configuration in a link arrives: for a server address and a key of
    Latin-1 characters, and a template that asks for one of the three
    configurations, the link is the template with every place filled by one text,
    and undoing its escapes, its base64 and its JSON gives the address and the
    key, with the prefix every key has. *)
Theorem link_config_arrives template token first apiKey serverAddress :
  (token, first) ∈ [(js "{cherryConfig}", "id"%string); (js "{aionuiConfig}", "platform"%string); (js "{deepchatConfig}", "id"%string)] →
  includes template token = true → (∀ other, other ∈ [js "{cherryConfig}"; js "{aionuiConfig}"; js "{deepchatConfig}"] → other ≠ token →
    includes template other = false) →
  Forall is_byte serverAddress → Forall is_byte (normalizeApiKey apiKey) →
  ∃ encoded text, resolveChatUrl template (Some apiKey) serverAddress = Ret (join encoded (split template token)) ∧
    atob (percent_decode encoded) = Some text ∧ json_parse text = Some (config_payload first serverAddress (normalizeApiKey apiKey)).
Proof.
  intros Ht Hi Ho Hs Hk. rewrite !elem_of_cons, elem_of_nil in Ht.
  assert (js_of_string first ∈ [js "id"; js "platform"]) as Hf.
  { destruct Ht as [Ht|[Ht|[Ht|[]]]]; apply (f_equal snd) in Ht; cbn [snd] in Ht; subst first; first [by left|by right; left]. }
  set (payload := config_payload first serverAddress (normalizeApiKey apiKey)).
  assert (∃ encoded, encoded_config payload = Ret encoded ∧ atob (percent_decode encoded) = Some (json_stringify payload)) as (encoded & E & D).
  { destruct (base64_in_address (json_stringify payload)) as (t & E & D); [by apply payload_latin|]. exists t. split; [|done].
    unfold encoded_config. destruct (btoa _) as [b|]; [|done]. cbn [mbind option_bind] in E. cbn [or_throw mbind outcome_bind]. by rewrite E. }
  exists encoded, (json_stringify payload). split_and!; [|done|].
  - unfold resolveChatUrl. cbn [from_option id].
    destruct Ht as [Ht|[Ht|[Ht|[]]]]; pose proof (f_equal fst Ht) as Et; apply (f_equal snd) in Ht; cbn [fst snd] in Et, Ht; subst token first.
    + rewrite Hi. fold payload. rewrite E. done.
    + rewrite (Ho (js "{cherryConfig}")), Hi by (try discriminate; by left). fold payload. rewrite E. done.
    + rewrite (Ho (js "{cherryConfig}")), (Ho (js "{aionuiConfig}")), Hi by (try discriminate; first [by left|by right; left]).
      fold payload. rewrite E. done.
  - apply json_roundtrip, payload_expressible; [done|eapply Forall_impl; [exact Hs|]|eapply Forall_impl; [exact Hk|]];
      intros c Hc; unfold is_byte in Hc; lia.
Qed.

(** A server address with a character beyond Latin-1 makes opening such a link
    fail. *)
Lemma wide_address_throws : resolveChatUrl (js "cherry://import?v={cherryConfig}") (Some (js "k")) (js "https://例.com") = Throw.
Proof. vm_compute. reflexivity. Qed.

Lemma link_config_arrives_witness : ∃ encoded text,
  resolveChatUrl (js "cherry://import?v={cherryConfig}") (Some (js "k1")) (js "https://a.b") =
    Ret (join encoded (split (js "cherry://import?v={cherryConfig}") (js "{cherryConfig}"))) ∧
  atob (percent_decode encoded) = Some text ∧ json_parse text = Some (config_payload "id" (js "https://a.b") (js "sk-k1")).
Proof.
  apply (link_config_arrives (js "cherry://import?v={cherryConfig}") (js "{cherryConfig}") "id" (js "k1") (js "https://a.b")).
  - by left.
  - vm_compute. reflexivity.
  - intros other Hin Hne. rewrite !elem_of_cons, elem_of_nil in Hin. destruct Hin as [->|[->|[->|[]]]]; [done|vm_compute; reflexivity..].
  - apply (bool_decide_unpack (Forall (λ c, c < 256)%N _)). vm_compute. exact I.
  - apply (bool_decide_unpack (Forall (λ c, c < 256)%N _)). vm_compute. exact I.
Defined.
