(* ===== verification/Notifications.v ===== *)
(** * Notifications (stores/notification-store.ts, hooks/use-notifications.ts)

    A notice and announcements from the server, and what the user has read of
    them, which survives in local storage.  An announcement without an identifier
    is known by a 32-bit hash of its texts.  The text of a date is a parameter. *)

From S2P Require Import Prelude JsNumber JsString JsValue Format.

Open Scope nat_scope.

(** ** The store *)

Record NotificationState := {
  lastReadNotice : jstr; readAnnouncementKeys : list jstr; closedUntilDate : option jstr
}.

Definition initial_notifications : NotificationState :=
  {| lastReadNotice := []; readAnnouncementKeys := []; closedUntilDate := None |}.

Definition markNoticeRead (noticeContent : jstr) (s : NotificationState) : NotificationState :=
  {| lastReadNotice := trim noticeContent; readAnnouncementKeys := readAnnouncementKeys s; closedUntilDate := closedUntilDate s |}.

Definition markAnnouncementsRead (keys : list jstr) (s : NotificationState) : NotificationState :=
  {| lastReadNotice := lastReadNotice s; readAnnouncementKeys := set_of_list (readAnnouncementKeys s ++ keys);
     closedUntilDate := closedUntilDate s |}.

Definition setClosedUntilDate (date : option jstr) (s : NotificationState) : NotificationState :=
  {| lastReadNotice := lastReadNotice s; readAnnouncementKeys := readAnnouncementKeys s; closedUntilDate := date |}.

Definition isAnnouncementRead (key : jstr) (s : NotificationState) : bool := bool_decide (key ∈ readAnnouncementKeys s).

Definition isNoticeClosed (today : jstr) (s : NotificationState) : bool :=
  match closedUntilDate s with None | Some [] => false | Some d => str_eqb d today end.

(** ** Announcements *)

Definition hashString (input : jstr) : jstr :=
  if negb (str_truthy input) then js "0"
  else int_to_string 36 (fold_left (λ hash chr, wrap32 (wrap32 (Z.shiftl hash 5) - hash + Z.of_N chr))%Z input 0%Z).

(** [(v || '').trim()], which throws on a value that is no text. *)
Definition trimmed_text (v : jsval) : outcome jsval :=
  match js_or v (JStr []) with JStr s => Ret (JStr (trim s)) | _ => Throw end.

Definition getAnnouncementKey (item : jsval) : outcome jstr :=
  if negb (truthy item) then Ret []
  else if negb (is_nullish (prop "id" item)) then Ret (js "id:" ++ to_string (prop "id" item))
  else
    content ← trimmed_text (prop "content" item);
    extra ← trimmed_text (prop "extra" item);
    title ← trimmed_text (prop "title" item);
    link ← trimmed_text (prop "link" item);
    let fingerprint := json_stringify (JObj
      [(js "publishDate", js_or (prop "publishDate" item) (JStr [])); (js "content", content); (js "extra", extra);
       (js "type", js_or (prop "type" item) (JStr [])); (js "title", title); (js "link", link)]) in
    Ret (js "hash:" ++ hashString fingerprint).

(** ** The hook *)

Inductive NotificationTab := TabNotice | TabAnnouncements.

(** What the server sent: the response with the notice, and the status. *)
Record NoticeResponse := { nr_success : bool; nr_data : option jstr }.

Record NotificationSource := {
  ns_notice : option NoticeResponse; ns_announcements_enabled : option bool; ns_announcements : option (list jsval)
}.

Definition announcements (src : NotificationSource) : list jsval :=
  if default false (ns_announcements_enabled src) then take 20 (default [] (ns_announcements src)) else [].

Definition noticeContent (src : NotificationSource) : jstr :=
  match ns_notice src with Some r => if nr_success r then trim (default [] (nr_data r)) else [] | None => [] end.

Record NotificationHook := { nh_store : NotificationState; nh_dialogOpen : bool; nh_activeTab : NotificationTab }.

Definition unread (s : NotificationState) (keys : list jstr) : nat := length (List.filter (λ k, negb (isAnnouncementRead k s)) keys).

(** Unread notices and announcements. *)
Definition unreadCounts (src : NotificationSource) (s : NotificationState) : outcome (nat * nat) :=
  keys ← mapM getAnnouncementKey (announcements src);
  Ret (if str_truthy (noticeContent src) && negb (str_eqb (noticeContent src) (lastReadNotice s)) then 1 else 0, unread s keys).

Definition handleOpenDialog (src : NotificationSource) (tab : option NotificationTab) (h : NotificationHook) : NotificationHook :=
  {| nh_store := if str_truthy (noticeContent src) then markNoticeRead (noticeContent src) (nh_store h) else nh_store h;
     nh_dialogOpen := true; nh_activeTab := default TabNotice tab |}.

Definition handleTabChange (src : NotificationSource) (tab : NotificationTab) (h : NotificationHook) : outcome NotificationHook :=
  match tab, announcements src with
  | TabAnnouncements, _ :: _ =>
      allKeys ← mapM getAnnouncementKey (announcements src);
      Ret {| nh_store := markAnnouncementsRead allKeys (nh_store h); nh_dialogOpen := nh_dialogOpen h; nh_activeTab := tab |}
  | _, _ => Ret {| nh_store := nh_store h; nh_dialogOpen := nh_dialogOpen h; nh_activeTab := tab |}
  end.

Definition handleCloseToday (today : jstr) (h : NotificationHook) : NotificationHook :=
  {| nh_store := setClosedUntilDate (Some today) (nh_store h); nh_dialogOpen := false; nh_activeTab := nh_activeTab h |}.

Definition closeDialog (h : NotificationHook) : NotificationHook :=
  {| nh_store := nh_store h; nh_dialogOpen := false; nh_activeTab := nh_activeTab h |}.

(** What the user does, while the server may send something else at any time. *)
Inductive NotificationEvent :=
  | OpenDialog (src : NotificationSource) (tab : option NotificationTab) | ChangeTab (src : NotificationSource) (tab : NotificationTab)
  | CloseToday (today : jstr) | CloseDialog.

Definition notification_step (e : NotificationEvent) (h : NotificationHook) : outcome NotificationHook :=
  match e with
  | OpenDialog src tab => Ret (handleOpenDialog src tab h)
  | ChangeTab src tab => handleTabChange src tab h
  | CloseToday today => Ret (handleCloseToday today h)
  | CloseDialog => Ret (closeDialog h)
  end.

(** ** What was read stays read *)

Lemma mapM_filter_nil s keys : (∀ k, k ∈ keys → k ∈ readAnnouncementKeys s) → unread s keys = 0.
Proof.
  intros H. unfold unread. induction keys as [|k keys IH]; [done|]. cbn [List.filter]. unfold isAnnouncementRead.
  rewrite bool_decide_eq_true_2 by (apply H; by left). apply IH. intros; apply H. by right.
Qed.

Lemma step_keeps_read e h h' : notification_step e h = Ret h' →
  readAnnouncementKeys (nh_store h) ⊆ readAnnouncementKeys (nh_store h') ∧
  (NoDup (readAnnouncementKeys (nh_store h)) → NoDup (readAnnouncementKeys (nh_store h'))).
Proof.
  destruct e as [src tab|src tab|today|]; cbn [notification_step].
  - intros [= <-]. unfold handleOpenDialog. cbn [nh_store]. by case_match.
  - unfold handleTabChange. destruct tab; [intros [= <-]; done|]. destruct (announcements src) as [|a l] eqn:E; [intros [= <-]; done|].
    destruct (mapM getAnnouncementKey (a :: l)) as [ks|]; [|done]. intros [= <-]. cbn [nh_store markAnnouncementsRead readAnnouncementKeys].
    split; [|intros _; apply NoDup_set_of_list]. intros k Hk. rewrite elem_of_set_of_list, elem_of_app. by left.
  - by intros [= <-].
  - by intros [= <-].
Qed.

(** Steps of the user, one after the other. *)
Inductive steps : NotificationHook → NotificationHook → Prop :=
  | steps_nil h : steps h h
  | steps_cons e h h' h'' : notification_step e h = Ret h' → steps h' h'' → steps h h''.

Lemma steps_keep_read h h' : steps h h' → readAnnouncementKeys (nh_store h) ⊆ readAnnouncementKeys (nh_store h').
Proof. induction 1 as [|e h h' h'' Hs _ IH]; [done|]. apply step_keeps_read in Hs as [Hs _]. set_solver. Qed.

(** Announcements count as read once their tab was opened: right after, none
    of the announcements the server sends is unread, and whatever the user does
    later, in the same or in another state of the server, these never count as
    unread again. *)
Theorem announcements_stay_read src h h' h'' : handleTabChange src TabAnnouncements h = Ret h' → steps h' h'' →
  ∃ n, unreadCounts src (nh_store h'') = Ret (n, 0).
Proof.
  intros Ht Hs. apply steps_keep_read in Hs. unfold handleTabChange in Ht. unfold unreadCounts.
  destruct (announcements src) as [|a l] eqn:E; [by eexists|].
  destruct (mapM getAnnouncementKey (a :: l)) as [ks|] eqn:Ek; [|done]. injection Ht as <-. cbn [mbind outcome_bind].
  eexists. f_equal. f_equal. apply mapM_filter_nil. intros k Hk. apply Hs. cbn [nh_store markAnnouncementsRead readAnnouncementKeys].
  rewrite elem_of_set_of_list, elem_of_app. by right.
Qed.

(** A notice counts as read once the dialog was opened, until its text changes. *)
Lemma notice_read src tab h : ∀ n m, unreadCounts src (nh_store (handleOpenDialog src tab h)) = Ret (n, m) → n = 0.
Proof.
  intros n m. unfold unreadCounts. destruct (mapM _ _) as [ks|]; [|done]. intros [= <- _]. unfold handleOpenDialog. cbn [nh_store].
  destruct (str_truthy (noticeContent src)) eqn:E; [|done]. cbn [markNoticeRead lastReadNotice].
  assert (trim (noticeContent src) = noticeContent src) as ->; [|by rewrite str_eqb_refl].
  unfold noticeContent. destruct (ns_notice src) as [r|]; [|done]. destruct (nr_success r); [apply trim_idemp|done].
Qed.

(** Opening the dialog on the announcements does not mark them as read. *)
Lemma opened_tab_unread src h : readAnnouncementKeys (nh_store (handleOpenDialog src (Some TabAnnouncements) h)) = readAnnouncementKeys (nh_store h).
Proof. unfold handleOpenDialog. cbn [nh_store]. by case_match. Qed.

Definition sample_source : NotificationSource :=
  {| ns_notice := Some {| nr_success := true; nr_data := Some (js "hi ") |}; ns_announcements_enabled := Some true;
     ns_announcements := Some [JObj [(js "id", JNum (of_Z 3))]; JObj [(js "content", JStr (js "new model"))]] |}.

Definition sample_hook : NotificationHook := {| nh_store := initial_notifications; nh_dialogOpen := false; nh_activeTab := TabNotice |}.

Lemma announcements_stay_read_witness : ∃ h' n,
  handleTabChange sample_source TabAnnouncements sample_hook = Ret h' ∧ unreadCounts sample_source (nh_store h') = Ret (n, 0).
Proof.
  destruct (handleTabChange sample_source TabAnnouncements sample_hook) as [h'|] eqn:E; [|vm_compute in E; discriminate].
  destruct (announcements_stay_read sample_source sample_hook h' h' E (steps_nil h')) as [n Hn]. exists h', n. by split.
Defined.
