(* ===== verification/SettingsForm.v ===== *)
(** * Settings forms (features/system-settings/hooks and general)

    A settings page reads the options of the server (use-system-options.ts),
    shows a section's part of them in a form (use-settings-form.ts), and sends
    one request for each option that was changed (general/pricing-section.tsx,
    quota-settings-section.tsx, system-info-section.tsx).  The form library is
    outside: a form is its values, [form.reset] replaces them, and the fields it
    marks as touched enter as a tree. *)

From S2P Require Import Prelude JsNumber JsString JsValue.

Open Scope nat_scope.

(** ** Options of the server *)

Record SystemOption := { opt_key : jstr; opt_value : jstr }.

(** The value, or the default with what was wrong. *)
Inductive ParseResult := ParseOk (value : jsval) | ParseFailed (error : jstr) (fallback : jsval).

Definition typeof (v : jsval) : jstr :=
  match v with
  | JUndef => js "undefined"
  | JBool _ => js "boolean"
  | JNum _ => js "number"
  | JStr _ => js "string"
  | JNull | JArr _ | JObj _ => js "object"
  end.

(** The text of the error of [JSON.parse] is left open. *)
Definition parseOptionValueSafe (parse_error : jstr → jstr) (value : jstr) (defaultValue : jsval) : ParseResult :=
  match defaultValue with
  | JBool _ => ParseOk (JBool (str_eqb value (js "true") || str_eqb value (js "1")))
  | JNum _ =>
      let trimmed := trim value in
      if negb (str_truthy trimmed) then ParseFailed (js "Empty string for number field") defaultValue
      else let parsed := string_to_number trimmed in
        if isNaN parsed then ParseFailed (js "Invalid number: " ++ [34%N] ++ value ++ [34%N]) defaultValue
        else ParseOk (JNum parsed)
  | JArr l =>
      match json_parse value with
      | None => ParseFailed (js "JSON parse failed: " ++ parse_error value) defaultValue
      | Some (JArr parsed) =>
          match l with
          | first :: _ =>
              let expectedType := typeof first in
              match List.find (λ el, negb (str_eqb (typeof el) expectedType)) parsed with
              | Some invalidElement =>
                  ParseFailed (js "Array element type mismatch: expected " ++ expectedType ++ js ", got " ++ typeof invalidElement) defaultValue
              | None => ParseOk (JArr parsed)
              end
          | [] => ParseOk (JArr parsed)
          end
      | Some _ => ParseFailed (js "Expected array but got non-array JSON") defaultValue
      end
  | _ => ParseOk (JStr value)
  end.

Definition parsed_value (r : ParseResult) : jsval := match r with ParseOk v => v | ParseFailed _ v => v end.

Definition read_option (parse_error : jstr → jstr) (defaults result : obj jsval) (option : SystemOption) : obj jsval :=
  match obj_get (opt_key option) defaults with
  | Some d => obj_set (opt_key option) (parsed_value (parseOptionValueSafe parse_error (opt_value option) d)) result
  | None => result
  end.

Definition getOptionValue (parse_error : jstr → jstr) (options : option (list SystemOption)) (defaults : obj jsval) : obj jsval :=
  match options with
  | None => defaults
  | Some options => fold_left (read_option parse_error defaults) options defaults
  end.

(** ** Paths *)

Definition isPlainObject (v : jsval) : bool := match v with JObj _ => true | _ => false end.

(** [parentKey ? `${parentKey}.${key}` : key] *)
Definition next_key (parentKey : option jstr) (key : jstr) : jstr :=
  match parentKey with
  | Some p => if str_truthy p then p ++ js "." ++ key else key
  | None => key
  end.

Fixpoint flattenValues (values : jsval) (parentKey : option jstr) (result : obj jsval) : obj jsval :=
  match values with
  | JObj o =>
      fold_left (λ r kf, kf.2 kf.1 r) (own_entries (map (λ kv, (kv.1, λ key r,
        let nextKey := next_key parentKey key in
        match kv.2 with
        | JObj _ => flattenValues kv.2 (Some nextKey) r
        | _ => obj_set nextKey kv.2 r
        end)) o)) result
  | values => match parentKey with Some p => obj_set p values result | None => result end
  end.

(** [values[key]] where the values are an object or an array. *)
Definition source_value (values : jsval) (key : jstr) : jsval :=
  match values with
  | JObj o => default JUndef (obj_get key o)
  | JArr l =>
      match array_index key with
      | Some i => default JUndef (l !! N.to_nat i)
      | None => if str_eqb key (js "length") then JNum (of_Z (Z.of_nat (length l))) else JUndef
      end
  | _ => JUndef
  end.

(** The fields are an object of fields, an array of them, or whether one was
    touched. *)
Fixpoint collectDirtyValues (dirtyFields values : jsval) (parentKey : option jstr) (result : obj jsval) : obj jsval :=
  let visit value (key : jstr) r :=
    let nextKey := next_key parentKey key in
    let source := source_value values key in
    match value with
    | JBool true => obj_set nextKey source r
    | JObj _ | JArr _ => collectDirtyValues value source (Some nextKey) r
    | _ => r
    end in
  match dirtyFields with
  | JBool true => match parentKey with Some p => obj_set p values result | None => result end
  | JObj o => fold_left (λ r kf, kf.2 kf.1 r) (own_entries (map (λ kv, (kv.1, visit kv.2)) o)) result
  | JArr l => fold_left (λ r kf, kf.2 kf.1 r) (imap (λ i f, (int_to_string 10 (Z.of_nat i), f)) (map (λ v, visit v) l)) result
  | _ => result
  end.

Fixpoint set_segments (target : obj jsval) (segments : list jstr) (value : jsval) : obj jsval :=
  match segments with
  | [] => target
  | [segment] => obj_set segment value target
  | segment :: segments =>
      let next := match obj_get segment target with Some (JObj o) => o | _ => [] end in
      obj_set segment (JObj (set_segments next segments value)) target
  end.

Definition setDeepValue (target : obj jsval) (path : jstr) (value : jsval) : obj jsval :=
  set_segments target (split path (js ".")) value.

Fixpoint expandDotPaths (values : jsval) : jsval :=
  match values with
  | JObj o =>
      JObj (fold_left (λ r kf, kf.2 kf.1 r) (own_entries (map (λ kv, (kv.1, λ key r,
        if includes key (js ".") then setDeepValue r key kv.2
        else match kv.2 with
             | JObj _ => obj_set key (expandDotPaths kv.2) r
             | _ => obj_set key kv.2 r
             end)) o)) [])
  | values => values
  end.

(** ** The hook *)

(** The form with its values, and what the hook remembers. *)
Record SettingsForm := {
  sf_values : jsval; sf_defaultValuesRef : jsval; sf_baseline : obj jsval; sf_serialized : jstr
}.

(** [expandedDefaults ?? {}] *)
Definition or_empty (v : jsval) : jsval := if is_nullish v then JObj [] else v.

Definition mountSettings (defaultValues : jsval) : SettingsForm :=
  let expanded := expandDotPaths defaultValues in
  let baseline := flattenValues (or_empty expanded) None [] in
  {| sf_values := expanded; sf_defaultValuesRef := or_empty expanded; sf_baseline := baseline;
     sf_serialized := json_stringify (JObj baseline) |}.

(** The effect after a rendering with other defaults. *)
Definition defaultsChanged (defaultValues : jsval) (st : SettingsForm) : SettingsForm :=
  let expanded := expandDotPaths defaultValues in
  if negb (truthy expanded) then st
  else
    let flattened := flattenValues expanded None [] in
    let serialized := json_stringify (JObj flattened) in
    if str_eqb serialized (sf_serialized st) then st
    else {| sf_values := expanded; sf_defaultValuesRef := expanded; sf_baseline := flattened; sf_serialized := serialized |}.

Definition defaultCompare (a b : jsval) : bool :=
  if strict_eq a b then true
  else match a, b with
       | (JArr _ | JObj _), (JArr _ | JObj _) => str_eqb (json_stringify a) (json_stringify b)
       | _, _ => false
       end.

Definition changedFields (compareValues : option (jsval → jsval → bool)) (dirtyFields data : jsval) (st : SettingsForm) : obj jsval :=
  let compare := default defaultCompare compareValues in
  let dirtyValues := collectDirtyValues dirtyFields data None [] in
  let changedEntries := List.filter (λ kv, negb (compare kv.2 (default JUndef (obj_get kv.1 (sf_baseline st))))) (own_entries dirtyValues) in
  fold_left (λ acc kv, obj_set kv.1 kv.2 acc) changedEntries [].

(** A request, and how it ended: the server may refuse it, which is reported and
    no failure of the request. *)
Record UpdateOptionRequest := { upd_key : jstr; upd_value : jsval }.
Inductive Reply := Accepted | Refused | Rejected.

(** Requests one after the other, until one fails. *)
Fixpoint send_updates (reply : UpdateOptionRequest → Reply) (l : list UpdateOptionRequest) : list UpdateOptionRequest * bool :=
  match l with
  | [] => ([], true)
  | r :: l =>
      match reply r with
      | Rejected => ([r], false)
      | Accepted | Refused => let '(sent, done) := send_updates reply l in (r :: sent, done)
      end
  end.

Inductive SubmitOutcome := NoChanges | Saved | SaveFailed.

Definition savedState (data : jsval) : SettingsForm :=
  let flattened := flattenValues data None [] in
  {| sf_values := data; sf_defaultValuesRef := data; sf_baseline := flattened; sf_serialized := json_stringify (JObj flattened) |}.

(** [onSubmit] gives the requests of a section for the changed fields. *)
Definition handleSubmit (compareValues : option (jsval → jsval → bool)) (onSubmit : obj jsval → list UpdateOptionRequest)
    (reply : UpdateOptionRequest → Reply) (dirtyFields data : jsval) (st : SettingsForm) :
    SubmitOutcome * list UpdateOptionRequest * SettingsForm :=
  let changed := changedFields compareValues dirtyFields data st in
  match changed with
  | [] => (NoChanges, [], st)
  | _ =>
      let '(sent, done) := send_updates reply (onSubmit changed) in
      if done then (Saved, sent, savedState data) else (SaveFailed, sent, st)
  end.

Definition handleReset (st : SettingsForm) : SettingsForm :=
  {| sf_values := sf_defaultValuesRef st; sf_defaultValuesRef := sf_defaultValuesRef st; sf_baseline := sf_baseline st;
     sf_serialized := sf_serialized st |}.

(** [useResetForm]: the values of the form and the last defaults shown. *)
Record ResetForm := { rf_values : jsval; rf_last : option jstr }.

Definition resetFormEffect (values : jsval) (st : ResetForm) : ResetForm :=
  if negb (truthy values) then st
  else
    let serializedDefaults := json_stringify values in
    if bool_decide (rf_last st = Some serializedDefaults) then st
    else {| rf_values := values; rf_last := Some serializedDefaults |}.

(** ** Sections *)

(** Currency and display: numbers and switches become texts. *)
Definition pricing_request (kv : jstr * jsval) : option UpdateOptionRequest :=
  let '(key, value) := kv in
  match value with
  | JUndef | JNull | JArr _ | JObj _ => None
  | JBool _ => Some {| upd_key := key; upd_value := JStr (to_string value) |}
  | JNum x => Some {| upd_key := key; upd_value := JStr (if isFinite x then num_to_string x else js "0") |}
  | JStr s => Some {| upd_key := key; upd_value := JStr s |}
  end.

Definition pricing_onSubmit (changed : obj jsval) : list UpdateOptionRequest := omap pricing_request (own_entries changed).

(** Quotas are sent as they are. *)
Definition quota_onSubmit (changed : obj jsval) : list UpdateOptionRequest :=
  map (λ kv, {| upd_key := kv.1; upd_value := kv.2 |}) (own_entries changed).

Definition normalizeValue (v : jsval) : jstr := if is_nullish v then [] else to_string v.

(** [replace(/\/+$/, '')] *)
Definition strip_slashes (s : jstr) : jstr := rev (drop_while (λ c, (c =? 47)%N) (rev s)).

Definition system_info_onSubmit (changed : obj jsval) : list UpdateOptionRequest :=
  map (λ kv, let v := normalizeValue kv.2 in
             {| upd_key := kv.1; upd_value := JStr (if str_eqb kv.1 (js "ServerAddress") then strip_slashes v else v) |})
      (own_entries changed).
