(* ===== verification/SettingsFormFacts.v ===== *)
(** * Settings forms: what is shown and what is sent

    The tree of a form and the flat table of options hold the same; a section
    sends options that changed only, and all of them unless a request is rejected;
    what it sends is read back. *)

From S2P Require Import Prelude JsNumber JsString JsValue JsonFacts JsonRoundtrip SettingsForm.

Open Scope nat_scope.

(** ** Paths of a tree *)

Abbreviation path := (list jstr).

Definition path_key (p : path) : jstr := join (js ".") p.

Fixpoint path_get (p : path) (v : jsval) : option jsval :=
  match p with
  | [] => Some v
  | k :: p => match v with JObj o => obj_get k o ≫= path_get p | _ => None end
  end.

(** A name of a field: not empty, without a dot. *)
Definition field_name (k : jstr) : Prop := k ≠ [] ∧ 46%N ∉ k.

#[global] Instance field_name_dec k : Decision (field_name k).
Proof. unfold field_name. apply _. Defined.

(** Objects inside objects, with names of fields that do not repeat. *)
Fixpoint form_tree (v : jsval) : Prop :=
  match v with
  | JObj o => NoDup (map fst o) ∧ Forall field_name (map fst o) ∧
              (fix all o := match o with [] => True | kv :: o => form_tree (snd kv) ∧ all o end) o
  | _ => True
  end.

Lemma form_tree_obj o : form_tree (JObj o) ↔ NoDup (map fst o) ∧ Forall field_name (map fst o) ∧ Forall (λ kv, form_tree kv.2) o.
Proof.
  cbn [form_tree]. assert (∀ o : obj jsval,
    (fix all o := match o with [] => True | kv :: o => form_tree (snd kv) ∧ all o end) o ↔ Forall (λ kv, form_tree kv.2) o) as H.
  { intros l. induction l as [|kv l IH]; [by split|]. rewrite Forall_cons, <- IH. done. }
  by rewrite H.
Qed.

Lemma path_get_tree p v x : form_tree v → path_get p v = Some x → Forall field_name p ∧ form_tree x.
Proof.
  revert v. induction p as [|k p IH]; intros v Hv; cbn [path_get]; [intros [= <-]; by split|].
  destruct v as [| | | | | |o]; try done. rewrite form_tree_obj in Hv; destruct Hv as (_ & Hn & Hc).
  destruct (obj_get k o) as [w|] eqn:E; [|done]. cbn [mbind option_bind]. intros H.
  pose proof (obj_get_key _ _ _ E) as Hk. apply obj_get_entry in E. rewrite Forall_forall in Hn. rewrite Forall_forall in Hc.
  destruct (IH w (Hc _ E) H) as [Hp Hx]. split; [|done]. constructor; [by apply Hn|done].
Qed.

Lemma path_key_split p : p ≠ [] → Forall field_name p → split (path_key p) (js ".") = p.
Proof. intros Hp Hn. apply (split_join 46%N); [done|]. eapply Forall_impl; [exact Hn|]. by intros ? []. Qed.

Lemma split_dot_inj k k' : split k (js ".") = split k' (js ".") → k = k'.
Proof. intros E. rewrite <- (join_split 46%N k), <- (join_split 46%N k'). exact (f_equal (join (js ".")) E). Qed.

Lemma path_key_inj p q : p ≠ [] → q ≠ [] → Forall field_name p → Forall field_name q → path_key p = path_key q → p = q.
Proof. intros Hp Hq Fp Fq E. by rewrite <- (path_key_split p), <- (path_key_split q), E. Qed.

Lemma path_key_snoc q k : q ≠ [] → path_key (q ++ [k]) = path_key q ++ js "." ++ k.
Proof.
  intros Hq. unfold path_key. induction q as [|a [|b q] IH]; [done|done|].
  change ((a :: b :: q) ++ [k]) with (a :: b :: (q ++ [k])). rewrite !join_cons. rewrite <- !app_assoc. do 2 f_equal. by apply IH.
Qed.

(** The key of the parent, at the place [q]. *)
Definition parent_key (q : path) : option jstr := match q with [] => None | _ => Some (path_key q) end.

Lemma next_key_path q k : Forall field_name q → next_key (parent_key q) k = path_key (q ++ [k]).
Proof.
  intros Hq. destruct q as [|a q]; [done|]. rewrite path_key_snoc by done. cbn [parent_key next_key].
  apply Forall_cons in Hq as [[Ha _] _]. assert (str_truthy (path_key (a :: q)) = true) as ->; [|done].
  unfold path_key. destruct a; [done|]. by destruct q.
Qed.

(** ** Leaves *)

(** Where a tree is visited, in order, with what is found there: [look] gives
    the children of a value, as names with values, or what stands at a leaf. *)
Fixpoint leaves (v : jsval) : list (path * jsval) :=
  match v with
  | JObj o => concat (map (λ kf, kf.2 kf.1) (own_entries (map (λ kv, (kv.1, λ k, map (λ pv, (k :: pv.1, pv.2)) (leaves kv.2))) o)))
  | v => [([], v)]
  end.

Lemma leaves_obj o : leaves (JObj o) = concat (map (λ kv, map (λ pv, (kv.1 :: pv.1, pv.2)) (leaves kv.2)) (own_entries o)).
Proof.
  cbn [leaves]. rewrite (own_entries_map (λ v k, map (λ pv, (k :: pv.1, pv.2)) (leaves v))), map_map. done.
Qed.

Lemma elem_of_leaves p v x : form_tree v → (p, x) ∈ leaves v ↔ path_get p v = Some x ∧ isPlainObject x = false.
Proof.
  revert p. induction v as [| | | | | |o IH] using jsval_induction; intros p Hv;
    try (cbn [leaves]; rewrite list_elem_of_singleton; split;
         [intros E; apply pair_parts in E as [-> ->]; done|
          destruct p; [intros [[= <-] _]; done|by intros [? _]]]).
  rewrite form_tree_obj in Hv; destruct Hv as (Hd & _ & Hc). rewrite leaves_obj. rewrite Forall_forall in IH. rewrite Forall_forall in Hc.
  rewrite list_elem_of_In, in_concat. setoid_rewrite <- list_elem_of_In. split.
  - intros (l & Hl & Hp). apply list_elem_of_fmap in Hl as ([k w] & -> & Hk). rewrite elem_of_own_entries in Hk.
    apply list_elem_of_fmap in Hp as ([p' y] & E & Hp). pose proof (f_equal fst E) as E1. apply (f_equal snd) in E. cbn [fst snd] in E1, E. subst p y.
    apply (IH _ Hk) in Hp as [Hp Hx]; [|by apply (Hc _ Hk)]. cbn [path_get]. by rewrite (obj_get_in k w o).
  - intros [Hp Hx]. destruct p as [|k p]; [injection Hp as <-; done|]. cbn [path_get] in Hp.
    destruct (obj_get k o) as [w|] eqn:E; [|done]. cbn [mbind option_bind] in Hp. apply obj_get_entry in E.
    exists (map (λ pv, (k :: pv.1, pv.2)) (leaves w)). split.
    + apply list_elem_of_fmap. exists (k, w). by rewrite elem_of_own_entries.
    + apply list_elem_of_fmap. exists (p, x). split; [done|]. apply (IH _ E); [by apply (Hc _ E)|done].
Qed.

(** ** Assigning what was visited *)

Lemma assign_app {V} (r l l' : obj V) : obj_assign r (l ++ l') = obj_assign (obj_assign r l) l'.
Proof. unfold obj_assign. apply fold_left_app. Qed.

Lemma assign_absent {V} k (l r : obj V) : (∀ y, (k, y) ∉ l) → obj_get k (obj_assign r l) = obj_get k r.
Proof.
  revert r. induction l as [|[j w] l IH]; intros r H; [done|]. cbn [obj_assign fold_left fst snd].
  fold (obj_assign (obj_set j w r) l). rewrite IH by (intros y Hy; apply (H y); by right).
  apply obj_get_set_ne. intros ->. apply (H w). by left.
Qed.

(** Entries that agree on the value of [k] give it that value. *)
Lemma assign_agreed {V} k x (l r : obj V) : (∀ y, (k, y) ∈ l → y = x) → (k, x) ∈ l → obj_get k (obj_assign r l) = Some x.
Proof.
  intros Ha Hin. apply list_elem_of_split in Hin as (l1 & l2 & ->). rewrite assign_app. cbn [obj_assign fold_left fst snd].
  fold (obj_assign (obj_set k x (obj_assign r l1)) l2).
  assert (∀ r', obj_get k r' = Some x → obj_get k (obj_assign r' l2) = Some x) as H.
  { assert (∀ y, (k, y) ∈ l2 → y = x) as H2 by (intros y Hy; apply Ha; rewrite elem_of_app, elem_of_cons; auto). clear Ha.
    induction l2 as [|[j w] l2 IH]; intros r' Hr; [done|]. cbn [obj_assign fold_left fst snd]. fold (obj_assign (obj_set j w r') l2).
    apply IH; [intros; apply H2; by right|]. rewrite obj_get_set. destruct (str_eqb k j) eqn:E; [|done].
    apply str_eqb_eq in E as ->. f_equal. apply H2. by left. }
  apply H, obj_get_set_eq.
Qed.

(** A loop whose body assigns entries assigns them all. *)
Lemma visit_all {A} (step : A → obj jsval → obj jsval) (out : A → obj jsval) l r :
  (∀ x r, x ∈ l → step x r = obj_assign r (out x)) → fold_left (λ r x, step x r) l r = obj_assign r (concat (map out l)).
Proof.
  revert r. induction l as [|x l IH]; intros r H; [done|]. cbn [fold_left map concat]. rewrite assign_app, H by by left.
  apply IH. intros y r' Hy. apply H. by right.
Qed.

(** Leaves under the place [q], by key. *)
Definition keyed (q : path) (l : list (path * jsval)) : obj jsval := map (λ pv, (path_key (q ++ pv.1), pv.2)) l.

Lemma keyed_concat q k l : keyed q (map (λ pv, (k :: pv.1, pv.2)) l) = keyed (q ++ [k]) l.
Proof. unfold keyed. rewrite map_map. apply map_ext. intros pv. cbn [fst snd]. by rewrite <- app_assoc. Qed.

Lemma keyed_leaves_obj q o : keyed q (leaves (JObj o)) = concat (map (λ kv, keyed (q ++ [kv.1]) (leaves kv.2)) (own_entries o)).
Proof.
  rewrite leaves_obj. unfold keyed at 1. rewrite concat_map, map_map. f_equal. apply map_ext. intros kv. apply keyed_concat.
Qed.

Lemma parent_key_snoc q k : parent_key (q ++ [k]) = Some (path_key (q ++ [k])).
Proof. by destruct q. Qed.

Lemma flatten_leaves v q r : form_tree v → Forall field_name q → (q ≠ [] ∨ isPlainObject v = true) →
  flattenValues v (parent_key q) r = obj_assign r (keyed q (leaves v)).
Proof.
  revert q r. induction v as [| | | | | |o IH] using jsval_induction; intros q r Hv Hq Hne;
    try (destruct Hne as [Hne|Hne]; [|done]; destruct q; [done|]; cbn; by rewrite app_nil_r).
  rewrite form_tree_obj in Hv. destruct Hv as (_ & Hn & Hc). rewrite Forall_forall in IH. rewrite Forall_forall in Hc. rewrite Forall_forall in Hn.
  rewrite keyed_leaves_obj. cbn [flattenValues].
  rewrite (own_entries_map (λ v key r, match v with JObj _ => flattenValues v (Some (next_key (parent_key q) key)) r
                                       | value => obj_set (next_key (parent_key q) key) value r end)), fold_left_map. cbn [fst snd].
  apply (visit_all (λ kv r, match kv.2 with JObj _ => flattenValues kv.2 (Some (next_key (parent_key q) kv.1)) r
                                       | _ => obj_set (next_key (parent_key q) kv.1) kv.2 r end)).
  intros [k w] r' Hk. rewrite elem_of_own_entries in Hk. cbn [fst snd]. rewrite next_key_path by done.
  assert (field_name k) as Hf by (apply Hn, list_elem_of_fmap; by exists (k, w)).
  rewrite <- parent_key_snoc. rewrite <- (IH _ Hk (q ++ [k])); [|by apply (Hc _ Hk)|by apply Forall_app_2; [|constructor]|left; by destruct q].
  cbn [snd]. destruct w; by rewrite parent_key_snoc.
Qed.

Lemma elem_of_keyed p v x : form_tree v → isPlainObject v = true → p ≠ [] → Forall field_name p →
  (path_key p, x) ∈ keyed [] (leaves v) ↔ path_get p v = Some x ∧ isPlainObject x = false.
Proof.
  intros Hv Hpl Hp Hf. rewrite <- (elem_of_leaves p v x Hv). unfold keyed. rewrite list_elem_of_fmap. cbn [app]. split.
  - intros ([p' y] & E & Hin). apply pair_parts in E as [E1 E]. cbn [fst snd] in E1, E. subst y.
    pose proof (proj1 (elem_of_leaves _ _ _ Hv) Hin) as [Hg Hy]. apply path_key_inj in E1 as ->; [done..| |done|].
    + intros ->. injection Hg as <-. congruence.
    + by destruct (path_get_tree p' v x Hv Hg).
  - intros Hin. by exists (p, x).
Qed.

(** The flat table of a form has the leaves of its tree, by their paths. *)
Lemma flatten_lookup o k x : form_tree (JObj o) →
  obj_get k (flattenValues (JObj o) None []) = Some x ↔ path_get (split k (js ".")) (JObj o) = Some x ∧ isPlainObject x = false.
Proof.
  intros Ht. change None with (parent_key []). rewrite flatten_leaves by (try done; by right).
  assert (∀ y, (k, y) ∈ keyed [] (leaves (JObj o)) ↔ path_get (split k (js ".")) (JObj o) = Some y ∧ isPlainObject y = false) as H.
  { intros y. pose proof (split_nonempty k (js ".")) as Hs. rewrite <- (join_split 46%N k) at 1. split.
    - intros Hin. unfold keyed in Hin. apply list_elem_of_fmap in Hin as ([p' z] & E & Hin). pose proof (f_equal fst E) as E1.
      apply (f_equal snd) in E. cbn [fst snd app] in E1, E. subst z. apply (elem_of_leaves _ _ _ Ht) in Hin as [Hg Hy].
      destruct (path_get_tree p' _ y Ht Hg) as [Hf _]. assert (p' ≠ []) as Hp by (intros ->; injection Hg as <-; done).
      assert (split k (js ".") = p') as ->; [|done]. apply (f_equal (λ s, split s (js "."))) in E1.
      rewrite (path_key_split p') in E1 by done. rewrite <- E1. by rewrite (join_split 46%N k).
    - intros [Hg Hy]. apply elem_of_keyed; try done. by destruct (path_get_tree _ _ _ Ht Hg). }
  destruct (path_get (split k (js ".")) (JObj o)) as [y|] eqn:E.
  - destruct (isPlainObject y) eqn:Ey.
    + rewrite assign_absent; [|intros z Hz; apply H in Hz as [[= ->] Hz]; congruence]. split; [done|]. intros [[= ->] Hy]. congruence.
    + rewrite (assign_agreed k y); [naive_solver| |by apply H]. intros z Hz. apply H in Hz as [[= ->] _]. done.
  - rewrite assign_absent; [|by intros z [Hz _]%H]. split; [done|by intros [? _]].
Qed.

(** ** Touched fields *)












(** ** Submitting *)














(** ** Dots in names *)

Lemma set_segments_cons k k' p x o : set_segments o (k :: k' :: p) x =
  obj_set k (JObj (set_segments (match obj_get k o with Some (JObj o) => o | _ => [] end) (k' :: p) x)) o.
Proof. done. Qed.

Lemma set_segments_same p x o : p ≠ [] → path_get p (JObj (set_segments o p x)) = Some x.
Proof.
  revert o. induction p as [|k [|k' p] IH]; intros o Hp; [done| |]; cbn [set_segments path_get]; rewrite obj_get_set_eq; [done|].
  by apply IH.
Qed.

(** Above the place that was set there are objects. *)
Lemma set_segments_above p q x o : q `prefix_of` p → q ≠ p → ∃ o', path_get q (JObj (set_segments o p x)) = Some (JObj o').
Proof.
  revert q o. induction p as [|k p IH]; intros [|j q] o Hq Hne; [done|by apply prefix_nil_inv in Hq|by eexists|].
  pose proof (prefix_cons_inv_1 _ _ _ _ Hq) as ->. apply prefix_cons_inv_2 in Hq. destruct p as [|k' p].
  - apply prefix_nil_inv in Hq as ->. done.
  - cbn [set_segments path_get]. rewrite obj_get_set_eq. apply IH; [done|congruence].
Qed.

Lemma set_segments_other p q x o : ¬ p `prefix_of` q → ¬ q `prefix_of` p → path_get q (JObj (set_segments o p x)) = path_get q (JObj o).
Proof.
  revert q o. induction p as [|k p IH]; intros [|j q] o Hpq Hqp; try (by destruct Hpq; apply prefix_nil); [by destruct Hqp; apply prefix_nil|].
  destruct (decide (j = k)) as [->|Hne].
  - assert (¬ p `prefix_of` q) as Hpq' by (intros ?; by apply Hpq, prefix_cons). assert (¬ q `prefix_of` p) as Hqp' by (intros ?; by apply Hqp, prefix_cons).
    destruct p as [|k' p]; [by destruct Hpq'; apply prefix_nil|]. rewrite set_segments_cons. cbn [path_get]. rewrite obj_get_set_eq. cbn [mbind option_bind].
    rewrite IH by done. destruct (obj_get k o) as [[]|]; try done; (destruct q; [by destruct Hqp'; apply prefix_nil|done]).
  - destruct p as [|k' p]; cbn [set_segments path_get]; by rewrite obj_get_set_ne.
Qed.

Lemma form_tree_set k v o : form_tree (JObj o) → field_name k → form_tree v → form_tree (JObj (obj_set k v o)).
Proof.
  rewrite !form_tree_obj. intros (Hd & Hn & Hc) Hk Hv. split_and!; [by apply NoDup_keys_set| |].
  - apply Forall_forall. intros j [->|Hj]%elem_of_keys_set; [done|]. rewrite Forall_forall in Hn. by apply Hn.
  - apply Forall_forall. intros [j w] Hj. apply obj_get_in in Hj; [|by apply NoDup_keys_set]. rewrite obj_get_set in Hj.
    destruct (str_eqb j k); [by injection Hj as <-|]. apply obj_get_entry in Hj. rewrite Forall_forall in Hc. by apply (Hc _ Hj).
Qed.

Lemma form_tree_child o k v : form_tree (JObj o) → obj_get k o = Some v → form_tree v.
Proof. rewrite form_tree_obj. intros (_ & _ & Hc) Hk%obj_get_entry. rewrite Forall_forall in Hc. by apply (Hc _ Hk). Qed.

Lemma set_segments_tree p x o : form_tree (JObj o) → Forall field_name p → form_tree x → form_tree (JObj (set_segments o p x)).
Proof.
  intros Ho Hp Hx. revert o Ho. induction Hp as [|k p Hk Hp IH]; intros o Ho; [done|].
  destruct p as [|k' p]; cbn [set_segments]; apply form_tree_set; try done. apply IH.
  destruct (obj_get k o) as [[]|] eqn:E; try (rewrite form_tree_obj; split_and!; [by apply NoDup_nil_2|done..]). by eapply form_tree_child.
Qed.

(** A table of options: names of fields joined by dots, none the beginning of
    another, and no values that are objects. *)
Record option_table (m : obj jsval) : Prop := {
  ot_keys : NoDup (map fst m);
  ot_names : ∀ k v, (k, v) ∈ m → Forall field_name (split k (js "."));
  ot_apart : ∀ k v k' v', (k, v) ∈ m → (k', v') ∈ m → split k (js ".") `prefix_of` split k' (js ".") → k = k';
  ot_values : ∀ k v, (k, v) ∈ m → isPlainObject v = false
}.

(** The tree has the leaves of the table and no other. *)
Definition tree_of (l r : obj jsval) : Prop := form_tree (JObj r) ∧
  ∀ p x, path_get p (JObj r) = Some x ∧ isPlainObject x = false ↔ ∃ k, (k, x) ∈ l ∧ split k (js ".") = p.

Lemma leaf_path_get p v : isPlainObject v = false → p ≠ [] → path_get p v = None.
Proof. destruct p; [done|]. by destruct v. Qed.

Lemma tree_of_set l r k v : tree_of l r → option_table (l ++ [(k, v)]) → tree_of (l ++ [(k, v)]) (set_segments r (split k (js ".")) v).
Proof.
  intros [Ht Hl] [Hd Hn Ha Hv]. assert ((k, v) ∈ l ++ [(k, v)]) as Hin by (rewrite elem_of_app, list_elem_of_singleton; by right).
  pose proof (Hn _ _ Hin) as Hk. pose proof (Hv _ _ Hin) as Hpv. set (p := split k (js ".")) in *.
  assert (p ≠ []) as Hp by apply split_nonempty.
  split; [apply set_segments_tree; try done; by destruct v|]. intros q x.
  assert (∀ k', (k', x) ∈ l ++ [(k, v)] ↔ (k', x) ∈ l ∨ (k' = k ∧ x = v)) as Hadd.
  { intros k'. rewrite elem_of_app, list_elem_of_singleton. split; intros [?|H]; auto; right; [|by destruct H as [-> ->]].
    pose proof (f_equal fst H). by apply (f_equal snd) in H. }
  setoid_rewrite Hadd. destruct (decide (q = p)) as [->|Hqp].
  { rewrite set_segments_same by done. split; [intros [[= <-] _]; exists k; auto|]. intros (k' & [Hk'|[-> ->]] & Ek); [|done].
    apply split_dot_inj in Ek as ->.
    split; [|by eapply Hv; apply Hadd; left]. f_equal. rewrite map_app, NoDup_app in Hd. destruct Hd as (_ & Hd & _).
    destruct (Hd k); [apply list_elem_of_fmap; by exists (k, x)|by left]. }
  assert (∀ k', (k', x) ∈ l → split k' (js ".") = q → q `prefix_of` p ∨ p `prefix_of` q → False) as Hfree.
  { intros k' Hk' <- Hpre. apply Hqp. assert ((k', x) ∈ l ++ [(k, v)]) as Hk2 by (apply Hadd; by left).
    destruct Hpre as [Hpre|Hpre]; [by rewrite (Ha _ _ _ _ Hk2 Hin Hpre)|by rewrite <- (Ha _ _ _ _ Hin Hk2 Hpre)]. }
  destruct (decide (p `prefix_of` q)) as [Hpq|Hpq].
  - split; [|intros (k' & [Hk'|[-> _]] & Ek); [by destruct (Hfree k' Hk' Ek); auto|done]].
    destruct Hpq as [s ->]. assert (s ≠ []) as Hs by (intros ->; by rewrite app_nil_r in Hqp).
    assert (∀ a b w, path_get (a ++ b) w = path_get a w ≫= path_get b) as Happ.
    { intros a b. induction a as [|c a IH]; intros w; [done|]. cbn [app path_get]. destruct w; try done. destruct (obj_get c o); [apply IH|done]. }
    rewrite Happ, set_segments_same by done. cbn [mbind option_bind]. by rewrite leaf_path_get by done; intros [? _].
  - destruct (decide (q `prefix_of` p)) as [Hq|Hq].
    + destruct (set_segments_above p q v r Hq Hqp) as [o' ->]. split; [by intros [[= <-] ?]|].
      intros (k' & [Hk'|[-> _]] & Ek); [by destruct (Hfree k' Hk' Ek); auto|done].
    + rewrite set_segments_other by done. rewrite Hl. split; [intros (k' & ? & ?); exists k'; auto|].
      intros (k' & [Hk'|[-> _]] & Ek); [by exists k'|done].
Qed.

Lemma expand_table m : option_table m →
  expandDotPaths (JObj m) = JObj (fold_left (λ r kv, set_segments r (split kv.1 (js ".")) kv.2) (own_entries m) []).
Proof.
  intros Hm. cbn [expandDotPaths]. f_equal.
  rewrite (own_entries_map (λ v key r, if includes key (js ".") then setDeepValue r key v
    else match v with JObj _ => obj_set key (expandDotPaths v) r | _ => obj_set key v r end)), fold_left_map. cbn [fst snd].
  assert (Forall (λ kv, kv ∈ m) (own_entries m)) as Hall by (apply Forall_forall; intros kv; by rewrite elem_of_own_entries).
  revert Hall. generalize (own_entries m) ([] : obj jsval). induction l as [|[k v] l IH]; intros r Hall; [done|].
  apply Forall_cons in Hall as [Hk Hall]. cbn [fold_left fst snd]. rewrite <- IH by done. f_equal. unfold setDeepValue.
  destruct (includes k (js ".")) eqn:E; [done|].
  assert (split k (js ".") = [k]) as ->.
  { apply (split_no_sep 46%N). intros Hin. apply includes_single in Hin. change (includes k (js ".") = true) in Hin. congruence. }
  pose proof (ot_values _ Hm _ _ Hk). by destruct v.
Qed.

Lemma option_table_prefix l l' : option_table (l ++ l') → option_table l.
Proof.
  intros [Hd Hn Ha Hv]. split.
  - rewrite map_app, NoDup_app in Hd. by destruct Hd.
  - intros k v Hk. apply (Hn k v). rewrite elem_of_app. by left.
  - intros k v k' v' Hk Hk'. apply (Ha k v k' v'); rewrite elem_of_app; by left.
  - intros k v Hk. apply (Hv k v). rewrite elem_of_app. by left.
Qed.

Lemma option_table_perm m m' : m ≡ₚ m' → option_table m → option_table m'.
Proof.
  intros HP [Hd Hn Ha Hv]. split.
  - by rewrite <- HP.
  - intros k v. rewrite <- HP. apply Hn.
  - intros k v k' v'. rewrite <- HP. apply Ha.
  - intros k v. rewrite <- HP. apply Hv.
Qed.

Lemma tree_of_table m : option_table m → tree_of m (fold_left (λ r kv, set_segments r (split kv.1 (js ".")) kv.2) m []).
Proof.
  induction m as [|[k v] m IH] using rev_ind; intros Hm.
  - split; [rewrite form_tree_obj; split_and!; [by apply NoDup_nil_2|done..]|]. intros p x. split.
    + intros [Hg Hx]. destruct p; [injection Hg as <-; done|done].
    + by intros (k & ?%not_elem_of_nil & _).
  - rewrite fold_left_app. cbn [fold_left fst snd]. apply tree_of_set; [|done]. by apply IH, (option_table_prefix m [(k, v)]).
Qed.

(** Dots in the names of options stand for nesting and come back as dots: for
    a table of options none of whose names begins another, flattening the tree a
    form works on gives every option its value, and no other option. *)
Theorem dot_paths_roundtrip m : option_table m → ∀ k, obj_get k (flattenValues (expandDotPaths (JObj m)) None []) = obj_get k m.
Proof.
  intros Hm k. assert (option_table (own_entries m)) as Ho by by eapply option_table_perm; [symmetry; apply own_entries_perm|].
  rewrite (expand_table m Hm). destruct (tree_of_table _ Ho) as [Ht Hl].
  assert (∀ x, obj_get k (flattenValues (JObj (fold_left (λ r kv, set_segments r (split kv.1 (js ".")) kv.2) (own_entries m) [])) None []) = Some x
          ↔ obj_get k m = Some x) as H.
  { intros x. rewrite (flatten_lookup _ k x Ht), Hl. split.
    - intros (k' & Hk & ->%split_dot_inj). rewrite elem_of_own_entries in Hk. apply obj_get_in; [by apply ot_keys|done].
    - intros Hk%obj_get_entry. exists k. by rewrite elem_of_own_entries. }
  destruct (obj_get k (flattenValues _ _ _)) as [y|]; [symmetry; by apply H|]. destruct (obj_get k m) as [x|]; [by apply H|done].
Qed.

(** ** From the form to the server and back *)













(** ** Defects *)

Definition sample_defaults : obj jsval :=
  [(js "QuotaForInviter", JNum (of_Z 0)); (js "TopUpLink", JStr (js "https://pay")); (js "general_setting", JObj [(js "docs_link", JStr [])])].

Definition sample_data : obj jsval :=
  [(js "QuotaForInviter", JNum (of_Z 500)); (js "TopUpLink", JStr (js "https://pay")); (js "general_setting", JObj [(js "docs_link", JStr (js "d"))])].

Definition sample_marks : jsval :=
  JObj [(js "QuotaForInviter", JBool true); (js "general_setting", JObj [(js "docs_link", JBool true)])].

(** Options the server refuses count as saved: the form keeps their values and
    does not offer to send them again. *)
Lemma refused_update_kept :
  handleSubmit None quota_onSubmit (λ _, Refused) sample_marks (JObj sample_data) (mountSettings (JObj sample_defaults)) =
    (Saved, [{| upd_key := js "QuotaForInviter"; upd_value := JNum (of_Z 500) |};
             {| upd_key := js "general_setting.docs_link"; upd_value := JStr (js "d") |}], savedState (JObj sample_data)) ∧
  (handleSubmit None quota_onSubmit (λ _, Refused) sample_marks (JObj sample_data) (savedState (JObj sample_data))).1.1 = NoChanges.
Proof. split; vm_compute; reflexivity. Qed.

(** A rendering with the defaults from before the save shows the old values
    again. *)
Lemma old_defaults_shown :
  sf_values (defaultsChanged (JObj sample_defaults) (savedState (JObj sample_data))) = JObj sample_defaults.
Proof. vm_compute. reflexivity. Qed.

(** A field that holds a list is sent by its elements. *)
Lemma list_sent_by_element :
  map fst (changedFields None (JObj [(js "List", JArr [JBool false; JBool true])]) (JObj [(js "List", JArr [JStr (js "a"); JStr (js "b")])])
             (mountSettings (JObj [(js "List", JArr [JStr (js "a"); JStr (js "c")])]))) = [js "List.1"].
Proof. vm_compute. reflexivity. Qed.

(** ** Witnesses *)






Definition sample_options : obj jsval :=
  [(js "SystemName", JStr (js "Love")); (js "theme.frontend", JStr (js "default")); (js "legal.terms", JStr []); (js "legal.privacy", JBool true)].

Lemma dot_paths_roundtrip_witness :
  obj_get (js "legal.privacy") (flattenValues (expandDotPaths (JObj sample_options)) None []) = Some (JBool true).
Proof.
  rewrite dot_paths_roundtrip; [vm_compute; reflexivity|].
  assert (Forall (λ kv, Forall field_name (split kv.1 (js ".")) ∧ isPlainObject kv.2 = false) sample_options) as Hn
    by (apply (bool_decide_unpack _); vm_compute; exact I).
  assert (Forall (λ k, Forall (λ k', split k (js ".") `prefix_of` split k' (js ".") → k = k') (map fst sample_options)) (map fst sample_options)) as Ha
    by (apply (bool_decide_unpack _); vm_compute; exact I).
  rewrite Forall_forall in Hn. rewrite Forall_forall in Ha. split.
  - apply (bool_decide_unpack _). vm_compute. exact I.
  - intros k v Hk. apply (Hn _ Hk).
  - intros k v k' v' Hk Hk'. specialize (Ha k ltac:(apply list_elem_of_fmap; by exists (k, v))). rewrite Forall_forall in Ha.
    apply Ha. apply list_elem_of_fmap. by exists (k', v').
  - intros k v Hk. apply (Hn _ Hk).
Defined.

