(* ===== verification/NavModules.v ===== *)
(** * Modules of the header and the sidebar

    The administrator decides in the settings which pages the header and the
    sidebar offer (features/system-settings/maintenance/config.ts and its two
    sections).  The choice is stored as a JSON text, which three other places read
    on their own: the links of the header (hooks/use-top-nav-links.ts), the guards
    of the routes (lib/nav-modules.ts, from the status in local storage), and the
    sidebar (Navigation.v). *)

From S2P Require Import Prelude JsNumber JsString JsValue SettingsForm Navigation.

Open Scope nat_scope.

(** ** The settings (config.ts) *)

Record HeaderNavAccessConfig := { ac_enabled : bool; ac_requireAuth : bool }.

Definition access_value (a : HeaderNavAccessConfig) : jsval :=
  JObj [(js "enabled", JBool (ac_enabled a)); (js "requireAuth", JBool (ac_requireAuth a))].

Definition open_access : HeaderNavAccessConfig := {| ac_enabled := true; ac_requireAuth := false |}.

Definition HEADER_NAV_DEFAULT : obj jsval :=
  [(js "home", JBool true); (js "console", JBool true); (js "pricing", access_value open_access); (js "api-doc", JBool true);
   (js "rankings", access_value open_access); (js "docs", JBool true); (js "about", JBool true)].

Abbreviation SidebarModulesAdminConfig := (obj (obj bool)).

Definition switched_on (l : list string) : obj bool := map (λ k, (js_of_string k, true)) l.

Definition SIDEBAR_MODULES_DEFAULT : SidebarModulesAdminConfig :=
  [(js "chat", switched_on ["enabled"; "playground"; "chat"]%string);
   (js "console", switched_on ["enabled"; "detail"; "token"; "log"; "midjourney"; "task"]%string);
   (js "personal", switched_on ["enabled"; "topup"; "personal"]%string);
   (js "admin", switched_on ["enabled"; "channel"; "models"; "redemption"; "user"; "setting"; "subscription"]%string)].

Definition toBoolean (value : jsval) (fallback : bool) : bool :=
  match value with
  | JBool b => b
  | JNum x => n_eq x (of_Z 1)
  | JStr s =>
      let normalized := toLowerCase (trim s) in
      if str_eqb normalized (js "true") || str_eqb normalized (js "1") then true
      else if str_eqb normalized (js "false") || str_eqb normalized (js "0") then false
      else fallback
  | _ => fallback
  end.

Definition parseAccessModule (raw : jsval) (fallback : HeaderNavAccessConfig) : HeaderNavAccessConfig :=
  match raw with
  | JBool _ | JStr _ | JNum _ => {| ac_enabled := toBoolean raw (ac_enabled fallback); ac_requireAuth := ac_requireAuth fallback |}
  | JArr _ | JObj _ =>
      {| ac_enabled := toBoolean (prop "enabled" raw) (ac_enabled fallback);
         ac_requireAuth := toBoolean (prop "requireAuth" raw) (ac_requireAuth fallback) |}
  | JUndef | JNull => fallback
  end.

(** [Object.entries], which throws on null. *)
Definition entries_of (v : jsval) : option (obj jsval) :=
  match v with JUndef | JNull => None | v => Some (own_entries (spread v)) end.

(** One entry of the stored object. *)
Definition header_entry (base result : obj jsval) (kv : jstr * jsval) : obj jsval :=
  let '(key, raw) := kv in
  if str_eqb key (js "pricing") then obj_set key (access_value (parseAccessModule raw open_access)) result
  else if str_eqb key (js "rankings") then obj_set key (access_value (parseAccessModule raw open_access)) result
  else match raw with
       | JBool _ => obj_set key raw result
       | JStr _ | JNum _ => obj_set key (JBool (toBoolean raw (truthy (default JUndef (obj_get key base))))) result
       | _ => result
       end.

Definition parseHeaderNavModules (value : option jstr) : obj jsval :=
  let base := HEADER_NAV_DEFAULT in
  match value with
  | None | Some [] => base
  | Some value =>
      match json_parse value ≫= entries_of with
      | Some entries => fold_left (header_entry base) entries base
      | None => base
      end
  end.

Definition serializeHeaderNavModules (config : obj jsval) : jstr := json_stringify (JObj config).

(** One stored section of the sidebar; what is no object is passed over. *)
Definition sidebar_entry (defaults : SidebarModulesAdminConfig) (result : SidebarModulesAdminConfig) (kv : jstr * jsval) : SidebarModulesAdminConfig :=
  let '(sectionKey, raw) := kv in
  match raw with
  | JArr _ | JObj _ =>
      let defaultSection := default [(js "enabled", true)] (obj_get sectionKey defaults) in
      let sectionConfig := [(js "enabled", toBoolean (prop "enabled" raw) (default true (obj_get (js "enabled") defaultSection)))] in
      obj_set sectionKey
        (fold_left (λ c mv, if str_eqb mv.1 (js "enabled") then c
                            else obj_set mv.1 (toBoolean mv.2 (default true (obj_get mv.1 defaultSection))) c)
           (own_entries (spread raw)) sectionConfig) result
  | _ => result
  end.

(** Sections and modules that are missing get their defaults. *)
Definition sidebar_defaults (result : SidebarModulesAdminConfig) (d : jstr * obj bool) : SidebarModulesAdminConfig :=
  let '(sectionKey, config) := d in
  match obj_get sectionKey result with
  | None => obj_set sectionKey config result
  | Some section =>
      obj_set sectionKey (fold_left (λ s mv, if obj_has mv.1 s then s else obj_set mv.1 mv.2 s) config section) result
  end.

Definition parseSidebarModulesAdmin (value : option jstr) : SidebarModulesAdminConfig :=
  let defaults := SIDEBAR_MODULES_DEFAULT in
  match value with
  | None => defaults
  | Some value =>
      if negb (str_truthy value) || str_eqb (trim value) [] then defaults
      else match json_parse value ≫= entries_of with
           | Some entries => fold_left sidebar_defaults defaults (fold_left (sidebar_entry defaults) entries [])
           | None => defaults
           end
  end.

Definition section_value (s : obj bool) : jsval := JObj (map (λ mv, (mv.1, JBool mv.2)) s).

Definition serializeSidebarModulesAdmin (config : SidebarModulesAdminConfig) : jstr :=
  json_stringify (JObj (map (λ kv, (kv.1, section_value kv.2)) config)).

(** ** The sections *)

Record HeaderNavFormValues := {
  hn_home : bool; hn_console : bool; hn_pricingEnabled : bool; hn_pricingRequireAuth : bool; hn_apiDoc : bool;
  hn_rankingsEnabled : bool; hn_rankingsRequireAuth : bool; hn_docs : bool; hn_about : bool
}.

(** [v === undefined ? d : Boolean(v)] *)
Definition flag_or (v : jsval) (d : bool) : bool := match v with JUndef => d | v => truthy v end.

Definition config_prop (config : obj jsval) (k : string) : jsval := default JUndef (obj_get (js_of_string k) config).

Definition toFormValues (config : obj jsval) : HeaderNavFormValues :=
  {| hn_home := flag_or (config_prop config "home") true;
     hn_console := flag_or (config_prop config "console") true;
     hn_pricingEnabled := flag_or (prop "enabled" (config_prop config "pricing")) true;
     hn_pricingRequireAuth := flag_or (prop "requireAuth" (config_prop config "pricing")) false;
     hn_apiDoc := flag_or (config_prop config "api-doc") true;
     hn_rankingsEnabled := flag_or (prop "enabled" (config_prop config "rankings")) true;
     hn_rankingsRequireAuth := flag_or (prop "requireAuth" (config_prop config "rankings")) false;
     hn_docs := flag_or (config_prop config "docs") true;
     hn_about := flag_or (config_prop config "about") true |}.

(** [{...(v ?? default), enabled, requireAuth}] *)
Definition access_payload (v : jsval) (enabled requireAuth : bool) : jsval :=
  let v := if is_nullish v then access_value open_access else v in
  JObj (obj_assign (spread v) [(js "enabled", JBool enabled); (js "requireAuth", JBool requireAuth)]).

Definition header_payload (config : obj jsval) (values : HeaderNavFormValues) : obj jsval :=
  obj_assign config
    [(js "home", JBool (hn_home values)); (js "console", JBool (hn_console values)); (js "api-doc", JBool (hn_apiDoc values));
     (js "docs", JBool (hn_docs values)); (js "about", JBool (hn_about values));
     (js "pricing", access_payload (config_prop config "pricing") (hn_pricingEnabled values) (hn_pricingRequireAuth values));
     (js "rankings", access_payload (config_prop config "rankings") (hn_rankingsEnabled values) (hn_rankingsRequireAuth values))].

(** The request of a submission, if something changed. *)
Definition header_onSubmit (config : obj jsval) (initialSerialized : jstr) (values : HeaderNavFormValues) : option UpdateOptionRequest :=
  let serialized := serializeHeaderNavModules (header_payload config values) in
  if str_eqb serialized initialSerialized then None
  else Some {| upd_key := js "HeaderNavModules"; upd_value := JStr serialized |}.

Definition sidebar_onSubmit (initialSerialized : jstr) (values : SidebarModulesAdminConfig) : option UpdateOptionRequest :=
  let serialized := serializeSidebarModulesAdmin values in
  if str_eqb serialized initialSerialized then None
  else Some {| upd_key := js "SidebarModulesAdmin"; upd_value := JStr serialized |}.

(** ** The links of the header (use-top-nav-links.ts) *)

Record TopNavLink := { tl_title : jstr; tl_href : jstr; tl_disabled : bool; tl_external : bool }.

Definition DEFAULT_HEADER_NAV_MODULES : obj jsval := HEADER_NAV_DEFAULT.

Definition bool_or (v : jsval) (fallback : bool) : bool := match v with JBool b => b | _ => fallback end.

Definition nav_parseAccessModule (raw : jsval) (fallback : HeaderNavAccessConfig) : HeaderNavAccessConfig :=
  match raw with
  | JBool _ | JStr _ | JNum _ =>
      {| ac_enabled := strict_eq raw (JBool true) || strict_eq raw (JStr (js "true")) || strict_eq raw (JStr (js "1")) ||
                       strict_eq raw (JNum (of_Z 1));
         ac_requireAuth := ac_requireAuth fallback |}
  | JArr _ | JObj _ =>
      {| ac_enabled := bool_or (prop "enabled" raw) (ac_enabled fallback);
         ac_requireAuth := bool_or (prop "requireAuth" raw) (ac_requireAuth fallback) |}
  | JUndef | JNull => fallback
  end.

Record NavModulesRead := { nm_modules : obj jsval; nm_pricing : HeaderNavAccessConfig; nm_rankings : HeaderNavAccessConfig }.

Definition default_nav : NavModulesRead := {| nm_modules := DEFAULT_HEADER_NAV_MODULES; nm_pricing := open_access; nm_rankings := open_access |}.

Definition nav_parseHeaderNavModules (raw : jsval) : NavModulesRead :=
  if negb (truthy raw) || str_eqb (trim (to_string raw)) [] then default_nav
  else match json_parse (to_string raw) with
       | None | Some JNull | Some JUndef => default_nav
       | Some parsed =>
           {| nm_modules := obj_assign DEFAULT_HEADER_NAV_MODULES (spread parsed);
              nm_pricing := nav_parseAccessModule (prop "pricing" parsed) open_access;
              nm_rankings := nav_parseAccessModule (prop "rankings" parsed) open_access |}
       end.

(** [modules?.k !== false] *)
Definition not_off (modules : obj jsval) (k : string) : bool := negb (strict_eq (config_prop modules k) (JBool false)).

Definition link (title href : jstr) : TopNavLink := {| tl_title := title; tl_href := href; tl_disabled := false; tl_external := false |}.

Definition access_link (t : jstr → jstr) (a : HeaderNavAccessConfig) (isAuthed : bool) (title href : string) : list TopNavLink :=
  if ac_enabled a
  then [{| tl_title := t (js_of_string title); tl_href := js_of_string href; tl_disabled := ac_requireAuth a && negb isAuthed; tl_external := false |}]
  else [].

Definition useTopNavLinks (t : jstr → jstr) (status : jsval) (isAuthed : bool) : list TopNavLink :=
  let read := nav_parseHeaderNavModules (prop "HeaderNavModules" status) in
  let modules := nm_modules read in
  let docsLink := prop "docs_link" status in
  (if not_off modules "home" then [link (t (js "Home")) (js "/")] else []) ++
  (if not_off modules "console" then [link (t (js "Console")) (js "/dashboard")] else []) ++
  access_link t (nm_pricing read) isAuthed "Model Square" "/pricing" ++
  (if not_off modules "api-doc" then [link (t (js "API Documentation")) (js "/api-doc")] else []) ++
  access_link t (nm_rankings read) isAuthed "Rankings" "/rankings" ++
  (if not_off modules "docs"
   then [if truthy docsLink then {| tl_title := t (js "Docs"); tl_href := to_string docsLink; tl_disabled := false; tl_external := true |}
         else link (t (js "Docs")) (js "/docs")]
   else []) ++
  (if not_off modules "about" then [link (t (js "About")) (js "/about")] else []).

(** ** The guards (lib/nav-modules.ts) *)

Definition parseAccess (raw : jsval) (fallback : HeaderNavAccessConfig) : HeaderNavAccessConfig :=
  match raw with
  | JBool b => {| ac_enabled := b; ac_requireAuth := ac_requireAuth fallback |}
  | JArr _ | JObj _ =>
      {| ac_enabled := bool_or (prop "enabled" raw) (ac_enabled fallback);
         ac_requireAuth := bool_or (prop "requireAuth" raw) (ac_requireAuth fallback) |}
  | _ => fallback
  end.

(** The item of local storage that holds the status. *)
Definition getCachedStatus (item : option jstr) : jsval :=
  match item with
  | None | Some [] => JNull
  | Some raw => default JNull (json_parse raw)
  end.

(** The stored text of an option of the status, parsed; [None] where there is
    none or where it does not parse to something that can be read. *)
Definition status_option (item : option jstr) (k : string) : option jsval :=
  let status := getCachedStatus item in
  let raw := prop k status in
  if negb (truthy status) || negb (truthy raw) || str_eqb (trim (to_string raw)) [] then None
  else match json_parse (to_string raw) with
       | None | Some JNull | Some JUndef => None
       | Some parsed => Some parsed
       end.

Definition getModuleAccess (item : option jstr) (module : string) : HeaderNavAccessConfig :=
  match status_option item "HeaderNavModules" with
  | None => open_access
  | Some parsed => parseAccess (prop module parsed) open_access
  end.

Definition isSidebarModuleEnabled (item : option jstr) (section module : string) : bool :=
  match status_option item "SidebarModulesAdmin" with
  | None => true
  | Some parsed =>
      let sectionConfig := prop section parsed in
      if negb (truthy sectionConfig) then true
      else if strict_eq (prop "enabled" sectionConfig) (JBool false) then false
      else negb (strict_eq (prop module sectionConfig) (JBool false))
  end.

(** What the routes of the rankings and of the playground do first. *)
Inductive Admission := Enter | RedirectTo (to : jstr).

Definition rankings_beforeLoad (item : option jstr) (user : bool) : Admission :=
  let access := getModuleAccess item "rankings" in
  if negb (ac_enabled access) then RedirectTo (js "/")
  else if ac_requireAuth access && negb user then RedirectTo (js "/sign-in")
  else Enter.

Definition playground_beforeLoad (item : option jstr) : Admission :=
  if negb (isSidebarModuleEnabled item "chat" "playground") then RedirectTo (js "/dashboard") else Enter.
