(* ===== verification/NavModulesFacts.v ===== *)
(** * Modules of the header and the sidebar: the readers agree

    What the administrator saves is read back by the settings and followed by the
    links, the guards and the sidebar, though each parses the stored text on its
    own.  For texts the console did not write itself they can disagree. *)

From S2P Require Import Prelude JsNumber JsString JsValue JsonFacts JsonRoundtrip SettingsForm SettingsFormFacts Navigation NavigationFacts NavModules.

Open Scope nat_scope.

(** ** The configuration of the header *)

Definition access_key (k : jstr) : bool := str_eqb k (js "pricing") || str_eqb k (js "rankings").

Definition header_value (k : jstr) (v : jsval) : Prop :=
  if access_key k then ∃ a, v = access_value a else ∃ b, v = JBool b.

(** Every entry is a switch, or an access for the two pages that have one. *)
Record header_config (c : obj jsval) : Prop := {
  hc_keys : NoDup (map fst c); hc_values : Forall (λ kv, header_value kv.1 kv.2) c;
  hc_pricing : is_Some (obj_get (js "pricing") c); hc_rankings : is_Some (obj_get (js "rankings") c)
}.

Lemma header_config_set k v c : header_value k v → header_config c → header_config (obj_set k v c).
Proof.
  intros Hv [Hd Hvs Hp Hr]. split.
  - by apply NoDup_keys_set.
  - apply Forall_forall. intros [j w] Hj. apply obj_get_in in Hj; [|by apply NoDup_keys_set]. rewrite obj_get_set in Hj. cbn [fst snd].
    destruct (str_eqb j k) eqn:E; [apply str_eqb_eq in E as ->; by injection Hj as <-|]. apply obj_get_entry in Hj.
    rewrite Forall_forall in Hvs. by apply (Hvs _ Hj).
  - rewrite obj_get_set. by destruct (str_eqb (js "pricing") k).
  - rewrite obj_get_set. by destruct (str_eqb (js "rankings") k).
Qed.

Lemma header_config_assign l c : Forall (λ kv, header_value kv.1 kv.2) l → header_config c → header_config (obj_assign c l).
Proof.
  intros Hl. revert c. induction Hl as [|kv l Hk _ IH]; intros c Hc; [done|]. unfold obj_assign. cbn [fold_left]. apply IH. by apply header_config_set.
Qed.

Lemma default_header_ok : header_config HEADER_NAV_DEFAULT.
Proof.
  split; [apply (bool_decide_unpack _); vm_compute; exact I| |by eexists|by eexists].
  repeat (apply Forall_cons; split; [unfold header_value; cbn [fst snd];
    match goal with |- if ?b then _ else _ => let x := eval vm_compute in b in change b with x end; cbv iota; by eexists|]). by apply Forall_nil.
Qed.

Lemma header_entry_ok base c kv : header_config c → header_config (header_entry base c kv).
Proof.
  intros Hc. destruct kv as [k raw]. unfold header_entry.
  destruct (str_eqb k (js "pricing")) eqn:Ep; [apply header_config_set; [|done]; unfold header_value, access_key; rewrite Ep; by eexists|].
  destruct (str_eqb k (js "rankings")) eqn:Er; [apply header_config_set; [|done]; unfold header_value, access_key; rewrite Ep, Er; by eexists|].
  destruct raw; try done; (apply header_config_set; [|done]); unfold header_value, access_key; rewrite Ep, Er; by eexists.
Qed.

Lemma parse_header_ok value : header_config (parseHeaderNavModules value).
Proof.
  unfold parseHeaderNavModules. destruct value as [[|c s]|]; try apply default_header_ok.
  destruct (json_parse (c :: s) ≫= entries_of) as [l|]; [|apply default_header_ok].
  generalize default_header_ok. generalize HEADER_NAV_DEFAULT at 1 3. induction l as [|kv l IH]; intros c' Hc; [done|].
  cbn [fold_left]. apply IH. by apply header_entry_ok.
Qed.

Lemma access_payload_value a e r : access_payload (access_value a) e r = access_value {| ac_enabled := e; ac_requireAuth := r |}.
Proof. by vm_compute. Qed.

Lemma config_access c k a : header_config c → access_key (js_of_string k) = true → is_Some (obj_get (js_of_string k) c) →
  ∀ e r, a = {| ac_enabled := e; ac_requireAuth := r |} → access_payload (config_prop c k) e r = access_value a.
Proof.
  intros Hc Hk [v Hv] e r ->. unfold config_prop. rewrite Hv. cbn [from_option id]. pose proof (hc_values _ Hc) as Hvs. rewrite Forall_forall in Hvs.
  pose proof (Hvs _ (obj_get_entry _ _ _ Hv)) as H. unfold header_value in H. cbn [fst snd] in H. rewrite Hk in H. destruct H as [b ->].
  apply access_payload_value.
Qed.

(** What the form asks for, entry by entry. *)
Definition form_entries (f : HeaderNavFormValues) : obj jsval :=
  [(js "home", JBool (hn_home f)); (js "console", JBool (hn_console f)); (js "api-doc", JBool (hn_apiDoc f));
   (js "docs", JBool (hn_docs f)); (js "about", JBool (hn_about f));
   (js "pricing", access_value {| ac_enabled := hn_pricingEnabled f; ac_requireAuth := hn_pricingRequireAuth f |});
   (js "rankings", access_value {| ac_enabled := hn_rankingsEnabled f; ac_requireAuth := hn_rankingsRequireAuth f |})].

Lemma header_payload_entries c f : header_config c → header_payload c f = obj_assign c (form_entries f).
Proof.
  intros Hc. unfold header_payload, form_entries.
  by rewrite (config_access c "pricing" _ Hc eq_refl (hc_pricing _ Hc) _ _ eq_refl), (config_access c "rankings" _ Hc eq_refl (hc_rankings _ Hc) _ _ eq_refl).
Qed.

Lemma form_entries_ok f : Forall (λ kv, header_value kv.1 kv.2) (form_entries f) ∧ NoDup (map fst (form_entries f)).
Proof.
  split; [|unfold form_entries; cbn [map fst]; apply (bool_decide_unpack _); vm_compute; exact I].
  repeat (apply Forall_cons; split; [unfold header_value; cbn [fst snd];
    match goal with |- if ?b then _ else _ => let x := eval vm_compute in b in change b with x end; cbv iota; by eexists|]). by apply Forall_nil.
Qed.

(** ** The stored text *)

Lemma keys_assign {V} k (l r : obj V) : k ∈ map fst (obj_assign r l) → k ∈ map fst r ∨ k ∈ map fst l.
Proof.
  revert r. induction l as [|[j v] l IH]; intros r; [by left|]. unfold obj_assign. cbn [fold_left fst snd map]. intros H. apply IH in H as [H|H].
  - apply elem_of_keys_set in H as [->|H]; [right; by left|by left].
  - right. by right.
Qed.

Lemma header_value_expressible k v : header_value k v → expressible v.
Proof.
  unfold header_value. destruct (access_key k); [|by intros [b ->]]. intros [[e r] ->]. apply expressible_obj. cbn [ac_enabled ac_requireAuth].
  split_and!; [destruct e, r; vm_compute; reflexivity|apply (bool_decide_unpack _); vm_compute; exact I|].
  repeat (apply Forall_cons; split; [split; [apply (bool_decide_unpack _); vm_compute; exact I|done]|]). by apply Forall_nil.
Qed.

Section HeaderText.
Context (config : obj jsval) (f : HeaderNavFormValues).
Hypothesis Hconfig : header_config config.
Hypothesis Hnames : Forall utf16_ok (map fst config).

Let P := header_payload config f.
Let T := serializeHeaderNavModules P.

Lemma payload_ok : header_config P.
Proof. subst P. rewrite header_payload_entries by done. apply header_config_assign; [apply form_entries_ok|done]. Qed.

Lemma payload_get k : obj_get k P = match obj_get k (form_entries f) with Some v => Some v | None => obj_get k config end.
Proof. subst P. rewrite header_payload_entries by done. apply obj_get_assign, form_entries_ok. Qed.

Lemma payload_names : Forall utf16_ok (map fst P).
Proof.
  subst P. rewrite header_payload_entries by done. apply Forall_forall. intros k [Hk|Hk]%keys_assign.
  - rewrite Forall_forall in Hnames. by apply Hnames.
  - revert k Hk. apply Forall_forall. unfold form_entries. cbn [map fst]. apply (bool_decide_unpack _). vm_compute. exact I.
Qed.

Lemma header_text_parsed : json_parse T = Some (JObj (own_entries P)).
Proof.
  apply json_object_roundtrip; [apply payload_ok|]. apply Forall_forall. intros [k v] Hk. pose proof (hc_values _ payload_ok) as Hv.
  pose proof payload_names as Hn. rewrite Forall_forall in Hv. rewrite Forall_forall in Hn. cbn [fst snd]. split.
  - apply Hn, list_elem_of_fmap. by exists (k, v).
  - by eapply header_value_expressible, (Hv _ Hk).
Qed.

Lemma header_entry_same base r k v : header_value k v → header_entry base r (k, v) = obj_set k v r.
Proof.
  unfold header_value, access_key, header_entry. destruct (str_eqb k (js "pricing")); cbn [orb].
  - intros [[e q] ->]. do 2 f_equal.
  - destruct (str_eqb k (js "rankings")); [|by intros [b ->]]. intros [[e q] ->]. do 2 f_equal.
Qed.

Lemma header_read_back k : obj_get k (parseHeaderNavModules (Some T)) =
  match obj_get k P with Some v => Some v | None => obj_get k HEADER_NAV_DEFAULT end.
Proof.
  unfold parseHeaderNavModules. pose proof header_text_parsed as Hp. destruct (json_object_text P) as [t Ht]. fold (serializeHeaderNavModules P) in Ht.
  fold T in Ht. rewrite Ht in *. rewrite Hp. cbn [mbind option_bind entries_of spread]. rewrite own_entries_idemp.
  assert (∀ l r, Forall (λ kv, header_value kv.1 kv.2) l → fold_left (header_entry HEADER_NAV_DEFAULT) l r = obj_assign r l) as ->.
  { intros l r Hl. revert r. induction Hl as [|[j v] l Hj _ IH]; intros r; [done|]. unfold obj_assign. cbn [fold_left fst snd].
    rewrite header_entry_same by done. apply IH. }
  - rewrite obj_get_assign by (apply own_keys_NoDup, payload_ok). by rewrite obj_get_own by apply payload_ok.
  - rewrite own_entries_perm. apply payload_ok.
Qed.

(** The text as an option of the status. *)
Lemma header_text_option status k : expressible (JObj status) → obj_get (js_of_string k) status = Some (JStr T) →
  status_option (Some (json_stringify (JObj status))) k = Some (JObj (own_entries P)).
Proof.
  intros Hs Hk. unfold status_option, getCachedStatus. destruct (json_roundtrip _ Hs) as [Hp _]. destruct (json_object_text status) as [t Ht].
  rewrite Ht in *. rewrite Hp. cbn [from_option id truthy negb orb prop]. rewrite Hk. cbn [from_option id truthy to_string].
  pose proof header_text_parsed as Hp'. destruct (json_object_text P) as [u Hu]. fold (serializeHeaderNavModules P) in Hu. fold T in Hu.
  assert (trim T ≠ []) as Ht' by (rewrite Hu; by apply trim_not_blank).
  assert (str_truthy T = true) as -> by by rewrite Hu. cbn [negb orb]. unfold str_eqb. rewrite bool_decide_eq_false_2 by done. by rewrite Hp'.
Qed.

Lemma own_prop k : prop k (JObj (own_entries P)) = default JUndef (obj_get (js_of_string k) P).
Proof. cbn [prop]. by rewrite obj_get_own by apply payload_ok. Qed.

Lemma header_text_links status : obj_get (js "HeaderNavModules") status = Some (JStr T) →
  nav_parseHeaderNavModules (prop "HeaderNavModules" (JObj status)) =
  {| nm_modules := obj_assign DEFAULT_HEADER_NAV_MODULES (own_entries P);
     nm_pricing := {| ac_enabled := hn_pricingEnabled f; ac_requireAuth := hn_pricingRequireAuth f |};
     nm_rankings := {| ac_enabled := hn_rankingsEnabled f; ac_requireAuth := hn_rankingsRequireAuth f |} |}.
Proof.
  intros Hk. cbn [prop]. change (js_of_string "HeaderNavModules") with (js "HeaderNavModules"). rewrite Hk. cbn [from_option id].
  unfold nav_parseHeaderNavModules. cbn [truthy to_string].
  pose proof header_text_parsed as Hp'. destruct (json_object_text P) as [u Hu]. fold (serializeHeaderNavModules P) in Hu. fold T in Hu.
  assert (trim T ≠ []) as Ht' by (rewrite Hu; by apply trim_not_blank).
  assert (str_truthy T = true) as -> by by rewrite Hu. cbn [negb orb]. unfold str_eqb at 1. rewrite bool_decide_eq_false_2 by done. rewrite Hp'.
  cbn [spread]. f_equal; rewrite own_prop, payload_get; reflexivity.
Qed.
End HeaderText.

(** The pages of the header with whether their links are disabled, as the form
    of the settings says. *)
Definition offered (f : HeaderNavFormValues) (docs : jstr) (isAuthed : bool) : list (jstr * bool) :=
  (if hn_home f then [(js "/", false)] else []) ++
  (if hn_console f then [(js "/dashboard", false)] else []) ++
  (if hn_pricingEnabled f then [(js "/pricing", hn_pricingRequireAuth f && negb isAuthed)] else []) ++
  (if hn_apiDoc f then [(js "/api-doc", false)] else []) ++
  (if hn_rankingsEnabled f then [(js "/rankings", hn_rankingsRequireAuth f && negb isAuthed)] else []) ++
  (if hn_docs f then [(docs, false)] else []) ++
  (if hn_about f then [(js "/about", false)] else []).

Definition docs_page (status : obj jsval) : jstr :=
  let v := default JUndef (obj_get (js "docs_link") status) in if truthy v then to_string v else js "/docs".

Lemma nav_switch config f k b : header_config config → obj_get (js_of_string k) (form_entries f) = Some (JBool b) →
  not_off (obj_assign DEFAULT_HEADER_NAV_MODULES (own_entries (header_payload config f))) k = b.
Proof.
  intros Hc Hk. unfold not_off, config_prop. pose proof (payload_ok config f Hc) as Hp.
  rewrite obj_get_assign by (apply own_keys_NoDup, Hp). rewrite obj_get_own by apply Hp. rewrite (payload_get config f Hc), Hk. by destruct b.
Qed.

Lemma form_read_back config f : header_config config → Forall utf16_ok (map fst config) →
  toFormValues (parseHeaderNavModules (Some (serializeHeaderNavModules (header_payload config f)))) = f.
Proof.
  intros Hc Hn. assert (∀ k v, obj_get (js_of_string k) (form_entries f) = Some v →
    config_prop (parseHeaderNavModules (Some (serializeHeaderNavModules (header_payload config f)))) k = v) as H.
  { intros k v Hk. unfold config_prop. by rewrite (header_read_back config f Hc Hn), (payload_get config f Hc), Hk. }
  unfold toFormValues. rewrite (H "home"%string (JBool (hn_home f))), (H "console"%string (JBool (hn_console f))), (H "api-doc"%string (JBool (hn_apiDoc f))),
    (H "docs"%string (JBool (hn_docs f))), (H "about"%string (JBool (hn_about f))),
    (H "pricing"%string (access_value {| ac_enabled := hn_pricingEnabled f; ac_requireAuth := hn_pricingRequireAuth f |})),
    (H "rankings"%string (access_value {| ac_enabled := hn_rankingsEnabled f; ac_requireAuth := hn_rankingsRequireAuth f |})) by reflexivity.
  by destruct f.
Qed.

Lemma guard_access config f status k a : header_config config → Forall utf16_ok (map fst config) → expressible (JObj status) →
  obj_get (js "HeaderNavModules") status = Some (JStr (serializeHeaderNavModules (header_payload config f))) →
  obj_get (js_of_string k) (form_entries f) = Some (access_value a) → getModuleAccess (Some (json_stringify (JObj status))) k = a.
Proof.
  intros Hc Hn Hs Hk Ha. unfold getModuleAccess. rewrite (header_text_option config f Hc Hn status "HeaderNavModules" Hs Hk).
  rewrite (own_prop config f Hc), (payload_get config f Hc), Ha. by destruct a.
Qed.

(** Who may enter a page with this access. *)
Lemma admission (enabled requireAuth user : bool) :
  (if negb enabled then RedirectTo (js "/") else if requireAuth && negb user then RedirectTo (js "/sign-in") else Enter) = Enter ↔
  enabled = true ∧ (requireAuth = true → user = true).
Proof. destruct enabled; cbn [negb]; [|split; [discriminate|by intros [? _]]]. destruct requireAuth, user; cbn [andb negb]; split; try done; try discriminate; intros [_ H]; by specialize (H eq_refl). Qed.

(** C15. The header follows its settings: the text the administrator saves, from
    whatever was stored before, is shown again by the form; once the status
    carries it, the header offers exactly the pages that are switched on, with
    links disabled where a login is asked for and missing; and the guard of the
    rankings lets in exactly whom the settings let in. *)
Theorem header_nav_respected value f status t isAuthed :
  let config := parseHeaderNavModules value in
  let text := serializeHeaderNavModules (header_payload config f) in
  let item := Some (json_stringify (JObj status)) in
  Forall utf16_ok (map fst config) → expressible (JObj status) → obj_get (js "HeaderNavModules") status = Some (JStr text) →
  toFormValues (parseHeaderNavModules (Some text)) = f ∧
  map (λ l, (tl_href l, tl_disabled l)) (useTopNavLinks t (JObj status) isAuthed) = offered f (docs_page status) isAuthed ∧
  (rankings_beforeLoad item isAuthed = Enter ↔ hn_rankingsEnabled f = true ∧ (hn_rankingsRequireAuth f = true → isAuthed = true)) ∧
  getModuleAccess item "pricing" = {| ac_enabled := hn_pricingEnabled f; ac_requireAuth := hn_pricingRequireAuth f |}.
Proof.
  intros config text item Hn Hs Hk. pose proof (parse_header_ok value) as Hc. fold config in Hc. split_and!.
  - by apply form_read_back.
  - unfold useTopNavLinks. rewrite (header_text_links config f Hc Hn status Hk). cbn [nm_modules nm_pricing nm_rankings].
    rewrite (nav_switch config f "home" _ Hc eq_refl), (nav_switch config f "console" _ Hc eq_refl), (nav_switch config f "api-doc" _ Hc eq_refl),
      (nav_switch config f "docs" _ Hc eq_refl), (nav_switch config f "about" _ Hc eq_refl).
    unfold offered, docs_page, access_link. cbn [prop ac_enabled ac_requireAuth]. change (js_of_string "docs_link") with (js "docs_link").
    rewrite !map_app. repeat f_equal; case_match; try done. cbn [map]. by destruct (truthy _).
  - unfold rankings_beforeLoad, item.
    rewrite (guard_access config f status "rankings" {| ac_enabled := hn_rankingsEnabled f; ac_requireAuth := hn_rankingsRequireAuth f |} Hc Hn Hs Hk eq_refl).
    apply admission.
  - by apply (guard_access config f).
Qed.

(** ** The sidebar *)

(** Names of sections and modules; no module has the name of an index. *)
Record sidebar_config (c : SidebarModulesAdminConfig) : Prop := {
  sc_keys : NoDup (map fst c); sc_names : Forall utf16_ok (map fst c);
  sc_sections : Forall (λ kv, NoDup (map fst kv.2) ∧ Forall (λ k, utf16_ok k ∧ array_index k = None) (map fst kv.2)) c
}.

Lemma obj_get_map {V W} (g : V → W) k (o : obj V) : obj_get k (map (λ kv, (kv.1, g kv.2)) o) = g <$> obj_get k o.
Proof. induction o as [|[j v] o IH]; [done|]. cbn [map obj_get fst snd]. by destruct (str_eqb k j). Qed.

Lemma map_fst_values {V W} (g : V → W) (o : obj V) : map fst (map (λ kv, (kv.1, g kv.2)) o) = map fst o.
Proof. rewrite map_map. done. Qed.

Section SidebarText.
Context (c : SidebarModulesAdminConfig).
Hypothesis Hc : sidebar_config c.

Let V : obj jsval := map (λ kv, (kv.1, section_value kv.2)) c.
Let T := serializeSidebarModulesAdmin c.

Lemma sidebar_section k s : obj_get k c = Some s → NoDup (map fst s) ∧ Forall (λ k, utf16_ok k ∧ array_index k = None) (map fst s).
Proof. intros Hk%obj_get_entry. destruct Hc as [_ _ Hs]. rewrite Forall_forall in Hs. by apply (Hs _ Hk). Qed.

Lemma sidebar_text_parsed : json_parse T = Some (JObj (own_entries V)).
Proof.
  apply json_object_roundtrip.
  - unfold V. rewrite map_fst_values. apply Hc.
  - unfold V. apply Forall_map. destruct Hc as [_ Hn Hs]. rewrite Forall_map in Hn. apply Forall_forall. intros [k s] Hk.
    rewrite Forall_forall in Hn. rewrite Forall_forall in Hs. cbn [fst snd]. split; [by apply (Hn _ Hk)|].
    destruct (Hs _ Hk) as [Hd Hm]. cbn [fst snd] in Hd, Hm. apply expressible_obj. split_and!.
    + apply own_entries_names. rewrite map_fst_values. eapply Forall_impl; [exact Hm|]. by intros ? [].
    + by rewrite map_fst_values.
    + apply Forall_map. rewrite Forall_map in Hm. eapply Forall_impl; [exact Hm|]. intros kv [Hu _]. by split.
Qed.

Lemma sidebar_text_option status : expressible (JObj status) → obj_get (js "SidebarModulesAdmin") status = Some (JStr T) →
  status_option (Some (json_stringify (JObj status))) "SidebarModulesAdmin" = Some (JObj (own_entries V)).
Proof.
  intros Hs Hk. unfold status_option, getCachedStatus. destruct (json_roundtrip _ Hs) as [Hp _]. destruct (json_object_text status) as [t Ht].
  rewrite Ht in *. rewrite Hp. cbn [from_option id truthy negb orb prop]. change (js_of_string "SidebarModulesAdmin") with (js "SidebarModulesAdmin").
  rewrite Hk. cbn [from_option id truthy to_string]. destruct (json_object_text V) as [u Hu]. change (json_stringify (JObj V)) with T in Hu.
  assert (trim T ≠ []) as Ht' by (rewrite Hu; by apply trim_not_blank).
  assert (str_truthy T = true) as -> by by rewrite Hu. cbn [negb orb]. unfold str_eqb. rewrite bool_decide_eq_false_2 by done. by rewrite sidebar_text_parsed.
Qed.

Lemma section_stored k : prop k (JObj (own_entries V)) = match obj_get (js_of_string k) c with Some s => section_value s | None => JUndef end.
Proof.
  cbn [prop]. rewrite obj_get_own by (unfold V; rewrite map_fst_values; apply Hc). unfold V. rewrite (obj_get_map section_value).
  by destruct (obj_get _ c).
Qed.

Lemma module_stored k s : prop k (section_value s) = match obj_get (js_of_string k) s with Some b => JBool b | None => JUndef end.
Proof. cbn [prop section_value]. rewrite (obj_get_map JBool). by destruct (obj_get _ s). Qed.

(** Whether the settings leave a module on: it is where nothing says otherwise. *)
Definition allowed (section module : string) : bool :=
  match obj_get (js_of_string section) c with
  | None => true
  | Some s => default true (obj_get (js "enabled") s) && default true (obj_get (js_of_string module) s)
  end.

Lemma guard_allowed status section module : expressible (JObj status) → obj_get (js "SidebarModulesAdmin") status = Some (JStr T) →
  isSidebarModuleEnabled (Some (json_stringify (JObj status))) section module = allowed section module.
Proof.
  intros Hs Hk. unfold isSidebarModuleEnabled, allowed. rewrite sidebar_text_option by done. rewrite section_stored.
  destruct (obj_get (js_of_string section) c) as [s|]; [|done]. cbn [truthy section_value negb]. fold (section_value s). rewrite !module_stored.
  change (js_of_string "enabled") with (js "enabled"). by destruct (obj_get (js "enabled") s) as [[]|], (obj_get (js_of_string module) s) as [[]|].
Qed.

(** The section of the sidebar, merged with its default. *)
Definition merged_section (d e : jsval) : jsval :=
  if negb (truthy e) then JObj (spread d) else JObj (default_modules (spread d) (obj_assign (spread d) (spread e))).

Lemma merge_get D m k : NoDup (map fst D) → obj_get k (fold_left merge_section D m) =
  match obj_get k D with None => obj_get k m | Some d => Some (merged_section d (default JUndef (obj_get k m))) end.
Proof.
  revert m. induction D as [|[j d] D IH]; intros m Hd; [done|]. cbn [map fst] in Hd. apply NoDup_cons in Hd as [Hj Hd].
  cbn [fold_left obj_get]. rewrite IH by done.
  assert (obj_get k (merge_section m (j, d)) = if str_eqb k j then Some (merged_section d (default JUndef (obj_get j m))) else obj_get k m) as E.
  { cbn [merge_section]. unfold merged_section. destruct (truthy _); cbn [negb]; by rewrite obj_get_set. }
  rewrite E. destruct (str_eqb k j) eqn:Ek; [|done]. apply str_eqb_eq in Ek as ->.
  destruct (obj_get j D) as [d'|] eqn:E'; [|done]. by destruct Hj; apply obj_get_key in E'.
Qed.

Lemma default_modules_same defs sec : Forall (λ d, ∃ b, obj_get d.1 sec = Some (JBool b)) defs → default_modules defs sec = sec.
Proof.
  unfold default_modules. induction 1 as [|d defs [b Hb] _ IH]; [done|]. cbn [fold_left]. by rewrite Hb.
Qed.

Lemma merged_module names s module : js_of_string module ∈ map js_of_string names → NoDup (map fst s) → 
  prop module (merged_section (flags names) (section_value s)) = JBool (default true (obj_get (js_of_string module) s)).
Proof.
  intros Hm Hd. unfold merged_section. cbn [truthy section_value negb spread flags].
  assert (∀ k, k ∈ map js_of_string names → obj_get k (obj_assign (map (λ k, (js_of_string k, JBool true)) names) (map (λ mv, (mv.1, JBool mv.2)) s)) =
    Some (JBool (default true (obj_get k s)))) as H.
  { intros k Hk. rewrite obj_get_assign by by rewrite map_fst_values. rewrite (obj_get_map JBool). destruct (obj_get k s); [done|]. cbn [fmap option_fmap option_map from_option].
    clear -Hk. induction names as [|n names IH]; [by apply elem_of_nil in Hk|]. cbn [map obj_get]. destruct (str_eqb k (js_of_string n)) eqn:E; [done|].
    cbn [map] in Hk. apply elem_of_cons in Hk as [->|Hk]; [by rewrite str_eqb_refl in E|by apply IH]. }
  rewrite default_modules_same.
  - cbn [prop]. by rewrite H.
  - apply Forall_map, Forall_forall. intros n Hn. cbn [fst]. eexists. apply H. apply list_elem_of_fmap. by exists n.
Qed.

Lemma default_section k d : obj_get k SIDEBAR_MODULES_DEFAULT = Some d →
  ∃ names, obj_get k DEFAULT_SIDEBAR_MODULES = Some (flags names) ∧ map fst d = map js_of_string names ∧ js "enabled" ∈ map js_of_string names.
Proof.
  assert (DEFAULT_SIDEBAR_MODULES = map (λ kv, (kv.1, section_value kv.2)) SIDEBAR_MODULES_DEFAULT) as -> by reflexivity.
  intros Hk. rewrite (obj_get_map section_value), Hk. apply obj_get_entry in Hk. unfold SIDEBAR_MODULES_DEFAULT in Hk.
  rewrite !elem_of_cons, elem_of_nil in Hk. destruct Hk as [H|[H|[H|[H|[]]]]]; apply pair_parts in H as [_ ->];
    unfold switched_on; (eexists; split; [unfold flags, section_value; cbn [fmap option_fmap option_map]; rewrite map_map; reflexivity|]);
    (split; [by rewrite map_map|by left]).
Qed.

Lemma sidebar_allowed section module d : obj_get (js_of_string section) SIDEBAR_MODULES_DEFAULT = Some d → js_of_string module ∈ map fst d →
  module_enabled section module (parseSidebarConfig (Some T)) None = allowed section module.
Proof.
  intros Hd Hm. destruct (default_section _ _ Hd) as (names & Hn & Hf & He). rewrite Hf in Hm.
  unfold parseSidebarConfig. destruct (json_object_text V) as [u Hu]. change (json_stringify (JObj V)) with T in Hu.
  assert (trim T ≠ []) as Ht' by (rewrite Hu; by apply trim_not_blank).
  assert (str_truthy T = true) as -> by by rewrite Hu. cbn [negb orb]. unfold str_eqb. rewrite bool_decide_eq_false_2 by done. rewrite sidebar_text_parsed.
  unfold mergeWithDefaultSidebarModules, module_enabled. cbn [spread].
  rewrite merge_get by (apply (bool_decide_unpack _); vm_compute; exact I). rewrite Hn. cbn [from_option id].
  rewrite obj_get_own by (unfold V; rewrite map_fst_values; apply Hc). unfold V. rewrite (obj_get_map section_value). unfold allowed.
  destruct (obj_get (js_of_string section) c) as [s|] eqn:Es; cbn [fmap option_fmap option_map from_option id].
  - destruct (sidebar_section _ _ Es) as [Hs _]. rewrite (merged_module names s "enabled" He Hs), (merged_module names s module Hm Hs).
    change (js_of_string "enabled") with (js "enabled").
    by destruct (default true (obj_get (js "enabled") s)), (default true (obj_get (js_of_string module) s)).
  - assert (∀ m, js_of_string m ∈ map js_of_string names → prop m (merged_section (flags names) JUndef) = JBool true) as H.
    { intros m Hk. assert (merged_section (flags names) JUndef = flags names) as -> by done. cbn [prop flags].
      destruct (obj_get (js_of_string m) (map (λ k, (js_of_string k, JBool true)) names)) as [v|] eqn:E.
      - apply obj_get_entry, list_elem_of_fmap in E as (k & E & _). by apply pair_parts in E as [_ ->].
      - exfalso. clear -Hk E. induction names as [|n names IH]; [by apply elem_of_nil in Hk|]. cbn [map obj_get] in E, Hk.
        destruct (str_eqb (js_of_string m) (js_of_string n)) eqn:En; [done|]. apply elem_of_cons in Hk as [Hk|Hk]; [|by apply IH].
        rewrite Hk, str_eqb_refl in En. done. }
    by rewrite (H "enabled"%string He), (H module Hm).
Qed.

(** *** Reading the settings back *)

(** A section as the settings rebuild it. *)
Definition rebuilt (k : jstr) (raw : jsval) : obj bool :=
  let defaultSection := default [(js "enabled", true)] (obj_get k SIDEBAR_MODULES_DEFAULT) in
  fold_left (λ c mv, if str_eqb mv.1 (js "enabled") then c else obj_set mv.1 (toBoolean mv.2 (default true (obj_get mv.1 defaultSection))) c)
    (own_entries (spread raw)) [(js "enabled", toBoolean (prop "enabled" raw) (default true (obj_get (js "enabled") defaultSection)))].

Lemma rebuilt_module k s m b : NoDup (map fst s) → obj_get m s = Some b → obj_get m (rebuilt k (section_value s)) = Some b.
Proof.
  intros Hd Hm. unfold rebuilt. set (D := default _ _). cbn [spread section_value].
  set (E := own_entries (map (λ mv, (mv.1, JBool mv.2)) s)).
  assert (∀ l (r : obj bool), (∀ v, (m, v) ∈ l → v = JBool b) → m ≠ js "enabled" → (obj_get m r = Some b ∨ (m, JBool b) ∈ l) →
    obj_get m (fold_left (λ c mv, if str_eqb mv.1 (js "enabled") then c else obj_set mv.1 (toBoolean mv.2 (default true (obj_get mv.1 D))) c) l r) = Some b) as H.
  { intros l. induction l as [|[j v] l IH]; intros r Hl Hne Hr; cbn [fold_left fst snd].
    - by destruct Hr as [Hr|Hr%not_elem_of_nil].
    - apply IH; [intros w Hw; apply Hl; by right|done|]. destruct (decide (j = m)) as [->|Hj].
      + left. unfold str_eqb. rewrite bool_decide_eq_false_2 by done. rewrite obj_get_set_eq. by rewrite (Hl v) by by left.
      + destruct Hr as [Hr|[Hr|Hr]%elem_of_cons]; [left|by apply pair_parts in Hr as [? _]|by right].
        destruct (str_eqb j (js "enabled")); [done|]. rewrite obj_get_set_ne; congruence. }
  assert (∀ v, (m, v) ∈ E ↔ v = JBool b) as HE.
  { intros v. unfold E. rewrite elem_of_own_entries. split.
    - intros Hv. apply obj_get_in in Hv; [|by rewrite map_fst_values]. rewrite (obj_get_map JBool), Hm in Hv. by injection Hv.
    - intros ->. apply obj_get_entry. by rewrite (obj_get_map JBool), Hm. }
  destruct (decide (m = js "enabled")) as [->|Hne].
  - fold (section_value s). rewrite module_stored. change (js_of_string "enabled") with (js "enabled"). rewrite Hm. cbn [toBoolean].
    generalize ([(js "enabled", b)] : obj bool) (eq_refl : obj_get (js "enabled") [(js "enabled", b)] = Some b).
    clear. induction E as [|[j v] l IH]; intros r Hr; [done|]. cbn [fold_left fst snd]. apply IH. destruct (str_eqb j (js "enabled")) eqn:Ej; [done|].
    rewrite obj_get_set_ne; [done|]. intros <-. by rewrite str_eqb_refl in Ej.
  - apply H; [by intros v ?%HE|done|right; by apply HE].
Qed.

Lemma sidebar_defaults_keep D r k s m b : obj_get k r = Some s → obj_get m s = Some b →
  ∃ s', obj_get k (fold_left sidebar_defaults D r) = Some s' ∧ obj_get m s' = Some b.
Proof.
  revert r s. induction D as [|[j d] D IH]; intros r s Hk Hm; [by exists s|]. cbn [fold_left].
  assert (∃ s', obj_get k (sidebar_defaults r (j, d)) = Some s' ∧ obj_get m s' = Some b) as (s' & Hk' & Hm'); [|by apply (IH _ s')].
  cbn [sidebar_defaults]. destruct (decide (k = j)) as [->|Hne].
  - rewrite Hk, obj_get_set_eq. eexists. split; [done|]. clear -Hm. revert s Hm. induction d as [|[i w] d IH]; intros s Hm; [done|].
    cbn [fold_left fst snd]. apply IH. unfold obj_has. destruct (obj_get i s) eqn:Ei; [done|]. rewrite obj_get_set_ne; [done|]. congruence.
  - exists s. destruct (obj_get j r); by rewrite obj_get_set_ne.
Qed.

Lemma sidebar_read_back k s m b : obj_get k c = Some s → obj_get m s = Some b →
  ∃ s', obj_get k (parseSidebarModulesAdmin (Some T)) = Some s' ∧ obj_get m s' = Some b.
Proof.
  intros Hk Hm. unfold parseSidebarModulesAdmin. destruct (json_object_text V) as [u Hu]. change (json_stringify (JObj V)) with T in Hu.
  assert (trim T ≠ []) as Ht' by (rewrite Hu; by apply trim_not_blank).
  assert (str_truthy T = true) as -> by by rewrite Hu. cbn [negb orb]. unfold str_eqb. rewrite bool_decide_eq_false_2 by done. rewrite sidebar_text_parsed.
  cbn [mbind option_bind entries_of spread]. rewrite own_entries_idemp.
  assert (∀ l r, Forall (λ kv : jstr * jsval, ∃ s, kv.2 = section_value s) l →
    fold_left (sidebar_entry SIDEBAR_MODULES_DEFAULT) l r = obj_assign r (map (λ kv, (kv.1, rebuilt kv.1 kv.2)) l)) as ->.
  { intros l r Hl. revert r. induction Hl as [|[j v] l [s' Hs'] _ IH]; intros r; [done|]. cbn [snd] in Hs'. subst v. cbn [fold_left map fst snd].
    unfold obj_assign. cbn [fold_left fst snd]. apply IH. }
  - assert (NoDup (map fst (own_entries V))) as HVd by (apply own_keys_NoDup; unfold V; rewrite map_fst_values; apply Hc).
    assert (∀ l : obj jsval, map fst (map (λ kv, (kv.1, rebuilt kv.1 kv.2)) l) = map fst l) as Hfst by (intros l; by rewrite map_map).
    apply (sidebar_defaults_keep _ _ _ (rebuilt k (section_value s))); [|apply rebuilt_module; [by apply (sidebar_section k)|done]].
    rewrite obj_get_assign by by rewrite Hfst. erewrite obj_get_in; [done|by rewrite Hfst|].
    apply list_elem_of_fmap. exists (k, section_value s). split; [done|]. rewrite elem_of_own_entries. unfold V. apply list_elem_of_fmap.
    exists (k, s). split; [done|by apply obj_get_entry].
  - rewrite own_entries_perm. unfold V. apply Forall_map, Forall_forall. intros kv _. by eexists.
Qed.
End SidebarText.

(** C36. The sidebar and the guard follow the settings: for the sections and
    modules the console knows, the text saved for a configuration makes the
    sidebar offer, and the guard of a route admit, exactly the modules that are
    on in a section that is on, and the settings show the same switches again. *)
Theorem sidebar_switches_respected c status section module d : sidebar_config c →
  obj_get (js_of_string section) SIDEBAR_MODULES_DEFAULT = Some d → js_of_string module ∈ map fst d →
  expressible (JObj status) → obj_get (js "SidebarModulesAdmin") status = Some (JStr (serializeSidebarModulesAdmin c)) →
  isSidebarModuleEnabled (Some (json_stringify (JObj status))) section module = allowed c section module ∧
  module_enabled section module (parseSidebarConfig (Some (serializeSidebarModulesAdmin c))) None = allowed c section module ∧
  (∀ k s m b, obj_get k c = Some s → obj_get m s = Some b →
     ∃ s', obj_get k (parseSidebarModulesAdmin (Some (serializeSidebarModulesAdmin c))) = Some s' ∧ obj_get m s' = Some b).
Proof.
  intros Hc Hd Hm Hs Hk. split_and!.
  - by apply guard_allowed.
  - by eapply sidebar_allowed.
  - by intros; eapply sidebar_read_back.
Qed.

(** ** Defects *)

(** For a text the console did not write, the readers disagree: the settings
    show the two pages as off, the header still links to both, and the guard
    admits everyone. *)
Definition foreign_text : jstr := json_stringify (JObj [(js "home", JStr (js "false")); (js "rankings", JObj [(js "enabled", JNum (of_Z 0))])]).

Lemma readers_disagree :
  let f := toFormValues (parseHeaderNavModules (Some foreign_text)) in
  let status := JObj [(js "HeaderNavModules", JStr foreign_text)] in
  hn_home f = false ∧ hn_rankingsEnabled f = false ∧
  map tl_href (useTopNavLinks (λ s, s) status false) = [js "/"; js "/dashboard"; js "/pricing"; js "/api-doc"; js "/rankings"; js "/docs"; js "/about"] ∧
  rankings_beforeLoad (Some (json_stringify status)) false = Enter.
Proof. cbv zeta. split; [|split; [|split]]; vm_compute; reflexivity. Qed.

(** ** Witnesses *)

Definition sample_form : HeaderNavFormValues :=
  {| hn_home := true; hn_console := true; hn_pricingEnabled := true; hn_pricingRequireAuth := true; hn_apiDoc := false;
     hn_rankingsEnabled := true; hn_rankingsRequireAuth := true; hn_docs := false; hn_about := true |}.

Definition sample_status : obj jsval :=
  [(js "HeaderNavModules", JStr (serializeHeaderNavModules (header_payload (parseHeaderNavModules None) sample_form)))].

Lemma header_nav_respected_witness :
  map (λ l, (tl_href l, tl_disabled l)) (useTopNavLinks (λ s, s) (JObj sample_status) false) =
    [(js "/", false); (js "/dashboard", false); (js "/pricing", true); (js "/rankings", true); (js "/about", false)].
Proof.
  destruct (header_nav_respected None sample_form sample_status (λ s, s) false) as (_ & H & _).
  - apply (bool_decide_unpack _). vm_compute. exact I.
  - apply expressibleb_ok. vm_compute. reflexivity.
  - vm_compute. reflexivity.
  - exact H.
Defined.

Definition sample_sidebar : SidebarModulesAdminConfig := [(js "chat", [(js "enabled", true); (js "playground", false); (js "chat", true)])].

Lemma sidebar_switches_respected_witness :
  isSidebarModuleEnabled (Some (json_stringify (JObj [(js "SidebarModulesAdmin", JStr (serializeSidebarModulesAdmin sample_sidebar))]))) "chat" "playground" = false.
Proof.
  destruct (sidebar_switches_respected sample_sidebar [(js "SidebarModulesAdmin", JStr (serializeSidebarModulesAdmin sample_sidebar))]
    "chat" "playground" (switched_on ["enabled"; "playground"; "chat"]%string)) as (H & _).
  - split; [apply (bool_decide_unpack _); vm_compute; exact I|apply (bool_decide_unpack _); vm_compute; exact I|].
    repeat (apply Forall_cons; split); [|by apply Forall_nil]. split; apply (bool_decide_unpack _); vm_compute; exact I.
  - vm_compute. reflexivity.
  - apply (bool_decide_unpack _). vm_compute. exact I.
  - apply expressibleb_ok. vm_compute. reflexivity.
  - vm_compute. reflexivity.
  - rewrite H. vm_compute. reflexivity.
Defined.
