(* ===== verification/Wallet.v ===== *)
(** * The wallet (features/wallet)

    What can be paid and how (hooks/use-topup-info.ts, lib/payment.ts and
    lib/format.ts), the requests of the payment hooks and what their answers lead
    to (hooks/use-payment.ts, use-waffo-payment.ts, use-waffo-pancake-payment.ts,
    use-creem-payment.ts, use-redemption.ts, use-affiliate.ts), and the page as a
    state machine (index.tsx, hooks/use-billing-history.ts) in which answers of the
    server arrive in any order. *)

From S2P Require Import Prelude JsNumber JsString JsValue Host.

Open Scope nat_scope.

(** ** Data *)

Record PaymentMethod := { pm_name : jstr; pm_type : jstr; pm_color : option jstr; pm_min_topup : num }.
Record WaffoPayMethod := { wm_name : jstr; wm_icon : option jstr; wm_payMethodType : option jstr; wm_payMethodName : option jstr }.
Record CreemProduct := { cr_name : jstr; cr_productId : jstr; cr_price : num; cr_quota : num; cr_currency : jstr }.
Record PresetAmount := { pa_value : num; pa_discount : option num }.

Record TopupInfo := {
  ti_enable_online_topup : bool; ti_enable_stripe_topup : bool; ti_enable_waffo_topup : bool; ti_enable_waffo_pancake_topup : bool;
  ti_min_topup : num; ti_stripe_min_topup : num; ti_waffo_min_topup : option num; ti_waffo_pancake_min_topup : option num;
  ti_pay_methods : list PaymentMethod; ti_amount_options : list num; ti_discount : obj num;
  ti_creem_products : list CreemProduct; ti_waffo_pay_methods : list WaffoPayMethod
}.

Definition DEFAULT_PRESET_MULTIPLIERS : list num := map of_Z [1; 5; 10; 30; 50; 100; 300; 500]%Z.
Definition ALIPAY := js "alipay".
Definition STRIPE := js "stripe".
Definition WAFFO := js "waffo".
Definition WAFFO_PANCAKE := js "waffo_pancake".
Definition DEFAULT_PAYMENT_TYPE := ALIPAY.
Definition DEFAULT_DISCOUNT_RATE : num := of_Z 1.
Definition DEFAULT_MIN_TOPUP : num := of_Z 1.
Definition QUOTA_PER_DOLLAR : num := of_Z 500000.

(** ** Reading the top-up information (use-topup-info.ts) *)

Definition parseJsonArray (data : jsval) : list jsval :=
  match data with
  | JArr l => l
  | JStr s => match json_parse s with Some (JArr l) => l | _ => [] end
  | _ => []
  end.

(** [!!item && typeof item === 'object'] *)
Definition is_record (v : jsval) : bool := match v with JArr _ | JObj _ => true | _ => false end.

Definition text_or (v : jsval) : jstr := match v with JStr s => s | _ => [] end.
Definition text_option (v : jsval) : option jstr := match v with JStr s => Some s | _ => None end.

Definition read_method (stripeMinTopup : num) (item : jsval) : PaymentMethod :=
  let rawMinTopup := to_number (prop "min_topup" item) in
  let normalizedMinTopup := if isFinite rawMinTopup then rawMinTopup else of_Z 0 in
  let type := text_or (prop "type" item) in
  {| pm_name := text_or (prop "name" item); pm_type := type; pm_color := text_option (prop "color" item);
     pm_min_topup := if str_eqb type STRIPE && n_le normalizedMinTopup (of_Z 0) then stripeMinTopup else normalizedMinTopup |}.

Definition parsePaymentMethods (data : jsval) (stripeMinTopup : num) : list PaymentMethod :=
  List.filter (λ m, str_truthy (pm_name m) && str_truthy (pm_type m) && negb (str_eqb (pm_type m) WAFFO))
    (map (read_method stripeMinTopup) (List.filter is_record (parseJsonArray data))).

Definition parseWaffoPayMethods (data : jsval) : list WaffoPayMethod :=
  List.filter (λ m, str_truthy (wm_name m))
    (map (λ item, {| wm_name := text_or (prop "name" item); wm_icon := text_option (prop "icon" item);
                     wm_payMethodType := text_option (prop "payMethodType" item); wm_payMethodName := text_option (prop "payMethodName" item) |})
       (List.filter is_record (parseJsonArray data))).

Definition parseCreemProducts (data : jsval) : list CreemProduct :=
  List.filter (λ p, str_truthy (cr_name p) && str_truthy (cr_productId p))
    (map (λ item, {| cr_name := text_or (prop "name" item); cr_productId := text_or (prop "productId" item);
                     cr_price := num_or (to_number (prop "price" item)) (of_Z 0); cr_quota := num_or (to_number (prop "quota" item)) (of_Z 0);
                     cr_currency := if strict_eq (prop "currency" item) (JStr (js "EUR")) then js "EUR" else js "USD" |})
       (List.filter is_record (parseJsonArray data))).

Definition parseAmountOptions (data : jsval) : list num :=
  List.filter (λ x, isFinite x && n_gt x (of_Z 0)) (map to_number (parseJsonArray data)).

(** One entry of the discounts; a number as a key is its text. *)
Definition discount_entry (result : obj num) (kv : jstr * jsval) : obj num :=
  let numericKey := string_to_number kv.1 in
  let numericValue := to_number kv.2 in
  if isFinite numericKey && isFinite numericValue then obj_set (num_to_string numericKey) numericValue result else result.

Definition parseDiscountMap (data : jsval) : obj num :=
  if negb (truthy data) then []
  else
    let parsedData := match data with JStr s => json_parse s | data => Some data end in
    match parsedData with
    | Some (JObj o) => fold_left discount_entry (own_entries o) []
    | _ => []
    end.

(** The fields the server sends as they are; the lists are parsed. *)
Definition processedData (base : TopupInfo) (pay_methods amount_options discount creem_products waffo_pay_methods : jsval) : TopupInfo :=
  {| ti_enable_online_topup := ti_enable_online_topup base; ti_enable_stripe_topup := ti_enable_stripe_topup base;
     ti_enable_waffo_topup := ti_enable_waffo_topup base; ti_enable_waffo_pancake_topup := ti_enable_waffo_pancake_topup base;
     ti_min_topup := ti_min_topup base; ti_stripe_min_topup := ti_stripe_min_topup base;
     ti_waffo_min_topup := ti_waffo_min_topup base; ti_waffo_pancake_min_topup := ti_waffo_pancake_min_topup base;
     ti_pay_methods := parsePaymentMethods pay_methods (ti_stripe_min_topup base);
     ti_amount_options := parseAmountOptions amount_options; ti_discount := parseDiscountMap discount;
     ti_creem_products := parseCreemProducts creem_products; ti_waffo_pay_methods := parseWaffoPayMethods waffo_pay_methods |}.

(** ** Amounts and methods (lib/payment.ts) *)

Definition isStripePayment (paymentType : jstr) : bool := str_eqb paymentType STRIPE.
Definition isWaffoPancakePayment (paymentType : jstr) : bool := str_eqb paymentType WAFFO_PANCAKE.

Definition getDefaultPaymentType (topupInfo : option TopupInfo) : jstr :=
  match topupInfo with
  | None => DEFAULT_PAYMENT_TYPE
  | Some ti =>
      match ti_pay_methods ti with
      | m :: _ => pm_type m
      | [] => if ti_enable_stripe_topup ti then STRIPE else if ti_enable_waffo_topup ti then WAFFO
              else if ti_enable_waffo_pancake_topup ti then WAFFO_PANCAKE else DEFAULT_PAYMENT_TYPE
      end
  end.

(** [x || d] where [x] may be absent *)
Definition onum_or (x : option num) (d : num) : num := match x with Some x => num_or x d | None => d end.

Definition getMinTopupAmount (topupInfo : option TopupInfo) : num :=
  match topupInfo with
  | None => DEFAULT_MIN_TOPUP
  | Some ti =>
      if ti_enable_online_topup ti then ti_min_topup ti
      else if ti_enable_stripe_topup ti then ti_stripe_min_topup ti
      else if ti_enable_waffo_topup ti then onum_or (ti_waffo_min_topup ti) DEFAULT_MIN_TOPUP
      else if ti_enable_waffo_pancake_topup ti then onum_or (ti_waffo_pancake_min_topup ti) DEFAULT_MIN_TOPUP
      else DEFAULT_MIN_TOPUP
  end.

Definition generatePresetAmounts (minAmount : num) : list PresetAmount :=
  map (λ multiplier, {| pa_value := n_mul minAmount multiplier; pa_discount := None |}) DEFAULT_PRESET_MULTIPLIERS.

Definition mergePresetAmounts (amountOptions : list num) (discounts : obj num) : list PresetAmount :=
  map (λ amount, {| pa_value := amount; pa_discount := Some (onum_or (obj_get (num_to_string amount) discounts) (of_Z 1)) |}) amountOptions.

(** The presets the page offers once the information is there. *)
Definition presetsOf (ti : TopupInfo) : list PresetAmount :=
  match ti_amount_options ti with
  | [] => generatePresetAmounts (getMinTopupAmount (Some ti))
  | options => mergePresetAmounts options (ti_discount ti)
  end.

(** The price of a preset (lib/format.ts). *)
Record PresetPricing := { pp_displayValue : num; pp_originalPrice : num; pp_actualPrice : num; pp_savedAmount : num; pp_hasDiscount : bool }.

Definition calculatePresetPricing (presetValue priceRatio discount usdExchangeRate : num) : PresetPricing :=
  let originalPrice := n_mul presetValue priceRatio in
  let actualPrice := n_mul originalPrice discount in
  {| pp_displayValue := n_mul presetValue usdExchangeRate; pp_originalPrice := originalPrice; pp_actualPrice := actualPrice;
     pp_savedAmount := n_sub originalPrice actualPrice; pp_hasDiscount := n_lt discount (of_Z 1) |}.

Definition getDiscountLabel (discount : num) : jstr :=
  if n_ge discount DEFAULT_DISCOUNT_RATE then []
  else num_to_string (math_round (n_mul (n_sub (of_Z 1) discount) (of_Z 100))) ++ js "% OFF".

Definition formatQuotaShort (quota : num) : jstr :=
  if n_ge quota (of_Z 1000000) then toFixed (n_div quota (of_Z 1000000)) 1 ++ js "M"
  else if n_ge quota (of_Z 1000) then toFixed (n_div quota (of_Z 1000)) 1 ++ js "K"
  else num_to_string quota.

Definition formatCreemPrice (price : num) (currency : jstr) : jstr :=
  (if str_eqb currency (js "EUR") then js "€" else js "$") ++ toFixed price 2.

Definition formatCurrency `{Host} (amount : num) : jstr :=
  if negb (isFinite amount) then js "-"
  else number_format {| nf_style := None; nf_currency := None; nf_currencyDisplay := None; nf_notation := None;
         nf_minimumFractionDigits := Some 0; nf_maximumFractionDigits := Some (if n_ge (n_abs amount) (of_Z 1) then 2 else 4) |} amount.

Definition generateAffiliateLink (origin affCode : jstr) : jstr := origin ++ js "/register?aff=" ++ affCode.

Definition getStatusConfig (status : jstr) : jstr * jstr :=
  if str_eqb status (js "success") then (js "success", js "Success")
  else if str_eqb status (js "expired") then (js "danger", js "Expired")
  else (js "warning", js "Pending").

Definition getPaymentMethodName (t : option (jstr → jstr)) (method : jstr) : jstr :=
  let name := if str_eqb method STRIPE then js "Stripe" else if str_eqb method ALIPAY then js "Alipay"
    else if str_eqb method (js "wxpay") then js "WeChat Pay" else if str_eqb method WAFFO then js "Waffo" else method in
  match t with Some t => t name | None => name end.

(** ** Payments *)

(** An answer of the server, or none. *)
Record ApiResponse := { ar_success : option bool; ar_message : option jstr; ar_data : jsval; ar_url : option jstr }.
Inductive ApiReply := Answer (r : ApiResponse) | NoAnswer.

Definition isApiSuccess (r : ApiResponse) : bool :=
  bool_decide (ar_success r = Some true) || bool_decide (ar_message r = Some (js "success")).

(** What is asked of the server. *)
Inductive AmountRequest := AskStripe (amount : num) | AskPancake (amount : num) | AskEpay (amount : num).
Inductive PayRequest :=
  | PayStripe (amount : num) | PayEpay (amount : num) (method : jstr) | PayPancake (amount : num)
  | PayWaffo (amount : num) (index : num) | PayCreem (product : jstr).

(** What the user sees happen. *)
Inductive Effect := OpenWindow (url : jstr) | SubmitForm (url : jstr) (params : obj jstr) | ToastSuccess (s : jstr) | ToastError (s : jstr).

Definition amount_request (topupAmount : num) (paymentType : jstr) : AmountRequest :=
  if isStripePayment paymentType then AskStripe topupAmount
  else if isWaffoPancakePayment paymentType then AskPancake topupAmount else AskEpay topupAmount.

Definition calculated_amount (reply : ApiReply) : num :=
  match reply with
  | Answer r => if isApiSuccess r && truthy (ar_data r) then parseFloat (to_string (ar_data r)) else of_Z 0
  | NoAnswer => of_Z 0
  end.

Definition payment_request (topupAmount : num) (paymentType : jstr) : PayRequest :=
  let amount := math_floor topupAmount in
  if isStripePayment paymentType then PayStripe amount else PayEpay amount paymentType.

Definition message_or (m : option jstr) (d : jstr) : jstr := match m with Some (c :: s) => c :: s | _ => d end.

Definition PAYMENT_FAILED := js "Payment request failed".
Definition REDIRECTING := js "Redirecting to payment page...".

(** [Object.entries(params)] as the inputs of a form. *)
Definition form_params (data : jsval) : obj jstr :=
  match data with
  | JObj o => map (λ kv, (kv.1, to_string kv.2)) (own_entries o)
  | JArr l => imap (λ i v, (int_to_string 10 (Z.of_nat i), to_string v)) l
  | JStr s => imap (λ i c, (int_to_string 10 (Z.of_nat i), [c])) s
  | _ => []
  end.

Definition payment_result (t : jstr → jstr) (paymentType : jstr) (reply : ApiReply) : list Effect * bool :=
  match reply with
  | NoAnswer => ([ToastError (t PAYMENT_FAILED)], false)
  | Answer r =>
      if negb (isApiSuccess r) then ([ToastError (message_or (ar_message r) (t PAYMENT_FAILED))], false)
      else if isStripePayment paymentType then
        let pay_link := prop "pay_link" (ar_data r) in
        if truthy pay_link then ([OpenWindow (to_string pay_link); ToastSuccess (t REDIRECTING)], true) else ([], false)
      else if truthy (ar_data r) then
        match ar_url r with
        | Some (c :: url) => ([SubmitForm (c :: url) (form_params (ar_data r)); ToastSuccess (t REDIRECTING)], true)
        | _ => ([], false)
        end
      else ([], false)
  end.

(** Links in the answers of the other services. *)
Definition link_in (k : string) (data : jsval) : option jstr := match data with JArr _ | JObj _ => text_option (prop k data) | _ => None end.

Definition getErrorMessage (t : jstr → jstr) (message : option jstr) (data : jsval) : jstr :=
  match data with
  | JStr s => if str_truthy (trim s) then s else message_or message (t PAYMENT_FAILED)
  | _ => message_or message (t PAYMENT_FAILED)
  end.

Definition waffo_result (t : jstr → jstr) (reply : ApiReply) : list Effect * bool :=
  match reply with
  | NoAnswer => ([ToastError (t PAYMENT_FAILED)], false)
  | Answer r =>
      match (if isApiSuccess r then link_in "payment_url" (ar_data r) else None) with
      | Some (c :: url) => ([OpenWindow (c :: url); ToastSuccess (t REDIRECTING)], true)
      | _ => ([ToastError (getErrorMessage t (ar_message r) (ar_data r))], false)
      end
  end.

(** [url_protocol] is the platform's URL parser: the protocol of an absolute
    address, nothing for a text that is none. *)
Definition isSafeHttpCheckoutUrl (url_protocol : jstr → option jstr) (value : jstr) : bool :=
  let trimmed := trim value in
  if negb (str_truthy trimmed) then false
  else match url_protocol trimmed with
       | Some p => str_eqb p (js "http:") || str_eqb p (js "https:")
       | None => false
       end.

Definition pancake_result (url_protocol : jstr → option jstr) (t : jstr → jstr) (reply : ApiReply) : list Effect * bool :=
  match reply with
  | NoAnswer => ([ToastError (t PAYMENT_FAILED)], false)
  | Answer r =>
      match (if isApiSuccess r then link_in "checkout_url" (ar_data r) else None) with
      | Some (c :: url) =>
          if negb (isSafeHttpCheckoutUrl url_protocol (c :: url)) then ([ToastError (t (js "Invalid payment redirect URL"))], false)
          else ([OpenWindow (c :: url); ToastSuccess (t REDIRECTING)], true)
      | _ => ([ToastError (getErrorMessage t (ar_message r) (ar_data r))], false)
      end
  end.

Definition creem_result (t : jstr → jstr) (reply : ApiReply) : list Effect * bool :=
  match reply with
  | NoAnswer => ([ToastError (t PAYMENT_FAILED)], false)
  | Answer r =>
      let checkout_url := prop "checkout_url" (ar_data r) in
      if isApiSuccess r && truthy checkout_url
      then ([OpenWindow (to_string checkout_url); ToastSuccess (t (js "Redirecting to Creem checkout..."))], true)
      else ([ToastError (message_or (ar_message r) (t PAYMENT_FAILED))], false)
  end.

(** A code that is blank is not sent. *)
Definition redeem_request (code : jstr) : option jstr := if str_eqb (trim code) [] then None else Some code.

Definition redeem_succeeds (reply : ApiReply) : bool :=
  match reply with Answer r => bool_decide (ar_success r = Some true) && truthy (ar_data r) | NoAnswer => false end.
