(* ===== verification/WalletPage.v ===== *)
(** * The wallet page as a state machine (features/wallet/index.tsx)

    A change of the amount asks the server for the price, and the answers arrive
    in any order.  Choosing a payment method asks once more and then opens a dialog;
    confirming it sends the payment.  The records of past payments
    (hooks/use-billing-history.ts) are loaded page by page in the same way. *)

From S2P Require Import Prelude JsNumber JsString JsValue Host Wallet.

Open Scope nat_scope.

(** ** The page *)

(** A request for a price that was not answered yet; [ca_opens] when the method
    was just chosen, so that the dialog opens after the answer. *)
Record Calculation := { ca_request : AmountRequest; ca_opens : bool }.

Record WalletPage := {
  wp_info : option TopupInfo; wp_presets : list PresetAmount; wp_topupAmount : num; wp_selectedPreset : option num;
  wp_method : option PaymentMethod; wp_paymentLoading : option jstr; wp_confirmOpen : bool;
  wp_amount : num; wp_calculating : bool; wp_calcs : list Calculation;
  wp_paying : option jstr;      (* the type of the payment that is being processed *)
  wp_waffo : bool;              (* whether a Waffo payment is *)
  wp_sent : list PayRequest; wp_effects : list Effect
}.

Definition initial_page : WalletPage :=
  {| wp_info := None; wp_presets := []; wp_topupAmount := of_Z 0; wp_selectedPreset := None; wp_method := None; wp_paymentLoading := None;
     wp_confirmOpen := false; wp_amount := of_Z 0; wp_calculating := false; wp_calcs := []; wp_paying := None; wp_waffo := false; wp_sent := []; wp_effects := [] |}.

Definition with_amount (v : num) (preset : option num) (p : WalletPage) : WalletPage :=
  {| wp_info := wp_info p; wp_presets := wp_presets p; wp_topupAmount := v; wp_selectedPreset := preset; wp_method := wp_method p;
     wp_paymentLoading := wp_paymentLoading p; wp_confirmOpen := wp_confirmOpen p; wp_amount := wp_amount p; wp_calculating := wp_calculating p;
     wp_calcs := wp_calcs p; wp_paying := wp_paying p; wp_waffo := wp_waffo p; wp_sent := wp_sent p; wp_effects := wp_effects p |}.

(** [calculatePaymentAmount] up to its request. *)
Definition calculatePaymentAmount (topupAmount : num) (paymentType : jstr) (opens : bool) (p : WalletPage) : WalletPage :=
  {| wp_info := wp_info p; wp_presets := wp_presets p; wp_topupAmount := wp_topupAmount p; wp_selectedPreset := wp_selectedPreset p;
     wp_method := wp_method p; wp_paymentLoading := wp_paymentLoading p; wp_confirmOpen := wp_confirmOpen p; wp_amount := wp_amount p;
     wp_calculating := true; wp_calcs := wp_calcs p ++ [{| ca_request := amount_request topupAmount paymentType; ca_opens := opens |}];
     wp_paying := wp_paying p; wp_waffo := wp_waffo p; wp_sent := wp_sent p; wp_effects := wp_effects p |}.

Definition getCurrentPaymentType (p : WalletPage) : jstr :=
  match wp_method p with Some m => if str_truthy (pm_type m) then pm_type m else getDefaultPaymentType (wp_info p)
  | None => getDefaultPaymentType (wp_info p) end.

(** The effect that fills in the least amount where there is none. *)
Definition initialAmount (p : WalletPage) : WalletPage :=
  match wp_info p with
  | Some ti =>
      if n_eq (wp_topupAmount p) (of_Z 0)
      then let minTopup := getMinTopupAmount (Some ti) in
        calculatePaymentAmount minTopup (getDefaultPaymentType (Some ti)) false (with_amount minTopup (wp_selectedPreset p) p)
      else p
  | None => p
  end.

Definition topupInfoLoaded (ti : TopupInfo) (p : WalletPage) : WalletPage :=
  initialAmount {| wp_info := Some ti; wp_presets := presetsOf ti; wp_topupAmount := wp_topupAmount p; wp_selectedPreset := wp_selectedPreset p;
    wp_method := wp_method p; wp_paymentLoading := wp_paymentLoading p; wp_confirmOpen := wp_confirmOpen p; wp_amount := wp_amount p;
    wp_calculating := wp_calculating p; wp_calcs := wp_calcs p; wp_paying := wp_paying p; wp_waffo := wp_waffo p; wp_sent := wp_sent p; wp_effects := wp_effects p |}.

(** The effect runs again when the amount has changed. *)
Definition amountChanged (before : num) (p : WalletPage) : WalletPage :=
  if bool_decide (before = wp_topupAmount p) then p else initialAmount p.

Definition handleSelectPreset (preset : PresetAmount) (p : WalletPage) : WalletPage :=
  amountChanged (wp_topupAmount p)
    (calculatePaymentAmount (pa_value preset) (getCurrentPaymentType p) false (with_amount (pa_value preset) (Some (pa_value preset)) p)).

Definition handleTopupAmountChange (amount : num) (p : WalletPage) : WalletPage :=
  amountChanged (wp_topupAmount p) (calculatePaymentAmount amount (getCurrentPaymentType p) false (with_amount amount None p)).

(** The input for an amount (recharge-form-card.tsx). *)
Definition handleAmountChange (value : jstr) (p : WalletPage) : WalletPage :=
  let numValue := num_or (parseInt value) (of_Z 0) in
  if n_ge numValue (of_Z 0) then handleTopupAmountChange numValue p else p.

Definition with_method (m : option PaymentMethod) (loading : option jstr) (waffo : bool) (p : WalletPage) : WalletPage :=
  {| wp_info := wp_info p; wp_presets := wp_presets p; wp_topupAmount := wp_topupAmount p; wp_selectedPreset := wp_selectedPreset p; wp_method := m;
     wp_paymentLoading := loading; wp_confirmOpen := wp_confirmOpen p; wp_amount := wp_amount p; wp_calculating := wp_calculating p;
     wp_calcs := wp_calcs p; wp_paying := wp_paying p; wp_waffo := waffo; wp_sent := wp_sent p; wp_effects := wp_effects p |}.

(** Up to the answer; below the least amount nothing is asked. *)
Definition handlePaymentMethodSelect (method : PaymentMethod) (p : WalletPage) : WalletPage :=
  if n_lt (wp_topupAmount p) (getMinTopupAmount (wp_info p)) then with_method (Some method) None (wp_waffo p) p
  else calculatePaymentAmount (wp_topupAmount p) (pm_type method) true (with_method (Some method) (Some (pm_type method)) (wp_waffo p) p).

(** The rest of [calculatePaymentAmount], and of the choice of a method. *)
Definition calculationAnswered (i : nat) (reply : ApiReply) (p : WalletPage) : WalletPage :=
  match wp_calcs p !! i with
  | None => p
  | Some c =>
      {| wp_info := wp_info p; wp_presets := wp_presets p; wp_topupAmount := wp_topupAmount p; wp_selectedPreset := wp_selectedPreset p;
         wp_method := wp_method p; wp_paymentLoading := if ca_opens c then None else wp_paymentLoading p;
         wp_confirmOpen := ca_opens c || wp_confirmOpen p; wp_amount := calculated_amount reply; wp_calculating := false;
         wp_calcs := delete i (wp_calcs p); wp_paying := wp_paying p; wp_waffo := wp_waffo p; wp_sent := wp_sent p; wp_effects := wp_effects p |}
  end.

Definition with_payment (paying : option jstr) (open : bool) (sent : list PayRequest) (effects : list Effect) (p : WalletPage) : WalletPage :=
  {| wp_info := wp_info p; wp_presets := wp_presets p; wp_topupAmount := wp_topupAmount p; wp_selectedPreset := wp_selectedPreset p; wp_method := wp_method p;
     wp_paymentLoading := wp_paymentLoading p; wp_confirmOpen := open; wp_amount := wp_amount p; wp_calculating := wp_calculating p;
     wp_calcs := wp_calcs p; wp_paying := paying; wp_waffo := wp_waffo p; wp_sent := wp_sent p ++ sent; wp_effects := wp_effects p ++ effects |}.

Definition handlePaymentConfirm (p : WalletPage) : WalletPage :=
  match wp_method p with
  | None => p
  | Some m =>
      let request := if isWaffoPancakePayment (pm_type m) then PayPancake (math_floor (wp_topupAmount p))
                     else payment_request (wp_topupAmount p) (pm_type m) in
      with_payment (Some (pm_type m)) (wp_confirmOpen p) [request] [] p
  end.

(** The answer to a payment closes the dialog where it succeeded; reading the
    user again is outside. *)
Definition paymentAnswered (url_protocol : jstr → option jstr) (t : jstr → jstr) (reply : ApiReply) (p : WalletPage) : WalletPage :=
  match wp_paying p with
  | None => p
  | Some type =>
      let '(effects, success) := if isWaffoPancakePayment type then pancake_result url_protocol t reply else payment_result t type reply in
      with_payment None (if success then false else wp_confirmOpen p) [] effects p
  end.

Definition waffo_key (index : nat) : jstr := js "waffo-" ++ int_to_string 10 (Z.of_nat index).

Definition handleWaffoMethodSelect (index : nat) (p : WalletPage) : WalletPage :=
  with_payment (wp_paying p) (wp_confirmOpen p) [PayWaffo (math_floor (wp_topupAmount p)) (of_Z (Z.of_nat index))] []
    (with_method (wp_method p) (Some (waffo_key index)) true p).

Definition waffoAnswered (t : jstr → jstr) (reply : ApiReply) (p : WalletPage) : WalletPage :=
  if wp_waffo p then with_payment (wp_paying p) (wp_confirmOpen p) [] (waffo_result t reply).1 (with_method (wp_method p) None false p) else p.

(** ** Events *)

Inductive WalletEvent :=
  | InfoLoaded (ti : TopupInfo) | TypeAmount (value : jstr) | SelectPreset (i : nat) | SelectMethod (i : nat) | SelectWaffo (i : nat)
  | CalculationAnswered (i : nat) (reply : ApiReply) | Confirm | Cancel | PaymentAnswered (reply : ApiReply) | WaffoAnswered (reply : ApiReply).

(** The controls of the form, which the open dialog covers. *)
Definition form_open (p : WalletPage) : bool := bool_decide (wp_info p ≠ None) && negb (wp_confirmOpen p).

Definition wallet_step (url_protocol : jstr → option jstr) (t : jstr → jstr) (e : WalletEvent) (p : WalletPage) : WalletPage :=
  match e with
  | InfoLoaded ti => match wp_info p with None => topupInfoLoaded ti p | Some _ => p end
  | TypeAmount value => if form_open p then handleAmountChange value p else p
  | SelectPreset i => match wp_presets p !! i with Some preset => if form_open p then handleSelectPreset preset p else p | None => p end
  | SelectMethod i =>
      match (ti ← wp_info p; ti_pay_methods ti !! i) with
      | Some m => if form_open p && bool_decide (wp_paymentLoading p = None) && negb (n_gt (num_or (pm_min_topup m) (of_Z 0)) (wp_topupAmount p))
                  then handlePaymentMethodSelect m p else p
      | None => p
      end
  | SelectWaffo i =>
      match (ti ← wp_info p; if ti_enable_waffo_topup ti then m ← ti_waffo_pay_methods ti !! i; Some (onum_or (ti_waffo_min_topup ti) (of_Z 0)) else None) with
      | Some waffoMin => if form_open p && bool_decide (wp_paymentLoading p = None) && negb (n_gt waffoMin (wp_topupAmount p))
                         then handleWaffoMethodSelect i p else p
      | None => p
      end
  | CalculationAnswered i reply => calculationAnswered i reply p
  | Confirm => if wp_confirmOpen p && bool_decide (wp_paying p = None) then handlePaymentConfirm p else p
  | Cancel => with_payment (wp_paying p) false [] [] p
  | PaymentAnswered reply => paymentAnswered url_protocol t reply p
  | WaffoAnswered reply => waffoAnswered t reply p
  end.

Definition wallet_run (url_protocol : jstr → option jstr) (t : jstr → jstr) (es : list WalletEvent) (p : WalletPage) : WalletPage :=
  fold_left (λ p e, wallet_step url_protocol t e p) es p.

(** ** Past payments (use-billing-history.ts) *)

Record HistoryQuery := { hq_page : num; hq_pageSize : num; hq_keyword : jstr }.

#[global] Instance history_query_dec : EqDecision HistoryQuery.
Proof. solve_decision. Defined.

Section History.
Context {TopupRecord : Type}.

Record HistoryPage := { hp_items : list TopupRecord; hp_total : num }.

(** The answer to a query: [None] where it failed. *)
Record BillingHistory := {
  bh_records : list TopupRecord; bh_total : num; bh_query : HistoryQuery; bh_loading : bool; bh_inflight : list HistoryQuery
}.

Definition set_history (records : list TopupRecord) (total : num) (loading : bool) (inflight : list HistoryQuery) (b : BillingHistory) : BillingHistory :=
  {| bh_records := records; bh_total := total; bh_query := bh_query b; bh_loading := loading; bh_inflight := inflight |}.

(** The query is the one of the rendering the function is from. *)
Definition fetchBillingHistory (asked : HistoryQuery) (b : BillingHistory) : BillingHistory :=
  set_history (bh_records b) (bh_total b) true (bh_inflight b ++ [asked]) b.

Definition mountHistory (initialPage initialPageSize : num) : BillingHistory :=
  let query := {| hq_page := initialPage; hq_pageSize := initialPageSize; hq_keyword := [] |} in
  fetchBillingHistory query {| bh_records := []; bh_total := of_Z 0; bh_loading := false; bh_inflight := []; bh_query := query |}.

(** The effect that loads when the query has changed. *)
Definition queryChanged (q : HistoryQuery) (b : BillingHistory) : BillingHistory :=
  if bool_decide (q = bh_query b) then b
  else fetchBillingHistory q {| bh_records := bh_records b; bh_total := bh_total b; bh_query := q; bh_loading := bh_loading b; bh_inflight := bh_inflight b |}.

Definition handlePageChange (newPage : num) (b : BillingHistory) : BillingHistory :=
  queryChanged {| hq_page := newPage; hq_pageSize := hq_pageSize (bh_query b); hq_keyword := hq_keyword (bh_query b) |} b.

Definition handlePageSizeChange (newPageSize : num) (b : BillingHistory) : BillingHistory :=
  queryChanged {| hq_page := of_Z 1; hq_pageSize := newPageSize; hq_keyword := hq_keyword (bh_query b) |} b.

Definition handleSearch (newKeyword : jstr) (b : BillingHistory) : BillingHistory :=
  queryChanged {| hq_page := of_Z 1; hq_pageSize := hq_pageSize (bh_query b); hq_keyword := newKeyword |} b.

Definition historyAnswered (i : nat) (reply : option HistoryPage) (b : BillingHistory) : BillingHistory :=
  match bh_inflight b !! i with
  | None => b
  | Some _ =>
      match reply with
      | Some page => set_history (hp_items page) (hp_total page) false (delete i (bh_inflight b)) b
      | None => set_history [] (of_Z 0) false (delete i (bh_inflight b)) b
      end
  end.

(** A completed order loads again what was shown when it was asked for; only an
    administrator may. *)
Definition orderCompleted (isAdmin success : bool) (asked : HistoryQuery) (b : BillingHistory) : BillingHistory :=
  if isAdmin && success then fetchBillingHistory asked b else b.

(** What the user does and what the server answers. *)
Inductive HistoryEvent :=
  | ChangePage (n : num) | ChangePageSize (n : num) | Search (k : jstr) | HistoryAnswered (i : nat) (reply : option HistoryPage)
  | OrderCompleted (isAdmin success : bool) (asked : HistoryQuery) | Refresh.

Definition history_step (e : HistoryEvent) (b : BillingHistory) : BillingHistory :=
  match e with
  | ChangePage n => handlePageChange n b
  | ChangePageSize n => handlePageSizeChange n b
  | Search k => handleSearch k b
  | HistoryAnswered i reply => historyAnswered i reply b
  | OrderCompleted isAdmin success asked => orderCompleted isAdmin success asked b
  | Refresh => fetchBillingHistory (bh_query b) b
  end.
End History.
Arguments HistoryEvent : clear implicits.
Arguments HistoryPage : clear implicits.
Arguments BillingHistory : clear implicits.
