(* ===== verification/WalletFacts.v ===== *)
(** * The wallet: prices, least amounts and discounts

    When the answers of the server arrive in order, the price shown is the one of
    the amount shown, and the dialog asks to confirm exactly what is paid; when
    they do not, it may be another. *)

From S2P Require Import Prelude JsNumber JsString JsValue Host Wallet WalletPage.

Open Scope nat_scope.

Section Page.
Context (url_protocol : jstr → option jstr) (t : jstr → jstr).
Context (server : AmountRequest → ApiReply).

(** Prices are answered one after the other. *)
Definition in_order (e : WalletEvent) (p : WalletPage) : Prop :=
  match e with
  | CalculationAnswered i reply => i = 0 ∧ ∀ c, head (wp_calcs p) = Some c → reply = server (ca_request c)
  | _ => True
  end.

(** The amount is left alone while a chosen method is being priced. *)
Definition undisturbed (e : WalletEvent) (p : WalletPage) : Prop :=
  match e with
  | TypeAmount _ | SelectPreset _ => Forall (λ c, ca_opens c = false) (wp_calcs p)
  | _ => True
  end.

(** What the page can come to by such events. *)
Inductive reach (ok : WalletEvent → WalletPage → Prop) : WalletPage → Prop :=
  | reach_initial : reach ok initial_page
  | reach_step e p : reach ok p → ok e p → reach ok (wallet_step url_protocol t e p).

Lemma reach_weaken (ok ok' : WalletEvent → WalletPage → Prop) p : (∀ e p, ok e p → ok' e p) → reach ok p → reach ok' p.
Proof. intros H. induction 1; constructor; auto. Qed.

(** ** The price of the amount *)

Definition price (amount : num) (type : jstr) : num := calculated_amount (server (amount_request amount type)).

(** The last request is for the amount shown, or the price shown is. *)
Definition priced (p : WalletPage) : Prop :=
  ∃ type, match last (wp_calcs p) with
          | Some c => ca_request c = amount_request (wp_topupAmount p) type
          | None => wp_amount p = price (wp_topupAmount p) type
          end.

Definition untouched (p : WalletPage) : Prop :=
  wp_calcs p = [] ∧ wp_topupAmount p = of_Z 0 ∧ wp_confirmOpen p = false ∧ wp_waffo p = false.

Definition price_invariant (p : WalletPage) : Prop := match wp_info p with None => untouched p | Some _ => priced p end.

Lemma priced_calculate v type o p : wp_topupAmount p = v → priced (calculatePaymentAmount v type o p).
Proof. intros <-. exists type. unfold calculatePaymentAmount. cbn [wp_calcs wp_topupAmount]. by rewrite last_snoc. Qed.

Lemma info_initial p : wp_info (initialAmount p) = wp_info p.
Proof. unfold initialAmount. destruct (wp_info p) eqn:E; [|done]. by case_match; cbn. Qed.

Lemma priced_initial p : priced p → priced (initialAmount p).
Proof.
  intros Hp. unfold initialAmount. destruct (wp_info p); [|done]. case_match; [|done]. by apply priced_calculate.
Qed.

Lemma info_changed v p : wp_info (amountChanged v p) = wp_info p.
Proof. unfold amountChanged. case_bool_decide; [done|apply info_initial]. Qed.

Lemma priced_changed v p : priced p → priced (amountChanged v p).
Proof. intros. unfold amountChanged. case_bool_decide; [done|by apply priced_initial]. Qed.

Lemma form_open_true p : form_open p = true → wp_info p ≠ None ∧ wp_confirmOpen p = false.
Proof. unfold form_open. intros [H1 H2]%andb_true_iff. apply bool_decide_eq_true in H1. by destruct (wp_confirmOpen p). Qed.

(** Steps that leave the amount, its price and the requests for it. *)
Lemma priced_same p q : wp_calcs q = wp_calcs p → wp_topupAmount q = wp_topupAmount p → wp_amount q = wp_amount p → priced p → priced q.
Proof. intros Hc Ha Hp [type H]. exists type. by rewrite Hc, Ha, Hp. Qed.

Lemma priced_answered p reply : (∀ c, head (wp_calcs p) = Some c → reply = server (ca_request c)) → priced p → priced (calculationAnswered 0 reply p).
Proof.
  intros Hr [type H]. unfold calculationAnswered. destruct (wp_calcs p) as [|c l] eqn:E; [exists type; cbn [lookup list_lookup]; by rewrite E|]. cbn [lookup list_lookup].
  exists type. cbn [wp_calcs wp_topupAmount wp_amount delete list_delete]. destruct l as [|d l].
  - cbn [last] in H |- *. rewrite (Hr c eq_refl), H. done.
  - rewrite last_cons_cons in H. destruct (last (d :: l)) eqn:El; [done|by apply last_None in El].
Qed.

Lemma price_invariant_step e p : in_order e p → price_invariant p → price_invariant (wallet_step url_protocol t e p).
Proof.
  intros Hio Hp. unfold price_invariant in *. destruct e as [ti|v|i|i|i|i reply| | |reply|reply]; cbn [wallet_step].
  - destruct (wp_info p) as [ti'|] eqn:E; [by rewrite E|]. destruct Hp as (Hc & Ha & _). unfold topupInfoLoaded. rewrite info_initial. cbn [wp_info].
    unfold initialAmount. cbn [wp_info wp_topupAmount]. rewrite Ha. by apply priced_calculate.
  - destruct (form_open p) eqn:E; [|done]. apply form_open_true in E as [E _]. unfold handleAmountChange. destruct (n_ge _ _); [|done].
    unfold handleTopupAmountChange. rewrite info_changed. cbn [calculatePaymentAmount wp_info with_amount]. destruct (wp_info p); [|done].
    apply priced_changed. by apply priced_calculate.
  - destruct (wp_presets p !! i) as [preset|]; [|done]. destruct (form_open p) eqn:E; [|done]. apply form_open_true in E as [E _].
    unfold handleSelectPreset. rewrite info_changed. cbn [calculatePaymentAmount wp_info with_amount]. destruct (wp_info p); [|done].
    apply priced_changed. by apply priced_calculate.
  - destruct (_ ≫= _) as [m|]; [|done]. destruct (form_open p && _ && _) eqn:Eb; [|done]. apply andb_true_iff in Eb as [[Eb _]%andb_true_iff _]. apply form_open_true in Eb as [E _].
    unfold handlePaymentMethodSelect. destruct (wp_info p) eqn:Ei; [|done]. destruct (n_lt _ _); cbn [with_method calculatePaymentAmount wp_info]; rewrite Ei.
    + by eapply priced_same; [..|exact Hp].
    + by apply priced_calculate.
  - destruct (_ ≫= _) as [m|]; [|done]. destruct (form_open p && _ && _) eqn:Eb; [|done]. apply andb_true_iff in Eb as [[Eb _]%andb_true_iff _]. apply form_open_true in Eb as [E _].
    cbn [handleWaffoMethodSelect with_payment with_method wp_info]. destruct (wp_info p); [|done]. by eapply priced_same; [..|exact Hp].
  - destruct Hio as [-> Hr]. assert (wp_info (calculationAnswered 0 reply p) = wp_info p) as ->.
    { unfold calculationAnswered. by destruct (wp_calcs p !! 0). }
    destruct (wp_info p); [by apply priced_answered|]. destruct Hp as (Hc & Hp). unfold calculationAnswered, untouched. rewrite Hc. cbn. by rewrite Hc.
  - destruct (_ && _); [|done]. unfold handlePaymentConfirm. destruct (wp_method p); [|done]. cbn [with_payment wp_info]. by destruct (wp_info p); [eapply priced_same; [..|exact Hp]|].
  - cbn [with_payment wp_info]. destruct (wp_info p); [by eapply priced_same; [..|exact Hp]|]. by destruct Hp as (? & ? & ? & ?).
  - unfold paymentAnswered. destruct (wp_paying p) as [type|]; [|done]. destruct (if isWaffoPancakePayment type then _ else _) as [effects success]. cbn [with_payment wp_info]. destruct (wp_info p); [by eapply priced_same; [..|exact Hp]|].
    destruct Hp as (Hc & Ha & Ho & Hw). unfold untouched. cbn. rewrite Ho. by destruct success.
  - unfold waffoAnswered. destruct (wp_waffo p) eqn:Ew; [|done]. cbn [with_payment with_method wp_info]. destruct (wp_info p); [by eapply priced_same; [..|exact Hp]|].
    destruct Hp as (_ & _ & _ & Hw). congruence.
Qed.

Lemma price_invariant_reach ok p : (∀ e p, ok e p → in_order e p) → reach ok p → price_invariant p.
Proof. intros Hok. induction 1 as [|e p _ IH He]; [done|]. apply price_invariant_step; auto. Qed.

(** ** The dialog *)

Definition ordinary (l : list Calculation) : Prop := Forall (λ c, ca_opens c = false) l.

Definition enough (p : WalletPage) : Prop := n_lt (wp_topupAmount p) (getMinTopupAmount (wp_info p)) = false.

Definition quiet (p : WalletPage) : Prop := ordinary (wp_calcs p) ∧ wp_confirmOpen p = false.

(** A method was chosen, and its price is asked for last. *)
Definition pricing (p : WalletPage) : Prop := ∃ l m,
  wp_calcs p = l ++ [{| ca_request := amount_request (wp_topupAmount p) (pm_type m); ca_opens := true |}] ∧ ordinary l ∧
  wp_confirmOpen p = false ∧ wp_paymentLoading p ≠ None ∧ wp_waffo p = false ∧ wp_method p = Some m ∧ enough p.

Definition confirming (p : WalletPage) : Prop := ∃ m,
  wp_calcs p = [] ∧ wp_confirmOpen p = true ∧ wp_method p = Some m ∧ wp_amount p = price (wp_topupAmount p) (pm_type m) ∧ enough p.

Definition dialog_invariant (p : WalletPage) : Prop :=
  (quiet p ∨ pricing p ∨ confirming p) ∧ (wp_waffo p = true → wp_paymentLoading p ≠ None) ∧ (wp_info p = None → untouched p).

Definition proper (e : WalletEvent) (p : WalletPage) : Prop := in_order e p ∧ undisturbed e p.

(** The fields the dialog depends on. *)
Lemma dialog_same p q : wp_info q = wp_info p → wp_calcs q = wp_calcs p → wp_topupAmount q = wp_topupAmount p → wp_confirmOpen q = wp_confirmOpen p →
  wp_method q = wp_method p → wp_amount q = wp_amount p → wp_paymentLoading q = wp_paymentLoading p → wp_waffo q = wp_waffo p →
  dialog_invariant p → dialog_invariant q.
Proof.
  unfold dialog_invariant, quiet, pricing, confirming, enough, untouched. intros -> -> -> -> -> -> -> ->. done.
Qed.

Lemma quiet_calculate v type p : quiet p → quiet (calculatePaymentAmount v type false p).
Proof. intros [H1 H2]. split; [|done]. cbn [calculatePaymentAmount wp_calcs]. apply Forall_app. split; [done|]. by apply Forall_singleton. Qed.

Lemma quiet_amount v o p : quiet p → quiet (with_amount v o p).
Proof. done. Qed.

Lemma quiet_initial p : quiet p → quiet (initialAmount p).
Proof. intros H. unfold initialAmount. destruct (wp_info p); [|done]. destruct (n_eq _ _); [|done]. by apply quiet_calculate. Qed.

Lemma quiet_changed v p : quiet p → quiet (amountChanged v p).
Proof. intros H. unfold amountChanged. case_bool_decide; [done|by apply quiet_initial]. Qed.

Lemma waffo_initial p : wp_waffo (initialAmount p) = wp_waffo p ∧ wp_paymentLoading (initialAmount p) = wp_paymentLoading p.
Proof. unfold initialAmount. destruct (wp_info p); [|done]. by destruct (n_eq _ _). Qed.

Lemma waffo_changed v p : wp_waffo (amountChanged v p) = wp_waffo p ∧ wp_paymentLoading (amountChanged v p) = wp_paymentLoading p.
Proof. unfold amountChanged. case_bool_decide; [done|apply waffo_initial]. Qed.

(** A change of the amount while nothing is being chosen. *)
Lemma dialog_amount v o w type p : form_open p = true → ordinary (wp_calcs p) → dialog_invariant p →
  dialog_invariant (amountChanged w (calculatePaymentAmount v type false (with_amount v o p))).
Proof.
  intros [Hi Ho]%form_open_true Hc (_ & Hw & _). split_and!.
  - left. apply quiet_changed, quiet_calculate, quiet_amount. by split.
  - rewrite (proj1 (waffo_changed _ _)), (proj2 (waffo_changed _ _)). exact Hw.
  - rewrite info_changed. by intros ?.
Qed.

Lemma dialog_answered reply p : (∀ c, head (wp_calcs p) = Some c → reply = server (ca_request c)) →
  dialog_invariant p → dialog_invariant (calculationAnswered 0 reply p).
Proof.
  intros Hr (Hph & Hw & Hi). unfold calculationAnswered. destruct (wp_calcs p) as [|c l] eqn:E; [done|]. cbn [lookup list_lookup].
  assert (wp_info p ≠ None) as Hinfo by (intros H; destruct (Hi H) as [H' _]; congruence).
  destruct Hph as [[Hq Hc]|[(l' & m & Hl & Ho & Hc & Hlo & Hwf & Hm & Hen)|(m & Hl & _)]]; [| |congruence].
  - rewrite E in Hq. apply Forall_cons in Hq as [Hq1 Hq2]. split_and!.
    + left. split; cbn [wp_calcs wp_confirmOpen delete list_delete]; [done|]. by rewrite Hq1.
    + cbn. by rewrite Hq1.
    + done.
  - rewrite E in Hl. destruct l' as [|c' l'].
    + injection Hl as -> ->. split_and!; [|by cbn; rewrite Hwf|done]. right; right. exists m. split_and!; try done.
      cbn [wp_amount wp_topupAmount]. by rewrite (Hr _ eq_refl).
    + injection Hl as -> ->. apply Forall_cons in Ho as [Ho1 Ho2]. split_and!; [|by cbn; rewrite Hwf|done]. right; left.
      exists l', m. split_and!; try done; cbn; by rewrite Ho1.
Qed.

(** Closing the dialog, with whatever else happens to payments. *)
Lemma dialog_closed paying sent effects p : dialog_invariant p → dialog_invariant (with_payment paying false sent effects p).
Proof.
  intros (Hph & Hw & Hi). split_and!; [|exact Hw|intros H; destruct (Hi H) as (? & ? & ? & ?); by split_and!].
  destruct Hph as [[Hq _]|[(l & m & Hl & Ho & _ & Hlo & Hwf & Hm & Hen)|(m & Hl & _)]].
  - left. by split.
  - right; left. exists l, m. by split_and!.
  - left. split; cbn [with_payment wp_calcs wp_confirmOpen]; [rewrite Hl; by apply Forall_nil|done].
Qed.

Lemma dialog_invariant_step e p : proper e p → dialog_invariant p → dialog_invariant (wallet_step url_protocol t e p).
Proof.
  intros [Hio Hu] Hp. destruct e as [ti|v|i|i|i|i reply| | |reply|reply]; cbn [wallet_step].
  - destruct (wp_info p) as [ti'|] eqn:E; [done|]. destruct Hp as (_ & _ & Hi). destruct (Hi E) as (Hc & Ha & Ho & Hw). unfold topupInfoLoaded. split_and!.
    + left. apply quiet_initial. split; cbn [wp_calcs wp_confirmOpen]; [rewrite Hc; by apply Forall_nil|done].
    + rewrite (proj1 (waffo_initial _)). cbn [wp_waffo]. congruence.
    + by rewrite info_initial.
  - destruct (form_open p) eqn:E; [|done]. unfold handleAmountChange. destruct (n_ge _ _); [|done]. by apply dialog_amount.
  - destruct (wp_presets p !! i) as [preset|]; [|done]. destruct (form_open p) eqn:E; [|done]. by apply dialog_amount.
  - destruct (_ ≫= _) as [m|]; [|done]. destruct (form_open p && _ && _) eqn:Eb; [|done].
    apply andb_true_iff in Eb as [[Eb El]%andb_true_iff _]. apply form_open_true in Eb as [Ei Eo]. apply bool_decide_eq_true in El.
    destruct Hp as (Hph & Hw & Hi). assert (wp_waffo p = false) as Hwf by (destruct (wp_waffo p); [by destruct Hw|done]).
    destruct Hph as [[Hq _]|[(l & m' & _ & _ & _ & Hlo & _)|(m' & _ & Hop & _)]]; [|done|congruence].
    unfold handlePaymentMethodSelect. destruct (n_lt _ _) eqn:En.
    + split_and!; [left; by split|cbn; congruence|done].
    + split_and!; [right; left|cbn; congruence|done]. exists (wp_calcs p), m. split_and!; try done.
  - destruct (_ ≫= _) as [m|]; [|done]. destruct (form_open p && _ && _) eqn:Eb; [|done].
    apply andb_true_iff in Eb as [[Eb El]%andb_true_iff _]. apply form_open_true in Eb as [Ei Eo]. apply bool_decide_eq_true in El.
    destruct Hp as (Hph & Hw & Hi). destruct Hph as [Hq|[(l & m' & _ & _ & _ & Hlo & _)|(m' & _ & Hop & _)]]; [|done|congruence].
    split_and!; [left; exact Hq|done|done].
  - destruct Hio as [-> Hr]. by apply dialog_answered.
  - destruct (_ && _); [|done]. unfold handlePaymentConfirm. destruct (wp_method p) eqn:Em; [|done].
    eapply dialog_same; [..|exact Hp]; try done.
  - by apply dialog_closed.
  - unfold paymentAnswered. destruct (wp_paying p) as [type|]; [|done].
    destruct (if isWaffoPancakePayment type then _ else _) as [effects success]. destruct success; [by apply dialog_closed|by eapply dialog_same; [..|exact Hp]].
  - unfold waffoAnswered. destruct (wp_waffo p) eqn:Ew; [|done]. destruct Hp as (Hph & Hw & Hi).
    destruct Hph as [Hq|[(l & m' & _ & _ & _ & _ & Hwf & _)|(m & Hc)]]; [|congruence|].
    + split_and!; [left; exact Hq|done|]. intros H. destruct (Hi H) as (? & ? & ? & ?). congruence.
    + split_and!; [right; right; exists m; exact Hc|done|]. intros H. destruct (Hi H) as (? & ? & ? & ?). congruence.
Qed.

(** C39. The price shown is the price of the amount shown: when the server's
    answers arrive in the order of the requests, then in every state of the page
    in which no answer is missing the price is the server's answer for the
    amount in the form. *)
Theorem price_follows_amount p : reach in_order p → wp_info p ≠ None → wp_calcs p = [] →
  ∃ type, wp_amount p = price (wp_topupAmount p) type.
Proof.
  intros Hr Hi Hc. pose proof (price_invariant_reach in_order p (λ _ _ H, H) Hr) as H. unfold price_invariant in H.
  destruct (wp_info p); [|done]. destruct H as [type H]. rewrite Hc in H. by exists type.
Qed.

Lemma dialog_invariant_reach p : reach proper p → dialog_invariant p.
Proof.
  induction 1 as [|e p _ IH He]; [|by apply dialog_invariant_step]. split_and!; [left|done|done]. split; [by apply Forall_nil|done].
Qed.

(** C12. What is confirmed is what is paid: when answers arrive in order and the
    amount is left alone while a chosen method is being priced, the open dialog
    shows the server's price of the amount with the chosen method, the amount is
    not below the least one, and confirming sends one payment, of that amount in
    whole units and with that method. *)
Theorem confirmed_price p : reach proper p → wp_confirmOpen p = true →
  ∃ m, wp_method p = Some m ∧ wp_amount p = price (wp_topupAmount p) (pm_type m) ∧
    n_lt (wp_topupAmount p) (getMinTopupAmount (wp_info p)) = false ∧
    (wp_paying p = None → wp_sent (wallet_step url_protocol t Confirm p) = wp_sent p ++
       [if isWaffoPancakePayment (pm_type m) then PayPancake (math_floor (wp_topupAmount p))
        else if isStripePayment (pm_type m) then PayStripe (math_floor (wp_topupAmount p))
        else PayEpay (math_floor (wp_topupAmount p)) (pm_type m)]).
Proof.
  intros Hr Ho. destruct (dialog_invariant_reach p Hr) as ([[_ Hc]|[(l & m & _ & _ & Hc & _)|(m & _ & _ & Hm & Ha & He)]] & _); [congruence..|].
  exists m. split_and!; try done. intros Hp. cbn [wallet_step]. rewrite Ho, bool_decide_eq_true_2 by done. cbn [andb]. unfold handlePaymentConfirm.
  by rewrite Hm.
Qed.
End Page.

(** ** Past payments *)

Section HistoryFacts.
Context {TopupRecord : Type} (server : HistoryQuery → option (HistoryPage TopupRecord)).

(** Answers arrive in order, and nothing else is asked for while an order is
    being completed. *)
Definition answered_in_order (e : HistoryEvent TopupRecord) (b : BillingHistory TopupRecord) : Prop :=
  match e with
  | HistoryAnswered i reply => i = 0 ∧ ∀ q, head (bh_inflight b) = Some q → reply = server q
  | OrderCompleted _ _ asked => asked = bh_query b
  | _ => True
  end.

Definition shows (b : BillingHistory TopupRecord) (q : HistoryQuery) : Prop :=
  match server q with
  | Some page => bh_records b = hp_items page ∧ bh_total b = hp_total page
  | None => bh_records b = [] ∧ bh_total b = of_Z 0
  end.

(** The current query was asked last, or is shown. *)
Definition current (b : BillingHistory TopupRecord) : Prop :=
  match last (bh_inflight b) with Some q => q = bh_query b | None => shows b (bh_query b) end.

Inductive history_reach (page size : num) : BillingHistory TopupRecord → Prop :=
  | history_mount : history_reach page size (mountHistory page size)
  | history_next e b : history_reach page size b → answered_in_order e b → history_reach page size (history_step e b).

Lemma current_fetch b : current (fetchBillingHistory (bh_query b) b).
Proof. unfold current, fetchBillingHistory. cbn [set_history bh_inflight bh_query]. by rewrite last_snoc. Qed.

Lemma current_query q b : current b → current (queryChanged q b).
Proof. intros H. unfold queryChanged. case_bool_decide; [done|]. set (b' := {| bh_records := _ |}). change q with (bh_query b') at 1. apply current_fetch. Qed.

Lemma current_answered reply b : (∀ q, head (bh_inflight b) = Some q → reply = server q) → current b → current (historyAnswered 0 reply b).
Proof.
  intros Hr. unfold historyAnswered, current. destruct (bh_inflight b) as [|q l] eqn:E; [by cbn [lookup list_lookup]; rewrite E|]. cbn [lookup list_lookup].
  rewrite (Hr q eq_refl). intros H. destruct l as [|q' l].
  - cbn [last] in H. subst q. unfold shows. destruct (server (bh_query b)) eqn:Es; cbn; by rewrite Es.
  - rewrite last_cons_cons in H. destruct (last (q' :: l)) as [x|] eqn:El; [|by apply last_None in El].
    destruct (server q); cbn [set_history bh_inflight bh_query delete list_delete]; by rewrite El.
Qed.

(** The list of past payments is the one asked for: when answers arrive in
    order and nothing else is asked for while an order is being completed, then
    whenever no answer is missing the records and their number are the
    server's for the page, the size and the search text in the form. *)
Theorem history_current page size b : history_reach page size b → bh_inflight b = [] → shows b (bh_query b).
Proof.
  intros Hr Hi. assert (current b) as H; [|unfold current in H; by rewrite Hi in H]. clear Hi.
  induction Hr as [|e b _ IH He]; [reflexivity|]. destruct e as [n|n|k|i reply|a s q|]; cbn [history_step].
  - by apply current_query.
  - by apply current_query.
  - by apply current_query.
  - destruct He as [-> Hr]. by apply current_answered.
  - cbn in He. subst q. unfold orderCompleted. destruct (a && s); [apply current_fetch|done].
  - apply current_fetch.
Qed.
End HistoryFacts.

(** ** Discounts *)

(** The discounts by amount: the last entry whose name is that number decides. *)
Lemma discount_entries l r k : obj_get k (fold_left discount_entry l r) =
  match List.find (λ kv, isFinite (string_to_number kv.1) && isFinite (to_number kv.2) && str_eqb k (num_to_string (string_to_number kv.1))) (rev l) with
  | Some kv => Some (to_number kv.2)
  | None => obj_get k r
  end.
Proof.
  induction l as [|kv l IH] using rev_ind; [done|]. rewrite fold_left_app, rev_app_distr. cbn [fold_left rev app List.find]. unfold discount_entry at 1.
  destruct (isFinite (string_to_number kv.1) && isFinite (to_number kv.2)); cbn [andb]; [|exact IH].
  rewrite obj_get_set. by destruct (str_eqb k _).
Qed.

(** A preset carries the discount of its amount, and a discount of zero, which
    would make it free, counts as none. *)
Lemma preset_discount options o i v : options !! i = Some v →
  ∃ preset, mergePresetAmounts options (parseDiscountMap (JObj o)) !! i = Some preset ∧ pa_value preset = v ∧
    pa_discount preset = Some (match List.find (λ kv, isFinite (string_to_number kv.1) && isFinite (to_number kv.2) &&
        str_eqb (num_to_string v) (num_to_string (string_to_number kv.1))) (rev (own_entries o)) with
      | Some kv => num_or (to_number kv.2) (of_Z 1) | None => of_Z 1 end).
Proof.
  intros Hi. unfold mergePresetAmounts. rewrite list_lookup_fmap, Hi. cbn [fmap option_fmap option_map]. eexists. split; [done|]. split; [done|].
  cbn [pa_discount]. f_equal. unfold parseDiscountMap. cbn [truthy negb]. rewrite discount_entries. cbn [obj_get]. by destruct (List.find _ _).
Qed.

(** ** Defects *)

Definition sample_method : PaymentMethod := {| pm_name := js "Alipay"; pm_type := ALIPAY; pm_color := None; pm_min_topup := of_Z 0 |}.

Definition sample_info : TopupInfo :=
  {| ti_enable_online_topup := true; ti_enable_stripe_topup := false; ti_enable_waffo_topup := false; ti_enable_waffo_pancake_topup := false;
     ti_min_topup := of_Z 10; ti_stripe_min_topup := of_Z 0; ti_waffo_min_topup := None; ti_waffo_pancake_min_topup := None;
     ti_pay_methods := [sample_method]; ti_amount_options := []; ti_discount := []; ti_creem_products := []; ti_waffo_pay_methods := [] |}.

Definition reply_of (text : string) : ApiReply :=
  Answer {| ar_success := Some true; ar_message := None; ar_data := JStr (js_of_string text); ar_url := None |}.

Definition sample_run (es : list WalletEvent) : WalletPage := wallet_run (λ _, None) (λ s, s) es initial_page.

(** Answers out of order leave the price of another amount, with nothing left to
    wait for. *)
Lemma stale_price_shown :
  let p := sample_run [InfoLoaded sample_info; CalculationAnswered 0 (reply_of "70"); TypeAmount (js "100"); TypeAmount (js "200");
                       CalculationAnswered 1 (reply_of "1400"); CalculationAnswered 0 (reply_of "700")] in
  wp_topupAmount p = of_Z 200 ∧ wp_amount p = of_Z 700 ∧ wp_calculating p = false ∧ wp_calcs p = [].
Proof. cbv zeta. split; [|split; [|split]]; vm_compute; reflexivity. Qed.

(** The least amount is only checked when a method is chosen: an amount typed
    while its price is on the way is paid though it is below. *)
Lemma below_minimum_paid :
  let p := sample_run [InfoLoaded sample_info; CalculationAnswered 0 (reply_of "70"); SelectMethod 0; TypeAmount (js "1");
                       CalculationAnswered 0 (reply_of "70"); CalculationAnswered 0 (reply_of "7"); Confirm] in
  getMinTopupAmount (wp_info p) = of_Z 10 ∧ wp_sent p = [PayEpay (of_Z 1) ALIPAY].
Proof. cbv zeta. split; vm_compute; reflexivity. Qed.

(** A payment the server accepts without a link ends without any message. *)
Lemma silent_failure : payment_result (λ s, s) STRIPE (reply_of "") = ([], false).
Proof. vm_compute. reflexivity. Qed.

(** Only one of the services checks the protocol of the link it opens. *)
Lemma unchecked_link_opened :
  let reply k := Answer {| ar_success := Some true; ar_message := None; ar_data := JObj [(js_of_string k, JStr (js "javascript:x"))]; ar_url := None |} in
  let protocol (s : jstr) := Some (js "javascript:") in
  (waffo_result (λ s, s) (reply "payment_url"%string)).1 = [OpenWindow (js "javascript:x"); ToastSuccess REDIRECTING] ∧
  pancake_result protocol (λ s, s) (reply "checkout_url"%string) = ([ToastError (js "Invalid payment redirect URL")], false).
Proof. cbv zeta. split; vm_compute; reflexivity. Qed.

(** A page of past payments may be shown under the number of another. *)
Lemma stale_history_shown :
  let b := history_step (HistoryAnswered 0 (Some {| hp_items := [1]; hp_total := of_Z 20 |}))
    (history_step (HistoryAnswered 1 (Some {| hp_items := [2]; hp_total := of_Z 20 |}))
      (history_step (ChangePage (of_Z 2)) (mountHistory (of_Z 1) (of_Z 10)))) in
  hq_page (bh_query b) = of_Z 2 ∧ bh_records b = [1] ∧ bh_inflight b = [] ∧ bh_loading b = false.
Proof. cbv zeta. split; [|split; [|split]]; vm_compute; reflexivity. Qed.

(** ** Witnesses *)

Definition sample_server (r : AmountRequest) : ApiReply := reply_of "70".

Definition steps_to (es : list WalletEvent) : Prop := reach (λ _, None) (λ s, s) (proper sample_server) (sample_run es).

Lemma sample_steps : steps_to [InfoLoaded sample_info; CalculationAnswered 0 (reply_of "70"); SelectMethod 0; CalculationAnswered 0 (reply_of "70")].
Proof. unfold steps_to, sample_run, wallet_run. cbn [fold_left]. repeat (apply reach_step; [|by repeat split]). apply reach_initial. Qed.

Lemma price_follows_amount_witness : ∃ type,
  wp_amount (sample_run [InfoLoaded sample_info; CalculationAnswered 0 (reply_of "70")]) =
  price sample_server (wp_topupAmount (sample_run [InfoLoaded sample_info; CalculationAnswered 0 (reply_of "70")])) type.
Proof.
  apply (price_follows_amount (λ _, None) (λ s, s) sample_server).
  - unfold sample_run, wallet_run. cbn [fold_left]. repeat (apply reach_step; [|by repeat split]). apply reach_initial.
  - vm_compute. discriminate.
  - vm_compute. reflexivity.
Defined.

Lemma confirmed_price_witness :
  let p := sample_run [InfoLoaded sample_info; CalculationAnswered 0 (reply_of "70"); SelectMethod 0; CalculationAnswered 0 (reply_of "70")] in
  ∃ m, wp_method p = Some m ∧ wp_amount p = price sample_server (wp_topupAmount p) (pm_type m).
Proof.
  destruct (confirmed_price (λ _, None) (λ s, s) sample_server _ sample_steps) as (m & Hm & Ha & _); [vm_compute; reflexivity|].
  exists m. split; [exact Hm|exact Ha].
Defined.

Definition sample_history (q : HistoryQuery) : option (HistoryPage nat) := Some {| hp_items := [length (hq_keyword q)]; hp_total := of_Z 1 |}.

Lemma history_current_witness :
  bh_records (history_step (HistoryAnswered 0 (sample_history {| hq_page := of_Z 1; hq_pageSize := of_Z 10; hq_keyword := js "ab" |}))
    (history_step (HistoryAnswered 0 (sample_history {| hq_page := of_Z 1; hq_pageSize := of_Z 10; hq_keyword := [] |}))
      (history_step (Search (js "ab")) (mountHistory (of_Z 1) (of_Z 10))))) = [2].
Proof.
  match goal with |- bh_records ?b = _ => assert (shows sample_history b (bh_query b)) as [H _] end; [|rewrite H; vm_compute; reflexivity].
  apply (history_current sample_history (of_Z 1) (of_Z 10)); [|vm_compute; reflexivity].
  repeat (apply history_next; [|]); try apply history_mount; try done.
  - split; [done|]. intros q Hq. assert (head (bh_inflight (history_step (Search (js "ab")) (mountHistory (TopupRecord := nat) (of_Z 1) (of_Z 10)))) =
      Some {| hq_page := of_Z 1; hq_pageSize := of_Z 10; hq_keyword := [] |}) as E by (vm_compute; reflexivity). rewrite E in Hq. by injection Hq as <-.
  - split; [done|]. intros q Hq.
    assert (head (bh_inflight (history_step (HistoryAnswered 0 (sample_history {| hq_page := of_Z 1; hq_pageSize := of_Z 10; hq_keyword := [] |}))
      (history_step (Search (js "ab")) (mountHistory (of_Z 1) (of_Z 10))))) = Some {| hq_page := of_Z 1; hq_pageSize := of_Z 10; hq_keyword := js "ab" |}) as E
      by (vm_compute; reflexivity). rewrite E in Hq. by injection Hq as <-.
Defined.
