(* ===== verification/AccountForms.v ===== *)
(** * Forms of keys, users, redemption codes, plans and models

    What the forms send and what they show of a stored record:
    features/keys/lib/api-key-form.ts with the group correction and the creation
    loop of api-keys-mutate-drawer.tsx, features/users/lib/user-form.ts,
    features/redemption-codes/lib (redemption-form.ts, utils.ts),
    features/subscriptions/lib (plan-form.ts, format.ts) and features/models/lib
    (model-form.ts, model-utils.ts, deployments-utils.ts).

    A date is its time in milliseconds; its text ([toISOString]) and the reading of
    texts are the host's.  The form library validates with the schemas before
    anything is sent. *)

From S2P Require Import Prelude JsNumber JsNumberFacts JsString JsValue Host Currency Format Time.

Open Scope nat_scope.

(** [s || d] where [s] may be missing. *)
Definition text_or (s : option jstr) (d : jstr) : jstr := str_or (default [] s) d.

(** [Number(x || d)] where [x] may be missing. *)
Definition number_or (x : option num) (d : num) : num := num_or (default NaN x) d.

Definition comma := [44%N].

(** ** Dates of the server: seconds, a text, or none *)

Section Forms.
Context `{H : Host} (toISOString : num → jstr) (state : SystemConfigState).

Definition date_of_timestamp (value : Timestamp) : option num :=
  match value with
  | TNum n => if n_gt n (of_Z 0) then Some (time_clip (n_mul n (of_Z 1000))) else None
  | TText s => let d := date_of_input s in if isNaN d then None else Some d
  end.

(** [toDate] of the key form: -1 and nothing mean never. *)
Definition key_toDate (value : option Timestamp) : option num :=
  match value with
  | None | Some (TText []) => None
  | Some v => if is_never (Some v) then None else date_of_timestamp v
  end.

(** [toDate] of the redemption form: 0 and nothing mean never. *)
Definition redemption_toDate (value : option Timestamp) : option num :=
  match value with
  | None | Some (TText []) => None
  | Some (TNum n) => if n_eq n (of_Z 0) then None else date_of_timestamp (TNum n)
  | Some v => date_of_timestamp v
  end.

(** ** Keys *)

Definition KEY_DEFAULT_GROUP : jstr := [].

Record ApiKeyFormValues := {
  kf_name : jstr; kf_remain_quota_dollars : option num; kf_expired_time : option num; kf_unlimited_quota : bool;
  kf_model_limits : list jstr; kf_allow_ips : option jstr; kf_group : option jstr; kf_cross_group_retry : option bool;
  kf_tokenCount : option num
}.

Record ApiKeyFormData := {
  kd_name : jstr; kd_remain_quota : num; kd_expired_time : option Timestamp; kd_unlimited_quota : bool;
  kd_model_limits_enabled : bool; kd_model_limits : jstr; kd_allow_ips : jstr; kd_group : jstr; kd_cross_group_retry : bool
}.

(** What the form reads of a key. *)
Record ApiKey := {
  ak_name : jstr; ak_remain_quota : num; ak_expired_time : option Timestamp; ak_unlimited_quota : bool;
  ak_model_limits_enabled : bool; ak_model_limits : option jstr; ak_allow_ips : option jstr; ak_group : option jstr;
  ak_cross_group_retry : option bool
}.

Definition apiKeyFormSchema (f : ApiKeyFormValues) : bool :=
  str_truthy (kf_name f) &&
  match kf_remain_quota_dollars f with Some q => isFinite q && n_ge q (of_Z 0) | None => true end &&
  match kf_expired_time f with Some d => negb (isNaN d) | None => true end &&
  match kf_tokenCount f with Some n => isFinite n && n_ge n (of_Z 1) | None => true end.

Definition API_KEY_FORM_DEFAULT_VALUES : ApiKeyFormValues :=
  {| kf_name := []; kf_remain_quota_dollars := Some (of_Z 10); kf_expired_time := None; kf_unlimited_quota := true;
     kf_model_limits := []; kf_allow_ips := Some []; kf_group := Some KEY_DEFAULT_GROUP; kf_cross_group_retry := Some true;
     kf_tokenCount := Some (of_Z 1) |}.

Definition getApiKeyFormDefaultValues (defaultUseAutoGroup : bool) : ApiKeyFormValues :=
  let d := API_KEY_FORM_DEFAULT_VALUES in
  {| kf_name := kf_name d; kf_remain_quota_dollars := kf_remain_quota_dollars d; kf_expired_time := kf_expired_time d;
     kf_unlimited_quota := kf_unlimited_quota d; kf_model_limits := kf_model_limits d; kf_allow_ips := kf_allow_ips d;
     kf_group := Some (if defaultUseAutoGroup then js "auto" else KEY_DEFAULT_GROUP);
     kf_cross_group_retry := Some defaultUseAutoGroup; kf_tokenCount := kf_tokenCount d |}.

Definition key_payload (data : ApiKeyFormValues) : ApiKeyFormData :=
  {| kd_name := kf_name data;
     kd_remain_quota := if kf_unlimited_quota data then of_Z 0
                        else parseQuotaFromDollars state (number_or (kf_remain_quota_dollars data) (of_Z 0));
     kd_expired_time := (λ d, TText (toISOString d)) <$> kf_expired_time data;
     kd_unlimited_quota := kf_unlimited_quota data;
     kd_model_limits_enabled := match kf_model_limits data with [] => false | _ => true end;
     kd_model_limits := join comma (kf_model_limits data);
     kd_allow_ips := text_or (kf_allow_ips data) [];
     kd_group := text_or (kf_group data) [];
     kd_cross_group_retry := if bool_decide (kf_group data = Some (js "auto")) then default false (kf_cross_group_retry data) else false |}.

Definition transformApiKeyToFormDefaults (k : ApiKey) : ApiKeyFormValues :=
  {| kf_name := ak_name k;
     kf_remain_quota_dollars := Some (quotaUnitsToDollars state (ak_remain_quota k));
     kf_expired_time := key_toDate (ak_expired_time k);
     kf_unlimited_quota := ak_unlimited_quota k;
     kf_model_limits := match ak_model_limits k with
                        | Some ((_ :: _) as s) => filter (λ m, str_truthy m = true) (split s comma)
                        | _ => [] end;
     kf_allow_ips := Some (text_or (ak_allow_ips k) []);
     kf_group := Some (text_or (ak_group k) KEY_DEFAULT_GROUP);
     kf_cross_group_retry := Some (default false (ak_cross_group_retry k));
     kf_tokenCount := Some (of_Z 1) |}.

(** The effect that replaces a group that is not offered. *)
Definition set_group (g : jstr) (retry : option bool) (f : ApiKeyFormValues) : ApiKeyFormValues :=
  {| kf_name := kf_name f; kf_remain_quota_dollars := kf_remain_quota_dollars f; kf_expired_time := kf_expired_time f;
     kf_unlimited_quota := kf_unlimited_quota f; kf_model_limits := kf_model_limits f; kf_allow_ips := kf_allow_ips f;
     kf_group := Some g; kf_cross_group_retry := retry; kf_tokenCount := kf_tokenCount f |}.

Definition correctGroup (groups : list jstr) (f : ApiKeyFormValues) : ApiKeyFormValues :=
  match groups, kf_group f with
  | first :: _, Some ((_ :: _) as currentGroup) =>
      if bool_decide (currentGroup ∈ groups) then f
      else let fallback := if bool_decide (js "default" ∈ groups) then js "default" else first in
           set_group fallback (if str_eqb currentGroup (js "auto") then Some false else kf_cross_group_retry f) f
  | _, _ => f
  end.

(** *** Creating several keys: one request after the other, until one fails *)

Definition nth_key_name (name : jstr) (i : nat) (suffix : jstr) : jstr :=
  match i, name with
  | O, _ :: _ => name
  | _, _ => str_or name (js "default") ++ js "-" ++ suffix
  end.

(** [answers] are the suffix drawn for a request and whether the server accepts
    it; what is returned are the names asked for, the successes, and whether an
    error was shown. *)
Fixpoint create_loop (count : num) (name : jstr) (i : nat) (answers : list (jstr * bool)) : list jstr * nat * bool :=
  match answers with
  | [] => ([], 0, false)
  | (suffix, success) :: answers =>
      if n_lt (of_Z (Z.of_nat i)) count then
        let n := nth_key_name name i suffix in
        if success then let '(names, successCount, failed) := create_loop count name (S i) answers in (n :: names, S successCount, failed)
        else ([n], 0, true)
      else ([], 0, false)
  end.

Definition createKeys (data : ApiKeyFormValues) (answers : list (jstr * bool)) : list jstr * nat * bool :=
  create_loop (number_or (kf_tokenCount data) (of_Z 1)) (kf_name data) 0 answers.

(** ** Users *)

Definition USER_DEFAULT_GROUP : jstr := js "default".

Record UserFormValues := {
  uf_username : jstr; uf_display_name : option jstr; uf_password : option jstr; uf_role : option num;
  uf_quota_dollars : option num; uf_group : option jstr; uf_remark : option jstr
}.
Record UserPayload := {
  up_username : jstr; up_display_name : jstr; up_password : option jstr; up_role : option num;
  up_group : option jstr; up_remark : option jstr; up_id : option num
}.
Record User := { us_username : jstr; us_display_name : jstr; us_quota : num; us_group : jstr; us_role : num; us_remark : option jstr }.

Definition USER_FORM_DEFAULT_VALUES : UserFormValues :=
  {| uf_username := []; uf_display_name := Some []; uf_password := Some []; uf_role := Some (of_Z 1);
     uf_quota_dollars := Some (of_Z 0); uf_group := Some USER_DEFAULT_GROUP; uf_remark := Some [] |}.

(** [s || undefined] *)
Definition or_undefined (s : option jstr) : option jstr := match s with Some (_ :: _) => s | _ => None end.

Definition user_payload (data : UserFormValues) (userId : option num) : UserPayload :=
  {| up_username := uf_username data;
     up_display_name := text_or (uf_display_name data) (uf_username data);
     up_password := or_undefined (uf_password data);
     up_role := match userId with None => Some (number_or (uf_role data) (of_Z 1)) | Some _ => None end;
     up_group := match userId with None => None | Some _ => uf_group data end;
     up_remark := match userId with None => None | Some _ => or_undefined (uf_remark data) end;
     up_id := userId |}.

Definition transformUserToFormDefaults (user : User) : UserFormValues :=
  {| uf_username := us_username user; uf_display_name := Some (us_display_name user); uf_password := Some [];
     uf_role := Some (us_role user); uf_quota_dollars := Some (quotaUnitsToDollars state (us_quota user));
     uf_group := Some (str_or (us_group user) USER_DEFAULT_GROUP); uf_remark := Some (text_or (us_remark user) []) |}.

(** ** Redemption codes *)

Record RedemptionFormValues := { rf_name : jstr; rf_quota_dollars : num; rf_expired_time : option num; rf_count : option num }.
Record RedemptionFormData := { rd_name : jstr; rd_quota : num; rd_expired_time : option Timestamp; rd_count : num }.
Record Redemption := { rc_name : jstr; rc_status : num; rc_quota : num; rc_expired_time : option Timestamp }.

Definition redemptionFormSchema (f : RedemptionFormValues) : bool :=
  bool_decide (1 ≤ length (rf_name f) ≤ 20) && isFinite (rf_quota_dollars f) && n_ge (rf_quota_dollars f) (of_Z 0) &&
  match rf_expired_time f with Some d => negb (isNaN d) | None => true end &&
  match rf_count f with Some n => n_ge n (of_Z 1) && n_le n (of_Z 100) | None => true end.

Definition REDEMPTION_FORM_DEFAULT_VALUES : RedemptionFormValues :=
  {| rf_name := []; rf_quota_dollars := of_Z 10; rf_expired_time := None; rf_count := Some (of_Z 1) |}.

Definition redemption_payload (data : RedemptionFormValues) : RedemptionFormData :=
  {| rd_name := rf_name data; rd_quota := parseQuotaFromDollars state (rf_quota_dollars data);
     rd_expired_time := (λ d, TText (toISOString d)) <$> rf_expired_time data;
     rd_count := number_or (rf_count data) (of_Z 1) |}.

Definition transformRedemptionToFormDefaults (r : Redemption) : RedemptionFormValues :=
  {| rf_name := rc_name r; rf_quota_dollars := quotaUnitsToDollars state (rc_quota r);
     rf_expired_time := redemption_toDate (rc_expired_time r); rf_count := Some (of_Z 1) |}.

Definition isTimestampExpired (now : num) (timestamp : option Timestamp) : bool :=
  match timestamp with
  | None | Some (TText []) => false
  | Some (TText s) => let ms := date_parse s in if isNaN ms then false else n_lt ms now
  | Some (TNum n) => if n_eq n (of_Z 0) then false else n_lt n (n_div now (of_Z 1000))
  end.

Definition isRedemptionExpired (now : num) (expired_time : option Timestamp) (status : num) : bool :=
  n_eq status (of_Z 1) && isTimestampExpired now expired_time.
End Forms.
