(* ===== verification/CatalogForms.v ===== *)
(** * Forms of subscription plans and models

    features/subscriptions/lib (plan-form.ts, format.ts) and features/models/lib
    (model-form.ts, model-utils.ts, deployments-utils.ts): what the forms send, what
    they show of a stored record, and the texts of durations and times. *)

From S2P Require Import Prelude JsNumber JsString JsValue Host Format AccountForms.

Open Scope nat_scope.

(** ** Plans *)

Inductive DurationUnit := UYear | UMonth | UDay | UHour | UCustom.
Inductive ResetPeriod := RNever | RDaily | RWeekly | RMonthly | RCustom.

#[export] Instance DurationUnit_eq_dec : EqDecision DurationUnit.
Proof. solve_decision. Defined.
#[export] Instance ResetPeriod_eq_dec : EqDecision ResetPeriod.
Proof. solve_decision. Defined.

Record PlanFormValues := {
  pf_title : jstr; pf_subtitle : option jstr; pf_price_amount : num; pf_duration_unit : DurationUnit; pf_duration_value : num;
  pf_custom_seconds : option num; pf_quota_reset_period : ResetPeriod; pf_quota_reset_custom_seconds : option num;
  pf_enabled : bool; pf_sort_order : num; pf_max_purchase_per_user : num; pf_total_amount : num;
  pf_upgrade_group : option jstr; pf_stripe_price_id : option jstr; pf_creem_product_id : option jstr
}.

(** A plan as sent, or as received, where properties may be missing. *)
Record SubscriptionPlan := {
  pl_title : option jstr; pl_subtitle : option jstr; pl_price_amount : option num; pl_currency : option jstr;
  pl_duration_unit : option DurationUnit; pl_duration_value : option num; pl_custom_seconds : option num;
  pl_quota_reset_period : option ResetPeriod; pl_quota_reset_custom_seconds : option num; pl_enabled : option bool;
  pl_sort_order : option num; pl_max_purchase_per_user : option num; pl_total_amount : option num;
  pl_upgrade_group : option jstr; pl_stripe_price_id : option jstr; pl_creem_product_id : option jstr
}.

Definition planFormSchema (f : PlanFormValues) : bool :=
  let least (d x : num) := isFinite x && n_ge x d in
  let optional_least (d : num) (x : option num) := match x with Some x => least d x | None => true end in
  str_truthy (pf_title f) && least (of_Z 0) (pf_price_amount f) && least (of_Z 1) (pf_duration_value f) &&
  optional_least (of_Z 0) (pf_custom_seconds f) && optional_least (of_Z 0) (pf_quota_reset_custom_seconds f) &&
  isFinite (pf_sort_order f) && least (of_Z 0) (pf_max_purchase_per_user f) && least (of_Z 0) (pf_total_amount f).

Definition PLAN_FORM_DEFAULTS : PlanFormValues :=
  {| pf_title := []; pf_subtitle := Some []; pf_price_amount := of_Z 0; pf_duration_unit := UMonth; pf_duration_value := of_Z 1;
     pf_custom_seconds := Some (of_Z 0); pf_quota_reset_period := RNever; pf_quota_reset_custom_seconds := Some (of_Z 0);
     pf_enabled := true; pf_sort_order := of_Z 0; pf_max_purchase_per_user := of_Z 0; pf_total_amount := of_Z 0;
     pf_upgrade_group := Some []; pf_stripe_price_id := Some []; pf_creem_product_id := Some [] |}.

Definition planToFormValues (plan : SubscriptionPlan) : PlanFormValues :=
  {| pf_title := text_or (pl_title plan) []; pf_subtitle := Some (text_or (pl_subtitle plan) []);
     pf_price_amount := number_or (pl_price_amount plan) (of_Z 0);
     pf_duration_unit := default UMonth (pl_duration_unit plan);
     pf_duration_value := number_or (pl_duration_value plan) (of_Z 1);
     pf_custom_seconds := Some (number_or (pl_custom_seconds plan) (of_Z 0));
     pf_quota_reset_period := default RNever (pl_quota_reset_period plan);
     pf_quota_reset_custom_seconds := Some (number_or (pl_quota_reset_custom_seconds plan) (of_Z 0));
     pf_enabled := negb (bool_decide (pl_enabled plan = Some false));
     pf_sort_order := number_or (pl_sort_order plan) (of_Z 0);
     pf_max_purchase_per_user := number_or (pl_max_purchase_per_user plan) (of_Z 0);
     pf_total_amount := number_or (pl_total_amount plan) (of_Z 0);
     pf_upgrade_group := Some (text_or (pl_upgrade_group plan) []);
     pf_stripe_price_id := Some (text_or (pl_stripe_price_id plan) []);
     pf_creem_product_id := Some (text_or (pl_creem_product_id plan) []) |}.

Definition formValuesToPlanPayload (values : PlanFormValues) : SubscriptionPlan :=
  {| pl_title := Some (pf_title values); pl_subtitle := pf_subtitle values;
     pl_price_amount := Some (num_or (pf_price_amount values) (of_Z 0)); pl_currency := Some (js "USD");
     pl_duration_unit := Some (pf_duration_unit values);
     pl_duration_value := Some (num_or (pf_duration_value values) (of_Z 0));
     pl_custom_seconds := Some (number_or (pf_custom_seconds values) (of_Z 0));
     pl_quota_reset_period := Some (pf_quota_reset_period values);
     pl_quota_reset_custom_seconds :=
       Some (if bool_decide (pf_quota_reset_period values = RCustom) then number_or (pf_quota_reset_custom_seconds values) (of_Z 0) else of_Z 0);
     pl_enabled := Some (pf_enabled values);
     pl_sort_order := Some (num_or (pf_sort_order values) (of_Z 0));
     pl_max_purchase_per_user := Some (num_or (pf_max_purchase_per_user values) (of_Z 0));
     pl_total_amount := Some (num_or (pf_total_amount values) (of_Z 0));
     pl_upgrade_group := Some (text_or (pf_upgrade_group values) []);
     pl_stripe_price_id := pf_stripe_price_id values; pl_creem_product_id := pf_creem_product_id values |}.

Section Texts.
Context `{H : Host} (t : jstr → jstr).

(** [`${n} ${label}`], and whole units of a number of seconds. *)
Definition amount_of (n : num) (label : jstr) : jstr := num_to_string n ++ js " " ++ label.
Definition whole (seconds : num) (unit : Z) (label : jstr) : jstr := amount_of (math_floor (n_div seconds (of_Z unit))) (t label).

Definition formatDuration (plan : SubscriptionPlan) : jstr :=
  let value := number_or (pl_duration_value plan) (of_Z 1) in
  match default UMonth (pl_duration_unit plan) with
  | UCustom =>
      let seconds := number_or (pl_custom_seconds plan) (of_Z 0) in
      if n_ge seconds (of_Z 86400) then whole seconds 86400 (js "days")
      else if n_ge seconds (of_Z 3600) then whole seconds 3600 (js "hours")
      else amount_of seconds (t (js "seconds"))
  | UYear => amount_of value (str_or (t (js "years")) (js "year"))
  | UMonth => amount_of value (str_or (t (js "months")) (js "month"))
  | UDay => amount_of value (str_or (t (js "days")) (js "day"))
  | UHour => amount_of value (str_or (t (js "hours")) (js "hour"))
  end.

Definition formatResetPeriod (plan : SubscriptionPlan) : jstr :=
  match default RNever (pl_quota_reset_period plan) with
  | RDaily => t (js "Daily")
  | RWeekly => t (js "Weekly")
  | RMonthly => t (js "Monthly")
  | RCustom =>
      let seconds := number_or (pl_quota_reset_custom_seconds plan) (of_Z 0) in
      if n_ge seconds (of_Z 86400) then whole seconds 86400 (js "days")
      else if n_ge seconds (of_Z 3600) then whole seconds 3600 (js "hours")
      else if n_ge seconds (of_Z 60) then whole seconds 60 (js "minutes")
      else amount_of seconds (t (js "seconds"))
  | RNever => t (js "No Reset")
  end.

(** [ts == null || ts === 0 || ts === ''] *)
Definition no_time (ts : option Timestamp) : bool :=
  match ts with None | Some (TText []) => true | Some (TNum n) => n_eq n (of_Z 0) | _ => false end.

Definition plan_formatTimestamp (ts : option Timestamp) : jstr :=
  if no_time ts then js "-"
  else match ts with
       | Some (TText s) =>
           let ms := date_parse s in if isNaN ms then js "-" else dayjs_format ms (js "YYYY-MM-DD HH:mm:ss")
       | Some (TNum n) => dayjs_format (n_mul n (of_Z 1000)) (js "YYYY-MM-DD HH:mm:ss")
       | None => js "-"
       end.

(** ** Models: texts *)

Definition model_formatTimestamp (ts : option Timestamp) : jstr :=
  if no_time ts then js "-" else formatTimestampToDate ts Seconds.

Definition ago (n : num) (unit : jstr) (plural : bool) : jstr :=
  num_to_string n ++ js " " ++ unit ++ (if plural then js "s" else []) ++ js " ago".

Definition formatRelativeTime (now : num) (ts : option Timestamp) : jstr :=
  if no_time ts then js "Never"
  else
    let ms := match ts with Some (TText s) => date_parse s | Some (TNum n) => n_mul n (of_Z 1000) | None => NaN end in
    if isNaN ms then js "Never"
    else
      let seconds := math_floor (n_div (n_sub now ms) (of_Z 1000)) in
      let minutes := math_floor (n_div seconds (of_Z 60)) in
      let hours := math_floor (n_div minutes (of_Z 60)) in
      let days := math_floor (n_div hours (of_Z 24)) in
      if n_gt days (of_Z 0) then ago days (js "day") (n_gt days (of_Z 1))
      else if n_gt hours (of_Z 0) then ago hours (js "hour") (n_gt hours (of_Z 1))
      else if n_gt minutes (of_Z 0) then ago minutes (js "minute") (n_gt minutes (of_Z 1))
      else ago seconds (js "second") (negb (n_eq seconds (of_Z 1))).

Definition name_rule_labels : list jstr := map t [js "Exact"; js "Prefix"; js "Contains"; js "Suffix"].

Definition getNameRuleLabelByRule (rule : nat) : jstr := text_or (name_rule_labels !! rule) (js "-").

Definition quota_type_label (qt : num) : jstr :=
  let label := if n_eq qt (of_Z 0) then t (js "Usage-based") else if n_eq qt (of_Z 1) then t (js "Per-call") else [] in
  str_or label (num_to_string qt).

Definition formatQuotaTypes (quotaTypes : option (list num)) : jstr :=
  match quotaTypes with
  | None | Some [] => js "-"
  | Some l => join (js ", ") (map quota_type_label l)
  end.
End Texts.

(** *** Tags and endpoints *)

Definition parseModelTags (tags : option jstr) : list jstr :=
  match tags with
  | None | Some [] => []
  | Some s => filter (λ tag, str_truthy tag = true) (map trim (split s comma))
  end.

Definition formatTagsString (tags : list jstr) : jstr := join comma tags.

Definition parseEndpoints (endpoints : option jstr) : jsval :=
  match endpoints with
  | None => JNull
  | Some s => if negb (str_truthy s) || negb (str_truthy (trim s)) then JNull else default JNull (json_parse s)
  end.

Definition formatEndpointsDisplay (endpoints : option jstr) : list jstr :=
  let parsed := parseEndpoints endpoints in
  if negb (truthy parsed) then []
  else match parsed with
       | JObj o => own_keys o
       | JArr l => map to_string l
       | _ => []
       end.

Definition validateModelName (name : jstr) : bool := str_truthy (trim name).

Definition validateEndpointsJSON (endpoints : jstr) : bool :=
  if negb (str_truthy endpoints) || negb (str_truthy (trim endpoints)) then true
  else match json_parse endpoints with Some _ => true | None => false end.

(** ** Models: the form *)

Record Model := {
  md_id : option num; md_model_name : jstr; md_description : option jstr; md_icon : option jstr; md_tags : option jstr;
  md_vendor_id : option num; md_endpoints : option jstr; md_status : num; md_sync_official : num; md_name_rule : num;
  md_enable_groups : option (list jstr); md_quota_types : option (list num)
}.

Record ModelFormValues := {
  mf_id : option num; mf_model_name : jstr; mf_description : jstr; mf_icon : jstr; mf_tags : list jstr;
  mf_vendor_id : option num; mf_endpoints : jstr; mf_name_rule : num; mf_status : bool; mf_sync_official : bool;
  mf_enable_groups : list jstr; mf_quota_types : list num
}.

Definition modelFormSchema (f : ModelFormValues) : bool :=
  str_truthy (mf_model_name f) && n_ge (mf_name_rule f) (of_Z 0) && n_le (mf_name_rule f) (of_Z 3).

Definition isModelEnabled (m : Model) : bool := n_eq (md_status m) (of_Z 1).
Definition isModelSyncOfficial (m : Model) : bool := n_eq (md_sync_official m) (of_Z 1).

Definition transformModelToFormDefaults (m : Model) : ModelFormValues :=
  {| mf_id := md_id m; mf_model_name := md_model_name m; mf_description := text_or (md_description m) [];
     mf_icon := text_or (md_icon m) []; mf_tags := parseModelTags (md_tags m); mf_vendor_id := md_vendor_id m;
     mf_endpoints := text_or (md_endpoints m) []; mf_name_rule := num_or (md_name_rule m) (of_Z 0);
     mf_status := n_eq (md_status m) (of_Z 1); mf_sync_official := n_eq (md_sync_official m) (of_Z 1);
     mf_enable_groups := default [] (md_enable_groups m); mf_quota_types := default [] (md_quota_types m) |}.

Definition formatTagsArray (tags : list jstr) : jstr := join comma (filter (λ tag, str_truthy tag = true) tags).

Definition transformFormDataToModelPayload (f : ModelFormValues) : Model :=
  {| md_id := mf_id f; md_model_name := mf_model_name f; md_description := Some (mf_description f); md_icon := Some (mf_icon f);
     md_tags := Some (formatTagsArray (mf_tags f)); md_vendor_id := mf_vendor_id f; md_endpoints := Some (mf_endpoints f);
     md_status := if mf_status f then of_Z 1 else of_Z 0; md_sync_official := if mf_sync_official f then of_Z 1 else of_Z 0;
     md_name_rule := mf_name_rule f; md_enable_groups := Some (mf_enable_groups f); md_quota_types := Some (mf_quota_types f) |}.

Definition validateJSON (value : jstr) : bool :=
  if negb (str_truthy value) || str_eqb (trim value) [] then true
  else match json_parse value with Some _ => true | None => false end.

Definition validateEndpoints (endpoints : jstr) : bool := validateJSON endpoints.

(** ** Deployments *)

Definition normalizeDeploymentStatus (status : jsval) : jstr :=
  match status with JStr s => toLowerCase (trim s) | _ => [] end.

Definition formatRemainingMinutes (mins : jsval) : option jstr :=
  let n := match mins with JStr s => string_to_number s | JNum x => x | _ => NaN end in
  if negb (isFinite n) then None
  else
    let total := math_max (of_Z 0) (math_round n) in
    let days := math_floor (n_div total (of_Z 1440)) in
    let hours := math_floor (n_div (n_rem total (of_Z 1440)) (of_Z 60)) in
    let minutes := n_rem total (of_Z 60) in
    let parts := (if n_gt days (of_Z 0) then [num_to_string days ++ js "d"] else []) ++
                 (if n_gt hours (of_Z 0) then [num_to_string hours ++ js "h"] else []) in
    Some (join (js " ") (parts ++
      (if match parts with [] => true | _ => false end || n_gt minutes (of_Z 0) then [num_to_string minutes ++ js "m"] else []))).
