(* ===== verification/FormsFacts.v ===== *)
(** * Forms give back what was sent

    Facts about AccountForms.v and CatalogForms.v: opening the form of a record
    that holds what the form sent shows the form again, and saving it unchanged
    sends the same; the creation of several keys stops at the first failure; a
    code is expired exactly from the date of its form on. *)

From S2P Require Import Prelude JsNumber JsNumberFacts JsString JsValue Host Currency Format Time AccountForms CatalogForms.

Open Scope nat_scope.

(** ** Lists in one text *)

(** A name that can be part of a list in one text. *)
Definition part (s : jstr) : Prop := s ≠ [] ∧ 44%N ∉ s.

Lemma join_parts_nonempty l : l ≠ [] → Forall part l → join comma l ≠ [].
Proof.
  intros Hl H. destruct H as [|x l [Hx _] H]; [done|]. destruct x as [|c x]; [done|]. destruct l; by cbn.
Qed.

Lemma split_listed l : l ≠ [] → Forall part l → split (join comma l) comma = l.
Proof. intros Hl H. apply split_join; [done|]. eapply Forall_impl; [exact H|]. by intros ? []. Qed.

Lemma parts_truthy l : Forall part l → filter (λ m, str_truthy m = true) l = l.
Proof. intros H. apply filter_id. eapply Forall_impl; [exact H|]. intros x [Hx _]. by apply truthy_nonempty. Qed.

(** ** Numbers with a default *)

Lemma number_or_idemp x d : number_or (Some (number_or x d)) d = number_or x d.
Proof.
  unfold number_or. cbn [from_option]. generalize (default NaN x). intros y. unfold num_or, Datatypes.id.
  destruct (num_truthy y) eqn:E; [by rewrite E|by destruct (num_truthy d)].
Qed.

Lemma num_or_idemp x d : number_or (Some (num_or x d)) d = num_or x d.
Proof. apply (number_or_idemp (Some x)). Qed.

(** ** Keys *)

Section Keys.
Context `{H : Host} (toISOString : num → jstr) (state : SystemConfigState).

(** The host reads the text it makes of a date: [new Date(d.toISOString())] is the
    date, and the text is not empty. *)
Definition readable (d : num) : Prop := isNaN d = false ∧ toISOString d ≠ [] ∧ date_of_input (toISOString d) = d.

Lemma iso_date (e : option num) : (∀ d, e = Some d → readable d) →
  key_toDate ((λ d, TText (toISOString d)) <$> e) = e ∧ redemption_toDate ((λ d, TText (toISOString d)) <$> e) = e.
Proof.
  intros He. destruct e as [d|]; [|done]. destruct (He d eq_refl) as (Hn & Ht & Hd). cbn [fmap option_fmap option_map].
  unfold key_toDate, redemption_toDate, is_never, date_of_timestamp.
  destruct (toISOString d) as [|c s]; [done|]. by rewrite Hd, Hn.
Qed.

(** The server keeps what was sent. *)
Definition holds (k : ApiKey) (d : ApiKeyFormData) : Prop :=
  ak_name k = kd_name d ∧ ak_remain_quota k = kd_remain_quota d ∧ ak_expired_time k = kd_expired_time d ∧
  ak_unlimited_quota k = kd_unlimited_quota d ∧ ak_model_limits_enabled k = kd_model_limits_enabled d ∧
  ak_model_limits k = Some (kd_model_limits d) ∧ ak_allow_ips k = Some (kd_allow_ips d) ∧
  ak_group k = Some (kd_group d) ∧ ak_cross_group_retry k = Some (kd_cross_group_retry d).

(** A filled form in which quotas are shown in tokens. *)
Record key_form (f : ApiKeyFormValues) (q : Z) (ips g : jstr) : Prop := {
  kv_tokens : quotaDisplayType (getConfig state) = TOKENS;
  kv_quota : kf_remain_quota_dollars f = Some (of_Z q); kv_safe : safe q;
  kv_date : ∀ d, kf_expired_time f = Some d → readable d;
  kv_limits : Forall part (kf_model_limits f);
  kv_ips : kf_allow_ips f = Some ips; kv_group : kf_group f = Some g
}.

Lemma text_or_nil s : text_or (Some s) [] = s.
Proof. by destruct s. Qed.

Lemma limits_read l : Forall part l →
  match Some (join comma l) with
  | Some ((_ :: _) as s) => filter (λ m, str_truthy m = true) (split s comma)
  | _ => []
  end = l.
Proof.
  intros Hl. destruct (decide (l = [])) as [->|Hn]; [done|]. pose proof (join_parts_nonempty l Hn Hl) as Hj.
  destruct (join comma l) as [|c s] eqn:E; [done|]. rewrite <- E, split_listed by done. by apply parts_truthy.
Qed.

Lemma token_quota q : quotaDisplayType (getConfig state) = TOKENS → safe q →
  quotaUnitsToDollars state (of_Z q) = of_Z q ∧ parseQuotaFromDollars state (of_Z q) = of_Z q.
Proof.
  intros Ht Hq. unfold parseQuotaFromDollars, quotaUnitsToDollars, getCurrencyDisplay, getDisplayMeta. rewrite Ht.
  by rewrite of_Z_finite, math_round_of_Z by done.
Qed.

(** What the form shows of a key that holds what was sent. *)
Lemma shown_key f q ips g k : key_form f q ips g → holds k (key_payload toISOString state f) →
  transformApiKeyToFormDefaults state k =
  {| kf_name := kf_name f; kf_remain_quota_dollars := Some (if kf_unlimited_quota f then of_Z 0 else of_Z q);
     kf_expired_time := kf_expired_time f; kf_unlimited_quota := kf_unlimited_quota f; kf_model_limits := kf_model_limits f;
     kf_allow_ips := Some ips; kf_group := Some g;
     kf_cross_group_retry := Some (if bool_decide (Some g = Some (js "auto")) then default false (kf_cross_group_retry f) else false);
     kf_tokenCount := Some (of_Z 1) |}.
Proof.
  intros [Ht Hq Hs Hd Hl Hi Hg] (K1 & K2 & K3 & K4 & _ & K6 & K7 & K8 & K9).
  cbn [key_payload kd_name kd_remain_quota kd_expired_time kd_unlimited_quota kd_model_limits kd_allow_ips kd_group kd_cross_group_retry] in *.
  unfold transformApiKeyToFormDefaults. rewrite K1, K2, K3, K4, K6, K7, K8, K9, (proj1 (iso_date _ Hd)), (limits_read _ Hl), Hi, Hg, Hq.
  unfold KEY_DEFAULT_GROUP, number_or. cbn [from_option]. unfold Datatypes.id. rewrite !text_or_nil, num_or_whole by done. f_equal. f_equal.
  destruct (token_quota q Ht Hs) as [Q1 Q2], (token_quota 0 Ht ltac:(unfold safe; lia)) as [Z1 _].
  by destruct (kf_unlimited_quota f); rewrite ?Q2.
Qed.

(** The form of a key gives back what was sent: opening the form of a key that
    holds what a filled form sent shows its name, date, limits, addresses, group and
    quota again (no quota where it is unlimited, and the retry only for the group
    "auto"), and saving it unchanged sends exactly the same. *)
Theorem api_key_roundtrip (f : ApiKeyFormValues) (q : Z) (ips g : jstr) (k : ApiKey)
    (Hf : key_form f q ips g) (Hk : holds k (key_payload toISOString state f)) :
  let f' := transformApiKeyToFormDefaults state k in
  kf_name f' = kf_name f ∧ kf_expired_time f' = kf_expired_time f ∧ kf_unlimited_quota f' = kf_unlimited_quota f ∧
  kf_model_limits f' = kf_model_limits f ∧ kf_allow_ips f' = kf_allow_ips f ∧ kf_group f' = kf_group f ∧
  (kf_unlimited_quota f = false → kf_remain_quota_dollars f' = kf_remain_quota_dollars f) ∧
  (g = js "auto" → kf_cross_group_retry f' = Some (default false (kf_cross_group_retry f))) ∧
  key_payload toISOString state f' = key_payload toISOString state f.
Proof.
  cbv zeta. rewrite (shown_key f q ips g k Hf Hk). destruct Hf as [Ht Hq Hs Hd Hl Hi Hg].
  cbn [kf_name kf_expired_time kf_unlimited_quota kf_model_limits kf_allow_ips kf_group kf_remain_quota_dollars kf_cross_group_retry].
  split_and!; [done..|by rewrite Hi|by rewrite Hg|intros ->; by rewrite Hq|intros ->; by rewrite bool_decide_true|].
  unfold key_payload.
  cbn [kf_name kf_expired_time kf_unlimited_quota kf_model_limits kf_allow_ips kf_group kf_remain_quota_dollars kf_cross_group_retry].
  rewrite Hi, Hg, Hq. f_equal; [by destruct (kf_unlimited_quota f)|]. by destruct (bool_decide _).
Qed.
End Keys.

(** A host whose texts of dates are their numbers, and a form. *)
Definition number_host : Host := {|
  number_format o x := num_to_string x; math_pow x y := x; date_parse := string_to_number; utc_full_year ms := of_Z 1970;
  date_of_input := string_to_number; dayjs_format ms p := p; from_now ms := num_to_string ms;
  localeCompare a b := of_Z 0; year_month_label y m := num_to_string y |}.

Definition sample_key_form : ApiKeyFormValues :=
  {| kf_name := js "work"; kf_remain_quota_dollars := Some (of_Z 5000); kf_expired_time := Some (of_Z 1767225600000);
     kf_unlimited_quota := false; kf_model_limits := [js "gpt-4o"; js "claude-3"]; kf_allow_ips := Some (js "10.0.0.1");
     kf_group := Some (js "auto"); kf_cross_group_retry := Some true; kf_tokenCount := Some (of_Z 1) |}.

Definition sample_key : ApiKey :=
  {| ak_name := js "work"; ak_remain_quota := of_Z 5000; ak_expired_time := Some (TText (js "1767225600000"));
     ak_unlimited_quota := false; ak_model_limits_enabled := true; ak_model_limits := Some (js "gpt-4o,claude-3");
     ak_allow_ips := Some (js "10.0.0.1"); ak_group := Some (js "auto"); ak_cross_group_retry := Some true |}.

Lemma api_key_roundtrip_witness :
  key_payload num_to_string token_state (@transformApiKeyToFormDefaults number_host token_state sample_key)
  = key_payload num_to_string token_state sample_key_form.
Proof.
  apply (@api_key_roundtrip number_host num_to_string token_state sample_key_form 5000 (js "10.0.0.1") (js "auto") sample_key).
  - split; [reflexivity|reflexivity|vm_compute; split; reflexivity| | |reflexivity|reflexivity].
    + intros d Hd. injection Hd as <-. split_and!; [vm_compute; reflexivity|vm_compute; discriminate|vm_compute; reflexivity].
    + apply Forall_cons_2; [|apply Forall_cons_2; [|apply Forall_nil_2]];
        (split; [vm_compute; discriminate|apply (bool_decide_unpack _); vm_compute; exact I]).
  - vm_compute. repeat split.
Defined.

(** A key whose list of models is switched off has it switched on by any save:
    the form does not read the switch. *)
Theorem limits_reenabled :
  let k := {| ak_name := js "work"; ak_remain_quota := of_Z 5000; ak_expired_time := None; ak_unlimited_quota := true;
              ak_model_limits_enabled := false; ak_model_limits := Some (js "gpt-4o"); ak_allow_ips := None; ak_group := None;
              ak_cross_group_retry := None |} in
  kd_model_limits_enabled (key_payload num_to_string token_state (@transformApiKeyToFormDefaults number_host token_state k)) = true.
Proof. vm_compute. reflexivity. Qed.

(** A group that is named is one of those offered. *)
Lemma corrected_group groups f : groups ≠ [] →
  match kf_group (correctGroup groups f) with Some ((_ :: _) as g) => g ∈ groups | _ => True end.
Proof.
  intros Hg. unfold correctGroup. destruct groups as [|x groups]; [done|].
  destruct (kf_group f) as [[|c g]|] eqn:E; [by rewrite E| |by rewrite E].
  case_bool_decide as Hin; [by rewrite E|]. cbn [set_group kf_group]. case_bool_decide as Hd.
  - by destruct (js "default").
  - destruct x; [done|]. left.
Qed.

(** *** Several keys *)

(** Requests are sent one after the other while they succeed, at most [count] of
    them; the names asked for are the first of the list of names. *)
Theorem creation_stops (n : Z) (name : jstr) (i : nat) (answers : list (jstr * bool)) : safe n → (0 <= n)%Z →
  (Z.of_nat i + Z.of_nat (length answers) <= 2 ^ 53)%Z →
  let '(names, successCount, failed) := create_loop (of_Z n) name i answers in
  names = take (length names) (imap (λ j a, nth_key_name name (i + j) a.1) answers) ∧
  length names = (if failed then S successCount else successCount) ∧
  (Z.of_nat (i + length names) <= Z.max n (Z.of_nat i))%Z ∧
  Forall (λ a, a.2 = true) (take successCount answers) ∧
  (failed = true → snd <$> answers !! successCount = Some false) ∧
  (failed = false → successCount < length answers → (n <= Z.of_nat (i + successCount))%Z).
Proof.
  intros Hn Hn0. revert i. induction answers as [|[suffix ok] answers IH]; intros i Hi; cbn [create_loop].
  - cbn. split_and!; (done || lia || constructor).
  - cbn [length] in Hi. rewrite n_lt_of_Z by (done || (unfold safe in *; lia)).
    destruct (Z.ltb_spec (Z.of_nat i) n) as [Hlt|Hge].
    + destruct ok.
      * specialize (IH (S i) ltac:(lia)). destruct (create_loop _ _ _ _) as [[names s] failed].
        destruct IH as (H1 & H2 & H3 & H4 & H5 & H6). cbn [length imap take]. split_and!.
        -- f_equal; [by rewrite Nat.add_0_r|]. rewrite H1 at 1. f_equal. unfold compose. apply imap_ext. intros j x _. f_equal. lia.
        -- destruct failed; lia.
        -- lia.
        -- by constructor.
        -- done.
        -- intros Hf Hl. specialize (H6 Hf ltac:(lia)). lia.
      * cbn. rewrite Nat.add_0_r. split_and!; (done || lia || (by constructor)).
    + cbn. split_and!; (done || lia || constructor || (intros; lia)).
Qed.

(** ** Redemption codes *)

Section Redemptions.
Context `{H : Host} (toISOString : num → jstr) (state : SystemConfigState).

(** A code is expired exactly when it is enabled and the date its form was given
    has passed; without a date it never is.  The form shows that date again. *)
Theorem expiry_follows_form (f : RedemptionFormValues) (r : Redemption) (now : num) :
  (∀ d, rf_expired_time f = Some d → readable toISOString d ∧ date_parse (toISOString d) = d) →
  rc_expired_time r = rd_expired_time (redemption_payload toISOString state f) →
  rf_expired_time (transformRedemptionToFormDefaults state r) = rf_expired_time f ∧
  isRedemptionExpired now (rc_expired_time r) (rc_status r) =
    n_eq (rc_status r) (of_Z 1) && match rf_expired_time f with Some d => n_lt d now | None => false end.
Proof.
  intros Hd Hr. cbn [transformRedemptionToFormDefaults rf_expired_time]. rewrite Hr.
  cbn [redemption_payload rd_expired_time]. split.
  - apply iso_date. intros d E. by apply Hd.
  - unfold isRedemptionExpired. f_equal. destruct (rf_expired_time f) as [d|]; [|done].
    destruct (Hd d eq_refl) as ((Hn & Ht & _) & Hp). cbn [fmap option_fmap option_map isTimestampExpired].
    destruct (toISOString d) as [|c s]; [done|]. by rewrite Hp, Hn.
Qed.
End Redemptions.

(** A date in milliseconds, which the comment allows, is taken for seconds and
    never is in the past: here one of 2020 in 2026. *)
Theorem millis_never_expire :
  @isTimestampExpired plain_host (of_Z 1767225600000) (Some (TNum (of_Z 1577836800000))) = false.
Proof. vm_compute. reflexivity. Qed.

(** ** Plans *)

(** The form of a plan always has its texts. *)
Definition filled (f : PlanFormValues) : Prop :=
  is_Some (pf_subtitle f) ∧ is_Some (pf_stripe_price_id f) ∧ is_Some (pf_creem_product_id f).

Lemma at_least_one_truthy x : n_ge x (of_Z 1) = true → num_truthy x = true.
Proof. by destruct x as [[]|[]| |s m e]. Qed.

Lemma schema_duration f : planFormSchema f = true → num_truthy (pf_duration_value f) = true.
Proof.
  unfold planFormSchema. cbv zeta. intros H. repeat (apply andb_prop in H as [H ?]).
  match goal with Hd : isFinite (pf_duration_value f) && _ = true |- _ => apply andb_prop in Hd as [_ Hd]; by apply at_least_one_truthy end.
Qed.

(** Saving a plan from its own form, unchanged, sends what was sent before. *)
Theorem plan_resave (f : PlanFormValues) : planFormSchema f = true → filled f →
  formValuesToPlanPayload (planToFormValues (formValuesToPlanPayload f)) = formValuesToPlanPayload f.
Proof.
  intros Hs ([st Hst] & [sp Hsp] & [cr Hcr]). apply schema_duration in Hs. unfold formValuesToPlanPayload, planToFormValues.
  cbn [pl_title pl_subtitle pl_price_amount pl_currency pl_duration_unit pl_duration_value pl_custom_seconds pl_quota_reset_period
    pl_quota_reset_custom_seconds pl_enabled pl_sort_order pl_max_purchase_per_user pl_total_amount pl_upgrade_group pl_stripe_price_id
    pl_creem_product_id pf_title pf_subtitle pf_price_amount pf_duration_unit pf_duration_value pf_custom_seconds pf_quota_reset_period
    pf_quota_reset_custom_seconds pf_enabled pf_sort_order pf_max_purchase_per_user pf_total_amount pf_upgrade_group pf_stripe_price_id
    pf_creem_product_id from_option].
  rewrite Hst, Hsp, Hcr, !text_or_nil, !num_or_idemp, !number_or_idemp. unfold Datatypes.id.
  assert (∀ x, num_or (num_or x (of_Z 0)) (of_Z 0) = num_or x (of_Z 0)) as Hz by (intros x; apply (num_or_idemp x)).
  rewrite !Hz. f_equal.
  - unfold number_or, num_or, Datatypes.id. cbn [from_option]. by rewrite Hs, Hs, Hs.
  - case_bool_decide; [|done]. by rewrite number_or_idemp.
  - f_equal. by destruct (pf_enabled f).
Qed.

(** ** Models *)

Lemma tags_read tags : Forall (λ tag, 44%N ∉ tag) tags →
  parseModelTags (Some (formatTagsArray tags)) = filter (λ tag, str_truthy tag = true) (map trim tags).
Proof.
  intros Hc. unfold formatTagsArray. set (l := filter (λ tag, str_truthy tag = true) tags).
  assert (Forall part l) as Hl.
  { apply Forall_forall. intros x [Hx Hin]%list_elem_of_filter. rewrite Forall_forall in Hc. split; [by apply truthy_nonempty|by apply Hc]. }
  assert (filter (λ tag, str_truthy tag = true) (map trim l) = filter (λ tag, str_truthy tag = true) (map trim tags)) as <-.
  { unfold l. clear. induction tags as [|x tags IH]; [done|]. destruct x as [|c x].
    - rewrite filter_cons_False by done. cbn [map]. rewrite (filter_cons_False _ (trim [])) by done. exact IH.
    - rewrite filter_cons_True by done. cbn [map]. rewrite !filter_cons. by rewrite IH. }
  unfold parseModelTags. destruct (decide (l = [])) as [->|Hn]; [done|]. pose proof (join_parts_nonempty l Hn Hl).
  destruct (join comma l) as [|c t] eqn:E; [done|]. by rewrite <- E, split_listed.
Qed.

(** The form of a model gives back what was sent: the tags trimmed and without
    empty ones, everything else as it was. *)
Theorem model_form_roundtrip (f : ModelFormValues) : Forall (λ tag, 44%N ∉ tag) (mf_tags f) →
  transformModelToFormDefaults (transformFormDataToModelPayload f) =
  {| mf_id := mf_id f; mf_model_name := mf_model_name f; mf_description := mf_description f; mf_icon := mf_icon f;
     mf_tags := filter (λ tag, str_truthy tag = true) (map trim (mf_tags f)); mf_vendor_id := mf_vendor_id f;
     mf_endpoints := mf_endpoints f; mf_name_rule := num_or (mf_name_rule f) (of_Z 0); mf_status := mf_status f;
     mf_sync_official := mf_sync_official f; mf_enable_groups := mf_enable_groups f; mf_quota_types := mf_quota_types f |}.
Proof.
  intros Ht. unfold transformModelToFormDefaults, transformFormDataToModelPayload.
  cbn [md_id md_model_name md_description md_icon md_tags md_vendor_id md_endpoints md_status md_sync_official md_name_rule md_enable_groups
    md_quota_types from_option]. rewrite tags_read, !text_or_nil by done. f_equal; [by destruct (mf_status f)|by destruct (mf_sync_official f)].
Qed.

(** The two checks of the endpoints agree, and what passes them and is not blank
    is what is shown. *)
Lemma endpoint_checks_agree s : validateEndpoints s = validateEndpointsJSON s.
Proof. unfold validateEndpoints, validateJSON, validateEndpointsJSON. by destruct (trim s). Qed.

(** A custom duration is shown in whole days or hours: a day and a half as a day. *)
Theorem duration_truncated :
  @formatDuration (λ s, s) {| pl_title := None; pl_subtitle := None; pl_price_amount := None; pl_currency := None;
    pl_duration_unit := Some UCustom; pl_duration_value := None; pl_custom_seconds := Some (of_Z 129600); pl_quota_reset_period := None;
    pl_quota_reset_custom_seconds := None; pl_enabled := None; pl_sort_order := None; pl_max_purchase_per_user := None;
    pl_total_amount := None; pl_upgrade_group := None; pl_stripe_price_id := None; pl_creem_product_id := None |} = js "1 days".
Proof. vm_compute. reflexivity. Qed.
