(* ===== verification/Canvas.v ===== *)
(** * The image canvas (src/web/classic/src/features/canvas)

    The page on which images are generated: the editor with its drafts and the
    temporary preview of the settings of an earlier image, the generation of
    images as a run of requests whose answers arrive in any order, and the history
    of images, which lives on the page, in the browser and on the server.

    Records in the browser's storages are represented by the values they hold;
    that a storage is full or missing is not modelled, as the page ignores it.  The
    answers of the server, the time and the images fetched for a record are inputs.
    The user is the same as long as the page is open. *)

From S2P Require Import Prelude JsNumber JsString JsRegex JsValue AccountForms.

Open Scope nat_scope.

(** ** Constants (constants.ts) *)

Definition CANVAS_DEFAULT_MODEL := js "gpt-image-2".
Definition MAX_IMAGE_COUNT : Z := 20.
Definition HISTORY_LIMIT : nat := 500.
Definition GENERATION_STATE_TTL_MS : Z := 900000.
Definition CUSTOM_SIZE_VALUE := js "custom".
Definition SUPPORTED_IMAGE_TYPES : list jstr := [js "image/png"; js "image/jpeg"; js "image/webp"].

Record Preset := { ps_value : jstr; ps_width : Z; ps_height : Z; ps_aspectRatio : jstr }.

Definition IMAGE_SIZE_PRESETS : list Preset := [
  {| ps_value := js "1254x1254"; ps_width := 1254; ps_height := 1254; ps_aspectRatio := js "1:1" |};
  {| ps_value := js "1448x1086"; ps_width := 1448; ps_height := 1086; ps_aspectRatio := js "4:3" |};
  {| ps_value := js "1536x1024"; ps_width := 1536; ps_height := 1024; ps_aspectRatio := js "3:2" |};
  {| ps_value := js "1086x1448"; ps_width := 1086; ps_height := 1448; ps_aspectRatio := js "3:4" |};
  {| ps_value := js "1024x1536"; ps_width := 1024; ps_height := 1536; ps_aspectRatio := js "2:3" |};
  {| ps_value := js "1672x941"; ps_width := 1672; ps_height := 941; ps_aspectRatio := js "16:9" |};
  {| ps_value := js "941x1672"; ps_width := 941; ps_height := 1672; ps_aspectRatio := js "9:16" |};
  {| ps_value := js "1915x821"; ps_width := 1915; ps_height := 821; ps_aspectRatio := js "21:9" |};
  {| ps_value := js "821x1915"; ps_width := 821; ps_height := 1915; ps_aspectRatio := js "9:21" |};
  {| ps_value := js "1402x1122"; ps_width := 1402; ps_height := 1122; ps_aspectRatio := js "5:4" |};
  {| ps_value := js "1122x1402"; ps_width := 1122; ps_height := 1402; ps_aspectRatio := js "4:5" |}].

Definition first_preset : Preset :=
  {| ps_value := js "1254x1254"; ps_width := 1254; ps_height := 1254; ps_aspectRatio := js "1:1" |}.

(** ** Data (types.ts) *)

Record GeneratedImage := {
  gi_id : jstr; gi_url : option jstr; gi_cache_key : option jstr; gi_b64_json : option jstr; gi_prompt : jstr;
  gi_size : jstr; gi_resolutionTier : jstr; gi_format : jstr; gi_created : num; gi_referenceImage : option jstr;
  gi_referenceRatio : option num; gi_model : option jstr; gi_customWidth : option jstr; gi_customHeight : option jstr;
  gi_count : option num; gi_selectedKeyId : option jstr
}.

Definition with_b64 (b : option jstr) (g : GeneratedImage) : GeneratedImage :=
  {| gi_id := gi_id g; gi_url := gi_url g; gi_cache_key := gi_cache_key g; gi_b64_json := b; gi_prompt := gi_prompt g;
     gi_size := gi_size g; gi_resolutionTier := gi_resolutionTier g; gi_format := gi_format g; gi_created := gi_created g;
     gi_referenceImage := gi_referenceImage g; gi_referenceRatio := gi_referenceRatio g; gi_model := gi_model g;
     gi_customWidth := gi_customWidth g; gi_customHeight := gi_customHeight g; gi_count := gi_count g;
     gi_selectedKeyId := gi_selectedKeyId g |}.

(** A text that is there and not empty. *)
Definition present (s : option jstr) : bool := match s with Some (_ :: _) => true | _ => false end.

(** [CanvasDraft], also [CanvasEditorState] *)
Record Draft := {
  e_prompt : jstr; e_referenceImage : option jstr; e_referenceRatio : option num; e_model : jstr; e_resolutionTier : jstr;
  e_size : jstr; e_customWidth : jstr; e_customHeight : jstr; e_format : jstr; e_count : num; e_selectedKeyId : jstr
}.

Definition initial_draft : Draft :=
  {| e_prompt := []; e_referenceImage := None; e_referenceRatio := None; e_model := CANVAS_DEFAULT_MODEL; e_resolutionTier := js "2k";
     e_size := ps_value first_preset; e_customWidth := []; e_customHeight := []; e_format := js "jpeg"; e_count := of_Z 1;
     e_selectedKeyId := [] |}.

(** ** The editor *)

(** What the setters of [applyEditorState] put into the fields. *)
Definition applyEditorState (d : Draft) : Draft :=
  {| e_prompt := e_prompt d; e_referenceImage := if present (e_referenceImage d) then e_referenceImage d else None;
     e_referenceRatio := e_referenceRatio d; e_model := str_or (e_model d) CANVAS_DEFAULT_MODEL;
     e_resolutionTier := str_or (e_resolutionTier d) (js "2k"); e_size := str_or (e_size d) (ps_value first_preset);
     e_customWidth := e_customWidth d; e_customHeight := e_customHeight d; e_format := str_or (e_format d) (js "jpeg");
     e_count := if isInteger (e_count d) then e_count d else of_Z 1; e_selectedKeyId := e_selectedKeyId d |}.

(** The settings an image was generated with. *)
Definition image_draft (g : GeneratedImage) : Draft :=
  {| e_prompt := gi_prompt g; e_referenceImage := gi_referenceImage g; e_referenceRatio := gi_referenceRatio g;
     e_model := text_or (gi_model g) CANVAS_DEFAULT_MODEL; e_resolutionTier := str_or (gi_resolutionTier g) (js "2k");
     e_size := str_or (gi_size g) (ps_value first_preset); e_customWidth := text_or (gi_customWidth g) [];
     e_customHeight := text_or (gi_customHeight g) []; e_format := str_or (gi_format g) (js "jpeg");
     e_count := number_or (gi_count g) (of_Z 1); e_selectedKeyId := text_or (gi_selectedKeyId g) [] |}.

(** The number typed into the field of the count. *)
Definition clampCount (text : jstr) : num :=
  let v := string_to_number text in
  if isFinite v then math_min (math_max (of_Z 1) (math_floor v)) (of_Z MAX_IMAGE_COUNT) else of_Z 1.

(** ** What is asked for *)

Definition dimensions (w h : num) : jstr := num_to_string w ++ js "x" ++ num_to_string h.

Definition valid_edge (x : num) : bool := isInteger x && n_ge x (of_Z 256) && n_le x (of_Z 4096).

(** The width and the height, or none where a custom size is not valid. *)
Definition finalSize (e : Draft) : option (num * num) :=
  if str_eqb (e_size e) CUSTOM_SIZE_VALUE then
    let w := string_to_number (e_customWidth e) in
    let h := string_to_number (e_customHeight e) in
    if valid_edge w && valid_edge h then Some (w, h) else None
  else
    let preset := default first_preset (find (λ p, str_eqb (ps_value p) (e_size e)) IMAGE_SIZE_PRESETS) in
    Some (of_Z (ps_width preset), of_Z (ps_height preset)).

Definition selectedPreset (w h : num) : option Preset :=
  find (λ p, n_eq (of_Z (ps_width p)) w && n_eq (of_Z (ps_height p)) h) IMAGE_SIZE_PRESETS.

Record Payload := {
  p_model : jstr; p_prompt : jstr; p_size : jstr; p_aspect_ratio : option jstr; p_n : num; p_format : jstr;
  p_resolution : jstr; p_resolution_tier : jstr; p_image : option jstr; p_input_fidelity : option jstr
}.

Definition upper_unit (c : N) : N := if ((97 <=? c) && (c <=? 122))%N then (c - 32)%N else c.

(** [toUpperCase] of the tiers, which are plain letters and digits. *)
Definition resolution_of (tier : jstr) : jstr := if str_eqb tier (js "4k") then js "4K" else map upper_unit tier.

Definition payload_of (e : Draft) (w h : num) : Payload :=
  let preset := selectedPreset w h in
  {| p_model := e_model e; p_prompt := trim (e_prompt e);
     p_size := match preset with Some p => ps_aspectRatio p | None => dimensions w h end;
     p_aspect_ratio := ps_aspectRatio <$> preset; p_n := e_count e; p_format := e_format e;
     p_resolution := resolution_of (e_resolutionTier e); p_resolution_tier := e_resolutionTier e;
     p_image := if present (e_referenceImage e) then e_referenceImage e else None;
     p_input_fidelity := if present (e_referenceImage e) then Some (js "high") else None |}.

(** [/^data:([^;]+);base64,(.+)$/] *)
Definition data_url_re : regex :=
  Seqs [Bol; Lit "data:"; Grp 1 (Plus (Chr (none_of (js ";")))); Lit ";base64,"; Grp 2 (Plus (Chr dot_unit)); Eol].

(** The fields of the form [editImage] sends, the image aside; [None] where the
    reference is no data URL and it throws. *)
Definition edit_form (p : Payload) (reference : jstr) : option (list (jstr * jstr)) :=
  if re_test data_url_re reference then
    let field k v := if str_truthy v then [(js_of_string k, v)] else [] in
    Some ([(js "model", p_model p); (js "prompt", p_prompt p)] ++ field "size" (p_size p) ++
          field "aspect_ratio" (default [] (p_aspect_ratio p)) ++ [(js "n", num_to_string (p_n p))] ++
          field "format" (p_format p) ++ field "output_format" (p_format p) ++ field "resolution" (p_resolution p) ++
          field "resolution_tier" (p_resolution_tier p) ++ field "input_fidelity" (default [] (p_input_fidelity p)))
  else None.

(** ** Images *)

Definition resolveImage (g : GeneratedImage) : option jstr :=
  match gi_b64_json g with
  | Some ((_ :: _) as b) =>
      Some (if startsWith b (js "data:") then b else js "data:image/" ++ gi_format g ++ js ";base64," ++ b)
  | _ => gi_url g
  end.

(** The images of an answer. *)
Record Generated := { gd_url : option jstr; gd_b64_json : option jstr }.

Definition user_text (userId : option num) : jstr := match userId with None => js "anonymous" | Some u => num_to_string u end.

Definition new_image (userId : option num) (e : Draft) (w h created : num) (i : nat) (d : Generated) : GeneratedImage :=
  let id := num_to_string created ++ js "-" ++ int_to_string 10 (Z.of_nat i) in
  {| gi_id := id; gi_url := gd_url d;
     gi_cache_key := if present (gd_url d) || present (gd_b64_json d)
                     then Some (js "canvas-image:" ++ user_text userId ++ js ":" ++ id) else None;
     gi_b64_json := gd_b64_json d; gi_prompt := trim (e_prompt e); gi_size := dimensions w h;
     gi_resolutionTier := e_resolutionTier e; gi_format := e_format e; gi_created := created;
     gi_referenceImage := e_referenceImage e; gi_referenceRatio := e_referenceRatio e; gi_model := Some (e_model e);
     gi_customWidth := Some (e_customWidth e); gi_customHeight := Some (e_customHeight e); gi_count := Some (e_count e);
     gi_selectedKeyId := Some (e_selectedKeyId e) |}.

(** Records with an identifier, each identifier once, the first of a kind. *)
Fixpoint merge_step (seen : list jstr) (l : list GeneratedImage) : list GeneratedImage :=
  match l with
  | [] => []
  | g :: l => if str_truthy (gi_id g) && negb (bool_decide (gi_id g ∈ seen)) then g :: merge_step (gi_id g :: seen) l
              else merge_step seen l
  end.

Definition mergeUniqueById (lists : list (list GeneratedImage)) : list GeneratedImage := merge_step [] (concat lists).

(** The history on the page, newest first. *)
Definition shown_history (history : list GeneratedImage) : list GeneratedImage :=
  sort_stable (λ a b, n_lt (n_sub (num_or (gi_created b) (of_Z 0)) (num_or (gi_created a) (of_Z 0))) (of_Z 0)) history.

(** [hydrateLatestUrl], given what the server keeps for a record and what the
    proxy fetches from an address; a fetch that fails gives nothing. *)
Definition hydrateLatestUrl (kept fetched : jstr → option jstr) (g : GeneratedImage) : GeneratedImage :=
  if present (gi_b64_json g) then g
  else if negb (present (gi_url g)) then g
  else
    let own := if str_truthy (gi_id g) then kept (gi_id g) else None in
    if present own then with_b64 own g
    else
      let url := default [] (gi_url g) in
      let got := if startsWith url (js "data:") then Some url else fetched url in
      if present got then with_b64 got g else g.

(** ** Keys that can be used *)

Record CanvasKey := { ck_id : num; ck_status : num; ck_model_limits_enabled : bool; ck_model_limits : option jstr; ck_group : option jstr }.

Definition key_allowed (model : jstr) (allowedGroups : list jstr) (k : CanvasKey) : bool :=
  let limits := filter (λ s, str_truthy s = true) (map (λ s, toLowerCase (trim s)) (split (default [] (ck_model_limits k)) comma)) in
  n_eq (ck_status k) (of_Z 1) &&
  negb (ck_model_limits_enabled k && negb (bool_decide (toLowerCase model ∈ limits))) &&
  negb (present (ck_group k) && negb (bool_decide (allowedGroups = [])) && negb (bool_decide (default [] (ck_group k) ∈ allowedGroups))).

Definition key_text (k : CanvasKey) : jstr := num_to_string (ck_id k).
Definition has_key (keys : list CanvasKey) (i : jstr) : bool := existsb (λ k, str_eqb (key_text k) i) keys.
Definition first_key (keys : list CanvasKey) : jstr := match keys with k :: _ => key_text k | [] => [] end.

(** The key that is selected once the keys are verified. *)
Definition choose_key (verified : list CanvasKey) (preferred current : jstr) : jstr :=
  if has_key verified preferred then preferred else if has_key verified current then current else first_key verified.
