(* ===== verification/CanvasPage.v ===== *)
(** * The canvas page as a state machine (src/web/classic/src/features/canvas/index.tsx)

    A click on the button starts a run: it reads the selected key, asks for the
    images, saves the history on the server and in the browser.  Each of these
    waits for an answer, and meanwhile the page can be used: the run goes on with
    the values the page had when it was started.

    The selector of models has one model (CANVAS_IMAGE_MODELS), so the model never
    changes; the effect on such a change, which loads the keys again and clears
    the selected one, is not part of the state machine (the choice among verified
    keys is [choose_key] of Canvas.v). *)

From S2P Require Import Prelude JsNumber JsString JsRegex JsValue AccountForms Canvas.

Open Scope nat_scope.

#[export] Instance Draft_eq_dec : EqDecision Draft.
Proof. solve_decision. Defined.

(** ** State *)

Record AuthUser := { au_id : num; au_role : num }.

Definition ROLE_ADMIN : num := of_Z 10.

(** Local storage (histories, the state of the run, the current image) and the
    browser's database (histories, images, drafts). *)
Record Stores := {
  s_history : obj (list GeneratedImage); s_state : obj (num * jstr); s_current : obj GeneratedImage;
  s_idb : obj (list GeneratedImage); s_images : obj jstr; s_drafts : obj Draft
}.

Definition HISTORY_KEY := js "canvas-history".
Definition scoped (k : jstr) (userId : option num) : jstr := k ++ js ":" ++ user_text userId.
Definition getHistoryStorageKey : option num → jstr := scoped HISTORY_KEY.
Definition getGenerationStateKey : option num → jstr := scoped (js "canvas-generation-state").
Definition getCurrentImageStorageKey : option num → jstr := scoped (js "canvas-current-image").
Definition draftKey (u : AuthUser) : jstr := js "canvas-draft:" ++ num_to_string (au_id u).

Definition set_history_store h (s : Stores) : Stores :=
  {| s_history := h; s_state := s_state s; s_current := s_current s; s_idb := s_idb s; s_images := s_images s; s_drafts := s_drafts s |}.
Definition set_state_store h (s : Stores) : Stores :=
  {| s_history := s_history s; s_state := h; s_current := s_current s; s_idb := s_idb s; s_images := s_images s; s_drafts := s_drafts s |}.
Definition set_current_store h (s : Stores) : Stores :=
  {| s_history := s_history s; s_state := s_state s; s_current := h; s_idb := s_idb s; s_images := s_images s; s_drafts := s_drafts s |}.
Definition set_idb h (s : Stores) : Stores :=
  {| s_history := s_history s; s_state := s_state s; s_current := s_current s; s_idb := h; s_images := s_images s; s_drafts := s_drafts s |}.
Definition set_images h (s : Stores) : Stores :=
  {| s_history := s_history s; s_state := s_state s; s_current := s_current s; s_idb := s_idb s; s_images := h; s_drafts := s_drafts s |}.
Definition set_drafts h (s : Stores) : Stores :=
  {| s_history := s_history s; s_state := s_state s; s_current := s_current s; s_idb := s_idb s; s_images := s_images s; s_drafts := h |}.

(** The state of a run, kept per user for a quarter of an hour. *)
Definition writeGenerationState (userId : option num) (now : num) (model : jstr) (s : Stores) : Stores :=
  match userId with
  | None => s
  | Some _ => set_state_store (obj_set (getGenerationStateKey userId) (now, model) (s_state s)) s
  end.

Definition clearGenerationState (userId : option num) (s : Stores) : Stores :=
  match userId with
  | None => s
  | Some _ => set_state_store (obj_delete (getGenerationStateKey userId) (s_state s)) s
  end.

Definition readGenerationState (userId : option num) (now : num) (s : Stores) : option (num * jstr) * Stores :=
  match userId with
  | None => (None, s)
  | Some _ =>
      match obj_get (getGenerationStateKey userId) (s_state s) with
      | None => (None, s)
      | Some (startedAt, model) =>
          if negb (num_truthy startedAt) || n_gt (n_sub now startedAt) (of_Z GENERATION_STATE_TTL_MS)
          then (None, clearGenerationState userId s) else (Some (startedAt, model), s)
      end
  end.

Definition saveCurrentImageMetadata (userId : option num) (g : GeneratedImage) (s : Stores) : Stores :=
  match userId with
  | None => s
  | Some _ => set_current_store (obj_set (getCurrentImageStorageKey userId) (with_b64 None g) (s_current s)) s
  end.

(** What a run has got so far. *)
Inductive Phase :=
  | AwaitKey
  | AwaitImages
  | AwaitSave (imgs next : list GeneratedImage).

(** A run, with the values of the page when it was started. *)
Record Run := { rn_draft : Draft; rn_history : list GeneratedImage; rn_width : num; rn_height : num; rn_phase : Phase }.

Inductive Request :=
  | GenerateRequest (p : Payload) (key : jstr)
  | EditRequest (fields : list (jstr * jstr)) (key : jstr)
  | SaveHistory (items : list GeneratedImage)
  | DeleteHistory.

Record Page := {
  pg_user : option AuthUser;
  pg_editor : Draft; pg_restore : option Draft; pg_preview : bool; pg_hydrated : bool;
  pg_generating : bool; pg_error : option jstr; pg_keyMissing : bool; pg_runs : list Run;
  pg_history : list GeneratedImage; pg_current : option GeneratedImage; pg_viewing : option GeneratedImage;
  pg_stores : Stores; pg_sent : list Request; pg_toasts : list jstr
}.

Definition userId (p : Page) : option num := au_id <$> pg_user p.

Definition set_editor d r v h (p : Page) : Page :=
  {| pg_user := pg_user p; pg_editor := d; pg_restore := r; pg_preview := v; pg_hydrated := h; pg_generating := pg_generating p;
     pg_error := pg_error p; pg_keyMissing := pg_keyMissing p; pg_runs := pg_runs p; pg_history := pg_history p; pg_current := pg_current p;
     pg_viewing := pg_viewing p; pg_stores := pg_stores p; pg_sent := pg_sent p; pg_toasts := pg_toasts p |}.
Definition set_run g e k rs (p : Page) : Page :=
  {| pg_user := pg_user p; pg_editor := pg_editor p; pg_restore := pg_restore p; pg_preview := pg_preview p; pg_hydrated := pg_hydrated p;
     pg_generating := g; pg_error := e; pg_keyMissing := k; pg_runs := rs; pg_history := pg_history p; pg_current := pg_current p;
     pg_viewing := pg_viewing p; pg_stores := pg_stores p; pg_sent := pg_sent p; pg_toasts := pg_toasts p |}.
Definition set_gallery h c v (p : Page) : Page :=
  {| pg_user := pg_user p; pg_editor := pg_editor p; pg_restore := pg_restore p; pg_preview := pg_preview p; pg_hydrated := pg_hydrated p;
     pg_generating := pg_generating p; pg_error := pg_error p; pg_keyMissing := pg_keyMissing p; pg_runs := pg_runs p; pg_history := h;
     pg_current := c; pg_viewing := v; pg_stores := pg_stores p; pg_sent := pg_sent p; pg_toasts := pg_toasts p |}.
Definition set_stores s (p : Page) : Page :=
  {| pg_user := pg_user p; pg_editor := pg_editor p; pg_restore := pg_restore p; pg_preview := pg_preview p; pg_hydrated := pg_hydrated p;
     pg_generating := pg_generating p; pg_error := pg_error p; pg_keyMissing := pg_keyMissing p; pg_runs := pg_runs p;
     pg_history := pg_history p; pg_current := pg_current p; pg_viewing := pg_viewing p; pg_stores := s; pg_sent := pg_sent p;
     pg_toasts := pg_toasts p |}.
Definition say (requests : list Request) (texts : list jstr) (p : Page) : Page :=
  {| pg_user := pg_user p; pg_editor := pg_editor p; pg_restore := pg_restore p; pg_preview := pg_preview p; pg_hydrated := pg_hydrated p;
     pg_generating := pg_generating p; pg_error := pg_error p; pg_keyMissing := pg_keyMissing p; pg_runs := pg_runs p;
     pg_history := pg_history p; pg_current := pg_current p; pg_viewing := pg_viewing p; pg_stores := pg_stores p;
     pg_sent := pg_sent p ++ requests; pg_toasts := pg_toasts p ++ texts |}.

(** ** Drafts *)

(** The effect that saves the draft, which runs when a field has changed. *)
Definition saveDraft (old : Draft) (p : Page) : Page :=
  match pg_user p with
  | Some u =>
      if negb (pg_hydrated p) || pg_preview p || bool_decide (pg_editor p = old) then p
      else set_stores (set_drafts (obj_set (draftKey u) (pg_editor p) (s_drafts (pg_stores p))) (pg_stores p)) p
  | None => p
  end.

Definition change (d : Draft) (p : Page) : Page :=
  saveDraft (pg_editor p) (set_editor d (pg_restore p) (pg_preview p) (pg_hydrated p) p).

Definition draftLoaded (d : option Draft) (p : Page) : Page :=
  match d with
  | None => set_editor (pg_editor p) (pg_restore p) (pg_preview p) true p
  | Some d => saveDraft (pg_editor p) (set_editor (applyEditorState d) (pg_restore p) (pg_preview p) true p)
  end.

Section Page.
(** Translations, without and with the model; what the server keeps of a record
    and what the proxy fetches from an address. *)
Context (t : jstr → jstr) (t_model : jstr → jstr → jstr) (kept fetched : jstr → option jstr).

Definition restoreHistoricalDraft (g : GeneratedImage) (p : Page) : Page :=
  let backup := match pg_restore p with Some d => d | None => pg_editor p end in
  say [] [t (js "Generation settings restored temporarily. Click the blank canvas to return to the current editor.")]
    (set_editor (applyEditorState (image_draft g)) (Some backup) true (pg_hydrated p) p).

Definition restoreCurrentDraft (p : Page) : Page :=
  match pg_restore p with
  | None => p
  | Some backup =>
      let q := saveDraft (pg_editor p) (set_editor (applyEditorState backup) None false (pg_hydrated p) p) in
      say [] [t (js "Returned to the current editor")] (set_gallery (pg_history q) (pg_current q) None q)
  end.

(** ** A run *)

(** An error of a request: the message of an [Error], the status of its answer. *)
Record Failure := { fl_message : option jstr; fl_status : option num }.

Definition fold_case (c : N) : N := if ((65 <=? c) && (c <=? 90))%N then (c + 32)%N else c.
Definition ILit (s : string) : regex := foldr (λ c r, Seq (Chr (λ d, N.eqb (fold_case d) c)) r) Eps (js_of_string s).

(** [/cloudflare|origin web server|upstream|bad response status code|status_code=\d{3}/i] *)
Definition upstream_re : regex :=
  Alts [ILit "cloudflare"; ILit "origin web server"; ILit "upstream"; ILit "bad response status code";
        Seqs [ILit "status_code="; Digit; Digit; Digit]].

(** [/api.?key|enabled api.?key|invalid.*key/i] *)
Definition key_re : regex :=
  let api_key := Seqs [ILit "api"; Opt (Chr dot_unit); ILit "key"] in
  Alts [api_key; Seq (ILit "enabled ") api_key; Seqs [ILit "invalid"; Star true (Chr dot_unit); ILit "key"]].

Definition failure_text (f : Failure) : jstr :=
  let rawMsg := default (t (js "Generation failed")) (fl_message f) in
  match fl_status f with
  | Some s => if num_truthy s && n_ge s (of_Z 500) && re_test upstream_re rawMsg
              then t (js "The service is busy. Please try again later.") else t rawMsg
  | None => t rawMsg
  end.

(** The [finally] of a run, which leaves the runs [rs]. *)
Definition finish (rs : list Run) (p : Page) : Page :=
  set_run false (pg_error p) (pg_keyMissing p) rs (set_stores (clearGenerationState (userId p) (pg_stores p)) p).

(** Its [catch]. *)
Definition failed (f : Failure) (rs : list Run) (p : Page) : Page :=
  let msg := failure_text f in
  finish rs (say [] [msg] (set_run (pg_generating p) (Some msg) (pg_keyMissing p || re_test key_re msg) (pg_runs p) p)).

Definition thrown (msg : jstr) : Failure := {| fl_message := Some msg; fl_status := None |}.

(** [handleGenerate] up to its first answer. *)
Definition handleGenerate (now : num) (p : Page) : Page :=
  if negb (str_truthy (trim (e_prompt (pg_editor p)))) then say [] [t (js "Please enter a prompt")] p
  else
    let e := pg_editor p in
    let p := set_editor e None false (pg_hydrated p) p in
    let p := set_stores (writeGenerationState (userId p) now (e_model e) (pg_stores p)) p in
    let p := set_run true None (pg_keyMissing p) (pg_runs p) p in
    match finalSize e with
    | None => failed (thrown (t (js "Custom width and height must be integers between 256 and 4096."))) (pg_runs p) p
    | Some (w, h) =>
        if negb (str_truthy (e_selectedKeyId e))
        then failed (thrown (t_model (js "No API Key can call {{model}}. Create one or update its permissions.") (e_model e))) (pg_runs p) p
        else set_run true None (pg_keyMissing p)
               (pg_runs p ++ [{| rn_draft := e; rn_history := pg_history p; rn_width := w; rn_height := h; rn_phase := AwaitKey |}]) p
    end.

(** The answer to the request for the key: a key, a refusal, or an error. *)
Inductive KeyAnswer :=
  | KeyText (key : jstr)
  | KeyRefused (message : option jstr)
  | KeyFailed (f : Failure).

Definition with_phase (ph : Phase) (r : Run) : Run :=
  {| rn_draft := rn_draft r; rn_history := rn_history r; rn_width := rn_width r; rn_height := rn_height r; rn_phase := ph |}.

Definition keyAnswered (i : nat) (r : Run) (a : KeyAnswer) (p : Page) : Page :=
  let rest := delete i (pg_runs p) in
  match a with
  | KeyFailed f => failed f rest p
  | KeyRefused m => failed (thrown (text_or m (t (js "Unable to read the selected API Key")))) rest p
  | KeyText [] => failed (thrown (t (js "Unable to read the selected API Key"))) rest p
  | KeyText key =>
      let payload := payload_of (rn_draft r) (rn_width r) (rn_height r) in
      let apiKey := js "sk-" ++ key in
      let wait := <[i := with_phase AwaitImages r]> (pg_runs p) in
      match p_image payload with
      | Some reference =>
          match edit_form payload reference with
          | Some fields => say [EditRequest fields apiKey] [] (set_run (pg_generating p) (pg_error p) (pg_keyMissing p) wait p)
          | None => failed (thrown (js "Invalid reference image format. Please upload the image again.")) rest p
          end
      | None => say [GenerateRequest payload apiKey] [] (set_run (pg_generating p) (pg_error p) (pg_keyMissing p) wait p)
      end
  end.

Definition imagesAnswered (i : nat) (r : Run) (now : num) (a : list Generated + Failure) (p : Page) : Page :=
  let rest := delete i (pg_runs p) in
  match a with
  | inr f => failed f rest p
  | inl data =>
      let imgs := imap (new_image (userId p) (rn_draft r) (rn_width r) (rn_height r) now) data in
      match imgs with
      | [] => finish rest (say [] [t (js "No generated result was returned")] p)
      | newest :: _ =>
          let next := take HISTORY_LIMIT (imgs ++ rn_history r) in
          say [SaveHistory next] []
            (set_run (pg_generating p) (pg_error p) (pg_keyMissing p) (<[i := with_phase (AwaitSave imgs next) r]> (pg_runs p))
               (set_gallery next (Some newest) (pg_viewing p) p))
      end
  end.

(** The records as they are kept in local storage. *)
Definition persisted_record (saved : list jstr) (g : GeneratedImage) : GeneratedImage :=
  match gi_b64_json g, gi_cache_key g with
  | Some (_ :: _), Some ((_ :: _) as k) => if bool_decide (k ∈ saved) then with_b64 None g else g
  | _, _ => g
  end.

(** The images of the run that go to the database. *)
Definition image_entries (imgs : list GeneratedImage) : list (jstr * jstr) :=
  omap (λ g, match gi_b64_json g, gi_cache_key g with
             | Some ((_ :: _) as b), Some ((_ :: _) as k) => Some (k, b) | _, _ => None end) imgs.

(** The history was saved on the server and read back, or there was an error. *)
Definition saveAnswered (i : nat) (imgs next : list GeneratedImage) (a : list GeneratedImage + option jstr) (p : Page) : Page :=
  let p := match a with
           | inl remote => set_gallery (mergeUniqueById [map (hydrateLatestUrl kept fetched) remote; next]) (pg_current p) (pg_viewing p) p
           | inr m => say [] [match m with Some m => t (js "Failed to save image history") ++ js ": " ++ m
                                        | None => t (js "Failed to save image history") end] p
           end in
  let k := getHistoryStorageKey (userId p) in
  let entries := image_entries imgs in
  let s := pg_stores p in
  let s := set_images (fold_left (λ o kv, obj_set kv.1 kv.2 o) entries (s_images s)) s in
  let s := set_history_store (obj_set k (map (persisted_record (map fst entries)) next) (s_history s)) s in
  let s := set_idb (obj_set k next (s_idb s)) s in
  let s := match imgs with newest :: _ => saveCurrentImageMetadata (userId p) newest s | [] => s end in
  finish (delete i (pg_runs p)) (set_stores s p).

(** The newest image fetched through the proxy. *)
Definition proxied (newest : GeneratedImage) (dataUrl : jstr) (p : Page) : Page :=
  if str_truthy dataUrl then
    match pg_current p with
    | Some cur => if str_eqb (gi_id cur) (gi_id newest)
                  then set_gallery (pg_history p) (Some (with_b64 (Some dataUrl) newest)) (pg_viewing p) p else p
    | None => p
    end
  else p.

(** ** The history *)

(** Messages of the server: a run, of this page or another, has ended. *)
Definition socketMessage (failed_message : option (option jstr)) (p : Page) : Page :=
  let error := match failed_message with
               | None => None
               | Some m => Some (text_or m (t (js "Generation failed. Please try again."))) end in
  set_stores (clearGenerationState (userId p) (pg_stores p)) (set_run false error (pg_keyMissing p) (pg_runs p) p).

(** [refreshFromStorage]: the records of the server, or else those of the browser. *)
Definition refreshFromStorage (remote : option (list GeneratedImage)) (p : Page) : Page :=
  let k := getHistoryStorageKey (userId p) in
  let restore g := if present (gi_b64_json g) then g
                   else match gi_cache_key g with
                        | Some ((_ :: _) as ck) =>
                            let stored := obj_get ck (s_images (pg_stores p)) in if present stored then with_b64 stored g else g
                        | _ => g end in
  let update l := set_gallery (mergeUniqueById [l; pg_history p]) (pg_current p) (pg_viewing p) p in
  match remote with
  | Some ((_ :: _) as l) => update (map (hydrateLatestUrl kept fetched) l)
  | _ =>
      let saved := match default [] (obj_get k (s_history (pg_stores p))) with
                   | [] => default [] (obj_get k (s_idb (pg_stores p))) | l => l end in
      match saved with [] => p | _ => update (map restore saved) end
  end.

(** Records that are not there yet, by identifier. *)
Definition not_seen (l other : list GeneratedImage) : list GeneratedImage :=
  filter (λ g, gi_id g ∉ map gi_id l) other.

(** The effect that restores the history of a user, with the answer of the
    server ([None] where the request failed). *)
Definition restoreHistory (u : AuthUser) (remote : option (list GeneratedImage)) (p : Page) : Page :=
  let k := getHistoryStorageKey (Some (au_id u)) in
  let s := pg_stores p in
  let indexed := default [] (obj_get k (s_idb s)) in
  let show l := set_gallery l (pg_current p) (pg_viewing p) p in
  match remote with
  | None => match indexed with [] => p | l => show l end
  | Some ((_ :: _) as l) =>
      show (mergeUniqueById [map (hydrateLatestUrl kept fetched) l; default [] (obj_get k (s_history s)); indexed])
  | Some [] =>
      let restored := default [] (obj_get k (s_history s)) in
      let legacy := default [] (obj_get HISTORY_KEY (s_history s)) in
      let admin := n_ge (au_role u) ROLE_ADMIN in
      let '(restored, s) :=
        if admin && negb (match legacy with [] => true | _ => false end)
        then let l := take HISTORY_LIMIT (restored ++ not_seen restored legacy) in
             (l, set_history_store (obj_delete HISTORY_KEY (obj_set k l (s_history s))) s)
        else if n_lt (au_role u) ROLE_ADMIN then (restored, set_history_store (obj_delete HISTORY_KEY (s_history s)) s)
        else (restored, s) in
      match restored with
      | _ :: _ => set_stores s (show restored)
      | [] =>
          let legacyIndexed := default [] (obj_get HISTORY_KEY (s_idb s)) in
          let '(l, s) :=
            if admin && negb (match legacyIndexed with [] => true | _ => false end)
            then let l := take HISTORY_LIMIT (indexed ++ not_seen indexed legacyIndexed) in
                 (l, set_idb (obj_delete HISTORY_KEY (obj_set k l (s_idb s))) s)
            else (indexed, s) in
          match l with
          | [] => set_stores s p
          | _ => say [SaveHistory l] [] (set_stores s (show l))
          end
      end
  end.

Definition clearHistory (p : Page) : Page :=
  let k := getHistoryStorageKey (userId p) in
  let keys := omap gi_cache_key (pg_history p) in
  let s := pg_stores p in
  let s := set_images (fold_left (λ o key, obj_delete key o) keys (s_images s)) s in
  let s := set_idb (obj_delete k (s_idb s)) s in
  let s := set_history_store (obj_delete k (s_history s)) s in
  say [DeleteHistory] [] (set_stores s (set_gallery [] (pg_current p) (pg_viewing p) p)).

Definition viewImage (g : GeneratedImage) (p : Page) : Page :=
  let selected := match pg_viewing p with Some v => str_eqb (gi_id v) (gi_id g) | None => false end in
  set_gallery (pg_history p) (pg_current p) (if selected then None else Some g) p.

(** ** Events *)

Inductive Event :=
  | Change (d : Draft)
  | CountTyped (text : jstr)
  | DraftLoaded (d : option Draft)
  | ClickGenerate (now : num)
  | KeyAnswered (i : nat) (a : KeyAnswer)
  | ImagesAnswered (i : nat) (now : num) (a : list Generated + Failure)
  | SaveAnswered (i : nat) (a : list GeneratedImage + option jstr)
  | Proxied (newest : GeneratedImage) (dataUrl : jstr)
  | SocketMessage (failed_message : option (option jstr))
  | Refreshed (remote : option (list GeneratedImage))
  | HistoryRestored (remote : option (list GeneratedImage))
  | ClearHistory
  | ViewImage (g : GeneratedImage)
  | RestoreHistorical (g : GeneratedImage)
  | RestoreCurrent.

Definition with_count (n : num) (d : Draft) : Draft :=
  {| e_prompt := e_prompt d; e_referenceImage := e_referenceImage d; e_referenceRatio := e_referenceRatio d; e_model := e_model d;
     e_resolutionTier := e_resolutionTier d; e_size := e_size d; e_customWidth := e_customWidth d; e_customHeight := e_customHeight d;
     e_format := e_format d; e_count := n; e_selectedKeyId := e_selectedKeyId d |}.

(** An answer that no run waits for changes nothing; the button is disabled
    while images are generated.  [Change d] gives the fields the values of [d],
    but for the count, which has an input of its own. *)
Definition step (p : Page) (ev : Event) : Page :=
  match ev with
  | Change d => change (with_count (e_count (pg_editor p)) d) p
  | CountTyped text => change (with_count (clampCount text) (pg_editor p)) p
  | DraftLoaded d => draftLoaded d p
  | ClickGenerate now => if pg_generating p then p else handleGenerate now p
  | KeyAnswered i a =>
      match pg_runs p !! i with
      | Some r => match rn_phase r with AwaitKey => keyAnswered i r a p | _ => p end
      | None => p end
  | ImagesAnswered i now a =>
      match pg_runs p !! i with
      | Some r => match rn_phase r with AwaitImages => imagesAnswered i r now a p | _ => p end
      | None => p end
  | SaveAnswered i a =>
      match pg_runs p !! i with
      | Some r => match rn_phase r with AwaitSave imgs next => saveAnswered i imgs next a p | _ => p end
      | None => p end
  | Proxied newest dataUrl => proxied newest dataUrl p
  | SocketMessage m => socketMessage m p
  | Refreshed remote => refreshFromStorage remote p
  | HistoryRestored remote => match pg_user p with Some u => restoreHistory u remote p | None => p end
  | ClearHistory => clearHistory p
  | ViewImage g => viewImage g p
  | RestoreHistorical g => restoreHistoricalDraft g p
  | RestoreCurrent => restoreCurrentDraft p
  end.

Definition run_events (p : Page) (evs : list Event) : Page := fold_left step evs p.
End Page.

(** Opening the page. *)
Definition open_page (u : option AuthUser) (now : num) (s : Stores) : Page :=
  let '(state, s) := readGenerationState (au_id <$> u) now s in
  {| pg_user := u; pg_editor := initial_draft; pg_restore := None; pg_preview := false; pg_hydrated := false;
     pg_generating := match state with Some _ => true | None => false end; pg_error := None; pg_keyMissing := false; pg_runs := [];
     pg_history := []; pg_current := None; pg_viewing := None; pg_stores := s; pg_sent := []; pg_toasts := [] |}.
