(* ===== verification/CanvasFacts.v ===== *)
(** * The canvas: runs end, previews return, images are kept

    Facts about Canvas.v and CanvasPage.v: every run ends and leaves the page idle,
    whatever its requests answer and whatever else happens; what is asked for has a
    valid size, and a valid count where loaded drafts and settings have one; looking
    at the settings of an earlier image leaves the editor and its draft as they
    were; a generated image stays in the history until it is cleared, restored or
    replaced by another run; a session of a regular user does not depend on records
    without an owner.  The last part shows where the page misbehaves. *)

From S2P Require Import Prelude JsNumber JsNumberFacts JsString JsRegex JsValue AccountForms Canvas CanvasPage.

Open Scope nat_scope.

(** ** Merging *)

Lemma merge_step_spec l : ∀ seen,
  NoDup (map gi_id (merge_step seen l)) ∧
  (∀ i, i ∈ map gi_id (merge_step seen l) ↔ i ∈ map gi_id l ∧ i ≠ [] ∧ i ∉ seen) ∧
  (∀ g, g ∈ merge_step seen l → g ∈ l).
Proof.
  induction l as [|g l IH]; intros seen; cbn [merge_step map].
  - split_and!; [constructor| |by intros ? ?%not_elem_of_nil]. set_solver.
  - destruct (str_truthy (gi_id g) && negb (bool_decide (gi_id g ∈ seen))) eqn:E.
    + apply andb_prop in E as [E1 E2]. apply negb_true_iff, bool_decide_eq_false in E2.
      assert (gi_id g ≠ []) as Hn by (by destruct (gi_id g)). destruct (IH (gi_id g :: seen)) as (H1 & H2 & H3). cbn [map]. split_and!.
      * constructor; [|done]. rewrite H2. set_solver.
      * intros i. rewrite !elem_of_cons, H2, not_elem_of_cons. destruct (decide (i = gi_id g)) as [->|]; naive_solver.
      * intros x [->|Hx]%elem_of_cons; [left|right; by apply H3].
    + destruct (IH seen) as (H1 & H2 & H3). split_and!; [done| |intros x Hx; right; by apply H3].
      intros i. rewrite H2, elem_of_cons. split; [naive_solver|]. intros ([->|Hi] & Hn & Hs); [|done].
      apply andb_false_iff in E as [E|E]; [by destruct (gi_id g)|]. apply negb_false_iff, bool_decide_eq_true in E. done.
Qed.

(** A merged history has every identifier of the lists once. *)
Lemma merge_ids lists : NoDup (map gi_id (mergeUniqueById lists)) ∧
  ∀ i, i ∈ map gi_id (mergeUniqueById lists) ↔ i ∈ map gi_id (concat lists) ∧ i ≠ [].
Proof. destruct (merge_step_spec (concat lists) []) as (H1 & H2 & _). split; [done|]. intros i. unfold mergeUniqueById. rewrite H2. set_solver. Qed.

(** Of records with the same identifier the first is kept. *)
Lemma merge_first l g l' : gi_id g ≠ [] → gi_id g ∉ map gi_id l → g ∈ merge_step [] (l ++ g :: l').
Proof.
  intros Hn Hl. assert (∀ seen, gi_id g ∉ seen → g ∈ merge_step seen (l ++ g :: l')) as H; [|by apply H; set_solver].
  induction l as [|x l IH]; intros seen Hs; cbn [app merge_step].
  - rewrite bool_decide_false by done. assert (str_truthy (gi_id g) = true) as -> by (by destruct (gi_id g)). left.
  - cbn [map] in Hl. apply not_elem_of_cons in Hl as [Hx Hl]. destruct (_ && _); [right|]; apply IH; set_solver.
Qed.

Lemma hydrate_id kept fetched g : gi_id (hydrateLatestUrl kept fetched g) = gi_id g.
Proof. unfold hydrateLatestUrl. by repeat case_match. Qed.

(** The key that is selected is one of the verified ones, where there are any. *)
Lemma chosen_key_verified verified preferred current : verified ≠ [] →
  choose_key verified preferred current ∈ map key_text verified.
Proof.
  intros Hv. unfold choose_key, has_key.
  assert (∀ i, existsb (λ k, str_eqb (key_text k) i) verified = true → i ∈ map key_text verified) as Hk.
  { intros i (k & Hin & <-%str_eqb_eq)%existsb_exists. by apply list_elem_of_fmap_2, list_elem_of_In. }
  destruct (existsb _ verified) eqn:E1; [by apply Hk|]. destruct (existsb (λ k, str_eqb (key_text k) current) verified) eqn:E2; [by apply Hk|].
  destruct verified; [done|]. left.
Qed.

(** ** Idle pages *)

Definition stateKey (u : AuthUser) : jstr := getGenerationStateKey (Some (au_id u)).

(** Nothing is generated, and no run is announced in storage. *)
Definition idle (p : Page) : Prop :=
  pg_generating p = false ∧ ∀ u, pg_user p = Some u → obj_get (stateKey u) (s_state (pg_stores p)) = None.

Lemma clear_state u s : obj_get (getGenerationStateKey (Some u)) (s_state (clearGenerationState (Some u) s)) = None.
Proof. cbn [clearGenerationState set_state_store s_state]. rewrite obj_get_delete. by rewrite str_eqb_refl. Qed.

Lemma finish_idle rs p : idle (finish rs p).
Proof.
  split; [done|]. intros u Hu. change (pg_user p = Some u) in Hu. unfold finish, userId. cbn [set_run set_stores pg_stores pg_user].
  rewrite Hu. apply clear_state.
Qed.

Lemma finish_runs rs p : pg_runs (finish rs p) = rs.
Proof. done. Qed.

(** An event that leaves the runs, the flag and the announced state. *)
Definition same_runs (p q : Page) : Prop :=
  pg_user q = pg_user p ∧ pg_generating q = pg_generating p ∧ pg_runs q = pg_runs p ∧ s_state (pg_stores q) = s_state (pg_stores p).

Lemma same_runs_idle p q : same_runs p q → idle p → idle q.
Proof. intros (H1 & H2 & _ & H4) [Hg Hs]. split; [by rewrite H2|]. intros u Hu. rewrite H4. apply Hs. by rewrite <- H1. Qed.

Lemma same_runs_refl p : same_runs p p.
Proof. done. Qed.

Lemma saveDraft_runs old p : same_runs p (saveDraft old p).
Proof. unfold saveDraft. destruct (pg_user p) as [u|] eqn:E; [|done]. case_match; done. Qed.

Lemma same_runs_trans p q r : same_runs p q → same_runs q r → same_runs p r.
Proof. unfold same_runs. intros (-> & -> & -> & ->) (-> & -> & -> & ->). done. Qed.

(** Events that are no part of a run. *)
Definition aside (ev : Event) : bool :=
  match ev with ClickGenerate _ | KeyAnswered _ _ | ImagesAnswered _ _ _ | SaveAnswered _ _ | SocketMessage _ => false | _ => true end.

Section Runs.
Context (t : jstr → jstr) (t_model : jstr → jstr → jstr) (kept fetched : jstr → option jstr).
Abbreviation step := (step t t_model kept fetched).
Abbreviation run_events := (run_events t t_model kept fetched).

Lemma change_runs d p : same_runs p (change d p).
Proof. apply (saveDraft_runs (pg_editor p) (set_editor d (pg_restore p) (pg_preview p) (pg_hydrated p) p)). Qed.

Lemma restoreCurrent_runs p : same_runs p (restoreCurrentDraft t p).
Proof.
  unfold restoreCurrentDraft. destruct (pg_restore p) as [d|]; [|done].
  apply (saveDraft_runs (pg_editor p) (set_editor (applyEditorState d) None false (pg_hydrated p) p)).
Qed.

Lemma draftLoaded_runs d p : same_runs p (draftLoaded d p).
Proof.
  destruct d as [d|]; [|done]. apply (saveDraft_runs (pg_editor p) (set_editor (applyEditorState d) (pg_restore p) (pg_preview p) true p)).
Qed.

Lemma restoreHistory_runs u remote p : same_runs p (restoreHistory kept fetched u remote p).
Proof.
  unfold restoreHistory. destruct remote as [[|g l]|]; cbv zeta; [|done|by case_match].
  destruct (n_ge (au_role u) ROLE_ADMIN && negb match default [] (obj_get HISTORY_KEY (s_history (pg_stores p))) with [] => true | _ => false end);
    [|destruct (n_lt (au_role u) ROLE_ADMIN)]; cbv iota;
    repeat (match goal with |- context [match ?x with [] => _ | _ :: _ => _ end] => destruct x end); try done;
    destruct (n_ge (au_role u) ROLE_ADMIN); cbn [andb negb]; try done; by case_match.
Qed.

Lemma aside_runs p ev : aside ev = true → same_runs p (step p ev).
Proof.
  destruct ev; try done; intros _; cbn [CanvasPage.step].
  - apply change_runs.
  - apply change_runs.
  - apply draftLoaded_runs.
  - unfold proxied. repeat case_match; done.
  - unfold refreshFromStorage. cbv zeta. repeat case_match; done.
  - destruct (pg_user p); [apply restoreHistory_runs|done].
  - apply restoreCurrent_runs.
Qed.

(** *** Answers *)

Lemma failed_ends f rs p : idle (failed t f rs p) ∧ pg_runs (failed t f rs p) = rs.
Proof. split; [apply finish_idle|done]. Qed.

(** The run at [i] is over, or waits for its next answer. *)
Definition ends (i : nat) (p q : Page) : Prop := idle q ∧ pg_runs q = delete i (pg_runs p).
Definition goes_on (i : nat) (r : Run) (ph : Phase) (p q : Page) : Prop := pg_runs q = <[i := with_phase ph r]> (pg_runs p).

Lemma keyAnswered_next i r a p : ends i p (keyAnswered t i r a p) ∨ goes_on i r AwaitImages p (keyAnswered t i r a p).
Proof.
  unfold keyAnswered. destruct a as [[|c k]|m|f]; try (left; apply failed_ends). cbv zeta.
  destruct (p_image _) as [reference|]; [|by right]. destruct (edit_form _ _); [by right|left; apply failed_ends].
Qed.

Lemma imagesAnswered_next i r now a p :
  ends i p (imagesAnswered t i r now a p) ∨
  ∃ imgs next, goes_on i r (AwaitSave imgs next) p (imagesAnswered t i r now a p).
Proof.
  unfold imagesAnswered. destruct a as [data|f]; [|left; apply failed_ends]. cbv zeta.
  destruct (imap _ data) as [|newest imgs] eqn:E; [left; split; [apply finish_idle|done]|]. right. by eexists _, _.
Qed.

Lemma saveAnswered_ends i imgs next a p : ends i p (saveAnswered t kept fetched i imgs next a p).
Proof. unfold saveAnswered. split; [apply finish_idle|]. rewrite finish_runs. by destruct a. Qed.

(** The answers a run still waits for. *)
Definition weight (ph : Phase) : nat := match ph with AwaitKey => 3 | AwaitImages => 2 | AwaitSave _ _ => 1 end.
Definition awaited (p : Page) : nat := sum_list_with (λ r, weight (rn_phase r)) (pg_runs p).

(** The event answers a run. *)
Definition answers (p : Page) (ev : Event) : Prop :=
  match ev with
  | KeyAnswered i _ => ∃ r, pg_runs p !! i = Some r ∧ rn_phase r = AwaitKey
  | ImagesAnswered i _ _ => ∃ r, pg_runs p !! i = Some r ∧ rn_phase r = AwaitImages
  | SaveAnswered i _ => ∃ r imgs next, pg_runs p !! i = Some r ∧ rn_phase r = AwaitSave imgs next
  | _ => False
  end.

Lemma sum_delete (f : Run → nat) l i r : l !! i = Some r → sum_list_with f l = f r + sum_list_with f (delete i l).
Proof.
  intros Hi. rewrite delete_take_drop. rewrite <- (take_drop_middle l i r Hi) at 1. rewrite !sum_list_with_app. cbn. lia.
Qed.

Lemma sum_insert (f : Run → nat) l i r r' : l !! i = Some r → sum_list_with f (<[i := r']> l) + f r = sum_list_with f l + f r'.
Proof.
  intros Hi. rewrite insert_take_drop by eauto using lookup_lt_Some. rewrite <- (take_drop_middle l i r Hi) at 3.
  rewrite !sum_list_with_app. cbn. lia.
Qed.

Lemma weight_pos ph : 0 < weight ph.
Proof. destruct ph; cbn; lia. Qed.

Lemma ends_less i r p q : ends i p q → pg_runs p !! i = Some r → awaited q < awaited p.
Proof. intros [_ E] Hi. unfold awaited. rewrite E, (sum_delete _ (pg_runs p) i r Hi). pose proof (weight_pos (rn_phase r)). lia. Qed.

Lemma goes_on_less i r ph p q : goes_on i r ph p q → pg_runs p !! i = Some r → weight ph < weight (rn_phase r) → awaited q < awaited p.
Proof.
  intros E Hi Hw. unfold awaited. rewrite E. pose proof (sum_insert (λ r, weight (rn_phase r)) (pg_runs p) i r (with_phase ph r) Hi) as H.
  cbn [with_phase rn_phase] in H. lia.
Qed.

Lemma answer_less p ev : answers p ev → awaited (step p ev) < awaited p.
Proof.
  destruct ev; cbn [answers CanvasPage.step]; try done.
  - intros (r & Hi & Hp). rewrite Hi, Hp. destruct (keyAnswered_next i r a p) as [H|H]; [by eapply ends_less|].
    eapply goes_on_less; [exact H|done|]. rewrite Hp. cbn. lia.
  - intros (r & Hi & Hp). rewrite Hi, Hp. destruct (imagesAnswered_next i r now a p) as [H|(imgs & next & H)]; [by eapply ends_less|].
    eapply goes_on_less; [exact H|done|]. rewrite Hp. cbn. lia.
  - intros (r & imgs & next & Hi & Hp). rewrite Hi, Hp. eapply ends_less; [apply saveAnswered_ends|done].
Qed.

Lemma some_answer p : pg_runs p ≠ [] → ∃ ev, answers p ev.
Proof.
  destruct (pg_runs p) as [|r rs] eqn:E; [done|]. intros _. destruct (rn_phase r) as [| |imgs next] eqn:Ep.
  - exists (KeyAnswered 0 (KeyRefused None)), r. by rewrite E.
  - exists (ImagesAnswered 0 NaN (inl [])), r. by rewrite E.
  - exists (SaveAnswered 0 (inr None)), r, imgs, next. by rewrite E.
Qed.

(** *** Idle where nothing runs *)

Definition quiet_idle (p : Page) : Prop := pg_runs p = [] → idle p.

Lemma insert_not_nil {A} i (x y : A) l : l !! i = Some x → <[i := y]> l ≠ [].
Proof. by destruct l, i. Qed.

Lemma handleGenerate_quiet now p : quiet_idle p → quiet_idle (handleGenerate t t_model now p).
Proof.
  intros H. unfold handleGenerate. cbv zeta. destruct (negb _); [exact H|].
  destruct (finalSize _) as [[w h]|]; [|intros _; apply failed_ends]. destruct (negb _); [intros _; apply failed_ends|].
  intros E. cbn [set_run pg_runs] in E. by destruct (pg_runs _).
Qed.

Lemma socket_idle m p : idle (socketMessage t m p).
Proof.
  split; [done|]. intros u Hu. change (pg_user p = Some u) in Hu. unfold socketMessage, userId. cbn [set_run set_stores pg_stores].
  rewrite Hu. apply clear_state.
Qed.

Lemma step_quiet p ev : quiet_idle p → quiet_idle (step p ev).
Proof.
  intros H. destruct (aside ev) eqn:Ea.
  { pose proof (aside_runs p ev Ea) as Hs. intros E. apply (same_runs_idle p); [done|]. apply H. destruct Hs as (_ & _ & <- & _). done. }
  destruct ev; try done; cbn [CanvasPage.step].
  - destruct (pg_generating p); [done|by apply handleGenerate_quiet].
  - destruct (pg_runs p !! i) as [r|] eqn:Ei; [|done]. destruct (rn_phase r); [|done..].
    destruct (keyAnswered_next i r a p) as [[Hi _]|Hg]; [by intros _|]. intros E. rewrite Hg in E. destruct (insert_not_nil _ _ _ _ Ei E).
  - destruct (pg_runs p !! i) as [r|] eqn:Ei; [|done]. destruct (rn_phase r); [done| |done].
    destruct (imagesAnswered_next i r now a p) as [[Hi _]|(imgs & next & Hg)]; [by intros _|]. intros E. rewrite Hg in E.
    destruct (insert_not_nil _ _ _ _ Ei E).
  - destruct (pg_runs p !! i) as [r|] eqn:Ei; [|done]. destruct (rn_phase r) as [| |imgs next]; [done..|]. intros _.
    apply (saveAnswered_ends i imgs next a p).
  - intros _. apply socket_idle.
Qed.

Lemma run_quiet p evs : quiet_idle p → quiet_idle (run_events p evs).
Proof. revert p. induction evs as [|ev evs IH]; intros p H; [done|]. apply IH, step_quiet, H. Qed.

(** C13. Every run ends: from an idle page, whatever the user does and whatever
    the key, the images and the saving answer (errors included, in any order),
    as long as a run is under way some answer is awaited, every awaited answer
    lowers the number of those still to come, and once no run is under way the page
    generates nothing and announces no run in storage. *)
Theorem generation_ends (p0 : Page) (evs : list Event) (H0 : idle p0) :
  let p := run_events p0 evs in
  (pg_runs p = [] → pg_generating p = false ∧ ∀ u, pg_user p = Some u → obj_get (stateKey u) (s_state (pg_stores p)) = None) ∧
  (pg_runs p ≠ [] → ∃ ev, answers p ev) ∧
  (∀ ev, answers p ev → awaited (step p ev) < awaited p).
Proof.
  cbv zeta. split_and!; [|apply some_answer|apply answer_less]. apply run_quiet. by intros _.
Qed.

(** ** Looking at earlier settings *)

(** What belongs to the editor: its fields, the kept ones, and the draft. *)
Definition same_desk (p q : Page) : Prop :=
  pg_user q = pg_user p ∧ pg_editor q = pg_editor p ∧ pg_restore q = pg_restore p ∧ pg_preview q = pg_preview p ∧
  s_drafts (pg_stores q) = s_drafts (pg_stores p).

Lemma clear_drafts u s : s_drafts (clearGenerationState u s) = s_drafts s.
Proof. by destruct u. Qed.

Lemma finish_desk rs p : same_desk p (finish rs p).
Proof. unfold same_desk, finish. cbn [set_run set_stores pg_user pg_editor pg_restore pg_preview pg_stores]. by rewrite clear_drafts. Qed.

Lemma failed_desk f rs p : same_desk p (failed t f rs p).
Proof. exact (finish_desk rs (say [] [failure_text t f] (set_run (pg_generating p) (Some (failure_text t f)) _ (pg_runs p) p))). Qed.

(** Events that do not touch the editor. *)
Definition off_desk (ev : Event) : bool :=
  match ev with
  | Change _ | CountTyped _ | DraftLoaded _ | ClickGenerate _ | RestoreHistorical _ | RestoreCurrent => false
  | _ => true
  end.

Lemma restoreHistory_desk u remote p : same_desk p (restoreHistory kept fetched u remote p).
Proof.
  unfold restoreHistory. destruct remote as [[|g l]|]; cbv zeta; [|done|by case_match].
  destruct (n_ge (au_role u) ROLE_ADMIN && negb match default [] (obj_get HISTORY_KEY (s_history (pg_stores p))) with [] => true | _ => false end);
    [|destruct (n_lt (au_role u) ROLE_ADMIN)]; cbv iota;
    repeat (match goal with |- context [match ?x with [] => _ | _ :: _ => _ end] => destruct x end); try done;
    destruct (n_ge (au_role u) ROLE_ADMIN); cbn [andb negb]; try done; by case_match.
Qed.

Lemma saveAnswered_desk i imgs next a p : same_desk p (saveAnswered t kept fetched i imgs next a p).
Proof.
  unfold saveAnswered, same_desk. cbv zeta.
  match goal with |- context [finish ?rs ?q] => destruct (finish_desk rs q) as (-> & -> & -> & -> & ->) end.
  destruct a; cbn [set_stores set_gallery say pg_user pg_editor pg_restore pg_preview pg_stores userId];
    (split_and!; [done..|]); destruct imgs; try done; unfold saveCurrentImageMetadata; by case_match.
Qed.

Lemma off_desk_same p ev : off_desk ev = true → same_desk p (step p ev).
Proof.
  destruct ev; try done; intros _; cbn [CanvasPage.step].
  - destruct (pg_runs p !! i) as [r|]; [|done]. destruct (rn_phase r); [|done..].
    unfold keyAnswered. destruct a as [[|c k]|m|f]; try apply failed_desk. cbv zeta.
    destruct (p_image _); [|done]. destruct (edit_form _ _); [done|apply failed_desk].
  - destruct (pg_runs p !! i) as [r|]; [|done]. destruct (rn_phase r); [done| |done].
    unfold imagesAnswered. destruct a; [|apply failed_desk]. cbv zeta. destruct (imap _ _); [|done].
    exact (finish_desk _ (say _ _ p)).
  - destruct (pg_runs p !! i) as [r|]; [|done]. destruct (rn_phase r); [done..|]. apply saveAnswered_desk.
  - unfold proxied. repeat case_match; done.
  - unfold same_desk, socketMessage. cbn [set_run set_stores pg_user pg_editor pg_restore pg_preview pg_stores]. by rewrite clear_drafts.
  - unfold refreshFromStorage. cbv zeta. repeat case_match; done.
  - destruct (pg_user p); [apply restoreHistory_desk|done].
Qed.

(** The settings of an earlier image are shown, the editor [live] is kept. *)
Definition previewing (live : Draft) (drafts : obj Draft) (p : Page) : Prop :=
  pg_preview p = true ∧ pg_restore p = Some live ∧ s_drafts (pg_stores p) = drafts.

(** What may happen during a preview. *)
Definition within_preview (ev : Event) : bool :=
  match ev with DraftLoaded _ | ClickGenerate _ | RestoreCurrent => false | _ => true end.

Lemma saveDraft_preview old p : pg_preview p = true → saveDraft old p = p.
Proof. intros H. unfold saveDraft. destruct (pg_user p); [|done]. by rewrite H, orb_true_r. Qed.

Lemma preview_step live drafts p ev : previewing live drafts p → within_preview ev = true → previewing live drafts (step p ev).
Proof.
  intros (H1 & H2 & H3) Hw. destruct (off_desk ev) eqn:Eo.
  { destruct (off_desk_same p ev Eo) as (_ & _ & E1 & E2 & E3). unfold previewing. by rewrite E1, E2, E3. }
  destruct ev; try done; cbn [CanvasPage.step].
  - unfold change. by rewrite saveDraft_preview.
  - unfold change. by rewrite saveDraft_preview.
  - unfold previewing, restoreHistoricalDraft. cbn. by rewrite H2.
Qed.

Lemma preview_run live drafts p evs : previewing live drafts p → Forall (λ ev, within_preview ev = true) evs →
  previewing live drafts (run_events p evs).
Proof. intros H Hev. revert p H. induction Hev as [|ev evs He _ IH]; intros p H; [done|]. apply IH. by apply preview_step. Qed.

(** C27. Looking at the settings of earlier images costs nothing: between the first
    look and the click on the blank canvas (looking at further images, editing the
    shown settings, answers and refreshes in between) the stored draft does not
    change, and the click brings back the editor exactly as it was. *)
Theorem preview_returns (p : Page) (g : GeneratedImage) (evs : list Event)
    (Hr : pg_restore p = None) (Hw : applyEditorState (pg_editor p) = pg_editor p)
    (Hev : Forall (λ ev, within_preview ev = true) evs) :
  let q := run_events p (RestoreHistorical g :: evs) in
  s_drafts (pg_stores q) = s_drafts (pg_stores p) ∧
  pg_editor (step q RestoreCurrent) = pg_editor p ∧ pg_restore (step q RestoreCurrent) = None ∧
  pg_preview (step q RestoreCurrent) = false.
Proof.
  cbv zeta. assert (previewing (pg_editor p) (s_drafts (pg_stores p)) (run_events p (RestoreHistorical g :: evs))) as (H1 & H2 & H3).
  { apply (preview_run _ _ (step p (RestoreHistorical g)) evs); [|done]. unfold previewing. cbn. by rewrite Hr. }
  split; [done|]. cbn [CanvasPage.step]. unfold restoreCurrentDraft. rewrite H2. cbn [say set_gallery pg_editor pg_restore pg_preview].
  unfold saveDraft. repeat case_match; cbn; by rewrite ?Hw.
Qed.

(** ** Images are kept *)

(** The identifiers are in the history, and in every history that is about to
    be stored. *)
Definition keeps_ids (ids : list jstr) (p : Page) : Prop :=
  (∀ i, i ∈ ids → i ∈ map gi_id (pg_history p)) ∧
  (∀ r imgs next, r ∈ pg_runs p → rn_phase r = AwaitSave imgs next → ∀ i, i ∈ ids → i ∈ map gi_id next).

(** Events that do not replace the history by one from before the images. *)
Definition merging (ev : Event) : bool :=
  match ev with ClearHistory | ImagesAnswered _ _ _ | HistoryRestored _ => false | _ => true end.

Lemma in_merge i lists l : i ≠ [] → l ∈ lists → i ∈ map gi_id l → i ∈ map gi_id (mergeUniqueById lists).
Proof.
  intros Hn Hl Hi. apply merge_ids. split; [|done]. apply list_elem_of_fmap in Hi as (g & -> & Hg). apply list_elem_of_fmap_2.
  apply list_elem_of_In, in_concat. exists l. split; by apply list_elem_of_In.
Qed.

Lemma in_delete {A} (i : nat) (l : list A) x : x ∈ delete i l → x ∈ l.
Proof. intros Hx. eapply elem_of_submseteq; [exact Hx|]. apply sublist_submseteq, sublist_delete. Qed.

Lemma in_insert {A} (i : nat) (y : A) (l : list A) x : x ∈ <[i := y]> l → x = y ∨ x ∈ l.
Proof.
  intros [j Hj]%list_elem_of_lookup. apply list_lookup_insert_Some in Hj as [(-> & <- & _)|[_ Hj]]; [by left|].
  right. by eapply list_elem_of_lookup_2.
Qed.

(** The same history and, of the runs, none new that is about to store. *)
Lemma keeps_on ids p q : keeps_ids ids p → pg_history q = pg_history p →
  (∀ r, r ∈ pg_runs q → r ∈ pg_runs p ∨ weight (rn_phase r) ≠ 1) → keeps_ids ids q.
Proof.
  intros [H1 H2] E Hr. split; [by rewrite E|]. intros r imgs next Hin Hp i Hi. destruct (Hr r Hin) as [Hin'|Hw]; [by apply (H2 r imgs next)|].
  by rewrite Hp in Hw.
Qed.

Lemma saveDraft_gallery old p : pg_history (saveDraft old p) = pg_history p ∧ pg_runs (saveDraft old p) = pg_runs p.
Proof. unfold saveDraft. destruct (pg_user p); [|done]. by case_match. Qed.

Lemma handleGenerate_keeps ids now p : keeps_ids ids p → keeps_ids ids (handleGenerate t t_model now p).
Proof.
  intros H. apply (keeps_on ids p); [done| |]; unfold handleGenerate; cbv zeta; (destruct (negb _); [by auto|]);
    (destruct (finalSize _) as [[w h]|]; [|by auto]); (destruct (negb _); [by auto|]); [done|].
  intros r. cbn [set_run pg_runs]. intros [Hr|Hr]%elem_of_app; [by left|]. apply list_elem_of_singleton in Hr as ->. right. by cbn.
Qed.

Lemma keyAnswered_keeps ids i r a p : keeps_ids ids p → keeps_ids ids (keyAnswered t i r a p).
Proof.
  intros H. assert (∀ f, keeps_ids ids (failed t f (delete i (pg_runs p)) p)) as Hf.
  { intros f. apply (keeps_on ids p); [done..|]. intros x Hx. left. by apply (in_delete i). }
  assert (∀ q, pg_history q = pg_history p → pg_runs q = <[i := with_phase AwaitImages r]> (pg_runs p) → keeps_ids ids q) as Hg.
  { intros q E1 E2. apply (keeps_on ids p); [done..|]. intros x. rewrite E2. intros [->|Hx]%in_insert; [by right|by left]. }
  unfold keyAnswered. destruct a as [[|c k]|m|f]; [apply Hf| |apply Hf..]. cbv zeta.
  destruct (p_image _); [|by apply Hg]. destruct (edit_form _ _); [by apply Hg|apply Hf].
Qed.

Lemma saveAnswered_keeps ids i r imgs next a p : Forall (λ i, i ≠ []) ids → keeps_ids ids p → pg_runs p !! i = Some r →
  rn_phase r = AwaitSave imgs next → keeps_ids ids (saveAnswered t kept fetched i imgs next a p).
Proof.
  intros Hn [H1 H2] Hi Hp. destruct (saveAnswered_ends i imgs next a p) as [_ Er]. split.
  - intros x Hx. destruct a as [remote|m]; [|by apply H1].
    change (x ∈ map gi_id (mergeUniqueById [map (hydrateLatestUrl kept fetched) remote; next])).
    rewrite Forall_forall in Hn. eapply (in_merge x _ next); [by apply Hn|set_solver|].
    apply (H2 r imgs next); [by eapply list_elem_of_lookup_2|done..].
  - intros x imgs' next'. rewrite Er. intros Hx%in_delete. by apply H2.
Qed.

Lemma merging_keeps ids p ev : Forall (λ i, i ≠ []) ids → keeps_ids ids p → merging ev = true → keeps_ids ids (step p ev).
Proof.
  intros Hn H Hm. destruct ev; try done; cbn [CanvasPage.step].
  - unfold change. edestruct saveDraft_gallery as [E1 E2]. apply (keeps_on ids p); [done|by rewrite E1|rewrite E2; by left].
  - unfold change. edestruct saveDraft_gallery as [E1 E2]. apply (keeps_on ids p); [done|by rewrite E1|rewrite E2; by left].
  - destruct d as [d|]; [|done]. cbn [draftLoaded]. edestruct saveDraft_gallery as [E1 E2].
    apply (keeps_on ids p); [done|by rewrite E1|rewrite E2; by left].
  - destruct (pg_generating p); [done|by apply handleGenerate_keeps].
  - destruct (pg_runs p !! i) as [r|]; [|done]. destruct (rn_phase r); [by apply keyAnswered_keeps|done..].
  - destruct (pg_runs p !! i) as [r|] eqn:Ei; [|done]. destruct (rn_phase r) as [| |imgs next] eqn:Ep; [done..|].
    by eapply saveAnswered_keeps.
  - unfold proxied. repeat case_match; exact H.
  - assert (∀ l, keeps_ids ids (set_gallery (mergeUniqueById [l; pg_history p]) (pg_current p) (pg_viewing p) p)) as Hu.
    { intros l. destruct H as [H1 H2]. split; [|done]. intros i Hi. rewrite Forall_forall in Hn.
      eapply (in_merge i _ (pg_history p)); [by apply Hn|set_solver|by apply H1]. }
    unfold refreshFromStorage. cbv zeta. repeat case_match; (done || apply Hu).
  - unfold restoreCurrentDraft. destruct (pg_restore p) as [d|]; [|done]. cbv zeta. edestruct saveDraft_gallery as [E1 E2].
    apply (keeps_on ids p); [done|by cbn [say set_gallery pg_history]; rewrite E1|cbn [say set_gallery pg_runs]; rewrite E2; by left].
Qed.

Lemma merging_run_keeps ids p evs : Forall (λ i, i ≠ []) ids → keeps_ids ids p → Forall (λ ev, merging ev = true) evs →
  keeps_ids ids (run_events p evs).
Proof. intros Hn H Hev. revert p H. induction Hev as [|ev evs He _ IH]; intros p H; [done|]. apply IH. by apply merging_keeps. Qed.

Lemma image_id_nonempty u e w h now j d : gi_id (new_image u e w h now j d) ≠ [].
Proof. cbn [new_image gi_id]. intros [_ [E _]%app_eq_nil]%app_eq_nil. discriminate E. Qed.

(** The images of an answer, by their identifiers. *)
Definition answered_ids (p : Page) (r : Run) (now : num) (data : list Generated) : list jstr :=
  map gi_id (imap (new_image (userId p) (rn_draft r) (rn_width r) (rn_height r) now) data).

Lemma imagesAnswered_keeps i r now data p : (∀ r', r' ∈ pg_runs p → weight (rn_phase r') ≠ 1) →
  data ≠ [] → length data <= HISTORY_LIMIT → keeps_ids (answered_ids p r now data) (imagesAnswered t i r now (inl data) p).
Proof.
  intros Hr Hd Hl. unfold imagesAnswered, answered_ids. cbv zeta. set (imgs := imap _ data).
  assert (length imgs = length data) as Hlen by apply length_imap.
  assert (∀ x, x ∈ map gi_id imgs → x ∈ map gi_id (take HISTORY_LIMIT (imgs ++ rn_history r))) as Hin.
  { intros x Hx. rewrite take_app_ge by lia. change (map gi_id) with (@fmap list list_fmap _ _ gi_id). rewrite fmap_app. apply elem_of_app. by left. }
  destruct imgs as [|newest imgs'] eqn:E; [by destruct data|]. rewrite <- E in *. split.
  - exact Hin.
  - intros r' imgs2 next2. cbn [say set_run pg_runs]. intros [->|Hx]%in_insert Hp x Hx'.
    + cbn [with_phase rn_phase] in Hp. injection Hp as <- <-. by apply Hin.
    + specialize (Hr r' Hx). by rewrite Hp in Hr.
Qed.

(** C28. A generated image stays: the images of an answer (500 at most), received
    while no other run waits for its history to be saved, are in the history from
    then on, through the saving (with any answer of the server), refreshes, edits,
    previews and later clicks, as long as the user does not clear the history, no
    later run brings its images, and the history is not restored from the start.
    With another run waiting they can be lost ([later_images_dropped]). *)
Theorem images_kept (p : Page) (i : nat) (r : Run) (now : num) (data : list Generated) (evs : list Event)
    (Hi : pg_runs p !! i = Some r) (Hp : rn_phase r = AwaitImages)
    (Hr : ∀ r', r' ∈ pg_runs p → weight (rn_phase r') ≠ 1) (Hd : data ≠ []) (Hl : length data <= HISTORY_LIMIT)
    (Hev : Forall (λ ev, merging ev = true) evs) :
  ∀ x, x ∈ answered_ids p r now data → x ∈ map gi_id (pg_history (run_events p (ImagesAnswered i now (inl data) :: evs))).
Proof.
  assert (run_events p (ImagesAnswered i now (inl data) :: evs) = run_events (imagesAnswered t i r now (inl data) p) evs) as ->.
  { cbn [CanvasPage.run_events fold_left CanvasPage.step]. by rewrite Hi, Hp. }
  apply (merging_run_keeps (answered_ids p r now data)); [|by apply imagesAnswered_keeps|done].
  unfold answered_ids. apply Forall_forall. intros x (g & -> & Hg)%list_elem_of_fmap. apply elem_of_lookup_imap in Hg as (j & d & -> & _).
  apply image_id_nonempty.
Qed.

(** ** Records without an owner *)

(** Records that agree but for the old name. *)
Definition same_scoped {A} (o o' : obj A) : Prop := ∀ k, k ≠ HISTORY_KEY → obj_get k o = obj_get k o'.

(** The page with other histories in its two stores. *)
Definition swap (h i : obj (list GeneratedImage)) (p : Page) : Page := set_stores (set_idb i (set_history_store h (pg_stores p))) p.

Definition agrees (h i : obj (list GeneratedImage)) (p : Page) : Prop :=
  same_scoped h (s_history (pg_stores p)) ∧ same_scoped i (s_idb (pg_stores p)).

(** The two pages go on together. *)
Definition together (q q' : Page) : Prop := ∃ h i, q' = swap h i q ∧ agrees h i q.

Lemma scoped_other u : getHistoryStorageKey u ≠ HISTORY_KEY.
Proof. unfold getHistoryStorageKey, scoped. intros E%(f_equal length). rewrite !length_app in E.
  change (length (js ":")) with 1 in E. lia.
Qed.

Lemma scoped_set {A} k (v : A) o o' : same_scoped o o' → same_scoped (obj_set k v o) (obj_set k v o').
Proof. intros H k' Hk. rewrite !obj_get_set. by destruct (str_eqb k' k); [|apply H]. Qed.

Lemma scoped_delete {A} k (o o' : obj A) : same_scoped o o' → same_scoped (obj_delete k o) (obj_delete k o').
Proof. intros H k' Hk. rewrite !obj_get_delete. by destruct (str_eqb k' k); [|apply H]. Qed.

Lemma together_same h i p q q' : agrees h i p → q' = swap h i q → s_history (pg_stores q) = s_history (pg_stores p) →
  s_idb (pg_stores q) = s_idb (pg_stores p) → together q q'.
Proof. intros Ha E E1 E2. exists h, i. split; [done|]. unfold agrees. by rewrite E1, E2. Qed.

Lemma clear_swap u h i s : clearGenerationState u (set_idb i (set_history_store h s)) = set_idb i (set_history_store h (clearGenerationState u s)).
Proof. by destruct u. Qed.

Lemma clear_histories u s : s_history (clearGenerationState u s) = s_history s ∧ s_idb (clearGenerationState u s) = s_idb s.
Proof. by destruct u. Qed.

Lemma finish_swap rs h i p : finish rs (swap h i p) = swap h i (finish rs p).
Proof. unfold finish, swap, userId. cbn [set_stores pg_stores pg_user set_run]. by rewrite clear_swap. Qed.

Lemma finish_together rs h i p : agrees h i p → together (finish rs p) (finish rs (swap h i p)).
Proof.
  intros Ha. destruct (clear_histories (userId p) (pg_stores p)) as [E1 E2].
  apply (together_same h i p); [done|apply finish_swap|exact E1|exact E2].
Qed.

Lemma failed_together f rs h i p : agrees h i p → together (failed t f rs p) (failed t f rs (swap h i p)).
Proof. intros Ha. exact (finish_together rs h i (say [] [failure_text t f] (set_run _ (Some (failure_text t f)) _ (pg_runs p) p)) Ha). Qed.

Lemma saveDraft_together old h i p : agrees h i p → together (saveDraft old p) (saveDraft old (swap h i p)).
Proof.
  intros Ha. apply (together_same h i p); [done|..]; unfold saveDraft; cbn [swap set_stores pg_user pg_hydrated pg_preview pg_editor];
    destruct (pg_user p); try done; by case_match.
Qed.

Lemma handleGenerate_together now h i p : agrees h i p → together (handleGenerate t t_model now p) (handleGenerate t t_model now (swap h i p)).
Proof.
  intros Ha. unfold handleGenerate. cbn [swap set_stores pg_editor]. destruct (negb _); [by apply (together_same h i p)|]. cbv zeta.
  set (e := pg_editor p).
  set (q := set_run true None (pg_keyMissing p) (pg_runs p)
              (set_stores (writeGenerationState (userId p) now (e_model e) (pg_stores p)) (set_editor e None false (pg_hydrated p) p))).
  assert (agrees h i q) as Hq by (unfold agrees, q, writeGenerationState; cbn [set_run set_stores pg_stores]; by destruct (userId p)).
  match goal with |- together _ (match finalSize e with Some _ => _ | None => failed _ _ _ ?x end) => assert (x = swap h i q) as Ex end.
  { unfold q, swap, writeGenerationState, userId. cbn [set_run set_stores set_editor pg_stores pg_user pg_keyMissing pg_runs pg_hydrated].
    by destruct (pg_user p). }
  rewrite Ex. destruct (finalSize e) as [[w h0]|]; [|by apply failed_together].
  destruct (negb _); [by apply failed_together|]. by apply (together_same h i q).
Qed.

Lemma keyAnswered_together j r a h i p : agrees h i p → together (keyAnswered t j r a p) (keyAnswered t j r a (swap h i p)).
Proof.
  intros Ha. unfold keyAnswered. change (pg_runs (swap h i p)) with (pg_runs p).
  destruct a as [[|c k]|m|f]; try by apply failed_together. cbv zeta.
  destruct (p_image _); [destruct (edit_form _ _); [|by apply failed_together]|]; by apply (together_same h i p).
Qed.

Lemma imagesAnswered_together j r now a h i p : agrees h i p → together (imagesAnswered t j r now a p) (imagesAnswered t j r now a (swap h i p)).
Proof.
  intros Ha. unfold imagesAnswered. change (pg_runs (swap h i p)) with (pg_runs p). change (userId (swap h i p)) with (userId p).
  destruct a as [data|f]; [|by apply failed_together]. cbv zeta.
  destruct (imap _ data); [exact (finish_together _ h i (say _ _ p) Ha)|by apply (together_same h i p)].
Qed.

(** The stores after a history was saved. *)
Definition saved_stores (u : option num) (imgs next : list GeneratedImage) (s : Stores) : Stores :=
  let k := getHistoryStorageKey u in
  let entries := image_entries imgs in
  let s := set_images (fold_left (λ o kv, obj_set kv.1 kv.2 o) entries (s_images s)) s in
  let s := set_history_store (obj_set k (map (persisted_record (map fst entries)) next) (s_history s)) s in
  let s := set_idb (obj_set k next (s_idb s)) s in
  match imgs with newest :: _ => saveCurrentImageMetadata u newest s | [] => s end.

Lemma saved_swap u imgs next h i s :
  saved_stores u imgs next (set_idb i (set_history_store h s)) =
  set_idb (obj_set (getHistoryStorageKey u) next i)
    (set_history_store (obj_set (getHistoryStorageKey u) (map (persisted_record (map fst (image_entries imgs))) next) h) (saved_stores u imgs next s)).
Proof. by destruct imgs, u. Qed.

Lemma saved_histories u imgs next s :
  s_history (saved_stores u imgs next s) =
    obj_set (getHistoryStorageKey u) (map (persisted_record (map fst (image_entries imgs))) next) (s_history s) ∧
  s_idb (saved_stores u imgs next s) = obj_set (getHistoryStorageKey u) next (s_idb s).
Proof. by destruct imgs, u. Qed.

Lemma store_together u imgs next rs h i p : agrees h i p →
  together (finish rs (set_stores (saved_stores u imgs next (pg_stores p)) p))
    (finish rs (set_stores (saved_stores u imgs next (pg_stores (swap h i p))) (swap h i p))).
Proof.
  intros [H1 H2]. change (pg_stores (swap h i p)) with (set_idb i (set_history_store h (pg_stores p))). rewrite saved_swap.
  match goal with |- together _ (finish _ (set_stores (set_idb ?i' (set_history_store ?h' _)) _)) =>
    apply (finish_together rs h' i' (set_stores (saved_stores u imgs next (pg_stores p)) p)) end.
  destruct (saved_histories u imgs next (pg_stores p)) as [E1 E2]. unfold agrees. cbn [set_stores pg_stores]. rewrite E1, E2.
  split; by apply scoped_set.
Qed.

Lemma saveAnswered_together j imgs next a h i p : agrees h i p →
  together (saveAnswered t kept fetched j imgs next a p) (saveAnswered t kept fetched j imgs next a (swap h i p)).
Proof.
  intros Ha. destruct a as [remote|m].
  - exact (store_together (userId p) imgs next (delete j (pg_runs p)) h i
      (set_gallery (mergeUniqueById [map (hydrateLatestUrl kept fetched) remote; next]) (pg_current p) (pg_viewing p) p) Ha).
  - exact (store_together (userId p) imgs next (delete j (pg_runs p)) h i (say [] _ p) Ha).
Qed.

Lemma refresh_together remote h i p : agrees h i p →
  together (refreshFromStorage kept fetched remote p) (refreshFromStorage kept fetched remote (swap h i p)).
Proof.
  intros Ha. pose proof Ha as [H1 H2]. unfold refreshFromStorage. cbv zeta. change (userId (swap h i p)) with (userId p).
  cbn [swap set_stores pg_stores pg_history pg_current pg_viewing set_idb set_history_store s_history s_idb s_images].
  rewrite (H1 _ (scoped_other (userId p))), (H2 _ (scoped_other (userId p))).
  destruct remote as [[|g l]|].
  - destruct (match default [] (obj_get _ (s_history _)) with [] => _ | l => l end); by apply (together_same h i p).
  - by apply (together_same h i p).
  - destruct (match default [] (obj_get _ (s_history _)) with [] => _ | l => l end); by apply (together_same h i p).
Qed.

(** For a regular user the records under the old name are not read. *)
Lemma restore_together u remote h i p : n_ge (au_role u) ROLE_ADMIN = false → agrees h i p →
  together (restoreHistory kept fetched u remote p) (restoreHistory kept fetched u remote (swap h i p)).
Proof.
  intros Hr Ha. pose proof Ha as [H1 H2]. unfold restoreHistory. rewrite Hr. cbn [andb]. cbv zeta.
  cbn [swap set_stores pg_stores set_idb set_history_store s_history s_idb].
  rewrite (H1 _ (scoped_other (Some (au_id u)))), (H2 _ (scoped_other (Some (au_id u)))).
  set (R := default [] (obj_get _ (s_history (pg_stores p)))). set (I := default [] (obj_get _ (s_idb (pg_stores p)))).
  destruct remote as [[|g l]|].
  - destruct (n_lt (au_role u) ROLE_ADMIN).
    + assert (same_scoped (obj_delete HISTORY_KEY h) (obj_delete HISTORY_KEY (s_history (pg_stores p)))) as H1' by by apply scoped_delete.
      destruct R; [destruct I|]; exists (obj_delete HISTORY_KEY h), i; (split; [reflexivity|by split]).
    + destruct R; [destruct I|]; by apply (together_same h i p).
  - by apply (together_same h i p).
  - destruct I; by apply (together_same h i p).
Qed.

Lemma clear_together h i p : agrees h i p → together (clearHistory p) (clearHistory (swap h i p)).
Proof.
  intros [H1 H2]. exists (obj_delete (getHistoryStorageKey (userId p)) h), (obj_delete (getHistoryStorageKey (userId p)) i).
  split; [reflexivity|]. split; by apply scoped_delete.
Qed.

Lemma step_together ev h i p : (∀ u, pg_user p = Some u → n_ge (au_role u) ROLE_ADMIN = false) → agrees h i p →
  together (step p ev) (step (swap h i p) ev).
Proof.
  intros Hr Ha. destruct ev; cbn [CanvasPage.step]; change (pg_runs (swap h i p)) with (pg_runs p);
    change (pg_generating (swap h i p)) with (pg_generating p); change (pg_user (swap h i p)) with (pg_user p);
    try (by apply (together_same h i p)).
  - exact (saveDraft_together (pg_editor p) h i (set_editor _ (pg_restore p) (pg_preview p) (pg_hydrated p) p) Ha).
  - exact (saveDraft_together (pg_editor p) h i (set_editor _ (pg_restore p) (pg_preview p) (pg_hydrated p) p) Ha).
  - destruct d as [d|]; [|by apply (together_same h i p)].
    exact (saveDraft_together (pg_editor p) h i (set_editor (applyEditorState d) (pg_restore p) (pg_preview p) true p) Ha).
  - destruct (pg_generating p); [by apply (together_same h i p)|by apply handleGenerate_together].
  - destruct (pg_runs p !! i0) as [r|]; [|by apply (together_same h i p)].
    destruct (rn_phase r); [by apply keyAnswered_together|by apply (together_same h i p)..].
  - destruct (pg_runs p !! i0) as [r|]; [|by apply (together_same h i p)].
    destruct (rn_phase r); [by apply (together_same h i p)|by apply imagesAnswered_together|by apply (together_same h i p)].
  - destruct (pg_runs p !! i0) as [r|]; [|by apply (together_same h i p)].
    destruct (rn_phase r); [by apply (together_same h i p)..|by apply saveAnswered_together].
  - unfold proxied. change (pg_current (swap h i p)) with (pg_current p). repeat case_match; by apply (together_same h i p).
  - destruct (clear_histories (userId p) (pg_stores p)) as [E1 E2]. apply (together_same h i p); [done| |exact E1|exact E2].
    unfold socketMessage, swap, userId. cbn [set_stores pg_stores pg_user set_run pg_keyMissing pg_runs]. by rewrite clear_swap.
  - by apply refresh_together.
  - destruct (pg_user p) as [u|] eqn:E; [|by apply (together_same h i p)]. apply restore_together; [by apply Hr|done].
  - by apply clear_together.
  - unfold restoreCurrentDraft. change (pg_restore (swap h i p)) with (pg_restore p).
    destruct (pg_restore p) as [d|]; [|by apply (together_same h i p)]. cbv zeta.
    destruct (saveDraft_together (pg_editor p) h i (set_editor (applyEditorState d) None false (pg_hydrated p) p) Ha) as (h' & i' & E & Ha').
    exists h', i'. split; [|exact Ha']. change (set_editor ?x None false (pg_hydrated (swap h i p)) (swap h i p))
      with (swap h i (set_editor x None false (pg_hydrated p) p)). change (pg_editor (swap h i p)) with (pg_editor p). by rewrite E.
Qed.

Lemma step_user p ev : pg_user (step p ev) = pg_user p.
Proof.
  destruct (aside ev) eqn:E; [by apply aside_runs|]. destruct (off_desk ev) eqn:E'; [by apply off_desk_same|].
  destruct ev; try done. cbn [CanvasPage.step]. destruct (pg_generating p); [done|]. unfold handleGenerate. cbv zeta. by repeat case_match.
Qed.

Lemma run_together evs : ∀ p q, (∀ u, pg_user p = Some u → n_ge (au_role u) ROLE_ADMIN = false) → together p q →
  together (run_events p evs) (run_events q evs).
Proof.
  induction evs as [|ev evs IH]; intros p q Hr H; [done|]. destruct H as (h & i & -> & Ha). cbn [CanvasPage.run_events fold_left].
  apply IH; [by setoid_rewrite step_user|]. by apply step_together.
Qed.

(** C32. The records kept before there were owners are hidden from a regular
    user: whatever is stored under the old name, in local storage ([h]) and in
    the browser's database ([i]), the whole session (the history, the current and
    the opened image, the requests) is the same as without it.  Where the server
    answers that it has no records, the copy in local storage is removed; the one
    in the database stays. *)
Theorem legacy_hidden (u : AuthUser) (now : num) (s : Stores) (h i : obj (list GeneratedImage)) (evs : list Event)
    (Hr : n_ge (au_role u) ROLE_ADMIN = false) (Hh : same_scoped h (s_history s)) (Hi : same_scoped i (s_idb s)) :
  let p := run_events (open_page (Some u) now s) evs in
  let q := run_events (open_page (Some u) now (set_idb i (set_history_store h s))) evs in
  pg_history q = pg_history p ∧ pg_current q = pg_current p ∧ pg_viewing q = pg_viewing p ∧ pg_sent q = pg_sent p ∧
  (n_lt (au_role u) ROLE_ADMIN = true →
     obj_get HISTORY_KEY (s_history (pg_stores (step q (HistoryRestored (Some []))))) = None ∧
     obj_get HISTORY_KEY (s_idb (pg_stores (step q (HistoryRestored (Some []))))) = obj_get HISTORY_KEY (s_idb (pg_stores q))).
Proof.
  cbv zeta. assert (together (open_page (Some u) now s) (open_page (Some u) now (set_idb i (set_history_store h s)))) as H0.
  { exists h, i. unfold open_page, readGenerationState. cbn [fmap option_fmap option_map s_state set_idb set_history_store].
    destruct (obj_get _ (s_state s)) as [[at' m]|]; [destruct (negb (num_truthy at') || n_gt _ _)|];
      (split; [reflexivity|by split]). }
  assert (∀ v, pg_user (open_page (Some u) now s) = Some v → n_ge (au_role v) ROLE_ADMIN = false) as Hu.
  { intros v. unfold open_page. destruct (readGenerationState _ _ _). by intros [= <-]. }
  destruct (run_together evs _ _ Hu H0) as (h' & i' & E & _). rewrite E. split_and!; [done..|]. intros Hl. rewrite <- E.
  set (q := run_events (open_page (Some u) now (set_idb i (set_history_store h s))) evs).
  assert (pg_user q = Some u) as Hq.
  { assert (∀ evs p, pg_user (run_events p evs) = pg_user p) as Hrun.
    { clear. induction evs as [|ev evs IH]; intros p; [done|]. cbn [CanvasPage.run_events fold_left].
      etrans; [apply IH|apply step_user]. }
    unfold q. rewrite Hrun. unfold open_page. by destruct (readGenerationState _ _ _). }
  cbn [CanvasPage.step]. rewrite Hq. unfold restoreHistory. rewrite Hr, Hl. cbn [andb]. cbv zeta.
  assert (∀ o : obj (list GeneratedImage), obj_get HISTORY_KEY (obj_delete HISTORY_KEY o) = None) as Hdel.
  { intros o. rewrite obj_get_delete. by rewrite str_eqb_refl. }
  split; repeat case_match; first [apply Hdel|reflexivity].
Qed.

(** ** What is asked for *)

Lemma presets_valid : forallb (λ p, valid_edge (of_Z (ps_width p)) && valid_edge (of_Z (ps_height p))) IMAGE_SIZE_PRESETS = true.
Proof. vm_compute. reflexivity. Qed.

(** Both edges of a size are whole numbers from 256 to 4096. *)
Lemma finalSize_valid e w h : finalSize e = Some (w, h) → valid_edge w = true ∧ valid_edge h = true.
Proof.
  unfold finalSize. cbv zeta. destruct (str_eqb (e_size e) CUSTOM_SIZE_VALUE).
  - destruct (valid_edge _ && valid_edge _) eqn:E; [|done]. intros [= <- <-]. by apply andb_prop.
  - intros Hs. apply andb_prop. pose proof presets_valid as Hv. rewrite forallb_forall in Hv.
    destruct (find _ IMAGE_SIZE_PRESETS) as [pr|] eqn:E; cbn [from_option] in Hs; unfold Datatypes.id in Hs.
    + apply find_some in E as [Hin _]. injection Hs as <- <-. by apply Hv.
    + injection Hs as <- <-. exact (Hv first_preset (or_introl eq_refl)).
Qed.

(** The ratio of a preset, or valid edges. *)
Definition size_ok (s : jstr) : Prop :=
  (∃ pr, pr ∈ IMAGE_SIZE_PRESETS ∧ s = ps_aspectRatio pr) ∨
  ∃ w h, valid_edge w = true ∧ valid_edge h = true ∧ s = dimensions w h.

(** A whole number from 1 to 20. *)
Definition good_count (x : num) : Prop := (∃ z, x = of_Z z) ∧ n_ge x (of_Z 1) = true ∧ n_le x (of_Z MAX_IMAGE_COUNT) = true.

Lemma min_max_count f : isNaN f = false →
  math_min (math_max (of_Z 1) f) (of_Z MAX_IMAGE_COUNT) = of_Z 1 ∨
  math_min (math_max (of_Z 1) f) (of_Z MAX_IMAGE_COUNT) = of_Z MAX_IMAGE_COUNT ∨
  math_min (math_max (of_Z 1) f) (of_Z MAX_IMAGE_COUNT) = f ∧ n_ge f (of_Z 1) = true ∧ n_le f (of_Z MAX_IMAGE_COUNT) = true.
Proof.
  intros Hf. assert (math_max (of_Z 1) f = of_Z 1 ∨ math_max (of_Z 1) f = f ∧ n_lt (of_Z 1) f = true) as [-> | [-> H1]].
  { unfold math_max. rewrite Hf. change (isNaN (of_Z 1)) with false. cbn [orb]. destruct (n_lt (of_Z 1) f); [by right|]. left. by case_match. }
  { left. vm_compute. reflexivity. }
  unfold math_min. rewrite Hf. change (isNaN (of_Z MAX_IMAGE_COUNT)) with false. cbn [orb]. pose proof (n_lt_le _ _ H1) as H2.
  destruct (n_lt f (of_Z MAX_IMAGE_COUNT)) eqn:E1; [right; right; split_and!; [done|exact H2|by apply n_lt_le]|].
  destruct (n_lt (of_Z MAX_IMAGE_COUNT) f) eqn:E2; [by right; left|]. right. right.
  split_and!; [by destruct f as [[]| | |]|exact H2|by apply n_lt_total].
Qed.

(** Whatever is typed, the count is a whole number from 1 to 20. *)
Lemma clampCount_good text : good_count (clampCount text).
Proof.
  unfold clampCount. generalize (string_to_number text). intros v.
  assert (good_count (of_Z 1)) as G1 by (split_and!; [by eexists|reflexivity..]).
  assert (good_count (of_Z MAX_IMAGE_COUNT)) as G2 by (split_and!; [by eexists|reflexivity..]).
  destruct (isFinite v) eqn:Ef; [|done]. destruct v as [[]|[]| |s m e]; try done.
  cbn [math_floor]. set (k := floor2 _ _).
  destruct (min_max_count (of_Z k) (of_Z_nan k)) as [-> | [-> | (-> & H1 & H2)]]; [done..|]. split_and!; [by exists k|done..].
Qed.

(** *** Requests, with a condition on their counts *)

Section Counts.
Context (C : num → Prop) (C_one : C (of_Z 1)) (C_typed : ∀ text, C (clampCount text)).

Definition request_ok (r : Request) : Prop :=
  match r with
  | GenerateRequest p _ => size_ok (p_size p) ∧ C (p_n p)
  | EditRequest fields _ =>
      (∃ s, obj_get (js "size") fields = Some s ∧ size_ok s) ∧
      ∃ n, obj_get (js "n") fields = Some (num_to_string n) ∧ C n
  | _ => True
  end.

Lemma request_payload_ok e w h : valid_edge w = true → valid_edge h = true → C (e_count e) →
  size_ok (p_size (payload_of e w h)) ∧ C (p_n (payload_of e w h)).
Proof.
  intros Hw Hh Hc. split; [|done]. cbn [payload_of p_size]. destruct (selectedPreset w h) as [pr|] eqn:E.
  - left. exists pr. split; [|done]. apply find_some in E as [Hin _]. by apply list_elem_of_In.
  - right. by exists w, h.
Qed.

Lemma ratios_nonempty : forallb (λ p, str_truthy (ps_aspectRatio p)) IMAGE_SIZE_PRESETS = true.
Proof. vm_compute. reflexivity. Qed.

Lemma size_ok_nonempty s : size_ok s → str_truthy s = true.
Proof.
  intros [(pr & Hin & ->)|(w & h & _ & _ & ->)].
  - pose proof ratios_nonempty as Hr. rewrite forallb_forall in Hr. by apply Hr, list_elem_of_In.
  - unfold dimensions. by destruct (num_to_string w).
Qed.

Lemma edit_form_ok p reference fields key : size_ok (p_size p) → C (p_n p) → edit_form p reference = Some fields →
  request_ok (EditRequest fields key).
Proof.
  intros Hs Hn. unfold edit_form. destruct (re_test _ _); [|done]. cbv zeta. rewrite (size_ok_nonempty _ Hs). intros [= <-]. split.
  - exists (p_size p). split; [|done]. cbn [app obj_get]. eval_names. done.
  - exists (p_n p). split; [|done]. destruct (str_truthy (default [] (p_aspect_ratio p))); cbn [app obj_get]; eval_names; done.
Qed.

(** *** In every state *)

Definition run_ok (r : Run) : Prop := valid_edge (rn_width r) = true ∧ valid_edge (rn_height r) = true ∧ C (e_count (rn_draft r)).

Record careful (p : Page) : Prop := {
  ca_editor : C (e_count (pg_editor p)); ca_restore : ∀ d, pg_restore p = Some d → C (e_count d);
  ca_runs : Forall run_ok (pg_runs p); ca_sent : Forall request_ok (pg_sent p)
}.

(** Stored drafts and earlier images that are loaded have such a count. *)
Definition good_event (ev : Event) : Prop :=
  match ev with
  | DraftLoaded (Some d) => C (e_count (applyEditorState d))
  | RestoreHistorical g => C (e_count (applyEditorState (image_draft g)))
  | _ => True
  end.

(** The same editor, no new run, and good requests. *)
Lemma careful_on p q rs : careful p → pg_editor q = pg_editor p → pg_restore q = pg_restore p →
  Forall run_ok (pg_runs q) → pg_sent q = pg_sent p ++ rs → Forall request_ok rs → careful q.
Proof.
  intros [H1 H2 H3 H4] E1 E2 Hr E4 Hrs. split; [by rewrite E1|by rewrite E2|done|]. rewrite E4. by apply Forall_app.
Qed.

Lemma careful_failed f i p : careful p → careful (failed t f (delete i (pg_runs p)) p).
Proof. intros H. apply (careful_on p _ []); [done..|by apply Forall_delete, H|reflexivity|constructor]. Qed.

Lemma applied_count d : C (e_count d) → C (e_count (applyEditorState d)).
Proof. intros H. cbn [applyEditorState e_count]. by destruct (isInteger _). Qed.

Lemma saveDraft_careful old p : careful p → careful (saveDraft old p).
Proof. intros H. unfold saveDraft. destruct (pg_user p); [|done]. case_match; [done|by destruct H]. Qed.

Lemma change_careful d p : careful p → C (e_count d) → careful (change d p).
Proof. intros [H1 H2 H3 H4] Hd. by apply saveDraft_careful. Qed.

Lemma handleGenerate_careful now p : careful p → careful (handleGenerate t t_model now p).
Proof.
  intros [H1 H2 H3 H4]. assert (Forall request_ok (pg_sent p ++ [])) as H4' by (by rewrite app_nil_r).
  unfold handleGenerate. cbv zeta. destruct (negb _); [by split|].
  destruct (finalSize _) as [[w h]|] eqn:E; [|by split]. destruct (negb _); [by split|]. split; [done..| |done].
  apply Forall_app. split; [done|]. apply Forall_singleton. apply finalSize_valid in E as [? ?]. by split_and!.
Qed.

Lemma keyAnswered_careful i r a p : careful p → pg_runs p !! i = Some r → careful (keyAnswered t i r a p).
Proof.
  intros H Hi. assert (run_ok r) as (Hw & Hh & Hc) by (by eapply Forall_lookup_1; [apply H|]).
  assert (∀ q rs, pg_editor q = pg_editor p → pg_restore q = pg_restore p → pg_runs q = <[i := with_phase AwaitImages r]> (pg_runs p) →
    pg_sent q = pg_sent p ++ rs → Forall request_ok rs → careful q) as Hg.
  { intros q rs E1 E2 E3 E4 Hrs. apply (careful_on p q rs); [done..| |done|done]. rewrite E3. apply Forall_insert; [apply H|by split_and!]. }
  destruct (request_payload_ok (rn_draft r) _ _ Hw Hh Hc) as [Hs Hn].
  unfold keyAnswered. destruct a as [[|c k]|m|f]; [by apply careful_failed| |by apply careful_failed..]. cbv zeta.
  destruct (p_image _) as [reference|].
  - destruct (edit_form _ _) as [fields|] eqn:Ef; [|by apply careful_failed].
    eapply Hg; [done..|]. apply Forall_singleton. exact (edit_form_ok _ _ _ _ Hs Hn Ef).
  - eapply Hg; [done..|]. by apply Forall_singleton.
Qed.

Lemma imagesAnswered_careful i r now a p : careful p → pg_runs p !! i = Some r → careful (imagesAnswered t i r now a p).
Proof.
  intros H Hi. assert (run_ok r) as Hr by (by eapply Forall_lookup_1; [apply H|]).
  unfold imagesAnswered. destruct a as [data|f]; [|by apply careful_failed]. cbv zeta. destruct (imap _ data) as [|newest imgs].
  - apply (careful_on p _ []); [done..|by apply Forall_delete, H|done|constructor].
  - eapply (careful_on p _ [SaveHistory _]); [done..| |done|by apply Forall_singleton]. apply Forall_insert; [apply H|exact Hr].
Qed.

Lemma saveAnswered_careful i imgs next a p : careful p → careful (saveAnswered t kept fetched i imgs next a p).
Proof.
  intros H. apply (careful_on p _ []); [done|by destruct a..| |by destruct a; rewrite ?app_nil_r; cbn; rewrite ?app_nil_r|constructor].
  destruct (saveAnswered_ends i imgs next a p) as [_ ->]. by apply Forall_delete, H.
Qed.

Lemma restoreHistory_careful u remote p : careful p → careful (restoreHistory kept fetched u remote p).
Proof.
  intros [H1 H2 H3 H4]. destruct (restoreHistory_runs u remote p) as (_ & _ & E & _).
  destruct (restoreHistory_desk u remote p) as (_ & E1 & E2 & _). split; [by rewrite E1|by rewrite E2|by rewrite E|].
  assert (∃ rs, pg_sent (restoreHistory kept fetched u remote p) = pg_sent p ++ rs ∧ Forall request_ok rs) as (rs & -> & Hrs); [|by apply Forall_app].
  assert (∀ l, Forall request_ok [SaveHistory l]) as Hl by (intros; by apply Forall_singleton).
  unfold restoreHistory. destruct remote as [[|g l]|]; cbv zeta;
    [|exists []; rewrite app_nil_r; split; [reflexivity|constructor]|case_match; exists []; rewrite app_nil_r; split; (reflexivity || constructor)].
  destruct (n_ge (au_role u) ROLE_ADMIN && negb match default [] (obj_get HISTORY_KEY (s_history (pg_stores p))) with [] => true | _ => false end);
    [|destruct (n_lt (au_role u) ROLE_ADMIN)]; cbv iota;
    repeat (match goal with |- context [match ?x with [] => _ | _ :: _ => _ end] => destruct x end);
    destruct (n_ge (au_role u) ROLE_ADMIN); cbn [andb negb]; cbv iota;
    repeat (match goal with |- context [match ?x with [] => _ | _ :: _ => _ end] => destruct x end);
    first [exists []; rewrite app_nil_r; split; [reflexivity|constructor]|eexists; split; [reflexivity|apply Hl]].
Qed.

Lemma step_careful p ev : careful p → good_event ev → careful (step p ev).
Proof.
  intros H He. pose proof H as [H1 H2 H3 H4]. destruct ev; cbn [CanvasPage.step].
  - by apply change_careful.
  - apply change_careful; [done|]. apply C_typed.
  - destruct d as [d|]; [|by split]. by apply saveDraft_careful.
  - destruct (pg_generating p); [done|by apply handleGenerate_careful].
  - destruct (pg_runs p !! i) as [r|] eqn:Ei; [|done]. destruct (rn_phase r); [by apply keyAnswered_careful|done..].
  - destruct (pg_runs p !! i) as [r|] eqn:Ei; [|done]. destruct (rn_phase r); [done|by apply imagesAnswered_careful|done].
  - destruct (pg_runs p !! i) as [r|] eqn:Ei; [|done]. destruct (rn_phase r); [done..|by apply saveAnswered_careful].
  - unfold proxied. repeat case_match; by split.
  - by split.
  - unfold refreshFromStorage. cbv zeta. repeat case_match; by split.
  - destruct (pg_user p); [by apply restoreHistory_careful|done].
  - apply (careful_on p _ [DeleteHistory]); [done..|by apply Forall_singleton].
  - by split.
  - apply (careful_on (set_editor (applyEditorState (image_draft g)) (pg_restore (step p (RestoreHistorical g))) true (pg_hydrated p) p) _ []);
      [|done..|constructor]. split; [done| |done..]. cbn. intros d [= <-]. by destruct (pg_restore p) eqn:E; [apply H2|].
  - unfold restoreCurrentDraft. destruct (pg_restore p) as [d|] eqn:E; [|done]. cbv zeta.
    eapply (careful_on (saveDraft (pg_editor p) (set_editor (applyEditorState d) None false (pg_hydrated p) p)) _ []); [|done..| |done|constructor].
    + apply saveDraft_careful. split; [by apply applied_count, H2|done..].
    + cbn [say set_gallery pg_runs]. destruct (saveDraft_gallery (pg_editor p) (set_editor (applyEditorState d) None false (pg_hydrated p) p)) as [_ ->]. done.
Qed.

Lemma run_careful p evs : careful p → Forall good_event evs → careful (run_events p evs).
Proof. intros Hp Hev. revert p Hp. induction Hev as [|ev evs He _ IH]; intros p Hp; [done|]. apply IH. by apply step_careful. Qed.

Lemma open_careful u now s : careful (open_page u now s).
Proof. unfold open_page. destruct (readGenerationState _ _ _). split; [exact C_one|done|constructor|constructor]. Qed.
End Counts.

(** C21. What a session asks for: from opening the page on, whatever is done and
    answered, the size of every request for images (new ones and edits of a
    reference alike) is the ratio of a preset or two whole numbers from 256 to
    4096.  Its count is a whole number from 1 to 20 as long as the stored drafts
    and the earlier images whose settings are loaded have such a count, which
    the page does not check ([stored_count_unchecked]). *)
Theorem requests_bounded (u : option AuthUser) (now : num) (s : Stores) (evs : list Event) :
  let sent := pg_sent (run_events (open_page u now s) evs) in
  Forall (request_ok (λ _, True)) sent ∧ (Forall (good_event good_count) evs → Forall (request_ok good_count) sent).
Proof.
  cbv zeta. split.
  - apply (run_careful (λ _, True)); [done..|by apply open_careful|]. apply Forall_forall. intros ev _. destruct ev; try done. by destruct d.
  - intros Hev. assert (good_count (of_Z 1)) as H1 by (split_and!; [by eexists|reflexivity..]).
    apply (run_careful good_count); [exact H1|apply clampCount_good|by apply open_careful|done].
Qed.
End Runs.

(** ** A page to evaluate *)

Definition some_user : AuthUser := {| au_id := of_Z 7; au_role := of_Z 1 |}.
Definition empty_stores : Stores := {| s_history := []; s_state := []; s_current := []; s_idb := []; s_images := []; s_drafts := [] |}.
Definition opened : Page := open_page (Some some_user) (of_Z 1000) empty_stores.

Definition cat_draft : Draft :=
  {| e_prompt := js "a cat"; e_referenceImage := None; e_referenceRatio := None; e_model := CANVAS_DEFAULT_MODEL; e_resolutionTier := js "2k";
     e_size := CUSTOM_SIZE_VALUE; e_customWidth := js "1000"; e_customHeight := js "700"; e_format := js "png"; e_count := of_Z 1;
     e_selectedKeyId := js "3" |}.

Definition old_image : GeneratedImage :=
  new_image (Some (of_Z 7)) cat_draft (of_Z 1000) (of_Z 700) (of_Z 500) 0 {| gd_url := Some (js "https://x/a.png"); gd_b64_json := None |}.

Abbreviation play := (run_events (λ s, s) (λ s _, s) (λ _, None) (λ _, None)).
Abbreviation one := (CanvasPage.step (λ s, s) (λ s _, s) (λ _, None) (λ _, None)).

Definition begin : list Event := [DraftLoaded None; Refreshed (Some [old_image]); Change cat_draft; ClickGenerate (of_Z 2000)].
Definition asked : Page := play opened (begin ++ [KeyAnswered 0 (KeyText (js "abc"))]).
Definition one_image : list Generated := [{| gd_url := Some (js "https://x/b.png"); gd_b64_json := None |}].

Lemma opened_idle : idle opened.
Proof. split; [reflexivity|]. intros u Hu. injection Hu as <-. reflexivity. Qed.

Lemma generation_ends_witness :
  awaited (play opened begin) = 3 ∧ awaited (one (play opened begin) (KeyAnswered 0 (KeyRefused None))) < 3.
Proof.
  split; [vm_compute; reflexivity|]. change 3 with (awaited (play opened begin)).
  apply (proj2 (proj2 (generation_ends (λ s, s) (λ s _, s) (λ _, None) (λ _, None) opened begin opened_idle))).
  eexists. split; [vm_compute; reflexivity|reflexivity].
Defined.

Lemma preview_returns_witness :
  pg_editor (one (play (play opened [DraftLoaded None; Change cat_draft]) [RestoreHistorical old_image; CountTyped (js "5")]) RestoreCurrent)
  = cat_draft.
Proof.
  exact (proj1 (proj2 (preview_returns (λ s, s) (λ s _, s) (λ _, None) (λ _, None) (play opened [DraftLoaded None; Change cat_draft]) old_image
    [CountTyped (js "5")] ltac:(vm_compute; reflexivity) ltac:(vm_compute; reflexivity) ltac:(repeat constructor)))).
Defined.

Lemma images_kept_witness :
  js "3000-0" ∈ map gi_id (pg_history (play asked (ImagesAnswered 0 (of_Z 3000) (inl one_image) :: [SaveAnswered 0 (inl [old_image])]))).
Proof.
  pose (r := {| rn_draft := cat_draft; rn_history := [old_image]; rn_width := of_Z 1000; rn_height := of_Z 700; rn_phase := AwaitImages |}).
  assert (pg_runs asked = [r]) as E by (vm_compute; reflexivity).
  apply (images_kept (λ s, s) (λ s _, s) (λ _, None) (λ _, None) asked 0 r).
  - by rewrite E.
  - reflexivity.
  - intros r' Hr'. rewrite E in Hr'. apply list_elem_of_singleton in Hr' as ->. discriminate.
  - discriminate.
  - apply (bool_decide_unpack _). vm_compute. exact I.
  - repeat constructor.
  - apply (bool_decide_unpack _). vm_compute. exact I.
Defined.

Lemma begin_good : Forall (good_event good_count) (begin ++ [KeyAnswered 0 (KeyText (js "abc"))]).
Proof. repeat (apply Forall_cons_2; [exact I|]). apply Forall_nil_2. Qed.

Lemma requests_bounded_witness : length (pg_sent asked) = 1 ∧ Forall (request_ok good_count) (pg_sent asked).
Proof.
  split; [vm_compute; reflexivity|].
  exact (proj2 (requests_bounded (λ s, s) (λ s _, s) (λ _, None) (λ _, None) (Some some_user) (of_Z 1000) empty_stores _) begin_good).
Defined.

(** The same session with and without a record under the old name. *)
Lemma legacy_hidden_witness :
  pg_history (play (open_page (Some some_user) (of_Z 1000)
    (set_idb [(HISTORY_KEY, [old_image])] (set_history_store [(HISTORY_KEY, [old_image])] empty_stores))) [HistoryRestored (Some [])]) =
  pg_history (play opened [HistoryRestored (Some [])]).
Proof.
  assert (same_scoped [(HISTORY_KEY, [old_image])] []) as H.
  { intros k Hk. cbn [obj_get]. unfold str_eqb. by rewrite bool_decide_eq_false_2. }
  exact (proj1 (legacy_hidden (λ s, s) (λ s _, s) (λ _, None) (λ _, None) some_user (of_Z 1000) empty_stores _ _ [HistoryRestored (Some [])]
    ltac:(vm_compute; reflexivity) H H)).
Defined.

(** ** Where the page misbehaves *)

(** The settings restored from an image of a custom size do not have that size:
    its text is no preset and not "custom", so the first preset is generated. *)
Theorem custom_size_lost :
  let p := one opened (RestoreHistorical old_image) in
  gi_size old_image = js "1000x700" ∧ e_size (pg_editor p) = js "1000x700" ∧ finalSize (pg_editor p) = Some (of_Z 1254, of_Z 1254).
Proof. vm_compute. split_and!; reflexivity. Qed.

(** A run uses the history of the moment it was started: what was cleared in the
    meantime comes back, on the page and on the server. *)
Theorem cleared_history_returns :
  let p := play asked [ClearHistory; ImagesAnswered 0 (of_Z 3000) (inl one_image)] in
  pg_history (play asked [ClearHistory]) = [] ∧ map gi_id (pg_history p) = [js "3000-0"; gi_id old_image] ∧
  match last (pg_sent p) with Some (SaveHistory items) => map gi_id items | _ => [] end = [js "3000-0"; gi_id old_image].
Proof. vm_compute. split_and!; reflexivity. Qed.

(** Generating from restored settings makes them the editor's, as the comment
    says, but not the draft's: no field changes, so nothing is saved, and the next
    visit brings back the draft from before. *)
Theorem committed_settings_not_saved :
  let p := play opened [DraftLoaded None; Change cat_draft; CountTyped (js "2"); RestoreHistorical old_image; ClickGenerate (of_Z 2000)] in
  pg_restore p = None ∧ e_count (pg_editor p) = of_Z 1 ∧
  e_count <$> obj_get (draftKey some_user) (s_drafts (pg_stores p)) = Some (of_Z 2).
Proof. vm_compute. split_and!; reflexivity. Qed.

(** The count of a stored draft is taken over if it is a whole number, however
    large: a draft with a thousand images is asked for as it is. *)
Theorem stored_count_unchecked :
  let p := play opened [DraftLoaded (Some (with_count (of_Z 1000) cat_draft)); ClickGenerate (of_Z 2000); KeyAnswered 0 (KeyText (js "abc"))] in
  match pg_sent p with [GenerateRequest payload _] => p_n payload = of_Z 1000 | _ => False end.
Proof. vm_compute. reflexivity. Qed.

(** A run whose history is still being saved replaces the images of a later one:
    the message of the server has freed the button, the later run has shown its
    image, and the answer to the first saving brings the history of the first. *)
Theorem later_images_dropped :
  let first := play asked [ImagesAnswered 0 (of_Z 3000) (inl one_image); SocketMessage None; ClickGenerate (of_Z 4000);
                           KeyAnswered 1 (KeyText (js "abc")); ImagesAnswered 1 (of_Z 5000) (inl one_image)] in
  map gi_id (pg_history first) = [js "5000-0"; js "3000-0"; gi_id old_image] ∧
  map gi_id (pg_history (play first [SaveAnswered 0 (inl [])])) = [js "3000-0"; gi_id old_image].
Proof. vm_compute. split; reflexivity. Qed.
